(* ===== verification/_CoqProject ===== *)
-Q . S2P
Prelude.v
Sha256.v
VideoTs.v
Tdb.v
KeyDb.v
ConnDb.v
CStr.v
VideoAuth.v
HttpReq.v
WebSocket.v
MavLink.v
Session.v
Cleanup.v
BinLog.v
VideoStream.v
Amf.v
Rtmp.v
RtmpMedia.v
VideoRec.v
VideoMkv.v
HttpChunks.v
Socket.v
Splice.v
Backend.v
RtspView.v
VideoView.v
VideoViewSpec.v
VideoSlot.v
MkvPublish.v
VideoPublish.v
VideoLoop.v
VideoLoopSpec.v
VideoOwner.v
Ports.v
PortsSpec.v
Relay.v
RelaySpec.v
RelayLog.v
RelayProps.v
Util.v
VideoTsTest.v
BackendChild.v
