(* ===== verification/Prelude.v ===== *)
(** * SupportProxy: verification development (root file)

    SupportProxy relays MAVLink between a vehicle's user and support engineers, per pair of
    ports, and fans out one video stream per slot of a pair.  This library models the C++
    program under src/ and proves what makes its parts correct.

    ** The program and its model

    One parent process ([Ports]) keeps a table of entries in step with keys.tdb ([KeyDb] over
    the interface [Tdb]), holds the listeners of idle entries, and forks a session child per
    entry, a video child per entry and one log cleaner ([Cleanup]).  The session child relays
    messages between [MavLink] links, some of them behind a [WebSocket]; it names and writes
    its logs ([Session], [BinLog]) and publishes its connections as rows of connections.tdb
    ([ConnDb]).  The video child ([VideoSlot], [VideoPublish], [MkvPublish], [VideoLoop]) takes
    publishers over UDP, RTP, RTSP, RTMP and HTTP, turns them into an MPEG-TS or Matroska
    stream in a ring, and serves viewers from it.  The two children meet only in
    connections.tdb: video admission may ask whether the entry has a live session from the
    publisher's address, an authenticated one where the entry signs both ways.

    Each file opens with the correspondence of its state and operations to the code.

    - Prelude: byte strings, little- and big-endian words, fixed-width wrap ([u8] .. [u64],
      [to_signed]), record update, shared lemmas and tactics.  CStr: the C and C++ string
      functions the parsers use.  Socket: a non-blocking stream socket.
    - Sha256 (sha256.cpp), Tdb (interface), KeyDb (keydb.cpp), ConnDb (conntdb.cpp and the
      connection-row code of supportproxy.cpp and video.cpp).
    - MavLink (mavlink.cpp), WebSocket (websocket.cpp), HttpReq (httpreq.cpp), VideoAuth
      (videoauth.cpp and the token minting of webadmin/videotoken.py).
    - Session (session.cpp, tlog.cpp), Cleanup (cleanup.cpp), BinLog (binlog.cpp).
    - VideoTs (videots.cpp) and VideoTsTest (its self-test and fuzzer), VideoStream
      (videostream.cpp), VideoRec (videorec.cpp), VideoMkv and HttpChunks (videomkv.h), Amf, Rtmp
      and RtmpMedia (videortmp.cpp), Backend and BackendChild (videortsp.cpp: the parent's and the
      child's side of a backend), RtspView (videortspview.cpp), VideoView and VideoViewSpec
      (videoview.cpp).
    - Splice, VideoSlot, MkvPublish, VideoPublish, VideoLoop (video.cpp), with their theorems in
      VideoLoopSpec and VideoOwner.
    - Ports (supportproxy.cpp: the parent), with its theorems in PortsSpec; Relay
      (supportproxy.cpp: main_loop, the session child), with its invariant in RelaySpec, its tlog
      in RelayLog and its theorems in RelayProps.  Util (util.cpp): listeners, the probes of a TCP
      peer, addresses and times as text.

    ** What the theorems show

    - Who gets in.  [accepted_messages_signed]: nothing unsigned passes a link that requires
      signing, whether or not the saves of keys.tdb succeed (but for the one way, named there,
      that a failed save leaves a link without its key).  [admission_justified], [publisher_justified]: a publisher was entitled when it
      took its slot.  [viewer_admitted], [rtsp_view_authorised], [token_valid_sound]: so was a
      viewer.  [relay_signed]: what the session child passes on was accepted, on a link that
      vouches for it; [relay_evicts]: who proves nothing cannot keep an engineer's slot.
    - Who holds what.  [slot_owner_refines]: a slot's owner follows an abstract machine of four
      moves; [reachable_slots_ok]: every slot is consistent in every reachable state.
      [children_accounted], [reload_signals], [reload_mirrors], [parent_watches],
      [pair_recovers]: the parent loses no child, signals only its own and only with cause, and
      its table, listeners and epoll set mirror keys.tdb.  [relay_slots_ok]: the session child's
      engineers' table, its counts and the rows made of it are exact.  [backend_never_leaks]: no
      descriptor or process of a backend is lost.
    - What arrives is what was sent.  [message_routed], [session_log_complete]: a user's message
      goes once to each engineer, a failed send frees the slot, and the tlog, where its writes
      are whole, is what was handed on.  [viewer_stream_faithful],
      [rtsp_media_faithful], [media_delivered], [mkv_published], [rtsp_filter_faithful], [message_decodes],
      [wire_in_order], [recording_faithful], [binlog_faithful], [ring_refines_stream]; and
      [viewer_catches_up] for progress.
    - Parsers.  [ts_chunking_irrelevant], [rtmp_segmentation]: how bytes are cut into reads does
      not matter; [ts_scanner_safe], [amf_skip_exact], [rtmp_holds_bounded],
      [rtmp_parser_terminates].
    - Stores and logs.  [sha256_stream_spec], [saved_key_loads], [cleanup_spares],
      [block_outcome].  Theorems of the same kind that the list above leaves out are
      [saved_timestamp_monotone], [process_drops_exact], [mav_snapshot_keeps_drops],
      [quota_pass_spec], [tick_answers], [credential_settles], [tcp_listener_opened],
      [tcp_state_spec] and [addr_to_str_reads]; [backend_inherits_nothing] (what parses a peer's
      stream has none of the proxy's descriptors) and [fuzz_never_fails], [selftest_video_passes]
      (the program's own tests cannot fail).

    ** Conventions

    A byte string is a list of integers in 0..255, a machine word an integer with its wrap
    written out, a struct a record, a C++ class a record with one definition per method.  What
    the kernel, the clock and other processes answer (reads, writes, binds, forks, times) is an
    argument, a list in the state that is consumed, or an environment record per event; what the
    code does to them is recorded.  Times are integers, in microseconds unless a file says
    otherwise.  Code that is not under src/ -- the generated MAVLink library, OpenSSL, the C
    calendar, TDB -- is a parameter with its documented behaviour as hypotheses, and every
    theorem that has such a hypothesis is applied to a concrete instance.

    Fuel.  Loops whose recursion is not structural take a count that the caller derives from
    what the loop consumes: a WebSocket decode or an RTMP parse consumes at least one byte per
    turn, so the length of its input plus one is enough; the session child's loops over a read
    take at least one byte per message, so the read's length is; a flush takes at most one turn per
    queued outcome of a write; the pump of a viewer one per byte or outcome.  That the count
    suffices is proved where the result is stated ([rtmp_parser_terminates], the [_fuel] lemmas).
    Search bounds that the code has (the 100000 suffixes of a session name, the ten NACKs of a
    tick, the AMF0 depth) are the code's.

    ** Not modelled

    - Printing, process titles and exit codes: no logic of their own.
    - Python (webadmin, command-line tools, tests), scripts and containers, but for the token
      minting the C++ checks.
    - Descriptors are named by their role, so that an event for a descriptor closed and reused
      within one batch of events is out of scope; the readiness byte a video child sends its
      parent is modelled on the child's side only.
    - Of the session child: the bytes of the bin log's own sends (their messages are recorded),
      and the inside of a WebSocket behind a link, whose reads are arguments ([WebSocket] models
      it).
*)

From Stdlib Require Export ZArith Lia Bool.
From stdpp Require Export base list gmap strings numbers.

#[global] Open Scope Z_scope.
#[global] Open Scope list_scope.

(** ** Notations *)

Declare Scope proxy_scope.
Delimit Scope proxy_scope with proxy.

(** A byte string is a list of integers; [bytes_ok] says each one is a byte. *)
Abbreviation bytes := (list Z).

(** The length of a list as an integer, the form C's [size_t] counts take. *)
Abbreviation len l := (Z.of_nat (length l)) (only parsing).

(** ** Record update

    [r <| f := v |>] is [r] with field [f] set to [v]; a record gets the notation
    from an [Eta] instance that rebuilds it from its projections.  A chain of updates
    is reduced to one constructor application as it is written. *)

Class Eta (R : Type) := eta : R -> R.

Ltac reduce_projs b t :=
  lazymatch b with
  | ?g (?p _) => let t := eval cbn beta iota delta [p] in t in reduce_projs g t
  | _ => t
  end.

Ltac record_set r f v :=
  let R := type of r in
  let i := constr:(_ : Eta R) in
  let i := eval hnf in i in
  let g := constr:(fun x : R => ltac:(
    let b := eval cbv beta in (i x) in
    let p := eval pattern (f x) in b in
    match p with ?h _ => let t := eval cbv beta in (h v) in exact t end)) in
  let t := eval cbv beta in (g r) in
  let b := eval cbv beta in (i r) in
  let t := reduce_projs b t in
  exact t.

#[warnings="-postfix-notation-not-level-1"]
Notation "r '<|' f ':=' v '|>'" := (ltac:(record_set r f v))
  (at level 12, left associativity, only parsing).

(** ** Machine integers

    A [w]-bit unsigned value is a [Z] in [[0, 2^w)]; C's conversions and
    wrap-around arithmetic are [wrap w]. *)

Definition wrap (w z : Z) : Z := z mod 2 ^ w.

Abbreviation u8 := (wrap 8).
Abbreviation u16 := (wrap 16).
Abbreviation u32 := (wrap 32).
Abbreviation u64 := (wrap 64).

(** Two's complement reading of a [w]-bit value, for C's signed types. *)
Definition to_signed (w z : Z) : Z :=
  if decide (wrap w z < 2 ^ (w - 1)) then wrap w z else wrap w z - 2 ^ w.

Section wrap.
Implicit Types w x y z : Z.

Lemma wrap_range w z : 0 <= w -> 0 <= wrap w z < 2 ^ w.
Proof. intros. apply Z.mod_pos_bound, Z.pow_pos_nonneg; lia. Qed.

Lemma wrap_small w z : 0 <= z < 2 ^ w -> wrap w z = z.
Proof. apply Z.mod_small. Qed.

Lemma wrap_wrap w z : wrap w (wrap w z) = wrap w z.
Proof. apply Zmod_mod. Qed.

Lemma wrap_add_l w x y : wrap w (wrap w x + y) = wrap w (x + y).
Proof. apply Zplus_mod_idemp_l. Qed.

Lemma wrap_add_r w x y : wrap w (x + wrap w y) = wrap w (x + y).
Proof. apply Zplus_mod_idemp_r. Qed.

(** The carry test [new < old] of an unsigned addition of a reduced operand. *)
Lemma wrap_add_carry w x y :
  0 <= x < 2 ^ w -> 0 <= y < 2 ^ w ->
  wrap w (x + y) = (if decide (wrap w (x + y) < x) then x + y - 2 ^ w else x + y).
Proof.
  intros. unfold wrap. destruct (Z_lt_le_dec (x + y) (2 ^ w)).
  - rewrite Z.mod_small by lia. case_decide; lia.
  - replace (x + y) with (x + y - 2 ^ w + 1 * 2 ^ w) by lia.
    rewrite Z.mod_add, Z.mod_small by lia. case_decide; lia.
Qed.
End wrap.

(** Reduction by a product, seen through its first factor. *)
Lemma mod_mul_mod z a b : 0 < a -> 0 < b -> (z mod (a * b)) mod a = z mod a.
Proof.
  intros. rewrite Z.rem_mul_r, (Z.mul_comm a (_ mod b)), Z.mod_add by lia. apply Zmod_mod.
Qed.

Lemma mod_mul_div z a b : 0 < a -> 0 < b -> (z mod (a * b)) / a = (z / a) mod b.
Proof.
  intros. rewrite Z.rem_mul_r, (Z.mul_comm a (_ mod b)), Z.div_add by lia.
  rewrite (Z.div_small (z mod a)); [lia|]. apply Z.mod_pos_bound. lia.
Qed.

(** [land] with a mask of ones is reduction modulo a power of two. *)
Lemma land_ones_mod z n : 0 <= n -> Z.land z (Z.ones n) = z mod 2 ^ n.
Proof. apply Z.land_ones. Qed.

(** ** Bytes *)

Definition is_byte (b : Z) : Prop := 0 <= b < 256.
#[global] Instance is_byte_dec b : Decision (is_byte b).
Proof. unfold is_byte. apply _. Defined.

Abbreviation bytes_ok := (Forall is_byte).

(** A C string literal as bytes. *)
Definition bs (s : string) : bytes :=
  map (fun a => Z.of_N (Ascii.N_of_ascii a)) (String.list_ascii_of_string s).

(** [buf[i]] for an in-range read. *)
Definition byte_at (l : bytes) (i : Z) : Z := nth (Z.to_nat i) l 0.

(** [n] bytes from offset [i]. *)
Definition slice (l : bytes) (i n : Z) : bytes := take (Z.to_nat n) (drop (Z.to_nat i) l).

Definition zdrop {A} (n : Z) (l : list A) : list A := drop (Z.to_nat n) l.
Definition ztake {A} (n : Z) (l : list A) : list A := take (Z.to_nat n) l.

(** [memcpy(buf + off, src, n)] into a fixed-size array. *)
Definition memcpy_at (buf : bytes) (off : nat) (src : bytes) : bytes :=
  take off buf ++ src ++ drop (off + length src) buf.

Section bytes.
Implicit Types l k : bytes.

Lemma bytes_ok_app l k : bytes_ok (l ++ k) <-> bytes_ok l /\ bytes_ok k.
Proof. apply Forall_app. Qed.

Lemma bytes_ok_cons b l : bytes_ok (b :: l) <-> is_byte b /\ bytes_ok l.
Proof. apply Forall_cons_iff. Qed.

Lemma bytes_ok_take n l : bytes_ok l -> bytes_ok (take n l).
Proof. apply Forall_take. Qed.

Lemma bytes_ok_drop n l : bytes_ok l -> bytes_ok (drop n l).
Proof. apply Forall_drop. Qed.

Lemma bytes_ok_replicate n b : is_byte b -> bytes_ok (replicate n b).
Proof. apply Forall_replicate. Qed.

Lemma byte_at_ok l i : bytes_ok l -> is_byte (byte_at l i).
Proof.
  intros Hl. unfold byte_at. destruct (nth_in_or_default (Z.to_nat i) l 0) as [Hin| ->].
  - eapply List.Forall_forall; eassumption.
  - unfold is_byte; lia.
Qed.

Lemma byte_at_take (l : bytes) n i : 0 <= i < Z.of_nat n -> byte_at (take n l) i = byte_at l i.
Proof.
  intros. unfold byte_at. destruct (decide (Z.to_nat i < length l)%nat).
  - rewrite <-(take_drop n l) at 2. rewrite app_nth1; [done|]. rewrite length_take. lia.
  - rewrite !nth_overflow; [done|lia|rewrite length_take; lia].
Qed.

Lemma byte_at_app_l l k i : 0 <= i < len l -> byte_at (l ++ k) i = byte_at l i.
Proof. intros. unfold byte_at. apply app_nth1. lia. Qed.

Lemma byte_at_app_r l k i : len l <= i -> byte_at (l ++ k) i = byte_at k (i - len l).
Proof. intros. unfold byte_at. rewrite app_nth2 by lia. f_equal. lia. Qed.

Lemma length_slice l i n :
  0 <= i -> 0 <= n -> i + n <= len l -> length (slice l i n) = Z.to_nat n.
Proof. intros. unfold slice. rewrite length_take, length_drop. lia. Qed.

Lemma slice_app_l l k i n :
  0 <= i -> 0 <= n -> i + n <= len l -> slice (l ++ k) i n = slice l i n.
Proof.
  intros. unfold slice. rewrite drop_app_le by lia.
  rewrite take_app_le; [done|]. rewrite length_drop. lia.
Qed.

Lemma bytes_ok_slice l i n : bytes_ok l -> bytes_ok (slice l i n).
Proof. intros. by apply bytes_ok_take, bytes_ok_drop. Qed.

Lemma zdrop_zdrop {A} m n (l : list A) :
  0 <= m -> 0 <= n -> zdrop m (zdrop n l) = zdrop (n + m) l.
Proof. intros. unfold zdrop. rewrite drop_drop. f_equal. lia. Qed.

Lemma zdrop_app_le {A} n (l k : list A) : n <= len l -> zdrop n (l ++ k) = zdrop n l ++ k.
Proof. intros. unfold zdrop. apply drop_app_le. lia. Qed.

Lemma length_zdrop {A} n (l : list A) : length (zdrop n l) = (length l - Z.to_nat n)%nat.
Proof. apply length_drop. Qed.

Lemma length_ztake {A} n (l : list A) : length (ztake n l) = (Z.to_nat n `min` length l)%nat.
Proof. apply length_take. Qed.

Lemma ztake_zdrop {A} n (l : list A) : ztake n l ++ zdrop n l = l.
Proof. apply take_drop. Qed.
Lemma length_memcpy_at buf off src :
  (off + length src <= length buf)%nat -> length (memcpy_at buf off src) = length buf.
Proof. intros. unfold memcpy_at. rewrite !length_app, length_take, length_drop. lia. Qed.

Lemma take_memcpy_at buf off src :
  (off + length src <= length buf)%nat ->
  take (off + length src) (memcpy_at buf off src) = take off buf ++ src.
Proof.
  intros. unfold memcpy_at. rewrite app_assoc. apply take_app_length'.
  rewrite length_app, length_take. lia.
Qed.

End bytes.

(** ** Endian codecs

    [le_bytes n z] are the [n] little-endian bytes of [z] (how the x86 host lays
    an integer out in memory), [be_bytes n z] the big-endian ones (wire order). *)

Fixpoint le_bytes (n : nat) (z : Z) : bytes :=
  match n with
  | O => []
  | S n => z mod 256 :: le_bytes n (z / 256)
  end.

Fixpoint le_val (l : bytes) : Z :=
  match l with
  | [] => 0
  | b :: l => b + 256 * le_val l
  end.

Definition be_bytes (n : nat) (z : Z) : bytes := reverse (le_bytes n z).
Definition be_val (l : bytes) : Z := le_val (reverse l).

Section endian.
Lemma length_le_bytes n z : length (le_bytes n z) = n.
Proof. revert z; induction n; simpl; auto. Qed.

Lemma length_be_bytes n z : length (be_bytes n z) = n.
Proof. unfold be_bytes. by rewrite length_reverse, length_le_bytes. Qed.

Lemma le_bytes_ok n z : bytes_ok (le_bytes n z).
Proof.
  revert z; induction n; intros; simpl; constructor; [|by apply IHn].
  unfold is_byte. apply Z.mod_pos_bound. lia.
Qed.

Lemma be_bytes_ok n z : bytes_ok (be_bytes n z).
Proof. unfold be_bytes. apply Forall_reverse, le_bytes_ok. Qed.

Lemma le_val_le_bytes n z : le_val (le_bytes n z) = z mod 256 ^ Z.of_nat n.
Proof.
  revert z; induction n as [|n IH]; intros z; simpl.
  - by rewrite Z.mod_1_r.
  - rewrite IH, Nat2Z.inj_succ, Z.pow_succ_r by lia.
    rewrite Z.rem_mul_r; [lia|lia|]. apply Z.pow_pos_nonneg; lia.
Qed.

Lemma le_bytes_le_val l : bytes_ok l -> le_bytes (length l) (le_val l) = l.
Proof.
  induction 1 as [|b l Hb Hl IH]; simpl; [done|]. unfold is_byte in Hb.
  replace (b + 256 * le_val l) with (b + le_val l * 256) by lia.
  rewrite Z.mod_add, Z.div_add, Z.mod_small, Z.div_small, Z.add_0_l, IH by lia. done.
Qed.

Lemma le_val_range l : bytes_ok l -> 0 <= le_val l < 256 ^ len l.
Proof.
  induction 1 as [|b l Hb Hl IH]; [simpl; lia|]. unfold is_byte in Hb.
  rewrite length_cons, Nat2Z.inj_succ, Z.pow_succ_r by lia. cbn [le_val]. lia.
Qed.

Lemma le_val_le_bytes_small n z : 0 <= z < 256 ^ Z.of_nat n -> le_val (le_bytes n z) = z.
Proof. intros. rewrite le_val_le_bytes. by apply Z.mod_small. Qed.

Lemma be_val_be_bytes n z : be_val (be_bytes n z) = z mod 256 ^ Z.of_nat n.
Proof. unfold be_val, be_bytes. by rewrite reverse_involutive, le_val_le_bytes. Qed.

Lemma be_val_be_bytes_small n z : 0 <= z < 256 ^ Z.of_nat n -> be_val (be_bytes n z) = z.
Proof. intros. rewrite be_val_be_bytes. by apply Z.mod_small. Qed.

Lemma be_bytes_be_val l : bytes_ok l -> be_bytes (length l) (be_val l) = l.
Proof.
  intros. unfold be_val, be_bytes. rewrite <-(length_reverse l).
  rewrite le_bytes_le_val by (by apply Forall_reverse). apply reverse_involutive.
Qed.

Lemma be_val_range l : bytes_ok l -> 0 <= be_val l < 256 ^ len l.
Proof.
  intros. unfold be_val. rewrite <-(length_reverse l). apply le_val_range.
  by apply Forall_reverse.
Qed.
End endian.

(** ** Fixed layouts: reading a field of a concatenation *)

Lemma slice_skip a l i n :
  len a <= i -> slice (a ++ l) i n = slice l (i - len a) n.
Proof.
  intros. unfold slice. rewrite drop_app_ge by lia. do 2 f_equal. lia.
Qed.

Lemma slice_here a l i n : i = 0 -> len a = n -> slice (a ++ l) i n = a.
Proof. intros -> <-. unfold slice. rewrite drop_0, Nat2Z.id. apply take_app_length. Qed.

Lemma slice_whole a i n : i = 0 -> len a = n -> slice a i n = a.
Proof. intros -> <-. unfold slice. rewrite drop_0, Nat2Z.id. apply firstn_all. Qed.

Lemma slice_ztake l n i m : 0 <= i -> 0 <= m -> i + m <= n -> slice (ztake n l) i m = slice l i m.
Proof.
  intros. unfold slice, ztake. rewrite skipn_firstn_comm, take_take. f_equal. lia.
Qed.

(** Two adjacent fields are one longer slice. *)
Lemma slice_slice_app l i n m j :
  0 <= i -> 0 <= n -> 0 <= m -> j = i + n -> slice l i n ++ slice l j m = slice l i (n + m).
Proof.
  intros ? ? ? ->. unfold slice.
  rewrite (Z2Nat.inj_add i n), <-drop_drop by lia.
  rewrite (Z2Nat.inj_add n m) by lia. apply take_take_drop.
Qed.

(** An array of [k] items of [w] bytes each. *)
Fixpoint chunks (w k : nat) (l : bytes) : list bytes :=
  match k with
  | O => []
  | S k => take w l :: chunks w k (drop w l)
  end.

Lemma chunks_concat w (ls : list bytes) :
  Forall (fun x => length x = w) ls -> chunks w (length ls) (concat ls) = ls.
Proof.
  induction 1 as [|x ls Hx _ IH]; [done|]. cbn [concat length chunks].
  by rewrite take_app_length', drop_app_length', IH by done.
Qed.

Lemma concat_chunks w k l : length l = (k * w)%nat -> concat (chunks w k l) = l.
Proof.
  revert l. induction k as [|k IH]; intros l Hl; cbn [chunks concat].
  - by destruct l.
  - rewrite IH; [apply take_drop|]. rewrite length_drop. lia.
Qed.

Lemma length_chunks w k l : length (chunks w k l) = k.
Proof. revert l. induction k; intros; cbn; auto. Qed.

Lemma length_concat_const w (ls : list bytes) :
  Forall (fun x => length x = w) ls -> length (concat ls) = (length ls * w)%nat.
Proof. induction 1 as [|x ls Hx _ IH]; [done|]. cbn. rewrite length_app. lia. Qed.

(** Little-endian 32-bit arrays. *)
Definition le_words (ws : list Z) : bytes := concat (map (le_bytes 4) ws).
Definition words_le (k : nat) (l : bytes) : list Z := map le_val (chunks 4 k l).

Definition is_u32 (z : Z) : Prop := 0 <= z < 2 ^ 32.
#[global] Instance is_u32_dec z : Decision (is_u32 z).
Proof. unfold is_u32. apply _. Defined.

Definition is_u64 (z : Z) : Prop := 0 <= z < 2 ^ 64.
#[global] Instance is_u64_dec z : Decision (is_u64 z).
Proof. unfold is_u64. apply _. Defined.

Lemma length_le_words ws : length (le_words ws) = (length ws * 4)%nat.
Proof.
  unfold le_words. rewrite (length_concat_const 4), length_map; [done|].
  apply Forall_map, Forall_true. intros. apply length_le_bytes.
Qed.

Lemma words_le_le_words ws : Forall is_u32 ws -> words_le (length ws) (le_words ws) = ws.
Proof.
  intros H. unfold words_le, le_words. rewrite <-(length_map (le_bytes 4) ws), chunks_concat.
  - rewrite map_map. rewrite <-(map_id ws) at 2. apply map_ext_Forall.
    eapply List.Forall_impl; [|exact H]. intros z Hz. by apply le_val_le_bytes_small.
  - apply Forall_map, Forall_true. intros. apply length_le_bytes.
Qed.

Lemma to_signed_wrap w z :
  0 < w -> - 2 ^ (w - 1) <= z < 2 ^ (w - 1) -> to_signed w (wrap w z) = z.
Proof.
  intros Hw Hz. assert (H2 : 2 ^ w = 2 * 2 ^ (w - 1)).
  { rewrite <-Z.pow_succ_r by lia. f_equal. lia. }
  unfold to_signed. rewrite wrap_wrap. unfold wrap.
  destruct (decide (0 <= z)).
  - rewrite Z.mod_small by lia. rewrite decide_True; lia.
  - assert (Hm : z mod 2 ^ w = z + 2 ^ w).
    { symmetry. apply (Z.mod_unique _ _ (-1)); lia. }
    rewrite Hm, decide_False; lia.
Qed.

Definition is_i32 (z : Z) : Prop := - 2 ^ 31 <= z < 2 ^ 31.
#[global] Instance is_i32_dec z : Decision (is_i32 z).
Proof. unfold is_i32. apply _. Defined.

(** A C [int] in memory and back. *)
Definition int_bytes (z : Z) : bytes := le_bytes 4 z.
Definition int_val (l : bytes) : Z := to_signed 32 (le_val l).

Lemma int_val_int_bytes z : is_i32 z -> int_val (int_bytes z) = z.
Proof.
  intros Hz. unfold int_val, int_bytes. rewrite le_val_le_bytes.
  apply (to_signed_wrap 32 z); [lia|exact Hz].
Qed.

Lemma int_bytes_inj y z : is_i32 y -> is_i32 z -> int_bytes y = int_bytes z -> y = z.
Proof. intros Hy Hz E. by rewrite <-(int_val_int_bytes y), E, int_val_int_bytes. Qed.

Lemma le_bytes_cong n x y :
  x mod 256 ^ Z.of_nat n = y mod 256 ^ Z.of_nat n -> le_bytes n x = le_bytes n y.
Proof.
  intros E. rewrite <-(le_bytes_le_val (le_bytes n x)), <-(le_bytes_le_val (le_bytes n y))
    by apply le_bytes_ok.
  by rewrite !length_le_bytes, !le_val_le_bytes, E.
Qed.

Lemma to_signed_cong w z : 0 <= w -> to_signed w z mod 2 ^ w = z mod 2 ^ w.
Proof.
  intros. unfold to_signed. case_decide; unfold wrap.
  - apply Zmod_mod.
  - rewrite Zminus_mod, Z_mod_same_full, Z.sub_0_r, !Zmod_mod. done.
Qed.

Lemma int_bytes_int_val l : bytes_ok l -> length l = 4%nat -> int_bytes (int_val l) = l.
Proof.
  intros Hl Hn. unfold int_bytes, int_val. rewrite <-(le_bytes_le_val l) at 2 by done.
  rewrite Hn. apply le_bytes_cong, (to_signed_cong 32). lia.
Qed.

Lemma le_words_words_le k l : bytes_ok l -> length l = (k * 4)%nat -> le_words (words_le k l) = l.
Proof.
  revert l. induction k as [|k IH]; intros l Hl Hn; [by destruct l|].
  unfold le_words, words_le in *. cbn [chunks map concat].
  rewrite IH; [|by apply Forall_drop|rewrite length_drop; lia].
  replace 4%nat with (length (take 4 l)) at 1 by (rewrite length_take; lia).
  rewrite le_bytes_le_val by (by apply Forall_take). apply take_drop.
Qed.

Lemma words_le_le_words_n k ws :
  Forall is_u32 ws -> len ws = Z.of_nat k -> words_le k (le_words ws) = ws.
Proof. intros ? E%Nat2Z.inj. subst k. by apply words_le_le_words. Qed.

Lemma chunks_concat_n w k (ls : list bytes) :
  Forall (fun x => length x = w) ls -> len ls = Z.of_nat k -> chunks w k (concat ls) = ls.
Proof. intros ? E%Nat2Z.inj. subst k. by apply chunks_concat. Qed.

(** Reading a field and writing it back gives the same bytes. *)
Lemma le_bytes_slice b i n k :
  bytes_ok b -> 0 <= i -> i + n <= len b -> n = Z.of_nat k ->
  le_bytes k (le_val (slice b i n)) = slice b i n.
Proof.
  intros ? ? ? ->. pose proof (length_slice b i (Z.of_nat k)) as L. rewrite Nat2Z.id in L.
  rewrite <-(L ltac:(lia) ltac:(lia) ltac:(lia)) at 1.
  apply le_bytes_le_val. by apply bytes_ok_slice.
Qed.

Lemma int_bytes_slice b i :
  bytes_ok b -> 0 <= i -> i + 4 <= len b -> int_bytes (int_val (slice b i 4)) = slice b i 4.
Proof.
  intros. apply int_bytes_int_val; [by apply bytes_ok_slice|]. by rewrite length_slice by lia.
Qed.

Lemma le_words_slice b i n k :
  bytes_ok b -> 0 <= i -> i + n <= len b -> n = 4 * Z.of_nat k ->
  le_words (words_le k (slice b i n)) = slice b i n.
Proof.
  intros. apply le_words_words_le; [by apply bytes_ok_slice|]. rewrite length_slice by lia. lia.
Qed.

Lemma concat_chunks_slice b i n k w :
  0 <= i -> i + n <= len b -> n = Z.of_nat w * Z.of_nat k ->
  concat (chunks w k (slice b i n)) = slice b i n.
Proof. intros. apply concat_chunks. rewrite length_slice by lia. lia. Qed.

(** Compute the fields of a record's memory image: [slice] of a concatenation, and a
    concatenation of adjacent slices. *)
Ltac slice_norm :=
  repeat match goal with
    | |- context [slice (?a ++ ?l) ?i ?n] =>
        first [ rewrite (slice_here a l i n) by (autorewrite with proxy_len; lia)
              | rewrite (slice_skip a l i n) by (autorewrite with proxy_len; lia) ]
    | |- context [slice ?a ?i ?n] =>
        rewrite (slice_whole a i n) by (autorewrite with proxy_len; lia)
    end.
Ltac slice_join :=
  repeat first
    [ rewrite le_bytes_slice by (assumption || lia)
    | rewrite int_bytes_slice by (assumption || lia)
    | rewrite le_words_slice by (assumption || lia)
    | rewrite concat_chunks_slice by (assumption || lia) ];
  repeat (rewrite slice_slice_app by lia).

(** ** Automation

    [proxy] collects the length and range facts that side conditions need;
    [solve_len] discharges a goal about lengths by rewriting them and [lia]. *)

Create HintDb proxy.
#[export] Hint Resolve be_bytes_ok le_bytes_ok bytes_ok_take bytes_ok_drop byte_at_ok
  bytes_ok_slice : proxy.
Create Rewrite HintDb proxy_len.
#[export] Hint Rewrite length_le_bytes length_be_bytes @length_app @length_take @length_drop
  @length_zdrop @length_ztake @length_replicate @length_reverse @length_insert length_le_words @length_map
  @length_chunks : proxy_len.

Ltac solve_len := autorewrite with proxy_len in *; simpl in *; lia.

(** Prove a decidable proposition on concrete data by evaluation. *)
Ltac decide_vm := apply (bool_decide_unpack _); vm_compute; exact I.

(** Case analysis on every test of the goal (or of a hypothesis). *)
Ltac case_tests :=
  repeat match goal with
         | |- context [match ?x with _ => _ end] => destruct x eqn:?
         end.

Lemma filter_all {A} (P : A -> Prop) `{!forall x, Decision (P x)} (l : list A) :
  Forall P l -> filter P l = l.
Proof. induction 1 as [|x l Hx _ IH]; [done|]. by rewrite filter_cons_True, IH. Qed.

Ltac case_tests_in H :=
  repeat match type of H with
         | context [match ?x with _ => _ end] => destruct x eqn:?
         end.

(** Turn boolean comparisons in the context into propositions. *)
Ltac reflect_bools :=
  repeat match goal with
         | H : (_ && _)%bool = true |- _ => apply andb_true_iff in H as [? ?]
         | H : (_ || _)%bool = false |- _ => apply orb_false_iff in H as [? ?]
         | H : negb _ = true |- _ => apply negb_true_iff in H
         | H : negb _ = false |- _ => apply negb_false_iff in H
         | H : (_ =? _)%Z = true |- _ => apply Z.eqb_eq in H
         | H : (_ =? _)%Z = false |- _ => apply Z.eqb_neq in H
         | H : (_ <? _)%Z = true |- _ => apply Z.ltb_lt in H
         | H : (_ <? _)%Z = false |- _ => apply Z.ltb_ge in H
         | H : (_ <=? _)%Z = true |- _ => apply Z.leb_le in H
         | H : (_ <=? _)%Z = false |- _ => apply Z.leb_gt in H
         end.
