(* ===== verification/Sha256.v ===== *)
(** * SHA-256 (src/sha256.cpp, src/sha256.h)

    The streaming context of the hash MAVLink signing uses, operation by
    operation, and the one-shot function it computes ([sha256_spec]: pad the
    whole message, then fold the compression function over its 64-byte blocks).
    The context's union is modelled by its bytes; the word view the code reads
    through [save_u32] is [load_block]. *)

From S2P Require Import Prelude.

(** ** Word operations *)

Definition not32 (x : Z) : Z := Z.lxor x 0xFFFFFFFF.
Definition Ch (x y z : Z) : Z := Z.lxor (Z.land x y) (Z.land (not32 x) z).
Definition Maj (x y z : Z) : Z := Z.lxor (Z.lxor (Z.land x y) (Z.land x z)) (Z.land y z).
Definition ROTR (x n : Z) : Z := Z.lor (Z.shiftr x n) (u32 (Z.shiftl x (32 - n))).
Definition Sigma0 (x : Z) : Z := Z.lxor (Z.lxor (ROTR x 2) (ROTR x 13)) (ROTR x 22).
Definition Sigma1 (x : Z) : Z := Z.lxor (Z.lxor (ROTR x 6) (ROTR x 11)) (ROTR x 25).
Definition sigma0 (x : Z) : Z := Z.lxor (Z.lxor (ROTR x 7) (ROTR x 18)) (Z.shiftr x 3).
Definition sigma1 (x : Z) : Z := Z.lxor (Z.lxor (ROTR x 17) (ROTR x 19)) (Z.shiftr x 10).

(** The table, four constants to the row as in the source: a row is written as
    one 128-bit number and [be_words] splits it. *)
Definition be_words (row : Z) : list Z :=
  map (fun i => u32 (Z.shiftr row (32 * i))) [3; 2; 1; 0].

Definition sha256_constant_256 : list Z := concat (map be_words [
  0x428a2f9871374491b5c0fbcfe9b5dba5;
  0x3956c25b59f111f1923f82a4ab1c5ed5;
  0xd807aa9812835b01243185be550c7dc3;
  0x72be5d7480deb1fe9bdc06a7c19bf174;
  0xe49b69c1efbe47860fc19dc6240ca1cc;
  0x2de92c6f4a7484aa5cb0a9dc76f988da;
  0x983e5152a831c66db00327c8bf597fc7;
  0xc6e00bf3d5a7914706ca635114292967;
  0x27b70a852e1b21384d2c6dfc53380d13;
  0x650a7354766a0abb81c2c92e92722c85;
  0xa2bfe8a1a81a664bc24b8b70c76c51a3;
  0xd192e819d6990624f40e3585106aa070;
  0x19a4c1161e376c082748774c34b0bcb5;
  0x391c0cb34ed8aa4a5b9cca4f682e6ff3;
  0x748f82ee78a5636f84c878148cc70208;
  0x90befffaa4506cebbef9a3f7c67178f2 ]).

(** ** The context *)

Record sha256_ctx := SHA256_ctx {
  sz0 : Z;                  (* sz[0]: low word of the bit count *)
  sz1 : Z;                  (* sz[1]: high word *)
  counter : list Z;         (* the eight chaining words *)
  save_bytes : bytes        (* u.save_bytes[64] *)
}.

Definition initial_counter : list Z :=
  [0x6a09e667; 0xbb67ae85; 0x3c6ef372; 0xa54ff53a;
   0x510e527f; 0x9b05688c; 0x1f83d9ab; 0x5be0cd19].

(** [sha256_init] leaves the save buffer as it was (stack garbage). *)
Definition sha256_init (m : sha256_ctx) : sha256_ctx :=
  SHA256_ctx 0 0 initial_counter (save_bytes m).

(** The message schedule: [data[i]] from the words before it. *)
Definition schedule_step (data : list Z) : list Z :=
  let i := length data in
  data ++ [u32 (sigma1 (nth (i - 2)%nat data 0) + nth (i - 7)%nat data 0
                + sigma0 (nth (i - 15)%nat data 0) + nth (i - 16)%nat data 0)].

Definition schedule (inp : list Z) : list Z := Nat.iter 48 schedule_step (take 16 inp).

Record working := W8 { AA : Z; BB : Z; CC : Z; DD : Z; EE : Z; FF : Z; GG : Z; HH : Z }.

Definition calc_round (w : working) (kd : Z * Z) : working :=
  let T1 := u32 (HH w + Sigma1 (EE w) + Ch (EE w) (FF w) (GG w) + kd.1 + kd.2) in
  let T2 := u32 (Sigma0 (AA w) + Maj (AA w) (BB w) (CC w)) in
  W8 (u32 (T1 + T2)) (AA w) (BB w) (CC w) (u32 (DD w + T1)) (EE w) (FF w) (GG w).

Definition compress (c inp : list Z) : list Z :=
  let at_ i := nth i c 0 in
  let w := foldl calc_round
             (W8 (at_ 0%nat) (at_ 1%nat) (at_ 2%nat) (at_ 3%nat)
                 (at_ 4%nat) (at_ 5%nat) (at_ 6%nat) (at_ 7%nat))
             (zip sha256_constant_256 (schedule inp)) in
  [u32 (at_ 0%nat + AA w); u32 (at_ 1%nat + BB w); u32 (at_ 2%nat + CC w);
   u32 (at_ 3%nat + DD w); u32 (at_ 4%nat + EE w); u32 (at_ 5%nat + FF w);
   u32 (at_ 6%nat + GG w); u32 (at_ 7%nat + HH w)].

Definition sha256_calc (m : sha256_ctx) (inp : list Z) : sha256_ctx :=
  SHA256_ctx (sz0 m) (sz1 m) (compress (counter m) inp) (save_bytes m).

(** [current[i]]: the host (little-endian) word whose bytes are those of
    [save_u32[i]] in reverse order. *)
Definition load_block (save : bytes) : list Z :=
  map (fun i => le_val (reverse (take 4 (drop (4 * i) save)))) (seq 0 16).

(** The loop of [sha256_update]; every turn consumes at least one byte, so the
    length of the input is enough fuel. *)
Fixpoint update_loop (fuel : nat) (m : sha256_ctx) (offset : nat) (p : bytes) : sha256_ctx :=
  match fuel with
  | O => m
  | S fuel =>
    match p with
    | [] => m
    | _ =>
      let l := Nat.min (64 - offset) (length p) in
      let m := SHA256_ctx (sz0 m) (sz1 m) (counter m)
                 (memcpy_at (save_bytes m) offset (take l p)) in
      if decide ((offset + l)%nat = 64%nat)
      then update_loop fuel (sha256_calc m (load_block (save_bytes m))) 0 (drop l p)
      else update_loop fuel m (offset + l) (drop l p)
    end
  end.

(** The bit counter's update: 32-bit product, 32-bit sum, carry by comparison. *)
Definition count_bits (m : sha256_ctx) (n : Z) : sha256_ctx :=
  let old_sz := sz0 m in
  let sz := u32 (old_sz + u32 (n * 8)) in
  SHA256_ctx sz (if sz <? old_sz then u32 (sz1 m + 1) else sz1 m)
    (counter m) (save_bytes m).

Definition sha256_update (m : sha256_ctx) (v : bytes) : sha256_ctx :=
  let offset := Z.to_nat ((sz0 m / 8) mod 64) in
  update_loop (length v) (count_bits m (len v)) offset v.

(** The padding block [zeros[0 .. dstart+8)]. *)
Definition final_padding (m : sha256_ctx) : bytes :=
  let offset := (sz0 m / 8) mod 64 in
  let dstart := (120 - offset - 1) mod 64 + 1 in
  0x80 :: replicate (Z.to_nat (dstart - 1)) 0 ++ be_bytes 4 (sz1 m) ++ be_bytes 4 (sz0 m).

Definition sha256_final_32bytes (m : sha256_ctx) : sha256_ctx * bytes :=
  let m := sha256_update m (final_padding m) in
  (m, concat (map (be_bytes 4) (counter m))).

(** ** Specification *)

(** Fold the compression function over the first [n] blocks of [msg]. *)
Fixpoint hash_blocks (n : nat) (c : list Z) (msg : bytes) : list Z :=
  match n with
  | O => c
  | S n => hash_blocks n (compress c (load_block msg)) (drop 64 msg)
  end.

Definition pad (msg : bytes) : bytes :=
  msg ++ [0x80] ++ replicate (Z.to_nat ((119 - len msg) mod 64)) 0
      ++ be_bytes 8 (len msg * 8).

Definition sha256_spec (msg : bytes) : bytes :=
  concat (map (be_bytes 4) (hash_blocks (length (pad msg) / 64) initial_counter (pad msg))).

(** The digest of a message fed to a context in pieces. *)
Definition sha256_stream (m0 : sha256_ctx) (chunks : list bytes) : bytes :=
  (sha256_final_32bytes (foldl sha256_update (sha256_init m0) chunks)).2.

(** FIPS 180-4's test vector for "abc". *)
Example sha256_abc :
  sha256_spec (bs "abc") =
  [0xba;0x78;0x16;0xbf;0x8f;0x01;0xcf;0xea;0x41;0x41;0x40;0xde;0x5d;0xae;0x22;0x23;
   0xb0;0x03;0x61;0xa3;0x96;0x17;0x7a;0x9c;0xb4;0x10;0xff;0x61;0xf2;0x00;0x15;0xad].
Proof. vm_compute. reflexivity. Qed.

(** ** Blocks *)

Lemma drop_drop_block msg n : drop (64 * n) (drop 64 msg) = drop (64 * S n) (msg : bytes).
Proof. rewrite drop_drop. f_equal. lia. Qed.

Lemma load_block_app blk rest :
  (64 <= length blk)%nat -> load_block (blk ++ rest) = load_block blk.
Proof.
  intros Hl. unfold load_block. apply list_fmap_ext. intros i x Hx.
  apply lookup_seq in Hx as [-> Hi]. do 2 f_equal.
  rewrite drop_app_le by lia. rewrite take_app_le; [done|]. rewrite length_drop. lia.
Qed.

Lemma hash_blocks_app n c msg rest :
  (64 * n <= length msg)%nat -> hash_blocks n c (msg ++ rest) = hash_blocks n c msg.
Proof.
  revert c msg. induction n as [|n IH]; intros c msg Hl; [done|]. cbn [hash_blocks].
  rewrite load_block_app by lia. rewrite drop_app_le by lia.
  apply IH. rewrite length_drop. lia.
Qed.

Lemma hash_blocks_snoc n c msg :
  hash_blocks (S n) c msg = compress (hash_blocks n c msg) (load_block (drop (64 * n) msg)).
Proof.
  revert c msg. induction n as [|n IH]; intros c msg; [done|].
  change (hash_blocks (S n) (compress c (load_block msg)) (drop 64 msg) =
    compress (hash_blocks n (compress c (load_block msg)) (drop 64 msg))
      (load_block (drop (64 * S n) msg))).
  rewrite IH, drop_drop_block. done.
Qed.

(** ** The streaming invariant

    [Absorbed m msg]: the context has digested every whole block of [msg] and
    holds the rest of it at the start of the save buffer. *)
Definition Absorbed (m : sha256_ctx) (msg : bytes) : Prop :=
  counter m = hash_blocks (length msg / 64) initial_counter msg
  /\ take (length msg mod 64) (save_bytes m) = drop (64 * (length msg / 64)) msg
  /\ length (save_bytes m) = 64%nat.

Definition Counted (m : sha256_ctx) (n : Z) : Prop :=
  0 <= sz0 m < 2 ^ 32 /\ 0 <= sz1 m < 2 ^ 32 /\ sz0 m + 2 ^ 32 * sz1 m = (n * 8) mod 2 ^ 64.

Lemma divmod_add_small n l :
  (n mod 64 + l < 64)%nat -> ((n + l) / 64 = n / 64 /\ (n + l) mod 64 = n mod 64 + l)%nat.
Proof.
  intros. pose proof (Nat.div_mod_eq n 64).
  split; symmetry; [eapply (Nat.div_unique _ _ _ (n mod 64 + l))
                   |eapply (Nat.mod_unique _ _ (n / 64))]; lia.
Qed.

Lemma divmod_add_full n l :
  (n mod 64 + l = 64)%nat -> ((n + l) / 64 = S (n / 64) /\ (n + l) mod 64 = 0)%nat.
Proof.
  intros. pose proof (Nat.div_mod_eq n 64).
  split; symmetry; [eapply (Nat.div_unique _ _ _ 0)
                   |eapply (Nat.mod_unique _ _ (S (n / 64)))]; lia.
Qed.

(** One [memcpy] extends the held remainder. *)
Lemma absorb_copy m msg l p :
  Absorbed m msg -> l = length p -> (length msg mod 64 + l <= 64)%nat ->
  let save := memcpy_at (save_bytes m) (length msg mod 64) p in
  length save = 64%nat
  /\ take (length msg mod 64 + l) save = drop (64 * (length msg / 64)) (msg ++ p).
Proof.
  intros (_ & Ht & Hs) -> Hle. cbn zeta. rewrite length_memcpy_at by lia.
  split; [done|]. rewrite take_memcpy_at by lia. rewrite Ht.
  rewrite drop_app_le; [done|]. pose proof (Nat.div_mod_eq (length msg) 64). lia.
Qed.

Lemma update_loop_absorbs fuel m offset p msg :
  (length p <= fuel)%nat -> offset = (length msg mod 64)%nat -> Absorbed m msg ->
  Absorbed (update_loop fuel m offset p) (msg ++ p).
Proof.
  revert m offset p msg. induction fuel as [|fuel IH]; intros m offset p msg Hf -> Ha.
  { destruct p; [by rewrite app_nil_r|simpl in Hf; lia]. }
  destruct p as [|b p']; cbn [update_loop]; [by rewrite app_nil_r|].
  set (p := b :: p') in *. assert (length p > 0)%nat by (subst p; simpl; lia).
  set (l := Nat.min _ _).
  pose proof (Nat.mod_upper_bound (length msg) 64 ltac:(lia)).
  assert (Hl : length (take l p) = l) by (rewrite length_take; lia).
  rewrite <-(take_drop l p), app_assoc.
  destruct (absorb_copy m msg l (take l p) Ha ltac:(lia) ltac:(lia)) as [Hs Ht].
  rewrite !take_drop.
  assert (Hlen : length (msg ++ take l p) = (length msg + l)%nat) by (rewrite length_app; lia).
  destruct Ha as (Hc & _ & _). case_decide as E.
  - destruct (divmod_add_full _ _ E) as [Hd Hm].
    apply IH; [rewrite length_drop; lia|by rewrite Hlen, Hm|].
    unfold Absorbed. rewrite Hlen, Hd, Hm. cbn [counter save_bytes sha256_calc].
    repeat split; [|by rewrite take_0, drop_ge by (rewrite Hlen; pose proof (Nat.div_mod_eq (length msg) 64); lia)|done].
    rewrite hash_blocks_snoc, hash_blocks_app by (pose proof (Nat.div_mod_eq (length msg) 64); lia).
    rewrite <-Hc, <-Ht, E, (take_ge (memcpy_at _ _ _)) by lia. done.
  - destruct (divmod_add_small (length msg) l ltac:(lia)) as [Hd Hm].
    apply IH; [rewrite length_drop; lia|by rewrite Hlen, Hm|].
    unfold Absorbed. rewrite Hlen, Hd, Hm. cbn [counter save_bytes].
    repeat split; [|done..].
    rewrite hash_blocks_app by (pose proof (Nat.div_mod_eq (length msg) 64); lia). done.
Qed.

Lemma update_loop_sizes fuel m offset p :
  sz0 (update_loop fuel m offset p) = sz0 m /\ sz1 (update_loop fuel m offset p) = sz1 m.
Proof.
  revert m offset p. induction fuel as [|fuel IH]; intros m offset p; [done|].
  cbn [update_loop]. destruct p as [|b p]; [done|].
  case_decide; match goal with |- context [update_loop fuel ?m ?o ?q] => apply (IH m o q) end.
Qed.

(** The counter stays the bit length, as long as one call brings fewer than
    2^29 bytes: the 32-bit product [len * 8] must not wrap. *)
Lemma count_bits_counted m n k :
  Counted m n -> 0 <= k < 2 ^ 29 -> Counted (count_bits m k) (n + k).
Proof.
  intros (H0 & H1 & Hs) Hk. unfold Counted, count_bits. cbn [sz0 sz1].
  assert (Hk8 : u32 (k * 8) = k * 8) by (apply wrap_small; lia). rewrite Hk8.
  pose proof (wrap_add_carry 32 (sz0 m) (k * 8) H0 ltac:(lia)) as Hc.
  pose proof (wrap_range 32 (sz0 m + k * 8) ltac:(lia)).
  pose proof (wrap_range 32 (sz1 m + 1) ltac:(lia)).
  replace ((n + k) * 8) with (n * 8 + k * 8) by lia.
  rewrite <-Zplus_mod_idemp_l, <-Hs.
  destruct (Z.ltb_spec (u32 (sz0 m + k * 8)) (sz0 m)) as [D|D].
  - rewrite decide_True in Hc by lia. repeat split; try lia. rewrite Hc.
    unfold wrap. destruct (decide (sz1 m = 2 ^ 32 - 1)) as [E|E].
    + rewrite E. change ((2 ^ 32 - 1 + 1) mod 2 ^ 32) with 0.
      replace (sz0 m + 2 ^ 32 * (2 ^ 32 - 1) + k * 8)
        with (sz0 m + k * 8 - 2 ^ 32 + 1 * 2 ^ 64) by lia.
      rewrite Z.mod_add, Z.mod_small by lia. lia.
    + rewrite !Z.mod_small by lia. lia.
  - rewrite decide_False in Hc by lia. repeat split; try lia. rewrite Hc.
    rewrite Z.mod_small; lia.
Qed.

Lemma counted_offset m (msg : bytes) :
  Counted m (len msg) -> Z.to_nat ((sz0 m / 8) mod 64) = (length msg mod 64)%nat.
Proof.
  intros (H0 & H1 & Hs). apply Nat2Z.inj. rewrite Nat2Z.inj_mod, Z2Nat.id.
  2: { apply Z.mod_pos_bound; lia. }
  set (n := len msg) in *.
  assert (Hn : (n * 8) mod 2 ^ 64 = 8 * (n mod 2 ^ 61)).
  { replace (2 ^ 64) with (2 ^ 61 * 8) by lia. rewrite Zmult_mod_distr_r. lia. }
  rewrite Hn in Hs. change (Z.of_nat 64) with 64.
  replace (n mod 64) with ((n mod 2 ^ 61) mod 64)
    by (change (2 ^ 61) with (64 * 2 ^ 55); apply mod_mul_mod; lia).
  replace (sz0 m) with (8 * (n mod 2 ^ 61 - 2 ^ 29 * sz1 m)) by lia.
  rewrite Z.mul_comm, Z.div_mul by lia.
  replace (n mod 2 ^ 61 - 2 ^ 29 * sz1 m)
    with (n mod 2 ^ 61 + (- (2 ^ 23 * sz1 m)) * 64) by lia.
  by rewrite Z.mod_add by lia.
Qed.

Lemma update_spec m v (msg : bytes) :
  Absorbed m msg -> Counted m (len msg) -> len v < 2 ^ 29 ->
  Absorbed (sha256_update m v) (msg ++ v) /\ Counted (sha256_update m v) (len (msg ++ v)).
Proof.
  intros Ha Hc Hv. unfold sha256_update.
  destruct (update_loop_sizes (length v) (count_bits m (len v))
              (Z.to_nat ((sz0 m / 8) mod 64)) v) as [E0 E1].
  split.
  - apply update_loop_absorbs; [lia|by apply counted_offset|done].
  - unfold Counted. rewrite E0, E1, length_app, Nat2Z.inj_add.
    apply count_bits_counted; [done|lia].
Qed.

Lemma init_spec m0 :
  length (save_bytes m0) = 64%nat ->
  Absorbed (sha256_init m0) [] /\ Counted (sha256_init m0) 0.
Proof.
  intros H. split; [|by repeat split].
  by repeat split.
Qed.

Lemma updates_spec (chunks : list bytes) m msg :
  Absorbed m msg -> Counted m (len msg) -> Forall (fun c => len c < 2 ^ 29) chunks ->
  Absorbed (foldl sha256_update m chunks) (msg ++ concat chunks)
  /\ Counted (foldl sha256_update m chunks) (len (msg ++ concat chunks)).
Proof.
  intros Ha Hc Hf. revert m msg Ha Hc. induction Hf as [|c chunks Hlt Hf IH]; intros m msg Ha Hc.
  { simpl. by rewrite app_nil_r. }
  cbn [foldl concat]. rewrite app_assoc.
  destruct (update_spec m c msg Ha Hc Hlt). by apply IH.
Qed.

(** The bytes [sha256_final_32bytes] feeds are the specification's padding. *)
Lemma final_padding_pad m (msg : bytes) :
  Counted m (len msg) -> msg ++ final_padding m = pad msg.
Proof.
  intros Hc. pose proof (counted_offset m msg Hc) as Ho. destruct Hc as (H0 & H1 & Hs).
  unfold pad, final_padding. f_equal. cbn [app]. f_equal. f_equal.
  - f_equal. pose proof (Z.mod_pos_bound (sz0 m / 8) 64 ltac:(lia)).
    apply (f_equal Z.of_nat) in Ho. rewrite Z2Nat.id, Nat2Z.inj_mod in Ho by lia.
    change (Z.of_nat 64) with 64 in Ho. rewrite Ho.
    replace (120 - len msg mod 64 - 1) with (119 - len msg mod 64) by lia.
    rewrite Zminus_mod_idemp_r. f_equal. lia.
  - assert (E : forall z, be_bytes 8 z = be_bytes 4 (z / 2 ^ 32) ++ be_bytes 4 z).
    { intros z. unfold be_bytes. rewrite <-reverse_app. f_equal. cbn [le_bytes app].
      rewrite !Z.div_div by lia. done. }
    assert (M : forall z, be_bytes 4 z = be_bytes 4 (z mod 2 ^ 32)).
    { intros z. rewrite <-(be_bytes_be_val (be_bytes 4 z)), length_be_bytes by apply be_bytes_ok.
      by rewrite be_val_be_bytes. }
    rewrite E, (M (_ / _)), (M (len msg * 8)).
    assert (Hlo : (len msg * 8) mod 2 ^ 32 = sz0 m).
    { transitivity (((len msg * 8) mod 2 ^ 64) mod 2 ^ 32).
      - change (2 ^ 64) with (2 ^ 32 * 2 ^ 32). symmetry. apply mod_mul_mod; lia.
      - rewrite <-Hs, Z.mul_comm, Z.mod_add, Z.mod_small; lia. }
    rewrite Hlo. f_equal. f_equal.
    transitivity ((len msg * 8) mod 2 ^ 64 / 2 ^ 32).
    + rewrite <-Hs, Z.mul_comm, Z.div_add, Z.div_small; lia.
    + change (2 ^ 64) with (2 ^ 32 * 2 ^ 32). apply mod_mul_div; lia.
Qed.

(** C24: streaming is hashing. Whatever was in the context's buffer and however
    the message is cut into update calls (each below 2^29 bytes, where the
    32-bit bit count does not wrap), [sha256_final_32bytes] returns the digest
    of the concatenation; the save buffer, the block boundaries, the two-word
    bit counter and the padding placement all cancel out. *)
Theorem sha256_stream_spec (m0 : sha256_ctx) (chunks : list bytes)
  (Hbuf : length (save_bytes m0) = 64%nat)
  (Hsmall : Forall (fun c => len c < 2 ^ 29) chunks) :
  sha256_stream m0 chunks = sha256_spec (concat chunks).
Proof.
  destruct (init_spec m0 Hbuf) as [Ha Hc].
  destruct (updates_spec chunks _ [] Ha Hc Hsmall) as [Ha' Hc']. cbn [app] in *.
  unfold sha256_stream, sha256_final_32bytes, sha256_spec. cbn [snd].
  set (m := foldl _ _ _) in *.
  destruct (update_spec m (final_padding m) _ Ha' Hc') as [(Hcn & _ & _) _].
  - pose proof (Z.mod_pos_bound (120 - (sz0 m / 8) mod 64 - 1) 64 ltac:(lia)).
    unfold final_padding. rewrite length_cons, !length_app, length_replicate, !length_be_bytes. lia.
  - by rewrite Hcn, final_padding_pad.
Qed.

Lemma sha256_stream_spec_witness :
  sha256_stream (SHA256_ctx 7 9 [] (replicate 64 0xA5)) [bs "a"; []; bs "bc"]
  = sha256_spec (bs "abc").
Proof.
  apply (sha256_stream_spec (SHA256_ctx 7 9 [] (replicate 64 0xA5)) [bs "a"; []; bs "bc"]).
  - reflexivity.
  - repeat constructor; vm_compute; reflexivity.
Defined.
