(* ===== verification/VideoTs.v ===== *)
(** * MPEG-TS scanner (src/videots.cpp, src/videots.h)

    The scanner watches a transport stream and finds where a late viewer may
    start: section CRC ([ts_crc32]), section reassembly ([PSI_feed]), PAT and PMT
    parsing, per-packet handling ([ts_packet]) and the byte-level framing with
    resynchronisation and packets split across reads ([ts_feed]).

    The 64-bit statistics and offsets are integers without wrap: a wrap needs
    2^64 bytes of video.  The partial-packet buffer is modelled by its live
    prefix. *)

From S2P Require Import Prelude.

Definition TS_PACKET_SIZE : Z := 188.
Definition TS_SYNC_BYTE : Z := 0x47.
Definition TS_MAX_SECTION : nat := 1027.
Definition TS_STREAM_MPEG2_VIDEO : Z := 0x02.
Definition TS_STREAM_AAC_ADTS : Z := 0x0F.
Definition TS_STREAM_AAC_LATM : Z := 0x11.
Definition TS_STREAM_H264 : Z := 0x1B.
Definition TS_STREAM_HEVC : Z := 0x24.

(** ** CRC *)

Definition crc_poly : Z := 0x04C11DB7.

(** One turn of the inner loop of [build_crc_table]. *)
Definition crc_step (c : Z) : Z :=
  if Z.land c 0x80000000 =? 0 then u32 (Z.shiftl c 1)
  else Z.lxor (u32 (Z.shiftl c 1)) crc_poly.

Definition crc_entry (i : Z) : Z := Nat.iter 8 crc_step (Z.shiftl i 24).

(** The table, which the code builds on first use. *)
Definition crc_table : list Z := map (fun i => crc_entry (Z.of_nat i)) (seq 0 256).

Definition crc_byte (crc b : Z) : Z :=
  Z.lxor (u32 (Z.shiftl crc 8))
         (byte_at crc_table (Z.land (Z.lxor (Z.shiftr crc 24) b) 0xFF)).

Definition ts_crc32 (data : bytes) : Z := foldl crc_byte 0xFFFFFFFF data.

(** ** Section reassembly *)

Record PSIAssembler := PSI {
  buf_ : bytes;             (* buf_[TS_MAX_SECTION] *)
  len_ : nat;
  want_ : nat;
  active_ : bool
}.

#[export] Instance eta_PSI : Eta PSIAssembler :=
  fun a => PSI (buf_ a) (len_ a) (want_ a) (active_ a).

Definition PSI_init : PSIAssembler := PSI (replicate TS_MAX_SECTION 0) 0 0 false.

Definition PSI_reset (a : PSIAssembler) : PSIAssembler :=
  a <| len_ := O |> <| want_ := O |> <| active_ := false |>.

(** What one [feed] reports: nothing yet, a section whose CRC failed (the
    caller's counter goes up), or a complete section. *)
Inductive psi_out := PsiNone | PsiBadCrc | PsiSection (sec : bytes).

(** After the payload has been copied: decide whether the section is complete. *)
Definition PSI_complete (a : PSIAssembler) : PSIAssembler * psi_out :=
  if decide (len_ a < want_ a)%nat then (a, PsiNone)
  else
    let seclen := want_ a in
    let a' := PSI_reset a in
    if ts_crc32 (take seclen (buf_ a)) =? 0
    then (a', PsiSection (take seclen (buf_ a)))
    else (a', PsiBadCrc).

Definition PSI_append (a : PSIAssembler) (payload : bytes) : PSIAssembler * psi_out :=
  let space := (TS_MAX_SECTION - len_ a)%nat in
  let take_ := Nat.min (length payload) space in
  let a := a <| buf_ := memcpy_at (buf_ a) (len_ a) (take take_ payload) |>
             <| len_ := (len_ a + take_)%nat |> in
  if decide (want_ a = O) then
    if decide (len_ a < 3)%nat then (a, PsiNone)
    else
      let want := Z.to_nat (Z.lor (Z.shiftl (Z.land (byte_at (buf_ a) 1) 0x0F) 8)
                                  (byte_at (buf_ a) 2) + 3) in
      let a := a <| want_ := want |> in
      if decide (TS_MAX_SECTION < want \/ want < 4)%nat then (PSI_reset a, PsiNone)
      else PSI_complete a
  else PSI_complete a.

Definition PSI_feed (a : PSIAssembler) (payload : bytes) (pusi : bool)
  : PSIAssembler * psi_out :=
  match payload with
  | [] => (a, PsiNone)
  | ptr :: rest =>
    if pusi then
      if len payload <? ptr + 1 then (PSI_reset a, PsiNone)
      else
        let a := a <| len_ := O |> <| active_ := true |> <| want_ := O |> in
        match drop (Z.to_nat ptr) rest with
        | [] => (a, PsiNone)
        | body => PSI_append a body
        end
    else if active_ a then PSI_append a payload
    else (a, PsiNone)
  end.

(** ** Random access confirmation *)

Definition nal_is_access (stream_type b : Z) : bool :=
  if stream_type =? TS_STREAM_H264 then
    let nal := Z.land b 0x1F in
    (nal =? 9) || (nal =? 7) || (nal =? 8) || (nal =? 5)
  else
    let nal := Z.land (Z.shiftr b 1) 0x3F in
    (nal =? 35) || ((32 <=? nal) && (nal <=? 34)) || ((16 <=? nal) && (nal <=? 21)).

(** The Annex-B walk; [i + 4 < n] asks for one byte beyond the NAL header. *)
Fixpoint annexb_access (stream_type : Z) (l : bytes) : bool :=
  match l with
  | p0 :: ((p1 :: p2 :: b :: _ :: _) as tl) =>
    if (p0 =? 0) && (p1 =? 0) && (p2 =? 1) && nal_is_access stream_type b then true
    else annexb_access stream_type tl
  | _ => false
  end.

Definition ts_payload_is_random_access (p : bytes) (stream_type : Z) : bool :=
  if negb (stream_type =? TS_STREAM_H264) && negb (stream_type =? TS_STREAM_HEVC)
  then true
  else annexb_access stream_type p.

Definition stream_type_playable (st : Z) : bool :=
  (st =? TS_STREAM_H264) || (st =? TS_STREAM_AAC_ADTS) || (st =? TS_STREAM_AAC_LATM).

(** ** Scanner state *)

Record TSStats := Stats {
  bytes_fed : Z;            (* stats_.bytes *)
  packets : Z;
  bad_sync : Z;
  resyncs : Z;
  cc_errors : Z;
  pat_seen : Z;
  pmt_seen : Z;
  rai_seen : Z;
  crc_errors : Z
}.

#[export] Instance eta_Stats : Eta TSStats :=
  fun s => Stats (bytes_fed s) (packets s) (bad_sync s) (resyncs s) (cc_errors s)
             (pat_seen s) (pmt_seen s) (rai_seen s) (crc_errors s).

Record TSScanner := Scanner {
  stats_ : TSStats;
  pat_asm_ : PSIAssembler;
  pmt_asm_ : PSIAssembler;
  pmt_pid_ : Z;
  have_pat_ : bool;
  have_pmt_ : bool;
  pat_version_ : Z;
  pmt_version_ : Z;
  video_pid_ : Z;
  video_stream_type_ : Z;
  last_pat_off_ : Z;
  last_pmt_off_ : Z;
  have_pat_off_ : bool;
  have_pmt_off_ : bool;
  anchor_ : Z;
  have_anchor_ : bool;
  cc_ : gmap Z Z;           (* cc_[pid] where cc_seen_[pid]; cc_ is read only there *)
  partial_ : bytes;         (* partial_[0 .. partial_len_) *)
  partial_off_ : Z;
  synced_ : bool
}.

#[export] Instance eta_Scanner : Eta TSScanner :=
  fun s => Scanner (stats_ s) (pat_asm_ s) (pmt_asm_ s) (pmt_pid_ s) (have_pat_ s)
    (have_pmt_ s) (pat_version_ s) (pmt_version_ s) (video_pid_ s)
    (video_stream_type_ s) (last_pat_off_ s) (last_pmt_off_ s) (have_pat_off_ s)
    (have_pmt_off_ s) (anchor_ s) (have_anchor_ s) (cc_ s) (partial_ s)
    (partial_off_ s) (synced_ s).

(** [reset()], and equally the state of a fresh scanner apart from the
    assemblers' dead buffer contents. *)
Definition ts_reset (s : TSScanner) : TSScanner :=
  Scanner (Stats 0 0 0 0 0 0 0 0 0) (PSI_reset (pat_asm_ s)) (PSI_reset (pmt_asm_ s))
    0 false false 0xFF 0xFF 0 0 0 0 false false 0 false ∅ [] 0 false.

Definition ts_init : TSScanner :=
  Scanner (Stats 0 0 0 0 0 0 0 0 0) PSI_init PSI_init
    0 false false 0xFF 0xFF 0 0 0 0 false false 0 false ∅ [] 0 false.

(** ** Section parsing *)

Definition be13 (hi lo : Z) : Z := Z.lor (Z.shiftl (Z.land hi 0x1F) 8) lo.
Definition be12 (hi lo : Z) : Z := Z.lor (Z.shiftl (Z.land hi 0x0F) 8) lo.

Definition sec_version (sec : bytes) : Z := Z.land (Z.shiftr (byte_at sec 5) 1) 0x1F.
Definition sec_current (sec : bytes) : bool := negb (Z.land (byte_at sec 5) 1 =? 0).

(** The first program entry whose number is not zero. *)
Fixpoint pat_program (l : bytes) : option Z :=
  match l with
  | p1 :: p0 :: q1 :: q0 :: l =>
    if Z.lor (Z.shiftl p1 8) p0 =? 0 then pat_program l else Some (be13 q1 q0)
  | _ => None
  end.

Definition saw_pat (s : TSScanner) (off : Z) : TSScanner :=
  s <| stats_ := stats_ s <| pat_seen := pat_seen (stats_ s) + 1 |> |>
    <| last_pat_off_ := off |> <| have_pat_off_ := true |>.

(** The program moved to another PID: the old PMT no longer describes it. *)
Definition program_moved (s : TSScanner) : TSScanner :=
  s <| have_pmt_ := false |> <| pmt_version_ := 0xFF |>
    <| pmt_asm_ := PSI_reset (pmt_asm_ s) |>.

Definition set_pat_version (s : TSScanner) (v : Z) : TSScanner := s <| pat_version_ := v |>.
Definition set_pmt_version (s : TSScanner) (v : Z) : TSScanner := s <| pmt_version_ := v |>.

Definition set_program (s : TSScanner) (pid : Z) : TSScanner :=
  s <| pmt_pid_ := pid |> <| have_pat_ := true |>.

(** A PAT that has been counted: nothing to do when its version is the known
    one, otherwise take its first program. *)
Definition apply_pat (s : TSScanner) (sec : bytes) : TSScanner :=
  if have_pat_ s && (sec_version sec =? pat_version_ s) then s
  else
    let s := set_pat_version s (sec_version sec) in
    match pat_program (slice sec 8 (len sec - 4 - 8)) with
    | None => s
    | Some pid => set_program (if pmt_pid_ s =? pid then s else program_moved s) pid
    end.

Definition parse_pat (s : TSScanner) (sec : bytes) (off : Z) : TSScanner :=
  if (len sec <? 12) || negb (byte_at sec 0 =? 0) then s
  else if negb (sec_current sec) then s
  else apply_pat (saw_pat s off) sec.

Definition is_video_type (st : Z) : bool :=
  (st =? TS_STREAM_H264) || (st =? TS_STREAM_HEVC) || (st =? TS_STREAM_MPEG2_VIDEO).

(** The elementary-stream loop; a turn advances by at least five bytes. *)
Fixpoint pmt_video (fuel : nat) (sec : bytes) (i end_ vpid vst : Z) : Z * Z :=
  match fuel with
  | O => (vpid, vst)
  | S fuel =>
    if end_ <? i + 5 then (vpid, vst)
    else
      let st := byte_at sec i in
      let pid := be13 (byte_at sec (i + 1)) (byte_at sec (i + 2)) in
      let es_len := be12 (byte_at sec (i + 3)) (byte_at sec (i + 4)) in
      let '(vpid, vst) :=
        if (vpid =? 0) && is_video_type st then (pid, st) else (vpid, vst) in
      pmt_video fuel sec (i + (5 + es_len)) end_ vpid vst
  end.

Definition saw_pmt (s : TSScanner) (off : Z) : TSScanner :=
  s <| stats_ := stats_ s <| pmt_seen := pmt_seen (stats_ s) + 1 |> |>
    <| last_pmt_off_ := off |> <| have_pmt_off_ := true |>.

Definition set_video (s : TSScanner) (v : Z * Z) : TSScanner :=
  if v.1 =? 0 then s
  else s <| video_pid_ := v.1 |> <| video_stream_type_ := v.2 |> <| have_pmt_ := true |>.

Definition apply_pmt (s : TSScanner) (sec : bytes) : TSScanner :=
  if have_pmt_ s && (sec_version sec =? pmt_version_ s) then s
  else
    let prog_info_len := be12 (byte_at sec 10) (byte_at sec 11) in
    set_video (set_pmt_version s (sec_version sec))
      (pmt_video (length sec) sec (12 + prog_info_len) (len sec - 4) 0 0).

Definition parse_pmt (s : TSScanner) (sec : bytes) (off : Z) : TSScanner :=
  if (len sec <? 16) || negb (byte_at sec 0 =? 2) then s
  else if negb (sec_current sec) then s
  else apply_pmt (saw_pmt s off) sec.

(** ** One packet *)

Definition count_packet (s : TSScanner) : TSScanner :=
  s <| stats_ := stats_ s <| packets := packets (stats_ s) + 1 |> |>.

Definition lost_sync (s : TSScanner) : TSScanner :=
  s <| stats_ := stats_ s <| bad_sync := bad_sync (stats_ s) + 1 |> |> <| synced_ := false |>.

Definition count_cc_error (s : TSScanner) : TSScanner :=
  s <| stats_ := stats_ s <| cc_errors := cc_errors (stats_ s) + 1 |> |>.

Definition set_cc (s : TSScanner) (pid cc : Z) : TSScanner :=
  s <| cc_ := <[pid := cc]> (cc_ s) |>.

(** Continuity: count a jump, remember the counter. *)
Definition ts_continuity (s : TSScanner) (pid cc : Z) : TSScanner :=
  let expected := match cc_ s !! pid with
                  | Some last => cc =? Z.land (last + 1) 0x0F
                  | None => true
                  end in
  set_cc (if expected then s else count_cc_error s) pid cc.

Definition count_crc_error (s : TSScanner) : TSScanner :=
  s <| stats_ := stats_ s <| crc_errors := crc_errors (stats_ s) + 1 |> |>.

Definition set_pat_asm (s : TSScanner) (a : PSIAssembler) : TSScanner :=
  s <| pat_asm_ := a |>.

Definition set_pmt_asm (s : TSScanner) (a : PSIAssembler) : TSScanner :=
  s <| pmt_asm_ := a |>.

(** Act on what the assembler reported. *)
Definition on_section (s : TSScanner) (out : psi_out)
  (parse : TSScanner -> bytes -> Z -> TSScanner) (off : Z) : TSScanner :=
  match out with
  | PsiNone => s
  | PsiBadCrc => count_crc_error s
  | PsiSection sec => parse s sec off
  end.

Definition ts_pat_payload (s : TSScanner) (payload : bytes) (pusi : bool) (off : Z) :=
  let '(a, out) := PSI_feed (pat_asm_ s) payload pusi in
  on_section (set_pat_asm s a) out parse_pat off.

Definition ts_pmt_payload (s : TSScanner) (payload : bytes) (pusi : bool) (off : Z) :=
  let '(a, out) := PSI_feed (pmt_asm_ s) payload pusi in
  on_section (set_pmt_asm s a) out parse_pmt off.

Definition count_rai (s : TSScanner) : TSScanner :=
  s <| stats_ := stats_ s <| rai_seen := rai_seen (stats_ s) + 1 |> |>.

(** Start at whichever of the last PAT and the last PMT came first. *)
Definition set_anchor (s : TSScanner) : TSScanner :=
  s <| anchor_ := if last_pat_off_ s <? last_pmt_off_ s
                  then last_pat_off_ s else last_pmt_off_ s |>
    <| have_anchor_ := true |>.

Definition ts_video_payload (s : TSScanner) (payload : bytes) (pusi : bool) (off : Z) :=
  if negb pusi || ts_payload_is_random_access payload (video_stream_type_ s) then
    if have_pat_off_ s && have_pmt_off_ s
       && (last_pat_off_ s <=? off) && (last_pmt_off_ s <=? off)
    then set_anchor (count_rai s)
    else count_rai s
  else s.

(** The header fields of a packet. *)
Definition pkt_pusi (p : bytes) : bool := negb (Z.land (byte_at p 1) 0x40 =? 0).
Definition pkt_pid (p : bytes) : Z := be13 (byte_at p 1) (byte_at p 2).
Definition pkt_afc (p : bytes) : Z := Z.land (Z.shiftr (byte_at p 3) 4) 3.
Definition pkt_cc (p : bytes) : Z := Z.land (byte_at p 3) 0x0F.
Definition pkt_no_payload (p : bytes) : bool := (pkt_afc p =? 0) || (pkt_afc p =? 2).
Definition pkt_has_af (p : bytes) : bool := (pkt_afc p =? 2) || (pkt_afc p =? 3).
Definition pkt_rai (p : bytes) : bool :=
  pkt_has_af p && (0 <? byte_at p 4) && (5 + byte_at p 4 <=? TS_PACKET_SIZE)
  && negb (Z.land (byte_at p 5) 0x40 =? 0).
Definition pkt_off_in (p : bytes) : Z := if pkt_has_af p then 5 + byte_at p 4 else 4.

(** The payload, for a packet that has one. *)
Definition ts_payload (s : TSScanner) (p : bytes) (off : Z) : TSScanner :=
  if pkt_has_af p && (TS_PACKET_SIZE <? pkt_off_in p) then s
  else if pkt_no_payload p || (TS_PACKET_SIZE <=? pkt_off_in p) then s
  else
    let payload := zdrop (pkt_off_in p) p in
    if pkt_pid p =? 0 then ts_pat_payload s payload (pkt_pusi p) off
    else if have_pat_ s && (pkt_pid p =? pmt_pid_ s)
         then ts_pmt_payload s payload (pkt_pusi p) off
    else if have_pmt_ s && (pkt_pid p =? video_pid_ s) && pkt_rai p
         then ts_video_payload s payload (pkt_pusi p) off
    else s.

Definition ts_packet (s : TSScanner) (p : bytes) (off : Z) : TSScanner :=
  let s := count_packet s in
  if negb (byte_at p 0 =? TS_SYNC_BYTE) then lost_sync s
  else ts_payload (if pkt_no_payload p then s else ts_continuity s (pkt_pid p) (pkt_cc p)) p off.

(** ** Framing *)

(** Hunt for a sync byte followed by another one a packet later (or by the end
    of the chunk); the result is how many bytes are skipped. *)
Fixpoint ts_hunt (buf : bytes) : option nat :=
  match buf with
  | [] => None
  | b :: tl =>
    if (b =? TS_SYNC_BYTE)
       && match nth_error tl 187 with None => true | Some c => c =? TS_SYNC_BYTE end
    then Some O
    else S <$> ts_hunt tl
  end.

(** The scanner has found a start [j] bytes on. *)
Definition set_synced (s : TSScanner) (j : nat) : TSScanner :=
  s <| stats_ := stats_ s
         <| resyncs := if decide (j = O) then resyncs (stats_ s) else resyncs (stats_ s) + 1 |> |>
    <| synced_ := true |>.

Definition ts_enter (s : TSScanner) (j : nat) : TSScanner :=
  if synced_ s then s else set_synced s j.

Definition set_partial (s : TSScanner) (p : bytes) (off : Z) : TSScanner :=
  s <| partial_ := p |> <| partial_off_ := off |>.

(** The main loop on the rest of the chunk, [off] being the absolute offset of
    its first byte.  Every turn takes a whole packet or returns. *)
Fixpoint ts_scan (fuel : nat) (s : TSScanner) (buf : bytes) (off : Z) : TSScanner :=
  match fuel with
  | O => s
  | S fuel =>
    match buf with
    | [] => s
    | _ =>
      match (if synced_ s then Some O else ts_hunt buf) with
      | None => s
      | Some j =>
        let s := ts_enter s j in
        let buf := drop j buf in
        let off := off + Z.of_nat j in
        if len buf <? TS_PACKET_SIZE then set_partial s buf off
        else ts_scan fuel (ts_packet s (ztake TS_PACKET_SIZE buf) off)
               (zdrop TS_PACKET_SIZE buf) (off + TS_PACKET_SIZE)
      end
    end
  end.

Definition count_bytes (s : TSScanner) (n : Z) : TSScanner :=
  s <| stats_ := stats_ s <| bytes_fed := bytes_fed (stats_ s) + n |> |>.

Definition ts_feed (s : TSScanner) (buf : bytes) (base : Z) : TSScanner :=
  let s := count_bytes s (len buf) in
  if decide (partial_ s = []) then ts_scan (length buf) s buf base
  else
    let need := TS_PACKET_SIZE - len (partial_ s) in
    let take_ := if len buf <? need then len buf else need in
    let partial := partial_ s ++ ztake take_ buf in
    if len partial <? TS_PACKET_SIZE then set_partial s partial (partial_off_ s)
    else
      ts_scan (length buf)
        (set_partial (ts_packet s partial (partial_off_ s)) [] (partial_off_ s))
        (zdrop take_ buf) (base + take_).

Definition have_program (s : TSScanner) : bool := have_pmt_ s.

Definition join_offset (s : TSScanner) : option Z :=
  if negb (have_anchor_ s) || negb (have_pmt_ s) then None else Some (anchor_ s).

(** A stream fed as consecutive chunks, the way the ring hands it on. *)
Fixpoint ts_feed_all (s : TSScanner) (chunks : list bytes) (base : Z) : TSScanner :=
  match chunks with
  | [] => s
  | c :: cs => ts_feed_all (ts_feed s c base) cs (base + len c)
  end.

(** ** The self-test's stream builder *)

Definition tsb_pkt (cc : gmap Z Z) (pid : Z) (pusi : bool) (payload : bytes) (rai : bool)
  : gmap Z Z * bytes :=
  let c := default 0 (cc !! pid) in
  let h := [TS_SYNC_BYTE; u8 (Z.lor (if pusi then 0x40 else 0) (Z.land (Z.shiftr pid 8) 0x1F));
            u8 (Z.land pid 0xFF)] in
  let cc' := <[pid := u8 (Z.land (c + 1) 0x0F)]> cc in
  let out :=
    if rai then
      let af_len := TS_PACKET_SIZE - 5 - len payload in
      h ++ [u8 (Z.lor 0x30 (Z.land c 0x0F)); u8 af_len; 0x40]
        ++ replicate (Z.to_nat (5 + af_len - 6)) 0xFF ++ payload
    else
      h ++ [u8 (Z.lor 0x10 (Z.land c 0x0F))] ++ payload
        ++ replicate (Z.to_nat (TS_PACKET_SIZE - 4 - len payload)) 0xFF in
  (cc', out).

Definition finish_section (sec : bytes) : bytes :=
  let crc := ts_crc32 sec in
  sec ++ [u8 (Z.shiftr crc 24); u8 (Z.shiftr crc 16); u8 (Z.shiftr crc 8); u8 crc].

Definition tsb_pat_section (pmt_pid version : Z) : bytes :=
  finish_section
    [0x00; 0xB0; 13; 0x00; 0x01; u8 (Z.lor 0xC1 (Z.shiftl version 1)); 0x00; 0x00;
     0x00; 0x01; u8 (Z.lor 0xE0 (Z.land (Z.shiftr pmt_pid 8) 0x1F)); u8 (Z.land pmt_pid 0xFF)].

Definition tsb_pat (cc : gmap Z Z) (pmt_pid version : Z) : gmap Z Z * bytes :=
  tsb_pkt cc 0 true (0 :: tsb_pat_section pmt_pid version) false.

Definition tsb_pmt_section (vpid stype version : Z) : bytes :=
  finish_section
    [0x02; 0xB0; 18; 0x00; 0x01; u8 (Z.lor 0xC1 (Z.shiftl version 1)); 0x00; 0x00;
     u8 (Z.lor 0xE0 (Z.land (Z.shiftr vpid 8) 0x1F)); u8 (Z.land vpid 0xFF); 0xF0; 0x00;
     stype; u8 (Z.lor 0xE0 (Z.land (Z.shiftr vpid 8) 0x1F)); u8 (Z.land vpid 0xFF); 0xF0; 0x00].

Definition tsb_pmt (cc : gmap Z Z) (pmt_pid vpid stype version : Z) : gmap Z Z * bytes :=
  tsb_pkt cc pmt_pid true (0 :: tsb_pmt_section vpid stype version) false.

Definition tsb_video (cc : gmap Z Z) (vpid : Z) (key : bool) (stype : Z) (rai : bool)
  : gmap Z Z * bytes :=
  let pes := [0; 0; 1; 0xE0; 0; 0; 0x80; 0; 0; 0; 0; 1] in
  let nal := if stype =? TS_STREAM_HEVC
             then [if key then u8 (Z.shiftl 35 1) else u8 (Z.shiftl 1 1); 0x01]
             else [if key then 0x09 else 0x41] in
  tsb_pkt cc vpid true (pes ++ nal ++ [0x10]) rai.

(** The self-test's main stream: PAT, PMT, a non-key and a key frame. *)
Definition selftest_stream : bytes :=
  let '(cc, a) := tsb_pat ∅ 0x100 0 in
  let '(cc, b) := tsb_pmt cc 0x100 0x101 TS_STREAM_H264 0 in
  let '(cc, c) := tsb_video cc 0x101 false TS_STREAM_H264 false in
  let '(cc, d) := tsb_video cc 0x101 true TS_STREAM_H264 true in
  a ++ b ++ c ++ d.

Example selftest_main :
  let s := ts_feed ts_init selftest_stream 0 in
  (have_program s, video_pid_ s, video_stream_type_ s, join_offset s, stats_ s)
  = (true, 0x101, TS_STREAM_H264, Some 0, Stats 752 4 0 0 0 1 1 1 0).
Proof. vm_compute. reflexivity. Qed.

Example selftest_bytewise :
  let s := ts_feed_all ts_init (map (fun b => [b]) selftest_stream) 0 in
  (have_program s, rai_seen (stats_ s), join_offset s) = (true, 1, Some 0).
Proof. vm_compute. reflexivity. Qed.

Example selftest_resync :
  join_offset (ts_feed ts_init (replicate 64 0x47 ++ selftest_stream) 0) = Some 64.
Proof. vm_compute. reflexivity. Qed.

(** ** CRC: residue and single-byte corruption *)

Lemma crc_table_range i : 0 <= byte_at crc_table i < 2 ^ 32.
Proof.
  assert (H : Forall (fun x => 0 <= x < 2 ^ 32) (crc_table)).
  { apply (bool_decide_unpack _). vm_compute. exact I. }
  unfold byte_at. destruct (nth_in_or_default (Z.to_nat i) crc_table 0) as [Hin| ->]; [|lia].
  by eapply List.Forall_forall in Hin; [|exact H].
Qed.

Lemma lxor_range w x y : 0 <= w -> 0 <= x < 2 ^ w -> 0 <= y < 2 ^ w -> 0 <= Z.lxor x y < 2 ^ w.
Proof.
  intros Hw Hx Hy.
  assert (Hn : 0 <= Z.lxor x y) by (apply Z.lxor_nonneg; lia). split; [done|].
  destruct (decide (Z.lxor x y = 0)) as [->|Hz]; [apply Z.pow_pos_nonneg; lia|].
  apply Z.log2_lt_pow2; [lia|]. pose proof (Z.log2_lxor x y ltac:(lia) ltac:(lia)).
  destruct (decide (0 < w)).
  - assert (Z.log2 x < w) by (destruct (decide (x = 0)) as [->|]; [simpl; lia|apply Z.log2_lt_pow2; lia]).
    assert (Z.log2 y < w) by (destruct (decide (y = 0)) as [->|]; [simpl; lia|apply Z.log2_lt_pow2; lia]).
    lia.
  - assert (w = 0) as -> by lia. assert (x = 0) by lia. assert (y = 0) by lia. subst. done.
Qed.

Lemma crc_byte_range c b : 0 <= crc_byte c b < 2 ^ 32.
Proof. apply lxor_range; [lia|apply wrap_range; lia|apply crc_table_range]. Qed.

Lemma crc_fold_range c data : 0 <= c < 2 ^ 32 -> 0 <= foldl crc_byte c data < 2 ^ 32.
Proof. revert c; induction data; simpl; auto using crc_byte_range. Qed.

(** Feeding the register's own top byte shifts it out. *)
Lemma crc_byte_own c b :
  0 <= c -> b = c / 2 ^ 24 -> crc_byte c b = (c * 256) mod 2 ^ 32.
Proof.
  intros Hc ->. unfold crc_byte. rewrite Z.shiftr_div_pow2, Z.lxor_nilpotent by lia.
  change (byte_at crc_table (Z.land 0 255)) with 0. rewrite Z.lxor_0_r.
  by rewrite Z.shiftl_mul_pow2 by lia.
Qed.

Lemma u8_shiftr c k : 0 <= k -> u8 (Z.shiftr c k) = (c / 2 ^ k) mod 256.
Proof. intros. by rewrite Z.shiftr_div_pow2. Qed.

Lemma crc_residue data : ts_crc32 (finish_section data) = 0.
Proof.
  unfold ts_crc32, finish_section. rewrite foldl_app. fold (ts_crc32 data).
  assert (Hr : 0 <= ts_crc32 data < 2 ^ 32) by (apply crc_fold_range; lia).
  set (c := ts_crc32 data) in *. cbn [foldl]. rewrite !u8_shiftr by lia. unfold u8.
  assert (S : forall r b, 0 <= r -> b = r / 2 ^ 24 -> crc_byte r b = (r * 256) mod 2 ^ 32)
    by apply crc_byte_own.
  rewrite (S c) by (first [lia | Z.div_mod_to_equations; lia]).
  rewrite (S (_ mod _)) by (Z.div_mod_to_equations; lia).
  rewrite (S (_ mod _)) by (Z.div_mod_to_equations; lia).
  rewrite (S (_ mod _)) by (Z.div_mod_to_equations; lia).
  Z.div_mod_to_equations; lia.
Qed.

(** The low bytes of the table are all different: each is found at its own index. *)
Lemma crc_table_low_inj i j :
  is_byte i -> is_byte j ->
  byte_at crc_table i mod 256 = byte_at crc_table j mod 256 -> i = j.
Proof.
  intros Hi Hj E.
  set (low := map (fun x => x mod 256) crc_table).
  assert (H : forallb (fun a =>
     match list_find (fun x => x = nth a crc_table 0 mod 256) low with
     | Some (k, _) => (k =? a)%nat
     | None => false
     end) (seq 0 256) = true) by (vm_compute; reflexivity).
  rewrite forallb_forall in H. unfold is_byte, byte_at in *.
  pose proof (H (Z.to_nat i) ltac:(apply in_seq; lia)) as Fi.
  pose proof (H (Z.to_nat j) ltac:(apply in_seq; lia)) as Fj.
  cbv beta in Fi, Fj. rewrite E in Fi.
  destruct (list_find _ low) as [[k ?]|]; [|done].
  apply Nat.eqb_eq in Fi, Fj. lia.
Qed.

Lemma crc_index_byte c b : 0 <= c < 2 ^ 32 -> is_byte b ->
  Z.land (Z.lxor (Z.shiftr c 24) b) 0xFF = Z.lxor (Z.shiftr c 24) b
  /\ is_byte (Z.lxor (Z.shiftr c 24) b).
Proof.
  intros Hc Hb. assert (Hx : 0 <= Z.lxor (Z.shiftr c 24) b < 2 ^ 8).
  { apply lxor_range; [lia| |unfold is_byte in Hb; lia].
    rewrite Z.shiftr_div_pow2 by lia. Z.div_mod_to_equations. lia. }
  split; [|unfold is_byte; lia].
  change 0xFF with (Z.ones 8). rewrite Z.land_ones by lia. by apply Z.mod_small.
Qed.

(** The low byte of a step is the table's: the index can be read back. *)
Lemma crc_byte_low c b : crc_byte c b mod 256
  = byte_at crc_table (Z.land (Z.lxor (Z.shiftr c 24) b) 0xFF) mod 256.
Proof.
  unfold crc_byte. change 256 with (2 ^ 8). rewrite <-!Z.land_ones by lia.
  apply Z.bits_inj'. intros n Hn. rewrite !Z.land_spec, Z.lxor_spec.
  destruct (decide (n < 8)).
  - unfold u32, wrap. rewrite <-Z.land_ones, Z.land_spec, Z.shiftl_spec_low by lia. done.
  - rewrite Z.ones_spec_high by lia. by rewrite !andb_false_r.
Qed.

Lemma crc_byte_inj c c' b b' :
  0 <= c < 2 ^ 32 -> 0 <= c' < 2 ^ 32 -> is_byte b -> is_byte b' ->
  crc_byte c b = crc_byte c' b' ->
  Z.lxor (Z.shiftr c 24) b = Z.lxor (Z.shiftr c' 24) b' /\ c mod 2 ^ 24 = c' mod 2 ^ 24.
Proof.
  intros Hc Hc' Hb Hb' E.
  destruct (crc_index_byte c b Hc Hb) as [Ei Bi].
  destruct (crc_index_byte c' b' Hc' Hb') as [Ei' Bi'].
  assert (Hi : Z.lxor (Z.shiftr c 24) b = Z.lxor (Z.shiftr c' 24) b').
  { apply crc_table_low_inj; [done..|]. rewrite <-Ei, <-Ei', <-!crc_byte_low. by rewrite E. }
  split; [done|]. unfold crc_byte in E. rewrite Ei, Ei', Hi in E.
  set (t := byte_at _ _) in E. apply (f_equal (fun x => Z.lxor x t)) in E.
  rewrite !Z.lxor_assoc, !Z.lxor_nilpotent, !Z.lxor_0_r in E.
  unfold u32, wrap in E. rewrite !Z.shiftl_mul_pow2 in E by lia.
  change (2 ^ 32) with (2 ^ 24 * 2 ^ 8) in E. rewrite !Zmult_mod_distr_r in E. lia.
Qed.

Lemma lxor_cancel_r x y b : Z.lxor x b = Z.lxor y b -> x = y.
Proof.
  intros E. apply (f_equal (fun v => Z.lxor v b)) in E.
  by rewrite !Z.lxor_assoc, !Z.lxor_nilpotent, !Z.lxor_0_r in E.
Qed.

Lemma crc_fold_inj data c c' :
  bytes_ok data -> 0 <= c < 2 ^ 32 -> 0 <= c' < 2 ^ 32 ->
  foldl crc_byte c data = foldl crc_byte c' data -> c = c'.
Proof.
  intros Hd. revert c c'. induction Hd as [|b data Hb Hd IH]; intros c c' Hc Hc' E; [done|].
  cbn [foldl] in E. apply IH in E; [|apply crc_byte_range..].
  apply crc_byte_inj in E as [E1 E2]; [|done..]. apply lxor_cancel_r in E1.
  rewrite !Z.shiftr_div_pow2 in E1 by lia.
  rewrite (Z.div_mod c (2 ^ 24)), (Z.div_mod c' (2 ^ 24)), E1, E2 by lia. done.
Qed.

(** the section check accepts what [finish_section] seals and rejects any
    single corrupted byte, wherever it is: for every body, the sealed section
    passes, and replacing one byte of it by a different one fails. *)
Theorem crc_seal_and_detect (body : bytes) (i : nat) (b : Z)
  (Hbody : bytes_ok body) (Hb : is_byte b)
  (Hi : (i < length (finish_section body))%nat)
  (Hne : finish_section body !! i <> Some b) :
  ts_crc32 (finish_section body) = 0 /\ ts_crc32 (<[i := b]> (finish_section body)) <> 0.
Proof.
  split; [apply crc_residue|]. pose proof (crc_residue body) as H0.
  assert (Hok : bytes_ok (finish_section body)).
  { unfold finish_section. apply bytes_ok_app. split; [done|].
    repeat constructor; apply (wrap_range 8); lia. }
  set (sec := finish_section body) in *. clearbody sec.
  destruct (lookup_lt_is_Some_2 sec i Hi) as [a Ha].
  rewrite <-(take_drop_middle sec i a Ha) in H0, Hok |- *.
  assert (Hlt : length (take i sec) = i) by (rewrite length_take; lia).
  replace (<[i:=b]> (take i sec ++ a :: drop (S i) sec))
    with (take i sec ++ b :: drop (S i) sec)
    by (rewrite <-Hlt at 3; rewrite (insert_app_r_alt _ _ (length _)), Nat.sub_diag by lia; done).
  apply bytes_ok_app in Hok as [_ Hok]. apply bytes_ok_cons in Hok as [Hab Hok].
  unfold ts_crc32 in *. rewrite foldl_app in *. cbn [foldl] in *.
  intros E. rewrite <-E in H0. apply crc_fold_inj in H0; [|done|apply crc_byte_range..].
  assert (Hr : 0 <= foldl crc_byte 0xFFFFFFFF (take i sec) < 2 ^ 32) by (apply crc_fold_range; lia).
  apply crc_byte_inj in H0 as [E1 _]; [|done..].
  rewrite !(Z.lxor_comm (Z.shiftr _ _)) in E1. apply lxor_cancel_r in E1. congruence.
Qed.

Lemma crc_seal_and_detect_witness :
  ts_crc32 (finish_section [2; 0xB0; 18]) = 0
  /\ ts_crc32 (<[1%nat := 0xB1]> (finish_section [2; 0xB0; 18])) <> 0.
Proof.
  apply (crc_seal_and_detect [2; 0xB0; 18] 1 0xB1).
  - repeat constructor; unfold is_byte; lia.
  - unfold is_byte; lia.
  - vm_compute; lia.
  - vm_compute; congruence.
Defined.

(** ** Section reassembly *)

Definition section_length (sec : bytes) : nat :=
  Z.to_nat (Z.lor (Z.shiftl (Z.land (byte_at sec 1) 0x0F) 8) (byte_at sec 2) + 3).

(** A section as it should be on the wire: its length field tells its length. *)
Definition section_wf (sec : bytes) : Prop :=
  (4 <= length sec <= TS_MAX_SECTION)%nat /\ section_length sec = length sec.

Definition section_verdict (sec : bytes) : psi_out :=
  if ts_crc32 sec =? 0 then PsiSection sec else PsiBadCrc.

(** Feed the payloads of one PID in order, collecting what each reports. *)
Fixpoint psi_run (a : PSIAssembler) (ps : list (bytes * bool)) : PSIAssembler * list psi_out :=
  match ps with
  | [] => (a, [])
  | (p, pusi) :: ps =>
    let '(a, o) := PSI_feed a p pusi in
    let '(a, os) := psi_run a ps in
    (a, o :: os)
  end.

(** Mid-section: [got] is what has been collected of [sec]. *)
Definition Collecting (sec got : bytes) (a : PSIAssembler) : Prop :=
  length (buf_ a) = TS_MAX_SECTION /\ len_ a = length got /\ active_ a = true
  /\ take (length got) (buf_ a) = got
  /\ want_ a = if decide (length got < 3)%nat then O else length sec.

Lemma take_prefix_eq (l k : bytes) n : (n <= length l)%nat -> take n (l ++ k) = take n l.
Proof. apply take_app_le. Qed.

(** The field is readable once three bytes of the section are in the buffer. *)
Lemma section_length_prefix (sec l : bytes) n :
  (3 <= n)%nat -> take n l = take n sec -> section_length l = section_length sec.
Proof.
  intros Hn E. unfold section_length.
  rewrite <-(byte_at_take l n 1), <-(byte_at_take l n 2), E, !byte_at_take by lia. done.
Qed.

Lemma PSI_append_step sec got pad c rest a :
  section_wf sec -> Collecting sec got a -> (length got < length sec)%nat -> c <> [] ->
  got ++ c ++ rest = sec ++ pad ->
  if decide (length got + length c < length sec)%nat
  then exists a', PSI_append a c = (a', PsiNone) /\ Collecting sec (got ++ c) a'
  else exists a', PSI_append a c = (a', section_verdict sec).
Proof.
  intros [Hlen Hwf] (Hb & Hl & Hact & Ht & Hw) Hlt Hc Heq.
  assert (Hc0 : (0 < length c)%nat) by (destruct c; simpl; [done|lia]).
  unfold PSI_append. rewrite Hl.
  set (tk := Nat.min (length c) (TS_MAX_SECTION - length got)).
  set (buf := memcpy_at (buf_ a) (length got) (take tk c)).
  assert (Htk : length (take tk c) = tk) by (rewrite length_take; lia).
  assert (Hbuf : length buf = TS_MAX_SECTION) by (unfold buf; rewrite length_memcpy_at; lia).
  assert (Hpre : take (length got + tk) buf = got ++ take tk c).
  { unfold buf. rewrite <-Htk at 1. rewrite take_memcpy_at by lia. by rewrite Ht. }
  assert (Hstream : forall n, (n <= length got + tk)%nat -> take n buf = take n (sec ++ pad)).
  { intros n Hn. rewrite <-Heq, app_assoc.
    transitivity (take n (got ++ take tk c)).
    - by rewrite <-Hpre, take_take, Nat.min_l by lia.
    - rewrite <-(take_drop tk c) at 2. rewrite !app_assoc, <-(app_assoc _ (drop tk c)).
      rewrite (take_app_le (got ++ take tk c)); [done|]. rewrite length_app, Htk. lia. }
  assert (Hsec : (length sec <= length got + tk)%nat -> take (length sec) buf = sec).
  { intros. rewrite Hstream by done. apply take_app_length. }
  assert (Hfield : (3 <= length got + tk)%nat -> section_length buf = length sec).
  { intros. rewrite <-Hwf. apply (section_length_prefix _ _ 3); [lia|].
    rewrite Hstream by lia. apply take_app_le. lia. }
  cbn [buf_ len_ want_ active_]. rewrite ?Hact.
  set (fin := fun w => PSI_complete (PSI buf (length got + tk) w true)).
  assert (Hfin : if decide (length got + length c < length sec)%nat
     then fin (length sec) = (PSI buf (length got + tk) (length sec) true, PsiNone)
     else exists a', fin (length sec) = (a', section_verdict sec)).
  { unfold fin, PSI_complete. cbn [len_ want_ buf_].
    destruct (decide (length got + length c < length sec)%nat) as [D|D].
    - rewrite decide_True by (subst tk; lia). done.
    - rewrite decide_False by (subst tk; lia). rewrite Hsec by (subst tk; lia).
      unfold section_verdict. destruct (ts_crc32 sec =? 0); by eexists. }
  assert (Hcoll : forall w, (length got + length c < length sec)%nat ->
     w = (if decide (length (got ++ c) < 3)%nat then O else length sec) ->
     Collecting sec (got ++ c) (PSI buf (length got + tk) w true)).
  { intros w D ->. unfold Collecting. cbn [buf_ len_ want_ active_]. rewrite length_app.
    assert (E : tk = length c) by (subst tk; lia). rewrite E in *.
    repeat split; try done. rewrite Hpre. by rewrite firstn_all. }
  assert (Hdone : (3 <= length got + tk)%nat ->
    if decide (length got + length c < length sec)%nat
    then exists a', fin (length sec) = (a', PsiNone) /\ Collecting sec (got ++ c) a'
    else exists a', fin (length sec) = (a', section_verdict sec)).
  { intros G. destruct (decide (length got + length c < length sec)%nat) as [D|D]; [|done].
    eexists. split; [apply Hfin|]. apply Hcoll; [done|].
    rewrite decide_False; [done|]. rewrite length_app. subst tk. lia. }
  destruct (decide (length got < 3)%nat) as [G|G]; rewrite Hw; cbn [buf_ len_ want_ active_].
  - destruct (decide (0%nat = 0%nat)) as [_|]; [|done].
    destruct (decide (length got + tk < 3)%nat) as [G'|G'].
    + rewrite decide_True by (subst tk; lia).
      eexists. split; [reflexivity|]. apply Hcoll; [subst tk; lia|].
      rewrite decide_True; [done|]. rewrite length_app. subst tk. lia.
    + fold (section_length buf). rewrite Hfield by lia.
      destruct (decide (TS_MAX_SECTION < length sec \/ length sec < 4)%nat); [lia|].
      apply Hdone. lia.
  - destruct (decide (length sec = 0%nat)); [lia|]. apply Hdone. lia.
Qed.

Lemma psi_run_collect sec pad rest last got a :
  section_wf sec -> Collecting sec got a ->
  (length got + length (concat rest) < length sec)%nat ->
  Forall (fun c => c <> []) rest -> last <> [] ->
  got ++ concat rest ++ last = sec ++ pad -> (length sec <= length (got ++ concat rest ++ last))%nat ->
  (psi_run a (map (fun c => (c, false)) (rest ++ [last]))).2
  = replicate (length rest) PsiNone ++ [section_verdict sec].
Proof.
  intros Hwf. revert got a. induction rest as [|c rest IH]; intros got a Hcol Hlt Hne Hlast Heq Hge.
  - cbn [app map psi_run concat length replicate] in *. rewrite !length_app in Hge. simpl in Hge.
    pose proof (PSI_append_step sec got pad last [] a Hwf Hcol ltac:(lia) Hlast) as H.
    rewrite app_nil_r in H. specialize (H Heq). rewrite decide_False in H by lia.
    destruct H as [a' H]. destruct Hcol as (_ & _ & Hact & _).
    unfold PSI_feed. destruct last; [done|]. by rewrite Hact, H.
  - cbn [concat app] in *. rewrite length_app in Hlt. inversion_clear Hne as [|? ? Hc Hr].
    pose proof (PSI_append_step sec got pad c (concat rest ++ last) a Hwf Hcol ltac:(lia) Hc) as H.
    rewrite <-app_assoc in Heq. specialize (H Heq). rewrite decide_True in H by lia.
    destruct H as (a' & H & Hcol'). pose proof Hcol as (_ & _ & Hact & _).
    cbn [map psi_run length replicate app].
    assert (Hfeed : PSI_feed a c false = (a', PsiNone)).
    { unfold PSI_feed. destruct c; [done|]. by rewrite Hact. }
    rewrite Hfeed. specialize (IH (got ++ c) a' Hcol').
    rewrite length_app, <-app_assoc in IH.
    destruct (psi_run a' _) as [a2 os]. cbn [snd] in *. f_equal.
    apply IH; [lia|done..|]. rewrite !length_app in *. lia.
Qed.

(** reassembly.  However a section is split over packets (a unit start whose
    pointer field skips the tail of an earlier section, then continuations, then
    a last packet that may carry stuffing after the section), the assembler
    reports nothing until the packet that completes it and there exactly the
    section, or the CRC failure when its CRC does not check; this holds whatever
    the assembler held before. *)
Theorem psi_reassembles (a : PSIAssembler) (skipped first last sec pad : bytes)
  (rest : list bytes)
  (Hbuf : length (buf_ a) = TS_MAX_SECTION) (Hwf : section_wf sec)
  (Hfirst : first <> []) (Hrest : Forall (fun c => c <> []) rest) (Hlast : last <> [])
  (Hsplit : first ++ concat rest ++ last = sec ++ pad)
  (Hend : (length (first ++ concat rest) < length sec)%nat) :
  (psi_run a ((len skipped :: skipped ++ first, true)
              :: map (fun c => (c, false)) (rest ++ [last]))).2
  = PsiNone :: replicate (length rest) PsiNone ++ [section_verdict sec].
Proof.
  rewrite length_app in Hend. cbn [psi_run].
  set (a0 := PSI (buf_ a) 0 0 true).
  assert (Hc0 : Collecting sec [] a0) by done.
  pose proof (PSI_append_step sec [] pad first (concat rest ++ last) a0 Hwf Hc0
                ltac:(simpl; lia) Hfirst Hsplit) as H.
  rewrite decide_True in H by (simpl; lia). destruct H as (a1 & H & Hcol).
  assert (Hfeed : PSI_feed a (len skipped :: skipped ++ first) true = (a1, PsiNone)).
  { unfold PSI_feed. rewrite (proj2 (Z.ltb_ge _ _)) by (rewrite length_cons, length_app; lia).
    rewrite Nat2Z.id, drop_app_length. cbn [buf_ len_ want_ active_].
    destruct first; [done|]. exact H. }
  rewrite Hfeed. pose proof (psi_run_collect sec pad rest last first a1 Hwf Hcol) as H2.
  destruct (psi_run a1 _) as [a2 os]. cbn [snd] in *. f_equal.
  apply H2; [lia|done..|]. rewrite Hsplit, length_app. lia.
Qed.

Lemma psi_reassembles_witness :
  (psi_run PSI_init ((len [9] :: [9] ++ [0], true)
     :: map (fun c => (c, false)) ([[0xB0; 13; 0; 1]] ++ [drop 5 (tsb_pat_section 0x100 0) ++ [0xFF]]))).2
  = PsiNone :: replicate 1 PsiNone ++ [section_verdict (tsb_pat_section 0x100 0)].
Proof.
  apply (psi_reassembles PSI_init [9] [0] (drop 5 (tsb_pat_section 0x100 0) ++ [0xFF])
           (tsb_pat_section 0x100 0) [0xFF] [[0xB0; 13; 0; 1]]).
  - reflexivity.
  - split; [vm_compute; lia|vm_compute; reflexivity].
  - discriminate.
  - repeat constructor; discriminate.
  - vm_compute; discriminate.
  - vm_compute; reflexivity.
  - vm_compute; lia.
Defined.

(** ** Scanner invariant *)

(** A whole packet of the stream [str] starts at [o] with a sync byte. *)
Definition PktAt (str : bytes) (o : Z) : Prop :=
  0 <= o /\ o + TS_PACKET_SIZE <= len str /\ byte_at str o = TS_SYNC_BYTE.

(** What the recorded offsets and the program state mean. *)
Record Core (str : bytes) (s : TSScanner) : Prop := {
  core_pat : have_pat_off_ s = true -> PktAt str (last_pat_off_ s);
  core_pmt : have_pmt_off_ s = true -> PktAt str (last_pmt_off_ s);
  core_anchor : have_anchor_ s = true ->
    have_pat_off_ s = true /\ have_pmt_off_ s = true /\ PktAt str (anchor_ s);
  core_program : have_pmt_ s = true -> video_pid_ s <> 0
}.

Record Scanning (str : bytes) (s : TSScanner) : Prop := {
  scan_core : Core str s;
  scan_bytes : bytes_fed (stats_ s) = len str;
  scan_partial : len (partial_ s) < TS_PACKET_SIZE;
  scan_packets : packets (stats_ s) * TS_PACKET_SIZE + len (partial_ s) <= len str;
  scan_where : partial_ s <> [] ->
    0 <= partial_off_ s /\ partial_off_ s + len (partial_ s) = len str
    /\ zdrop (partial_off_ s) str = partial_ s
}.

Lemma PktAt_app str k o : PktAt str o -> PktAt (str ++ k) o.
Proof.
  unfold PktAt. intros (H0 & H1 & H2). rewrite length_app. repeat split; [lia|lia|].
  rewrite byte_at_app_l; [done|]. unfold TS_PACKET_SIZE in *. lia.
Qed.

Lemma Core_app str k s : Core str s -> Core (str ++ k) s.
Proof.
  intros [H1 H2 H3 H4]. split; [intros; apply PktAt_app; auto..| |done].
  intros A. destruct (H3 A) as (? & ? & ?). auto using PktAt_app.
Qed.

(** A step that leaves the fields of [Core] alone preserves it. *)
Lemma Core_same str s s' :
  (have_pat_off_ s', last_pat_off_ s', have_pmt_off_ s', last_pmt_off_ s')
  = (have_pat_off_ s, last_pat_off_ s, have_pmt_off_ s, last_pmt_off_ s) ->
  (have_anchor_ s', anchor_ s', have_pmt_ s', video_pid_ s')
  = (have_anchor_ s, anchor_ s, have_pmt_ s, video_pid_ s) ->
  Core str s -> Core str s'.
Proof.
  intros [= A1 A2 A3 A4] [= B1 B2 B3 B4] [H1 H2 H3 H4].
  split; rewrite ?A1, ?A2, ?A3, ?A4, ?B1, ?B2, ?B3, ?B4; done.
Qed.

Create HintDb ts.

(** The steps that touch nothing [Core] speaks of. *)
Ltac core_step :=
  match goal with
  | |- Core _ (set_program ?s _) => apply (Core_same _ s)
  | |- Core _ (set_pat_version ?s _) => apply (Core_same _ s)
  | |- Core _ (set_pmt_version ?s _) => apply (Core_same _ s)
  | |- Core _ (count_packet ?s) => apply (Core_same _ s)
  | |- Core _ (lost_sync ?s) => apply (Core_same _ s)
  | |- Core _ (count_cc_error ?s) => apply (Core_same _ s)
  | |- Core _ (count_crc_error ?s) => apply (Core_same _ s)
  | |- Core _ (count_rai ?s) => apply (Core_same _ s)
  | |- Core _ (count_bytes ?s _) => apply (Core_same _ s)
  | |- Core _ (set_cc ?s _ _) => apply (Core_same _ s)
  | |- Core _ (set_pat_asm ?s _) => apply (Core_same _ s)
  | |- Core _ (set_pmt_asm ?s _) => apply (Core_same _ s)
  | |- Core _ (set_synced ?s _) => apply (Core_same _ s)
  | |- Core _ (set_partial ?s _ _) => apply (Core_same _ s)
  end; [reflexivity|reflexivity|].
#[local] Hint Extern 1 (Core _ _) => core_step : ts.

Lemma saw_pat_core str s off : Core str s -> PktAt str off -> Core str (saw_pat s off).
Proof. intros [H1 H2 H3 H4] Hp. split; cbn; auto. intros A. destruct (H3 A) as (?&?&?). auto. Qed.

Lemma saw_pmt_core str s off : Core str s -> PktAt str off -> Core str (saw_pmt s off).
Proof. intros [H1 H2 H3 H4] Hp. split; cbn; auto. intros A. destruct (H3 A) as (?&?&?). auto. Qed.

Lemma program_moved_core str s : Core str s -> Core str (program_moved s).
Proof. intros [H1 H2 H3 H4]. by split. Qed.

Lemma set_video_core str s v : Core str s -> Core str (set_video s v).
Proof.
  intros [H1 H2 H3 H4]. unfold set_video. destruct (Z.eqb_spec v.1 0); [by split|].
  split; cbn; auto.
Qed.

Lemma set_anchor_core str s :
  Core str s -> have_pat_off_ s = true -> have_pmt_off_ s = true -> Core str (set_anchor s).
Proof.
  intros [H1 H2 H3 H4] E1 E2. split; cbn; auto. intros _. split; [done|]. split; [done|].
  destruct (_ <? _); auto.
Qed.

#[local] Hint Resolve saw_pat_core saw_pmt_core program_moved_core set_video_core : ts.

Lemma parse_pat_core str s sec off :
  Core str s -> PktAt str off -> Core str (parse_pat s sec off).
Proof.
  intros H Hp. unfold parse_pat, apply_pat. repeat case_match; auto 6 with ts.
Qed.

Lemma parse_pmt_core str s sec off :
  Core str s -> PktAt str off -> Core str (parse_pmt s sec off).
Proof. intros H Hp. unfold parse_pmt, apply_pmt. repeat case_match; auto 6 with ts. Qed.

Lemma on_section_core str s out parse off :
  (forall s sec, Core str s -> Core str (parse s sec off)) ->
  Core str s -> Core str (on_section s out parse off).
Proof. intros Hp H. destruct out; cbn; auto with ts. Qed.

Lemma ts_payload_core str s p off :
  Core str s -> PktAt str off -> Core str (ts_payload s p off).
Proof.
  intros H Hp. unfold ts_payload, ts_pat_payload, ts_pmt_payload, ts_video_payload.
  repeat case_match; auto with ts.
  - apply on_section_core; auto using parse_pat_core with ts.
  - apply on_section_core; auto using parse_pmt_core with ts.
  - reflect_bools. apply set_anchor_core; auto with ts.
Qed.

Lemma ts_continuity_core str s pid cc : Core str s -> Core str (ts_continuity s pid cc).
Proof. intros H. unfold ts_continuity. repeat case_match; auto with ts. Qed.

Lemma ts_packet_core str s p off :
  Core str s -> (byte_at p 0 = TS_SYNC_BYTE -> PktAt str off) -> Core str (ts_packet s p off).
Proof.
  intros H Hp. unfold ts_packet.
  destruct (Z.eqb_spec (byte_at p 0) TS_SYNC_BYTE) as [E|E]; cbn [negb]; [|auto with ts].
  apply ts_payload_core; [|auto]. destruct (pkt_no_payload p); [auto with ts|].
  apply ts_continuity_core. auto with ts.
Qed.

(** The counters and the framing state that payload processing leaves alone. *)
Definition frame (s : TSScanner) : Z * Z * bytes * Z * bool :=
  (bytes_fed (stats_ s), packets (stats_ s), partial_ s, partial_off_ s, synced_ s).

Lemma parse_frame s sec off :
  frame (parse_pat s sec off) = frame s /\ frame (parse_pmt s sec off) = frame s.
Proof.
  unfold parse_pat, apply_pat, parse_pmt, apply_pmt, set_video.
  split; repeat case_match; reflexivity.
Qed.

Lemma on_section_frame s out parse off :
  (forall s sec, frame (parse s sec off) = frame s) ->
  frame (on_section s out parse off) = frame s.
Proof. intros H. destruct out; cbn; auto. Qed.

Lemma ts_payload_frame s p off : frame (ts_payload s p off) = frame s.
Proof.
  unfold ts_payload, ts_pat_payload, ts_pmt_payload, ts_video_payload.
  repeat case_match; try reflexivity; rewrite on_section_frame; try done; intros; apply parse_frame.
Qed.

Lemma ts_packet_frame s p off :
  frame (ts_packet s p off)
  = (bytes_fed (stats_ s), packets (stats_ s) + 1, partial_ s, partial_off_ s,
     if byte_at p 0 =? TS_SYNC_BYTE then synced_ s else false).
Proof.
  unfold ts_packet. destruct (byte_at p 0 =? TS_SYNC_BYTE); cbn [negb]; [|done].
  rewrite ts_payload_frame. unfold ts_continuity. repeat case_match; reflexivity.
Qed.

Lemma ts_hunt_bound buf j : ts_hunt buf = Some j -> (j < length buf)%nat.
Proof.
  revert j. induction buf as [|b buf IH]; intros j; simpl; [done|].
  destruct (_ && _); [intros; simplify_eq; simpl; lia|].
  destruct (ts_hunt buf) as [k|]; simpl; intros; simplify_eq. specialize (IH k eq_refl). simpl. lia.
Qed.

Lemma byte_at_zdrop l n i : 0 <= n -> 0 <= i -> byte_at (zdrop n l) i = byte_at l (n + i).
Proof.
  intros. unfold byte_at, zdrop.
  replace (Z.to_nat (n + i)) with (Z.to_nat n + Z.to_nat i)%nat by lia.
  generalize (Z.to_nat n) (Z.to_nat i). intros a b. revert l.
  induction a as [|a IH]; intros [|x l]; simpl; auto. destruct b; done.
Qed.

(** A packet-sized piece of the stream, taken where it is. *)
Lemma PktAt_here (str buf : bytes) off :
  0 <= off -> zdrop off str = buf -> off + len buf = len str -> TS_PACKET_SIZE <= len buf ->
  byte_at buf 0 = TS_SYNC_BYTE -> PktAt str off.
Proof.
  intros H0 Hd Hl Hn Hb. repeat split; [done|lia|]. rewrite <-Hb, <-Hd, byte_at_zdrop by lia.
  f_equal. lia.
Qed.

(** Scanning with [buf] still to be processed. *)
Record Mid (str : bytes) (s : TSScanner) (buf : bytes) (off : Z) : Prop := {
  mid_core : Core str s;
  mid_bytes : bytes_fed (stats_ s) = len str;
  mid_partial : partial_ s = [];
  mid_packets : packets (stats_ s) * TS_PACKET_SIZE + len buf <= len str;
  mid_off : 0 <= off;
  mid_where : off + len buf = len str /\ zdrop off str = buf
}.

Lemma ztake_byte (l : bytes) n : 0 < n -> byte_at (ztake n l) 0 = byte_at l 0.
Proof. intros. unfold ztake. apply byte_at_take. lia. Qed.

(** Stopping there is always fine. *)
Lemma Mid_stop str s buf off : Mid str s buf off -> Scanning str s.
Proof.
  intros [H1 H2 H3 H4 H5 H6]. unfold TS_PACKET_SIZE in *.
  split; rewrite ?H3; unfold TS_PACKET_SIZE; simpl; try done; lia.
Qed.

Lemma ts_scan_scanning fuel str s buf off :
  Mid str s buf off -> (length buf <= fuel)%nat -> Scanning str (ts_scan fuel s buf off).
Proof.
  revert s buf off. induction fuel as [|fuel IH]; intros s buf off HM Hf; [by eapply Mid_stop|].
  cbn [ts_scan]. destruct buf as [|b0 buf0] eqn:Eb; [by eapply Mid_stop|]. rewrite <-Eb in *.
  destruct (if synced_ s then Some O else ts_hunt buf) as [j|] eqn:Ej; [|by eapply Mid_stop].
  destruct HM as [H1 H2 H3 H4 H5 [H6 H7]].
  assert (Hj : (j < length buf)%nat).
  { destruct (synced_ s); [simplify_eq; simpl; lia|by apply ts_hunt_bound]. }
  set (s1 := ts_enter s j).
  assert (F1 : Core str s1 /\ bytes_fed (stats_ s1) = len str /\ partial_ s1 = []
               /\ packets (stats_ s1) = packets (stats_ s)).
  { unfold s1, ts_enter. destruct (synced_ s); [done|]. split; [auto with ts|done]. }
  destruct F1 as (C1 & B1 & P1 & K1). clearbody s1. cbv zeta.
  assert (Hd : zdrop (off + Z.of_nat j) str = drop j buf).
  { rewrite <-H7, <-(zdrop_zdrop (Z.of_nat j)) by lia. unfold zdrop at 1. by rewrite Nat2Z.id. }
  assert (Hl : len (drop j buf) = len buf - Z.of_nat j) by (rewrite length_drop; lia).
  destruct (Z.ltb_spec (len (drop j buf)) TS_PACKET_SIZE) as [Hs|Hs].
  + split; cbn; [auto with ts|done|done|rewrite K1; lia|]. intros _.
    split; [lia|]. split; [lia|done].
  + pose proof (ts_packet_frame s1 (ztake TS_PACKET_SIZE (drop j buf)) (off + Z.of_nat j)) as F.
    unfold frame in F. simplify_eq F. intros FB FK FP FO FS.
    apply IH.
    * split; [|congruence..| | |].
      -- apply ts_packet_core; [done|]. intros E. rewrite ztake_byte in E by (unfold TS_PACKET_SIZE; lia).
         eapply PktAt_here; [lia|exact Hd|lia|done|done].
      -- rewrite FK, K1, length_zdrop. unfold TS_PACKET_SIZE in *. lia.
      -- unfold TS_PACKET_SIZE; lia.
      -- split; [rewrite length_zdrop; unfold TS_PACKET_SIZE in *; lia|].
         rewrite <-Hd, zdrop_zdrop by (unfold TS_PACKET_SIZE; lia). done.
    * rewrite length_zdrop, length_drop. unfold TS_PACKET_SIZE. lia.
Qed.

Lemma ts_feed_scanning str s c :
  Scanning str s -> Scanning (str ++ c) (ts_feed s c (len str)).
Proof.
  intros [H1 H2 H3 H4 H5]. unfold ts_feed. cbv zeta.
  assert (Hd : zdrop (len str) (str ++ c) = c) by (unfold zdrop; rewrite Nat2Z.id; apply drop_app_length).
  assert (C0 : Core (str ++ c) (count_bytes s (len c))) by (core_step; by apply Core_app).
  destruct (decide (partial_ (count_bytes s (len c)) = [])) as [E|E]; cbn in E.
  { apply ts_scan_scanning; [|lia]. rewrite E in H4. simpl in H4.
    split; cbn; rewrite ?length_app; [done|lia|done|lia|lia|]. split; [lia|done]. }
  destruct (H5 E) as (O1 & O2 & O3). cbn [count_bytes partial_ partial_off_].
  set (tk := if len c <? _ then _ else _).
  assert (Htk : 0 <= tk <= len c /\ len (partial_ s) + tk <= TS_PACKET_SIZE
    /\ (len (partial_ s) + tk < TS_PACKET_SIZE -> tk = len c)).
  { unfold tk. destruct (Z.ltb_spec (len c) (TS_PACKET_SIZE - len (partial_ s))); lia. }
  clearbody tk. set (p := partial_ s ++ ztake tk c).
  assert (Hp : len p = len (partial_ s) + tk) by (unfold p; rewrite length_app, length_ztake; lia).
  assert (Hz : zdrop (partial_off_ s) (str ++ c) = partial_ s ++ c).
  { rewrite zdrop_app_le by lia. by rewrite O3. }
  destruct (Z.ltb_spec (len p) TS_PACKET_SIZE) as [Hs|Hs].
  - assert (tk = len c) as -> by lia.
    assert (Ep : p = partial_ s ++ c) by (unfold p, ztake; rewrite Nat2Z.id; by rewrite firstn_all).
    split; cbn; rewrite ?length_app; [auto with ts|lia|lia|lia|]. intros _.
    split; [done|]. split; [lia|]. by rewrite Hz.
  - pose proof (ts_packet_frame (count_bytes s (len c)) p (partial_off_ s)) as F.
    unfold frame in F. simplify_eq F. intros FB FK FP FO FS. cbn in FB, FK.
    apply ts_scan_scanning; [|rewrite length_zdrop; lia].
    split; cbn; [|rewrite FB, length_app; lia|done| |lia|].
    + core_step. apply ts_packet_core; [done|]. intros Eb.
      repeat split; [done|rewrite length_app; unfold TS_PACKET_SIZE in *; lia|].
      rewrite <-(Z.add_0_r (partial_off_ s)), <-byte_at_zdrop, Hz, <-Eb by lia. unfold p.
      assert (0 < len (partial_ s)) by (destruct (partial_ s); [done|simpl; lia]).
      rewrite !byte_at_app_l by lia. done.
    + rewrite FK, length_app, length_zdrop. unfold TS_PACKET_SIZE in *. lia.
    + rewrite length_app, length_zdrop. split; [lia|].
      rewrite <-zdrop_zdrop by lia. by rewrite Hd.
Qed.

Lemma ts_feed_all_scanning chunks str s :
  Scanning str s -> Scanning (str ++ concat chunks) (ts_feed_all s chunks (len str)).
Proof.
  revert str s. induction chunks as [|c cs IH]; intros str s H; cbn [ts_feed_all concat].
  - by rewrite app_nil_r.
  - rewrite app_assoc. replace (len str + len c) with (len (str ++ c)) by (rewrite length_app; lia).
    apply IH. by apply ts_feed_scanning.
Qed.

Lemma ts_init_scanning : Scanning [] ts_init.
Proof. by split. Qed.

(** C23: whatever bytes arrive, in whatever chunks, a join offset is only ever
    given with a program, and it is the start of a complete packet (sync byte
    included) of what has been fed; a program always names a non-zero video PID;
    and packets are never counted beyond the bytes fed.  These are the
    invariants the source's mutation fuzzer samples. *)
Theorem ts_scanner_safe (chunks : list bytes) :
  let s := ts_feed_all ts_init chunks 0 in
  (match join_offset s with
   | Some off => have_program s = true /\ PktAt (concat chunks) off
   | None => True
   end)
  /\ (have_program s = true -> video_pid_ s <> 0)
  /\ packets (stats_ s) * TS_PACKET_SIZE <= bytes_fed (stats_ s)
  /\ bytes_fed (stats_ s) = len (concat chunks).
Proof.
  cbv zeta. destruct (ts_feed_all_scanning chunks [] ts_init ts_init_scanning) as [H1 H2 H3 H4 H5].
  cbn [app length] in *. set (s := ts_feed_all ts_init chunks 0) in *.
  change (ts_feed_all ts_init chunks (Z.of_nat 0)) with s in *.
  destruct H1 as [C1 C2 C3 C4]. split; [|split; [exact C4|split; [lia|done]]].
  unfold join_offset, have_program.
  destruct (have_anchor_ s) eqn:Ea; cbn [negb orb]; [|done].
  destruct (have_pmt_ s); cbn [negb orb]; [|done]. split; [done|]. by apply C3.
Qed.

(** ** Independence from chunking

    On a stream whose packet boundaries all carry the sync byte, how it is cut
    into reads does not matter.  The final states agree up to [partial_off_],
    which is dead while no partial packet is held. *)

Definition forget (s : TSScanner) : TSScanner :=
  if decide (partial_ s = []) then s <| partial_off_ := 0 |> else s.

Definition ts_equiv (s1 s2 : TSScanner) : Prop := forget s1 = forget s2.

#[export] Instance ts_equiv_equivalence : Equivalence ts_equiv.
Proof. split; unfold ts_equiv; congruence. Qed.

(** Set the framing fields and add to the byte count. *)
Definition reframe (s : TSScanner) (n : Z) (p : bytes) (o : Z) (y : bool) : TSScanner :=
  s <| stats_ := stats_ s <| bytes_fed := bytes_fed (stats_ s) + n |> |>
    <| partial_ := p |> <| partial_off_ := o |> <| synced_ := y |>.

Lemma reframe_reframe s n p o y n' p' o' y' :
  reframe (reframe s n p o y) n' p' o' y' = reframe s (n + n') p' o' y'.
Proof. unfold reframe. cbn. by rewrite Z.add_assoc. Qed.

Lemma parse_reframe s n p o y sec off :
  parse_pat (reframe s n p o y) sec off = reframe (parse_pat s sec off) n p o y
  /\ parse_pmt (reframe s n p o y) sec off = reframe (parse_pmt s sec off) n p o y.
Proof.
  unfold parse_pat, apply_pat, parse_pmt, apply_pmt, set_video. destruct s. cbn.
  split; repeat case_match; reflexivity.
Qed.

Lemma on_section_reframe s n p o y out parse off :
  (forall s sec, parse (reframe s n p o y) sec off = reframe (parse s sec off) n p o y) ->
  on_section (reframe s n p o y) out parse off = reframe (on_section s out parse off) n p o y.
Proof. intros H. destruct out; cbn; auto. Qed.

Lemma ts_payload_reframe s n p o y x off :
  ts_payload (reframe s n p o y) x off = reframe (ts_payload s x off) n p o y.
Proof.
  unfold ts_payload, ts_pat_payload, ts_pmt_payload, ts_video_payload.
  cbn [reframe have_pat_ have_pmt_ pmt_pid_ video_pid_ video_stream_type_ have_pat_off_
       have_pmt_off_ last_pat_off_ last_pmt_off_ pat_asm_ pmt_asm_].
  repeat case_match; try reflexivity.
  - rewrite <-on_section_reframe; [done|]. intros; apply parse_reframe.
  - rewrite <-on_section_reframe; [done|]. intros; apply parse_reframe.
Qed.

Lemma ts_packet_reframe s n p o y x off :
  byte_at x 0 = TS_SYNC_BYTE ->
  ts_packet (reframe s n p o y) x off = reframe (ts_packet s x off) n p o y.
Proof.
  intros E. unfold ts_packet. rewrite E. cbn [negb Z.eqb TS_SYNC_BYTE Pos.eqb].
  rewrite <-ts_payload_reframe. f_equal. unfold ts_continuity. destruct s. cbn.
  repeat case_match; reflexivity.
Qed.

(** The packets of [buf], one after the other. *)
Fixpoint packets_run (n : nat) (s : TSScanner) (buf : bytes) (off : Z) : TSScanner :=
  match n with
  | O => s
  | S n => packets_run n (ts_packet s (ztake TS_PACKET_SIZE buf) off)
             (zdrop TS_PACKET_SIZE buf) (off + TS_PACKET_SIZE)
  end.

Definition Aligned (l : bytes) : Prop :=
  forall k, 0 <= k -> k * TS_PACKET_SIZE < len l -> byte_at l (k * TS_PACKET_SIZE) = TS_SYNC_BYTE.

Lemma Aligned_prefix l k : Aligned (l ++ k) -> Aligned l.
Proof.
  intros H i Hi Hl. rewrite <-(byte_at_app_l l k) by (unfold TS_PACKET_SIZE in *; lia).
  apply H; [done|]. rewrite length_app. lia.
Qed.

Lemma Aligned_zdrop l m : 0 <= m -> Aligned l -> Aligned (zdrop (m * TS_PACKET_SIZE) l).
Proof.
  intros Hm H i Hi Hl. rewrite byte_at_zdrop by (unfold TS_PACKET_SIZE; lia).
  rewrite <-Z.mul_add_distr_r. apply H; [lia|]. rewrite length_zdrop in Hl.
  unfold TS_PACKET_SIZE in *. lia.
Qed.

Lemma Aligned_next l : Aligned l -> Aligned (zdrop TS_PACKET_SIZE l).
Proof. intros H. replace TS_PACKET_SIZE with (1 * TS_PACKET_SIZE) by lia. by apply Aligned_zdrop. Qed.

Lemma Aligned_head l : Aligned l -> 0 < len l -> byte_at l 0 = TS_SYNC_BYTE.
Proof. intros H Hl. apply (H 0); lia. Qed.

Lemma packets_run_reframe k s buf off n p o y :
  Aligned buf -> Z.of_nat k * TS_PACKET_SIZE <= len buf ->
  packets_run k (reframe s n p o y) buf off = reframe (packets_run k s buf off) n p o y.
Proof.
  revert s buf off. induction k as [|k IH]; intros s buf off Ha Hl; [done|].
  cbn [packets_run]. unfold TS_PACKET_SIZE in Hl.
  rewrite ts_packet_reframe by (rewrite ztake_byte; [apply Aligned_head; [done|lia]|unfold TS_PACKET_SIZE; lia]).
  apply IH; [by apply Aligned_next|]. rewrite length_zdrop. unfold TS_PACKET_SIZE. lia.
Qed.

Lemma ztake_app_le (l k : bytes) n : 0 <= n <= len l -> ztake n (l ++ k) = ztake n l.
Proof. intros. unfold ztake. apply take_app_le. lia. Qed.

(** Running [k] packets and then [m] more of the longer stream. *)
Lemma packets_run_split k m s buf tail off :
  Z.of_nat k * TS_PACKET_SIZE <= len buf ->
  packets_run (k + m) s (buf ++ tail) off
  = packets_run m (packets_run k s buf off)
      (zdrop (Z.of_nat k * TS_PACKET_SIZE) buf ++ tail) (off + Z.of_nat k * TS_PACKET_SIZE).
Proof.
  revert s buf off. induction k as [|k IH]; intros s buf off Hl.
  { cbn [packets_run Nat.add]. unfold zdrop. simpl. by rewrite Z.add_0_r. }
  cbn [packets_run Nat.add]. unfold TS_PACKET_SIZE in Hl.
  rewrite ztake_app_le, zdrop_app_le, IH
    by (rewrite ?length_zdrop; unfold TS_PACKET_SIZE; lia).
  rewrite zdrop_zdrop by (unfold TS_PACKET_SIZE; lia).
  f_equal; [f_equal; f_equal|]; unfold TS_PACKET_SIZE; lia.
Qed.

(** The scanner after the whole packets of [all], holding the rest. *)
Definition settle (s : TSScanner) (n : Z) (all : bytes) (off : Z) : TSScanner :=
  let k := Z.to_nat (len all / TS_PACKET_SIZE) in
  reframe (packets_run k s all off) n (zdrop (Z.of_nat k * TS_PACKET_SIZE) all)
    (off + Z.of_nat k * TS_PACKET_SIZE)
    (if decide (all = []) then synced_ s else true).

Lemma packets_count (l : bytes) :
  let k := Z.to_nat (len l / TS_PACKET_SIZE) in
  Z.of_nat k * TS_PACKET_SIZE <= len l < Z.of_nat k * TS_PACKET_SIZE + TS_PACKET_SIZE.
Proof. cbv zeta. unfold TS_PACKET_SIZE. Z.div_mod_to_equations. lia. Qed.

Lemma reframe_id s : reframe s 0 (partial_ s) (partial_off_ s) (synced_ s) = s.
Proof. destruct s as [[] ?]. unfold reframe. cbn. by rewrite Z.add_0_r. Qed.

Lemma set_partial_reframe s p o : set_partial s p o = reframe s 0 p o (synced_ s).
Proof. destruct s as [[] ?]. unfold reframe, set_partial. cbn. by rewrite Z.add_0_r. Qed.

Lemma synced_reframe s :
  ts_enter s 0 = reframe s 0 (partial_ s) (partial_off_ s) true.
Proof.
  destruct s as [[] ? ? ? ? ? ? ? ? ? ? ? ? ? ? ? ? ? ? []]; unfold ts_enter, reframe, set_synced; cbn;
    by rewrite Z.add_0_r.
Qed.

Lemma ts_hunt_aligned buf : Aligned buf -> buf <> [] -> ts_hunt buf = Some O.
Proof.
  intros Ha Hne. destruct buf as [|b tl]; [done|]. cbn [ts_hunt].
  pose proof (Aligned_head _ Ha ltac:(simpl; lia)) as E0. change (byte_at (b :: tl) 0) with b in E0.
  rewrite (proj2 (Z.eqb_eq _ _) E0). destruct (nth_error tl 187) as [c|] eqn:E1; [|done].
  assert (Hc : byte_at (b :: tl) (1 * TS_PACKET_SIZE) = c) by (apply (nth_error_nth _ _ 0 E1)).
  assert (Hl : (187 < length tl)%nat) by (apply nth_error_Some; congruence).
  rewrite Ha in Hc by (unfold TS_PACKET_SIZE; simpl; lia). by rewrite <-Hc.
Qed.

(** Equivalent states are equal, or equal but for [partial_off_] with nothing held. *)
Lemma ts_equiv_cases s1 s2 :
  ts_equiv s1 s2 <-> s1 = s2 \/
    (partial_ s1 = [] /\ s1 = reframe s2 0 (partial_ s2) (partial_off_ s1) (synced_ s2)).
Proof.
  unfold ts_equiv, forget. destruct s1 as [[]], s2 as [[]]. unfold reframe. cbn.
  rewrite Z.add_0_r. split.
  - repeat case_decide; intros [=]; subst; naive_solver.
  - intros [[=]|[-> [=]]]; subst; [done|]. by rewrite !decide_True.
Qed.

Lemma reframe_off_equiv s n o o' y : ts_equiv (reframe s n [] o y) (reframe s n [] o' y).
Proof. done. Qed.

Lemma ts_packet_off s o x off :
  ts_packet (reframe s 0 (partial_ s) o (synced_ s)) x off
  = reframe (ts_packet s x off) 0 (partial_ (ts_packet s x off)) o (synced_ (ts_packet s x off)).
Proof.
  pose proof (ts_packet_frame s x off) as F. unfold frame in F. simplify_eq F.
  intros FB FK FP FO FS. rewrite FP, FS.
  destruct (Z.eqb_spec (byte_at x 0) TS_SYNC_BYTE) as [E|E]; [by apply ts_packet_reframe|].
  unfold ts_packet. rewrite (proj2 (Z.eqb_neq _ _) E). cbn [negb]. destruct s as [[]]. done.
Qed.

Lemma ts_enter_off s o j :
  ts_enter (reframe s 0 [] o (synced_ s)) j
  = reframe (ts_enter s j) 0 [] o (synced_ (ts_enter s j)).
Proof. unfold ts_enter. destruct s as [[] ? ? ? ? ? ? ? ? ? ? ? ? ? ? ? ? ? ? []]; done. Qed.

Lemma ts_scan_off fuel s o buf off :
  partial_ s = [] ->
  ts_equiv (ts_scan fuel (reframe s 0 [] o (synced_ s)) buf off) (ts_scan fuel s buf off).
Proof.
  revert s buf off. induction fuel as [|fuel IH]; intros s buf off Hp.
  all: assert (R : forall s', partial_ s' = [] -> ts_equiv (reframe s' 0 [] o (synced_ s')) s')
    by (intros s' H'; apply ts_equiv_cases; right; by rewrite H').
  { by apply R. }
  cbn [ts_scan]. destruct buf as [|b0 buf0]; [by apply R|].
  change (synced_ (reframe s 0 [] o (synced_ s))) with (synced_ s).
  destruct (if synced_ s then Some O else _) as [j|]; [|by apply R]. cbv zeta.
  rewrite ts_enter_off. set (s1 := ts_enter s j).
  assert (P1 : partial_ s1 = []) by (subst s1; unfold ts_enter; by destruct (synced_ s)).
  case_match; [by rewrite !set_partial_reframe, reframe_reframe|].
  pose proof (ts_packet_off s1 o (ztake TS_PACKET_SIZE (drop j (b0 :: buf0))) (off + Z.of_nat j)) as E.
  pose proof (ts_packet_frame s1 (ztake TS_PACKET_SIZE (drop j (b0 :: buf0))) (off + Z.of_nat j)) as F.
  unfold frame in F. simplify_eq F. intros FB FK FP FO FS.
  rewrite P1 in E. rewrite E, FP, P1. apply IH. by rewrite FP.
Qed.

#[export] Instance ts_feed_proper : Proper (ts_equiv ==> eq ==> eq ==> ts_equiv) ts_feed.
Proof.
  intros s1 s2 H buf ? <- base ? <-. apply ts_equiv_cases in H as [->|[Hp E]]; [done|].
  assert (Hp2 : partial_ s2 = []) by (by rewrite E in Hp).
  revert E. generalize (partial_off_ s1) as o. intros o ->. rewrite Hp2. unfold ts_feed.
  rewrite !decide_True by done.
  rewrite <-(ts_scan_off _ (count_bytes s2 (len buf)) o) by done.
  unfold reframe, count_bytes. cbn. by rewrite !Z.add_0_r.
Qed.

Lemma settle_reframe s n p o y n' all off :
  Aligned all ->
  settle (reframe s n p o y) n' all off
  = reframe (settle s (n + n') all off) 0 (partial_ (settle s 0 all off))
      (partial_off_ (settle s 0 all off)) (if decide (all = []) then y else true).
Proof.
  intros Ha. unfold settle. cbv zeta. rewrite packets_run_reframe by (try done; apply packets_count).
  rewrite !reframe_reframe, Z.add_0_r. cbn [reframe partial_ partial_off_ synced_]. done.
Qed.

Lemma count_next (all : bytes) :
  TS_PACKET_SIZE <= len all ->
  Z.to_nat (len all / TS_PACKET_SIZE)
  = S (Z.to_nat (len (zdrop TS_PACKET_SIZE all) / TS_PACKET_SIZE)).
Proof. rewrite length_zdrop. unfold TS_PACKET_SIZE. Z.div_mod_to_equations. lia. Qed.

Lemma settle_next_fields s s' n n' all off :
  TS_PACKET_SIZE <= len all ->
  partial_ (settle s' n' (zdrop TS_PACKET_SIZE all) (off + TS_PACKET_SIZE))
    = partial_ (settle s n all off)
  /\ partial_off_ (settle s' n' (zdrop TS_PACKET_SIZE all) (off + TS_PACKET_SIZE))
    = partial_off_ (settle s n all off).
Proof.
  intros Hl. unfold settle. cbv zeta. cbn [reframe partial_ partial_off_].
  rewrite (count_next all Hl), Nat2Z.inj_succ.
  rewrite zdrop_zdrop by (unfold TS_PACKET_SIZE; lia).
  split; [f_equal|]; unfold TS_PACKET_SIZE; lia.
Qed.

Lemma settle_next s n all off :
  TS_PACKET_SIZE <= len all ->
  settle s n all off
  = reframe (settle (ts_packet s (ztake TS_PACKET_SIZE all) off) n
      (zdrop TS_PACKET_SIZE all) (off + TS_PACKET_SIZE)) 0
      (partial_ (settle s n all off)) (partial_off_ (settle s n all off)) true.
Proof.
  intros Hl. unfold settle at 1 2. cbv zeta. rewrite reframe_reframe, Z.add_0_r.
  assert (Hne : all <> []) by (intros ->; unfold TS_PACKET_SIZE in Hl; simpl in Hl; lia).
  rewrite (decide_False _ _ Hne).
  unfold settle. cbv zeta. cbn [reframe partial_ partial_off_].
  by rewrite (count_next all Hl).
Qed.

Lemma settle_short s n all off :
  len all < TS_PACKET_SIZE ->
  settle s n all off = reframe s n all off (if decide (all = []) then synced_ s else true).
Proof.
  intros Hl. unfold settle. replace (len all / TS_PACKET_SIZE) with 0
    by (symmetry; apply Z.div_small; lia).
  cbn [Z.to_nat packets_run]. unfold zdrop. simpl. by rewrite Z.add_0_r.
Qed.

Lemma reframe_fold s n p o y p' o' y' :
  reframe (reframe s n p o y) 0 p' o' y' = reframe s n p' o' y'.
Proof. by rewrite reframe_reframe, Z.add_0_r. Qed.

Lemma settle_step s n p o y all off :
  Aligned all -> TS_PACKET_SIZE <= len all ->
  settle (ts_packet (reframe s n p o y) (ztake TS_PACKET_SIZE all) off) 0
    (zdrop TS_PACKET_SIZE all) (off + TS_PACKET_SIZE)
  = reframe (settle s n all off) 0 (partial_ (settle s n all off))
      (partial_off_ (settle s n all off))
      (if decide (zdrop TS_PACKET_SIZE all = []) then y else true).
Proof.
  intros Ha Hl. rewrite ts_packet_reframe.
  2:{ rewrite ztake_byte by (unfold TS_PACKET_SIZE; lia).
      apply Aligned_head; [done|unfold TS_PACKET_SIZE in *; lia]. }
  rewrite settle_reframe by (by apply Aligned_next). rewrite Z.add_0_r.
  destruct (settle_next_fields s (ts_packet s (ztake TS_PACKET_SIZE all) off) n 0 all off Hl)
    as [-> ->].
  set (P := partial_ _). set (O := partial_off_ _). clearbody P O.
  by rewrite (settle_next s n all off Hl), !reframe_fold.
Qed.

Lemma ts_scan_settle fuel s buf off :
  partial_ s = [] -> Aligned buf -> (length buf <= fuel)%nat ->
  ts_equiv (ts_scan fuel s buf off) (settle s 0 buf off).
Proof.
  revert s buf off. induction fuel as [|fuel IH]; intros s buf off Hp Ha Hf.
  all: assert (E0 : buf = [] -> ts_equiv s (settle s 0 buf off))
    by (intros ->; rewrite settle_short by done; apply ts_equiv_cases; right;
        split; [done|]; unfold reframe; destruct s as [[]]; cbn in *; subst; by rewrite !Z.add_0_r).
  { apply E0. destruct buf; [done|simpl in Hf; lia]. }
  cbn [ts_scan]. destruct buf as [|b0 buf0] eqn:Eb; [by apply E0|]. rewrite <-Eb in *.
  assert (Hne : buf <> []) by congruence. clear E0 Eb.
  replace (if synced_ s then Some O else ts_hunt buf) with (Some O)
    by (destruct (synced_ s); [done|by rewrite ts_hunt_aligned]).
  cbv zeta. rewrite drop_0, Z.add_0_r, synced_reframe, Hp.
  destruct (Z.ltb_spec (len buf) TS_PACKET_SIZE) as [Hs|Hs].
  - rewrite set_partial_reframe, reframe_fold, settle_short by done. by rewrite decide_False.
  - rewrite IH; cycle 1.
    { rewrite ts_packet_reframe by (rewrite ztake_byte; [apply Aligned_head; [done|]|];
        unfold TS_PACKET_SIZE in *; lia). done. }
    { by apply Aligned_next. }
    { rewrite length_zdrop. unfold TS_PACKET_SIZE in *. lia. }
    rewrite settle_step by done. destruct (decide _); rewrite (settle_next s 0 buf off Hs);
      by rewrite ?reframe_fold.
Qed.

(** Consecutive chunks: what is held ends where the next chunk starts. *)
Definition Framed (s : TSScanner) (base : Z) : Prop :=
  len (partial_ s) < TS_PACKET_SIZE
  /\ (partial_ s <> [] -> synced_ s = true /\ partial_off_ s + len (partial_ s) = base).

Lemma ts_feed_settle s buf base :
  Framed s base -> Aligned (partial_ s ++ buf) ->
  ts_equiv (ts_feed s buf base)
    (settle s (len buf) (partial_ s ++ buf) (base - len (partial_ s))).
Proof.
  intros [Hlt Hfr] Ha. unfold ts_feed. cbv zeta.
  assert (EC : count_bytes s (len buf)
    = reframe s (len buf) (partial_ s) (partial_off_ s) (synced_ s)) by (by destruct s as [[]]).
  rewrite EC. cbn [partial_ reframe partial_off_].
  destruct (decide (partial_ s = [])) as [E|E].
  - rewrite E in *. cbn [app length] in *. rewrite Z.sub_0_r.
    rewrite ts_scan_settle by done. rewrite settle_reframe, Z.add_0_r by done.
    unfold settle. cbv zeta. rewrite reframe_fold. cbn [reframe partial_ partial_off_].
    by destruct (decide (buf = [])).
  - destruct (Hfr E) as [Hsy Hb]. set (all := partial_ s ++ buf) in *.
    assert (Hall : len all = len (partial_ s) + len buf) by (unfold all; rewrite length_app; lia).
    assert (Hane : all <> []) by (unfold all; by destruct (partial_ s)).
    assert (Hpo : base - len (partial_ s) = partial_off_ s) by lia. rewrite Hpo.
    set (need := TS_PACKET_SIZE - _). destruct (Z.ltb_spec (len buf) need) as [Hn|Hn].
    + assert (ztake (len buf) buf = buf) as -> by (unfold ztake; rewrite Nat2Z.id; apply firstn_all).
      fold all. rewrite (proj2 (Z.ltb_lt _ _)) by lia.
      rewrite set_partial_reframe, reframe_fold, settle_short by lia.
      cbn [reframe synced_]. rewrite decide_False by done. by rewrite Hsy.
    + assert (Hx : partial_ s ++ ztake need buf = ztake TS_PACKET_SIZE all).
      { unfold all, ztake, need. rewrite take_app_ge by lia. do 2 f_equal. lia. }
      assert (Hr : zdrop need buf = zdrop TS_PACKET_SIZE all).
      { unfold all, zdrop, need. rewrite drop_app_ge by lia. f_equal. lia. }
      rewrite Hx, Hr. rewrite (proj2 (Z.ltb_ge _ _))
        by (rewrite length_ztake; unfold TS_PACKET_SIZE in *; lia).
      replace (base + need) with (partial_off_ s + TS_PACKET_SIZE) by (unfold need; lia).
      rewrite ts_packet_reframe by (rewrite ztake_byte; [apply Aligned_head; [done|]|];
        unfold TS_PACKET_SIZE in *; lia).
      rewrite set_partial_reframe, reframe_fold. cbn [synced_ reframe].
      rewrite ts_scan_settle; [|done|by apply Aligned_next|rewrite <-Hr, length_zdrop; lia].
      rewrite <-ts_packet_reframe by (rewrite ztake_byte; [apply Aligned_head; [done|]|];
        unfold TS_PACKET_SIZE in *; lia).
      rewrite settle_step by (done || (unfold TS_PACKET_SIZE in *; lia)).
      rewrite Hsy. destruct (decide _); rewrite (settle_next s) by (unfold need, TS_PACKET_SIZE in *; lia);
        by rewrite ?reframe_fold.
Qed.

Lemma settle_twice s n1 n2 all b off :
  Aligned (all ++ b) ->
  settle (settle s n1 all off) n2 (partial_ (settle s n1 all off) ++ b)
    (partial_off_ (settle s n1 all off))
  = settle s (n1 + n2) (all ++ b) off.
Proof.
  intros Ha. unfold settle at 1 3 4. cbv zeta.
  pose proof (packets_count all) as Hk1. cbv zeta in Hk1.
  set (k1 := Z.to_nat (len all / TS_PACKET_SIZE)) in *.
  set (rem := zdrop (Z.of_nat k1 * TS_PACKET_SIZE) all).
  cbn [partial_ partial_off_ reframe].
  assert (Hrem : rem ++ b = zdrop (Z.of_nat k1 * TS_PACKET_SIZE) (all ++ b))
    by (unfold rem; rewrite zdrop_app_le by lia; done).
  assert (Har : Aligned (rem ++ b)) by (rewrite Hrem; apply Aligned_zdrop; [lia|done]).
  change (settle s n1 all off) with (reframe (packets_run k1 s all off) n1 rem
    (off + Z.of_nat k1 * TS_PACKET_SIZE) (if decide (all = []) then synced_ s else true)).
  fold (settle (reframe (packets_run k1 s all off) n1 rem
    (off + Z.of_nat k1 * TS_PACKET_SIZE) (if decide (all = []) then synced_ s else true)) n2
    (rem ++ b) (off + Z.of_nat k1 * TS_PACKET_SIZE)).
  rewrite settle_reframe by done. unfold settle. cbv zeta.
  rewrite reframe_fold. cbn [partial_ partial_off_ reframe].
  set (k2 := Z.to_nat (len (rem ++ b) / TS_PACKET_SIZE)).
  assert (Hk : Z.to_nat (len (all ++ b) / TS_PACKET_SIZE) = (k1 + k2)%nat).
  { unfold k2, k1. rewrite Hrem, length_zdrop, length_app. fold k1. unfold k1, TS_PACKET_SIZE in *.
    Z.div_mod_to_equations. lia. }
  rewrite Hk, packets_run_split by lia. fold rem. rewrite Nat2Z.inj_add.
  f_equal.
  - rewrite Hrem, zdrop_zdrop by (unfold TS_PACKET_SIZE; lia). f_equal. lia.
  - lia.
  - destruct (decide (all = [])) as [->|Hne].
    + unfold rem, zdrop. rewrite drop_nil. done.
    + destruct (decide (all ++ b = [])) as [En|_]; [by destruct all|]. by destruct (decide _).
Qed.

Lemma settle_framed s n all off : Framed (settle s n all off) (off + len all).
Proof.
  pose proof (packets_count all) as Hk. cbv zeta in Hk. unfold settle, Framed. cbv zeta.
  cbn [partial_ partial_off_ synced_ reframe]. rewrite length_zdrop.
  unfold TS_PACKET_SIZE in *. split; [lia|].
  intros Hne. split; [|lia]. rewrite decide_False; [done|]. intros ->.
  unfold zdrop in Hne. by rewrite drop_nil in Hne.
Qed.

Lemma Framed_equiv s s' base : ts_equiv s s' -> Framed s base -> Framed s' base.
Proof.
  intros H. apply ts_equiv_cases in H as [->|[Hp E]]; [done|]. intros [Hl _].
  assert (Hp' : partial_ s' = []) by (by rewrite E in Hp). unfold Framed. by rewrite Hp'.
Qed.

(** Two chunks in a row are one. *)
Lemma ts_feed_app s a b base :
  Framed s base -> Aligned (partial_ s ++ a ++ b) ->
  ts_equiv (ts_feed (ts_feed s a base) b (base + len a)) (ts_feed s (a ++ b) base).
Proof.
  intros Hf Ha. set (off := base - len (partial_ s)).
  assert (Ha1 : Aligned (partial_ s ++ a)) by (rewrite app_assoc in Ha; by apply Aligned_prefix in Ha).
  rewrite (ts_feed_settle s (a ++ b)) by done. rewrite (ts_feed_settle s a base) by done.
  fold off. set (s1 := settle s (len a) (partial_ s ++ a) off).
  assert (Hf1 : Framed s1 (base + len a)).
  { replace (base + len a) with (off + len (partial_ s ++ a)) by (unfold off; rewrite length_app; lia).
    apply settle_framed. }
  assert (Ho : partial_off_ s1 = base + len a - len (partial_ s1)).
  { pose proof (packets_count (partial_ s ++ a)) as Hk. cbv zeta in Hk.
    unfold s1, settle. cbv zeta. cbn [partial_off_ partial_ reframe].
    rewrite length_zdrop. rewrite !length_app in *. unfold off, TS_PACKET_SIZE in *. lia. }
  rewrite ts_feed_settle; [|done|].
  - rewrite <-Ho. unfold s1. rewrite settle_twice by (by rewrite <-app_assoc).
    rewrite <-app_assoc, length_app, Nat2Z.inj_add. done.
  - unfold s1, settle. cbv zeta. cbn [partial_ reframe].
    rewrite <-zdrop_app_le by apply packets_count.
    apply Aligned_zdrop; [lia|]. by rewrite <-app_assoc.
Qed.

Lemma ts_feed_nil s base : Framed s base -> Aligned (partial_ s) -> ts_equiv (ts_feed s [] base) s.
Proof.
  intros [Hl Hf] Ha. rewrite ts_feed_settle by (by rewrite ?app_nil_r). rewrite app_nil_r.
  rewrite settle_short by done. destruct (decide (partial_ s = [])) as [E|E].
  - apply ts_equiv_cases. right. by rewrite E.
  - destruct (Hf E) as [Hs Hb]. replace (base - len (partial_ s)) with (partial_off_ s) by lia.
    rewrite <-Hs. by rewrite reframe_id.
Qed.

Lemma ts_feed_all_equiv chunks s base :
  Framed s base -> Aligned (partial_ s ++ concat chunks) ->
  ts_equiv (ts_feed_all s chunks base) (ts_feed s (concat chunks) base).
Proof.
  revert s base. induction chunks as [|c cs IH]; intros s base Hf Ha; cbn [ts_feed_all concat] in *.
  - rewrite app_nil_r in Ha. by rewrite ts_feed_nil.
  - assert (Ha1 : Aligned (partial_ s ++ c)) by (rewrite app_assoc in Ha; by apply Aligned_prefix in Ha).
    pose proof (ts_feed_settle s c base Hf Ha1) as E1.
    assert (Hf1 : Framed (ts_feed s c base) (base + len c)).
    { eapply Framed_equiv; [symmetry; exact E1|].
      replace (base + len c) with (base - len (partial_ s) + len (partial_ s ++ c))
        by (rewrite length_app; lia). apply settle_framed. }
    rewrite IH; [by apply ts_feed_app|done|].
    assert (Ep : partial_ (ts_feed s c base)
      = partial_ (settle s (len c) (partial_ s ++ c) (base - len (partial_ s)))).
    { apply ts_equiv_cases in E1 as [->|[_ ->]]; done. }
    rewrite Ep. unfold settle. cbv zeta. cbn [partial_ reframe].
    rewrite <-zdrop_app_le by apply packets_count.
    apply Aligned_zdrop; [lia|]. by rewrite <-app_assoc.
Qed.

(** C22: chunking is irrelevant.  On a stream whose packets all start with the
    sync byte, however it is cut into reads (down to single bytes, across packet
    and section boundaries, with empty reads), the scanner ends with the same
    statistics, program and join offset as when fed the whole at once; the
    states agree but for one dead field. *)
Theorem ts_chunking_irrelevant (chunks : list bytes) (Hal : Aligned (concat chunks)) :
  let s := ts_feed_all ts_init chunks 0 in
  let s' := ts_feed ts_init (concat chunks) 0 in
  ts_equiv s s' /\ stats_ s = stats_ s' /\ join_offset s = join_offset s'
  /\ video_pid_ s = video_pid_ s'.
Proof.
  cbv zeta. assert (H : ts_equiv (ts_feed_all ts_init chunks 0) (ts_feed ts_init (concat chunks) 0))
    by (apply ts_feed_all_equiv; [by split|done]).
  split; [done|]. apply ts_equiv_cases in H as [->|[_ E]]; [done|]. rewrite E.
  set (s' := ts_feed ts_init _ _). clearbody s'. destruct s' as [[]]. unfold reframe. cbn.
  by rewrite Z.add_0_r.
Qed.

(** [Aligned], decided on a concrete stream. *)
Lemma Aligned_check l :
  forallb (fun k => byte_at l (Z.of_nat k * TS_PACKET_SIZE) =? TS_SYNC_BYTE)
    (seq 0 (Z.to_nat ((len l + 187) / 188))) = true -> Aligned l.
Proof.
  intros H k Hk Hl. rewrite forallb_forall in H. specialize (H (Z.to_nat k)).
  rewrite Z2Nat.id in H by done. apply Z.eqb_eq, H, in_seq.
  unfold TS_PACKET_SIZE in Hl. Z.div_mod_to_equations. lia.
Qed.

Lemma ts_chunking_irrelevant_witness :
  let chunks := [take 100 selftest_stream; []; drop 100 selftest_stream] in
  let s := ts_feed_all ts_init chunks 0 in
  let s' := ts_feed ts_init (concat chunks) 0 in
  ts_equiv s s' /\ stats_ s = stats_ s' /\ join_offset s = join_offset s'
  /\ video_pid_ s = video_pid_ s'.
Proof.
  apply (ts_chunking_irrelevant [take 100 selftest_stream; []; drop 100 selftest_stream]).
  apply Aligned_check. vm_compute. reflexivity.
Defined.

(** ** A limit of the anchor

    The join offset is the earlier of the last PAT and the last PMT.  With a PAT
    repeated between the last PMT and the access point that is the PMT: a viewer
    started there meets PMT, PAT, access point, and a demuxer that needs the PAT
    first (such as this very scanner) knows no program when the access point
    comes. *)
Definition pat_repeated_stream : bytes :=
  let '(cc, a) := tsb_pat ∅ 0x100 0 in
  let '(cc, b) := tsb_pmt cc 0x100 0x101 TS_STREAM_H264 0 in
  let '(cc, c) := tsb_pat cc 0x100 0 in
  let '(cc, d) := tsb_video cc 0x101 true TS_STREAM_H264 true in
  a ++ b ++ c ++ d.

Lemma join_offset_may_precede_pat :
  join_offset (ts_feed ts_init pat_repeated_stream 0) = Some 188
  /\ have_program (ts_feed ts_init (zdrop 188 pat_repeated_stream) 188) = false.
Proof. split; vm_compute; reflexivity. Qed.
