(* ===== verification/Tdb.v ===== *)
(** * The TDB store, as an interface

    keys.tdb and connections.tdb are Samba TDB files; the library is not part of
    the repository.  [Tdb] is what the code calls, [TdbLaws] what it relies on
    (tdb's documented key/value behaviour), [TdbReliable] that a present record
    can be deleted and a record stored, which holds when the file is writable
    and which only the theorems that name it assume.
    Finite maps implement all three, so that every theorem proved against the
    interface has a concrete instance. *)

From S2P Require Import Prelude.

Class Tdb (db : Type) := {
  tdb_fetch : db -> bytes -> option bytes;
  (** [None] is the call's non-zero return. *)
  tdb_store : db -> bytes -> bytes -> option db;
  tdb_delete : db -> bytes -> option db;
  (** The records in the order [tdb_traverse] visits them. *)
  tdb_records : db -> list (bytes * bytes)
}.

Class TdbLaws (db : Type) `{Tdb db} := {
  tdb_fetch_store d k v d' k' : tdb_store d k v = Some d' ->
    tdb_fetch d' k' = if decide (k' = k) then Some v else tdb_fetch d k';
  tdb_fetch_delete d k d' k' : tdb_delete d k = Some d' ->
    tdb_fetch d' k' = if decide (k' = k) then None else tdb_fetch d k';
  tdb_records_fetch d k v : (k, v) ∈ tdb_records d <-> tdb_fetch d k = Some v;
  tdb_records_keys d : NoDup (map fst (tdb_records d))
}.

Class TdbReliable (db : Type) `{Tdb db} := {
  tdb_store_ok d k v : is_Some (tdb_store d k v);
  tdb_delete_ok d k : is_Some (tdb_fetch d k) -> is_Some (tdb_delete d k)
}.

(** ** Finite maps as the store *)

Abbreviation mapdb := (gmap bytes bytes).

#[export] Instance mapdb_tdb : Tdb mapdb := {|
  tdb_fetch d k := d !! k;
  tdb_store d k v := Some (<[k := v]> d);
  tdb_delete d k := match d !! k with Some _ => Some (delete k d) | None => None end;
  tdb_records d := map_to_list d
|}.

#[export] Instance mapdb_laws : TdbLaws mapdb.
Proof.
  split; cbn.
  - intros d k v d' k' [= <-]. rewrite lookup_insert. repeat case_decide; congruence.
  - intros d k d' k'. destruct (d !! k); [|done]. intros [= <-]. rewrite lookup_delete.
    repeat case_decide; congruence.
  - intros d k v. apply elem_of_map_to_list.
  - intros d. apply NoDup_fst_map_to_list.
Qed.

#[export] Instance mapdb_reliable : TdbReliable mapdb.
Proof. split; cbn; [eauto|]. intros d k [v Hv]. rewrite Hv. eauto. Qed.

(** ** Consequences shared by the clients *)

Section laws.
Context `{TdbLaws db}.

Lemma tdb_fetch_stored d k v d' : tdb_store d k v = Some d' -> tdb_fetch d' k = Some v.
Proof. intros E. rewrite (tdb_fetch_store _ _ _ _ k E). by rewrite decide_True. Qed.

Lemma tdb_fetch_store_ne d k v d' k' :
  tdb_store d k v = Some d' -> k' <> k -> tdb_fetch d' k' = tdb_fetch d k'.
Proof. intros E Hne. rewrite (tdb_fetch_store _ _ _ _ k' E). by rewrite decide_False. Qed.

(** Delete the given keys in turn, counting the successes. *)
Fixpoint delete_keys (d : db) (ks : list bytes) : db * Z :=
  match ks with
  | [] => (d, 0)
  | k :: ks =>
    match tdb_delete d k with
    | Some d => let '(d, n) := delete_keys d ks in (d, n + 1)
    | None => delete_keys d ks
    end
  end.

Lemma delete_keys_fetch_out d ks k :
  k ∉ ks -> tdb_fetch (delete_keys d ks).1 k = tdb_fetch d k.
Proof.
  revert d. induction ks as [|k0 ks IH]; intros d Hk; [done|].
  apply not_elem_of_cons in Hk as [Hne Hk]. cbn [delete_keys].
  destruct (tdb_delete d k0) as [d'|] eqn:E; [|by apply IH].
  specialize (IH d' Hk). destruct (delete_keys d' ks). cbn in *. rewrite IH.
  rewrite (tdb_fetch_delete _ _ _ k E). by rewrite decide_False.
Qed.

Lemma delete_keys_spec `{!TdbReliable db} d ks :
  NoDup ks -> Forall (fun k => is_Some (tdb_fetch d k)) ks ->
  (delete_keys d ks).2 = len ks
  /\ forall k, tdb_fetch (delete_keys d ks).1 k = if decide (k ∈ ks) then None else tdb_fetch d k.
Proof.
  revert d. induction ks as [|k0 ks IH]; intros d Hnd Hall.
  { split; [done|]. intros k. rewrite decide_False; [done|apply not_elem_of_nil]. }
  inversion_clear Hnd as [|?? Hk0 Hnd']. rename Hnd' into Hnd. apply Forall_cons_iff in Hall as [Hin0 Hall].
  cbn [delete_keys]. destruct (tdb_delete_ok d k0 Hin0) as [d' E]. rewrite E.
  assert (Hf : forall k, tdb_fetch d' k = if decide (k = k0) then None else tdb_fetch d k)
    by (intros k; apply (tdb_fetch_delete _ _ _ k E)).
  destruct (IH d' Hnd) as [IHn IHf].
  { rewrite Forall_forall in Hall |- *. intros k Hk. rewrite Hf, decide_False; [by apply Hall|]. intros ->. apply Hk0. by apply list_elem_of_In. }
  destruct (delete_keys d' ks) as [d2 n]. cbn [fst snd] in *. split; [rewrite length_cons; lia|].
  intros k. rewrite IHf, Hf. clear -Hk0.
  destruct (decide (k ∈ ks)), (decide (k = k0)), (decide (k ∈ k0 :: ks)) as [|Hn]; try done;
    rewrite ?not_elem_of_cons, ?elem_of_cons in *; naive_solver.
Qed.
End laws.
