(* ===== verification/KeyDb.v ===== *)
(** * keys.tdb: the KeyEntry record and its append-only contract (keydb.h, keydb.cpp)

    [encode_key]/[decode_key] are the struct's memory image, at the offsets the
    header's static_asserts fix; floats are kept as their raw 32 bits.  The store is
    the [Tdb] interface.  The contract at the top of keydb.h -- a short record reads
    zero-extended, a writer keeps the bytes a newer writer appended -- is
    [saved_key_loads] and [save_preserves_tail]. *)

From S2P Require Import Prelude Tdb.

Definition KEYENTRY_MIN_SIZE : Z := 96.
Definition KEYENTRY_SIZE : Z := 456.
Definition KEY_MAGIC : Z := 0x6b73e867a72cdd1f.
Definition KEY_FLAG_ADMIN : Z := Z.shiftl 1 0.
Definition KEY_FLAG_BIDI_SIGN : Z := Z.shiftl 1 1.
Definition KEY_FLAG_TLOG : Z := Z.shiftl 1 2.
Definition KEY_FLAG_BINLOG : Z := Z.shiftl 1 3.
Definition KEY_FLAG_USE_TZ : Z := Z.shiftl 1 4.
Definition KEY_FLAG_VIDEO : Z := Z.shiftl 1 5.
Definition KEY_MAX_VIDEO_PORTS : Z := 5.
Definition KEY_VIDEO_PORTS_INLINE : Z := 3.
Definition VIDEO_SLOT_BITS : Z := 8.
Definition VIDEO_SLOT_SHIFT (slot : Z) : Z := slot * VIDEO_SLOT_BITS.
Definition VIDEO_SLOT_RECORD : Z := Z.shiftl 1 1.
Definition VIDEO_SLOT_SESSION_OK : Z := Z.shiftl 1 3.
Definition VIDEO_SLOT_OPEN_PUB : Z := Z.shiftl 1 4.
Definition VIDEO_OPT_SHIFT : Z := 24.
Definition VIDEO_MAV_GRACE_DEFAULT_S : Z := 60.

(** ** Slot options, split over two words *)

Definition video_slot_opts_split (lo hi slot : Z) : Z :=
  if KEY_MAX_VIDEO_PORTS <=? slot then 0
  else if slot <? KEY_VIDEO_PORTS_INLINE
       then Z.land (Z.shiftr lo (VIDEO_SLOT_SHIFT slot)) 0xFF
       else Z.land (Z.shiftr hi (VIDEO_SLOT_SHIFT (slot - KEY_VIDEO_PORTS_INLINE))) 0xFF.

Definition video_slot_opts_set (word index opts : Z) : Z :=
  let mask := u32 (Z.shiftl 0xFF (VIDEO_SLOT_SHIFT index)) in
  Z.lor (Z.land word (Z.lxor mask 0xFFFFFFFF))
        (u32 (Z.shiftl (Z.land opts 0xFF) (VIDEO_SLOT_SHIFT index))).

Definition video_entry_opts (video_flags : Z) : Z :=
  Z.land (Z.shiftr video_flags VIDEO_OPT_SHIFT) 0xFF.

(** ** The record *)

Record KeyEntry := {
  magic : Z;
  timestamp : Z;
  secret_key : bytes;
  port1 : Z;
  connections : Z;
  count1 : Z;
  count2 : Z;
  name : bytes;
  flags : Z;
  log_retention_days : Z;
  fc_sysid : Z;
  tz_offset_hours : Z;
  video_ports : list Z;
  video_flags : Z;
  video_viewer_key : bytes;
  video_publish_key : bytes;
  video_quota_mb : Z;
  video_mav_grace_s : Z;
  video_rtmp_path : list bytes;
  reserved : list Z;
  video_ports_hi : list Z;
  video_flags_hi : Z;
  video_rtmp_path_hi : list bytes;
  reserved2 : list Z
}.

#[export] Instance eta_KeyEntry : Eta KeyEntry := fun k =>
  Build_KeyEntry (magic k) (timestamp k) (secret_key k) (port1 k) (connections k)
    (count1 k) (count2 k) (name k) (flags k) (log_retention_days k) (fc_sysid k)
    (tz_offset_hours k) (video_ports k) (video_flags k) (video_viewer_key k)
    (video_publish_key k) (video_quota_mb k) (video_mav_grace_s k) (video_rtmp_path k)
    (reserved k) (video_ports_hi k) (video_flags_hi k) (video_rtmp_path_hi k)
    (reserved2 k).

Definition encode_key (k : KeyEntry) : bytes :=
  le_bytes 8 (magic k) ++ le_bytes 8 (timestamp k) ++ secret_key k ++
  int_bytes (port1 k) ++ le_bytes 4 (connections k) ++ le_bytes 4 (count1 k) ++
  le_bytes 4 (count2 k) ++ name k ++ le_bytes 4 (flags k) ++
  le_bytes 4 (log_retention_days k) ++ le_bytes 4 (fc_sysid k) ++
  le_bytes 4 (tz_offset_hours k) ++ le_words (video_ports k) ++
  le_bytes 4 (video_flags k) ++ video_viewer_key k ++ video_publish_key k ++
  le_bytes 4 (video_quota_mb k) ++ le_bytes 4 (video_mav_grace_s k) ++
  concat (video_rtmp_path k) ++ le_words (reserved k) ++
  le_words (video_ports_hi k) ++ le_bytes 4 (video_flags_hi k) ++
  concat (video_rtmp_path_hi k) ++ le_words (reserved2 k).

Definition decode_key (b : bytes) : KeyEntry := {|
  magic := le_val (slice b 0 8);
  timestamp := le_val (slice b 8 8);
  secret_key := slice b 16 32;
  port1 := int_val (slice b 48 4);
  connections := le_val (slice b 52 4);
  count1 := le_val (slice b 56 4);
  count2 := le_val (slice b 60 4);
  name := slice b 64 32;
  flags := le_val (slice b 96 4);
  log_retention_days := le_val (slice b 100 4);
  fc_sysid := le_val (slice b 104 4);
  tz_offset_hours := le_val (slice b 108 4);
  video_ports := words_le 3 (slice b 112 12);
  video_flags := le_val (slice b 124 4);
  video_viewer_key := slice b 128 32;
  video_publish_key := slice b 160 32;
  video_quota_mb := le_val (slice b 192 4);
  video_mav_grace_s := le_val (slice b 196 4);
  video_rtmp_path := chunks 32 3 (slice b 200 96);
  reserved := words_le 12 (slice b 296 48);
  video_ports_hi := words_le 2 (slice b 344 8);
  video_flags_hi := le_val (slice b 352 4);
  video_rtmp_path_hi := chunks 32 2 (slice b 356 64);
  reserved2 := words_le 9 (slice b 420 36)
|}.

(** Every field fits its C type. *)
Record key_wf (k : KeyEntry) : Prop := {
  wf_magic : is_u64 (magic k);
  wf_timestamp : is_u64 (timestamp k);
  wf_port1 : is_i32 (port1 k);
  wf_words : Forall is_u32 [connections k; count1 k; count2 k; flags k;
    log_retention_days k; fc_sysid k; tz_offset_hours k; video_flags k;
    video_quota_mb k; video_mav_grace_s k; video_flags_hi k];
  wf_arrays : Forall is_u32 (video_ports k ++ reserved k ++ video_ports_hi k ++ reserved2 k);
  wf_lens : (len (video_ports k), len (reserved k), len (video_ports_hi k), len (reserved2 k))
            = (3, 12, 2, 9);
  wf_keys : (len (secret_key k), len (name k), len (video_viewer_key k),
             len (video_publish_key k)) = (32, 32, 32, 32);
  wf_paths : (len (video_rtmp_path k), len (video_rtmp_path_hi k)) = (3, 2);
  wf_path_lens : Forall (fun p => length p = 32%nat) (video_rtmp_path k ++ video_rtmp_path_hi k)
}.

(** Unified views over the slots. *)
Definition video_port_of (ke : KeyEntry) (slot : Z) : Z :=
  if slot <? KEY_VIDEO_PORTS_INLINE then nth (Z.to_nat slot) (video_ports ke) 0
  else if slot <? KEY_MAX_VIDEO_PORTS
       then nth (Z.to_nat (slot - KEY_VIDEO_PORTS_INLINE)) (video_ports_hi ke) 0
       else 0.

Definition video_rtmp_path_of (ke : KeyEntry) (slot : Z) : bytes :=
  if slot <? KEY_VIDEO_PORTS_INLINE then nth (Z.to_nat slot) (video_rtmp_path ke) []
  else if slot <? KEY_MAX_VIDEO_PORTS
       then nth (Z.to_nat (slot - KEY_VIDEO_PORTS_INLINE)) (video_rtmp_path_hi ke) []
       else [].

Definition video_slot_opts_of (ke : KeyEntry) (slot : Z) : Z :=
  video_slot_opts_split (video_flags ke) (video_flags_hi ke) slot.

(** ** Opening the store: up to five attempts while it is busy

    [tdb_open i] is the result of the [i]-th call: a handle, or errno. *)

Definition EBUSY : Z := 16.

(** Nanoseconds slept before each attempt. *)
Definition backoffs : list Z :=
  [0; 10 * 1000 * 1000; 50 * 1000 * 1000; 100 * 1000 * 1000; 250 * 1000 * 1000].

Fixpoint db_open_loop {db} (tdb_open : nat -> db + Z) (i : nat) (waits : list Z) : option db :=
  match waits with
  | [] => None
  | _ :: waits =>
    match tdb_open i with
    | inl h => Some h
    | inr errno => if errno =? EBUSY then db_open_loop tdb_open (S i) waits else None
    end
  end.

Definition db_open {db} (tdb_open : nat -> db + Z) : option db :=
  db_open_loop tdb_open 0 backoffs.

Definition db_open_transaction {db} (tdb_open : nat -> db + Z) (tdb_transaction_start : db -> Z)
  : option db :=
  match db_open tdb_open with
  | None => None
  | Some h => if tdb_transaction_start h =? 0 then Some h else None
  end.

(** ** Loading and saving *)

Section keydb.
Context {db : Type} `{Tdb db}.

Definition key_of (port2 : Z) : bytes := int_bytes port2.

(** The bytes copied over the zeroed struct. *)
Definition zero_extend (size : Z) (d : bytes) : bytes :=
  let copy := ztake size d in
  copy ++ replicate (Z.to_nat size - length copy) 0.

(** The returned flag, and [key] after the call. *)
Definition db_load_key (h : db) (port2 : Z) (key : KeyEntry) : bool * KeyEntry :=
  match tdb_fetch h (key_of port2) with
  | None => (false, key)
  | Some d =>
    if len d <? KEYENTRY_MIN_SIZE then (false, key)
    else let key := decode_key (zero_extend KEYENTRY_SIZE d) in
         (magic key =? KEY_MAGIC, key)
  end.

(** The record written: the struct, then what the old record had beyond it. *)
Definition save_image (h : db) (k rec : bytes) : bytes :=
  rec ++ match tdb_fetch h k with
         | Some orig => zdrop (len rec) orig
         | None => []
         end.

Definition db_save_key (h : db) (port2 : Z) (ke : KeyEntry) : option db :=
  tdb_store h (key_of port2) (save_image h (key_of port2) (encode_key ke)).
End keydb.

(** ** The memory image round-trips *)

Lemma length_encode_key k : key_wf k -> length (encode_key k) = 456%nat.
Proof.
  intros [_ _ _ _ _ Hl Hk Hp Hpl]. apply Forall_app in Hpl as [Hp1 Hp2].
  injection Hl as ????. injection Hk as ????. injection Hp as ??.
  unfold encode_key, int_bytes. autorewrite with proxy_len.
  rewrite !(length_concat_const 32) by done. lia.
Qed.

Lemma encode_decode_key b : bytes_ok b -> len b = 456 -> encode_key (decode_key b) = b.
Proof.
  intros Hb Hn. unfold encode_key, decode_key.
  cbn [magic timestamp secret_key port1 connections count1 count2 name flags
    log_retention_days fc_sysid tz_offset_hours video_ports video_flags video_viewer_key
    video_publish_key video_quota_mb video_mav_grace_s video_rtmp_path reserved
    video_ports_hi video_flags_hi video_rtmp_path_hi reserved2].
  slice_join. by apply slice_whole.
Qed.

Lemma decode_encode_key k : key_wf k -> decode_key (encode_key k) = k.
Proof.
  intros [Hm Ht Hp1 Hw Ha Hl Hk Hp Hpl]. apply Forall_app in Hpl as [Hq1 Hq2].
  injection Hl as ????. injection Hk as ????. injection Hp as ??.
  pose proof (length_concat_const 32 _ Hq1) as L1.
  pose proof (length_concat_const 32 _ Hq2) as L2.
  repeat rewrite Forall_app in Ha. destruct Ha as (A1 & A2 & A3 & A4).
  repeat (apply Forall_cons_iff in Hw as [? Hw]). clear Hw.
  destruct k; cbn [magic timestamp secret_key port1 connections count1 count2 name flags
    log_retention_days fc_sysid tz_offset_hours video_ports video_flags video_viewer_key
    video_publish_key video_quota_mb video_mav_grace_s video_rtmp_path reserved
    video_ports_hi video_flags_hi video_rtmp_path_hi reserved2] in *.
  unfold encode_key, decode_key, int_bytes.
  cbn [magic timestamp secret_key port1 connections count1 count2 name flags
    log_retention_days fc_sysid tz_offset_hours video_ports video_flags video_viewer_key
    video_publish_key video_quota_mb video_mav_grace_s video_rtmp_path reserved
    video_ports_hi video_flags_hi video_rtmp_path_hi reserved2].
  f_equal; slice_norm.
  all: first
    [ done
    | by apply le_val_le_bytes_small
    | by apply int_val_int_bytes
    | by apply words_le_le_words_n; [|lia]
    | by apply chunks_concat_n; [|lia] ].
Qed.

(** A key read from bytes has every field in its type's range. *)
Lemma le_val_slice_range b i n :
  bytes_ok b -> 0 <= i -> 0 <= n -> i + n <= len b -> 0 <= le_val (slice b i n) < 256 ^ n.
Proof.
  intros Hb Hi Hn Hl. pose proof (le_val_range (slice b i n) (bytes_ok_slice b i n Hb)) as R.
  rewrite length_slice, Z2Nat.id in R by lia. exact R.
Qed.

Lemma le_val_slice_u32 b i : bytes_ok b -> 0 <= i -> i + 4 <= len b -> is_u32 (le_val (slice b i 4)).
Proof. intros. apply (le_val_slice_range b i 4); lia || done. Qed.

Lemma words_le_u32 k l : bytes_ok l -> length l = (k * 4)%nat -> Forall is_u32 (words_le k l).
Proof.
  revert l. induction k as [|k IH]; intros l Hl Hn; [constructor|]. unfold words_le in *.
  cbn [chunks map]. constructor.
  - pose proof (le_val_range (take 4 l) (bytes_ok_take 4 l Hl)) as R.
    rewrite length_take, Nat.min_l in R by lia. exact R.
  - apply IH; [by apply bytes_ok_drop|]. rewrite length_drop. lia.
Qed.

Lemma is_i32_int_val l : is_i32 (int_val l).
Proof.
  unfold is_i32, int_val, to_signed. pose proof (wrap_range 32 (le_val l) ltac:(lia)).
  case_decide; lia.
Qed.

Lemma chunks_lens w k l : length l = (k * w)%nat -> Forall (fun x => length x = w) (chunks w k l).
Proof.
  revert l. induction k as [|k IH]; intros l Hl; cbn [chunks]; constructor.
  - rewrite length_take. lia.
  - apply IH. rewrite length_drop. lia.
Qed.

Lemma decode_key_wf b : bytes_ok b -> len b = 456 -> key_wf (decode_key b).
Proof.
  intros Hb Hl. split; cbn [magic timestamp secret_key port1 connections count1 count2 name flags
    log_retention_days fc_sysid tz_offset_hours video_ports video_flags video_viewer_key
    video_publish_key video_quota_mb video_mav_grace_s video_rtmp_path reserved
    video_ports_hi video_flags_hi video_rtmp_path_hi reserved2 decode_key].
  - apply (le_val_slice_range b 0 8); lia || done.
  - apply (le_val_slice_range b 8 8); lia || done.
  - apply is_i32_int_val.
  - rewrite !Forall_cons_iff. split_and!; try apply le_val_slice_u32; try done; lia.
  - rewrite !Forall_app. split_and!; (apply words_le_u32; [by apply bytes_ok_slice|]);
      rewrite length_slice by lia; done.
  - unfold words_le. by rewrite !length_map, !length_chunks.
  - by rewrite !length_slice by lia.
  - by rewrite !length_chunks.
  - rewrite Forall_app. split; apply chunks_lens; by rewrite length_slice by lia.
Qed.

(** ** What loading and saving do *)

Lemma zero_extend_long size d : size <= len d -> zero_extend size d = ztake size d.
Proof.
  intros. unfold zero_extend. rewrite length_ztake.
  replace (_ - _)%nat with 0%nat by lia. apply app_nil_r.
Qed.

Lemma length_zero_extend size d : 0 <= size -> len (zero_extend size d) = size.
Proof. intros. unfold zero_extend. solve_len. Qed.

Lemma bytes_ok_zero_extend size d : bytes_ok d -> bytes_ok (zero_extend size d).
Proof.
  intros. unfold zero_extend. apply bytes_ok_app. split; [by apply bytes_ok_take|].
  apply bytes_ok_replicate. unfold is_byte. lia.
Qed.

Section keydb_props.
Context {db : Type} `{TdbLaws db}.

Lemma db_load_fetched h port2 k0 d :
  tdb_fetch h (key_of port2) = Some d ->
  db_load_key h port2 k0 =
    if len d <? KEYENTRY_MIN_SIZE then (false, k0)
    else (magic (decode_key (zero_extend KEYENTRY_SIZE d)) =? KEY_MAGIC,
          decode_key (zero_extend KEYENTRY_SIZE d)).
Proof. intros E. unfold db_load_key. by rewrite E. Qed.

(** C25: Saving a key and loading it back gives the same key, whatever record was there
    before and however long it was; no other port's record changes; and the bytes a newer
    writer had appended after the struct are still there. *)
Theorem saved_key_loads h port2 ke h' k0 :
  key_wf ke -> is_i32 port2 -> db_save_key h port2 ke = Some h' ->
  db_load_key h' port2 k0 = (magic ke =? KEY_MAGIC, ke)
  /\ (forall q, is_i32 q -> q <> port2 -> tdb_fetch h' (key_of q) = tdb_fetch h (key_of q))
  /\ (forall orig, tdb_fetch h (key_of port2) = Some orig ->
        tdb_fetch h' (key_of port2) = Some (encode_key ke ++ zdrop KEYENTRY_SIZE orig)).
Proof.
  intros Hwf Hp E. pose proof (length_encode_key ke Hwf) as Hlen.
  pose proof (tdb_fetch_stored _ _ _ _ E) as Ef. unfold save_image in Ef.
  split; [|split].
  - rewrite (db_load_fetched _ _ _ _ Ef). unfold KEYENTRY_MIN_SIZE, KEYENTRY_SIZE.
    rewrite (proj2 (Z.ltb_ge _ _)) by (rewrite length_app, Hlen; lia).
    rewrite zero_extend_long by (rewrite length_app, Hlen; lia). unfold ztake.
    rewrite take_app_length' by (rewrite Hlen; done). by rewrite decode_encode_key.
  - intros q Hq Hne. apply (tdb_fetch_store_ne _ _ _ _ _ E).
    intros Hk. apply Hne. by apply int_bytes_inj.
  - intros orig Eo. rewrite Ef, Eo, Hlen. done.
Qed.

(** Loading a record of any length and saving what was read never loses a byte of
    it: the stored record afterwards is the original, zero-extended to the struct's size
    if it was written by an older layout; a record shorter than the oldest layout, or with
    the wrong magic, is refused. *)
Theorem load_save_lossless h port2 k0 d :
  tdb_fetch h (key_of port2) = Some d -> bytes_ok d ->
  match db_load_key h port2 k0 with
  | (true, ke) =>
      KEYENTRY_MIN_SIZE <= len d /\ le_val (slice d 0 8) = KEY_MAGIC
      /\ forall h', db_save_key h port2 ke = Some h' ->
           tdb_fetch h' (key_of port2)
           = Some (d ++ replicate (Z.to_nat KEYENTRY_SIZE - length d) 0)
  | (false, _) => len d < KEYENTRY_MIN_SIZE \/ le_val (slice d 0 8) <> KEY_MAGIC
  end.
Proof.
  intros Ed Hd. rewrite (db_load_fetched _ _ _ _ Ed).
  destruct (len d <? KEYENTRY_MIN_SIZE) eqn:Hs; reflect_bools; [by left|].
  assert (Hmag : magic (decode_key (zero_extend KEYENTRY_SIZE d)) = le_val (slice d 0 8)).
  { cbn [magic decode_key]. f_equal. unfold zero_extend, KEYENTRY_SIZE, KEYENTRY_MIN_SIZE in *.
    rewrite slice_app_l by (rewrite ?length_ztake; lia). apply slice_ztake; lia. }
  destruct (_ =? KEY_MAGIC) eqn:Em; reflect_bools; rewrite Hmag in Em; [|by right].
  split; [done|]. split; [done|]. intros h' E.
  rewrite (tdb_fetch_stored _ _ _ _ E). f_equal. unfold save_image. rewrite Ed.
  rewrite encode_decode_key;
    [|by apply bytes_ok_zero_extend|by apply length_zero_extend].
  rewrite length_zero_extend by done. unfold zero_extend, zdrop, ztake, KEYENTRY_SIZE.
  destruct (Z_lt_le_dec (len d) 456).
  - rewrite !take_ge, drop_ge, app_nil_r by lia. done.
  - replace (_ - length (take _ _))%nat with 0%nat by (rewrite length_take; lia).
    replace (_ - length d)%nat with 0%nat by lia. rewrite !app_nil_r. apply take_drop.
Qed.
End keydb_props.

(** ** Slot options *)

Lemma land_ff_bits z n : 0 <= n -> Z.testbit (Z.land z 0xFF) n = (Z.testbit z n && (n <? 8))%bool.
Proof.
  intros. rewrite Z.land_spec. f_equal. change 0xFF with (Z.ones 8).
  destruct (Z.ltb_spec n 8).
  - by rewrite Z.ones_spec_low by lia.
  - by rewrite Z.ones_spec_high by lia.
Qed.

Lemma u32_bits z n : 0 <= n -> Z.testbit (u32 z) n = (Z.testbit z n && (n <? 32))%bool.
Proof.
  intros. unfold wrap. destruct (Z.ltb_spec n 32).
  - rewrite Z.mod_pow2_bits_low by lia. by rewrite andb_true_r.
  - rewrite Z.mod_pow2_bits_high by lia. by rewrite andb_false_r.
Qed.

Lemma is_u32_bits z n : is_u32 z -> 32 <= n -> Z.testbit z n = false.
Proof. intros Hz Hn. rewrite <-(Z.mod_small z (2 ^ 32)) by exact Hz. apply Z.mod_pow2_bits_high. lia. Qed.

Lemma lor_is_u32 x y : is_u32 x -> is_u32 y -> is_u32 (Z.lor x y).
Proof.
  intros Hx Hy. replace (Z.lor x y) with (u32 (Z.lor x y)); [apply wrap_range; lia|].
  apply Z.bits_inj'. intros n Hn. rewrite u32_bits, Z.lor_spec by done.
  destruct (Z.ltb_spec n 32); [by rewrite andb_true_r|].
  by rewrite !is_u32_bits by done.
Qed.

Lemma slot_set_bits word i opts n :
  is_u32 word -> 0 <= i < 4 -> 0 <= n ->
  Z.testbit (video_slot_opts_set word i opts) n =
    if decide (8 * i <= n < 8 * i + 8) then Z.testbit opts (n - 8 * i) else Z.testbit word n.
Proof.
  intros Hw Hi Hn. unfold video_slot_opts_set, VIDEO_SLOT_SHIFT, VIDEO_SLOT_BITS.
  rewrite Z.lor_spec, Z.land_spec, Z.lxor_spec, !u32_bits, !Z.shiftl_spec by lia.
  change 0xFFFFFFFF with (Z.ones 32). replace (i * 8) with (8 * i) by lia.
  destruct (Z_lt_le_dec n 32) as [H32|H32].
  2: { rewrite (is_u32_bits word) by done. rewrite decide_False by lia.
       rewrite (proj2 (Z.ltb_ge n 32)) by lia. rewrite !andb_false_r. done. }
  rewrite (proj2 (Z.ltb_lt n 32)), !andb_true_r, (Z.ones_spec_low 32) by lia.
  destruct (Z_lt_le_dec n (8 * i)) as [Hlo|Hlo].
  { rewrite !(Z.testbit_neg_r _ (n - 8 * i)) by lia. rewrite decide_False by lia. by destruct (Z.testbit word n). }
  rewrite land_ff_bits by lia. change 0xFF with (Z.ones 8).
  destruct (Z_lt_le_dec (n - 8 * i) 8).
  - rewrite Z.ones_spec_low, decide_True, (proj2 (Z.ltb_lt (n - 8 * i) 8)) by lia.
    by destruct (Z.testbit word n), (Z.testbit opts (n - 8 * i)).
  - rewrite Z.ones_spec_high, decide_False, (proj2 (Z.ltb_ge (n - 8 * i) 8)) by lia.
    by destruct (Z.testbit word n), (Z.testbit opts (n - 8 * i)).
Qed.

Lemma slot_set_get word i j opts :
  is_u32 word -> 0 <= i < 4 -> 0 <= j < 4 ->
  Z.land (Z.shiftr (video_slot_opts_set word i opts) (8 * j)) 0xFF =
    if decide (i = j) then Z.land opts 0xFF else Z.land (Z.shiftr word (8 * j)) 0xFF.
Proof.
  intros Hw Hi Hj. apply Z.bits_inj'. intros n Hn.
  rewrite land_ff_bits, Z.shiftr_spec, slot_set_bits by (done || lia).
  destruct (Z.ltb_spec n 8).
  - destruct (decide (i = j)) as [->|Hne].
    + rewrite decide_True, land_ff_bits by lia. rewrite (proj2 (Z.ltb_lt n 8)) by lia.
      do 2 f_equal. lia.
    + rewrite decide_False, land_ff_bits, Z.shiftr_spec by lia.
      by rewrite (proj2 (Z.ltb_lt n 8)) by lia.
  - rewrite andb_false_r. case_decide; rewrite land_ff_bits by lia;
      by rewrite (proj2 (Z.ltb_ge n 8)), andb_false_r by lia.
Qed.

(** The two option words after one slot's options are written. *)
Definition slot_opts_store (lo hi slot opts : Z) : Z * Z :=
  if slot <? KEY_VIDEO_PORTS_INLINE then (video_slot_opts_set lo slot opts, hi)
  else (lo, video_slot_opts_set hi (slot - KEY_VIDEO_PORTS_INLINE) opts).

(** Writing one slot's options is read back by that slot, and by no other slot and
    not by the entry-wide options in the top byte, across the seam between the two words. *)
Theorem slot_opts_independent lo hi slot opts j :
  is_u32 lo -> is_u32 hi -> 0 <= slot < KEY_MAX_VIDEO_PORTS -> 0 <= j < KEY_MAX_VIDEO_PORTS ->
  let '(lo', hi') := slot_opts_store lo hi slot opts in
  video_slot_opts_split lo' hi' j =
    (if decide (j = slot) then Z.land opts 0xFF else video_slot_opts_split lo hi j)
  /\ video_entry_opts lo' = video_entry_opts lo.
Proof.
  intros Hlo Hhi Hs Hj. unfold slot_opts_store, video_slot_opts_split, video_entry_opts,
    VIDEO_SLOT_SHIFT, VIDEO_SLOT_BITS, VIDEO_OPT_SHIFT, KEY_VIDEO_PORTS_INLINE,
    KEY_MAX_VIDEO_PORTS in *.
  rewrite (proj2 (Z.leb_gt 5 j)), !(Z.mul_comm _ 8) by lia.
  change 24 with (8 * 3).
  destruct (Z.ltb_spec slot 3), (Z.ltb_spec j 3); split; rewrite ?slot_set_get by (done || lia);
    repeat case_decide; try done; lia.
Qed.

Lemma slot_opts_independent_witness :
  (0 <= 3 < KEY_MAX_VIDEO_PORTS)
  /\ let '(lo', hi') := slot_opts_store 0x01020304 0 3 0x110 in
     video_slot_opts_split lo' hi' 3 = 0x10 /\ video_entry_opts lo' = 1.
Proof.
  split; [done|].
  refine (slot_opts_independent 0x01020304 0 3 0x110 3 _ _ _ _); unfold is_u32; done.
Defined.

(** ** Witnesses *)

Definition sample_key : KeyEntry :=
  decode_key (le_bytes 8 KEY_MAGIC ++ replicate 448 7).

Definition sample_db : mapdb :=
  {[ key_of 14550 := le_bytes 8 KEY_MAGIC ++ replicate 452 9; key_of 14551 := replicate 96 1 ]}.

Lemma sample_key_wf : key_wf sample_key.
Proof. split; decide_vm. Qed.

Lemma saved_key_loads_witness :
  exists h', db_save_key sample_db 14550 sample_key = Some h'
    /\ db_load_key h' 14550 sample_key = (true, sample_key)
    /\ tdb_fetch h' (key_of 14550) = Some (encode_key sample_key ++ replicate 4 9).
Proof.
  eexists. split; [reflexivity|].
  pose proof (saved_key_loads sample_db 14550 sample_key _ sample_key sample_key_wf
    ltac:(done) eq_refl) as (H1 & _ & H3). split; [exact H1|].
  rewrite (H3 (le_bytes 8 KEY_MAGIC ++ replicate 452 9) eq_refl). by vm_compute.
Defined.

Lemma load_save_lossless_witness :
  exists h', db_save_key sample_db 14550 (db_load_key sample_db 14550 sample_key).2 = Some h'
    /\ tdb_fetch h' (key_of 14550) = Some (le_bytes 8 KEY_MAGIC ++ replicate 452 9).
Proof.
  assert (bytes_ok (le_bytes 8 KEY_MAGIC ++ replicate 452 9)) as Hb by decide_vm.
  pose proof (load_save_lossless sample_db 14550 sample_key _ eq_refl Hb) as W.
  assert (E1 : (db_load_key sample_db 14550 sample_key).1 = true) by (vm_compute; done).
  destruct (db_load_key sample_db 14550 sample_key) as [b ke]. cbn [fst snd] in *. subst b.
  destruct W as (_ & _ & W). eexists. split; [reflexivity|].
  rewrite (W _ eq_refl). by vm_compute.
Defined.

(** A key read from a store of bytes is well formed, and a save of a well-formed key of the
    same kind is read back. *)
Section keydb_reload.
Context {db : Type} `{TdbLaws db}.

(** Every record of the store is a byte string. *)
Definition values_ok (h : db) : Prop := forall k v, tdb_fetch h k = Some v -> bytes_ok v.

Lemma db_load_key_wf h port2 k0 k :
  values_ok h -> db_load_key h port2 k0 = (true, k) -> key_wf k /\ magic k = KEY_MAGIC.
Proof.
  intros Hv. unfold db_load_key. destruct (tdb_fetch h (key_of port2)) as [d|] eqn:E; [|done].
  destruct (len d <? KEYENTRY_MIN_SIZE); [done|]. intros [= Hm <-]. apply Z.eqb_eq in Hm.
  split; [|done]. apply decode_key_wf; [apply bytes_ok_zero_extend, (Hv _ _ E)|].
  by apply length_zero_extend.
Qed.

Lemma db_load_key_any h port2 k0 k1 k :
  db_load_key h port2 k0 = (true, k) -> db_load_key h port2 k1 = (true, k).
Proof.
  unfold db_load_key. destruct (tdb_fetch h (key_of port2)); [|done].
  by destruct (len _ <? KEYENTRY_MIN_SIZE).
Qed.

(** A save that succeeds is read back, and changes no other record. *)
Lemma db_saved_load h port2 k k0 h' :
  key_wf k -> magic k = KEY_MAGIC -> db_save_key h port2 k = Some h' ->
  db_load_key h' port2 k0 = (true, k) /\ forall q, q <> key_of port2 -> tdb_fetch h' q = tdb_fetch h q.
Proof.
  intros Hwf Hm E. unfold db_save_key in E. pose proof (length_encode_key k Hwf) as Hlen.
  pose proof (tdb_fetch_stored _ _ _ _ E) as Ef. unfold save_image in Ef. split.
  - rewrite (db_load_fetched _ _ _ _ Ef). unfold KEYENTRY_MIN_SIZE, KEYENTRY_SIZE.
    rewrite (proj2 (Z.ltb_ge _ _)) by (rewrite length_app, Hlen; lia).
    rewrite zero_extend_long by (rewrite length_app, Hlen; lia). unfold ztake.
    rewrite take_app_length' by (rewrite Hlen; done). rewrite decode_encode_key, Hm by done.
    by rewrite Z.eqb_refl.
  - intros q Hq. by apply (tdb_fetch_store_ne _ _ _ _ _ E).
Qed.

Lemma db_save_load `{!TdbReliable db} h port2 k k0 :
  key_wf k -> magic k = KEY_MAGIC ->
  exists h', db_save_key h port2 k = Some h' /\ db_load_key h' port2 k0 = (true, k)
    /\ forall q, q <> key_of port2 -> tdb_fetch h' q = tdb_fetch h q.
Proof.
  intros Hwf Hm. unfold db_save_key.
  destruct (tdb_store_ok h (key_of port2) (save_image h (key_of port2) (encode_key k))) as [h' E].
  exists h'. split; [done|]. by apply db_saved_load.
Qed.

(** The byte arrays of a key are bytes, so a store of bytes stays one when it is saved. *)
Definition key_bytes (k : KeyEntry) : Prop :=
  bytes_ok (secret_key k ++ name k ++ video_viewer_key k ++ video_publish_key k
            ++ concat (video_rtmp_path k) ++ concat (video_rtmp_path_hi k)).

Lemma le_words_ok ws : bytes_ok (le_words ws).
Proof.
  unfold le_words. induction ws as [|w ws IH]; [constructor|]. cbn [map concat]. apply bytes_ok_app.
  split; [apply le_bytes_ok|done].
Qed.

Lemma encode_key_ok k : key_bytes k -> bytes_ok (encode_key k).
Proof.
  unfold key_bytes, encode_key, int_bytes. rewrite !bytes_ok_app.
  intros (? & ? & ? & ? & ? & ?). repeat split; try done; try apply le_bytes_ok; apply le_words_ok.
Qed.

Lemma db_load_key_bytes h port2 k0 k :
  values_ok h -> db_load_key h port2 k0 = (true, k) -> key_bytes k.
Proof.
  intros Hv. unfold db_load_key. destruct (tdb_fetch h (key_of port2)) as [d|] eqn:E; [|done].
  destruct (len d <? KEYENTRY_MIN_SIZE); [done|]. intros [= _ <-].
  assert (Hb : bytes_ok (zero_extend KEYENTRY_SIZE d)) by (apply bytes_ok_zero_extend, (Hv _ _ E)).
  assert (Hl : len (zero_extend KEYENTRY_SIZE d) = 456) by (by apply length_zero_extend).
  unfold key_bytes. cbn [secret_key name video_viewer_key video_publish_key video_rtmp_path
    video_rtmp_path_hi decode_key].
  rewrite !concat_chunks_slice by lia. rewrite !bytes_ok_app.
  repeat split; by apply bytes_ok_slice.
Qed.

Lemma values_ok_save h port2 k h' :
  values_ok h -> key_bytes k -> db_save_key h port2 k = Some h' -> values_ok h'.
Proof.
  intros Hv Hk E q v Hq. unfold db_save_key in E. rewrite (tdb_fetch_store _ _ _ _ q E) in Hq.
  case_decide; [|by eapply Hv]. injection Hq as <-. unfold save_image. apply bytes_ok_app.
  split; [by apply encode_key_ok|].
  destruct (tdb_fetch h (key_of port2)) eqn:Eo; [|constructor]. apply bytes_ok_drop. by eapply Hv.
Qed.
End keydb_reload.
