(* ===== verification/ConnDb.v ===== *)
(** * connections.tdb: live connection rows (conntdb.h, conntdb.cpp) and their writers

    Rows are keyed by (port2, conn_index).  Two processes write one entry's rows: the
    session child (index 0 for the user, 1.. for the engineers; supportproxy.cpp's
    heartbeat snapshot) and the video child (index >= 1000; video.cpp's
    write_conn_rows).  [mav_snapshot] and [video_snapshot] are those writers' database
    transactions, [reap_session] and [conn_remove_video] the parent's clean-up. *)

From S2P Require Import Prelude Tdb KeyDb.

Definition CONN_MAGIC : Z := 0x436f6e6e45424553.
Definition CONNENTRY_MIN_SIZE : Z := 64.
Definition CONNENTRY_SIZE : Z := 72.
Definition CONN_FLAG_DROP_REQUESTED : Z := Z.shiftl 1 0.
Definition CONN_TRANSPORT_UDP : Z := 0.
Definition CONN_TRANSPORT_TCP : Z := 1.
Definition CONN_TRANSPORT_WS : Z := 2.
Definition CONN_TRANSPORT_WSS : Z := 3.
Definition CONN_ROLE_VIDEO_PUB : Z := 1.
Definition VIDEO_CONN_INDEX_BASE : Z := 1000.
Definition VIDEO_CONN_STRIDE : Z := 256.
Definition VIDEO_PUB_INDEX (slot : Z) : Z := VIDEO_CONN_INDEX_BASE + slot * VIDEO_CONN_STRIDE.
Definition VIDEO_SUB_INDEX (slot i : Z) : Z := VIDEO_PUB_INDEX slot + 1 + i.
Definition INT32_MAX : Z := 2 ^ 31 - 1.

(** ** The row *)

Record ConnEntry := {
  ce_magic : Z;
  connected_at : Z;
  last_update : Z;
  port2 : Z;
  conn_index : Z;
  pid : Z;
  rx_msgs : Z;
  tx_msgs : Z;
  peer_ip_be : Z;
  peer_port_be : Z;
  transport : Z;
  is_user : Z;
  ce_flags : Z;
  pad1 : Z;
  pad2 : Z;
  role : Z;
  stream_idx : Z;
  app_proto : Z;
  authenticated : Z;
  pad3 : Z
}.

#[export] Instance eta_ConnEntry : Eta ConnEntry := fun e =>
  Build_ConnEntry (ce_magic e) (connected_at e) (last_update e) (port2 e) (conn_index e)
    (pid e) (rx_msgs e) (tx_msgs e) (peer_ip_be e) (peer_port_be e) (transport e)
    (is_user e) (ce_flags e) (pad1 e) (pad2 e) (role e) (stream_idx e) (app_proto e)
    (authenticated e) (pad3 e).

Definition encode_conn (e : ConnEntry) : bytes :=
  le_bytes 8 (ce_magic e) ++ le_bytes 8 (connected_at e) ++ le_bytes 8 (last_update e) ++
  int_bytes (port2 e) ++ int_bytes (conn_index e) ++ le_bytes 4 (pid e) ++
  le_bytes 4 (rx_msgs e) ++ le_bytes 4 (tx_msgs e) ++ le_bytes 4 (peer_ip_be e) ++
  le_bytes 2 (peer_port_be e) ++ le_bytes 1 (transport e) ++ le_bytes 1 (is_user e) ++
  le_bytes 4 (ce_flags e) ++ le_bytes 4 (pad1 e) ++ le_bytes 4 (pad2 e) ++
  le_bytes 1 (role e) ++ le_bytes 1 (stream_idx e) ++ le_bytes 1 (app_proto e) ++
  le_bytes 1 (authenticated e) ++ le_bytes 4 (pad3 e).

Definition decode_conn (b : bytes) : ConnEntry := {|
  ce_magic := le_val (slice b 0 8);
  connected_at := le_val (slice b 8 8);
  last_update := le_val (slice b 16 8);
  port2 := int_val (slice b 24 4);
  conn_index := int_val (slice b 28 4);
  pid := le_val (slice b 32 4);
  rx_msgs := le_val (slice b 36 4);
  tx_msgs := le_val (slice b 40 4);
  peer_ip_be := le_val (slice b 44 4);
  peer_port_be := le_val (slice b 48 2);
  transport := le_val (slice b 50 1);
  is_user := le_val (slice b 51 1);
  ce_flags := le_val (slice b 52 4);
  pad1 := le_val (slice b 56 4);
  pad2 := le_val (slice b 60 4);
  role := le_val (slice b 64 1);
  stream_idx := le_val (slice b 65 1);
  app_proto := le_val (slice b 66 1);
  authenticated := le_val (slice b 67 1);
  pad3 := le_val (slice b 68 4)
|}.

(** [ConnEntry e {}]. *)
Definition conn_zero : ConnEntry := decode_conn (replicate 72 0).

Record conn_wf (e : ConnEntry) : Prop := {
  cwf_64 : Forall is_u64 [ce_magic e; connected_at e; last_update e];
  cwf_int : is_i32 (port2 e) /\ is_i32 (conn_index e);
  cwf_32 : Forall is_u32 [pid e; rx_msgs e; tx_msgs e; peer_ip_be e; ce_flags e;
                          pad1 e; pad2 e; pad3 e];
  cwf_16 : 0 <= peer_port_be e < 2 ^ 16;
  cwf_8 : Forall is_byte [transport e; is_user e; role e; stream_idx e; app_proto e;
                          authenticated e]
}.

(** ** Keys *)

Definition conn_key (port2 conn_index : Z) : bytes := int_bytes port2 ++ int_bytes conn_index.

(** A traversal's [ConnKey], when the key has its size. *)
Definition parse_key (k : bytes) : option (Z * Z) :=
  if len k =? 8 then Some (int_val (slice k 0 4), int_val (slice k 4 4)) else None.

(** Opening retries like keys.tdb. *)
Definition conn_db_open {db} (tdb_open : nat -> db + Z) : option db :=
  db_open_loop tdb_open 0 backoffs.

Section conndb.
Context {db : Type} `{Tdb db}.
Implicit Types h : db.

(** ** Row operations *)

Definition conn_write h (ce : ConnEntry) : option db :=
  let k := conn_key (port2 ce) (conn_index ce) in
  tdb_store h k (save_image h k (encode_conn ce)).

(** A write whose result the caller ignores. *)
Definition conn_write_ignore h ce : db := default h (conn_write h ce).

Definition conn_delete h (port2 conn_index : Z) : option db :=
  tdb_delete h (conn_key port2 conn_index).

Definition collect_port2 h (port2 : Z) : list (Z * Z) :=
  omap (fun r => match parse_key r.1 with
                 | Some k => if k.1 =? port2 then Some k else None
                 | None => None
                 end) (tdb_records h).

(** What a row's bytes say, when it is long enough to be one. *)
Definition row_of (d : bytes) : option ConnEntry :=
  if len d <? CONNENTRY_MIN_SIZE then None
  else Some (decode_conn (zero_extend CONNENTRY_SIZE d)).

Definition drop_requested (d : bytes) : bool :=
  match row_of d with
  | Some e => (ce_magic e =? CONN_MAGIC)
              && negb (Z.land (ce_flags e) CONN_FLAG_DROP_REQUESTED =? 0)
  | None => false
  end.

Definition collect_drop_mask (p : Z) (mask : Z) (r : bytes * bytes) : Z :=
  match parse_key r.1 with
  | None => mask
  | Some (kp, ki) =>
    if (negb (kp =? p) || (ki <? 0) || (32 <=? ki))%bool then mask
    else if drop_requested r.2 then Z.lor mask (u32 (Z.shiftl 1 ki)) else mask
  end.

Definition conn_drop_mask h (p : Z) : Z := fold_left (collect_drop_mask p) (tdb_records h) 0.

Definition conn_delete_for_port2 h (p : Z) : db * Z :=
  delete_keys h (map (fun k => conn_key k.1 k.2) (collect_port2 h p)).

Definition conn_delete_index_range h (p lo hi : Z) : db * Z :=
  delete_keys h (map (fun k => conn_key k.1 k.2)
    (base.filter (fun k => ~ (k.2 < lo \/ k.2 > hi)) (collect_port2 h p))).

(** The returned flag and [out] after the call. *)
Definition conn_get_user h (p : Z) (out : ConnEntry) : bool * ConnEntry :=
  match tdb_fetch h (conn_key p 0) with
  | None => (false, out)
  | Some d =>
    match row_of d with
    | None => (false, out)
    | Some e => ((ce_magic e =? CONN_MAGIC) && negb (is_user e =? 0), e)
    end
  end.

Definition conn_remove_port2 h (p : Z) : db := (conn_delete_for_port2 h p).1.

Definition conn_remove_video h (p : Z) : db :=
  (conn_delete_index_range h p VIDEO_CONN_INDEX_BASE INT32_MAX).1.

(** The parent, when a session child exits (supportproxy.cpp). *)
Definition reap_session h (p : Z) : db :=
  (conn_delete_index_range h p 0 (VIDEO_CONN_INDEX_BASE - 1)).1.

(** ** The writers' transactions *)

(** [1u << i].  C leaves a shift count of 32 or more undefined; the x86 instruction
    takes it modulo 32. *)
Definition bit32 (i : Z) : Z := u32 (Z.shiftl 1 (Z.land i 31)).

(** The flag carried over from a drop request that landed before the rewrite. *)
Definition carry_drop (mask : Z) (e : ConnEntry) : ConnEntry :=
  if negb (Z.land mask (bit32 (conn_index e)) =? 0)
  then e <| ce_flags := Z.lor (ce_flags e) CONN_FLAG_DROP_REQUESTED |> else e.

(** The session child's heartbeat: collect the pending drops, clear the entry's rows,
    write the current ones ([rows]: the user's, then the used engineer slots'). *)
Definition mav_snapshot h (p : Z) (rows : list ConnEntry) : db :=
  let drop_mask := conn_drop_mask h p in
  let h := (conn_delete_for_port2 h p).1 in
  fold_left (fun h e => conn_write_ignore h (carry_drop drop_mask e)) rows h.

(** The video child's: clear its own range, write its publishers' rows. *)
Definition video_snapshot h (p : Z) (rows : list ConnEntry) : db :=
  let h := (conn_delete_index_range h p VIDEO_CONN_INDEX_BASE INT32_MAX).1 in
  fold_left conn_write_ignore rows h.

(** The session child's scan for drop requests: the flagged indices, and the store with
    their rows deleted. *)
Definition collect_drops h (p : Z) : list Z :=
  omap (fun r => match parse_key r.1 with
                 | Some k => if (k.1 =? p) && drop_requested r.2 then Some k.2 else None
                 | None => None
                 end) (tdb_records h).

Definition process_drops_db h (p : Z) : db * list Z :=
  let indices := collect_drops h p in
  (fold_left (fun h i => default h (conn_delete h p i)) indices h, indices).
End conndb.

(** ** The memory image round-trips *)

Lemma length_encode_conn e : length (encode_conn e) = 72%nat.
Proof. unfold encode_conn, int_bytes. autorewrite with proxy_len. lia. Qed.

Lemma decode_encode_conn e : conn_wf e -> decode_conn (encode_conn e) = e.
Proof.
  intros [H64 [Hp Hi] H32 H16 H8].
  repeat (apply Forall_cons_iff in H64 as [? H64]).
  repeat (apply Forall_cons_iff in H32 as [? H32]).
  repeat (apply Forall_cons_iff in H8 as [? H8]). clear H64 H32 H8.
  destruct e; cbn [ce_magic connected_at last_update port2 conn_index pid rx_msgs tx_msgs
    peer_ip_be peer_port_be transport is_user ce_flags pad1 pad2 role stream_idx app_proto
    authenticated pad3] in *.
  unfold encode_conn, decode_conn, int_bytes.
  cbn [ce_magic connected_at last_update port2 conn_index pid rx_msgs tx_msgs
    peer_ip_be peer_port_be transport is_user ce_flags pad1 pad2 role stream_idx app_proto
    authenticated pad3].
  f_equal; slice_norm; first [ by apply int_val_int_bytes | by apply le_val_le_bytes_small ].
Qed.

(** ** Keys *)

Lemma length_conn_key p i : length (conn_key p i) = 8%nat.
Proof. unfold conn_key, int_bytes. by solve_len. Qed.

Lemma parse_conn_key p i : is_i32 p -> is_i32 i -> parse_key (conn_key p i) = Some (p, i).
Proof.
  intros. unfold parse_key. rewrite length_conn_key. cbn [Z.of_nat Z.eqb]. unfold conn_key.
  change (8 =? 8) with true. cbv iota.
  rewrite slice_here by (unfold int_bytes; solve_len).
  rewrite slice_skip, slice_whole by (unfold int_bytes; solve_len).
  by rewrite !int_val_int_bytes by done.
Qed.

Lemma conn_key_parse k p i : bytes_ok k -> parse_key k = Some (p, i) -> k = conn_key p i.
Proof.
  unfold parse_key. intros Hk. destruct (len k =? 8) eqn:E; [|done]. reflect_bools.
  intros [= <- <-]. unfold conn_key. rewrite !int_bytes_slice by (done || lia).
  rewrite slice_slice_app, slice_whole by lia. done.
Qed.

Lemma conn_key_inj p i q j :
  is_i32 p -> is_i32 i -> is_i32 q -> is_i32 j -> conn_key p i = conn_key q j -> p = q /\ i = j.
Proof.
  intros Hp Hi Hq Hj E. pose proof (parse_conn_key p i Hp Hi) as P.
  rewrite E, parse_conn_key in P by done. by injection P as -> ->.
Qed.

(** Does a stored key name a row of [p] with its index in [[lo, hi]]? *)
Definition row_in (p lo hi : Z) (k : bytes) : bool :=
  match parse_key k with
  | Some (kp, ki) => (kp =? p) && (lo <=? ki) && (ki <=? hi)
  | None => false
  end.

Lemma row_in_key p lo hi q i :
  is_i32 q -> is_i32 i -> row_in p lo hi (conn_key q i) = ((q =? p) && (lo <=? i) && (i <=? hi))%bool.
Proof. intros. unfold row_in. by rewrite parse_conn_key. Qed.

(** ** Clearing rows *)

Section conndb_props.
Context {db : Type} `{TdbLaws db} `{!TdbReliable db}.
Implicit Types h : db.

(** Every key of the store is a byte string. *)
Definition keys_ok h : Prop := Forall bytes_ok (map fst (tdb_records h)).

Lemma keys_ok_fetch h k v : keys_ok h -> tdb_fetch h k = Some v -> bytes_ok k.
Proof.
  unfold keys_ok. rewrite list.Forall_forall. intros Hk E. apply Hk.
  apply tdb_records_fetch in E. apply (list_elem_of_fmap_2 fst) in E. exact E.
Qed.

Lemma collect_keys h p lo hi :
  keys_ok h ->
  map (fun k => conn_key k.1 k.2)
    (base.filter (fun k => ~ (k.2 < lo \/ k.2 > hi)) (collect_port2 h p))
  = base.filter (fun k => row_in p lo hi k = true) (map fst (tdb_records h)).
Proof.
  unfold keys_ok, collect_port2. induction (tdb_records h) as [|[k v] rs IH]; [done|].
  cbn [map omap list_omap fst]. intros [Hk Hrs]%Forall_cons_iff. specialize (IH Hrs).
  rewrite filter_cons.
  destruct (decide (row_in p lo hi k = true)) as [Hr|Hr]; unfold row_in in Hr;
    destruct (parse_key k) as [[kp ki]|] eqn:Ek; try done; cbn [fst snd];
    destruct (kp =? p) eqn:Ep; try done; reflect_bools; subst.
  - rewrite filter_cons_True by (cbn [snd]; lia). cbn [map fst snd]. rewrite IH. f_equal.
    symmetry. by apply conn_key_parse.
  - rewrite filter_cons_False; [done|]. cbn [snd andb] in *.
    rewrite andb_true_iff, !Z.leb_le in Hr. lia.
Qed.

Lemma range_keys_present h p lo hi :
  let ks := base.filter (fun k => row_in p lo hi k = true) (map fst (tdb_records h)) in
  NoDup ks /\ Forall (fun k => is_Some (tdb_fetch h k)) ks
  /\ forall k, k ∈ ks <-> row_in p lo hi k = true /\ is_Some (tdb_fetch h k).
Proof.
  cbn zeta. split; [apply list.NoDup_filter, tdb_records_keys|].
  assert (Hp : forall k, k ∈ map fst (tdb_records h) <-> is_Some (tdb_fetch h k)).
  { intros k. split.
    - intros ([k' v] & -> & Hr)%list_elem_of_fmap. exists v. by apply tdb_records_fetch.
    - intros [v E]. apply tdb_records_fetch in E. by apply (list_elem_of_fmap_2 fst) in E. }
  split.
  - apply list.Forall_forall. intros k [_ Hk]%list_elem_of_filter. by apply Hp.
  - intros k. rewrite list_elem_of_filter, Hp. done.
Qed.

Lemma delete_range_spec h p lo hi :
  keys_ok h ->
  (forall k, tdb_fetch (conn_delete_index_range h p lo hi).1 k
             = if row_in p lo hi k then None else tdb_fetch h k)
  /\ (conn_delete_index_range h p lo hi).2
     = len (base.filter (fun k => row_in p lo hi k = true) (map fst (tdb_records h))).
Proof.
  intros Hk. unfold conn_delete_index_range. rewrite collect_keys by done.
  destruct (range_keys_present h p lo hi) as (Hnd & Hpr & Hin).
  destruct (delete_keys_spec h _ Hnd Hpr) as [Hn Hf]. split; [|exact Hn].
  intros k. rewrite Hf. destruct (row_in p lo hi k) eqn:E.
  - case_decide as Hd; [done|]. rewrite Hin in Hd. destruct (tdb_fetch h k) eqn:Ek; [|done].
    exfalso. apply Hd. eauto.
  - rewrite decide_False; [done|]. rewrite Hin. intros [? _]; congruence.
Qed.

Lemma delete_for_port2_range h p :
  conn_delete_for_port2 h p = conn_delete_index_range h p (- 2 ^ 31) INT32_MAX.
Proof.
  unfold conn_delete_for_port2, conn_delete_index_range. do 2 f_equal.
  assert (Hi : Forall (fun k => is_i32 k.2) (collect_port2 h p)).
  { unfold collect_port2. apply list.Forall_forall.
    intros k ([k' v] & _ & E)%list_elem_of_omap. cbn [fst] in E.
    unfold parse_key in E. destruct (len k' =? 8); [|done].
    case_tests_in E; simplify_eq. apply is_i32_int_val. }
  induction Hi as [|k l Hi _ IH]; [done|]. unfold is_i32, INT32_MAX in *.
  rewrite filter_cons_True by lia. by f_equal.
Qed.

Lemma keys_ok_intro h : (forall k, is_Some (tdb_fetch h k) -> bytes_ok k) -> keys_ok h.
Proof.
  intros Hk. apply list.Forall_forall. intros k ([k' v] & -> & Hr)%list_elem_of_fmap.
  apply Hk. exists v. by apply tdb_records_fetch.
Qed.

Lemma keys_ok_range h p lo hi : keys_ok h -> keys_ok (conn_delete_index_range h p lo hi).1.
Proof.
  intros Hk. apply keys_ok_intro. intros k. rewrite (proj1 (delete_range_spec h p lo hi Hk)).
  destruct (row_in p lo hi k); [by intros []|]. intros [v E]. by eapply keys_ok_fetch.
Qed.

(** ** Writing rows *)

Lemma conn_write_ignore_fetch h e k :
  tdb_fetch (conn_write_ignore h e) k =
    if decide (k = conn_key (port2 e) (conn_index e))
    then Some (save_image h k (encode_conn e)) else tdb_fetch h k.
Proof.
  unfold conn_write_ignore, conn_write.
  destruct (tdb_store_ok h (conn_key (port2 e) (conn_index e))
    (save_image h (conn_key (port2 e) (conn_index e)) (encode_conn e))) as [h' E].
  rewrite E. change (default h (Some h')) with h'. rewrite (tdb_fetch_store _ _ _ _ k E).
  case_decide; by subst.
Qed.

Lemma write_rows_out rows h k :
  Forall (fun e => conn_key (port2 e) (conn_index e) <> k) rows ->
  tdb_fetch (fold_left conn_write_ignore rows h) k = tdb_fetch h k.
Proof.
  revert h. induction rows as [|e rows IH]; intros h Hr; [done|].
  apply Forall_cons_iff in Hr as [He Hr]. cbn [fold_left]. rewrite IH by done.
  rewrite conn_write_ignore_fetch, decide_False; [done|]. congruence.
Qed.

Lemma row_of_write h k e :
  conn_wf e -> row_of (save_image h k (encode_conn e)) = Some e.
Proof.
  intros Hwf. unfold row_of, save_image. pose proof (length_encode_conn e).
  rewrite (proj2 (Z.ltb_ge _ _)) by (unfold CONNENTRY_MIN_SIZE; rewrite length_app; lia).
  unfold CONNENTRY_SIZE. rewrite zero_extend_long by (rewrite length_app; lia).
  unfold ztake. rewrite take_app_length' by (rewrite length_encode_conn; done).
  by rewrite decode_encode_conn.
Qed.

(** The last row written under a key is the one stored. *)
Lemma write_rows_in rows h e :
  NoDup (map (fun e => conn_key (port2 e) (conn_index e)) rows) -> e ∈ rows -> conn_wf e ->
  exists d, tdb_fetch (fold_left conn_write_ignore rows h) (conn_key (port2 e) (conn_index e))
            = Some d /\ row_of d = Some e.
Proof.
  revert h. induction rows as [|e0 rows IH]; intros h Hnd Hin Hwf; [by apply elem_of_nil in Hin|].
  cbn [map] in Hnd. inversion_clear Hnd as [|?? Hn Hnd']. cbn [fold_left].
  apply elem_of_cons in Hin as [->|Hin]; [|by apply IH].
  rewrite write_rows_out.
  - rewrite conn_write_ignore_fetch, decide_True by done. eauto using row_of_write.
  - apply list.Forall_forall. intros e' He' Eq. apply Hn. rewrite <-Eq.
    by apply (list_elem_of_fmap_2 (fun e => conn_key (port2 e) (conn_index e))).
Qed.

(** ** Drop requests *)

Lemma bit32_small i : 0 <= i < 32 -> bit32 i = Z.shiftl 1 i.
Proof.
  intros. unfold bit32. change 31 with (Z.ones 5). rewrite Z.land_ones, Z.mod_small by lia.
  rewrite Z.shiftl_1_l. apply wrap_small. split; [apply Z.pow_nonneg; lia|].
  apply Z.pow_lt_mono_r; lia.
Qed.

Lemma testbit_shiftl_1 i j : 0 <= i -> 0 <= j -> Z.testbit (Z.shiftl 1 i) j = (i =? j).
Proof. intros. rewrite Z.shiftl_1_l. by apply Z.pow2_bits_eqb. Qed.

Lemma drop_mask_fold p rs m i :
  0 <= i ->
  Z.testbit (fold_left (collect_drop_mask p) rs m) i = true <->
  Z.testbit m i = true
  \/ (i < 32 /\ exists r, r ∈ rs /\ parse_key r.1 = Some (p, i) /\ drop_requested r.2 = true).
Proof.
  intros Hi. revert m. induction rs as [|r rs IH]; intros m; cbn [fold_left].
  { split; [by left|]. intros [?|(_ & r & Hr & _)]; [done|by apply elem_of_nil in Hr]. }
  rewrite IH. clear IH.
  assert (Hstep : Z.testbit (collect_drop_mask p m r) i = true <->
    Z.testbit m i = true \/ (i < 32 /\ parse_key r.1 = Some (p, i) /\ drop_requested r.2 = true)).
  { unfold collect_drop_mask. destruct (parse_key r.1) as [[kp ki]|]; [|naive_solver].
    destruct (kp =? p) eqn:Ep, (ki <? 0) eqn:E0, (32 <=? ki) eqn:E32; cbn [negb orb];
      reflect_bools; try (split; [by left|]; intros [?|(? & [= -> ->] & ?)]; [done|lia]).
    destruct (drop_requested r.2); [|naive_solver].
    replace (u32 (Z.shiftl 1 ki)) with (Z.shiftl 1 ki).
    - rewrite Z.lor_spec, orb_true_iff, testbit_shiftl_1, Z.eqb_eq by lia. subst kp.
      split; (intros [?|?]; [by left|right]).
      + split; [lia|]. by subst.
      + by destruct_and!; simplify_eq.
    - rewrite <-bit32_small by lia. unfold bit32. by rewrite wrap_wrap. }
  rewrite Hstep. split.
  - intros [[?|(? & ? & ?)]|(? & r' & ? & ?)]; [by left| |]; right; split; try done.
    + exists r. split; [constructor|done].
    + exists r'. split; [by constructor|done].
  - intros [?|(? & r' & [->|Hin]%elem_of_cons & ?)]; [by left; left|left; right; done|].
    right. eauto.
Qed.

Lemma drop_mask_bit h p i :
  keys_ok h -> is_i32 p -> 0 <= i ->
  Z.testbit (conn_drop_mask h p) i = true <->
  i < 32 /\ exists d, tdb_fetch h (conn_key p i) = Some d /\ drop_requested d = true.
Proof.
  intros Hk Hp Hi. unfold conn_drop_mask. rewrite drop_mask_fold by done.
  rewrite Z.bits_0. split.
  - intros [?|(? & [k v] & Hr & Hpk & Hd)]; [done|]. cbn in *. split; [done|].
    apply tdb_records_fetch in Hr. exists v. split; [|done].
    rewrite (conn_key_parse k p i) in Hr; [done| |done]. by eapply keys_ok_fetch.
  - intros (? & d & Ef & Hd). right. split; [done|]. exists (conn_key p i, d).
    split; [by apply tdb_records_fetch|]. split; [|done]. apply parse_conn_key; [done|].
    unfold is_i32. lia.
Qed.

Lemma carry_drop_index mask e :
  0 <= conn_index e < 32 -> carry_drop mask e =
    if Z.testbit mask (conn_index e)
    then e <| ce_flags := Z.lor (ce_flags e) CONN_FLAG_DROP_REQUESTED |> else e.
Proof.
  intros Hi. unfold carry_drop. rewrite bit32_small, Z.shiftl_1_l by done.
  replace (negb (Z.land mask (2 ^ conn_index e) =? 0)) with (Z.testbit mask (conn_index e)); [done|].
  destruct (Z.testbit mask (conn_index e)) eqn:E; symmetry.
  - apply negb_true_iff, Z.eqb_neq. intros E0.
    assert (Hb : Z.testbit (Z.land mask (2 ^ conn_index e)) (conn_index e) = false)
      by (rewrite E0; apply Z.bits_0).
    rewrite Z.land_spec, E, Z.pow2_bits_true in Hb by lia. done.
  - apply negb_false_iff, Z.eqb_eq, Z.bits_inj'. intros n Hn.
    rewrite Z.land_spec, Z.pow2_bits_eqb, Z.bits_0 by lia.
    destruct (Z.eqb_spec (conn_index e) n) as [<-|]; [by rewrite E|by rewrite andb_false_r].
Qed.

Lemma carry_drop_key mask e :
  conn_key (port2 (carry_drop mask e)) (conn_index (carry_drop mask e))
  = conn_key (port2 e) (conn_index e).
Proof. unfold carry_drop. by case_match. Qed.

Lemma carry_drop_wf mask e : conn_wf e -> conn_wf (carry_drop mask e).
Proof.
  unfold carry_drop. case_match; [|done]. intros [H64 Hi H32 H16 H8]. split; try done.
  cbn [pid rx_msgs tx_msgs peer_ip_be ce_flags pad1 pad2 pad3] in *.
  repeat (apply Forall_cons_iff in H32 as [? H32]).
  rewrite !Forall_cons_iff. split_and!; try done. by apply lor_is_u32.
Qed.

(** ** The writers *)

(** What a writer's list of rows must be: well formed, for one entry, at distinct
    indices within the writer's range. *)
Definition rows_for (p lo hi : Z) (rows : list ConnEntry) : Prop :=
  NoDup (map (fun e => conn_key (port2 e) (conn_index e)) rows)
  /\ Forall (fun e => conn_wf e /\ port2 e = p /\ lo <= conn_index e <= hi) rows.

(** Clear a range, then write rows inside it: those rows, and outside it what was there. *)
Lemma snapshot_range h p lo hi rows :
  keys_ok h -> rows_for p lo hi rows ->
  let h' := fold_left conn_write_ignore rows (conn_delete_index_range h p lo hi).1 in
  (forall k, row_in p lo hi k = false -> tdb_fetch h' k = tdb_fetch h k)
  /\ (forall e, e ∈ rows ->
        exists d, tdb_fetch h' (conn_key p (conn_index e)) = Some d /\ row_of d = Some e)
  /\ (forall k, row_in p lo hi k = true ->
        (forall e, e ∈ rows -> conn_key p (conn_index e) <> k) -> tdb_fetch h' k = None).
Proof.
  intros Hk [Hnd Hr]. rewrite list.Forall_forall in Hr. cbn zeta.
  destruct (delete_range_spec h p lo hi Hk) as [Hf _]. split; [|split].
  - intros k Hout. rewrite write_rows_out; [by rewrite Hf, Hout|].
    apply list.Forall_forall. intros e He <-. destruct (Hr e He) as ([_ [? ?] _ _ _] & Hp & Hi).
    rewrite row_in_key in Hout by done. subst p. rewrite Z.eqb_refl in Hout.
    apply andb_false_iff in Hout as [E|E]; cbn [andb] in E; reflect_bools; lia.
  - intros e He. destruct (Hr e He) as (Hwf & <- & _). by apply write_rows_in.
  - intros k Hin Hno. rewrite write_rows_out; [by rewrite Hf, Hin|].
    apply list.Forall_forall. intros e He. destruct (Hr e He) as (_ & -> & _). by apply Hno.
Qed.

(** The video child's snapshot replaces exactly its own index range: its publishers'
    rows are the ones readable there afterwards and nothing else is, while every row below
    the range -- the session child's -- and every other entry's row is left as it was. *)
Theorem video_snapshot_own_range h p rows :
  keys_ok h -> rows_for p VIDEO_CONN_INDEX_BASE INT32_MAX rows -> is_i32 p ->
  let h' := video_snapshot h p rows in
  (forall q i, is_i32 q -> is_i32 i -> (q <> p \/ i < VIDEO_CONN_INDEX_BASE) ->
     tdb_fetch h' (conn_key q i) = tdb_fetch h (conn_key q i))
  /\ (forall i, is_i32 i -> VIDEO_CONN_INDEX_BASE <= i ->
       match tdb_fetch h' (conn_key p i) with
       | Some d => exists e, e ∈ rows /\ conn_index e = i /\ row_of d = Some e
       | None => forall e, e ∈ rows -> conn_index e <> i
       end).
Proof.
  intros Hk Hr Hp. cbn zeta. unfold video_snapshot.
  destruct (snapshot_range h p _ _ rows Hk Hr) as (Hout & Hin & Hgone). split.
  - intros q i Hq Hi Hne. apply Hout. rewrite row_in_key by done.
    destruct (Z.eqb_spec q p), (Z.leb_spec VIDEO_CONN_INDEX_BASE i); cbn; try done; lia.
  - intros i Hi Hb.
    destruct (decide (Exists (fun e => conn_index e = i) rows)) as [He|He].
    + apply list.Exists_exists in He as (e & He & Hie). destruct (Hin e He) as (d & Hd & Ed).
      rewrite <-Hie, Hd. eauto.
    + assert (Hno : forall e, e ∈ rows -> conn_index e <> i).
      { intros e Hin' E. apply He, list.Exists_exists. eauto. }
      rewrite Hgone; [done| |].
      * rewrite row_in_key, Z.eqb_refl by done. unfold is_i32, INT32_MAX in *.
        apply andb_true_iff. rewrite !Z.leb_le. lia.
      * intros e Hin' E. apply (Hno e Hin'). destruct Hr as [_ Hr].
        rewrite list.Forall_forall in Hr. destruct (Hr e Hin') as ([_ [? ?] _ _ _] & _ & _).
        by apply conn_key_inj in E as [_ ->].
Qed.

(** The session child's snapshot writes every live row with what the child knows, and
    a drop request that landed on a row before the rewrite is still set on it afterwards (for
    the indices 0..31 the mask covers); rows of other entries are untouched. *)
Theorem mav_snapshot_keeps_drops h p rows :
  keys_ok h -> rows_for p 0 31 rows -> is_i32 p ->
  let h' := mav_snapshot h p rows in
  (forall q i, is_i32 q -> is_i32 i -> q <> p ->
     tdb_fetch h' (conn_key q i) = tdb_fetch h (conn_key q i))
  /\ (forall e, e ∈ rows -> exists d e',
       tdb_fetch h' (conn_key p (conn_index e)) = Some d /\ row_of d = Some e'
       /\ e' <| ce_flags := ce_flags e |> = e
       /\ ((exists old, tdb_fetch h (conn_key p (conn_index e)) = Some old
             /\ drop_requested old = true) ->
           Z.testbit (ce_flags e') 0 = true)
       /\ (~ (exists old, tdb_fetch h (conn_key p (conn_index e)) = Some old
             /\ drop_requested old = true) -> e' = e)).
Proof.
  intros Hk [Hnd Hr] Hp. cbn zeta. unfold mav_snapshot.
  set (mask := conn_drop_mask h p). rewrite delete_for_port2_range.
  set (h0 := (conn_delete_index_range h p _ _).1).
  assert (Efold : forall h1, fold_left (fun h e => conn_write_ignore h (carry_drop mask e)) rows h1
                       = fold_left conn_write_ignore (map (carry_drop mask) rows) h1).
  { clear. induction rows as [|e rows IH]; intros h1; [done|]. cbn. apply IH. }
  rewrite Efold. unfold h0. rewrite list.Forall_forall in Hr.
  assert (Hr' : rows_for p (- 2 ^ 31) INT32_MAX (map (carry_drop mask) rows)).
  { split.
    - rewrite map_map. erewrite map_ext; [exact Hnd|]. intros e. apply carry_drop_key.
    - apply list.Forall_forall. intros e' (e & -> & He)%list_elem_of_fmap.
      destruct (Hr e He) as (Hwf & <- & Hi). split; [by apply carry_drop_wf|].
      unfold carry_drop, INT32_MAX. case_match; cbn [port2 conn_index]; split; done || lia. }
  destruct (snapshot_range h p _ _ _ Hk Hr') as (Hout & Hin & _). split.
  - intros q i Hq Hi Hne. apply Hout. rewrite row_in_key by done.
    by rewrite (proj2 (Z.eqb_neq q p)).
  - intros e He. destruct (Hr e He) as (Hwf & Hpe & Hi).
    destruct (Hin (carry_drop mask e)) as (d & Hd & Ed); [by apply list_elem_of_fmap_2|].
    exists d, (carry_drop mask e).
    replace (conn_index (carry_drop mask e)) with (conn_index e) in Hd
      by (unfold carry_drop; by case_match).
    pose proof (drop_mask_bit h p (conn_index e) Hk Hp ltac:(lia)) as Hbit. fold mask in Hbit.
    split; [done|]. split; [done|].
    rewrite carry_drop_index by lia. destruct (Z.testbit mask (conn_index e)); split.
    + by destruct e.
    + split; [|intros Hno; exfalso; apply Hno, Hbit; done]. intros _. cbn [ce_flags].
      rewrite Z.lor_spec. apply orb_true_r.
    + by destruct e.
    + split; [|done]. intros Hold. exfalso. apply (diff_false_true). apply Hbit. split; [lia|done].
Qed.

Lemma delete_fold h (ks : list bytes) :
  fold_left (fun h k => default h (tdb_delete h k)) ks h = (delete_keys h ks).1.
Proof.
  revert h. induction ks as [|k ks IH]; intros h; [done|]. cbn [fold_left delete_keys].
  rewrite IH. destruct (tdb_delete h k) as [h'|]; [|done].
  change (default h (Some h')) with h'. by destruct (delete_keys h' ks).
Qed.

Definition drop_row (p : Z) (r : bytes * bytes) : bool :=
  match parse_key r.1 with
  | Some k => (k.1 =? p) && drop_requested r.2
  | None => false
  end.

Lemma collect_drops_keys h p :
  keys_ok h ->
  map (conn_key p) (collect_drops h p)
  = map fst (base.filter (fun r => drop_row p r = true) (tdb_records h)).
Proof.
  unfold keys_ok, collect_drops. induction (tdb_records h) as [|[k v] rs IH]; [done|].
  cbn [map omap list_omap fst snd]. intros [Hk Hrs]%Forall_cons_iff. specialize (IH Hrs).
  rewrite filter_cons.
  destruct (decide (drop_row p (k, v) = true)) as [Hr|Hr]; unfold drop_row in Hr; cbn [fst snd] in Hr;
    destruct (parse_key k) as [[kp ki]|] eqn:Ek; try done; cbn [fst snd] in *;
    destruct ((kp =? p) && drop_requested v)%bool eqn:E; try done.
  cbn [map fst]. rewrite IH. f_equal. reflect_bools. subst kp. symmetry. by apply conn_key_parse.
Qed.

(** The session child's scan serves every pending drop request of its entry exactly
    once: the indices it acts on are those whose row carries the flag, those rows are
    gone afterwards, and no other row of the store changes. *)
Theorem process_drops_exact h p :
  keys_ok h -> is_i32 p ->
  let '(h', indices) := process_drops_db h p in
  (forall i, is_i32 i -> i ∈ indices <->
     exists d, tdb_fetch h (conn_key p i) = Some d /\ drop_requested d = true)
  /\ (forall q i, is_i32 q -> is_i32 i ->
       tdb_fetch h' (conn_key q i)
       = if decide (q = p /\ i ∈ indices) then None else tdb_fetch h (conn_key q i)).
Proof.
  intros Hk Hp. unfold process_drops_db.
  assert (Hind : forall i, is_i32 i -> i ∈ collect_drops h p <->
     exists d, tdb_fetch h (conn_key p i) = Some d /\ drop_requested d = true).
  { intros i Hi. unfold collect_drops. rewrite list_elem_of_omap. split.
    - intros ([k v] & Hr & E). cbn [fst snd] in E. apply tdb_records_fetch in Hr.
      destruct (parse_key k) as [[kp ki]|] eqn:Ek; [|done]. cbn [fst snd] in E.
      destruct ((kp =? p) && drop_requested v)%bool eqn:Ed; [|done]. injection E as ->.
      reflect_bools. subst kp. exists v. split; [|done].
      rewrite (conn_key_parse k p i) in Hr; [done| |done]. by eapply keys_ok_fetch.
    - intros (d & Ef & Hd). exists (conn_key p i, d). split; [by apply tdb_records_fetch|].
      cbn [fst snd]. rewrite parse_conn_key by done. cbn [fst snd]. by rewrite Z.eqb_refl, Hd. }
  assert (Efold : fold_left (fun h i => default h (conn_delete h p i)) (collect_drops h p) h
                  = (delete_keys h (map (conn_key p) (collect_drops h p))).1).
  { rewrite <-delete_fold. generalize (collect_drops h p) as js. intros js.
    generalize h. induction js as [|i js IH]; intros h1; [done|]. cbn. apply IH. }
  rewrite Efold. split; [exact Hind|]. rewrite collect_drops_keys by done.
  set (ks := map fst _).
  assert (Hnd : NoDup ks).
  { unfold ks. eapply sublist_NoDup; [apply (tdb_records_keys h)|].
    apply (fmap_sublist fst). apply sublist_filter. }
  assert (Hks : forall k, k ∈ ks -> is_Some (tdb_fetch h k)).
  { intros k ([k' v] & -> & [_ Hr]%list_elem_of_filter)%list_elem_of_fmap.
    exists v. by apply tdb_records_fetch. }
  destruct (delete_keys_spec h ks Hnd) as [_ Hf]; [by apply list.Forall_forall|].
  intros q i Hq Hi. rewrite Hf.
  assert (Hin : conn_key q i ∈ ks <-> q = p /\ i ∈ collect_drops h p).
  { unfold ks. rewrite <-collect_drops_keys by done. rewrite list_elem_of_fmap. split.
    - intros (j & E & Hj).
      assert (is_i32 j).
      { unfold collect_drops in Hj. apply list_elem_of_omap in Hj as ([k v] & _ & E').
        cbn [fst snd] in E'. unfold parse_key in E'. destruct (len k =? 8); [|done].
        cbn [fst snd] in E'. destruct (_ && _)%bool; [|done]. injection E' as <-.
        apply is_i32_int_val. }
      by apply conn_key_inj in E as [-> ->].
    - intros [-> Hj]. by exists i. }
  destruct (decide (conn_key q i ∈ ks)), (decide (q = p /\ i ∈ collect_drops h p)); tauto.
Qed.

(** The lookup the video child authorises with returns exactly the row the session
    child wrote; a row written before the record had the [authenticated] byte reads as not
    authenticated, and one shorter than any layout is refused. *)
Theorem conn_get_user_spec h p out :
  is_i32 p ->
  (forall h0 e, conn_wf e -> port2 e = p -> conn_index e = 0 -> conn_write h0 e = Some h ->
     conn_get_user h p out = ((ce_magic e =? CONN_MAGIC) && negb (is_user e =? 0), e)%bool)
  /\ (forall d, tdb_fetch h (conn_key p 0) = Some d ->
       (len d < CONNENTRY_MIN_SIZE -> conn_get_user h p out = (false, out))
       /\ (CONNENTRY_MIN_SIZE <= len d <= 67 ->
            authenticated (conn_get_user h p out).2 = 0)).
Proof.
  intros Hp. split.
  - intros h0 e Hwf He Hi E. unfold conn_write in E. rewrite He, Hi in E.
    unfold conn_get_user. by rewrite (tdb_fetch_stored _ _ _ _ E), row_of_write.
  - intros d Ed. unfold conn_get_user. rewrite Ed. unfold row_of. split; intros Hd.
    + by rewrite (proj2 (Z.ltb_lt _ _)).
    + rewrite (proj2 (Z.ltb_ge _ _)) by lia. cbn [snd authenticated decode_conn].
      unfold zero_extend, CONNENTRY_SIZE, ztake, CONNENTRY_MIN_SIZE in *.
      rewrite take_ge by lia. rewrite slice_skip by lia. unfold slice.
      rewrite drop_replicate, take_replicate.
      replace (_ `min` _)%nat with 1%nat by lia. done.
Qed.

(** The header says each writer clears only its own range.  The session child's snapshot
    clears the whole entry: every video row is gone after it, until the video child's next. *)
Lemma mav_snapshot_erases_video_rows h p rows i :
  keys_ok h -> rows_for p 0 100 rows -> is_i32 p -> is_i32 i -> VIDEO_CONN_INDEX_BASE <= i ->
  tdb_fetch (mav_snapshot h p rows) (conn_key p i) = None.
Proof.
  intros Hk [Hnd Hr] Hp Hi Hb. unfold mav_snapshot. rewrite delete_for_port2_range.
  rewrite list.Forall_forall in Hr.
  set (mask := conn_drop_mask h p). clearbody mask.
  assert (Hgo : forall rows h1, (forall e, e ∈ rows -> conn_wf e /\ port2 e = p /\ 0 <= conn_index e <= 100) ->
    tdb_fetch (fold_left (fun h e => conn_write_ignore h (carry_drop mask e)) rows h1) (conn_key p i)
    = tdb_fetch h1 (conn_key p i)).
  { clear -Hp Hi Hb H0 TdbReliable0. induction rows as [|e rows IH]; intros h1 Hr; [done|].
    cbn [fold_left]. rewrite IH by (intros; apply Hr; by right).
    destruct (Hr e) as ([_ [? ?] _ _ _] & Hpe & Hie); [by left|].
    rewrite conn_write_ignore_fetch, carry_drop_key, decide_False; [done|].
    intros E. apply conn_key_inj in E as [_ ->]; try done. unfold VIDEO_CONN_INDEX_BASE in *. lia. }
  rewrite Hgo by done. rewrite (proj1 (delete_range_spec h p _ _ Hk)).
  rewrite row_in_key, Z.eqb_refl by done. unfold is_i32, INT32_MAX in *.
  by rewrite (proj2 (Z.leb_le _ _)), (proj2 (Z.leb_le _ _)) by lia.
Qed.

End conndb_props.

(** With up to 100 engineer slots the mask's bit for a slot above 31 is another row's: a
    drop request on the user's row is copied to the engineer at index 32. *)
Lemma drop_mask_aliases e :
  conn_index e = 32 ->
  carry_drop 1 e = e <| ce_flags := Z.lor (ce_flags e) CONN_FLAG_DROP_REQUESTED |>.
Proof. intros E. unfold carry_drop. by rewrite E. Qed.

(** ** Witnesses *)

Definition sample_row (index fl : Z) : ConnEntry :=
  conn_zero <| ce_magic := CONN_MAGIC |> <| port2 := 14550 |> <| conn_index := index |>
    <| is_user := (if index =? 0 then 1 else 0) |> <| ce_flags := fl |>.

Definition sample_conns : mapdb :=
  fold_left conn_write_ignore [sample_row 0 0; sample_row 1 1; sample_row 1000 0] ∅.

Lemma sample_keys_ok : keys_ok sample_conns.
Proof. decide_vm. Qed.

Lemma conn_wf_sample i f : is_i32 i -> is_u32 f -> conn_wf (sample_row i f).
Proof.
  intros Hi Hf. unfold sample_row.
  assert (Hu : is_byte (if i =? 0 then 1 else 0)) by (destruct (i =? 0); decide_vm).
  split; cbn [ce_magic connected_at last_update port2 conn_index pid rx_msgs tx_msgs
    peer_ip_be peer_port_be transport is_user ce_flags pad1 pad2 role stream_idx app_proto
    authenticated pad3]; rewrite ?Forall_cons_iff; split_and!;
    first [assumption | apply Forall_nil_2 | decide_vm].
Qed.

Lemma sample_rows_for lo hi i f :
  lo <= i <= hi -> is_i32 i -> is_u32 f -> rows_for 14550 lo hi [sample_row i f].
Proof.
  intros. split; [apply NoDup_singleton|]. apply Forall_singleton.
  split; [by apply conn_wf_sample|]. by split.
Qed.

Lemma video_snapshot_own_range_witness :
  tdb_fetch (video_snapshot sample_conns 14550 [sample_row 1256 0]) (conn_key 14550 1)
    = tdb_fetch sample_conns (conn_key 14550 1)
  /\ tdb_fetch (video_snapshot sample_conns 14550 [sample_row 1256 0]) (conn_key 14550 1000) = None.
Proof.
  assert (R : rows_for 14550 VIDEO_CONN_INDEX_BASE INT32_MAX [sample_row 1256 0])
    by (apply sample_rows_for; unfold VIDEO_CONN_INDEX_BASE, INT32_MAX, is_i32, is_u32; lia).
  destruct (video_snapshot_own_range sample_conns 14550 [sample_row 1256 0] sample_keys_ok R
    ltac:(by decide_vm)) as [H1 _].
  split; [|by vm_compute].
  apply H1; [by decide_vm|by decide_vm|right; done].
Defined.

Lemma mav_snapshot_keeps_drops_witness :
  exists d, tdb_fetch (mav_snapshot sample_conns 14550 [sample_row 1 0]) (conn_key 14550 1) = Some d
    /\ exists e', row_of d = Some e' /\ Z.testbit (ce_flags e') 0 = true.
Proof.
  assert (R : rows_for 14550 0 31 [sample_row 1 0])
    by (apply sample_rows_for; unfold is_i32, is_u32; lia).
  destruct (mav_snapshot_keeps_drops sample_conns 14550 [sample_row 1 0] sample_keys_ok R
    ltac:(by decide_vm)) as [_ H2].
  destruct (H2 (sample_row 1 0)) as (d & e' & Hd & He & _ & Hdrop & _); [by left|].
  exists d. split; [exact Hd|]. exists e'. split; [exact He|]. apply Hdrop.
  eexists. split; [vm_compute; reflexivity|by vm_compute].
Defined.

Lemma process_drops_exact_witness :
  1 ∈ (process_drops_db sample_conns 14550).2
  /\ tdb_fetch (process_drops_db sample_conns 14550).1 (conn_key 14550 1) = None.
Proof.
  pose proof (process_drops_exact sample_conns 14550 sample_keys_ok ltac:(by decide_vm)) as W.
  destruct (process_drops_db sample_conns 14550) as [h' ix]. destruct W as [H1 H2].
  assert (Hi : 1 ∈ ix).
  { apply H1; [by decide_vm|]. eexists. split; [vm_compute; reflexivity|by vm_compute]. }
  split; [exact Hi|]. cbn [fst]. rewrite H2 by (by decide_vm). by rewrite decide_True.
Defined.

Lemma conn_get_user_spec_witness :
  conn_get_user (conn_write_ignore (∅ : mapdb) (sample_row 0 0)) 14550 conn_zero
  = (true, sample_row 0 0).
Proof.
  destruct (conn_get_user_spec (conn_write_ignore (∅ : mapdb) (sample_row 0 0)) 14550 conn_zero)
    as [H1 _]; [by decide_vm|].
  rewrite (H1 ∅ (sample_row 0 0)); [done|apply conn_wf_sample; by decide_vm|done|done|done].
Defined.
