(* ===== verification/CStr.v ===== *)
(** * C and C++ string primitives the sources use

    [std::string::find], line and field splitting, [tolower], [strtol]/[strtoll],
    [printf]'s [%d], and hex digits, on byte strings; with the lemmas that let the parsers
    built on them be inverted. *)

From S2P Require Import Prelude.

(** ** Searching *)

Fixpoint starts_with (pat s : bytes) : bool :=
  match pat, s with
  | [], _ => true
  | p :: pat, c :: s => (p =? c) && starts_with pat s
  | _ :: _, [] => false
  end.

(** [s.find(pat)]: the first index, [None] for [npos]. *)
Fixpoint find_sub (pat s : bytes) : option nat :=
  if starts_with pat s then Some O
  else match s with
       | [] => None
       | _ :: s => S <$> find_sub pat s
       end.

(** [s.find(c)], [strchr]. *)
Fixpoint find_byte (c : Z) (s : bytes) : option nat :=
  match s with
  | [] => None
  | x :: s => if x =? c then Some O else S <$> find_byte c s
  end.

Lemma starts_with_app pat s : starts_with pat (pat ++ s) = true.
Proof. induction pat; cbn; [done|]. by rewrite Z.eqb_refl. Qed.

Lemma starts_with_inv pat s : starts_with pat s = true -> s = pat ++ drop (length pat) s.
Proof.
  revert s. induction pat as [|p pat IH]; intros s; [done|]. destruct s as [|c s]; [done|].
  cbn. intros. reflect_bools. subst. f_equal. by apply IH.
Qed.

Lemma starts_with_len pat s : starts_with pat s = true -> (length pat <= length s)%nat.
Proof. intros E%starts_with_inv. rewrite E, length_app. lia. Qed.

(** More text does not change what a long enough text starts with. *)
Lemma starts_with_ext pat s t :
  (length pat <= length s)%nat -> starts_with pat (s ++ t) = starts_with pat s.
Proof.
  revert s. induction pat as [|p pat IH]; intros s Hl; [done|]. destruct s as [|c s]; cbn in *; [lia|].
  f_equal. apply IH. lia.
Qed.

Lemma starts_with_app_l pat s t : starts_with pat s = true -> starts_with pat (s ++ t) = true.
Proof. intros E. by rewrite starts_with_ext by (by apply starts_with_len). Qed.

Lemma find_byte_Some c s i :
  find_byte c s = Some i -> s = take i s ++ c :: drop (S i) s /\ ~ c ∈ take i s /\ (i < length s)%nat.
Proof.
  revert i. induction s as [|x s IH]; intros i; cbn; [done|].
  destruct (Z.eqb_spec x c) as [->|Hne].
  - intros [= <-]. cbn. split; [done|]. split; [by apply not_elem_of_nil|lia].
  - destruct (find_byte c s) as [j|]; [|done]. intros [= <-]. destruct (IH j eq_refl) as (E & Hn & Hl).
    cbn. split; [by f_equal|]. split; [|lia]. by apply not_elem_of_cons.
Qed.

Lemma find_byte_None c s : find_byte c s = None <-> ~ c ∈ s.
Proof.
  induction s as [|x s IH]; cbn.
  - split; [intros _; apply not_elem_of_nil|done].
  - rewrite not_elem_of_cons. destruct (Z.eqb_spec x c) as [->|Hne].
    + split; [done|]. by intros [].
    + destruct (find_byte c s); cbn; [|naive_solver].
      split; [done|]. intros [_ H]. by apply IH in H.
Qed.

Lemma find_byte_app c a b : ~ c ∈ a -> find_byte c (a ++ c :: b) = Some (length a).
Proof.
  induction a as [|x a IH]; cbn; [by rewrite Z.eqb_refl|].
  rewrite not_elem_of_cons. intros [Hne Ha]. rewrite (proj2 (Z.eqb_neq x c)) by congruence.
  by rewrite IH.
Qed.

Lemma find_byte_app_l c a b i : find_byte c a = Some i -> find_byte c (a ++ b) = Some i.
Proof.
  revert i. induction a as [|x a IH]; intros i; cbn; [done|].
  destruct (x =? c); [done|]. destruct (find_byte c a); [|done]. intros [= <-].
  by rewrite (IH _ eq_refl).
Qed.

Lemma find_sub_Some pat s i :
  find_sub pat s = Some i ->
  s = take i s ++ pat ++ drop (i + length pat) s /\ (i + length pat <= length s)%nat
  /\ forall j, (j < i)%nat -> starts_with pat (drop j s) = false.
Proof.
  revert i. induction s as [|x s IH]; intros i; cbn [find_sub].
  - destruct (starts_with pat []) eqn:E; [|done]. intros [= <-].
    pose proof (starts_with_len _ _ E). pose proof (starts_with_inv _ _ E) as E2.
    split; [done|]. split; [lia|]. lia.
  - destruct (starts_with pat (x :: s)) eqn:E.
    + intros [= <-]. pose proof (starts_with_len _ _ E). split; [by apply starts_with_inv|].
      split; [lia|]. lia.
    + destruct (find_sub pat s) as [j|]; [|done]. intros [= <-].
      destruct (IH j eq_refl) as (E2 & Hl & Hf). cbn. split; [by f_equal|]. split; [lia|].
      intros [|k] Hk; [done|]. cbn. apply Hf. lia.
Qed.

Lemma find_sub_None pat s :
  find_sub pat s = None <-> forall j, (j <= length s)%nat -> starts_with pat (drop j s) = false.
Proof.
  induction s as [|x s IH]; cbn [find_sub].
  - destruct (starts_with pat []) eqn:E; split; try done.
    + intros H. specialize (H O ltac:(cbn; lia)). cbn in H. congruence.
    + intros _ [|j] Hj; [done|]. cbn in Hj. lia.
  - destruct (starts_with pat (x :: s)) eqn:E.
    + split; [done|]. intros H. specialize (H O ltac:(cbn; lia)). cbn [drop] in H. congruence.
    + destruct (find_sub pat s) as [k|].
      * split; [done|]. intros H. assert (Hn : Some k = None); [|done]. apply IH.
        intros j Hj. apply (H (S j)). cbn. lia.
      * split; [|done]. intros _ [|j] Hj; [done|]. cbn [drop]. apply IH; [done|]. cbn in Hj. lia.
Qed.

(** The first occurrence, found with nothing of [pat] earlier. *)
Lemma find_sub_first pat s i :
  starts_with pat (drop i s) = true -> (i <= length s)%nat ->
  (forall j, (j < i)%nat -> starts_with pat (drop j s) = false) -> find_sub pat s = Some i.
Proof.
  revert i. induction s as [|x s IH]; intros i Hi Hl Hf; cbn [find_sub].
  - destruct i; [|cbn in Hl; lia]. cbn in Hi. by rewrite Hi.
  - destruct i as [|i]; [cbn [drop] in Hi; by rewrite Hi|]. pose proof (Hf O ltac:(lia)) as Hf0. cbn [drop] in Hf0.
    rewrite Hf0.
    rewrite (IH i); [done|done|cbn in Hl; lia|]. intros j Hj. apply (Hf (S j)). lia.
Qed.

(** A match survives text appended after it. *)
Lemma find_sub_app_l pat s t i : find_sub pat s = Some i -> find_sub pat (s ++ t) = Some i.
Proof.
  intros E. destruct (find_sub_Some _ _ _ E) as (E2 & Hl & Hf). apply find_sub_first.
  - rewrite drop_app_le by lia. apply starts_with_app_l. rewrite E2, drop_app_length'.
    + apply starts_with_app.
    + rewrite length_take. lia.
  - rewrite length_app. lia.
  - intros j Hj. specialize (Hf j Hj). rewrite drop_app_le by lia.
    rewrite starts_with_ext; [done|]. rewrite length_drop. lia.
Qed.

(** ** Splitting *)

(** The pieces between separators; always at least one. *)
Fixpoint split_on (sep : Z) (s : bytes) : list bytes :=
  match s with
  | [] => [[]]
  | c :: s =>
    if c =? sep then [] :: split_on sep s
    else match split_on sep s with
         | [] => [[c]]
         | l :: ls => (c :: l) :: ls
         end
  end.

Fixpoint join_with (sep : Z) (ls : list bytes) : bytes :=
  match ls with
  | [] => []
  | [l] => l
  | l :: ls => l ++ sep :: join_with sep ls
  end.

Lemma split_on_nonempty sep s : split_on sep s <> [].
Proof. destruct s as [|c s]; cbn; [done|]. destruct (c =? sep); [done|]. by destruct (split_on sep s). Qed.

Lemma split_on_notin sep l : ~ sep ∈ l -> split_on sep l = [l].
Proof.
  induction l as [|c l IH]; cbn; [done|]. rewrite not_elem_of_cons. intros [Hne Hl].
  rewrite (proj2 (Z.eqb_neq c sep)) by congruence. by rewrite IH.
Qed.

Lemma split_on_app sep l s : ~ sep ∈ l -> split_on sep (l ++ sep :: s) = l :: split_on sep s.
Proof.
  induction l as [|c l IH]; cbn; [by rewrite Z.eqb_refl|]. rewrite not_elem_of_cons. intros [Hne Hl].
  rewrite (proj2 (Z.eqb_neq c sep)) by congruence. by rewrite IH.
Qed.

Lemma split_on_join sep l ls :
  Forall (fun l => ~ sep ∈ l) (l :: ls) -> split_on sep (join_with sep (l :: ls)) = l :: ls.
Proof.
  revert l. induction ls as [|l' ls IH]; intros l [Hl Hall]%Forall_cons_iff.
  - by apply split_on_notin.
  - cbn [join_with]. rewrite split_on_app by done. f_equal. by apply IH.
Qed.

Lemma join_split_on sep s : join_with sep (split_on sep s) = s.
Proof.
  induction s as [|c s IH]; cbn; [done|]. pose proof (split_on_nonempty sep s).
  destruct (Z.eqb_spec c sep) as [->|].
  - destruct (split_on sep s) as [|l ls]; [done|]. cbn in *. by f_equal.
  - destruct (split_on sep s) as [|l [|l' ls]]; [done|..]; cbn in *; by f_equal.
Qed.

Lemma split_on_pieces sep s : Forall (fun l => ~ sep ∈ l) (split_on sep s).
Proof.
  induction s as [|c s IH]; cbn; [repeat constructor; apply not_elem_of_nil|].
  destruct (Z.eqb_spec c sep) as [->|Hne]; [constructor; [apply not_elem_of_nil|done]|].
  destruct (split_on sep s) as [|l ls]; [|apply Forall_cons_iff in IH as [Hl Hls]].
  - repeat constructor. rewrite not_elem_of_cons. split; [congruence|apply not_elem_of_nil].
  - constructor; [|done]. rewrite not_elem_of_cons. split; [congruence|done].
Qed.

(** The lines a [pos < size] loop visits: no line after a final newline. *)
Fixpoint lines (s : bytes) : list bytes :=
  match s with
  | [] => []
  | c :: s =>
    if c =? 10 then [] :: lines s
    else match lines s with
         | [] => [[c]]
         | l :: ls => (c :: l) :: ls
         end
  end.

Lemma lines_app l s : ~ 10 ∈ l -> lines (l ++ 10 :: s) = l :: lines s.
Proof.
  induction l as [|c l IH]; cbn; [done|]. rewrite not_elem_of_cons. intros [Hne Hl].
  rewrite (proj2 (Z.eqb_neq c 10)) by congruence. by rewrite IH.
Qed.

Lemma lines_last l : l <> [] -> ~ 10 ∈ l -> lines l = [l].
Proof.
  induction l as [|c l IH]; [done|]. intros _. rewrite not_elem_of_cons. intros [Hne Hl]. cbn.
  rewrite (proj2 (Z.eqb_neq c 10)) by congruence. destruct l as [|c' l]; [done|].
  by rewrite IH by done.
Qed.

(** A trailing carriage return removed. *)
Definition chop_cr (line : bytes) : bytes :=
  match reverse line with
  | 13 :: r => reverse r
  | _ => line
  end.

Lemma chop_cr_snoc l : chop_cr (l ++ [13]) = l.
Proof. unfold chop_cr. rewrite reverse_app. change (reverse [13] ++ reverse l) with (13 :: reverse l).
  apply reverse_involutive. Qed.

Lemma chop_cr_id l : ~ 13 ∈ l -> chop_cr l = l.
Proof.
  intros Hl. unfold chop_cr. destruct (reverse l) as [|c r] eqn:E; [done|].
  assert (Hc : c ∈ l) by (apply elem_of_reverse; rewrite E; by left).
  assert (c <> 13) by congruence. case_tests; congruence.
Qed.

(** ** Case and space *)

Definition tolower (c : Z) : Z := if (65 <=? c) && (c <=? 90) then c + 32 else c.
Definition lower (s : bytes) : bytes := map tolower s.

Lemma length_lower s : length (lower s) = length s.
Proof. apply length_map. Qed.

Lemma lower_lower s : lower (lower s) = lower s.
Proof.
  unfold lower. rewrite map_map. apply map_ext. intros c. unfold tolower.
  destruct (65 <=? c) eqn:E1, (c <=? 90) eqn:E2; cbn; reflect_bools; try (by rewrite E1, E2).
  - rewrite (proj2 (Z.leb_gt (c + 32) 90)) by lia. by rewrite andb_false_r.
  - rewrite (proj2 (Z.leb_le 65 c)), (proj2 (Z.leb_gt c 90)) by lia. done.
  - rewrite (proj2 (Z.leb_gt 65 c)) by lia. done.
  - rewrite (proj2 (Z.leb_gt 65 c)) by lia. done.
Qed.

Definition isspace (c : Z) : bool := (c =? 32) || ((9 <=? c) && (c <=? 13)).
Definition isdigit (c : Z) : bool := (48 <=? c) && (c <=? 57).

(** ** Numbers *)

(** The value of a digit of any base up to 36; 99 for other bytes. *)
Definition digit_val (c : Z) : Z :=
  if (48 <=? c) && (c <=? 57) then c - 48
  else if (97 <=? c) && (c <=? 122) then c - 87
  else if (65 <=? c) && (c <=? 90) then c - 55
  else 99.

Definition isxdigit (c : Z) : bool := digit_val c <? 16.

(** The longest run of digits, accumulated onto [acc]; the value and the bytes read. *)
Fixpoint scan_digits (base acc : Z) (s : bytes) : Z * nat :=
  match s with
  | [] => (acc, O)
  | c :: s =>
    if digit_val c <? base
    then let '(v, n) := scan_digits base (acc * base + digit_val c) s in (v, S n)
    else (acc, O)
  end.

Fixpoint spaces (s : bytes) : nat :=
  match s with
  | [] => O
  | c :: s => if isspace c then S (spaces s) else O
  end.

(** [strtol]'s subject: the value, unbounded, and [endp - s]; no conversion leaves
    [endp = s]. *)
Definition sign_of (s : bytes) : bool * nat :=
  match s with
  | 45 :: _ => (true, 1%nat)
  | 43 :: _ => (false, 1%nat)
  | _ => (false, O)
  end.

(** The optional [0x] of base 16, taken only before a hex digit. *)
Definition hex_prefix (base : Z) (s : bytes) : nat :=
  match s with
  | 48 :: x :: d :: _ =>
      if (base =? 16) && ((x =? 120) || (x =? 88)) && isxdigit d then 2%nat else O
  | _ => O
  end.

Definition strto (base : Z) (s : bytes) : Z * nat :=
  let w := spaces s in
  let s1 := drop w s in
  let '(neg, k) := sign_of s1 in
  let s2 := drop k s1 in
  let px := hex_prefix base s2 in
  let '(v, n) := scan_digits base 0 (drop px s2) in
  match n with
  | O => (0, O)
  | _ => (if neg then - v else v, (w + k + px + n)%nat)
  end.

Definition LLONG_MAX : Z := 2 ^ 63 - 1.
Definition LLONG_MIN : Z := - 2 ^ 63.

(** [strtoll] (and [strtol], [long] being 64 bits): the clamped value, [endp - s], and
    whether [errno] is set. *)
Definition strtoll (base : Z) (s : bytes) : Z * nat * bool :=
  let '(v, n) := strto base s in
  if LLONG_MAX <? v then (LLONG_MAX, n, true)
  else if v <? LLONG_MIN then (LLONG_MIN, n, true)
  else (v, n, false).

(** [%d], [%lld]. *)
Fixpoint dec_digits (fuel : nat) (n : Z) : bytes :=
  match fuel with
  | O => []
  | S fuel => if n <? 10 then [48 + n] else dec_digits fuel (n / 10) ++ [48 + n mod 10]
  end.

Definition print_nat (n : Z) : bytes := dec_digits (S (Z.to_nat (Z.log2 n))) n.
Definition print_dec (n : Z) : bytes := if n <? 0 then 45 :: print_nat (- n) else print_nat n.

(** Lower-case hex of a byte string. *)
Definition hex_digit (n : Z) : Z := if n <? 10 then 48 + n else 87 + n.
Definition hex_of (l : bytes) : bytes := flat_map (fun b => [hex_digit (b / 16); hex_digit (b mod 16)]) l.

(** ** Decimal round trips *)

Lemma digit_val_digit n : 0 <= n < 10 -> digit_val (48 + n) = n.
Proof.
  intros. unfold digit_val. rewrite (proj2 (Z.leb_le 48 _)), (proj2 (Z.leb_le _ 57)) by lia.
  cbn [andb]. lia.
Qed.

Lemma dec_digits_S f n :
  dec_digits (S f) n = if n <? 10 then [48 + n] else dec_digits f (n / 10) ++ [48 + n mod 10].
Proof. done. Qed.

Lemma scan_dec f n acc s :
  0 <= n < 10 ^ Z.of_nat (S f) ->
  scan_digits 10 acc (dec_digits (S f) n ++ s)
  = let k := length (dec_digits (S f) n) in
    let '(v, m) := scan_digits 10 (acc * 10 ^ Z.of_nat k + n) s in (v, (k + m)%nat).
Proof.
  revert n acc s. induction f as [|f IH]; intros n acc s Hn.
  - cbn [dec_digits]. change (10 ^ Z.of_nat 1) with 10 in Hn.
    rewrite (proj2 (Z.ltb_lt n 10)) by lia. cbn [app scan_digits length].
    rewrite digit_val_digit, (proj2 (Z.ltb_lt n 10)) by lia.
    change (10 ^ Z.of_nat 1) with 10. by destruct (scan_digits _ _ s).
  - rewrite (dec_digits_S (S f)). destruct (Z.ltb_spec n 10).
    + cbn [app scan_digits length]. rewrite digit_val_digit, (proj2 (Z.ltb_lt n 10)) by lia.
      change (10 ^ Z.of_nat 1) with 10. by destruct (scan_digits _ _ s).
    + rewrite <-app_assoc. cbn zeta. rewrite IH.
      * cbn [app scan_digits].
        assert (Hm : 0 <= n mod 10 < 10) by (apply Z.mod_pos_bound; lia).
        rewrite digit_val_digit, (proj2 (Z.ltb_lt (n mod 10) 10)) by lia.
        rewrite length_app. cbn [length].
        rewrite Nat2Z.inj_add, Z.pow_add_r by lia. change (10 ^ Z.of_nat 1) with 10.
        replace ((acc * 10 ^ Z.of_nat (length (dec_digits (S f) (n / 10))) + n / 10) * 10 + n mod 10)
          with (acc * (10 ^ Z.of_nat (length (dec_digits (S f) (n / 10))) * 10) + n)
          by (rewrite (Z.div_mod n 10) at 2; lia).
        destruct (scan_digits _ _ s). f_equal. lia.
      * rewrite Nat2Z.inj_succ, Z.pow_succ_r in Hn by lia.
        split; [apply Z.div_pos; lia|apply Z.div_lt_upper_bound; lia].
Qed.

Lemma print_nat_fuel n : 0 <= n -> n < 10 ^ Z.of_nat (S (Z.to_nat (Z.log2 n))).
Proof.
  intros. destruct (Z.eq_dec n 0) as [->|]; [done|].
  pose proof (Z.log2_spec n ltac:(lia)) as [_ Hl]. pose proof (Z.log2_nonneg n).
  rewrite Nat2Z.inj_succ, Z2Nat.id by lia. eapply Z.lt_le_trans; [exact Hl|].
  apply Z.pow_le_mono_l. lia.
Qed.

(** Scanning a printed number reads it and continues. *)
Lemma scan_print_nat n s :
  0 <= n -> scan_digits 10 0 (print_nat n ++ s)
  = let '(v, m) := scan_digits 10 n s in (v, (length (print_nat n) + m)%nat).
Proof.
  intros. unfold print_nat. rewrite scan_dec by (split; [lia|by apply print_nat_fuel]). done.
Qed.

Lemma dec_digits_isdigit f n : 0 <= n -> Forall (fun c => isdigit c = true) (dec_digits f n).
Proof.
  revert n. induction f as [|f IH]; intros n Hn; cbn; [done|].
  assert (Hd : forall d, 0 <= d < 10 -> isdigit (48 + d) = true)
    by (intros; unfold isdigit; rewrite andb_true_iff, !Z.leb_le; lia).
  destruct (Z.ltb_spec n 10); [repeat constructor; apply Hd; lia|].
  apply Forall_app. split; [apply IH, Z.div_pos; lia|]. repeat constructor. apply Hd.
  apply Z.mod_pos_bound. lia.
Qed.

Lemma print_nat_digits n : 0 <= n -> Forall (fun c => isdigit c = true) (print_nat n).
Proof. apply dec_digits_isdigit. Qed.

Lemma print_nat_cons n : 0 <= n -> exists c s, print_nat n = c :: s /\ isdigit c = true.
Proof.
  intros Hn. pose proof (print_nat_digits n Hn) as Hd. unfold print_nat in *.
  destruct (dec_digits _ n) as [|c s] eqn:E; [|inversion Hd; subst; eauto].
  exfalso. cbn [dec_digits] in E. destruct (n <? 10); [done|]. by apply app_eq_nil in E as [_ ?].
Qed.

Definition not_digit_hd (s : bytes) : Prop :=
  match s with [] => True | c :: _ => digit_val c < 10 -> False end.

Lemma scan_stop v s : not_digit_hd s -> scan_digits 10 v s = (v, O).
Proof. destruct s as [|c s]; [done|]. cbn. intros H. by rewrite (proj2 (Z.ltb_ge _ _)) by lia. Qed.

Lemma strto_print_nat n s :
  0 <= n -> not_digit_hd s -> strto 10 (print_nat n ++ s) = (n, length (print_nat n)).
Proof.
  intros Hn Hs. destruct (print_nat_cons n Hn) as (c & t & Ec & Hc). unfold isdigit in Hc.
  reflect_bools. unfold strto. rewrite Ec. cbn [app spaces].
  assert (Hsp : isspace c = false).
  { unfold isspace. rewrite orb_false_iff, andb_false_iff, Z.eqb_neq, !Z.leb_gt. lia. }
  rewrite Hsp. cbn [drop]. assert (c <> 45 /\ c <> 43) as [H45 H43] by lia.
  replace (sign_of (c :: t ++ s)) with (false, O) by (unfold sign_of; case_tests; congruence).
  cbn [drop].
  replace (hex_prefix 10 (c :: t ++ s)) with O by (unfold hex_prefix; case_tests; done).
  cbn [drop]. change (c :: t ++ s) with ((c :: t) ++ s). rewrite <-Ec.
  rewrite scan_print_nat, scan_stop by done. rewrite Nat.add_0_r, Ec. cbn. done.
Qed.

Lemma strtoll_print_nat n s :
  0 <= n <= LLONG_MAX -> not_digit_hd s ->
  strtoll 10 (print_nat n ++ s) = (n, length (print_nat n), false).
Proof.
  intros Hn Hs. unfold strtoll. rewrite strto_print_nat by (done || lia).
  rewrite (proj2 (Z.ltb_ge LLONG_MAX n)), (proj2 (Z.ltb_ge n LLONG_MIN)) by (unfold LLONG_MIN; lia).
  done.
Qed.

(** A decimal, then anything that does not start with a digit, determines both. *)
Lemma print_nat_app_inj m n s t :
  0 <= m -> 0 <= n -> not_digit_hd s -> not_digit_hd t ->
  print_nat m ++ s = print_nat n ++ t -> m = n /\ s = t.
Proof.
  intros Hm Hn Hs Ht E. pose proof (strto_print_nat m s Hm Hs) as E1.
  rewrite E, strto_print_nat in E1 by done. injection E1 as -> ?. split; [done|].
  by apply app_inv_head in E.
Qed.

Lemma print_dec_app_inj m n s t :
  not_digit_hd s -> not_digit_hd t -> print_dec m ++ s = print_dec n ++ t -> m = n /\ s = t.
Proof.
  intros Hs Ht. unfold print_dec.
  assert (Hno : forall k r q, 0 <= k -> print_nat k ++ r = 45 :: q -> False).
  { intros k r q Hk E. destruct (print_nat_cons k Hk) as (c & u & Ec & Hc).
    rewrite Ec in E. injection E as -> _. done. }
  destruct (Z.ltb_spec m 0), (Z.ltb_spec n 0); cbn [app].
  - intros [= E]. destruct (print_nat_app_inj (- m) (- n) s t) as [? ->]; try done; lia || (split; [lia|done]).
  - intros E. exfalso. symmetry in E. by eapply Hno in E.
  - intros E. exfalso. by eapply Hno in E.
  - intros E. by apply print_nat_app_inj in E.
Qed.

(** ** Hex *)

Lemma hex_digit_val n : 0 <= n < 16 -> digit_val (hex_digit n) = n.
Proof.
  intros. unfold hex_digit. destruct (Z.ltb_spec n 10); [apply digit_val_digit; lia|].
  unfold digit_val. rewrite (proj2 (Z.leb_gt (87 + n) 57)), (proj2 (Z.leb_le 97 _)),
    (proj2 (Z.leb_le (87 + n) 122)) by lia. rewrite andb_false_r. cbn. lia.
Qed.

Lemma hex_digit_ne n c : 0 <= n < 16 -> digit_val c = 99 -> hex_digit n <> c.
Proof. intros Hn Hc E. rewrite <-E, hex_digit_val in Hc by done. lia. Qed.

Lemma length_hex_of l : length (hex_of l) = (2 * length l)%nat.
Proof. induction l; [done|]. cbn [hex_of flat_map app length] in *. unfold hex_of in IHl. lia. Qed.

Lemma length_dec_digits f n k :
  0 <= n < 10 ^ Z.of_nat (S k) -> (length (dec_digits f n) <= S k)%nat.
Proof.
  revert n k. induction f as [|f IH]; intros n k Hn; [cbn; lia|]. rewrite dec_digits_S.
  destruct (Z.ltb_spec n 10); [cbn; lia|]. rewrite length_app. cbn [length].
  destruct k as [|k]; [change (10 ^ Z.of_nat 1) with 10 in Hn; lia|].
  specialize (IH (n / 10) k). rewrite Nat2Z.inj_succ, Z.pow_succ_r in Hn by lia.
  enough (0 <= n / 10 < 10 ^ Z.of_nat (S k)) by (specialize (IH ltac:(done)); lia).
  split; [apply Z.div_pos; lia|apply Z.div_lt_upper_bound; lia].
Qed.

Lemma length_print_dec z k : - 10 ^ Z.of_nat (S k) < z < 10 ^ Z.of_nat (S k) ->
  (length (print_dec z) <= S (S k))%nat.
Proof.
  intros Hz. unfold print_dec, print_nat. destruct (Z.ltb_spec z 0); cbn [length].
  - pose proof (length_dec_digits (S (Z.to_nat (Z.log2 (- z)))) (- z) k). lia.
  - pose proof (length_dec_digits (S (Z.to_nat (Z.log2 z))) z k). lia.
Qed.

(** A minus sign and digits only. *)
Lemma print_dec_chars z c : c ∈ print_dec z -> c = 45 \/ isdigit c = true.
Proof.
  unfold print_dec. intros Hc.
  assert (Hn : forall n, 0 <= n -> c ∈ print_nat n -> isdigit c = true).
  { intros n Hn Hin. pose proof (print_nat_digits n Hn) as Hd.
    rewrite list.Forall_forall in Hd. by apply Hd. }
  destruct (Z.ltb_spec z 0); [|right; by eapply Hn].
  apply elem_of_cons in Hc as [->|Hc]; [by left|right]. eapply Hn; [|done]. lia.
Qed.
