(* ===== verification/VideoAuth.v ===== *)
(** * Publisher admission and viewer tokens (videoauth.cpp, videoauth.h)

    OpenSSL's SHA-256 and HMAC are parameters; connections.tdb is the [Tdb] interface,
    read through [conn_get_user].  [auth_step] runs one call of the class on a state,
    [auth_run] a history of them. *)

From S2P Require Import Prelude Tdb KeyDb ConnDb CStr.

Inductive video_admit_t :=
| VIDEO_ADMIT_OK
| VIDEO_ADMIT_NO_SESSION
| VIDEO_ADMIT_STALE_SESSION
| VIDEO_ADMIT_WRONG_IP
| VIDEO_ADMIT_UNAUTH
| VIDEO_ADMIT_BAD_PASSWORD
| VIDEO_ADMIT_SLOT_BUSY
| VIDEO_ADMIT_NO_CREDENTIAL
| VIDEO_ADMIT_MISSING_PASSWORD.

#[export] Instance video_admit_t_eq_dec : EqDecision video_admit_t.
Proof. solve_decision. Defined.

Definition VIDEO_AUTH_CACHE_S : Z := 2.

(** An all-zero key is the "unset" sentinel. *)
Definition key_set (stored : bytes) : bool := existsb (fun b => negb (b =? 0)) stored.

Definition is_nil {A} (l : list A) : bool := match l with [] => true | _ => false end.

Section auth.
Context {db : Type} `{Tdb db}.
Variable sha256 : bytes -> bytes.

Definition video_password_matches (stored candidate : bytes) : bool :=
  if negb (key_set stored) || is_nil candidate
     || match find_byte 0 candidate with Some _ => true | None => false end
  then false
  else bool_decide (sha256 candidate = stored).

(** ** The cached session *)

Record VideoAuth := {
  va_port2 : Z;
  have_ : bool;
  peer_ip_be_ : Z;
  authenticated_ : bool;
  seen_at_ : Z;
  fetched_at_ : Z
}.

#[local] Instance eta_VideoAuth : Eta VideoAuth := fun s =>
  Build_VideoAuth (va_port2 s) (have_ s) (peer_ip_be_ s) (authenticated_ s) (seen_at_ s)
    (fetched_at_ s).

Definition auth_init (port2 : Z) : VideoAuth := {|
  va_port2 := port2; have_ := false; peer_ip_be_ := 0; authenticated_ := false;
  seen_at_ := 0; fetched_at_ := 0
|}.

Implicit Types st : VideoAuth.

(** [rd] is what [conn_db_open] gives: the store, or failure. *)
Definition refresh st (rd : option db) (now : Z) : bool * VideoAuth :=
  match rd with
  | None => (false, st <| fetched_at_ := now |>)
  | Some h =>
    let '(ok, e) := conn_get_user h (va_port2 st) conn_zero in
    let st := if ok
              then st <| have_ := true |> <| peer_ip_be_ := peer_ip_be e |>
                      <| authenticated_ := negb (authenticated e =? 0) |> <| seen_at_ := now |>
              else st in
    (true, st <| fetched_at_ := now |>)
  end.

Definition grace_of (ke : KeyEntry) : Z :=
  if video_mav_grace_s ke =? 0 then VIDEO_MAV_GRACE_DEFAULT_S else video_mav_grace_s ke.

Definition check_session st (ke : KeyEntry) (peer_ip_be now : Z) : video_admit_t :=
  if negb (have_ st) then VIDEO_ADMIT_NO_SESSION
  else if negb (peer_ip_be_ st =? peer_ip_be) then VIDEO_ADMIT_WRONG_IP
  else if seen_at_ st + grace_of ke <? now then VIDEO_ADMIT_STALE_SESSION
  else if negb (Z.land (flags ke) KEY_FLAG_BIDI_SIGN =? 0) && negb (authenticated_ st)
       then VIDEO_ADMIT_UNAUTH
  else VIDEO_ADMIT_OK.

(** Path B: the verdict, the state, and how many times connections.tdb was opened.
    [rd1], [rd2] are what the two opens of the function would give. *)
Definition admit_session st (ke : KeyEntry) (peer_ip_be now : Z) (rd1 rd2 : option db)
  : video_admit_t * VideoAuth * Z :=
  let '(st, n) := if (fetched_at_ st =? 0) || (VIDEO_AUTH_CACHE_S <=? now - fetched_at_ st)
                  then ((refresh st rd1 now).2, 1) else (st, 0) in
  let r := check_session st ke peer_ip_be now in
  if bool_decide (r = VIDEO_ADMIT_OK) then (r, st, n)
  else if 0 <? now - fetched_at_ st
       then let '(ok, st) := refresh st rd2 now in
            (if ok then check_session st ke peer_ip_be now else r, st, n + 1)
       else (r, st, n).

Definition admit_publisher st (ke : KeyEntry) (peer_ip_be : Z) (password : option bytes)
    (credential_capable session_ok open_publish : bool) (now : Z) (rd1 rd2 : option db)
  : video_admit_t * VideoAuth * Z :=
  let have_pw := key_set (video_publish_key ke) in
  let path_b := if open_publish then (VIDEO_ADMIT_OK, st, 0)
                else admit_session st ke peer_ip_be now rd1 rd2 in
  if have_pw then
    match password with
    | Some pw =>
        (if video_password_matches (video_publish_key ke) pw
         then VIDEO_ADMIT_OK else VIDEO_ADMIT_BAD_PASSWORD, st, 0)
    | None =>
        if negb session_ok && negb open_publish
        then (if credential_capable then VIDEO_ADMIT_MISSING_PASSWORD
              else VIDEO_ADMIT_NO_CREDENTIAL, st, 0)
        else path_b
    end
  else path_b.

Definition invalidate st : VideoAuth := st <| fetched_at_ := 0 |>.
Definition observe st (rd : option db) (now : Z) : VideoAuth := (refresh st rd now).2.

(** ** Histories of calls *)

Inductive auth_event :=
| EvObserve (rd : option db) (now : Z)
| EvInvalidate
| EvAdmit (ke : KeyEntry) (peer_ip_be : Z) (password : option bytes)
    (credential_capable session_ok open_publish : bool) (now : Z) (rd1 rd2 : option db).

Definition auth_step st (ev : auth_event) : VideoAuth :=
  match ev with
  | EvObserve rd now => observe st rd now
  | EvInvalidate => invalidate st
  | EvAdmit ke ip pw cap so op now rd1 rd2 => (admit_publisher st ke ip pw cap so op now rd1 rd2).1.2
  end.

Definition auth_run (port2 : Z) (evs : list auth_event) : VideoAuth :=
  fold_left auth_step evs (auth_init port2).

(** The reads a call may make of the user's row, with their times. *)
Definition may_read (ev : auth_event) (rd : option db) (now : Z) : Prop :=
  match ev with
  | EvObserve rd0 now0 => rd0 = rd /\ now0 = now
  | EvInvalidate => False
  | EvAdmit _ _ _ _ _ _ now0 rd1 rd2 => (rd1 = rd \/ rd2 = rd) /\ now0 = now
  end.

(** [e] was the entry's user row when some call of the history read it at [t]. *)
Definition observed (port2 : Z) (evs : list auth_event) (t : Z) (e : ConnEntry) : Prop :=
  exists ev h, ev ∈ evs /\ may_read ev (Some h) t /\ conn_get_user h port2 conn_zero = (true, e).

(** ** Viewer tokens *)

Variable hmac : bytes -> bytes -> bytes.

Definition view_message (port2 slot expiry : Z) : bytes :=
  bs "video-view|" ++ print_dec port2 ++ [124] ++ print_dec slot ++ [124] ++ print_dec expiry.

(** [strtol(pair, &e2, 16)] over the 32 pairs; a pair not consumed whole is refused. *)
Fixpoint decode_mac (n : nat) (s : bytes) : option bytes :=
  match n with
  | O => Some []
  | S n =>
    let '(v, used, _) := strtoll 16 (take 2 s) in
    if (used =? 2)%nat
    then match decode_mac n (drop 2 s) with
         | Some l => Some (u8 v :: l)
         | None => None
         end
    else None
  end.

(** [token] is the C string's bytes; [None] the null pointer. *)
Definition video_token_valid (ke : KeyEntry) (port2 slot : Z) (token : option bytes) (now : Z) : bool :=
  match token with
  | None | Some [] => false
  | Some token =>
    match find_byte 46 token with
    | None => false
    | Some dot =>
      let '(expiry, endp, erange) := strtoll 10 token in
      if erange || negb (endp =? dot)%nat || (expiry <=? 0) then false
      else if expiry <? now then false
      else
        let mac_hex := drop (S dot) token in
        if negb (length mac_hex =? 64)%nat then false
        else
          let msg := view_message port2 slot expiry in
          if (len msg <=? 0) || (128 <=? len msg) then false
          else match decode_mac 32 mac_hex with
               | None => false
               | Some got => bool_decide (hmac (secret_key ke) msg = got)
               end
    end
  end.

(** What the web admin mints (webadmin/videotoken.py). *)
Definition mint_token (key : bytes) (port2 slot expiry : Z) : bytes :=
  print_dec expiry ++ [46] ++ hex_of (hmac key (view_message port2 slot expiry)).
End auth.

#[export] Existing Instance eta_VideoAuth.

(** ** What the state remembers *)

Section auth_props.
Context {db : Type} `{Tdb db}.
Variable sha256 : bytes -> bytes.

Abbreviation run := (auth_run (db := db) sha256).

Definition auth_inv (port2 : Z) (evs : list auth_event) (st : VideoAuth) : Prop :=
  va_port2 st = port2 /\
  (have_ st = true -> exists e, observed (db := db) port2 evs (seen_at_ st) e
     /\ peer_ip_be_ st = peer_ip_be e /\ authenticated_ st = negb (authenticated e =? 0)).

Lemma observed_mono port2 evs ev t e :
  observed (db := db) port2 evs t e -> observed port2 (evs ++ [ev]) t e.
Proof. intros (ev' & h & Hin & ? & ?). exists ev', h. split; [|done]. apply elem_of_app. by left. Qed.

Lemma auth_inv_mono port2 evs ev st : auth_inv port2 evs st -> auth_inv port2 (evs ++ [ev]) st.
Proof.
  intros [Hp Hh]. split; [done|]. intros Ht. destruct (Hh Ht) as (e & Ho & ?).
  exists e. split; [by apply observed_mono|done].
Qed.

Lemma refresh_inv port2 evs ev st rd now :
  may_read ev rd now -> ev ∈ evs -> auth_inv port2 evs st ->
  auth_inv port2 evs (refresh st rd now).2.
Proof.
  intros Hm Hin [Hp Hh]. unfold refresh. destruct rd as [h|]; [|by split].
  destruct (conn_get_user h (va_port2 st) conn_zero) as [ok e] eqn:E.
  destruct ok; [|by split]. split; [done|]. intros _. exists e.
  split; [|done]. exists ev, h. split; [done|]. split; [done|]. by rewrite <-Hp.
Qed.

(** The reads of one [admit_session], and the verdict in terms of the state it leaves. *)
Lemma admit_session_inv port2 evs ev st ke ip now rd1 rd2 :
  may_read ev rd1 now -> may_read ev rd2 now -> ev ∈ evs -> auth_inv port2 evs st ->
  auth_inv port2 evs (admit_session st ke ip now rd1 rd2).1.2.
Proof.
  intros H1 H2 Hin Hi. unfold admit_session.
  assert (Hr : auth_inv port2 evs (refresh st rd1 now).2) by (by eapply refresh_inv).
  destruct (_ || _)%bool; case_bool_decide; try done;
    (case_match; [|done]);
    match goal with |- context [refresh ?s rd2 now] =>
      pose proof (refresh_inv port2 evs ev s rd2 now H2 Hin ltac:(done)) as Hr2;
      destruct (refresh s rd2 now) as [ok st2] end; done.
Qed.

Lemma admit_inv port2 evs ev st ke ip pw cap so op now rd1 rd2 :
  may_read ev rd1 now -> may_read ev rd2 now -> ev ∈ evs -> auth_inv port2 evs st ->
  auth_inv port2 evs (admit_publisher sha256 st ke ip pw cap so op now rd1 rd2).1.2.
Proof.
  intros H1 H2 Hin Hi. unfold admit_publisher.
  assert (Hb : auth_inv port2 evs
    (if op then (VIDEO_ADMIT_OK, st, 0) else admit_session st ke ip now rd1 rd2).1.2)
    by (destruct op; [done|by eapply admit_session_inv]).
  destruct (key_set _); [|exact Hb]. destruct pw; [done|].
  destruct (negb so && negb op)%bool; [done|exact Hb].
Qed.

Lemma auth_run_inv port2 evs : auth_inv port2 evs (run port2 evs).
Proof.
  unfold auth_run. induction evs as [|ev evs IH] using rev_ind; [by split|].
  rewrite fold_left_app. cbn [fold_left].
  assert (Hin : ev ∈ evs ++ [ev]) by (apply elem_of_app; right; by left).
  apply (auth_inv_mono _ _ ev) in IH.
  destruct ev as [rd now| |ke ip pw cap so op now rd1 rd2]; cbn [auth_step].
  - unfold observe. eapply refresh_inv; [|exact Hin|exact IH]. done.
  - destruct IH as [Hp Hh]. by split.
  - eapply admit_inv; [| |exact Hin|exact IH]; cbn; auto.
Qed.

Lemma check_session_ok st ke ip now :
  check_session st ke ip now = VIDEO_ADMIT_OK ->
  have_ st = true /\ peer_ip_be_ st = ip /\ now <= seen_at_ st + grace_of ke
  /\ (Z.land (flags ke) KEY_FLAG_BIDI_SIGN <> 0 -> authenticated_ st = true).
Proof.
  unfold check_session.
  destruct (have_ st); [|done]. destruct (Z.eqb_spec (peer_ip_be_ st) ip); [|done].
  destruct (Z.ltb_spec (seen_at_ st + grace_of ke) now); [done|].
  destruct (Z.eqb_spec (Z.land (flags ke) KEY_FLAG_BIDI_SIGN) 0), (authenticated_ st); done.
Qed.

Lemma admit_session_ok st ke ip now rd1 rd2 st' n :
  admit_session st ke ip now rd1 rd2 = (VIDEO_ADMIT_OK, st', n) ->
  check_session st' ke ip now = VIDEO_ADMIT_OK.
Proof.
  unfold admit_session. intros E.
  destruct ((fetched_at_ st =? 0) || (VIDEO_AUTH_CACHE_S <=? now - fetched_at_ st))%bool;
    case_bool_decide as Hc; try (by injection E as <- <-);
    (destruct (0 <? now - _); [|by injection E as ? <- <-]);
    match goal with H : context [refresh ?s rd2 now] |- _ =>
      destruct (refresh s rd2 now) as [[] st2] eqn:Er end;
    injection E as E <- <-; try done.
Qed.

(** What an admission from a state the history accounts for rests on. *)
Lemma admit_reason port2 evs st ke ip pw cap so op now rd1 rd2 :
  let ev := EvAdmit ke ip pw cap so op now rd1 rd2 in
  auth_inv port2 evs st -> (admit_publisher sha256 st ke ip pw cap so op now rd1 rd2).1.1 = VIDEO_ADMIT_OK ->
  (exists p, pw = Some p /\ key_set (video_publish_key ke) = true
     /\ video_password_matches sha256 (video_publish_key ke) p = true)
  \/ (op = true /\ (pw = None \/ key_set (video_publish_key ke) = false))
  \/ ((pw = None /\ so = true \/ key_set (video_publish_key ke) = false)
      /\ exists t e, observed port2 (evs ++ [ev]) t e /\ peer_ip_be e = ip
           /\ now <= t + grace_of ke
           /\ (Z.land (flags ke) KEY_FLAG_BIDI_SIGN <> 0 -> authenticated e <> 0)).
Proof.
  cbv zeta. intros Hinv E. set (ev := EvAdmit ke ip pw cap so op now rd1 rd2).
  assert (Hs : (admit_session st ke ip now rd1 rd2).1.1 = VIDEO_ADMIT_OK ->
    exists t e, observed port2 (evs ++ [ev]) t e /\ peer_ip_be e = ip /\ now <= t + grace_of ke
      /\ (Z.land (flags ke) KEY_FLAG_BIDI_SIGN <> 0 -> authenticated e <> 0)).
  { clear E. assert (Hi : auth_inv port2 (evs ++ [ev]) (admit_session st ke ip now rd1 rd2).1.2).
    { apply (admit_session_inv _ _ ev); [cbn; auto|cbn; auto| |by apply auth_inv_mono].
      apply elem_of_app. right. by left. }
    destruct (admit_session st ke ip now rd1 rd2) as [[r1 st1] n1] eqn:Es. cbn [fst snd] in *. intros ->.
    apply admit_session_ok, check_session_ok in Es as (Hh & Hip & Hg & Hb).
    destruct Hi as [_ Hi]. destruct (Hi Hh) as (e & Ho & Hpe & Ha).
    exists (seen_at_ st1), e. split_and!; [done|congruence|done|].
    intros Hbidi E0. rewrite (Hb Hbidi), E0 in Ha. done. }
  unfold admit_publisher in E. destruct (key_set (video_publish_key ke)) eqn:Hkey.
  - destruct pw as [p|].
    + left. exists p. by destruct (video_password_matches _ _ p).
    + right. destruct op; [left; auto|right]. rewrite andb_true_r in E.
      destruct so; cbn [negb] in E; [split; [by left|by apply Hs]|]. by destruct cap.
  - right. destruct op; [left; auto|right]. split; [by right|by apply Hs].
Qed.

(** C20: Whatever calls were made before, a publisher is admitted only if it offered the
    publish password, or its slot is open to anyone, or some call of the history (this
    one included) read a user row for the entry from the publisher's own address no
    longer ago than the grace window; where the entry signs both ways
    ([KEY_FLAG_BIDI_SIGN]) that row was of a signature-validated session, elsewhere any
    live session will do. *)
Theorem admission_justified port2 evs ke ip pw cap so op now rd1 rd2 st' n :
  let ev := EvAdmit ke ip pw cap so op now rd1 rd2 in
  admit_publisher sha256 (run port2 evs) ke ip pw cap so op now rd1 rd2 = (VIDEO_ADMIT_OK, st', n) ->
  (exists p, pw = Some p /\ key_set (video_publish_key ke) = true
     /\ video_password_matches sha256 (video_publish_key ke) p = true)
  \/ (op = true /\ (pw = None \/ key_set (video_publish_key ke) = false))
  \/ ((pw = None /\ so = true \/ key_set (video_publish_key ke) = false)
      /\ exists t e, observed port2 (evs ++ [ev]) t e /\ peer_ip_be e = ip
           /\ now <= t + grace_of ke
           /\ (Z.land (flags ke) KEY_FLAG_BIDI_SIGN <> 0 -> authenticated e <> 0)).
Proof.
  cbn zeta. intros E. apply (admit_reason port2 evs (run port2 evs) ke ip pw cap so op now rd1 rd2); [apply auth_run_inv|by rewrite E].
Qed.

(** When a publish password is set, an offered credential decides alone: the right
    one is admitted and a wrong, empty or NUL-carrying one refused, even on a slot that
    would have admitted the publisher without any; and offering none is refused unless
    the slot says otherwise.  Neither outcome reads or changes the cached session. *)
Theorem publish_password_gate st ke ip pw cap so op now (rd1 rd2 : option db) :
  key_set (video_publish_key ke) = true ->
  match pw with
  | Some p =>
      admit_publisher sha256 st ke ip pw cap so op now rd1 rd2
      = (if decide (sha256 p = video_publish_key ke /\ p <> [] /\ ~ 0 ∈ p)
         then VIDEO_ADMIT_OK else VIDEO_ADMIT_BAD_PASSWORD, st, 0)
  | None => so = false -> op = false ->
      admit_publisher sha256 st ke ip pw cap so op now rd1 rd2
      = (if cap then VIDEO_ADMIT_MISSING_PASSWORD else VIDEO_ADMIT_NO_CREDENTIAL, st, 0)
  end.
Proof.
  intros Hk. destruct pw as [p|].
  - unfold admit_publisher. rewrite Hk. do 2 f_equal. unfold video_password_matches. rewrite Hk. cbn [negb orb].
    destruct p as [|c p]; cbn [is_nil orb].
    { rewrite decide_False; [done|]. by intros (_ & ? & _). }
    destruct (find_byte 0 (c :: p)) eqn:Ef.
    + rewrite decide_False; [done|]. intros (_ & _ & Hn). apply find_byte_None in Hn. congruence.
    + apply find_byte_None in Ef. case_bool_decide; [by rewrite decide_True|].
      rewrite decide_False; [done|]. by intros [? _].
  - intros -> ->. unfold admit_publisher. by rewrite Hk.
Qed.

(** ** How often the store is opened *)

(** The opens made by a run of admissions. *)
Fixpoint admit_opens (st : VideoAuth) (calls : list (auth_event (db := db))) : Z :=
  match calls with
  | EvAdmit ke ip pw cap so op now rd1 rd2 :: calls =>
      let '(_, st, n) := admit_publisher sha256 st ke ip pw cap so op now rd1 rd2 in
      n + admit_opens st calls
  | _ => 0
  end.

Definition admit_at (now : Z) (ev : auth_event (db := db)) : Prop :=
  match ev with EvAdmit _ _ _ _ _ _ now' _ _ => now' = now | _ => False end.

Lemma refresh_fetched st (rd : option db) now : fetched_at_ (refresh st rd now).2 = now.
Proof. unfold refresh. destruct rd; [|done]. by destruct (conn_get_user _ _ _). Qed.

Lemma admit_fresh st ke ip pw cap so op now rd1 rd2 :
  fetched_at_ st = now -> 0 < now ->
  (admit_publisher sha256 st ke ip pw cap so op now rd1 rd2).2 = 0
  /\ fetched_at_ (admit_publisher sha256 st ke ip pw cap so op now rd1 rd2).1.2 = now.
Proof.
  intros Hf Hn.
  assert (Hs : (admit_session st ke ip now rd1 rd2).2 = 0
               /\ fetched_at_ (admit_session st ke ip now rd1 rd2).1.2 = now).
  { unfold admit_session. rewrite Hf, Z.sub_diag, (proj2 (Z.eqb_neq now 0)) by lia.
    change (VIDEO_AUTH_CACHE_S <=? 0) with false. cbn [orb].
    rewrite Hf, Z.sub_diag. change (0 <? 0) with false. by case_bool_decide. }
  unfold admit_publisher. destruct op, (key_set _), pw, so; cbn; auto.
Qed.

Lemma admit_opens_one st ke ip pw cap so op now rd1 rd2 :
  0 < now ->
  (admit_publisher sha256 st ke ip pw cap so op now rd1 rd2).2 = 0
    /\ fetched_at_ (admit_publisher sha256 st ke ip pw cap so op now rd1 rd2).1.2 = fetched_at_ st
  \/ (admit_publisher sha256 st ke ip pw cap so op now rd1 rd2).2 = 1
    /\ fetched_at_ (admit_publisher sha256 st ke ip pw cap so op now rd1 rd2).1.2 = now.
Proof.
  intros Hn.
  assert (Hs : (admit_session st ke ip now rd1 rd2).2 = 0
      /\ fetched_at_ (admit_session st ke ip now rd1 rd2).1.2 = fetched_at_ st
    \/ (admit_session st ke ip now rd1 rd2).2 = 1
      /\ fetched_at_ (admit_session st ke ip now rd1 rd2).1.2 = now).
  { unfold admit_session. destruct (_ || _)%bool.
    - rewrite refresh_fetched, Z.sub_diag. change (0 <? 0) with false. right.
      case_bool_decide; cbn; by rewrite refresh_fetched.
    - case_bool_decide; [by left|]. destruct (0 <? now - fetched_at_ st); [|by left].
      right. pose proof (refresh_fetched st rd2 now). by destruct (refresh st rd2 now). }
  unfold admit_publisher. destruct op, (key_set _), pw, so; cbn; auto.
Qed.

(** However many publishers knock within one second, connections.tdb is opened at most
    once for all of them. *)
Theorem admit_opens_bounded st calls now :
  0 < now -> Forall (admit_at now) calls -> admit_opens st calls <= 1.
Proof.
  intros Hn Hc.
  assert (Hfresh : forall calls st, fetched_at_ st = now -> Forall (admit_at now) calls ->
                   admit_opens st calls = 0).
  { clear calls st Hc. induction calls as [|ev calls IH]; intros st Hf Hc; [done|].
    apply Forall_cons_iff in Hc as [Hev Hc]. destruct ev as [| |ke ip pw cap so op now' rd1 rd2]; try done. cbn in Hev. subst now'.
    cbn [admit_opens]. pose proof (admit_fresh st ke ip pw cap so op now rd1 rd2 Hf Hn) as [E1 E2].
    destruct (admit_publisher sha256 st _ _ _ _ _ _ _ _ _) as [[r st1] n]. cbn in *. rewrite IH by done. lia. }
  revert st. induction calls as [|ev calls IH]; intros st; [cbn; lia|].
  apply Forall_cons_iff in Hc as [Hev Hc]. destruct ev as [| |ke ip pw cap so op now' rd1 rd2]; try done. cbn in Hev. subst now'.
  cbn [admit_opens]. pose proof (admit_opens_one st ke ip pw cap so op now rd1 rd2 Hn) as Hone.
  destruct (admit_publisher sha256 st _ _ _ _ _ _ _ _ _) as [[r st1] n]. cbn in Hone.
  destruct Hone as [[-> _]|[-> Hf]].
  - specialize (IH Hc st1). lia.
  - rewrite (Hfresh calls st1) by done. lia.
Qed.
End auth_props.

(** ** Viewer tokens *)

Lemma hex_pairs :
  forallb (fun b => bool_decide (strtoll 16 [hex_digit (b / 16); hex_digit (b mod 16)]
                                 = (b, 2%nat, false))) (seqZ 0 256) = true.
Proof. by vm_compute. Qed.

Lemma strtoll_hex_pair b :
  is_byte b -> strtoll 16 [hex_digit (b / 16); hex_digit (b mod 16)] = (b, 2%nat, false).
Proof.
  intros Hb. pose proof hex_pairs as H. rewrite forallb_forall in H.
  assert (Hin : In b (seqZ 0 256)) by (apply list_elem_of_In, elem_of_seqZ; unfold is_byte in Hb; lia).
  specialize (H b Hin). by apply bool_decide_eq_true_1 in H.
Qed.

Lemma decode_mac_hex m : bytes_ok m -> decode_mac (length m) (hex_of m) = Some m.
Proof.
  induction 1 as [|b m Hb Hm IH]; [done|]. unfold hex_of in *.
  cbn [length decode_mac flat_map app take drop]. rewrite firstn_O, drop_0.
  rewrite strtoll_hex_pair by done.
  change ((2 =? 2)%nat) with true. cbv iota. rewrite IH. do 2 f_equal.
  apply wrap_small. exact Hb.
Qed.

Lemma decode_mac_length n s l : decode_mac n s = Some l -> length l = n.
Proof.
  revert s l. induction n as [|n IH]; intros s l; cbn [decode_mac]; [by intros [= <-]|].
  destruct (strtoll 16 (take 2 s)) as [[v used] e]. destruct (used =? 2)%nat; [|done].
  destruct (decode_mac n (drop 2 s)) eqn:E; [|done]. intros [= <-]. cbn. f_equal. by eapply IH.
Qed.

(** The fields of the signed message cannot be traded against each other. *)
Lemma view_message_inj p s x p' s' x' :
  view_message p s x = view_message p' s' x' -> p = p' /\ s = s' /\ x = x'.
Proof.
  unfold view_message. intros E%app_inv_head. cbn [app] in E.
  apply print_dec_app_inj in E as [-> E]; [|cbn; lia|cbn; lia].
  injection E as E. apply print_dec_app_inj in E as [-> E]; [|cbn; lia|cbn; lia].
  injection E as E. rewrite <-(app_nil_r (print_dec x)), <-(app_nil_r (print_dec x')) in E.
  by apply print_dec_app_inj in E as [-> _].
Qed.

Lemma view_message_len p s x :
  is_i32 p -> is_i32 s -> 0 <= x <= LLONG_MAX -> 0 < len (view_message p s x) < 128.
Proof.
  unfold is_i32, LLONG_MAX. intros Hp Hs Hx. unfold view_message. rewrite !length_app.
  pose proof (length_print_dec p 9). pose proof (length_print_dec s 9).
  pose proof (length_print_dec x 18). change (length (bs "video-view|")) with 11%nat.
  cbn [length] in *. lia.
Qed.

Section tokens.
Variable hmac : bytes -> bytes -> bytes.
Hypothesis hmac_len : forall k m, length (hmac k m) = 32%nat.
Hypothesis hmac_bytes : forall k m, bytes_ok (hmac k m).

(** A token the web admin mints is accepted exactly until it expires, and by another
    entry, port or slot only if HMAC maps two messages that differ (the signed text
    determines port, slot and expiry) to one MAC. *)
Theorem minted_token_valid ke port2 slot key port2' slot' expiry now :
  is_i32 port2 -> is_i32 slot -> 0 < expiry <= LLONG_MAX ->
  (video_token_valid hmac ke port2 slot (Some (mint_token hmac key port2' slot' expiry)) now = true
   <-> now <= expiry
       /\ hmac (secret_key ke) (view_message port2 slot expiry)
          = hmac key (view_message port2' slot' expiry))
  /\ (view_message port2 slot expiry = view_message port2' slot' expiry ->
      port2 = port2' /\ slot = slot').
Proof.
  intros Hp Hs Hx. split; [|by intros (-> & -> & _)%view_message_inj].
  unfold mint_token. set (mac := hmac key _).
  unfold print_dec. rewrite (proj2 (Z.ltb_ge expiry 0)) by lia.
  destruct (print_nat_cons expiry ltac:(lia)) as (c & t & Ec & Hc).
  unfold video_token_valid. rewrite Ec. cbn [app]. change (c :: t ++ ?r) with ((c :: t) ++ r).
  rewrite <-Ec.
  rewrite find_byte_app.
  2:{ intros Hin. pose proof (print_nat_digits expiry ltac:(lia)) as Hd.
      rewrite list.Forall_forall in Hd. by specialize (Hd _ Hin). }
  rewrite strtoll_print_nat by (cbn; lia). rewrite Nat.eqb_refl. cbn [negb orb].
  rewrite (proj2 (Z.leb_gt expiry 0)) by lia.
  destruct (Z.ltb_spec expiry now); [split; [done|lia]|].
  replace (drop (S (length (print_nat expiry))) (print_nat expiry ++ 46 :: hex_of mac)) with (hex_of mac).
  2:{ change (46 :: hex_of mac) with ([46] ++ hex_of mac). rewrite app_assoc, drop_app_length'; [done|].
      rewrite length_app. cbn. lia. }
  assert (Hmac : length mac = 32%nat) by apply hmac_len.
  rewrite length_hex_of, Hmac. change (negb (2 * 32 =? 64)%nat) with false. cbv iota.
  pose proof (view_message_len port2 slot expiry Hp Hs ltac:(lia)).
  rewrite (proj2 (Z.leb_gt _ 0)), (proj2 (Z.leb_gt 128 _)) by lia. cbn [orb].
  rewrite <-Hmac, decode_mac_hex by apply hmac_bytes. rewrite bool_decide_eq_true. naive_solver.
Qed.
End tokens.

(** C27: Any accepted token, however it was made, names an expiry that has not passed and
    carries after its dot 64 characters that decode to the entry's HMAC of exactly the
    asking port, slot and that expiry. *)
Theorem token_valid_sound hmac ke port2 slot token now :
  video_token_valid hmac ke port2 slot (Some token) now = true ->
  exists pre mac expiry, token = pre ++ 46 :: mac /\ ~ 46 ∈ pre
    /\ strtoll 10 token = (expiry, length pre, false) /\ 0 < expiry /\ now <= expiry
    /\ length mac = 64%nat
    /\ decode_mac 32 mac = Some (hmac (secret_key ke) (view_message port2 slot expiry)).
Proof.
  unfold video_token_valid. destruct token as [|c token0]; [done|]. set (token := c :: token0).
  destruct (find_byte 46 token) as [dot|] eqn:Ed; [|done].
  destruct (strtoll 10 token) as [[expiry endp] er] eqn:Es.
  destruct (er || negb (endp =? dot)%nat || (expiry <=? 0))%bool eqn:Eg; [done|].
  apply orb_false_iff in Eg as [Eg Ex]. apply orb_false_iff in Eg as [-> Edot].
  reflect_bools. apply Nat.eqb_eq in Edot. subst endp.
  destruct (Z.ltb_spec expiry now); [done|].
  destruct (length (drop (S dot) token) =? 64)%nat eqn:El; [|done]. apply Nat.eqb_eq in El. cbn [negb].
  destruct ((len (view_message port2 slot expiry) <=? 0) || _)%bool; [done|].
  destruct (decode_mac 32 _) as [got|] eqn:Eg; [|done]. intros Hh%bool_decide_eq_true.
  destruct (find_byte_Some _ _ _ Ed) as (Et & Hn & Hl).
  exists (take dot token), (drop (S dot) token), expiry.
  split; [done|]. split; [done|]. split; [by rewrite length_take, Nat.min_l by lia|].
  split; [lia|]. split; [done|]. split; [done|]. by rewrite Eg, Hh.
Qed.

(** ** Witnesses, with concrete functions for the hash and the MAC *)

Definition demo_hash (m : bytes) : bytes := le_bytes 32 (1 + le_val m).
Definition demo_hmac (k m : bytes) : bytes := demo_hash (k ++ m).

Definition demo_entry (pub : bytes) : KeyEntry :=
  sample_key <| video_publish_key := pub |> <| flags := KEY_FLAG_BIDI_SIGN |>
             <| video_mav_grace_s := 0 |>.

Definition demo_user : ConnEntry :=
  sample_row 0 0 <| peer_ip_be := 0x0100007f |> <| authenticated := 1 |>.

Definition demo_conns : mapdb := conn_write_ignore ∅ demo_user.

(** The user's session was seen at 1000; the publisher knocks at 1050, the row gone. *)
Lemma admission_justified_witness :
  exists st n,
    admit_publisher demo_hash (auth_run demo_hash 14550 [EvObserve (Some demo_conns) 1000])
      (demo_entry (replicate 32 0)) 0x0100007f None true false false 1050 (Some (∅ : mapdb)) None
    = (VIDEO_ADMIT_OK, st, n)
    /\ exists t e, observed 14550 [EvObserve (Some demo_conns) 1000;
           EvAdmit (demo_entry (replicate 32 0)) 0x0100007f None true false false 1050 (Some ∅) None] t e
         /\ 1050 <= t + 60.
Proof.
  destruct (admit_publisher demo_hash (auth_run demo_hash 14550 [EvObserve (Some demo_conns) 1000])
    (demo_entry (replicate 32 0)) 0x0100007f None true false false 1050 (Some (∅ : mapdb)) None)
    as [[r st] n] eqn:E.
  assert (Er : r = VIDEO_ADMIT_OK).
  { transitivity (admit_publisher demo_hash (auth_run demo_hash 14550 [EvObserve (Some demo_conns) 1000])
      (demo_entry (replicate 32 0)) 0x0100007f None true false false 1050 (Some (∅ : mapdb)) None).1.1;
      [by rewrite E|by vm_compute]. }
  subst r. exists st, n. split; [reflexivity|].
  destruct (admission_justified demo_hash 14550 [EvObserve (Some demo_conns) 1000] _ _ _ _ _ _ _ _ _ _ _ E)
    as [(p & [=] & _)|[[[=] _]|[_ (t & e & Ho & _ & Hg & _)]]].
  exists t, e. split; [exact Ho|]. exact Hg.
Defined.

Lemma publish_password_gate_witness :
  admit_publisher demo_hash (auth_init 14550) (demo_entry (demo_hash (bs "fly"))) 1 (Some (bs "fly"))
    true false false 5 (None : option mapdb) None
  = (VIDEO_ADMIT_OK, auth_init 14550, 0).
Proof.
  pose proof (publish_password_gate demo_hash (auth_init 14550)
    (demo_entry (demo_hash (bs "fly"))) 1 (Some (bs "fly")) true false false 5 (None : option mapdb) None) as W.
  rewrite W by (by vm_compute). rewrite decide_True; [done|].
  split; [done|]. split; [done|]. apply find_byte_None. by vm_compute.
Defined.

Lemma admit_opens_bounded_witness :
  let knock := EvAdmit (demo_entry (replicate 32 0)) 7 None true false false 1050
                 (Some demo_conns) (Some demo_conns) in
  admit_opens demo_hash (auth_init 14550) [knock; knock; knock] <= 1
  /\ admit_opens demo_hash (auth_init 14550) [knock; knock; knock] = 1.
Proof.
  split; [|by vm_compute].
  apply (admit_opens_bounded demo_hash _ _ 1050); [done|by repeat constructor].
Defined.

Lemma minted_token_valid_witness :
  video_token_valid demo_hmac sample_key 14550 2
    (Some (mint_token demo_hmac (secret_key sample_key) 14550 2 1700000060)) 1700000000 = true.
Proof.
  apply (minted_token_valid demo_hmac (fun k m => length_le_bytes 32 _)
    (fun k m => le_bytes_ok 32 _) sample_key 14550 2 (secret_key sample_key) 14550 2 1700000060
    1700000000); [by decide_vm|by decide_vm|done|]. split; [done|reflexivity].
Defined.

Lemma token_valid_sound_witness :
  exists pre mac expiry,
    mint_token demo_hmac (secret_key sample_key) 14550 2 1700000060 = pre ++ 46 :: mac
    /\ decode_mac 32 mac = Some (demo_hmac (secret_key sample_key) (view_message 14550 2 expiry)).
Proof.
  destruct (token_valid_sound demo_hmac sample_key 14550 2
    (mint_token demo_hmac (secret_key sample_key) 14550 2 1700000060) 1700000000)
    as (pre & mac & x & E & _ & _ & _ & _ & _ & Hm); [by vm_compute|].
  exists pre, mac, x. split; [exact E|exact Hm].
Defined.

(** [strtol] skips spaces and takes a sign, so one MAC has several spellings: a byte below
    16 may be written [" 5"] or ["+5"] as well as ["05"]. *)
Lemma mac_pair_spellings :
  decode_mac 1 (bs " 5") = Some [5] /\ decode_mac 1 (bs "+5") = Some [5]
  /\ decode_mac 1 (bs "-5") = Some [251] /\ decode_mac 1 (bs "05") = Some [5].
Proof. by vm_compute. Qed.
