(* ===== verification/HttpReq.v ===== *)
(** * HTTP request parsing for the video port (httpreq.cpp, httpreq.h)

    [feed]/[parse] on the request's buffer, the header and query lookups, percent
    decoding, credential redaction and the canned response.  OpenSSL's base64 filter is
    a parameter. *)

From S2P Require Import Prelude CStr.

Definition HTTP_MAX_REQUEST : Z := 8192.
Definition CRLF2 : bytes := [13; 10; 13; 10].
Definition LF2 : bytes := [10; 10].

Record HttpRequest := {
  buf_ : bytes;
  method_ : bytes;
  target_ : bytes;
  path_ : bytes;
  query_ : bytes;
  headers_ : bytes;
  leftover_ : bytes
}.

#[export] Instance eta_HttpRequest : Eta HttpRequest := fun r =>
  Build_HttpRequest (buf_ r) (method_ r) (target_ r) (path_ r) (query_ r) (headers_ r)
    (leftover_ r).

Definition http_init : HttpRequest := Build_HttpRequest [] [] [] [] [] [] [].

Definition is_empty (s : bytes) : bool := match s with [] => true | _ => false end.

(** The end of the header block and the length of its separator. *)
Definition header_end (buf : bytes) : option (nat * nat) :=
  match find_sub CRLF2 buf with
  | Some e => Some (e, 4%nat)
  | None => match find_sub LF2 buf with
            | Some e => Some (e, 2%nat)
            | None => None
            end
  end.

(** [target_] split at the first [?]. *)
Definition split_target (r : HttpRequest) : HttpRequest :=
  match find_byte 63 (target_ r) with
  | None => r <| path_ := target_ r |> <| query_ := ([] : bytes) |>
  | Some q => r <| path_ := take q (target_ r) |> <| query_ := drop (S q) (target_ r) |>
  end.

Definition parse_line (r : HttpRequest) (line : bytes) : bool * HttpRequest :=
  match find_byte 32 line with
  | None => (false, r)
  | Some sp1 =>
    match find_byte 32 (drop (S sp1) line) with
    | None => (false, r)
    | Some sp2 =>
      let r := r <| method_ := take sp1 line |> <| target_ := take sp2 (drop (S sp1) line) |> in
      let r := split_target r in
      (negb (is_empty (method_ r)) && negb (is_empty (path_ r)), r)
    end
  end.

Definition parse_head (r : HttpRequest) (head : bytes) : bool * HttpRequest :=
  match find_byte 10 head with
  | None => (false, r)
  | Some line_end =>
    let line := chop_cr (take line_end head) in
    parse_line (r <| headers_ := drop (S line_end) head |>) line
  end.

Definition parse (r : HttpRequest) : bool * HttpRequest :=
  match header_end (buf_ r) with
  | None => (false, r)
  | Some (hdr_end, sep) =>
    parse_head (r <| leftover_ := drop (hdr_end + sep) (buf_ r) |>) (take hdr_end (buf_ r))
  end.

(** 1: complete; 0: feed more; -1: malformed or too large. *)
Definition feed (r : HttpRequest) (chunk : bytes) : Z * HttpRequest :=
  if HTTP_MAX_REQUEST <? len (buf_ r) + len chunk then (-1, r)
  else
    let r := r <| buf_ := buf_ r ++ chunk |> in
    match find_sub CRLF2 (buf_ r), find_sub LF2 (buf_ r) with
    | None, None => (0, r)
    | _, _ => let '(ok, r) := parse r in (if ok then 1 else -1, r)
    end.

(** ** Headers *)

Definition is_blank (c : Z) : bool := (c =? 32) || (c =? 9).

Fixpoint drop_blanks (s : bytes) : bytes :=
  match s with
  | c :: s' => if is_blank c then drop_blanks s' else s
  | [] => []
  end.

Definition chop_blanks (s : bytes) : bytes := reverse (drop_blanks (reverse s)).

(** From the first to the last byte that is not blank. *)
Definition trim (s : bytes) : bytes := chop_blanks (drop_blanks s).

Fixpoint header_in (want : bytes) (ls : list bytes) : bytes :=
  match ls with
  | [] => []
  | l :: ls =>
    let line := chop_cr l in
    if starts_with want (lower line) then trim (drop (length want) line)
    else header_in want ls
  end.

Definition header (r : HttpRequest) (name : bytes) : bytes :=
  header_in (lower name ++ [58]) (lines (headers_ r)).

Definition counts_as (want l : bytes) : bool :=
  let line := chop_cr l in
  match find_byte 58 line with
  | None => false
  | Some colon =>
    let field := take colon line in
    let field := match chop_blanks field with [] => field | f => f end in
    bool_decide (lower field = want)
  end.

Definition header_count (r : HttpRequest) (name : bytes) : Z :=
  len (base.filter (fun l => counts_as (lower name) l = true) (lines (headers_ r))).

(** ** Query parameters *)

Fixpoint http_url_decode (s : bytes) : bytes :=
  match s with
  | [] => []
  | 43 :: s => 32 :: http_url_decode s
  | 37 :: ((a :: b :: s') as s) =>
      if isxdigit a && isxdigit b
      then u8 (strto 16 [a; b]).1 :: http_url_decode s'
      else 37 :: http_url_decode s
  | c :: s => c :: http_url_decode s
  end.

Fixpoint query_in (want : bytes) (kvs : list bytes) : option bytes :=
  match kvs with
  | [] => None
  | kv :: kvs =>
    match find_byte 61 kv with
    | Some eq => if bool_decide (take eq kv = want) then Some (http_url_decode (drop (S eq) kv))
                 else query_in want kvs
    | None => query_in want kvs
    end
  end.

(** [None] is [false] (with [value] cleared). *)
Definition http_query_value (target name : bytes) : option bytes :=
  match find_byte 63 target with
  | None => None
  | Some q => query_in name (split_on 38 (drop (S q) target))
  end.

Definition query (r : HttpRequest) (name : bytes) : bytes :=
  default [] (http_query_value (target_ r) name).

(** ** Credentials *)

Definition secret_keys : list bytes := [bs "pw"; bs "password"; bs "t"; bs "key"].

Definition redact_kv (kv : bytes) : bytes :=
  match find_byte 61 kv with
  | None => kv
  | Some eq =>
    let k := take eq kv in
    k ++ [61] ++ (if bool_decide (k ∈ secret_keys) then bs "<redacted>" else drop (S eq) kv)
  end.

Definition http_redact_target (target : bytes) : bytes :=
  match find_byte 63 target with
  | None => target
  | Some q => take (S q) target ++ join_with 38 (map redact_kv (split_on 38 (drop (S q) target)))
  end.

(** [b64_read] is a read through OpenSSL's base64 filter: the decoded bytes. *)
Definition http_basic_password (b64_read : bytes -> bytes) (authorization : bytes) : bytes :=
  let prefix := bs "Basic " in
  if (length authorization <=? length prefix)%nat
     || negb (starts_with (lower prefix) (lower authorization))
  then []
  else
    let out := b64_read (drop (length prefix) authorization) in
    match find_byte 58 out with
    | None => []
    | Some colon => drop (S colon) out
    end.

Definition crlf : bytes := [13; 10].

Definition http_simple_response (code : Z) (reason content_type text : bytes) : bytes :=
  let head := bs "HTTP/1.1 " ++ print_dec code ++ [32] ++ reason ++ crlf
    ++ bs "Content-Type: " ++ content_type ++ crlf
    ++ bs "Content-Length: " ++ print_dec (len text) ++ crlf
    ++ bs "Cache-Control: no-store" ++ crlf
    ++ bs "Connection: close" ++ crlf ++ crlf in
  take 511 head ++ text.

(** ** Feeding *)

Lemma buf_parse r : buf_ (parse r).2 = buf_ r.
Proof.
  unfold parse, parse_head, parse_line, split_target. destruct (header_end _) as [[]|]; [|done].
  repeat (case_match; cbn [snd buf_] in *; try done); by simplify_eq.
Qed.

(** The buffer never outgrows the limit, whatever arrives. *)
Lemma feed_bounded r c : len (buf_ r) <= HTTP_MAX_REQUEST -> len (buf_ (feed r c).2) <= HTTP_MAX_REQUEST.
Proof.
  intros Hb. unfold feed. destruct (Z.ltb_spec HTTP_MAX_REQUEST (len (buf_ r) + len c)); [done|].
  cbv zeta. pose proof (buf_parse (r <| buf_ := buf_ r ++ c |>)) as Hp.
  destruct (parse _) as [ok r2]. cbn [snd buf_] in *.
  repeat case_match; cbn [snd buf_]; rewrite ?Hp, ?length_app; lia.
Qed.

(** Everything but the buffer and what follows the head. *)
Definition same_request (r r' : HttpRequest) : Prop :=
  method_ r = method_ r' /\ target_ r = target_ r' /\ path_ r = path_ r'
  /\ query_ r = query_ r' /\ headers_ r = headers_ r'.

Lemma parse_head_same r1 r2 head :
  same_request r1 r2 ->
  (parse_head r1 head).1 = (parse_head r2 head).1
  /\ same_request (parse_head r1 head).2 (parse_head r2 head).2
  /\ leftover_ (parse_head r1 head).2 = leftover_ r1.
Proof.
  intros (Hm & Ht & Hp & Hq & Hh). unfold parse_head, parse_line, split_target, same_request.
  destruct (find_byte 10 head); [|done].
  destruct (find_byte 32 (chop_cr _)); [|done].
  destruct (find_byte 32 (drop _ (chop_cr _))); [|done].
  cbn [target_]. destruct (find_byte 63 _); done.
Qed.

Lemma header_end_take s e k :
  find_sub CRLF2 s = Some e -> (e + 4 <= k)%nat -> header_end (take k s) = Some (e, 4%nat).
Proof.
  intros E Hk. unfold header_end.
  destruct (find_sub_Some _ _ _ E) as (E1 & Hl & Hf). change (length CRLF2) with 4%nat in *.
  rewrite (find_sub_first CRLF2 (take k s) e); [done| | |].
  - rewrite skipn_firstn_comm, E1, drop_app_length' by (rewrite length_take; lia).
    rewrite take_app_ge by (change (length CRLF2) with 4%nat; lia). apply starts_with_app.
  - rewrite length_take. lia.
  - intros j Hj. specialize (Hf j Hj). rewrite skipn_firstn_comm.
    rewrite <-(take_drop (k - j) (drop j s)) in Hf. rewrite starts_with_ext in Hf; [done|].
    rewrite length_take, length_drop. change (length CRLF2) with 4%nat. lia.
Qed.

Lemma find_sub_take_None pat s k :
  (forall j, (j + length pat <= k)%nat -> (j + length pat <= length s)%nat ->
     starts_with pat (drop j s) = false) -> pat <> [] -> find_sub pat (take k s) = None.
Proof.
  intros Hf Hp. apply find_sub_None. intros j Hj.
  destruct (starts_with pat (drop j (take k s))) eqn:E; [|done]. exfalso.
  pose proof (starts_with_len _ _ E) as Hl. rewrite length_drop, length_take in Hl.
  assert (length pat <> O) by (destruct pat; [done|cbn; lia]).
  assert (Hs : starts_with pat (drop j s) = true); [|rewrite Hf in Hs; [done|lia|lia]].
  rewrite skipn_firstn_comm in E. rewrite <-(take_drop (k - j) (drop j s)).
  by apply starts_with_app_l.
Qed.

Lemma feed_incomplete s e k r c :
  find_sub CRLF2 s = Some e -> find_sub LF2 (take (e + 3) s) = None ->
  buf_ r ++ c = take k s -> (k < e + 4)%nat -> len (take k s) <= HTTP_MAX_REQUEST ->
  feed r c = (0, r <| buf_ := take k s |>).
Proof.
  intros E Elf Eb Hk Hmax. unfold feed.
  rewrite <-Nat2Z.inj_add, <-length_app, Eb, (proj2 (Z.ltb_ge _ _)) by lia.
  cbn zeta. cbn [buf_].
  destruct (find_sub_Some _ _ _ E) as (_ & Hl & Hf). change (length CRLF2) with 4%nat in *.
  rewrite find_sub_take_None; [|intros; apply Hf; change (length CRLF2) with 4%nat in *; lia|done].
  rewrite find_sub_take_None; [done| |done].
  intros j Hj _. change (length LF2) with 2%nat in *.
  rewrite find_sub_None in Elf. specialize (Elf j ltac:(rewrite length_take; lia)).
  rewrite skipn_firstn_comm in Elf. rewrite <-(take_drop (e + 3 - j) (drop j s)).
  rewrite starts_with_ext; [done|]. change (length LF2) with 2%nat.
  rewrite length_take, length_drop. lia.
Qed.

Lemma feed_complete s e k r c :
  find_sub CRLF2 s = Some e -> buf_ r ++ c = take k s -> (e + 4 <= k)%nat ->
  len (take k s) <= HTTP_MAX_REQUEST ->
  let p := parse_head (r <| buf_ := take k s |> <| leftover_ := drop (e + 4) (take k s) |>) (take e s) in
  feed r c = (if p.1 then 1 else -1, p.2).
Proof.
  intros E Eb Hk Hmax. unfold feed.
  rewrite <-Nat2Z.inj_add, <-length_app, Eb, (proj2 (Z.ltb_ge _ _)) by lia.
  cbn zeta. cbn [buf_]. unfold parse. cbn [buf_].
  pose proof (header_end_take s e k E Hk) as He. rewrite He. unfold header_end in He.
  rewrite take_take, Nat.min_l by lia.
  destruct (find_sub CRLF2 (take k s)), (find_sub LF2 (take k s)); try done;
    by destruct (parse_head _ _).
Qed.

(** Feed chunks until a request is complete or refused; the chunks not consumed. *)
Fixpoint feed_all (r : HttpRequest) (cs : list bytes) : Z * HttpRequest * list bytes :=
  match cs with
  | [] => (0, r, [])
  | c :: cs => let '(x, r) := feed r c in if x =? 0 then feed_all r cs else (x, r, cs)
  end.

(** How a request is split into reads does not matter: every way of cutting the same
    bytes gives the verdict and the method, target, path, query and headers that parsing
    the whole gives, and what follows the request is all still there, in the leftover or
    unread.  (The request has no bare blank line before its CRLF one.) *)
Theorem feed_chunking_irrelevant (s : bytes) (e : nat) (cs : list bytes) :
  concat cs = s -> len s <= HTTP_MAX_REQUEST ->
  find_sub CRLF2 s = Some e -> find_sub LF2 (take (e + 3) s) = None ->
  let whole := parse_head (http_init <| leftover_ := drop (e + 4) s |>) (take e s) in
  let '(x, r, rest) := feed_all http_init cs in
  x = (if whole.1 then 1 else -1) /\ same_request r whole.2
  /\ leftover_ r ++ concat rest = leftover_ whole.2.
Proof.
  intros Es Hmax E Elf. cbn zeta.
  destruct (find_sub_Some _ _ _ E) as (_ & Hl & _). change (length CRLF2) with 4%nat in Hl.
  enough (G : forall cs r k, take k s ++ concat cs = s -> (k <= length s)%nat -> (k < e + 4)%nat ->
    r = http_init <| buf_ := take k s |> ->
    let '(x, r, rest) := feed_all r cs in
    let whole := parse_head (http_init <| leftover_ := drop (e + 4) s |>) (take e s) in
    x = (if whole.1 then 1 else -1) /\ same_request r whole.2
    /\ leftover_ r ++ concat rest = leftover_ whole.2)
    by (apply (G cs http_init O); [done|lia|lia|done]).
  clear cs Es. induction cs as [|c cs IH]; intros r k Es Hk He ->.
  { cbn [concat] in Es. rewrite app_nil_r in Es. apply (f_equal length) in Es.
    rewrite length_take in Es. lia. }
  cbn [feed_all concat] in *. rewrite app_assoc in Es.
  assert (Ek : take k s ++ c = take (k + length c) s).
  { rewrite <-Es at 2. rewrite take_app_length'; [done|]. rewrite length_app, length_take. lia. }
  assert (Hk' : (k + length c <= length s)%nat).
  { apply (f_equal length) in Es. rewrite !length_app, length_take in Es. lia. }
  assert (Hmax' : len (take (k + length c) s) <= HTTP_MAX_REQUEST) by (rewrite length_take; lia).
  destruct (decide (k + length c < e + 4)%nat).
  - rewrite (feed_incomplete s e (k + length c)) by done. cbn [Z.eqb].
    apply (IH _ (k + length c)%nat); [by rewrite <-Ek|done|done|done].
  - rewrite (feed_complete s e (k + length c)) by (done || lia). cbv zeta.
    match goal with |- context [parse_head ?a (take e s)] => set (r0 := a) end.
    destruct (parse_head_same r0 (http_init <| leftover_ := drop (e + 4) s |>) (take e s))
      as (H1 & H2 & H3); [done|].
    destruct (parse_head_same (http_init <| leftover_ := drop (e + 4) s |>) r0 (take e s))
      as (_ & _ & H4); [done|].
    replace ((if (parse_head r0 (take e s)).1 then 1 else -1) =? 0) with false
      by (by destruct (parse_head r0 _).1).
    split; [by rewrite H1|]. split; [done|]. rewrite H3, H4. cbn [leftover_ r0].
    unfold r0. cbn [leftover_].
    transitivity (drop (e + 4) (take (k + length c) s ++ concat cs)).
    + rewrite drop_app_le; [done|]. rewrite length_take. lia.
    + by rewrite <-Ek, Es.
Qed.

(** ** Request line and headers *)

Definition header_line (h : bytes * bytes) : bytes := h.1 ++ [58; 32] ++ h.2.

(** Header lines as they stand in a head: separated by CRLF, the last one bare. *)
Fixpoint header_block (hs : list (bytes * bytes)) : bytes :=
  match hs with
  | [] => []
  | [h] => header_line h
  | h :: hs => header_line h ++ crlf ++ header_block hs
  end.

Record header_ok (h : bytes * bytes) : Prop := {
  hok_colon : ~ 58 ∈ h.1;
  hok_eol : ~ 10 ∈ h.1 ++ h.2 /\ ~ 13 ∈ h.1 ++ h.2;
  hok_name : h.1 <> [] /\ chop_blanks h.1 = h.1;
  hok_value : trim h.2 = h.2
}.

(** The headers' values under a name, whatever its case. *)
Definition values_of (name : bytes) (hs : list (bytes * bytes)) : list bytes :=
  map snd (base.filter (fun h => lower h.1 = lower name) hs).

Lemma colon_lower c s : c ∈ lower s -> c < 65 \/ 122 < c -> c ∈ s.
Proof.
  unfold lower. intros (x & -> & Hx)%list_elem_of_fmap Hc. unfold tolower in *.
  destruct ((65 <=? x) && (x <=? 90))%bool eqn:E; [|done]. reflect_bools. lia.
Qed.

Lemma starts_with_sep c a b s :
  ~ c ∈ a -> ~ c ∈ b -> starts_with (a ++ [c]) (b ++ c :: s) = bool_decide (a = b).
Proof.
  revert b. induction a as [|x a IH]; intros b Ha Hb; destruct b as [|y b]; cbn [app starts_with].
  - by rewrite Z.eqb_refl.
  - apply not_elem_of_cons in Hb as [? _]. by rewrite (proj2 (Z.eqb_neq c y)) by congruence.
  - apply not_elem_of_cons in Ha as [? _]. by rewrite (proj2 (Z.eqb_neq x c)) by congruence.
  - apply not_elem_of_cons in Ha as [_ Ha]. apply not_elem_of_cons in Hb as [_ Hb]. rewrite IH by done.
    destruct (Z.eqb_spec x y) as [->|]; cbn [andb].
    + apply bool_decide_ext. split; congruence.
    + symmetry. apply bool_decide_eq_false_2. congruence.
Qed.

Lemma in_header_line c h : c <> 58 -> c <> 32 -> ~ c ∈ h.1 ++ h.2 -> ~ c ∈ header_line h.
Proof. unfold header_line. rewrite !elem_of_app, !elem_of_cons, elem_of_nil. naive_solver. Qed.

Lemma lines_block hs :
  Forall header_ok hs ->
  map chop_cr (lines (header_block hs)) = map header_line hs.
Proof.
  induction 1 as [|h hs Hh Hhs IH]; [done|]. destruct Hh as [Hc [H10 H13] _ _].
  assert (Hno10 : ~ 10 ∈ header_line h) by (by apply in_header_line).
  assert (Hno13 : ~ 13 ∈ header_line h) by (by apply in_header_line).
  destruct hs as [|h2 hs].
  - cbn [header_block map]. rewrite lines_last; [cbn; by rewrite chop_cr_id| |done].
    unfold header_line. destruct h as [[|? ?] ?]; done.
  - change (header_block (h :: h2 :: hs)) with (header_line h ++ crlf ++ header_block (h2 :: hs)).
    change (crlf ++ ?x) with ([13] ++ 10 :: x). rewrite app_assoc, lines_app.
    + cbn [map]. rewrite chop_cr_snoc. by f_equal.
    + rewrite elem_of_app, list_elem_of_singleton. naive_solver.
Qed.

Lemma header_in_lines name hs ls :
  ~ 58 ∈ name -> Forall header_ok hs -> map chop_cr ls = map header_line hs ->
  header_in (lower name ++ [58]) ls = default [] (head (values_of name hs)).
Proof.
  intros Hn Hall. revert ls. induction Hall as [|h hs Hh Hhs IH]; intros ls E.
  - by destruct ls.
  - destruct ls as [|l ls]; [done|]. cbn [map] in E. injection E as El E.
    cbn [header_in]. rewrite El. destruct Hh as [Hc _ _ Hv].
    unfold header_line, lower at 2. rewrite map_app. cbn [map app].
    change (tolower 58) with 58. change (tolower 32) with 32.
    fold (lower h.1). fold (lower h.2).
    rewrite starts_with_sep by (intros Hin; apply colon_lower in Hin; [done|lia]).
    unfold values_of. rewrite filter_cons. case_bool_decide as Hd.
    + rewrite decide_True by done. cbn [map head default].
      replace (drop _ _) with (32 :: h.2); [exact Hv|].
      change (h.1 ++ 58 :: 32 :: h.2) with (h.1 ++ ([58] ++ 32 :: h.2)). rewrite app_assoc.
      rewrite drop_app_length'; [done|]. rewrite !length_app, length_lower. cbn.
      apply (f_equal length) in Hd. rewrite !length_lower in Hd. lia.
    + rewrite decide_False by congruence. by apply IH.
Qed.

Lemma header_count_lines name hs ls :
  Forall header_ok hs -> map chop_cr ls = map header_line hs ->
  len (base.filter (fun l => counts_as (lower name) l = true) ls) = len (values_of name hs).
Proof.
  intros Hall. revert ls. induction Hall as [|h hs Hh Hhs IH]; intros ls E.
  - by destruct ls.
  - destruct ls as [|l ls]; [done|]. cbn [map] in E. injection E as El E. specialize (IH ls E).
    destruct Hh as [Hc _ [Hne Hb] _].
    assert (Hcount : counts_as (lower name) l = bool_decide (lower h.1 = lower name)).
    { unfold counts_as. rewrite El. unfold header_line. cbn [app].
      rewrite find_byte_app, take_app_length, Hb by done. by destruct h.1. }
    unfold values_of in *. rewrite !filter_cons, Hcount. case_bool_decide.
    + rewrite !decide_True by done. cbn [map length]. lia.
    + rewrite !decide_False by (done || congruence). exact IH.
Qed.

Lemma drop_snoc_app (a : bytes) c s : drop (S (length a)) (a ++ c :: s) = s.
Proof.
  rewrite (cons_middle c a), app_assoc, drop_app_length'; [done|]. rewrite length_app. cbn. lia.
Qed.

Lemma parse_line_render r m t v :
  ~ 32 ∈ m -> ~ 32 ∈ t ->
  parse_line r (m ++ 32 :: t ++ 32 :: v) =
    let r' := split_target (r <| method_ := m |> <| target_ := t |>) in
    (negb (is_empty (method_ r')) && negb (is_empty (path_ r')), r').
Proof.
  intros Hm Ht. unfold parse_line. by rewrite find_byte_app, drop_snoc_app, find_byte_app,
    !take_app_length by done.
Qed.

(** Parsing the head of a request gives back the method, the target split at its
    first question mark, and for every header name, in any case, the value of its first
    occurrence and the number of its occurrences. *)
Theorem parse_head_inverts r0 m t hs :
  m <> [] -> ~ 32 ∈ m -> ~ 32 ∈ t -> ~ 10 ∈ m ++ t -> Forall header_ok hs ->
  (exists c t', t = c :: t' /\ c <> 63) ->
  let '(ok, r) := parse_head r0 (m ++ 32 :: t ++ bs " HTTP/1.1" ++ crlf ++ header_block hs) in
  ok = true /\ method_ r = m /\ target_ r = t
  /\ path_ r = (match find_byte 63 t with Some q => take q t | None => t end)
  /\ query_ r = (match find_byte 63 t with Some q => drop (S q) t | None => [] end)
  /\ forall name, ~ 58 ∈ name ->
       header r name = default [] (head (values_of name hs))
       /\ header_count r name = len (values_of name hs).
Proof.
  intros Hm Hms Hts Hnl Hhs (c & t' & Ht & Hc). unfold parse_head.
  assert (Hline : ~ 10 ∈ (m ++ 32 :: t ++ bs " HTTP/1.1") ++ [13]).
  { rewrite elem_of_app in Hnl. rewrite !elem_of_app, elem_of_cons, !elem_of_app.
    assert (~ 10 ∈ bs " HTTP/1.1") by (by apply find_byte_None). rewrite list_elem_of_singleton. naive_solver. }
  replace (m ++ 32 :: t ++ bs " HTTP/1.1" ++ crlf ++ header_block hs)
    with (((m ++ 32 :: t ++ bs " HTTP/1.1") ++ [13]) ++ 10 :: header_block hs)
    by (unfold crlf; rewrite <-!app_assoc; cbn; rewrite <-!app_assoc; done).
  rewrite find_byte_app, take_app_length, chop_cr_snoc by done.
  change (bs " HTTP/1.1") with (32 :: bs "HTTP/1.1"). rewrite drop_snoc_app, parse_line_render by done.
  cbv zeta.
  assert (Hh : forall r, headers_ r = header_block hs -> forall name, ~ 58 ∈ name ->
    header r name = default [] (head (values_of name hs))
    /\ header_count r name = len (values_of name hs)).
  { intros r Hr name Hname. unfold header, header_count. rewrite Hr.
    pose proof (lines_block hs Hhs) as Hl.
    split; [by apply header_in_lines|by apply header_count_lines]. }
  unfold split_target. cbn [target_]. subst t.
  destruct (find_byte 63 (c :: t')) as [q|] eqn:Eq; cbn [method_ path_ target_ query_].
  - split; [|split_and!; try done; by apply Hh].
    destruct m; [done|]. cbn in Eq. rewrite (proj2 (Z.eqb_neq c 63)) in Eq by done.
    destruct (find_byte 63 t'); [|done]. by injection Eq as <-.
  - split; [|split_and!; try done; by apply Hh]. by destruct m.
Qed.

(** ** Query parameters *)

Lemma decode_plain c s : c <> 43 -> c <> 37 -> http_url_decode (c :: s) = c :: http_url_decode s.
Proof. intros. cbn [http_url_decode]. case_tests; congruence. Qed.

Lemma decode_hex a b s :
  isxdigit a = true -> isxdigit b = true ->
  http_url_decode (37 :: a :: b :: s) = u8 (strto 16 [a; b]).1 :: http_url_decode s.
Proof. intros Ha Hb. cbn [http_url_decode]. by rewrite Ha, Hb. Qed.

(** What a client sends: letters and digits as they are, the rest percent-encoded. *)
Definition encode_byte (b : Z) : bytes :=
  if isdigit b || ((97 <=? b) && (b <=? 122)) || ((65 <=? b) && (b <=? 90)) then [b]
  else [37; hex_digit (b / 16); hex_digit (b mod 16)].
Definition url_encode (s : bytes) : bytes := flat_map encode_byte s.

Definition encodes (b : Z) : bool :=
  match encode_byte b with
  | [c] => (c =? b) && negb (b =? 43) && negb (b =? 37) && negb (b =? 38)
  | [p; x; y] => (p =? 37) && isxdigit x && isxdigit y && (u8 (strto 16 [x; y]).1 =? b)
                 && negb (x =? 38) && negb (y =? 38)
  | _ => false
  end.

Lemma encodes_all : forallb encodes (seqZ 0 256) = true.
Proof. by vm_compute. Qed.

Lemma encodes_byte b : is_byte b -> encodes b = true.
Proof.
  intros Hb. pose proof encodes_all as H. rewrite forallb_forall in H. apply H.
  apply list_elem_of_In, elem_of_seqZ. unfold is_byte in Hb. lia.
Qed.

Lemma decode_encode s : bytes_ok s -> http_url_decode (url_encode s) = s.
Proof.
  unfold url_encode. induction 1 as [|b s Hb Hs IH]; [done|]. cbn [flat_map].
  apply encodes_byte in Hb. unfold encodes in Hb.
  destruct (encode_byte b) as [|x [|y [|z [|? ?]]]]; try done; reflect_bools; subst; cbn [app].
  - rewrite decode_plain by done. by f_equal.
  - rewrite decode_hex by done. f_equal; exact IH.
Qed.

Lemma encode_no_amp s : bytes_ok s -> ~ 38 ∈ url_encode s.
Proof.
  unfold url_encode. induction 1 as [|b s Hb Hs IH]; [apply not_elem_of_nil|]. cbn [flat_map].
  rewrite elem_of_app. intros [Hin|Hin]; [|done].
  apply encodes_byte in Hb. unfold encodes in Hb.
  destruct (encode_byte b) as [|x [|y [|z [|? ?]]]]; try done; reflect_bools; subst;
    rewrite ?elem_of_cons, ?elem_of_nil in Hin; naive_solver.
Qed.

Definition param (kv : bytes * bytes) : bytes := kv.1 ++ 61 :: url_encode kv.2.
Definition param_ok (kv : bytes * bytes) : Prop :=
  ~ 61 ∈ kv.1 /\ ~ 38 ∈ kv.1 /\ bytes_ok kv.2.

Lemma query_in_params name kvs :
  Forall param_ok kvs ->
  query_in name (map param kvs) = snd <$> head (base.filter (fun kv => kv.1 = name) kvs).
Proof.
  induction 1 as [|[k v] kvs (Hk & _ & Hv) _ IH]; [done|]. cbn [map query_in]. change (param (k, v)) with (k ++ 61 :: url_encode v).
  cbn [fst snd] in *. rewrite find_byte_app, take_app_length, drop_snoc_app, decode_encode by done.
  rewrite filter_cons. cbn [fst]. case_bool_decide; [by rewrite decide_True|by rewrite decide_False].
Qed.

(** A query parameter's lookup undoes the client's encoding and takes the first
    value given under that name: later duplicates and other parameters cannot change or
    erase it, and an absent name is told apart from an empty value. *)
Theorem query_lookup path kvs name :
  ~ 63 ∈ path -> Forall param_ok kvs ->
  http_query_value (path ++ 63 :: join_with 38 (map param kvs)) name
  = snd <$> head (base.filter (fun kv => kv.1 = name) kvs).
Proof.
  intros Hp Hk. unfold http_query_value. rewrite find_byte_app, drop_snoc_app by done.
  destruct kvs as [|kv kvs]; [done|]. rewrite <-query_in_params by done. f_equal.
  cbn [map]. apply split_on_join. apply Forall_cons_iff.
  assert (Hone : forall kv, param_ok kv -> ~ 38 ∈ param kv).
  { intros [k v] (_ & Ha & Hv). unfold param. cbn [fst snd] in *.
    rewrite elem_of_app, elem_of_cons. pose proof (encode_no_amp v Hv). naive_solver. }
  apply Forall_cons_iff in Hk as [H1 H2]. split; [by apply Hone|].
  apply Forall_map. eapply List.Forall_impl; [|exact H2]. exact Hone.
Qed.

(** ** Redaction *)

(** Two query pieces an observer of the log must not tell apart. *)
Definition same_but_secret (a b : bytes) : Prop :=
  a = b \/ exists k va vb, k ∈ secret_keys /\ a = k ++ 61 :: va /\ b = k ++ 61 :: vb.

Lemma secret_no_eq k : k ∈ secret_keys -> ~ 61 ∈ k /\ ~ 38 ∈ k.
Proof.
  intros Hk. assert (Hall : Forall (fun k => ~ 61 ∈ k /\ ~ 38 ∈ k) secret_keys) by decide_vm.
  rewrite list.Forall_forall in Hall. by apply Hall.
Qed.

Lemma redact_kv_secret k v : k ∈ secret_keys -> redact_kv (k ++ 61 :: v) = k ++ 61 :: bs "<redacted>".
Proof.
  intros Hk. unfold redact_kv. rewrite find_byte_app by (by apply secret_no_eq).
  rewrite take_app_length. by rewrite bool_decide_eq_true_2.
Qed.

Lemma redact_kv_amp kv : ~ 38 ∈ kv -> ~ 38 ∈ redact_kv kv.
Proof.
  intros Hk. unfold redact_kv. destruct (find_byte 61 kv) as [eq|] eqn:E; [|done].
  destruct (find_byte_Some _ _ _ E) as (Ekv & _ & _). rewrite Ekv in Hk.
  rewrite elem_of_app, elem_of_cons in Hk.
  assert (~ 38 ∈ bs "<redacted>") by (by apply find_byte_None).
  rewrite !elem_of_app, list_elem_of_singleton. case_bool_decide; naive_solver.
Qed.

Lemma query_in_redacted name kvs :
  ~ name ∈ secret_keys -> query_in name (map redact_kv kvs) = query_in name kvs.
Proof.
  intros Hn. induction kvs as [|kv kvs IH]; [done|]. cbn [map query_in].
  destruct (find_byte 61 kv) as [eq|] eqn:E.
  - destruct (find_byte_Some _ _ _ E) as (_ & Hno & _).
    assert (Er : redact_kv kv = take eq kv ++ 61 :: (if bool_decide (take eq kv ∈ secret_keys)
      then bs "<redacted>" else drop (S eq) kv)) by (unfold redact_kv; by rewrite E).
    rewrite Er, find_byte_app, take_app_length, drop_snoc_app, IH by done.
    destruct (decide (take eq kv = name)) as [Ek|Ek].
    + by rewrite (bool_decide_eq_false_2 (_ ∈ secret_keys)) by congruence.
    + by rewrite !(bool_decide_eq_false_2 (take eq kv = name)).
  - unfold redact_kv at 1. by rewrite E, E.
Qed.

(** What is logged for a request does not depend on the values of its credential
    parameters: two targets whose queries differ only in those redact to the same text;
    and every other parameter can still be read from it. *)
Theorem redaction_hides_secrets path a b kvs1 kvs2 :
  ~ 63 ∈ path -> Forall (fun kv => ~ 38 ∈ kv) (a :: kvs1) -> Forall (fun kv => ~ 38 ∈ kv) (b :: kvs2) ->
  Forall2 same_but_secret (a :: kvs1) (b :: kvs2) ->
  let t1 := path ++ 63 :: join_with 38 (a :: kvs1) in
  let t2 := path ++ 63 :: join_with 38 (b :: kvs2) in
  http_redact_target t1 = http_redact_target t2
  /\ forall name, ~ name ∈ secret_keys ->
       http_query_value (http_redact_target t1) name = http_query_value t1 name.
Proof.
  intros Hp H1 H2 Hs. cbn zeta.
  assert (Hred : forall x xs, Forall (fun kv => ~ 38 ∈ kv) (x :: xs) ->
    http_redact_target (path ++ 63 :: join_with 38 (x :: xs))
    = path ++ 63 :: join_with 38 (map redact_kv (x :: xs))).
  { intros x xs Hx. unfold http_redact_target. rewrite find_byte_app, drop_snoc_app, split_on_join by done.
    rewrite (cons_middle 63 path), app_assoc, take_app_length' by (rewrite length_app; cbn; lia).
    by rewrite <-app_assoc. }
  rewrite !Hred by done. split.
  - do 3 f_equal. clear -Hs. induction Hs as [|x y xs ys Hxy _ IH]; [done|]. cbn [map]. f_equal; [|done].
    destruct Hxy as [->|(k & va & vb & Hk & -> & ->)]; [done|]. by rewrite !redact_kv_secret.
  - intros name Hn. unfold http_query_value. rewrite !find_byte_app, !drop_snoc_app by done.
    rewrite (split_on_join 38 a kvs1) by done. cbn [map]. rewrite split_on_join.
    + apply (query_in_redacted name (a :: kvs1) Hn).
    + change (redact_kv a :: map redact_kv kvs1) with (map redact_kv (a :: kvs1)).
      apply Forall_map. eapply List.Forall_impl; [|exact H1]. apply redact_kv_amp.
Qed.

(** ** Witnesses *)

Definition sample_request : bytes :=
  bs "GET /slot1?t=abc&x=%20y HTTP/1.1" ++ crlf ++ bs "Host: a" ++ crlf
  ++ bs "HOST: b" ++ CRLF2 ++ bs "body".

Lemma feed_chunking_irrelevant_witness :
  let '(x, r, rest) := feed_all http_init [take 5 sample_request; drop 5 sample_request] in
  x = 1 /\ method_ r = bs "GET" /\ path_ r = bs "/slot1" /\ leftover_ r ++ concat rest = bs "body".
Proof.
  pose proof (feed_chunking_irrelevant sample_request 50 [take 5 sample_request; drop 5 sample_request]
    ltac:(by vm_compute) ltac:(by vm_compute) ltac:(by vm_compute) ltac:(by vm_compute)) as W.
  destruct (feed_all http_init _) as [[x r] rest].
  destruct W as (-> & (-> & _ & -> & _ & _) & ->). by vm_compute.
Defined.

Definition sample_headers : list (bytes * bytes) := [(bs "Host", bs "a"); (bs "Cookie", bs "c=1")].

Lemma sample_headers_ok : Forall header_ok sample_headers.
Proof. repeat constructor; decide_vm. Qed.

Lemma parse_head_inverts_witness :
  let '(ok, r) := parse_head http_init
    (bs "GET" ++ 32 :: bs "/s?a=1" ++ bs " HTTP/1.1" ++ crlf ++ header_block sample_headers) in
  ok = true /\ path_ r = bs "/s" /\ header r (bs "COOKIE") = bs "c=1".
Proof.
  pose proof (parse_head_inverts http_init (bs "GET") (bs "/s?a=1") sample_headers
    ltac:(done) ltac:(by apply find_byte_None) ltac:(by apply find_byte_None)
    ltac:(by apply find_byte_None) sample_headers_ok
    ltac:(by exists 47, (bs "s?a=1"))) as W.
  destruct (parse_head _ _) as [ok r]. destruct W as (-> & _ & _ & -> & _ & Hh).
  split; [reflexivity|]. split; [by vm_compute|].
  destruct (Hh (bs "COOKIE")) as [-> _]; [by apply find_byte_None|by vm_compute].
Defined.

Lemma query_lookup_witness :
  http_query_value (bs "/v" ++ 63 :: join_with 38 (map param
    [(bs "pw", bs "a b"); (bs "pw", bs "x")])) (bs "pw") = Some (bs "a b").
Proof.
  rewrite (query_lookup (bs "/v") [(bs "pw", bs "a b"); (bs "pw", bs "x")] (bs "pw"));
    [done|by apply find_byte_None|].
  repeat (apply Forall_cons_2); try apply Forall_nil_2;
    (split; [by apply find_byte_None|split; [by apply find_byte_None|decide_vm]]).
Defined.

Lemma redaction_hides_secrets_witness :
  http_redact_target (bs "/v" ++ 63 :: join_with 38 [bs "a=1"; bs "pw=hunter2"])
  = http_redact_target (bs "/v" ++ 63 :: join_with 38 [bs "a=1"; bs "pw=swordfish"]).
Proof.
  apply (redaction_hides_secrets (bs "/v") (bs "a=1") (bs "a=1") [bs "pw=hunter2"] [bs "pw=swordfish"]).
  - by apply find_byte_None.
  - decide_vm.
  - decide_vm.
  - constructor; [by left|]. constructor; [|constructor]. right.
    exists (bs "pw"), (bs "hunter2"), (bs "swordfish"). split; [by left|done].
Defined.

(** [header] wants the colon right after the name, [header_count] does not: one line may
    count as an occurrence whose value cannot be read. *)
Lemma header_and_count_disagree r :
  headers_ r = bs "Transfer-Encoding : chunked" ->
  header r (bs "Transfer-Encoding") = [] /\ header_count r (bs "Transfer-Encoding") = 1.
Proof. intros E. unfold header, header_count. rewrite E. by vm_compute. Qed.

(** A request line followed at once by the blank line -- no header at all -- is refused. *)
Lemma request_without_headers_refused :
  (feed http_init (bs "GET /stream HTTP/1.0" ++ CRLF2)).1 = -1.
Proof. by vm_compute. Qed.
