(* ===== verification/WebSocket.v ===== *)
(** * Server side of a WebSocket connection (websocket.cpp, websocket.h)

    The socket and OpenSSL are the environment: a read is an [rd_out], the results of
    the coming writes a list [outs] in the state (when it runs out the socket is full),
    and [wire] records what has been handed to it.  SHA-1 and base64 are parameters.
    [queued] is the history of framed output, for stating what the wire carries. *)

From S2P Require Import Prelude CStr.

Definition ws_prefix : bytes := bs "GET ".
Definition wss_prefix : bytes := [0x16; 0x03; 0x01].

Definition WS_OP_CONT : Z := 0x0.
Definition WS_OP_TEXT : Z := 0x1.
Definition WS_OP_BIN : Z := 0x2.
Definition WS_OP_CLOSE : Z := 0x8.
Definition WS_OP_PING : Z := 0x9.
Definition WS_OP_PONG : Z := 0xA.
Definition WS_READ_CHUNK : nat := Z.to_nat 16384.
Definition WS_DEFAULT_MAX_MESSAGE : Z := 256 * 1024.
Definition WS_MAX_TX_QUEUE : Z := 1024 * 1024.

(** ** Telling WebSocket, TLS and raw MAVLink apart *)

Inductive ws_detect_t := WS_NO | WS_YES | WS_MORE.

(** [stream]: what the socket holds; the peek sees at most 8 bytes of it. *)
Definition detect (stream : bytes) : ws_detect_t :=
  let peekbuf := take 8 stream in
  let n := length peekbuf in
  match n with
  | O => WS_MORE
  | _ =>
    let wss_cmp := Nat.min n (length wss_prefix) in
    if bool_decide (take wss_cmp wss_prefix = take wss_cmp peekbuf)
    then if (length wss_prefix <=? n)%nat then WS_YES else WS_MORE
    else
      let ws_cmp := Nat.min n (length ws_prefix) in
      if bool_decide (take ws_cmp ws_prefix = take ws_cmp peekbuf)
      then if (length ws_prefix <=? n)%nat then WS_YES else WS_MORE
      else WS_NO
  end.

(** ** The connection *)

(** One write's result: bytes taken (at most those offered), would-block, or failure. *)
Inductive wr_out := Wrote (n : nat) | WrAgain | WrFailed.
(** One read's result; [RdEof] covers TLS's orderly shutdown too. *)
Inductive rd_out := RdData (b : bytes) | RdAgain | RdEof | RdFailed.
(** [SSL_accept]. *)
Inductive acc_out := AccDone | AccAgain | AccFailed.

Record WebSocket := {
  fd_open : bool;                (* fd >= 0 *)
  is_SSL : bool;                 (* _is_SSL *)
  has_ssl : bool;                (* ssl is not null *)
  SSL_handshake_complete : bool;
  done_headers : bool;
  sent_close : bool;
  max_message : Z;
  rx : bytes;
  msg : bytes;
  msg_taken : nat;
  in_fragment : bool;
  tx : bytes;
  tx_sent : nat;
  tls_tx : bytes;
  req_target : bytes;
  handshake_buf : bytes;         (* its first handshake_len bytes *)
  handshake_sent : nat;
  outs : list wr_out;
  wire : bytes;
  queued : bytes
}.

#[export] Instance eta_WebSocket : Eta WebSocket := fun w =>
  Build_WebSocket (fd_open w) (is_SSL w) (has_ssl w) (SSL_handshake_complete w) (done_headers w)
    (sent_close w) (max_message w) (rx w) (msg w) (msg_taken w) (in_fragment w) (tx w)
    (tx_sent w) (tls_tx w) (req_target w) (handshake_buf w) (handshake_sent w) (outs w)
    (wire w) (queued w).

Implicit Types w : WebSocket.

Definition set_fd_closed w : WebSocket := w <| fd_open := false |>.
Definition set_rx w (b : bytes) : WebSocket := w <| rx := b |>.

(** ** Output *)

(** FIN, the opcode and the length in its shortest form; server frames are not masked. *)
Definition frame_header (opcode n : Z) : bytes :=
  u8 (Z.lor 0x80 opcode) ::
  (if n <=? 125 then [u8 n]
   else if n <=? 65535 then 126 :: be_bytes 2 n
   else 127 :: be_bytes 8 n).

Definition drop_flushed w : WebSocket :=
  if (0 <? tx_sent w)%nat && (tx_sent w =? length (tx w))%nat
  then w <| tx := ([] : bytes) |> <| tx_sent := O |> else w.

Definition append_tx w (b : bytes) : WebSocket :=
  w <| tx := tx w ++ b |> <| queued := queued w ++ b |>.

Definition queue_frame w (opcode : Z) (data : bytes) : WebSocket :=
  append_tx (drop_flushed w) (frame_header opcode (len data) ++ data).

Definition pending w : bytes := drop (tx_sent w) (tx w).

Definition set_outs w (os : list wr_out) : WebSocket := w <| outs := os |>.

(** The next write's result. *)
Definition next_out w : wr_out * WebSocket :=
  match outs w with
  | [] => (WrAgain, w)
  | o :: os => (o, set_outs w os)
  end.

Definition over_tls w : bool := is_SSL w && has_ssl w.

(** What the write offers: over TLS, one record kept until it is taken. *)
Definition load_record w : WebSocket :=
  if over_tls w && match tls_tx w with [] => true | _ => false end
  then w <| tls_tx := take WS_READ_CHUNK (pending w) |> else w.
Definition offered w : bytes := if over_tls w then tls_tx w else pending w.

Definition wrote w (n : nat) : WebSocket :=
  w <| wire := wire w ++ take n (offered w) |> <| tls_tx := ([] : bytes) |>
    <| tx_sent := (tx_sent w + Nat.min n (length (offered w)))%nat |>.

Definition tx_done w : WebSocket := w <| tx := ([] : bytes) |> <| tx_sent := O |>.

(** The write loop: one turn per result in [outs], and one that finds the socket full. *)
Fixpoint flush_loop (fuel : nat) w : bool * WebSocket :=
  if (tx_sent w <? length (tx w))%nat then
    match fuel with
    | O => (true, w)
    | S fuel =>
      let '(o, w) := next_out (load_record w) in
      match o with
      | WrAgain => (true, w)
      | WrFailed => (false, set_fd_closed w)
      | Wrote n => flush_loop fuel (wrote w n)
      end
    end
  else (true, tx_done w).

Definition flush w : bool * WebSocket := flush_loop (S (length (outs w))) w.

Definition has_pending_output w : bool := (tx_sent w <? length (tx w))%nat.

(** The bytes reported sent, or -1. *)
Definition send w (buf : bytes) : Z * WebSocket :=
  if negb (done_headers w) then (len buf, w)
  else if negb (fd_open w) then (-1, w)
  else if WS_MAX_TX_QUEUE <? len (tx w) - Z.of_nat (tx_sent w) then (-1, set_fd_closed w)
  else let '(ok, w) := flush (queue_frame w WS_OP_BIN buf) in
       (if ok then len buf else -1, w).

(** ** Input *)

Definition fill_pending w (acc : acc_out) (r : rd_out) : WebSocket :=
  if negb (fd_open w) then w
  else if max_message w + 64 <? len (rx w) then set_fd_closed w
  else
    let read w := match r with
                  | RdData b => set_rx w (rx w ++ take WS_READ_CHUNK b)
                  | RdAgain => w
                  | RdEof | RdFailed => set_fd_closed w
                  end in
    if has_ssl w && negb (SSL_handshake_complete w)
    then match acc with
         | AccAgain => w
         | AccFailed => set_fd_closed w
         | AccDone => read (w <| SSL_handshake_complete := true |>)
         end
    else read w.

(** ** Frames *)

Inductive frame_out :=
| FrameMore
| FrameBad
| Frame (fin : bool) (opcode : Z) (payload : bytes) (need : nat).

(** [payload[i] ^= mask[i % 4]]. *)
Fixpoint unmask (mask payload : bytes) : bytes :=
  match payload with
  | [] => []
  | b :: payload => Z.lxor b (byte_at mask 0) :: unmask (drop 1 mask ++ take 1 mask) payload
  end.

(** The length field and the header's size; [None] when it is not all there. *)
Definition frame_len (f : bytes) : option (Z * nat) :=
  let l := Z.land (byte_at f 1) 0x7F in
  if l =? 126 then if (length f <? 4)%nat then None else Some (be_val (slice f 2 2), 4%nat)
  else if l =? 127 then if (length f <? 10)%nat then None else Some (be_val (slice f 2 8), 10%nat)
  else Some (l, 2%nat).

(** The frame at the head of the buffer. *)
Definition next_frame (max_msg : Z) (f : bytes) : frame_out :=
  if (length f <? 2)%nat then FrameMore
  else
    let fin := negb (Z.land (byte_at f 0) 0x80 =? 0) in
    let opcode := Z.land (byte_at f 0) 0x0F in
    let masked := negb (Z.land (byte_at f 1) 0x80 =? 0) in
    match frame_len f with
    | None => FrameMore
    | Some (payload_len, hdr) =>
      if max_msg <? payload_len then FrameBad
      else if negb masked then FrameBad
      else if negb (Z.land opcode 0x8 =? 0) && ((125 <? payload_len) || negb fin) then FrameBad
      else
        let need := (hdr + 4 + Z.to_nat payload_len)%nat in
        if (length f <? need)%nat then FrameMore
        else Frame fin opcode
               (unmask (take 4 (drop hdr f)) (take (Z.to_nat payload_len) (drop (hdr + 4) f))) need
    end.

Definition append_msg w (payload : bytes) (frag : bool) : WebSocket :=
  w <| msg := msg w ++ payload |> <| in_fragment := frag |>.

(** One frame's effect; [None] for failing the connection. *)
Definition on_frame w (fin : bool) (opcode : Z) (payload : bytes) : bool * WebSocket :=
  if opcode =? WS_OP_CLOSE then
    (false, if sent_close w then w
            else (flush (queue_frame w WS_OP_CLOSE payload <| sent_close := true |>)).2)
  else if opcode =? WS_OP_PING then (true, (flush (queue_frame w WS_OP_PONG payload)).2)
  else if opcode =? WS_OP_PONG then (true, w)
  else if opcode =? WS_OP_CONT then
    if negb (in_fragment w) then (false, w)
    else if max_message w <? len (msg w) + len payload then (false, w)
    else (true, append_msg w payload (negb fin))
  else if (opcode =? WS_OP_TEXT) || (opcode =? WS_OP_BIN) then
    if in_fragment w then (false, w)
    else if max_message w <? len (msg w) + len payload then (false, w)
    else (true, append_msg w payload (negb fin))
  else (false, w).

(** The loop over complete frames, on what [rx] still holds.  (When it fails, the code
    leaves [rx] behind, but the connection is closed and [rx] never read again.) *)
Fixpoint decode_loop (fuel : nat) w : bool * WebSocket :=
  match fuel with
  | O => (true, w)
  | S fuel =>
    match next_frame (max_message w) (rx w) with
    | FrameMore => (true, w)
    | FrameBad => (false, w)
    | Frame fin opcode payload need =>
      let '(ok, w') := on_frame w fin opcode payload in
      if ok then decode_loop fuel (set_rx w' (drop need (rx w'))) else (false, w')
    end
  end.

(** Every frame takes at least two bytes, so the buffer's length bounds the turns. *)
Definition decode_frames w : bool * WebSocket := decode_loop (S (length (rx w))) w.

(** ** The upgrade *)

Section upgrade.
Variable sha1 base64_encode : bytes -> bytes.

Definition ws_guid : bytes := bs "258EAFA5-E914-47DA-95CA-C5AB0DC85B11".
Definition crlf : bytes := [13; 10].

Definition handshake_text (key : bytes) : bytes :=
  bs "HTTP/1.1 101 Switching Protocols" ++ crlf ++ bs "Upgrade: websocket" ++ crlf
  ++ bs "Connection: Upgrade" ++ crlf
  ++ bs "Sec-WebSocket-Accept: " ++ base64_encode (sha1 (key ++ ws_guid)) ++ crlf ++ crlf.

Definition start_handshake w (key : bytes) : WebSocket :=
  match handshake_buf w with
  | [] => w <| handshake_buf := handshake_text key |> <| handshake_sent := O |>
  | _ => w
  end.

Definition handshake_wrote w (n : nat) : WebSocket :=
  let rest := drop (handshake_sent w) (handshake_buf w) in
  w <| wire := wire w ++ take n rest |>
    <| handshake_sent := (handshake_sent w + Nat.min n (length rest))%nat |>.

Fixpoint handshake_loop (fuel : nat) w : bool * WebSocket :=
  if (handshake_sent w <? length (handshake_buf w))%nat then
    match fuel with
    | O => (false, w)
    | S fuel =>
      let '(o, w) := next_out w in
      match o with
      | WrAgain => (false, w)
      | WrFailed => (false, set_fd_closed w)
      | Wrote n => handshake_loop fuel (handshake_wrote w n)
      end
    end
  else (true, w).

Definition send_handshake w (key : bytes) : bool * WebSocket :=
  let w := start_handshake w key in
  handshake_loop (S (length (outs w))) w.

Definition key_marker : bytes := bs "Sec-WebSocket-Key: ".

Definition set_target w (headers : bytes) : WebSocket :=
  match find_byte 32 headers with
  | None => w
  | Some sp1 =>
    match find_byte 32 (drop (S sp1) headers) with
    | None => w
    | Some sp2 => w <| req_target := take sp2 (drop (S sp1) headers) |>
    end
  end.

(** The value of the key header, up to its line end. *)
Definition sec_key (headers : bytes) : option bytes :=
  match find_sub key_marker headers with
  | None => None
  | Some p =>
    let v := drop (p + length key_marker) headers in
    match find_sub crlf v with
    | None => None
    | Some hend => Some (take hend v)
    end
  end.

Definition headers_done w (header_bytes : nat) : WebSocket :=
  w <| done_headers := true |> <| rx := drop header_bytes (rx w) |>.

Definition check_headers w : WebSocket :=
  match find_sub [13; 10; 13; 10] (rx w) with
  | None => w
  | Some e =>
    let header_bytes := (e + 4)%nat in
    let headers := take header_bytes (rx w) in
    let w := set_target w headers in
    match sec_key headers with
    | None => w
    | Some key =>
      let '(ok, w) := send_handshake w key in
      if ok then headers_done w header_bytes else w
    end
  end.

(** The constructor on an accepted socket whose first bytes are [stream].  A TLS peer's
    connection gets its ssl object when OpenSSL has a context and loads the certificate and
    key ([certs]); if not, the constructor stops there, and what is read and written later
    goes over the socket as it is. *)
Definition ws_new (max_msg : Z) (stream : bytes) (certs : bool) (acc : acc_out) (r : rd_out) (os : list wr_out)
  : WebSocket :=
  let ssl := (length wss_prefix <=? length (take 8 stream))%nat
             && bool_decide (wss_prefix = take (length wss_prefix) (take 8 stream)) in
  let w :=
    {| fd_open := true; is_SSL := ssl; has_ssl := ssl && certs; SSL_handshake_complete := false; done_headers := false;
       sent_close := false; max_message := max_msg; rx := []; msg := []; msg_taken := O;
       in_fragment := false; tx := []; tx_sent := O; tls_tx := []; req_target := [];
       handshake_buf := []; handshake_sent := O; outs := os; wire := []; queued := [] |} in
  if ssl && negb certs then w else check_headers (fill_pending w acc r).

Definition set_msg_taken w (n : nat) : WebSocket :=
  if (n =? length (msg w))%nat then w <| msg := ([] : bytes) |> <| msg_taken := O |>
  else w <| msg_taken := n |>.

(** The code returned (a count, 0 or -1), the bytes handed over, and the state. *)
Definition recv w (n : nat) (acc : acc_out) (r : rd_out) : Z * bytes * WebSocket :=
  if (msg_taken w <? length (msg w))%nat then
    let out := take n (drop (msg_taken w) (msg w)) in
    (len out, out, set_msg_taken w (msg_taken w + length out))
  else
    let w := fill_pending w acc r in
    if negb (fd_open w) then (-1, [], w)
    else
      let w := if done_headers w then w else check_headers w in
      if negb (done_headers w) then (0, [], w)
      else
        let '(ok, w) := decode_frames w in
        if negb ok then (-1, [], set_fd_closed w)
        else if in_fragment w || match msg w with [] => true | _ => false end then (0, [], w)
        else let out := take n (msg w) in
             (len out, out, set_msg_taken w (length out)).
End upgrade.

(** ** Detection *)

Lemma bool_decide_cons x y (l k : bytes) :
  bool_decide (x :: l = y :: k) = ((x =? y) && bool_decide (l = k))%bool.
Proof.
  destruct (Z.eqb_spec x y) as [->|]; cbn [andb].
  - apply bool_decide_ext. split; congruence.
  - apply bool_decide_eq_false_2. congruence.
Qed.

(** What the prefixes seen so far say. *)
Definition detect_spec (s : bytes) : ws_detect_t :=
  if starts_with wss_prefix s || starts_with ws_prefix s then WS_YES
  else if starts_with s wss_prefix || starts_with s ws_prefix then WS_MORE
  else WS_NO.

Lemma detect_is_spec s : detect s = detect_spec s.
Proof.
  unfold detect, detect_spec, wss_prefix. change ws_prefix with [71; 69; 84; 32].
  destruct s as [|a [|b [|c [|d s]]]]; [done|..];
    cbn [take firstn length Nat.min Nat.leb starts_with]; rewrite ?bool_decide_cons;
    rewrite ?(bool_decide_eq_true_2 ([] = [])) by done;
    rewrite ?andb_true_r, ?(Z.eqb_sym a), ?(Z.eqb_sym b), ?(Z.eqb_sym c), ?(Z.eqb_sym d);
    destruct (Z.eqb_spec 22 a), (Z.eqb_spec 71 a); try lia; cbn [andb orb]; try done;
    destruct (Z.eqb_spec 3 b), (Z.eqb_spec 69 b); try lia; cbn [andb orb]; try done;
    destruct (Z.eqb_spec 1 c), (Z.eqb_spec 84 c); try lia; cbn [andb orb]; try done;
    destruct (32 =? d); try done. by rewrite Nat.min_0_r, bool_decide_eq_true_2.
Qed.

(** The verdict on a new connection is the one the bytes seen so far allow -- yes for
    an HTTP GET or a TLS hello, no when neither can still follow, wait otherwise -- so a
    verdict once given is the verdict on every continuation, and a handshake that
    arrives in pieces is never taken for raw MAVLink. *)
Theorem detect_stable (s t : bytes) :
  detect s = detect_spec s
  /\ (detect s <> WS_MORE -> detect (s ++ t) = detect s)
  /\ (starts_with ws_prefix (s ++ t) = true -> detect s <> WS_NO).
Proof.
  split; [apply detect_is_spec|]. rewrite !detect_is_spec. unfold detect_spec.
  assert (Hext : forall pat, starts_with pat s = false -> starts_with s pat = false ->
    starts_with pat (s ++ t) = false /\ starts_with (s ++ t) pat = false).
  { clear. induction s as [|x s IH]; intros pat; [done|]. destruct pat as [|p pat]; [done|].
    cbn [app starts_with]. rewrite (Z.eqb_sym x p). destruct (p =? x); [|done]. cbn [andb]. apply IH. }
  split.
  - destruct (starts_with wss_prefix s) eqn:E1; [by rewrite (starts_with_app_l _ _ t E1)|].
    destruct (starts_with ws_prefix s) eqn:E2.
    { rewrite (starts_with_app_l _ _ t E2). by rewrite !orb_true_r. }
    destruct (starts_with s wss_prefix) eqn:E3; [done|].
    destruct (starts_with s ws_prefix) eqn:E4; [done|]. intros _.
    destruct (Hext _ E1 E3) as [-> ->], (Hext _ E2 E4) as [-> ->]. done.
  - intros Hs. destruct (starts_with wss_prefix s || starts_with ws_prefix s)%bool eqn:E; [done|].
    apply orb_false_iff in E as [_ E2].
    destruct (starts_with s wss_prefix); [done|].
    destruct (starts_with s ws_prefix) eqn:E4; [done|].
    destruct (Hext _ E2 E4) as [E _]. congruence.
Qed.

Lemma detect_stable_witness :
  detect (bs "GET /v1 HTTP") = WS_YES /\ detect (bs "GE") <> WS_NO.
Proof.
  split.
  - change (bs "GET /v1 HTTP") with (bs "GET " ++ bs "/v1 HTTP").
    destruct (detect_stable (bs "GET ") (bs "/v1 HTTP")) as (_ & H & _). by rewrite H.
  - destruct (detect_stable (bs "GE") (bs "T /")) as (_ & _ & H). by apply H.
Defined.

(** ** Client frames *)

Lemma length_unmask m p : length (unmask m p) = length p.
Proof. revert m. induction p; intros; cbn; auto. Qed.

(** RFC 6455's masking: byte [i] xored with mask byte [i mod 4]. *)
Definition mask_at (mask : bytes) (i : nat) (b : Z) : Z :=
  Z.lxor b (byte_at mask (Z.of_nat (i mod 4))).
Definition mask_bytes (mask payload : bytes) : bytes := imap (mask_at mask) payload.

Lemma mask_at_4 m i b : mask_at m (4 + i) b = mask_at m i b.
Proof. unfold mask_at. by rewrite <-(Nat.Div0.mod_add i 1 4), Nat.mul_1_l, Nat.add_comm. Qed.

Lemma unmask_spec m p : length m = 4%nat -> unmask m p = mask_bytes m p.
Proof.
  intros Hm. destruct m as [|m0 [|m1 [|m2 [|m3 [|]]]]]; try done.
  remember (length p) as n eqn:En. revert p En.
  induction (lt_wf n) as [n _ IH]. intros p ->.
  destruct p as [|a [|b [|c [|d p]]]]; try done.
  cbn [unmask app drop take]. rewrite (IH (length p)); [|cbn; lia|done].
  unfold mask_bytes. rewrite !imap_cons. do 4 f_equal. apply imap_ext. intros i x _.
  by rewrite <-(mask_at_4 _ i).
Qed.

(** Masking is its own inverse. *)
Lemma unmask_masked m p : length m = 4%nat -> unmask m (mask_bytes m p) = p.
Proof.
  intros Hm. rewrite unmask_spec by done. apply list_eq. intros i. unfold mask_bytes.
  rewrite !list_lookup_imap. destruct (p !! i) as [b|]; [|done]. cbn. unfold mask_at.
  by rewrite Z.lxor_assoc, Z.lxor_nilpotent, Z.lxor_0_r.
Qed.

Lemma length_mask_bytes m p : length (mask_bytes m p) = length p.
Proof. apply length_imap. Qed.

(** A client's frame: FIN, opcode, the mask bit with the length, the mask, the masked
    payload. *)
Definition client_header (fin : bool) (opcode n : Z) : bytes :=
  (if fin then 128 + opcode else opcode) ::
  (if n <=? 125 then [128 + n]
   else if n <=? 65535 then 254 :: be_bytes 2 n
   else 255 :: be_bytes 8 n).
Definition client_frame (fin : bool) (opcode : Z) (mask payload : bytes) : bytes :=
  client_header fin opcode (len payload) ++ mask ++ mask_bytes mask payload.

Definition hdr_size (n : Z) : nat := if n <=? 125 then 2 else if n <=? 65535 then 4 else 10.

Lemma length_client_header (fin : bool) op n : length (client_header fin op n) = hdr_size n.
Proof.
  unfold client_header, hdr_size. destruct (n <=? 125); [done|].
  destruct (n <=? 65535); cbn [length]; by rewrite length_be_bytes.
Qed.

Lemma first_byte (fin : bool) op :
  0 <= op < 16 ->
  negb (Z.land (if fin then 128 + op else op) 0x80 =? 0) = fin
  /\ Z.land (if fin then 128 + op else op) 0x0F = op.
Proof.
  intros Hop. assert (Hall : forallb (fun z => negb (Z.land (128 + z) 0x80 =? 0)
    && (Z.land z 0x80 =? 0) && (Z.land (128 + z) 0x0F =? z) && (Z.land z 0x0F =? z)) (seqZ 0 16) = true)
    by (by vm_compute).
  rewrite forallb_forall in Hall. specialize (Hall op).
  rewrite <-list_elem_of_In, elem_of_seqZ in Hall. specialize (Hall ltac:(lia)).
  reflect_bools. destruct fin; split; try done; by apply negb_true_iff, Z.eqb_neq || apply negb_false_iff, Z.eqb_eq.
Qed.

Lemma second_byte n :
  0 <= n < 128 -> Z.land (128 + n) 0x7F = n /\ negb (Z.land (128 + n) 0x80 =? 0) = true.
Proof.
  intros Hn. assert (Hall : forallb (fun z => (Z.land (128 + z) 0x7F =? z)
    && negb (Z.land (128 + z) 0x80 =? 0)) (seqZ 0 128) = true) by (by vm_compute).
  rewrite forallb_forall in Hall. specialize (Hall n).
  rewrite <-list_elem_of_In, elem_of_seqZ in Hall. specialize (Hall ltac:(lia)).
  reflect_bools. split; [done|]. by apply negb_true_iff, Z.eqb_neq.
Qed.

Lemma byte_at_0 b l : byte_at (b :: l) 0 = b.
Proof. done. Qed.
Lemma byte_at_1 a b l : byte_at (a :: b :: l) 1 = b.
Proof. done. Qed.

Lemma slice_cons2 a b l n : slice (a :: b :: l) 2 n = slice l 0 n.
Proof. done. Qed.

Lemma frame_len_client (fin : bool) op n rest :
  0 <= n < 2 ^ 63 -> frame_len (client_header fin op n ++ rest) = Some (n, hdr_size n).
Proof.
  intros Hn. unfold frame_len, client_header, hdr_size.
  destruct (Z.leb_spec n 125).
  - cbn [app]. rewrite byte_at_1. destruct (second_byte n ltac:(lia)) as [-> _].
    by rewrite (proj2 (Z.eqb_neq n 126)), (proj2 (Z.eqb_neq n 127)) by lia.
  - destruct (Z.leb_spec n 65535); cbn [app]; rewrite byte_at_1.
    + change (Z.land 254 127 =? 126) with true. cbv iota.
      rewrite (proj2 (Nat.ltb_ge _ 4))
        by (cbn [length]; rewrite length_app, length_be_bytes; lia).
      do 2 f_equal. rewrite slice_cons2, slice_here by (rewrite ?length_be_bytes; lia).
      apply be_val_be_bytes_small. change (256 ^ Z.of_nat 2) with 65536. lia.
    + change (Z.land 255 127 =? 126) with false. change (Z.land 255 127 =? 127) with true. cbv iota.
      rewrite (proj2 (Nat.ltb_ge _ 10))
        by (cbn [length]; rewrite length_app, length_be_bytes; lia).
      do 2 f_equal. rewrite slice_cons2, slice_here by (rewrite ?length_be_bytes; lia).
      apply be_val_be_bytes_small. change (256 ^ Z.of_nat 8) with (2 ^ 64). lia.
Qed.

(** The second byte always carries the mask bit. *)
Lemma client_masked (fin : bool) op n rest :
  0 <= n -> negb (Z.land (byte_at (client_header fin op n ++ rest) 1) 0x80 =? 0) = true.
Proof.
  intros Hn. unfold client_header. destruct (Z.leb_spec n 125).
  - cbn [app]. rewrite byte_at_1. by destruct (second_byte n ltac:(lia)).
  - by destruct (n <=? 65535).
Qed.

(** What the decoder accepts from a client: a data or control opcode, within the size
    limit, control frames short and whole. *)
Record client_ok (max_msg : Z) (fin : bool) (op : Z) (mask payload : bytes) : Prop := {
  cok_op : 0 <= op < 16;
  cok_len : len payload <= max_msg /\ len payload < 2 ^ 63;
  cok_mask : length mask = 4%nat;
  cok_control : Z.land op 0x8 <> 0 -> len payload <= 125 /\ fin = true
}.

Lemma length_client_frame fin op mask payload :
  length mask = 4%nat ->
  length (client_frame fin op mask payload) = (hdr_size (len payload) + 4 + length payload)%nat.
Proof.
  intros Hm. unfold client_frame. rewrite !length_app, length_client_header, length_mask_bytes. lia.
Qed.

Lemma next_frame_client max_msg fin op mask payload rest :
  client_ok max_msg fin op mask payload ->
  next_frame max_msg (client_frame fin op mask payload ++ rest)
  = Frame fin op payload (length (client_frame fin op mask payload)).
Proof.
  intros [Hop [Hmax Hlen] Hmask Hctl].
  rewrite (length_client_frame fin op mask payload Hmask).
  unfold client_frame. rewrite <-!app_assoc.
  pose proof (length_client_header fin op (len payload)) as Lh.
  pose proof (frame_len_client fin op (len payload) (mask ++ mask_bytes mask payload ++ rest) ltac:(lia)) as Ef.
  pose proof (client_masked fin op (len payload) (mask ++ mask_bytes mask payload ++ rest) ltac:(lia)) as Em.
  destruct (first_byte fin op Hop) as [Efin Eop].
  assert (E0 : byte_at (client_header fin op (len payload) ++ mask ++ mask_bytes mask payload ++ rest) 0
               = if fin then 128 + op else op) by done.
  assert (H2 : (2 <= hdr_size (len payload))%nat)
    by (unfold hdr_size; destruct (len payload <=? 125), (len payload <=? 65535); lia).
  set (hd := client_header fin op (len payload)) in *.
  unfold next_frame. rewrite (proj2 (Nat.ltb_ge _ 2)) by (rewrite length_app; lia).
  rewrite Ef, Em, E0, Efin, Eop, (proj2 (Z.ltb_ge max_msg _)) by lia. cbn [negb].
  replace (negb (Z.land op 8 =? 0) && ((125 <? len payload) || negb fin))%bool with false.
  2: { destruct (Z.eqb_spec (Z.land op 8) 0) as [|Hc]; [done|]. cbn [negb andb].
       destruct (Hctl Hc) as [Hl ->]. by rewrite (proj2 (Z.ltb_ge 125 _)) by lia. }
  rewrite Nat2Z.id, (proj2 (Nat.ltb_ge _ _)) by (rewrite !length_app, length_mask_bytes; lia).
  f_equal. rewrite (drop_app_length' hd) by done. rewrite (take_app_length' mask) by done.
  rewrite app_assoc, drop_app_length' by (rewrite length_app; lia).
  rewrite take_app_length' by (symmetry; apply length_mask_bytes). by apply unmask_masked.
Qed.

(** ** Decoding does not depend on how bytes arrive *)

Lemma byte_at_ext f g i : 0 <= i < len f -> byte_at (f ++ g) i = byte_at f i.
Proof. apply byte_at_app_l. Qed.

Lemma frame_len_ext f g r :
  (2 <= length f)%nat -> frame_len f = Some r -> frame_len (f ++ g) = Some r.
Proof.
  intros H2. unfold frame_len. rewrite byte_at_ext by lia. rewrite length_app.
  destruct (_ =? 126).
  - destruct (Nat.ltb_spec (length f) 4); [done|]. rewrite (proj2 (Nat.ltb_ge _ 4)) by lia.
    by rewrite slice_app_l by lia.
  - destruct (_ =? 127); [|done].
    destruct (Nat.ltb_spec (length f) 10); [done|]. rewrite (proj2 (Nat.ltb_ge _ 10)) by lia.
    by rewrite slice_app_l by lia.
Qed.

Lemma frame_len_hdr f n h : frame_len f = Some (n, h) -> (2 <= h)%nat.
Proof.
  unfold frame_len. destruct (_ =? 126); [|destruct (_ =? 127)];
    try (destruct (_ <? _)%nat; [done|]); intros [= _ <-]; lia.
Qed.

Lemma next_frame_ext max_msg f g :
  next_frame max_msg f <> FrameMore -> next_frame max_msg (f ++ g) = next_frame max_msg f.
Proof.
  unfold next_frame. destruct (Nat.ltb_spec (length f) 2); [done|].
  rewrite length_app, (proj2 (Nat.ltb_ge (length f + _) 2)), !byte_at_ext by lia.
  destruct (frame_len f) as [[n h]|] eqn:El; [|done].
  rewrite (frame_len_ext f g _ ltac:(lia) El).
  destruct (max_msg <? n); [done|]. destruct (negb (negb _)); [done|].
  destruct (negb (Z.land _ 8 =? 0) && _)%bool; [done|].
  destruct (Nat.ltb_spec (length f) (h + 4 + Z.to_nat n)); [done|]. intros _.
  rewrite (proj2 (Nat.ltb_ge _ _)) by lia.
  rewrite !drop_app_le by lia. by rewrite !take_app_le by (rewrite length_drop; lia).
Qed.

Lemma next_frame_need max_msg f fin op payload need :
  next_frame max_msg f = Frame fin op payload need ->
  (2 <= need <= length f)%nat /\ len payload <= Z.max 0 max_msg
  /\ length payload = (need - 4 - match frame_len f with Some (_, h) => h | None => 0 end)%nat.
Proof.
  unfold next_frame. destruct (length f <? 2)%nat; [done|].
  destruct (frame_len f) as [[n h]|] eqn:El; [|done].
  destruct (Z.ltb_spec max_msg n); [done|]. destruct (negb (negb _)); [done|].
  destruct (negb (Z.land _ 8 =? 0) && _)%bool; [done|].
  destruct (Nat.ltb_spec (length f) (h + 4 + Z.to_nat n)); [done|]. intros [= _ _ <- <-].
  pose proof (frame_len_hdr _ _ _ El).
  rewrite length_unmask, length_take, length_drop. split; [lia|]. split; lia.
Qed.

Lemma set_rx_set_rx w a b : set_rx (set_rx w a) b = set_rx w b.
Proof. done. Qed.

(** [rx] plays no part in output. *)
Lemma flush_loop_rx fuel w r :
  flush_loop fuel (set_rx w r) = ((flush_loop fuel w).1, set_rx (flush_loop fuel w).2 r).
Proof.
  revert w. induction fuel as [|fuel IH]; intros w; cbn [flush_loop].
  - change (tx_sent (set_rx w r)) with (tx_sent w). change (tx (set_rx w r)) with (tx w).
    by destruct (_ <? _)%nat.
  - change (tx_sent (set_rx w r)) with (tx_sent w). change (tx (set_rx w r)) with (tx w).
    destruct (_ <? _)%nat; [|done].
    replace (load_record (set_rx w r)) with (set_rx (load_record w) r)
      by (unfold load_record, pending, over_tls; cbn; by destruct (is_SSL w && has_ssl w && _)%bool).
    set (w1 := load_record w). unfold next_out. change (outs (set_rx w1 r)) with (outs w1).
    destruct (outs w1) as [|[n| |] os]; try done. exact (IH (wrote (set_outs w1 os) n)).
Qed.

Lemma flush_rx w r : flush (set_rx w r) = ((flush w).1, set_rx (flush w).2 r).
Proof. apply flush_loop_rx. Qed.

Lemma queue_frame_rx w op d r : queue_frame (set_rx w r) op d = set_rx (queue_frame w op d) r.
Proof.
  unfold queue_frame, append_tx, drop_flushed. cbn. by destruct (_ && _)%bool.
Qed.

Lemma on_frame_rx w fin op payload r :
  on_frame (set_rx w r) fin op payload
  = ((on_frame w fin op payload).1, set_rx (on_frame w fin op payload).2 r).
Proof.
  unfold on_frame. rewrite !queue_frame_rx.
  change (sent_close (set_rx w r)) with (sent_close w).
  change (in_fragment (set_rx w r)) with (in_fragment w).
  change (max_message (set_rx w r)) with (max_message w).
  change (msg (set_rx w r)) with (msg w).
  destruct (op =? WS_OP_CLOSE).
  { destruct (sent_close w); [done|]. cbn [snd fst].
    change (set_rx (queue_frame w WS_OP_CLOSE payload) r <| sent_close := true |>)
      with (set_rx (queue_frame w WS_OP_CLOSE payload <| sent_close := true |>) r).
    by rewrite flush_rx. }
  destruct (op =? WS_OP_PING); [by rewrite flush_rx|].
  destruct (op =? WS_OP_PONG); [done|].
  destruct (op =? WS_OP_CONT).
  { destruct (negb (in_fragment w)); [done|]. by destruct (max_message w <? _). }
  destruct (_ || _)%bool; [|done]. destruct (in_fragment w); [done|].
  by destruct (max_message w <? _).
Qed.

(** What the IO parts leave alone. *)
Lemma flush_loop_keeps fuel w :
  let w' := (flush_loop fuel w).2 in
  rx w' = rx w /\ msg w' = msg w /\ max_message w' = max_message w
  /\ in_fragment w' = in_fragment w /\ done_headers w' = done_headers w
  /\ handshake_buf w' = handshake_buf w /\ handshake_sent w' = handshake_sent w
  /\ over_tls w' = over_tls w /\ queued w' = queued w /\ sent_close w' = sent_close w
  /\ msg_taken w' = msg_taken w.
Proof.
  revert w. induction fuel as [|fuel IH]; intros w; cbn [flush_loop].
  - by destruct (_ <? _)%nat.
  - destruct (_ <? _)%nat; [|done].
    assert (Hl : rx (load_record w) = rx w /\ msg (load_record w) = msg w
      /\ max_message (load_record w) = max_message w /\ in_fragment (load_record w) = in_fragment w
      /\ done_headers (load_record w) = done_headers w
      /\ handshake_buf (load_record w) = handshake_buf w
      /\ handshake_sent (load_record w) = handshake_sent w
      /\ over_tls (load_record w) = over_tls w /\ queued (load_record w) = queued w
      /\ sent_close (load_record w) = sent_close w /\ msg_taken (load_record w) = msg_taken w)
      by (unfold load_record; by destruct (over_tls w && _)%bool).
    revert Hl. generalize (load_record w). intros w1 Hl. unfold next_out.
    destruct (outs w1) as [|[n| |] os]; try exact Hl.
    destruct (IH (wrote (set_outs w1 os) n)) as (-> & -> & -> & -> & -> & -> & -> & -> & -> & -> & ->).
    exact Hl.
Qed.

Lemma on_frame_keeps w fin op payload :
  let w' := (on_frame w fin op payload).2 in
  rx w' = rx w /\ max_message w' = max_message w.
Proof.
  assert (Hq : forall w op d, rx (flush (queue_frame w op d)).2 = rx w
    /\ max_message (flush (queue_frame w op d)).2 = max_message w).
  { intros w0 op0 d. unfold flush.
    destruct (flush_loop_keeps (S (length (outs (queue_frame w0 op0 d)))) (queue_frame w0 op0 d))
      as (-> & _ & -> & _). unfold queue_frame, append_tx, drop_flushed.
    by destruct (_ && _)%bool. }
  assert (Hc : rx (flush (queue_frame w WS_OP_CLOSE payload <| sent_close := true |>)).2 = rx w
    /\ max_message (flush (queue_frame w WS_OP_CLOSE payload <| sent_close := true |>)).2 = max_message w).
  { unfold flush. match goal with |- context [flush_loop ?n ?x] =>
      destruct (flush_loop_keeps n x) as (-> & _ & -> & _) end.
    unfold queue_frame, append_tx, drop_flushed. by destruct (_ && _)%bool. }
  cbn zeta. unfold on_frame. destruct (op =? WS_OP_CLOSE); [by destruct (sent_close w)|].
  destruct (op =? WS_OP_PING); [apply Hq|]. destruct (op =? WS_OP_PONG); [done|].
  destruct (op =? WS_OP_CONT).
  { destruct (negb (in_fragment w)); [done|]. by destruct (max_message w <? _). }
  destruct (_ || _)%bool; [|done]. destruct (in_fragment w); [done|].
  by destruct (max_message w <? _).
Qed.

Lemma decode_loop_fuel n m w :
  (length (rx w) < n)%nat -> (length (rx w) < m)%nat -> decode_loop n w = decode_loop m w.
Proof.
  revert m w. induction n as [|n IH]; intros m w Hn Hm; [lia|]. destruct m as [|m]; [lia|].
  cbn [decode_loop]. destruct (next_frame _ _) as [| |fin op payload need] eqn:E; [done..|].
  apply next_frame_need in E as [Hneed _].
  destruct (on_frame_keeps w fin op payload) as [Hr _].
  destruct (on_frame w fin op payload) as [ok w']. cbn [snd] in Hr. destruct ok; [|done].
  apply IH; cbn [rx set_rx]; rewrite length_drop, Hr; lia.
Qed.

(** Decoding is incremental: appending more bytes and decoding again gives exactly
    what decoding all the bytes at once gives -- the same payload, the same replies, the
    same verdict and the same unfinished rest -- wherever the stream is cut. *)
Theorem decode_chunking w (a b : bytes) :
  decode_frames (set_rx w (a ++ b)) =
  match decode_frames (set_rx w a) with
  | (true, w1) => decode_frames (set_rx w1 (rx w1 ++ b))
  | (false, w1) => (false, set_rx w1 (rx w1 ++ b))
  end.
Proof.
  unfold decode_frames. cbn [rx set_rx].
  assert (G : forall n m w a, (length a < n)%nat -> (length a + length b < m)%nat ->
    decode_loop m (set_rx w (a ++ b)) =
    match decode_loop n (set_rx w a) with
    | (true, w1) => decode_loop (S (length (rx w1 ++ b))) (set_rx w1 (rx w1 ++ b))
    | (false, w1) => (false, set_rx w1 (rx w1 ++ b))
    end).
  { clear w a. induction n as [|n IH]; intros m w a Hn Hm; [lia|]. destruct m as [|m]; [lia|].
    cbn [decode_loop]. change (max_message (set_rx w ?x)) with (max_message w). cbn [rx set_rx].
    destruct (next_frame (max_message w) a) as [| |fin op payload need] eqn:E.
    - assert (F : decode_loop (S m) (set_rx w (a ++ b))
                  = decode_loop (S (length (a ++ b))) (set_rx w (a ++ b)))
        by (apply decode_loop_fuel; cbn [rx set_rx]; rewrite length_app; lia).
      exact F.
    - by rewrite (next_frame_ext _ a b), E by (by rewrite E).
    - rewrite (next_frame_ext _ a b), E by (by rewrite E).
      apply next_frame_need in E as [Hneed _].
      change (w <| rx := a ++ b |>) with (set_rx w (a ++ b)).
      change (w <| rx := a |>) with (set_rx w a).
      rewrite !on_frame_rx. destruct (on_frame w fin op payload) as [ok w']. cbn [fst snd].
      destruct ok; [|done]. rewrite !set_rx_set_rx. cbn [rx set_rx].
      rewrite drop_app_le by lia. apply IH; rewrite length_drop; lia. }
  apply G; [lia|rewrite length_app; lia].
Qed.

Lemma decode_chunking_witness :
  let f := client_frame true WS_OP_BIN [1; 2; 3; 4] [10; 20; 30] in
  let w := ws_new (fun m => m) (fun m => m) 1000 [] true AccDone RdAgain [] in
  decode_frames (set_rx w (take 5 f ++ drop 5 f))
  = match decode_frames (set_rx w (take 5 f)) with
    | (true, w1) => decode_frames (set_rx w1 (rx w1 ++ drop 5 f))
    | (false, w1) => (false, set_rx w1 (rx w1 ++ drop 5 f))
    end
  /\ msg (decode_frames (set_rx w (take 5 f ++ drop 5 f))).2 = [10; 20; 30].
Proof. split; [apply decode_chunking|by vm_compute]. Defined.

(** ** Messages *)

Lemma decode_loop_S n w b :
  decode_loop (S n) (set_rx w b) =
  match next_frame (max_message w) b with
  | FrameMore => (true, set_rx w b)
  | FrameBad => (false, set_rx w b)
  | Frame fin op payload need =>
      let '(ok, w') := on_frame w fin op payload in
      if ok then decode_loop n (set_rx w' (drop need b)) else (false, set_rx w' b)
  end.
Proof.
  cbn [decode_loop]. change (next_frame (max_message (set_rx w b)) (rx (set_rx w b)))
    with (next_frame (max_message w) b).
  destruct (next_frame (max_message w) b) as [| |fin op payload need]; [done..|].
  rewrite on_frame_rx. by destruct (on_frame w fin op payload) as [[] w'].
Qed.

Lemma decode_step w w' fin op mask payload rest :
  client_ok (max_message w) fin op mask payload ->
  on_frame w fin op payload = (true, w') ->
  decode_frames (set_rx w (client_frame fin op mask payload ++ rest)) = decode_frames (set_rx w' rest).
Proof.
  intros Hok Hon. unfold decode_frames. cbn [rx set_rx].
  assert (Hl : (2 <= length (client_frame fin op mask payload))%nat).
  { destruct Hok as [_ _ Hm _]. rewrite length_client_frame by done. unfold hdr_size.
    destruct (len payload <=? 125), (len payload <=? 65535); lia. }
  rewrite decode_loop_S, next_frame_client, Hon by done. cbn [fst snd].
  rewrite drop_app_length. apply (decode_loop_fuel _ (S (length rest))); cbn [rx set_rx]; [|lia].
  rewrite length_app. lia.
Qed.

(** A message in one or more frames: the data frame and its continuations, each a mask and
    a piece of payload. *)
Fixpoint cont_frames (ps : list (bytes * bytes)) : bytes :=
  match ps with
  | [] => []
  | (m, p) :: ps => client_frame (bool_decide (ps = [])) WS_OP_CONT m p ++ cont_frames ps
  end.
Definition message_bytes (op : Z) (p0 : bytes * bytes) (ps : list (bytes * bytes)) : bytes :=
  client_frame (bool_decide (ps = [])) op p0.1 p0.2 ++ cont_frames ps.
Definition message_payload (ps : list (bytes * bytes)) : bytes := concat (map snd ps).

Lemma append_msg_append w a b f g : append_msg (append_msg w a f) b g = append_msg w (a ++ b) g.
Proof. unfold append_msg. cbn. by rewrite app_assoc. Qed.

Lemma decode_conts w ps rest :
  ps <> [] -> in_fragment w = true -> max_message w < 2 ^ 63 ->
  Forall (fun mp => length mp.1 = 4%nat) ps ->
  len (msg w) + len (message_payload ps) <= max_message w ->
  decode_frames (set_rx w (cont_frames ps ++ rest))
  = decode_frames (set_rx (append_msg w (message_payload ps) false) rest).
Proof.
  intros Hne. revert w. induction ps as [|[m p] ps IH]; intros w Hf Hmax Hm Hl; [done|].
  apply Forall_cons_iff in Hm as [Hm Hms]. cbn [fst] in Hm.
  unfold message_payload in Hl. cbn [map concat snd] in Hl. rewrite length_app in Hl.
  cbn [cont_frames]. rewrite <-app_assoc.
  rewrite (decode_step w (append_msg w p (negb (bool_decide (ps = []))))).
  - destruct ps as [|mp ps].
    + cbn [cont_frames app]. rewrite bool_decide_eq_true_2 by done. cbn [negb].
      unfold message_payload. cbn [map concat snd]. by rewrite app_nil_r.
    + rewrite bool_decide_eq_false_2 by done. cbn [negb]. rewrite IH; try done.
      * by rewrite append_msg_append.
      * cbn [append_msg msg max_message]. rewrite length_app. unfold message_payload in *. lia.
  - split; [done|lia|done|done].
  - unfold on_frame. cbn [Z.eqb WS_OP_CLOSE WS_OP_PING WS_OP_PONG WS_OP_CONT]. rewrite Hf. cbn [negb].
    by rewrite (proj2 (Z.ltb_ge _ _)) by lia.
Qed.

(** C26: A client's message, whole or in any number of fragments under any masks, is
    decoded to exactly its payload, appended to what is waiting, and decoding goes on
    with whatever follows it. *)
Theorem message_decodes w op p0 ps rest :
  (op = WS_OP_TEXT \/ op = WS_OP_BIN) -> in_fragment w = false -> max_message w < 2 ^ 63 ->
  Forall (fun mp => length mp.1 = 4%nat) (p0 :: ps) ->
  len (msg w) + len (message_payload (p0 :: ps)) <= max_message w ->
  decode_frames (set_rx w (message_bytes op p0 ps ++ rest))
  = decode_frames (set_rx (append_msg w (message_payload (p0 :: ps)) false) rest).
Proof.
  intros Hop Hf Hmax [Hm Hms]%Forall_cons_iff Hl. destruct p0 as [m p]. cbn [fst] in Hm.
  unfold message_payload in Hl. cbn [map concat snd] in Hl. rewrite length_app in Hl.
  unfold message_bytes. cbn [fst snd]. rewrite <-app_assoc.
  rewrite (decode_step w (append_msg w p (negb (bool_decide (ps = []))))).
  - destruct ps as [|mp ps].
    + cbn [cont_frames app]. rewrite bool_decide_eq_true_2 by done. cbn [negb].
      unfold message_payload. cbn [map concat snd]. by rewrite app_nil_r.
    + rewrite bool_decide_eq_false_2 by done. cbn [negb]. rewrite decode_conts; try done.
      * by rewrite append_msg_append.
      * cbn [append_msg msg max_message]. rewrite length_app. unfold message_payload in *. lia.
  - split; [by destruct Hop as [->| ->]|lia|done|by destruct Hop as [->| ->]].
  - unfold on_frame. rewrite Hf. destruct Hop as [->| ->]; cbn [Z.eqb orb WS_OP_CLOSE WS_OP_PING
      WS_OP_PONG WS_OP_CONT WS_OP_TEXT WS_OP_BIN Pos.eqb];
      by rewrite (proj2 (Z.ltb_ge _ _)) by lia.
Qed.

Lemma message_decodes_witness :
  let w := ws_new (fun m => m) (fun m => m) 1000 [] true AccDone RdAgain [] in
  msg (decode_frames (set_rx w (message_bytes WS_OP_BIN ([1; 2; 3; 4], [9; 8]) [([5; 6; 7; 8], [7])] ++ []))).2
  = [9; 8; 7].
Proof.
  cbv zeta.
  rewrite (message_decodes (ws_new (fun m => m) (fun m => m) 1000 [] true AccDone RdAgain [])
    WS_OP_BIN ([1; 2; 3; 4], [9; 8]) [([5; 6; 7; 8], [7])] []);
    [by vm_compute|by right|done|done|by repeat constructor|by vm_compute].
Defined.

(** ** What the wire carries *)

Record WireInv w : Prop := {
  wi_wire : wire w ++ pending w = take (handshake_sent w) (handshake_buf w) ++ queued w;
  wi_sent : (tx_sent w <= length (tx w))%nat;
  wi_before : done_headers w = false -> queued w = [] /\ tx w = [];
  wi_after : done_headers w = true -> handshake_sent w = length (handshake_buf w);
  wi_hs : (handshake_sent w <= length (handshake_buf w))%nat;
  wi_tls : tls_tx w `prefix_of` pending w
}.

(** Buffers that cannot grow without limit. *)
Record BoundInv w : Prop := {
  bi_msg : len (msg w) <= Z.max 0 (max_message w);
  bi_rx : len (rx w) <= Z.max 0 (max_message w) + 64 + Z.of_nat WS_READ_CHUNK
}.

Lemma pending_load w : pending (load_record w) = pending w.
Proof. unfold load_record, pending. by destruct (over_tls w && _)%bool. Qed.

Lemma load_record_inv w : WireInv w -> WireInv (load_record w).
Proof.
  intros [H1 H2 H3 H4 H5 H6]. unfold load_record.
  destruct (over_tls w && match tls_tx w with [] => true | _ => false end)%bool; [|by split].
  split; try done. cbn [tls_tx pending tx tx_sent]. apply prefix_take.
Qed.

Lemma set_outs_inv w os : WireInv w -> WireInv (set_outs w os).
Proof. intros [H1 H2 H3 H4 H5 H6]. by split. Qed.

Lemma set_fd_closed_inv w : WireInv w -> WireInv (set_fd_closed w).
Proof. intros [H1 H2 H3 H4 H5 H6]. by split. Qed.

Lemma offered_prefix w : WireInv w -> offered w `prefix_of` pending w.
Proof. intros Hi. unfold offered. destruct (over_tls w); [apply Hi|done]. Qed.

Lemma wrote_inv w n : WireInv w -> WireInv (wrote w n).
Proof.
  intros Hi. destruct (offered_prefix w Hi) as [rest Ep]. destruct Hi as [H1 H2 H3 H4 H5 H6].
  assert (Hlen : (tx_sent w + Nat.min n (length (offered w)) <= length (tx w))%nat).
  { apply (f_equal length) in Ep. unfold pending in Ep. rewrite length_drop, length_app in Ep. lia. }
  split; try done; unfold wrote; cbn [tx tx_sent wire tls_tx pending handshake_sent handshake_buf queued].
  - unfold pending. cbn [tx tx_sent]. rewrite <-H1, <-drop_drop. fold (pending w). rewrite Ep, <-app_assoc.
    apply (f_equal (app (wire w))). rewrite drop_app_le, app_assoc by lia.
    apply (f_equal (fun x => x ++ rest)).
    destruct (Nat.min_spec n (length (offered w))) as [[? ->]|[? ->]]; [apply take_drop|].
    by rewrite take_ge, drop_ge, app_nil_r by lia.
  - apply prefix_nil.
Qed.

Lemma flush_loop_inv fuel w : WireInv w -> WireInv (flush_loop fuel w).2.
Proof.
  assert (Hd : forall w, WireInv w -> (length (tx w) <= tx_sent w)%nat -> WireInv (tx_done w)).
  { clear. intros w [H1 H2 H3 H4 H5 H6] Hl. unfold pending in *. rewrite drop_ge in H1, H6 by lia.
    split; try done; [by intros Hb; destruct (H3 Hb)]. }
  revert w. induction fuel as [|fuel IH]; intros w Hi; cbn [flush_loop].
  - destruct (Nat.ltb_spec (tx_sent w) (length (tx w))); [done|by apply Hd].
  - destruct (Nat.ltb_spec (tx_sent w) (length (tx w))); [|by apply Hd].
    apply load_record_inv in Hi. unfold next_out. destruct (outs (load_record w)) as [|[n| |] os].
    + done.
    + by apply IH, wrote_inv, set_outs_inv.
    + by apply set_outs_inv.
    + by apply set_fd_closed_inv, set_outs_inv.
Qed.

Lemma queue_frame_inv w op d : done_headers w = true -> WireInv w -> WireInv (queue_frame w op d).
Proof.
  intros Hdone Hi. unfold queue_frame.
  assert (Hd : WireInv (drop_flushed w) /\ done_headers (drop_flushed w) = true).
  { destruct Hi as [H1 H2 H3 H4 H5 H6]. unfold drop_flushed.
    destruct ((0 <? tx_sent w)%nat && _)%bool eqn:E; [|by split]. apply andb_true_iff in E as [_ E].
    apply Nat.eqb_eq in E. split; [|done]. unfold pending in *. rewrite drop_ge in H1, H6 by lia.
    split; try done. by intros Hb; destruct (H3 Hb). }
  destruct Hd as [[H1 H2 H3 H4 H5 H6] Hdone']. unfold append_tx, pending in *.
  split; cbn [tx tx_sent wire tls_tx handshake_sent handshake_buf queued done_headers];
    unfold pending; cbn [tx tx_sent]; try done.
  - rewrite drop_app_le, !app_assoc, H1 by done. by rewrite <-app_assoc.
  - rewrite length_app. lia.
  - congruence.
  - rewrite drop_app_le by done. by apply prefix_app_r.
Qed.

(** A state is tracked through the operations with its handshake settled. *)
Lemma on_frame_inv w fin op payload :
  done_headers w = true -> WireInv w -> BoundInv w ->
  WireInv (on_frame w fin op payload).2 /\ BoundInv (on_frame w fin op payload).2
  /\ done_headers (on_frame w fin op payload).2 = true
  /\ max_message (on_frame w fin op payload).2 = max_message w.
Proof.
  intros Hdone Hi Hb.
  assert (Hf : forall w0, done_headers w0 = true -> WireInv w0 -> BoundInv w0 ->
    max_message w0 = max_message w ->
    WireInv (flush w0).2 /\ BoundInv (flush w0).2 /\ done_headers (flush w0).2 = true
    /\ max_message (flush w0).2 = max_message w).
  { intros w0 Hd Hi0 [Hm Hr] Emax. unfold flush.
    split; [by apply flush_loop_inv|].
    destruct (flush_loop_keeps (S (length (outs w0))) w0) as (E1 & E2 & E3 & _ & E5 & _).
    split; [split; by rewrite ?E1, ?E2, ?E3|]. split; [by rewrite E5|by rewrite E3]. }
  assert (Hq : forall op, BoundInv (queue_frame w op payload)
    /\ max_message (queue_frame w op payload) = max_message w
    /\ done_headers (queue_frame w op payload) = true).
  { intros op0. destruct Hb as [Hm Hr]. unfold queue_frame, append_tx, drop_flushed.
    destruct ((0 <? tx_sent w)%nat && _)%bool; split; (by split) || done. }
  assert (Hmsg : forall f, len (msg w) + len payload <= max_message w ->
    WireInv (append_msg w payload f) /\ BoundInv (append_msg w payload f)
    /\ done_headers (append_msg w payload f) = true
    /\ max_message (append_msg w payload f) = max_message w).
  { intros f Hl. destruct Hi as [H1 H2 H3 H4 H5 H6], Hb as [Hm Hr]. split; [by split|].
    split; [|done]. split; [|done]. cbn [append_msg msg max_message]. rewrite length_app. lia. }
  unfold on_frame. destruct (op =? WS_OP_CLOSE).
  { destruct (sent_close w); [done|]. cbn [snd]. destruct (Hq WS_OP_CLOSE) as ([Hm Hr] & He & Hd).
    apply Hf; [done| |by split|done].
    destruct (queue_frame_inv w WS_OP_CLOSE payload Hdone Hi) as [H1 H2 H3 H4 H5 H6]. by split. }
  destruct (op =? WS_OP_PING).
  { destruct (Hq WS_OP_PONG) as (? & ? & ?). by apply Hf; [|apply queue_frame_inv|..]. }
  destruct (op =? WS_OP_PONG); [done|].
  destruct (op =? WS_OP_CONT).
  { destruct (negb (in_fragment w)); [done|].
    destruct (Z.ltb_spec (max_message w) (len (msg w) + len payload)); [done|]. by apply Hmsg. }
  destruct (_ || _)%bool; [|done]. destruct (in_fragment w); [done|].
  destruct (Z.ltb_spec (max_message w) (len (msg w) + len payload)); [done|]. by apply Hmsg.
Qed.

Lemma set_rx_inv w r : WireInv w -> WireInv (set_rx w r).
Proof. intros [H1 H2 H3 H4 H5 H6]. by split. Qed.

Lemma decode_loop_inv fuel w :
  done_headers w = true -> WireInv w -> BoundInv w ->
  WireInv (decode_loop fuel w).2 /\ BoundInv (decode_loop fuel w).2
  /\ done_headers (decode_loop fuel w).2 = true.
Proof.
  revert w. induction fuel as [|fuel IH]; intros w Hd Hi Hb; [done|]. cbn [decode_loop].
  destruct (next_frame _ _) as [| |fin op payload need]; [done..|].
  destruct (on_frame_inv w fin op payload Hd Hi Hb) as (Hi' & [Hm Hr] & Hd' & _).
  destruct (on_frame w fin op payload) as [ok w']. cbn [snd] in *. destruct ok; [|done].
  apply IH; [done|by apply set_rx_inv|]. split; [done|]. cbn [set_rx rx max_message].
  rewrite length_drop. lia.
Qed.

Section upgrade_props.
Variable sha1 base64_encode : bytes -> bytes.

Lemma handshake_loop_inv fuel w :
  done_headers w = false -> WireInv w ->
  WireInv (handshake_loop fuel w).2 /\ done_headers (handshake_loop fuel w).2 = false
  /\ ((handshake_loop fuel w).1 = true ->
      handshake_sent (handshake_loop fuel w).2 = length (handshake_buf (handshake_loop fuel w).2))
  /\ rx (handshake_loop fuel w).2 = rx w /\ msg (handshake_loop fuel w).2 = msg w
  /\ max_message (handshake_loop fuel w).2 = max_message w.
Proof.
  revert w. induction fuel as [|fuel IH]; intros w Hd Hi; cbn [handshake_loop];
    (destruct (Nat.ltb_spec (handshake_sent w) (length (handshake_buf w)));
     [|split_and!; try done; intros _; destruct Hi; cbn [snd]; lia]); [done|].
  unfold next_out. destruct (outs w) as [|[n| |] os]; try done.
  - destruct (IH (handshake_wrote (set_outs w os) n)) as (? & ? & ? & ? & ? & ?); [done| |done].
    destruct Hi as [H1 H2 H3 H4 H5 H6]. destruct (H3 Hd) as [Hq Ht].
    unfold pending in *. rewrite Ht, drop_nil, app_nil_r, Hq, app_nil_r in H1.
    split; unfold handshake_wrote, pending;
      cbn [wire tx tx_sent handshake_sent handshake_buf queued done_headers tls_tx set_outs].
    + rewrite Ht, drop_nil, app_nil_r, Hq, app_nil_r, H1, length_drop.
      destruct (Nat.min_spec n (length (handshake_buf w) - handshake_sent w)) as [[? ->]|[? ->]].
      * apply take_take_drop.
      * rewrite (take_ge (drop _ _)) by (rewrite length_drop; lia).
        rewrite (take_ge _ (_ + _)) by lia. apply take_drop.
    + lia.
    + done.
    + congruence.
    + rewrite length_drop. lia.
    + exact H6.
  - by split_and!; try apply set_outs_inv.
  - by split_and!; try apply set_fd_closed_inv, set_outs_inv.
Qed.

Lemma check_headers_inv w :
  done_headers w = false -> WireInv w -> BoundInv w ->
  WireInv (check_headers sha1 base64_encode w) /\ BoundInv (check_headers sha1 base64_encode w).
Proof.
  intros Hd Hi [Hm Hr]. unfold check_headers.
  destruct (find_sub _ (rx w)) as [e|]; [|by split].
  set (hd := take (e + 4) (rx w)). clearbody hd.
  assert (Ht : WireInv (set_target w hd) /\ BoundInv (set_target w hd)
    /\ done_headers (set_target w hd) = false).
  { unfold set_target. destruct Hi as [H1 H2 H3 H4 H5 H6].
    destruct (find_byte 32 hd); [|by split]. destruct (find_byte 32 (drop _ hd)); by split. }
  revert Ht. generalize (set_target w hd). intros w1 (Hi1 & Hb1 & Hd1).
  destruct (sec_key hd) as [key|]; [|done]. unfold send_handshake.
  assert (Hs : WireInv (start_handshake sha1 base64_encode w1 key)
    /\ BoundInv (start_handshake sha1 base64_encode w1 key)
    /\ done_headers (start_handshake sha1 base64_encode w1 key) = false).
  { unfold start_handshake. destruct (handshake_buf w1) eqn:Eh; [|done].
    destruct Hi1 as [H1 H2 H3 H4 H5 H6], Hb1 as [Hm1 Hr1]. rewrite Eh in *. cbn [length] in H5.
    split; [|by split]. split; try done; cbn [handshake_buf handshake_sent length]; try lia.
    - unfold pending in *. cbn [tx tx_sent wire handshake_sent handshake_buf queued].
      rewrite H1. by replace (handshake_sent w1) with O by lia.
    - cbn [done_headers]. congruence. }
  revert Hs. generalize (start_handshake sha1 base64_encode w1 key). intros w2 (Hi2 & [Hm2 Hr2] & Hd2).
  destruct (handshake_loop_inv (S (length (outs w2))) w2 Hd2 Hi2) as (Hi3 & Hd3 & Hfull & Erx & Emsg & Emax).
  destruct (handshake_loop _ w2) as [ok w3]. cbn [fst snd] in *.
  assert (Hb3 : BoundInv w3) by (split; by rewrite ?Erx, ?Emsg, ?Emax).
  destruct ok; [|done]. destruct Hi3 as [H1 H2 H3 H4 H5 H6], Hb3 as [Hm3 Hr3].
  split.
  - by split.
  - split; [done|]. cbn [headers_done rx max_message]. rewrite length_drop. lia.
Qed.

Lemma fill_pending_inv w acc r :
  WireInv w -> BoundInv w ->
  WireInv (fill_pending w acc r) /\ BoundInv (fill_pending w acc r)
  /\ done_headers (fill_pending w acc r) = done_headers w.
Proof.
  intros [H1 H2 H3 H4 H5 H6] [Hm Hr]. unfold fill_pending.
  destruct (negb (fd_open w)); [done|].
  destruct (Z.ltb_spec (max_message w + 64) (len (rx w))); [done|].
  assert (Hrx : forall b, len (rx w ++ take WS_READ_CHUNK b)
    <= Z.max 0 (max_message w) + 64 + Z.of_nat WS_READ_CHUNK)
    by (intros b; rewrite length_app, length_take; lia).
  destruct (has_ssl w && _)%bool; [destruct acc; try done|]; destruct r; try done;
    (split; [by split|]; split; [|done]; split; [done|apply Hrx]).
Qed.

(** The calls an owner makes, and the socket becoming writable again. *)
Inductive ws_op :=
| OpSend (buf : bytes)
| OpRecv (n : nat) (acc : acc_out) (r : rd_out)
| OpFlush
| OpOuts (os : list wr_out).

Definition ws_apply w (op : ws_op) : WebSocket :=
  match op with
  | OpSend buf => (send w buf).2
  | OpRecv n acc r => (recv sha1 base64_encode w n acc r).2
  | OpFlush => (flush w).2
  | OpOuts os => set_outs w os
  end.

Lemma set_msg_taken_inv w n :
  WireInv w -> BoundInv w -> WireInv (set_msg_taken w n) /\ BoundInv (set_msg_taken w n).
Proof.
  intros [H1 H2 H3 H4 H5 H6] [Hm Hr]. unfold set_msg_taken. destruct (n =? _)%nat; [|by split; split].
  split; split; try done. cbn [msg max_message length]. lia.
Qed.

Lemma ws_apply_inv w op :
  WireInv w -> BoundInv w -> WireInv (ws_apply w op) /\ BoundInv (ws_apply w op).
Proof.
  assert (Hfl : forall w, WireInv w -> BoundInv w -> WireInv (flush w).2 /\ BoundInv (flush w).2).
  { intros w0 Hi [Hm Hr]. unfold flush. split; [by apply flush_loop_inv|].
    destruct (flush_loop_keeps (S (length (outs w0))) w0) as (E1 & E2 & E3 & _).
    split; by rewrite ?E1, ?E2, ?E3. }
  intros Hi Hb. destruct op as [buf|n acc r| |os]; cbn [ws_apply].
  - unfold send. destruct (done_headers w) eqn:Hd; cbn [negb]; [|done].
    destruct (negb (fd_open w)); [done|]. destruct (WS_MAX_TX_QUEUE <? _).
    { destruct Hb. split; [by apply set_fd_closed_inv|by split]. }
    assert (Hq : BoundInv (queue_frame w WS_OP_BIN buf)).
    { destruct Hb. unfold queue_frame, append_tx, drop_flushed. by destruct (_ && _)%bool. }
    pose proof (Hfl _ (queue_frame_inv w WS_OP_BIN buf Hd Hi) Hq) as Hf.
    by destruct (flush (queue_frame w WS_OP_BIN buf)) as [ok w'].
  - unfold recv. destruct (msg_taken w <? length (msg w))%nat; [by apply set_msg_taken_inv|].
    destruct (fill_pending_inv w acc r Hi Hb) as (Hi1 & Hb1 & _).
    revert Hi1 Hb1. generalize (fill_pending w acc r). clear. intros w Hi Hb.
    destruct (negb (fd_open w)); [done|].
    assert (Hc : WireInv (if done_headers w then w else check_headers sha1 base64_encode w)
      /\ BoundInv (if done_headers w then w else check_headers sha1 base64_encode w))
      by (destruct (done_headers w) eqn:Hd; [done|by apply check_headers_inv]).
    revert Hc. generalize (if done_headers w then w else check_headers sha1 base64_encode w).
    clear. intros w [Hi Hb]. destruct (done_headers w) eqn:Hd; cbn [negb]; [|done].
    unfold decode_frames. destruct (decode_loop_inv (S (length (rx w))) w Hd Hi Hb) as (Hi1 & Hb1 & _).
    destruct (decode_loop _ w) as [ok w1]. cbn [snd] in *. destruct ok; cbn [negb snd].
    + destruct (_ || _)%bool; [done|by apply set_msg_taken_inv].
    + destruct Hb1. split; [by apply set_fd_closed_inv|by split].
  - by apply Hfl.
  - destruct Hb. split; [by apply set_outs_inv|by split].
Qed.

Lemma ws_new_inv max_msg stream certs acc r os :
  WireInv (ws_new sha1 base64_encode max_msg stream certs acc r os)
  /\ BoundInv (ws_new sha1 base64_encode max_msg stream certs acc r os).
Proof.
  unfold ws_new. cbv zeta. set (w0 := Build_WebSocket _ _ _ _ _ _ _ _ _ _ _ _ _ _ _ _ _ _ _ _).
  assert (Hi : WireInv w0) by (split; try done).
  assert (Hb : BoundInv w0) by (split; cbn; lia).
  destruct (_ && negb certs)%bool; [done|]. destruct (fill_pending_inv w0 acc r Hi Hb) as (Hi1 & Hb1 & Hd1). by apply check_headers_inv.
Qed.

Lemma ws_reachable_inv max_msg stream certs acc r os ops :
  let w := fold_left ws_apply ops (ws_new sha1 base64_encode max_msg stream certs acc r os) in
  WireInv w /\ BoundInv w.
Proof.
  cbn zeta. destruct (ws_new_inv max_msg stream certs acc r os) as [Hi Hb].
  revert Hi Hb. generalize (ws_new sha1 base64_encode max_msg stream certs acc r os).
  induction ops as [|op ops IH]; intros w Hi Hb; [done|]. cbn [fold_left].
  destruct (ws_apply_inv w op Hi Hb). by apply IH.
Qed.

(** C21: However the peer's reads cut the output into partial writes, what has reached the
    wire at any moment is the 101 response and then the queued frames, in order, with no
    byte lost, repeated or reordered; nothing of a frame goes out before the response is
    complete; and a TLS record being retried is the next pending bytes. *)
Theorem wire_in_order max_msg stream certs acc r os ops :
  let w := fold_left ws_apply ops (ws_new sha1 base64_encode max_msg stream certs acc r os) in
  wire w ++ pending w = take (handshake_sent w) (handshake_buf w) ++ queued w
  /\ (queued w <> [] -> handshake_sent w = length (handshake_buf w))
  /\ tls_tx w `prefix_of` pending w.
Proof.
  cbn zeta. destruct (ws_reachable_inv max_msg stream certs acc r os ops) as [[H1 H2 H3 H4 H5 H6] _].
  split; [done|]. split; [|done]. intros Hq.
  destruct (done_headers _) eqn:Hd; [by apply H4|]. by destruct (H3 eq_refl).
Qed.

(** Whatever a peer sends, the decoded and the raw receive buffers stay within the
    message limit and one read of it. *)
Theorem receive_buffers_bounded max_msg stream certs acc r os ops :
  let w := fold_left ws_apply ops (ws_new sha1 base64_encode max_msg stream certs acc r os) in
  len (msg w) <= Z.max 0 (max_message w)
  /\ len (rx w) <= Z.max 0 (max_message w) + 64 + 16384.
Proof. cbn zeta. destruct (ws_reachable_inv max_msg stream certs acc r os ops) as [_ [H1 H2]]. by split. Qed.
End upgrade_props.

(** ** Server frames *)

(** A client's reading of one server frame, and what follows it. *)
Definition client_reads (f : bytes) : option (Z * bytes * bytes) :=
  match frame_len f with
  | None => None
  | Some (n, h) =>
    if (length f <? h + Z.to_nat n)%nat then None
    else Some (Z.land (byte_at f 0) 0x0F, take (Z.to_nat n) (drop h f), drop (h + Z.to_nat n) f)
  end.

Lemma frame_header_len op n rest :
  0 <= op < 16 -> 0 <= n < 2 ^ 63 ->
  frame_len (frame_header op n ++ rest) = Some (n, hdr_size n)
  /\ length (frame_header op n) = hdr_size n
  /\ Z.land (byte_at (frame_header op n ++ rest) 0) 0x0F = op.
Proof.
  intros Hop Hn.
  assert (Hb : Z.land (u8 (Z.lor 128 op)) 15 = op).
  { assert (Hall : forallb (fun z => Z.land (u8 (Z.lor 128 z)) 15 =? z) (seqZ 0 16) = true) by (by vm_compute).
    rewrite forallb_forall in Hall. specialize (Hall op).
    rewrite <-list_elem_of_In, elem_of_seqZ in Hall. specialize (Hall ltac:(lia)). by apply Z.eqb_eq in Hall. }
  unfold frame_len, frame_header, hdr_size. destruct (Z.leb_spec n 125).
  - cbn [app]. rewrite byte_at_1, byte_at_0, (wrap_small 8 n) by lia.
    change 0x7F with (Z.ones 7). rewrite Z.land_ones, Z.mod_small by lia.
    change (Z.ones 7) with 127. by rewrite (proj2 (Z.eqb_neq n 126)), (proj2 (Z.eqb_neq n 127)) by lia.
  - destruct (Z.leb_spec n 65535); cbn [app]; rewrite byte_at_1, byte_at_0.
    + change (Z.land 126 127 =? 126) with true. cbv iota.
      rewrite (proj2 (Nat.ltb_ge _ 4)) by (cbn [length]; rewrite length_app, length_be_bytes; lia).
      rewrite slice_cons2, slice_here by (rewrite ?length_be_bytes; lia).
      rewrite be_val_be_bytes_small by (change (256 ^ Z.of_nat 2) with 65536; lia).
      split; [done|]. cbn [length]. by rewrite length_be_bytes.
    + change (Z.land 127 127 =? 126) with false. change (Z.land 127 127 =? 127) with true. cbv iota.
      rewrite (proj2 (Nat.ltb_ge _ 10)) by (cbn [length]; rewrite length_app, length_be_bytes; lia).
      rewrite slice_cons2, slice_here by (rewrite ?length_be_bytes; lia).
      rewrite be_val_be_bytes_small by (change (256 ^ Z.of_nat 8) with (2 ^ 64); lia).
      split; [done|]. cbn [length]. by rewrite length_be_bytes.
Qed.

(** Every frame queued for the peer parses back to its opcode and payload, whatever
    length form it needed and whatever follows it; and a send that reports the bytes sent
    on an upgraded connection has queued exactly that frame. *)
Theorem queued_frame_parses w op data rest :
  0 <= op < 16 -> len data < 2 ^ 63 ->
  queued (queue_frame w op data) = queued w ++ frame_header op (len data) ++ data
  /\ client_reads ((frame_header op (len data) ++ data) ++ rest) = Some (op, data, rest)
  /\ (done_headers w = true -> (send w data).1 = len data ->
      queued (send w data).2 = queued w ++ frame_header WS_OP_BIN (len data) ++ data).
Proof.
  intros Hop Hl. assert (Hq : forall op, queued (queue_frame w op data)
    = queued w ++ frame_header op (len data) ++ data)
    by (intros; unfold queue_frame, append_tx, drop_flushed; by destruct (_ && _)%bool).
  split; [apply Hq|]. split.
  - destruct (frame_header_len op (len data) (data ++ rest) Hop ltac:(lia)) as (E1 & E2 & E3).
    unfold client_reads. rewrite <-app_assoc, E1, E3, Nat2Z.id.
    rewrite (proj2 (Nat.ltb_ge _ _)) by (rewrite !length_app; lia).
    do 2 f_equal; [f_equal|].
    + by rewrite (drop_app_length' (frame_header _ _)), take_app_length by done.
    + rewrite app_assoc. apply drop_app_length'. rewrite length_app. lia.
  - intros Hd. unfold send. rewrite Hd. cbn [negb]. destruct (negb (fd_open w)); [cbn; lia|].
    destruct (WS_MAX_TX_QUEUE <? _); [cbn; lia|].
    destruct (flush_loop_keeps (S (length (outs (queue_frame w WS_OP_BIN data)))) (queue_frame w WS_OP_BIN data))
      as (_ & _ & _ & _ & _ & _ & _ & _ & E & _).
    unfold flush. destruct (flush_loop _ _) as [ok w']. cbn [snd] in *. destruct ok; cbn; intros; [|lia].
    by rewrite E.
Qed.

Lemma queued_frame_parses_witness :
  client_reads ((frame_header WS_OP_BIN 300 ++ replicate 300 7) ++ [1; 2])
  = Some (WS_OP_BIN, replicate 300 7, [1; 2]).
Proof.
  apply (queued_frame_parses (ws_new (fun m => m) (fun m => m) 1000 [] true AccDone RdAgain [])
    WS_OP_BIN (replicate 300 7) [1; 2]); done.
Defined.

(** ** Where the limits do not hold *)

Lemma flush_full w : outs w = [] -> pending w <> [] -> flush w = (true, load_record w).
Proof.
  intros Ho Hp. unfold flush. rewrite Ho. cbn [length flush_loop].
  destruct (Nat.ltb_spec (tx_sent w) (length (tx w))).
  - unfold next_out. replace (outs (load_record w)) with (outs w)
      by (unfold load_record; by destruct (over_tls w && _)%bool). by rewrite Ho.
  - exfalso. apply Hp. unfold pending. by rewrite drop_ge by lia.
Qed.

Lemma pending_queue w op d :
  (tx_sent w <= length (tx w))%nat ->
  pending (queue_frame w op d) = pending w ++ frame_header op (len d) ++ d.
Proof.
  intros Hs. unfold queue_frame, append_tx, drop_flushed, pending.
  destruct ((0 <? tx_sent w)%nat && _)%bool eqn:E; cbn [tx tx_sent].
  - apply andb_true_iff in E as [_ E]. apply Nat.eqb_eq in E. by rewrite (drop_ge (tx w)) by lia.
  - by rewrite drop_app_le.
Qed.

(** The output cap is checked by [send] only.  A peer that does not read and keeps
    sending pings makes the queue grow by a pong each, and the connection stays up. *)
Lemma pings_grow_the_queue w p n :
  outs w = [] -> (tx_sent w <= length (tx w))%nat ->
  let w' := Nat.iter n (fun w => (on_frame w true WS_OP_PING p).2) w in
  length (pending w')
    = (length (pending w) + n * length (frame_header WS_OP_PONG (len p) ++ p))%nat
  /\ fd_open w' = fd_open w.
Proof.
  intros Ho Hs. cbn zeta.
  enough (G : length (pending (Nat.iter n (fun w => (on_frame w true WS_OP_PING p).2) w))
      = (length (pending w) + n * length (frame_header WS_OP_PONG (len p) ++ p))%nat
    /\ fd_open (Nat.iter n (fun w => (on_frame w true WS_OP_PING p).2) w) = fd_open w
    /\ outs (Nat.iter n (fun w => (on_frame w true WS_OP_PING p).2) w) = []
    /\ (tx_sent (Nat.iter n (fun w => (on_frame w true WS_OP_PING p).2) w)
       <= length (tx (Nat.iter n (fun w => (on_frame w true WS_OP_PING p).2) w)))%nat) by tauto.
  induction n as [|n IH]; [split_and!; try done; cbn; lia|]. cbn [Nat.iter nat_rect].
  fold (Nat.iter n (fun w => (on_frame w true WS_OP_PING p).2) w).
  revert IH. generalize (Nat.iter n (fun w => (on_frame w true WS_OP_PING p).2) w).
  intros v (Hl & Hfd & Hov & Hsv). unfold on_frame.
  cbn [Z.eqb Pos.eqb WS_OP_CLOSE WS_OP_PING]. cbn [snd].
  assert (Hq : outs (queue_frame v WS_OP_PONG p) = [] /\ fd_open (queue_frame v WS_OP_PONG p) = fd_open v
    /\ (tx_sent (queue_frame v WS_OP_PONG p) <= length (tx (queue_frame v WS_OP_PONG p)))%nat).
  { unfold queue_frame, append_tx, drop_flushed.
    destruct ((0 <? tx_sent v)%nat && _)%bool; cbn; rewrite ?length_app; split_and!; done || lia. }
  pose proof (pending_queue v WS_OP_PONG p Hsv) as Hpq.
  revert Hq Hpq. generalize (queue_frame v WS_OP_PONG p). intros u (Ho1 & Hf1 & Hs1) Hpq.
  rewrite flush_full; [|done|rewrite Hpq; by destruct (pending v)]. cbn [snd].
  rewrite pending_load, Hpq, length_app.
  unfold load_record. destruct (over_tls u && _)%bool; cbn [outs fd_open tx tx_sent];
    (split; [cbn [Nat.mul]; lia|]; split; [congruence|]; done).
Qed.

(** Two complete messages in one read are joined before the limit is applied: each is
    within it, their sum is not, and the connection is failed. *)
Lemma pipelined_messages_fail :
  let w := ws_new (fun m => m) (fun m => m) 4 [] true AccDone RdAgain [] in
  let m := client_frame true WS_OP_BIN [1; 2; 3; 4] [5; 6; 7] in
  (decode_frames (set_rx w m)).1 = true /\ (decode_frames (set_rx w (m ++ m))).1 = false.
Proof. by vm_compute. Qed.

(** A message still being assembled is handed over all the same: the read that starts it
    reports nothing, and the next one, with no more bytes from the peer, gives its first
    fragment. *)
Lemma open_message_delivered :
  let w := ws_new (fun m => m) (fun m => m) 100 [] true AccDone RdAgain [] <| done_headers := true |> in
  let first := recv (fun m => m) (fun m => m) w 10 AccDone
                 (RdData (client_frame false WS_OP_BIN [1; 2; 3; 4] [5; 6; 7])) in
  let second := recv (fun m => m) (fun m => m) first.2 10 AccDone RdAgain in
  first.1.1 = 0 /\ in_fragment first.2 = true /\ second.1 = (3, [5; 6; 7]).
Proof. by vm_compute. Qed.
