(* ===== verification/MavLink.v ===== *)
(** * MAVLink links and their signing (mavlink.cpp, mavlink.h)

    The generated MAVLink library (parser, signature check, message packing) is not part
    of the repository: the parser of a channel, the length tables and the packing are
    parameters; keys.tdb is the [Tdb] interface.  A channel's signing block is kept in
    the channel table, where [status->signing] points at it.  Times are integer
    microseconds ([time_seconds()] times 10^6); [None] results are the null database
    handle being used. *)

From S2P Require Import Prelude Tdb KeyDb.

Definition MAVLINK_COMM_NUM_BUFFERS : Z := 102.
Definition MAVLINK_IFLAG_SIGNED : Z := 1.
Definition MAVLINK_IFLAG_TARGET32 : Z := 2.
Definition MAVLINK_MSG_ID_HEARTBEAT : Z := 0.
Definition MAVLINK_MSG_ID_SETUP_SIGNING : Z := 256.
Definition MAVLINK_SIGNING_FLAG_SIGN_OUTGOING : Z := 1.
Definition epoch_offset : Z := 1420070400.
Definition usec : Z := 1000000.

(** ** Data *)

Record message := {
  msgid : Z;
  seq_no : Z;
  sysid : Z;
  compid : Z;
  incompat_flags : Z;
  target_sysid : Z;
  payload : bytes;
  signature : bytes
}.

#[export] Instance eta_message : Eta message := fun m =>
  Build_message (msgid m) (seq_no m) (sysid m) (compid m) (incompat_flags m)
    (target_sysid m) (payload m) (signature m).

Inductive signing_status :=
| SIGNING_NONE | SIGNING_OK | BAD_SIGNATURE | REPLAY | OLD_TIMESTAMP | NO_STREAMS | TOO_MANY_STREAMS.

Record signing := {
  sg_secret_key : bytes;
  link_id : Z;
  sg_timestamp : Z;
  sg_flags : Z;
  last_status : signing_status
}.

#[export] Instance eta_signing : Eta signing := fun s =>
  Build_signing (sg_secret_key s) (link_id s) (sg_timestamp s) (sg_flags s) (last_status s).

Inductive warning :=
| NeedSetup | NeedSigning | BadKey | BadReplay | BadOldTimestamp | BadNoStreams | BadStreams.

(** What a link writes: a message's bytes, or a STATUSTEXT, unsigned or on its channel. *)
Inductive out_event := Sent (data : bytes) | Statustext (on_channel : bool) (w : warning).

Record MAVLink := {
  key : KeyEntry;
  chan : Z;
  key_id : Z;
  is_tcp : bool;
  key_loaded : bool;
  got_signed_packet : bool;
  last_signing_save : Z;
  last_signing_warning : Z;
  last_sysid : Z;
  last_compid : Z;
  bad_sig_count : Z;
  allow_websocket : bool
}.

#[export] Instance eta_MAVLink : Eta MAVLink := fun m =>
  Build_MAVLink (key m) (chan m) (key_id m) (is_tcp m) (key_loaded m) (got_signed_packet m)
    (last_signing_save m) (last_signing_warning m) (last_sysid m) (last_compid m)
    (bad_sig_count m) (allow_websocket m).

Implicit Types m : MAVLink.

(** [uint64_t(now_s - epoch_offset) * 100 * 1000], zero before the epoch. *)
Definition now_mavlink (now : Z) : Z :=
  if epoch_offset * usec <? now then u64 ((now - epoch_offset * usec) / usec * 100 * 1000) else 0.

Definition all_zero_key (ts : Z) (secret : bytes) : bool :=
  (ts =? 0) && forallb (fun b => b =? 0) secret.

Section mavlink.
Context {db : Type} `{Tdb db}.
(** A channel's parser state, and one byte through it: the state and signing block after
    it, whether [accept_unsigned_callback] was called, and the message completed. *)
Context {P : Type}.
Variable parse_char : P -> option signing -> Z -> P * option signing * bool * option message.
(** [mavlink_min_message_length], [mavlink_max_message_length]. *)
Variable msg_lengths : Z -> Z * Z.
(** [mavlink_finalize_message_buffer(_target)] with the channel's signing block, then
    [mavlink_msg_to_send_buffer]; [None] when either gives length zero. *)
Variable finalize : option signing -> message -> option bytes.
Variable decode_setup_signing : message -> Z * bytes.

(** The library's channel table and the class's per-channel flag. *)
Record world := {
  parser : Z -> P;
  wired : Z -> option signing;
  got_bad_signature : Z -> bool
}.

Definition upd {A} (f : Z -> A) (c : Z) (v : A) : Z -> A := fun c' => if c' =? c then v else f c'.

Definition set_wired (w : world) (c : Z) (s : option signing) : world :=
  Build_world (parser w) (upd (wired w) c s) (got_bad_signature w).
Definition set_bad (w : world) (c : Z) (b : bool) : world :=
  Build_world (parser w) (wired w) (upd (got_bad_signature w) c b).
Definition set_parser (w : world) (c : Z) (p : P) : world :=
  Build_world (upd (parser w) c p) (wired w) (got_bad_signature w).

Implicit Types w : world.

(** ** Keys and timestamps *)

(** The signing block for a loaded key. *)
Definition signing_for (k : KeyEntry) (c now : Z) : signing :=
  let loaded := u64 (timestamp k + 15 * 100 * 1000) in
  let t := now_mavlink now in
  {| sg_secret_key := secret_key k; link_id := u8 c;
     sg_timestamp := if loaded <? t then t else loaded;
     sg_flags := MAVLINK_SIGNING_FLAG_SIGN_OUTGOING; last_status := SIGNING_NONE |}.

Definition set_key m (k : KeyEntry) : MAVLink := m <| key := k |>.

Definition load_signing_key m w (h : option db) (now : Z) : option (MAVLink * world) :=
  match h with
  | None => None
  | Some h =>
    let '(ok, k) := db_load_key h (key_id m) (key m) in
    let m := set_key m k in
    if negb ok then Some (m, w)
    else if all_zero_key (timestamp k) (secret_key k)
    then Some (m, set_wired w (chan m) None)
    else Some (m <| key_loaded := true |>, set_wired w (chan m) (Some (signing_for k (chan m) now)))
  end.

Definition raise_to (ts : Z) (s : signing) : signing :=
  if sg_timestamp s <? ts then s <| sg_timestamp := ts |> else s.

(** Every wired link's timestamp brought up to [ts]. *)
Definition raise_all w (ts : Z) : world :=
  Build_world (parser w)
    (fun c => if (0 <=? c) && (c <? MAVLINK_COMM_NUM_BUFFERS) then raise_to ts <$> wired w c else wired w c)
    (got_bad_signature w).

(** The flag: a child was forked to run [save_signing_timestamp]. *)
Definition update_signing_timestamp m w (now : Z) : MAVLink * world * bool :=
  if now - last_signing_save m <? 10 * usec then (m, w, false)
  else
    let ts := now / usec in
    let ts := if epoch_offset <? ts then ts - epoch_offset else ts in
    (m <| last_signing_save := now |>, raise_all w (u64 (ts * (100 * 1000))), true).

(** One channel's contribution to the saved timestamp. *)
Definition save_channel (now_ts : Z) (acc : Z * bool) (s : option signing) : Z * bool :=
  match s with
  | None => acc
  | Some s =>
    let v := if now_ts <? sg_timestamp s then now_ts else sg_timestamp s in
    if acc.1 <? v then (v, true) else acc
  end.

Definition channel_ids : list Z := seqZ 0 MAVLINK_COMM_NUM_BUFFERS.

Definition save_signing_timestamp m w (h : db) (now : Z) : db :=
  let '(ok, k) := db_load_key h (key_id m) (key m) in
  if negb ok then h
  else
    let '(ts, need_save) :=
      fold_left (save_channel (now_mavlink now)) (map (wired w) channel_ids) (timestamp k, false) in
    if need_save then default h (db_save_key h (key_id m) (k <| timestamp := ts |>)) else h.

Definition fresh_link (c : Z) (allow_ws tcp : bool) (kid : Z) (k : KeyEntry) : MAVLink := {|
  key := k; chan := c; key_id := kid; is_tcp := tcp; key_loaded := false;
  got_signed_packet := false; last_signing_save := 0; last_signing_warning := 0;
  last_sysid := 0; last_compid := 0; bad_sig_count := 0; allow_websocket := allow_ws
|}.

Definition init (k0 : KeyEntry) w (c : Z) (signing_required allow_ws tcp : bool) (kid : Z)
    (h : option db) (now : Z) : option (MAVLink * world) :=
  let m := fresh_link c allow_ws tcp kid k0 in
  let w := set_bad w c false in
  if signing_required then
    match load_signing_key m w h now with
    | None => None
    | Some (m, w) => let '(m, w, _) := update_signing_timestamp m w now in Some (m, w)
    end
  else Some (m, w).

(** ** Receiving *)

Definition periodic_warning m (now : Z) : bool * MAVLink :=
  if 2 * usec <? now - last_signing_warning m
  then (true, m <| last_signing_warning := now |>) else (false, m).

Definition mav_printf (x : warning) : list out_event := [Statustext false x; Statustext true x].

Definition set_signed m (b : bool) : MAVLink := m <| got_signed_packet := b |>.
Definition set_bad_count m (n : Z) : MAVLink := m <| bad_sig_count := n |>.

Definition warn m (now : Z) (x : warning) : MAVLink * list out_event :=
  let '(due, m) := periodic_warning m now in (m, if due then mav_printf x else []).

(** The warning for a bad signature: two are let pass before BAD_SIGNATURE or REPLAY is
    reported, and those return without clearing [got_signed_packet]. *)
Definition on_bad_signature m (now : Z) (st : signing_status) : MAVLink * list out_event :=
  let '(due, m) := periodic_warning m now in
  if due then
    match st with
    | OLD_TIMESTAMP => (set_signed m false, mav_printf BadOldTimestamp)
    | NO_STREAMS => (set_signed m false, mav_printf BadNoStreams)
    | TOO_MANY_STREAMS => (set_signed m false, mav_printf BadStreams)
    | _ =>
      let m := set_bad_count m (u32 (bad_sig_count m + 1)) in
      if bad_sig_count m <? 3 then (m, [])
      else (set_signed m false, mav_printf (match st with REPLAY => BadReplay | _ => BadKey end))
    end
  else (set_signed m false, []).

(** [txn_ok]/[open_ok]: whether the transaction and the later open succeed. *)
Definition handle_setup_signing m w (h : db) (txn_ok open_ok : bool) (now : Z) (msg : message)
  : option (MAVLink * world * db) :=
  let '(initial_timestamp, secret) := decode_setup_signing msg in
  if all_zero_key initial_timestamp secret then Some (m, w, h)
  else if negb txn_ok then Some (m, w, h)
  else
    let '(ok, k) := db_load_key h (key_id m) (key m) in
    let m := set_key m k in
    if negb ok then Some (m, w, h)
    else
      let k := k <| timestamp := initial_timestamp |> <| secret_key := secret |> in
      let m := set_key m k in
      let h := default h (db_save_key h (key_id m) k) in
      let m := set_signed m false in
      match load_signing_key m w (if open_ok then Some h else None) now with
      | None => None
      | Some (m, w) => Some (m, w, h)
      end.

(** What receiving leaves: the verdict with its message, the bytes not read, the states and
    what was written. *)
Record received := {
  rc_msg : option message;
  rc_rest : bytes;
  rc_link : MAVLink;
  rc_world : world;
  rc_db : db;
  rc_out : list out_event
}.

Definition status_of w (c : Z) : signing_status :=
  match wired w c with Some s => last_status s | None => SIGNING_NONE end.

(** A complete message on a link; [None]: null database handle. *)
Definition on_message m w (h : db) (txn_ok open_ok : bool) (now : Z) (msg : message) (rest : bytes)
  : option received :=
  if key_id m =? -1 then Some (Build_received (Some msg) rest m w h [])
  else if negb (key_loaded m) then
    let '(m, out) := warn m now NeedSetup in Some (Build_received None rest m w h out)
  else if Z.land (incompat_flags msg) MAVLINK_IFLAG_SIGNED =? 0 then
    let '(m, out) := warn m now NeedSigning in
    Some (Build_received None rest (set_signed m false) w h out)
  else if got_bad_signature w (chan m) then
    let '(m, out) := on_bad_signature m now (status_of w (chan m)) in
    Some (Build_received None rest m w h out)
  else
    let m := set_signed (set_bad_count m 0) true in
    if msgid msg =? MAVLINK_MSG_ID_SETUP_SIGNING then
      match handle_setup_signing m w h txn_ok open_ok now msg with
      | None => None
      | Some (m, w, h) => Some (Build_received None rest m w h [])
      end
    else Some (Build_received (Some msg) rest m w h []).

(** One byte through the channel's parser. *)
Definition feed_char w (c b : Z) : world * option message :=
  let '(p, s, called, msg) := parse_char (parser w c) (wired w c) b in
  let w := set_wired (set_parser w c p) c s in
  (if called then set_bad w c true else w, msg).

Fixpoint receive_loop m w (h : db) (txn_ok open_ok : bool) (now : Z) (buf : bytes) : option received :=
  match buf with
  | [] => Some (Build_received None [] m w h [])
  | b :: buf =>
    match feed_char w (chan m) b with
    | (w, Some msg) => on_message m w h txn_ok open_ok now msg buf
    | (w, None) => receive_loop m w h txn_ok open_ok now buf
    end
  end.

Definition receive_message m w h txn_ok open_ok now buf : option received :=
  receive_loop m (set_bad w (chan m) false) h txn_ok open_ok now buf.

(** ** Sending *)

(** A TCP peer's socket: dead, congested (under 400 writable bytes) or not. *)
Inductive tcp_state := TcpDead | TcpCongested | TcpWritable.

Definition strip_signed (msg : message) : message :=
  msg <| incompat_flags := Z.land (incompat_flags msg) (Z.lxor MAVLINK_IFLAG_SIGNED 0xFF) |>.
Definition add_signed (msg : message) : message :=
  msg <| incompat_flags := Z.lor (incompat_flags msg) MAVLINK_IFLAG_SIGNED |>.

(** The message packed and written; [sent_ok]: the write took all of it. *)
Definition emit m w (msg : message) (sent_ok : bool) : bool * list out_event :=
  let '(min_len, max_len) := msg_lengths (msgid msg) in
  if (min_len =? 0) && (max_len =? 0) then (false, [])
  else match finalize (wired w (chan m)) msg with
       | None => (false, [])
       | Some data => (sent_ok, [Sent data])
       end.

Definition note_heartbeat m (msg : message) : MAVLink :=
  if msgid msg =? MAVLINK_MSG_ID_HEARTBEAT
  then m <| last_sysid := sysid msg |> <| last_compid := compid msg |> else m.

(** Past the TCP checks. *)
Definition send_unblocked m w (sent_ok : bool) (now : Z) (msg : message)
  : bool * MAVLink * world * list out_event :=
  if key_id m =? -1 then
    let '(ok, out) := emit m w (strip_signed msg) sent_ok in (ok, m, w, out)
  else if negb (got_signed_packet m) && negb (msgid msg =? MAVLINK_MSG_ID_HEARTBEAT)
  then (true, m, w, [])
  else
    let m := note_heartbeat m msg in
    let '(m, w) := if key_loaded m then (update_signing_timestamp m w now).1 else (m, w) in
    let '(ok, out) := emit m w (add_signed msg) sent_ok in (ok, m, w, out).

Definition send_message m w (tcp : tcp_state) (sent_ok : bool) (now : Z) (msg : message)
  : bool * MAVLink * world * list out_event :=
  match is_tcp m, tcp with
  | true, TcpDead => (false, m, w, [])
  | true, TcpCongested => (true, m, w, [])
  | _, _ => send_unblocked m w sent_ok now msg
  end.

(** [accept_unsigned_callback]: every message is let through to [receive_message], and the
    link's flag remembers. *)
Definition accept_unsigned_callback w (s : option signing) : bool * world :=
  (true, match s with
         | Some s => if link_id s <? MAVLINK_COMM_NUM_BUFFERS then set_bad w (link_id s) true else w
         | None => w
         end).
End mavlink.

(** ** Signing keys and timestamps *)

Section mavlink_props.
Context {db : Type} `{TdbLaws db} {P : Type}.
Variable parse_char : P -> option signing -> Z -> P * option signing * bool * option message.
Variable msg_lengths : Z -> Z * Z.
Variable finalize : option signing -> message -> option bytes.
Variable decode_setup_signing : message -> Z * bytes.

Implicit Types w : world (P := P).
Implicit Types h : db.

Lemma save_channel_bounds now_ts ts b s :
  ts <= (save_channel now_ts (ts, b) s).1 <= Z.max ts now_ts
  /\ ((save_channel now_ts (ts, b) s).2 = false -> (save_channel now_ts (ts, b) s).1 = ts /\ b = false).
Proof.
  unfold save_channel. destruct s as [s|]; [|cbn; split; [lia|done]]. cbn [fst].
  set (v := if now_ts <? sg_timestamp s then now_ts else sg_timestamp s).
  assert (v <= now_ts) by (unfold v; destruct (Z.ltb_spec now_ts (sg_timestamp s)); lia).
  destruct (Z.ltb_spec ts v); cbn; split; (lia || done).
Qed.

Lemma save_fold_bounds now_ts l ts b :
  let r := fold_left (save_channel now_ts) l (ts, b) in
  ts <= r.1 <= Z.max ts now_ts /\ (r.2 = false -> r.1 = ts).
Proof.
  cbn zeta. revert ts b. induction l as [|s l IH]; intros ts b; [cbn; split; [lia|done]|].
  cbn [fold_left]. destruct (save_channel_bounds now_ts ts b s) as [Hb Hf].
  destruct (save_channel now_ts (ts, b) s) as [ts1 b1] eqn:E. cbn [fst snd] in *.
  destruct (IH ts1 b1) as [Hb1 Hf1]. split; [lia|]. intros Hr. rewrite Hf1 by done.
  destruct b1; [|by apply Hf]. exfalso. revert Hr. clear. generalize ts1.
  induction l as [|s l IH]; intros t; [done|]. cbn [fold_left]. unfold save_channel at 2.
  destruct s as [s|]; [|apply IH]. cbn [fst]. destruct (t <? _); apply IH.
Qed.

Lemma now_mavlink_u64 now : 0 <= now_mavlink now < 2 ^ 64.
Proof. unfold now_mavlink. destruct (_ <? now); [apply wrap_range; lia|lia]. Qed.

(** Saving the signing timestamp never moves the stored one back and never past the
    later of what it was and the present; nothing else of the record or of any other
    entry's changes. *)
Theorem saved_timestamp_monotone `{!TdbReliable db} m w h now k k0 :
  values_ok h -> db_load_key h (key_id m) (key m) = (true, k) ->
  let h' := save_signing_timestamp m w h now in
  exists ts, db_load_key h' (key_id m) k0 = (true, k <| timestamp := ts |>)
    /\ timestamp k <= ts <= Z.max (timestamp k) (now_mavlink now)
    /\ forall q, q <> key_of (key_id m) -> tdb_fetch h' q = tdb_fetch h q.
Proof.
  intros Hv Hk. destruct (db_load_key_wf _ _ _ _ Hv Hk) as [Hwf Hm].
  cbn zeta. unfold save_signing_timestamp. rewrite Hk. cbn [negb].
  destruct (save_fold_bounds (now_mavlink now) (map (wired w) channel_ids) (timestamp k) false) as [Hb Hf].
  destruct (fold_left _ _ _) as [ts need]. cbn [fst snd] in *.
  pose proof (now_mavlink_u64 now). destruct need.
  - exists ts. destruct (db_save_load h (key_id m) (k <| timestamp := ts |>) k0) as (h' & E & El & Eo).
    + destruct Hwf as [W1 W2 W3 W4 W5 W6 W7 W8 W9]. split; try done. cbn [timestamp].
      unfold is_u64 in *. lia.
    + done.
    + rewrite E. change (default h (Some h')) with h'. done.
  - exists (timestamp k). rewrite Hf in Hb by done. split; [|split; [lia|done]].
    rewrite (db_load_key_any _ _ _ k0 _ Hk). by destruct k.
Qed.

(** Loading a key signs the link with it from a timestamp at least 15 seconds past
    the saved one and not before the present, so a packet replayed from before a restart
    is stale; an all-zero key is never put on a link, which is left without signing. *)
Theorem load_signing_key_spec m w h now k :
  values_ok h -> db_load_key h (key_id m) (key m) = (true, k) ->
  timestamp k < 2 ^ 63 ->
  match load_signing_key m w (Some h) now with
  | None => False
  | Some (m', w') =>
    (forall c, c <> chan m -> wired w' c = wired w c)
    /\ if all_zero_key (timestamp k) (secret_key k)
       then wired w' (chan m) = None /\ key_loaded m' = key_loaded m
       else key_loaded m' = true /\ key m' = k
            /\ exists s, wired w' (chan m) = Some s /\ sg_secret_key s = secret_key k
                 /\ timestamp k + 1500000 <= sg_timestamp s /\ now_mavlink now <= sg_timestamp s
                 /\ sg_timestamp s = Z.max (timestamp k + 1500000) (now_mavlink now)
  end.
Proof.
  intros Hv Hk Hts. destruct (db_load_key_wf _ _ _ _ Hv Hk) as [[_ Ht _ _ _ _ _ _ _] _].
  unfold load_signing_key. rewrite Hk. cbn [negb].
  destruct (all_zero_key (timestamp k) (secret_key k)).
  - split; [|by cbn; unfold upd; rewrite Z.eqb_refl].
    intros c Hc. cbn. unfold upd. by rewrite (proj2 (Z.eqb_neq _ _)).
  - split; [intros c Hc; cbn; unfold upd; by rewrite (proj2 (Z.eqb_neq _ _))|].
    split; [done|]. split; [done|]. eexists. cbn [wired set_wired chan set_key]. unfold upd.
    rewrite Z.eqb_refl. split; [done|]. split; [done|]. cbn [sg_timestamp signing_for].
    rewrite (wrap_small 64 (timestamp k + _)) by (unfold is_u64 in Ht; lia).
    destruct (Z.ltb_spec (timestamp k + 15 * 100 * 1000) (now_mavlink now)); lia.
Qed.

(** ** Receiving *)

(** What the library documents: a signed message completed without the callback carries
    a signature made with the link's key; a link's key is not changed by parsing. *)
Variable verifies : bytes -> message -> Prop.
Hypothesis parse_verified : forall p s b p' s' msg,
  parse_char p (Some s) b = (p', s', false, Some msg) ->
  Z.land (incompat_flags msg) MAVLINK_IFLAG_SIGNED <> 0 -> verifies (sg_secret_key s) msg.
Hypothesis parse_keeps_key : forall p s b p' s' called msg,
  parse_char p s b = (p', s', called, msg) -> sg_secret_key <$> s' = sg_secret_key <$> s.
Hypothesis setup_decodes : forall msg,
  is_u64 (decode_setup_signing msg).1 /\ length (decode_setup_signing msg).2 = 32%nat.

Abbreviation receive := (receive_message parse_char decode_setup_signing).
Abbreviation rotate := (handle_setup_signing decode_setup_signing).

(** A link that has its key is wired to a signing block. *)
Definition Wired m w : Prop := key_loaded m = true -> is_Some (wired w (chan m)).

Lemma load_wired m w ho now m' w' :
  load_signing_key m w ho now = Some (m', w') ->
  chan m' = chan m /\ key_id m' = key_id m /\
  (key_loaded m = false -> Wired m' w').
Proof.
  unfold load_signing_key. destruct ho as [h|]; [|done].
  destruct (db_load_key h (key_id m) (key m)) as [ok k]. destruct ok; cbn [negb].
  - destruct (all_zero_key _ _); intros [= <- <-]; split_and!; try done.
    + intros Hl Hl'. cbn in *. congruence.
    + intros _ _. cbn. unfold upd. rewrite Z.eqb_refl. eauto.
  - intros [= <- <-]. split_and!; try done. intros Hl Hl'. cbn in *. congruence.
Qed.

(** A (signed) request to change the key is refused with nothing changed when the new
    key is all zero; otherwise the stored key becomes the new one, the link is wired to
    it, and the peer counts as unauthenticated until it signs with it. *)
Theorem setup_signing_rotates `{!TdbReliable db} m w h open_ok now msg k :
  values_ok h -> db_load_key h (key_id m) (key m) = (true, k) ->
  let ts := (decode_setup_signing msg).1 in
  let secret := (decode_setup_signing msg).2 in
  if all_zero_key ts secret then rotate m w h true open_ok now msg = Some (m, w, h)
  else open_ok = true ->
    exists m' w' h', rotate m w h true open_ok now msg = Some (m', w', h')
      /\ db_load_key h' (key_id m) k
         = (true, k <| timestamp := ts |> <| secret_key := secret |>)
      /\ (forall q, q <> key_of (key_id m) -> tdb_fetch h' q = tdb_fetch h q)
      /\ got_signed_packet m' = false /\ key_loaded m' = true
      /\ exists s, wired w' (chan m) = Some s /\ sg_secret_key s = secret.
Proof.
  intros Hv Hk. cbn zeta. unfold handle_setup_signing.
  destruct (setup_decodes msg) as [Hts Hsec].
  destruct (decode_setup_signing msg) as [ts secret]. cbn [fst snd] in *.
  destruct (all_zero_key ts secret) eqn:Ez; [done|]. intros ->. cbn [negb]. rewrite Hk. cbn [negb].
  destruct (db_load_key_wf _ _ _ _ Hv Hk) as [Hwf Hm].
  destruct (db_save_load h (key_id m) (k <| timestamp := ts |> <| secret_key := secret |>)
    (k <| timestamp := ts |> <| secret_key := secret |>)) as (h' & E & El & Eo).
  { destruct Hwf as [W1 W2 W3 W4 W5 W6 W7 W8 W9]. split; try done.
    cbn [secret_key name video_viewer_key video_publish_key].
    injection W7 as _ ? ? ?. repeat f_equal; lia. }
  { done. }
  cbn [key_id set_key] in *. rewrite E. change (default h (Some h')) with h'.
  unfold load_signing_key. cbn [key_id set_signed set_key key]. rewrite El. cbn [negb timestamp secret_key].
  rewrite Ez. do 3 eexists. split; [reflexivity|].
  split; [by apply (db_load_key_any _ _ _ k) in El|]. split; [done|]. split; [done|]. split; [done|].
  eexists. cbn [wired set_wired chan set_key set_signed]. unfold upd. rewrite Z.eqb_refl. done.
Qed.

(** Parsing leaves the link's wiring and its key. *)
Lemma feed_char_wired w c b w' o :
  feed_char parse_char w c b = (w', o) ->
  (forall c', sg_secret_key <$> wired w' c' = sg_secret_key <$> wired w c').
Proof.
  unfold feed_char. destruct (parse_char (parser w c) (wired w c) b) as [[[p s] called] msg] eqn:E.
  intros [= <- <-] c'. apply parse_keeps_key in E.
  assert (Hu : sg_secret_key <$> upd (wired w) c s c' = sg_secret_key <$> wired w c').
  { unfold upd. destruct (Z.eqb_spec c' c); [by subst|done]. }
  by destruct called.
Qed.

Lemma receive_loop_accepts m w h txn_ok open_ok now buf r msg :
  key_id m <> -1 ->
  receive_loop parse_char decode_setup_signing m w h txn_ok open_ok now buf = Some r ->
  rc_msg r = Some msg ->
  key_loaded m = true
  /\ Z.land (incompat_flags msg) MAVLINK_IFLAG_SIGNED <> 0
  /\ msgid msg <> MAVLINK_MSG_ID_SETUP_SIGNING
  /\ got_signed_packet (rc_link r) = true /\ bad_sig_count (rc_link r) = 0
  /\ forall s0, wired w (chan m) = Some s0 -> verifies (sg_secret_key s0) msg.
Proof.
  intros Hid. revert w. induction buf as [|b buf IH]; intros w E Er.
  { cbn in E. by injection E as <-. }
  cbn [receive_loop] in E. destruct (feed_char parse_char w (chan m) b) as [w1 [msg1|]] eqn:Ef.
  - unfold on_message in E. rewrite (proj2 (Z.eqb_neq (key_id m) (-1))) in E by done.
    destruct (key_loaded m) eqn:Hl; cbn [negb] in E; [|destruct (warn _ _ _); injection E as <-; done].
    destruct (Z.eqb_spec (Z.land (incompat_flags msg1) MAVLINK_IFLAG_SIGNED) 0) as [|Hsig];
      [destruct (warn _ _ _); injection E as <-; done|].
    destruct (got_bad_signature w1 (chan m)) eqn:Hbad;
      [destruct (on_bad_signature _ _ _); injection E as <-; done|].
    destruct (Z.eqb_spec (msgid msg1) MAVLINK_MSG_ID_SETUP_SIGNING) as [|Hne].
    { destruct (handle_setup_signing _ _ _ _ _ _ _ _) as [[[? ?] ?]|]; [|done]. by injection E as <-. }
    injection E as <-. cbn in Er. injection Er as ->. split_and!; try done. intros s0 Hs.
    unfold feed_char in Ef. destruct (parse_char _ _ b) as [[[p s] called] o] eqn:Ep.
    injection Ef as <- ->. destruct called.
    { cbn in Hbad. unfold upd in Hbad. by rewrite Z.eqb_refl in Hbad. }
    rewrite Hs in Ep. by eapply parse_verified.
  - destruct (IH w1 E Er) as (H1 & H2 & H3 & H4 & H5 & H6). split_and!; try done. intros s0 Hs.
    pose proof (feed_char_wired _ _ _ _ _ Ef (chan m)) as Hw. rewrite Hs in Hw.
    destruct (wired w1 (chan m)) as [s1|] eqn:Hs1; [|done]. cbn in Hw. injection Hw as Hw.
    rewrite <-Hw. by apply H6.
Qed.

(** ** Histories of a link *)

Hypothesis setup_bytes : forall msg, bytes_ok (decode_setup_signing msg).2.

(** What happens to a link: bytes received (with the databases' answers), a message sent
    on it, another link bringing every timestamp up, another process writing keys.tdb. *)
Inductive link_op :=
| LinkRecv (buf : bytes) (txn_ok open_ok : bool) (now : Z)
| LinkSend (tcp : tcp_state) (sent_ok : bool) (now : Z) (msg : message)
| LinkRaise (ts : Z)
| LinkDb (h : db).

Definition link_step (st : option (MAVLink * world (P := P) * db)) (op : link_op)
  : option (MAVLink * world (P := P) * db) :=
  match st with
  | None => None
  | Some (m, w, h) =>
    match op with
    | LinkRecv buf txn_ok open_ok now =>
        match receive m w h txn_ok open_ok now buf with
        | None => None
        | Some r => Some (rc_link r, rc_world r, rc_db r)
        end
    | LinkSend tcp sent_ok now msg =>
        let '(_, m, w, _) := send_message msg_lengths finalize m w tcp sent_ok now msg in Some (m, w, h)
    | LinkRaise ts => Some (m, raise_all w ts, h)
    | LinkDb h => Some (m, w, h)
    end
  end.

Definition op_ok (op : link_op) : Prop := match op with LinkDb h => values_ok h | _ => True end.

(** The key stored for [kid] is all zero, and some save of it fails. *)
Definition zero_stored h (kid : Z) : Prop :=
  exists k0 k, db_load_key h kid k0 = (true, k) /\ all_zero_key (timestamp k) (secret_key k) = true.
Definition save_fails h (kid : Z) : Prop := exists k, db_save_key h kid k = None.

(** Losing the key is ruled out. *)
Definition rekeys h (kid : Z) : Prop := zero_stored h kid -> ~ save_fails h kid.

(** A channel left without its signing block: the new key could not be saved, and the one
    read back is all zero. *)
Definition unwired_by (c kid : Z) h w h' w' : Prop :=
  kid <> -1 /\ is_Some (wired w c) /\ wired w' c = None /\ h' = h /\ zero_stored h kid /\ save_fails h kid.

Definition unwires (c kid : Z) (st : MAVLink * world (P := P) * db) (op : link_op) : Prop :=
  exists st', link_step (Some st) op = Some st' /\ unwired_by c kid st.2 st.1.2 st'.2 st'.1.2.

(** A history in which that happened. *)
Definition stranded (c kid : Z) (st : MAVLink * world (P := P) * db) (ops : list link_op) : Prop :=
  exists pre op post st1, ops = pre ++ op :: post /\ fold_left link_step pre (Some st) = Some st1 /\ unwires c kid st1 op.

(** The link is the one it is, and wired if it has its key, unless it lost its block. *)
Definition LinkInv (lost : Prop) (c kid : Z) (st : MAVLink * world (P := P) * db) : Prop :=
  let '(m, w, h) := st in chan m = c /\ key_id m = kid /\ (Wired m w \/ lost) /\ values_ok h.

Lemma LinkInv_mono (lost lost' : Prop) c kid st : (lost -> lost') -> LinkInv lost c kid st -> LinkInv lost' c kid st.
Proof. destruct st as [[m w] h]. intros Hl (E1 & E2 & [Hw|Hw] & Hv); split_and!; [done|done|by left|done|done|done|right; by apply Hl|done]. Qed.

Lemma wired_same m w m' w' :
  chan m' = chan m -> key_loaded m' = key_loaded m ->
  (is_Some (wired w (chan m)) -> is_Some (wired w' (chan m))) -> Wired m w -> Wired m' w'.
Proof. unfold Wired. intros -> -> Hw Hi Hl. auto. Qed.

Lemma LinkInv_same lost c kid m w h m' w' :
  chan m' = chan m -> key_id m' = key_id m -> key_loaded m' = key_loaded m ->
  (is_Some (wired w c) -> is_Some (wired w' c)) -> LinkInv lost c kid (m, w, h) -> LinkInv lost c kid (m', w', h).
Proof.
  intros E1 E2 E3 Hs (<- & Hid & [Hw|Hlost] & Hv); split_and!; try congruence; try done; [left; by eapply wired_same|by right].
Qed.

(** A key loaded for the link, or refused as all zero. *)
Lemma load_wires m w h now m' w' k :
  load_signing_key m w (Some h) now = Some (m', w') -> db_load_key h (key_id m) (key m) = (true, k) ->
  chan m' = chan m /\ key_id m' = key_id m
  /\ if all_zero_key (timestamp k) (secret_key k) then key_loaded m' = key_loaded m /\ wired w' (chan m) = None
     else is_Some (wired w' (chan m)).
Proof.
  unfold load_signing_key. intros E Ek. rewrite Ek in E. cbn [negb] in E.
  destruct (all_zero_key _ _); injection E as <- <-; split_and!; try done; cbn; unfold upd; rewrite Z.eqb_refl; [done|by eexists].
Qed.

(** What a key change does to the store and to the channel. *)
Lemma rotate_spec m w h txn_ok open_ok now msg m' w' h' :
  values_ok h -> rotate m w h txn_ok open_ok now msg = Some (m', w', h') ->
  chan m' = chan m /\ key_id m' = key_id m /\ values_ok h' /\ (h' = h \/ ~ zero_stored h' (key_id m))
  /\ ((key_loaded m' = key_loaded m /\ w' = w) \/ is_Some (wired w' (chan m))
     \/ (key_loaded m' = key_loaded m /\ wired w' (chan m) = None /\ h' = h /\ zero_stored h (key_id m) /\ save_fails h (key_id m))).
Proof.
  intros Hv. unfold handle_setup_signing. destruct (setup_decodes msg) as [Hts Hsec]. pose proof (setup_bytes msg) as Hsb.
  destruct (decode_setup_signing msg) as [ts secret]. cbn [fst snd] in *.
  destruct (all_zero_key ts secret) eqn:Ez; [intros [= <- <- <-]; split_and!; try done; by left|].
  destruct txn_ok; cbn [negb]; [|intros [= <- <- <-]; split_and!; try done; by left].
  destruct (db_load_key h (key_id m) (key m)) as [[] k] eqn:Ek; cbn [negb]; [|intros [= <- <- <-]; split_and!; try done; by left].
  destruct (db_load_key_wf _ _ _ _ Hv Ek) as [Hwf Hm]. pose proof (db_load_key_bytes _ _ _ _ Hv Ek) as Hkb.
  set (k1 := k <| timestamp := ts |> <| secret_key := secret |>). set (m1 := set_signed (set_key (set_key m k) k1) false).
  change (key_id (set_key (set_key m k) k1)) with (key_id m1).
  destruct (load_signing_key _ _ _ _) as [[m2 w2]|] eqn:El; [|done]. intros [= <- <- <-].
  destruct open_ok; [|done]. change (key_id m) with (key_id m1) in *.
  destruct (db_save_key h (key_id m1) k1) as [h1|] eqn:Es; cbn [default] in *.
  - change (default h (Some h1)) with h1 in *. assert (E1 : forall k0, db_load_key h1 (key_id m1) k0 = (true, k1)).
    { intros k0. apply (db_saved_load h (key_id m1) k1 k0 h1); [|done|done].
      destruct Hwf as [W1 W2 W3 W4 W5 W6 W7 W8 W9]. split; try done. unfold k1.
      cbn [secret_key name video_viewer_key video_publish_key].
      injection W7 as _ ? ? ?. repeat f_equal; lia. }
    destruct (load_wires _ _ _ _ _ _ _ El (E1 _)) as (C1 & C2 & C3).
    change (all_zero_key (timestamp k1) (secret_key k1)) with (all_zero_key ts secret) in C3. rewrite Ez in C3.
    split_and!; [done|done| |right|right; by left].
    + eapply values_ok_save; [exact Hv| |exact Es]. unfold key_bytes, k1 in *. rewrite bytes_ok_app in *. by destruct Hkb.
    + intros (k0 & k2 & E2 & Ez2). rewrite E1 in E2. injection E2 as <-. change (all_zero_key ts secret = true) in Ez2. congruence.
  - change (default h None) with h in *. pose proof (db_load_key_any _ _ _ (key m1) _ Ek) as E1.
    destruct (load_wires _ _ _ _ _ _ _ El E1) as (C1 & C2 & C3). split_and!; [done|done|done|by left|right].
    destruct (all_zero_key (timestamp k) (secret_key k)) eqn:Ezk; [right|by left]. destruct C3 as [C3 C4].
    split_and!; [done|done|done|by exists (key m1), k|by exists k1].
Qed.

(** The key asked for is on the link, unless it could not be saved. *)
Lemma rotate_inv lost c kid m w h txn_ok open_ok now msg m' w' h' :
  kid <> -1 -> LinkInv lost c kid (m, w, h) -> rotate m w h txn_ok open_ok now msg = Some (m', w', h') ->
  LinkInv (lost \/ unwired_by c kid h w h' w') c kid (m', w', h').
Proof.
  intros Hkid (<- & <- & Hw & Hv) E. destruct (rotate_spec _ _ _ _ _ _ _ _ _ _ Hv E) as (C1 & C2 & C3 & _ & C4).
  split_and!; [done|done| |done]. destruct C4 as [[C4 ->]|[C4|(C4 & C5 & -> & C6 & C7)]].
  - destruct Hw as [Hw|Hw]; [left|by right; left]. unfold Wired. by rewrite C4, C1.
  - left. intros _. by rewrite C1.
  - destruct (key_loaded m) eqn:Hl; [|left; unfold Wired; congruence].
    destruct Hw as [Hw|]; [|by right; left]. right. right. by split_and!; [|apply Hw|..].
Qed.

Lemma periodic_same m now : chan (periodic_warning m now).2 = chan m
  /\ key_id (periodic_warning m now).2 = key_id m /\ key_loaded (periodic_warning m now).2 = key_loaded m.
Proof. unfold periodic_warning. by destruct (_ <? _). Qed.

Lemma bad_signature_same m now st : let m' := (on_bad_signature m now st).1 in
  chan m' = chan m /\ key_id m' = key_id m /\ key_loaded m' = key_loaded m.
Proof.
  cbv zeta. unfold on_bad_signature. pose proof (periodic_same m now) as Hp. destruct (periodic_warning m now) as [due m1].
  cbn [snd] in Hp. destruct due; [|done]. destruct st; try (destruct (_ <? 3)); done.
Qed.

Lemma receive_loop_inv lost c kid m w h txn_ok open_ok now buf r :
  LinkInv lost c kid (m, w, h) ->
  receive_loop parse_char decode_setup_signing m w h txn_ok open_ok now buf = Some r ->
  LinkInv (lost \/ unwired_by c kid h w (rc_db r) (rc_world r)) c kid (rc_link r, rc_world r, rc_db r).
Proof.
  intros Hi E. assert (G : forall w0, (is_Some (wired w0 c) <-> is_Some (wired w c)) -> LinkInv lost c kid (m, w0, h) ->
    receive_loop parse_char decode_setup_signing m w0 h txn_ok open_ok now buf = Some r ->
    LinkInv (lost \/ unwired_by c kid h w (rc_db r) (rc_world r)) c kid (rc_link r, rc_world r, rc_db r)); [|by eapply G].
  clear Hi E. induction buf as [|b buf IH]; intros w0 Hs Hi E.
  { injection E as <-. apply (LinkInv_mono lost); [by left|done]. }
  cbn [receive_loop] in E. destruct (feed_char parse_char w0 (chan m) b) as [w1 o] eqn:Ef.
  assert (Hs1 : is_Some (wired w1 c) <-> is_Some (wired w c)).
  { rewrite <-Hs. pose proof (feed_char_wired _ _ _ _ _ Ef c) as Hk. rewrite <-!(fmap_is_Some sg_secret_key), Hk. done. }
  assert (Hlink : forall m', chan m' = chan m -> key_id m' = key_id m -> key_loaded m' = key_loaded m -> LinkInv lost c kid (m', w1, h)).
  { intros m' E1 E2 E3. eapply LinkInv_same; [done..| |exact Hi]. intros H1. by apply Hs1, Hs. }
  destruct o as [msg|]; [|apply (IH w1); [done|by apply Hlink|done]].
  assert (Hkeep : forall m', chan m' = chan m -> key_id m' = key_id m -> key_loaded m' = key_loaded m ->
    LinkInv (lost \/ unwired_by c kid h w h w1) c kid (m', w1, h)).
  { intros m' E1 E2 E3. apply (LinkInv_mono lost); [by left|by apply Hlink]. }
  unfold on_message in E. destruct (key_id m =? -1) eqn:Hid; [injection E as <-; by apply Hkeep|].
  destruct (key_loaded m) eqn:Hl; cbn [negb] in E.
  2: { unfold warn in E. destruct (periodic_same m now) as (P1 & P2 & P3).
       destruct (periodic_warning m now) as [due m1]. injection E as <-. apply Hkeep; cbn in *; congruence. }
  destruct (Z.land _ _ =? 0).
  { unfold warn in E. destruct (periodic_same m now) as (P1 & P2 & P3).
    destruct (periodic_warning m now) as [due m1]. injection E as <-. apply Hkeep; cbn in *; congruence. }
  destruct (got_bad_signature w1 (chan m)).
  { destruct (bad_signature_same m now (status_of w1 (chan m))) as (P1 & P2 & P3).
    destruct (on_bad_signature _ _ _) as [m1 out]. injection E as <-. apply Hkeep; cbn in *; congruence. }
  destruct (msgid msg =? MAVLINK_MSG_ID_SETUP_SIGNING);
    [|injection E as <-; by apply Hkeep; cbn].
  destruct (handle_setup_signing _ _ _ _ _ _ _ _) as [[[m2 w2] h2]|] eqn:Er; [|done].
  injection E as <-. cbn [rc_link rc_world rc_db]. apply Z.eqb_neq in Hid.
  eapply LinkInv_mono; [|eapply rotate_inv; [|apply (Hlink (set_signed (set_bad_count m 0) true)); done|exact Er]].
  - intros [Hlo|(U1 & U2 & U3)]; [by left|right]. split; [exact U1|split; [by apply Hs1|exact U3]].
  - destruct Hi as (_ & <- & _). done.
Qed.

Lemma receive_inv lost c kid m w h txn_ok open_ok now buf r :
  LinkInv lost c kid (m, w, h) -> receive m w h txn_ok open_ok now buf = Some r ->
  LinkInv (lost \/ unwired_by c kid h w (rc_db r) (rc_world r)) c kid (rc_link r, rc_world r, rc_db r).
Proof. intros Hi Er. by apply (receive_loop_inv lost c kid m (set_bad w (chan m) false) h txn_ok open_ok now buf r). Qed.

(** What a link writes while it receives is one signing warning, or nothing; a link that does not
    require signing warns of nothing. *)
Lemma receive_warns m w h txn_ok open_ok now buf r :
  receive m w h txn_ok open_ok now buf = Some r -> rc_out r = [] \/ (key_id m <> -1 /\ exists x, rc_out r = mav_printf x).
Proof.
  unfold receive_message. generalize (set_bad w (chan m) false). induction buf as [|b buf IH]; intros w1 E; [injection E as <-; by left|].
  cbn [receive_loop] in E. destruct (feed_char parse_char w1 (chan m) b) as [w2 [msg|]]; [|by eapply IH]. unfold on_message in E.
  assert (Hw : forall x0, (warn m now x0).2 = [] \/ exists x, (warn m now x0).2 = mav_printf x).
  { intros x0. unfold warn. destruct (periodic_warning m now) as [[] m1]; [right; by exists x0|by left]. }
  destruct (Z.eqb_spec (key_id m) (-1)) as [|Hid]; [injection E as <-; by left|].
  assert (Hr : forall out, (out = [] \/ exists x, out = mav_printf x) -> out = [] \/ (key_id m <> -1 /\ exists x, out = mav_printf x))
    by (intros out [?|?]; [by left|by right]).
  destruct (negb (key_loaded m)); [pose proof (Hw NeedSetup) as Hx; destruct (warn _ _ _); injection E as <-; by apply Hr|].
  destruct (Z.land _ _ =? 0); [pose proof (Hw NeedSigning) as Hx; destruct (warn _ _ _); injection E as <-; by apply Hr|].
  destruct (got_bad_signature w2 (chan m)).
  - assert (Hb : (on_bad_signature m now (status_of w2 (chan m))).2 = [] \/ exists x, (on_bad_signature m now (status_of w2 (chan m))).2 = mav_printf x).
    { unfold on_bad_signature. destruct (periodic_warning m now) as [[] m1]; [|by left].
      destruct (status_of w2 (chan m)); try (destruct (_ <? 3)); (by left) || (right; by eexists). }
    destruct (on_bad_signature _ _ _). injection E as <-. by apply Hr.
  - destruct (msgid msg =? MAVLINK_MSG_ID_SETUP_SIGNING); [|injection E as <-; by left].
    destruct (handle_setup_signing _ _ _ _ _ _ _ _) as [[[??]?]|]; [|done]. injection E as <-. by left.
Qed.

(** The store is left alone, or holds a key that is not all zero; and a channel's block goes only as
    [unwired_by] says. *)
Lemma receive_keys m w h txn_ok open_ok now buf r :
  values_ok h -> receive m w h txn_ok open_ok now buf = Some r ->
  (rc_db r = h \/ (key_id m <> -1 /\ ~ zero_stored (rc_db r) (key_id m)))
  /\ (is_Some (wired w (chan m)) -> wired (rc_world r) (chan m) = None -> unwired_by (chan m) (key_id m) h w (rc_db r) (rc_world r)).
Proof.
  intros Hv. unfold receive_message.
  enough (G : forall w1, (is_Some (wired w (chan m)) -> is_Some (wired w1 (chan m))) ->
    receive_loop parse_char decode_setup_signing m w1 h txn_ok open_ok now buf = Some r ->
    (rc_db r = h \/ (key_id m <> -1 /\ ~ zero_stored (rc_db r) (key_id m)))
    /\ (is_Some (wired w (chan m)) -> wired (rc_world r) (chan m) = None ->
       unwired_by (chan m) (key_id m) h w (rc_db r) (rc_world r))) by by apply G.
  assert (Hkeep : forall w1, (is_Some (wired w (chan m)) -> is_Some (wired w1 (chan m))) ->
    (h = h \/ (key_id m <> -1 /\ ~ zero_stored h (key_id m)))
    /\ (is_Some (wired w (chan m)) -> wired w1 (chan m) = None -> unwired_by (chan m) (key_id m) h w h w1)).
  { intros w1 Hs. split; [by left|]. intros [s E]%Hs E'. congruence. }
  induction buf as [|b buf IH]; intros w1 Hs E; [injection E as <-; by apply Hkeep|].
  cbn [receive_loop] in E. destruct (feed_char parse_char w1 (chan m) b) as [w2 o] eqn:Ef.
  assert (Hs2 : is_Some (wired w (chan m)) -> is_Some (wired w2 (chan m))).
  { intros H1. apply Hs in H1. pose proof (feed_char_wired _ _ _ _ _ Ef (chan m)) as Hk.
    apply (fmap_is_Some sg_secret_key). rewrite Hk. by apply fmap_is_Some. }
  destruct o as [msg|]; [|by apply (IH w2)]. unfold on_message in E.
  destruct (Z.eqb_spec (key_id m) (-1)) as [|Hid]; [injection E as <-; by apply Hkeep|].
  destruct (negb (key_loaded m)); [destruct (warn _ _ _); injection E as <-; by apply Hkeep|].
  destruct (Z.land _ _ =? 0); [destruct (warn _ _ _); injection E as <-; by apply Hkeep|].
  destruct (got_bad_signature w2 (chan m)); [destruct (on_bad_signature _ _ _); injection E as <-; by apply Hkeep|].
  destruct (msgid msg =? MAVLINK_MSG_ID_SETUP_SIGNING); [|injection E as <-; by apply Hkeep].
  destruct (handle_setup_signing _ _ _ _ _ _ _ _) as [[[m3 w3] h3]|] eqn:Er; [|done]. injection E as <-. cbn [rc_db rc_world].
  destruct (rotate_spec _ _ _ _ _ _ _ _ _ _ Hv Er) as (_ & _ & _ & C3 & C4).
  change (key_id (set_signed _ _)) with (key_id m) in *. change (chan (set_signed _ _)) with (chan m) in *.
  split; [destruct C3; [by left|by right]|]. intros H1 H2. apply Hs2 in H1 as H3.
  destruct C4 as [[_ ->]|[[s C4]|(_ & _ & C5 & C6 & C7)]]; [destruct H3; congruence|congruence|]. by split_and!.
Qed.

Lemma update_same m w now : let r := update_signing_timestamp m w now in
  chan r.1.1 = chan m /\ key_id r.1.1 = key_id m /\ key_loaded r.1.1 = key_loaded m /\ is_tcp r.1.1 = is_tcp m
  /\ forall c, is_Some (wired w c) -> is_Some (wired r.1.2 c).
Proof.
  cbv zeta. unfold update_signing_timestamp. destruct (_ <? _); cbn [fst snd]; [done|]. split_and!; try done.
  intros c [s Hs]. cbn. rewrite Hs. by destruct (_ && _)%bool.
Qed.

Lemma heartbeat_same m msg : chan (note_heartbeat m msg) = chan m /\ key_id (note_heartbeat m msg) = key_id m
  /\ key_loaded (note_heartbeat m msg) = key_loaded m /\ is_tcp (note_heartbeat m msg) = is_tcp m.
Proof. unfold note_heartbeat. by destruct (msgid msg =? MAVLINK_MSG_ID_HEARTBEAT). Qed.

(** Sending on a link: it stays the link it is, and no channel loses its block. *)
Lemma send_keeps m w tcp sent_ok now msg :
  let '(_, m', w', _) := send_message msg_lengths finalize m w tcp sent_ok now msg in
  chan m' = chan m /\ key_id m' = key_id m /\ key_loaded m' = key_loaded m /\ is_tcp m' = is_tcp m
  /\ forall c, is_Some (wired w c) -> is_Some (wired w' c).
Proof.
  unfold send_message, send_unblocked. destruct (heartbeat_same m msg) as (N1 & N2 & N3 & N4).
  pose proof (update_same (note_heartbeat m msg) w now) as Hu. cbv zeta in Hu.
  destruct (is_tcp m) eqn:Et, tcp; try done;
    (destruct (key_id m =? -1); [by destruct (emit _ _ _ _ _ _)|]; destruct (negb (got_signed_packet m) && _)%bool; [done|];
     destruct (key_loaded (note_heartbeat m msg)) eqn:Ek;
     [destruct (update_signing_timestamp (note_heartbeat m msg) w now) as [[m1 w1] b]; cbn [fst snd] in *|];
     destruct (emit _ _ _ _ _ _); try done; split_and!; try done; intuition congruence).
Qed.

Lemma link_step_inv lost c kid st op st' :
  LinkInv lost c kid st -> op_ok op -> link_step (Some st) op = Some st' -> LinkInv (lost \/ unwires c kid st op) c kid st'.
Proof.
  destruct st as [[m w] h]. intros Hi Hop E. pose proof E as E0. destruct op as [buf txn_ok open_ok now|tcp sent_ok now msg|ts|h1]; cbn [link_step] in E.
  - destruct (receive m w h txn_ok open_ok now buf) as [r|] eqn:Er; [|done]. injection E as <-.
    eapply LinkInv_mono; [|by eapply receive_inv]. intros [|U]; [by left|right]. by eexists.
  - apply (LinkInv_mono lost); [by left|]. pose proof (send_keeps m w tcp sent_ok now msg) as Hk.
    destruct (send_message _ _ _ _ _ _ _ _) as [[[ok m'] w'] out]. injection E as <-. destruct Hk as (K1 & K2 & K3 & _ & K5).
    eapply LinkInv_same; [done..| |exact Hi]. apply K5.
  - injection E as <-. apply (LinkInv_mono lost); [by left|]. eapply LinkInv_same; [done..| |exact Hi].
    intros [s Hs]. cbn. rewrite Hs. by destruct (_ && _)%bool.
  - injection E as <-. apply (LinkInv_mono lost); [by left|]. destruct Hi as (Hc & Hid & Hw & _). by split_and!.
Qed.

Lemma init_inv c kid k0 w0 h allow_ws tcp ho now m w :
  values_ok h -> init k0 w0 c true allow_ws tcp kid ho now = Some (m, w) -> LinkInv False c kid (m, w, h).
Proof.
  intros Hv Ei. unfold init in Ei. destruct (load_signing_key _ _ ho now) as [[m2 w2]|] eqn:El; [|done].
  destruct (load_wired _ _ _ _ _ _ El) as (E1 & E2 & Hw). specialize (Hw eq_refl).
  pose proof (update_same m2 w2 now) as Hu. cbv zeta in Hu. destruct (update_signing_timestamp m2 w2 now) as [[m3 w3] b].
  injection Ei as <- <-. destruct Hu as (U1 & U2 & U3 & _ & U5).
  eapply LinkInv_same; [done..| |split_and!; [exact E1|exact E2|by left|exact Hv]]. apply U5.
Qed.

(** What a link that requires signing hands on, in any state it can be in. *)
Lemma receive_accepts lost c kid m w h txn_ok open_ok now buf r msg :
  kid <> -1 -> LinkInv lost c kid (m, w, h) ->
  receive m w h txn_ok open_ok now buf = Some r -> rc_msg r = Some msg ->
  Z.land (incompat_flags msg) MAVLINK_IFLAG_SIGNED <> 0 /\ msgid msg <> MAVLINK_MSG_ID_SETUP_SIGNING
  /\ got_signed_packet (rc_link r) = true
  /\ ((exists s, wired w c = Some s /\ verifies (sg_secret_key s) msg) \/ (wired w c = None /\ lost)).
Proof.
  intros Hkid (Hc & Hid & Hw & _) Er Em. unfold receive_message in Er.
  destruct (receive_loop_accepts m (set_bad w (chan m) false) h txn_ok open_ok now buf r msg)
      as (Hl & R1 & R2 & R3 & _ & R4); [congruence|done|done|]. split_and!; try done. cbn [set_bad wired] in R4. rewrite Hc in R4.
  destruct (wired w c) as [s|] eqn:Hs; [left; exists s; auto|right]. split; [done|].
  destruct Hw as [Hw|]; [|done]. destruct (Hw Hl) as [s E]. subst c. congruence.
Qed.

(** ** Several links over one channel table *)

(** An operation on channel [c] leaves no other channel without its signing block. *)
Definition spares (c : Z) w w' : Prop := forall c', c' <> c -> is_Some (wired w c') -> is_Some (wired w' c').

Lemma spares_refl c w : spares c w w.
Proof. by intros c' _. Qed.

Lemma spares_trans c w1 w2 w3 : spares c w1 w2 -> spares c w2 w3 -> spares c w1 w3.
Proof. intros H1 H2 c' Hc Hs. by apply H2, H1. Qed.

Lemma spares_raise c w ts : spares c w (raise_all w ts).
Proof. intros c' _ [s Hs]. cbn. rewrite Hs. by destruct (_ && _)%bool. Qed.

Lemma spares_load m w ho now m' w' : load_signing_key m w ho now = Some (m', w') -> spares (chan m) w w'.
Proof.
  unfold load_signing_key. destruct ho as [h|]; [|done]. destruct (db_load_key h (key_id m) (key m)) as [[] k]; cbn [negb].
  - assert (Hu : forall s, spares (chan m) w (set_wired w (chan m) s)).
    { intros s c' Hc Hs. cbn. unfold upd. by apply Z.eqb_neq in Hc as ->. }
    destruct (all_zero_key _ _); intros [= <- <-]; apply Hu.
  - intros [= <- <-]. apply spares_refl.
Qed.

Lemma spares_init k0 w c sr allow_ws tcp kid ho now m w' :
  init k0 w c sr allow_ws tcp kid ho now = Some (m, w') -> spares c w w'.
Proof.
  unfold init. set (m0 := fresh_link c allow_ws tcp kid k0). assert (Hb : spares c w (set_bad w c false)) by (by intros c').
  destruct sr; [|by intros [= _ <-]]. destruct (load_signing_key m0 _ ho now) as [[m1 w1]|] eqn:El; [|done].
  apply spares_load in El. change (chan m0) with c in El. pose proof (spares_trans _ _ _ _ Hb El) as H1.
  unfold update_signing_timestamp. destruct (_ <? _); intros [= _ <-]; [done|].
  eapply spares_trans; [exact H1|apply spares_raise].
Qed.

Lemma spares_char w c b w' o : feed_char parse_char w c b = (w', o) -> spares c w w'.
Proof.
  intros Ef c' _ [s Hs]. pose proof (feed_char_wired _ _ _ _ _ Ef c') as Hk. rewrite Hs in Hk. by destruct (wired w' c').
Qed.

Lemma spares_receive m w h txn_ok open_ok now buf r :
  receive m w h txn_ok open_ok now buf = Some r -> spares (chan m) w (rc_world r).
Proof.
  unfold receive_message. assert (Hb : spares (chan m) w (set_bad w (chan m) false)) by (by intros c').
  generalize dependent (set_bad w (chan m) false). induction buf as [|b buf IH]; intros w1 Hw E; [by injection E as <-|].
  cbn [receive_loop] in E. destruct (feed_char parse_char w1 (chan m) b) as [w2 o] eqn:Ef.
  apply spares_char in Ef. pose proof (spares_trans _ _ _ _ Hw Ef) as H2. clear Hw Ef.
  destruct o as [msg|]; [|by apply (IH w2)]. unfold on_message in E.
  destruct (key_id m =? -1); [by injection E as <-|]. destruct (negb (key_loaded m)); [destruct (warn _ _ _); by injection E as <-|].
  destruct (Z.land _ _ =? 0); [destruct (warn _ _ _); by injection E as <-|].
  destruct (got_bad_signature w2 (chan m)); [destruct (on_bad_signature _ _ _); by injection E as <-|].
  destruct (msgid msg =? MAVLINK_MSG_ID_SETUP_SIGNING); [|by injection E as <-].
  destruct (handle_setup_signing _ _ _ _ _ _ _ _) as [[[m2 w3] h2]|] eqn:Er; [|done]. injection E as <-. cbn [rc_world].
  unfold handle_setup_signing in Er. destruct (decode_setup_signing msg) as [ts secret].
  destruct (all_zero_key ts secret); [by injection Er as _ <- _|]. destruct (negb txn_ok); [by injection Er as _ <- _|].
  destruct (db_load_key _ _ _) as [[] k]; cbn [negb] in Er; [|by injection Er as _ <- _].
  destruct (load_signing_key _ _ _ _) as [[m3 w4]|] eqn:El; [|done]. injection Er as _ <- _.
  apply spares_load in El. eapply spares_trans; [exact H2|]. exact El.
Qed.

Lemma history_inv c kid ops st : forall lost st', Forall op_ok ops -> LinkInv lost c kid st ->
  fold_left link_step ops (Some st) = Some st' -> LinkInv (lost \/ stranded c kid st ops) c kid st'.
Proof.
  revert st. induction ops as [|op ops IH]; intros st lost st' Hok Hi E.
  { injection E as <-. apply (LinkInv_mono lost); [by left|done]. }
  apply list.Forall_cons in Hok as [Hop Hok]. cbn [fold_left] in E. destruct (link_step (Some st) op) as [st1|] eqn:Es.
  - eapply LinkInv_mono; [|eapply (IH st1 _ st' Hok); [by eapply link_step_inv|exact E]].
    intros [[Hl|Hu]|(pre & op' & post & st2 & -> & E1 & Hu)]; [by left|right..].
    + by exists [], op, ops, st.
    + exists (op :: pre), op', post, st2. split_and!; [done| |done]. cbn [fold_left]. by rewrite Es.
  - exfalso. clear -E. revert E. induction ops as [|o ops IH]; [done|]. exact IH.
Qed.

(** C1: On a link that requires signing, whatever was received and sent on it before --
    key changes included, with keys.tdb written meanwhile by others and its saves failing
    or not -- a message is handed on only if it is signed and not a SETUP_SIGNING, and its
    signature is one made with the key the link is wired to now.  The one exception: a link
    left without a signing block, and then a SETUP_SIGNING was handled on it earlier whose
    new key could not be saved while the key read back from keys.tdb was all zero. *)
Theorem accepted_messages_signed c kid k0 w0 h0 allow_ws tcp ho now0 m1 w1 ops m w h
    txn_ok open_ok now buf r msg :
  kid <> -1 -> values_ok h0 -> Forall op_ok ops ->
  init k0 w0 c true allow_ws tcp kid ho now0 = Some (m1, w1) ->
  fold_left link_step ops (Some (m1, w1, h0)) = Some (m, w, h) ->
  receive m w h txn_ok open_ok now buf = Some r -> rc_msg r = Some msg ->
  Z.land (incompat_flags msg) MAVLINK_IFLAG_SIGNED <> 0 /\ msgid msg <> MAVLINK_MSG_ID_SETUP_SIGNING
  /\ got_signed_packet (rc_link r) = true
  /\ ((exists s, wired w c = Some s /\ verifies (sg_secret_key s) msg)
     \/ (wired w c = None /\ stranded c kid (m1, w1, h0) ops)).
Proof.
  intros Hkid Hv Hok Ei Eo Er Em. pose proof (init_inv c kid k0 w0 h0 allow_ws tcp ho now0 m1 w1 Hv Ei) as Hi.
  pose proof (history_inv c kid ops _ _ _ Hok Hi Eo) as Hn.
  destruct (receive_accepts _ c kid m w h txn_ok open_ok now buf r msg Hkid Hn Er Em) as (R1 & R2 & R3 & [R4|[R4 R5]]);
    split_and!; try done; [by left|right]. split; [done|]. by destruct R5.
Qed.

(** Until a support engineer's link has seen a valid signed packet nothing but a
    heartbeat is written to it; what is written there is always marked signed, and what
    is written to a user's link never is. *)
Theorem send_gated m w tcp sent_ok now msg :
  let '(ok, m', w', out) := send_message msg_lengths finalize m w tcp sent_ok now msg in
  out = [] \/
  exists data msg', out = [Sent data] /\ finalize (wired w' (chan m)) msg' = Some data
    /\ msgid msg' = msgid msg /\ payload msg' = payload msg
    /\ if key_id m =? -1 then msg' = strip_signed msg /\ Z.testbit (incompat_flags msg') 0 = false
       else (got_signed_packet m = true \/ msgid msg = MAVLINK_MSG_ID_HEARTBEAT)
            /\ msg' = add_signed msg /\ Z.testbit (incompat_flags msg') 0 = true.
Proof.
  assert (Hstrip : Z.testbit (incompat_flags (strip_signed msg)) 0 = false).
  { cbn [incompat_flags strip_signed]. rewrite Z.land_spec.
    change (Z.testbit (Z.lxor MAVLINK_IFLAG_SIGNED 255) 0) with false. apply andb_false_r. }
  assert (Hadd : Z.testbit (incompat_flags (add_signed msg)) 0 = true).
  { cbn [incompat_flags add_signed]. rewrite Z.lor_spec.
    change (Z.testbit MAVLINK_IFLAG_SIGNED 0) with true. apply orb_true_r. }
  assert (Hem : forall m0 w0 msg0, chan m0 = chan m -> (emit msg_lengths finalize m0 w0 msg0 sent_ok).2 = []
    \/ exists data, (emit msg_lengths finalize m0 w0 msg0 sent_ok).2 = [Sent data]
         /\ finalize (wired w0 (chan m)) msg0 = Some data).
  { intros m0 w0 msg0 Ec. unfold emit. destruct (msg_lengths (msgid msg0)) as [mn mx].
    destruct (_ && _)%bool; [by left|]. rewrite Ec.
    destruct (finalize (wired w0 (chan m)) msg0); [right; eauto|by left]. }
  enough (Hcore : let '(ok, m', w', out) := send_unblocked msg_lengths finalize m w sent_ok now msg in
    out = [] \/ exists data msg', out = [Sent data] /\ finalize (wired w' (chan m)) msg' = Some data
    /\ msgid msg' = msgid msg /\ payload msg' = payload msg
    /\ if key_id m =? -1 then msg' = strip_signed msg /\ Z.testbit (incompat_flags msg') 0 = false
       else (got_signed_packet m = true \/ msgid msg = MAVLINK_MSG_ID_HEARTBEAT)
            /\ msg' = add_signed msg /\ Z.testbit (incompat_flags msg') 0 = true)
    by (unfold send_message; destruct (is_tcp m), tcp; (by left) || exact Hcore).
  unfold send_unblocked. destruct (key_id m =? -1) eqn:Hid.
  { destruct (Hem m w (strip_signed msg) eq_refl) as [Ho|(data & Ho & Hf)];
      destruct (emit _ _ m w _ _) as [ok out]; cbn [snd] in Ho; subst out; [by left|].
    right. exists data, (strip_signed msg). by split_and!. }
  destruct (negb (got_signed_packet m) && _)%bool eqn:Hgate; [by left|].
  assert (Hg : got_signed_packet m = true \/ msgid msg = MAVLINK_MSG_ID_HEARTBEAT).
  { apply andb_false_iff in Hgate as [Hx|Hx]; reflect_bools; auto. }
  set (mw := if key_loaded (note_heartbeat m msg)
             then (update_signing_timestamp (note_heartbeat m msg) w now).1 else (note_heartbeat m msg, w)).
  assert (Hc : chan mw.1 = chan m).
  { assert (Hn : chan (note_heartbeat m msg) = chan m)
      by (unfold note_heartbeat; by destruct (msgid msg =? MAVLINK_MSG_ID_HEARTBEAT)).
    unfold mw. destruct (key_loaded (note_heartbeat m msg)); [|exact Hn].
    unfold update_signing_timestamp. by destruct (now - _ <? _). }
  destruct mw as [m1 w1]. cbn [fst] in Hc.
  destruct (Hem m1 w1 (add_signed msg) Hc) as [Ho|(data & Ho & Hf)];
    destruct (emit _ _ m1 w1 _ _) as [ok out]; cbn [snd] in Ho; subst out; [by left|].
  right. exists data, (add_signed msg). by split_and!.
Qed.
End mavlink_props.

(** ** Witnesses, over a parser that completes a signed message at each byte *)

Definition demo_msg (b : Z) : message := {|
  msgid := b; seq_no := 0; sysid := 1; compid := 1; incompat_flags := 1; target_sysid := 0;
  payload := []; signature := replicate 32 7
|}.
Definition demo_parse (p : unit) (s : option signing) (b : Z)
  : unit * option signing * bool * option message :=
  (p, s, match s with Some s => bool_decide (sg_secret_key s <> replicate 32 7) | None => false end,
   Some (demo_msg b)).
Definition demo_verifies (k : bytes) (msg : message) : Prop := signature msg = k.
Definition demo_setup (msg : message) : Z * bytes := (5, replicate 32 9).
Definition demo_db : mapdb := {[ key_of 5 := le_bytes 8 KEY_MAGIC ++ replicate 448 7 ]}.
Definition demo_world : world := Build_world (fun _ => tt) (fun _ => None) (fun _ => false).
Definition demo_link : MAVLink := fresh_link 2 false false 5 sample_key.
Definition demo_now : Z := 1700000000 * usec.

Lemma demo_verified p s b p' s' msg :
  demo_parse p (Some s) b = (p', s', false, Some msg) ->
  Z.land (incompat_flags msg) MAVLINK_IFLAG_SIGNED <> 0 -> demo_verifies (sg_secret_key s) msg.
Proof.
  unfold demo_parse. intros [= <- <- Hd <-] _. apply bool_decide_eq_false in Hd.
  apply dec_stable in Hd. by unfold demo_verifies.
Qed.

Lemma demo_keeps p s b p' s' called msg :
  demo_parse p s b = (p', s', called, msg) -> sg_secret_key <$> s' = sg_secret_key <$> s.
Proof. unfold demo_parse. by intros [= <- <- <- <-]. Qed.

Lemma demo_decodes msg : is_u64 (demo_setup msg).1 /\ length (demo_setup msg).2 = 32%nat.
Proof. split; [decide_vm|done]. Qed.

Lemma demo_setup_bytes msg : bytes_ok (demo_setup msg).2.
Proof. decide_vm. Qed.

Lemma demo_db_ok : values_ok demo_db.
Proof.
  intros k v Hk. unfold demo_db in Hk. cbn in Hk. apply lookup_singleton_Some in Hk as [_ <-].
  decide_vm.
Qed.

Lemma saved_timestamp_monotone_witness :
  exists ts, db_load_key (save_signing_timestamp demo_link demo_world demo_db demo_now) 5 sample_key
             = (true, sample_key <| timestamp := ts |>)
    /\ timestamp sample_key <= ts.
Proof.
  destruct (saved_timestamp_monotone demo_link demo_world demo_db demo_now sample_key sample_key
    demo_db_ok ltac:(by vm_compute)) as (ts & E & Hts & _).
  exists ts. split; [exact E|lia].
Defined.

Lemma load_signing_key_spec_witness :
  exists m' w', load_signing_key demo_link demo_world (Some demo_db) demo_now = Some (m', w')
    /\ key_loaded m' = true.
Proof.
  pose proof (load_signing_key_spec demo_link demo_world demo_db demo_now sample_key demo_db_ok
    ltac:(by vm_compute) ltac:(by vm_compute)) as W.
  destruct (load_signing_key demo_link demo_world (Some demo_db) demo_now) as [[m' w']|]; [|destruct W].
  exists m', w'. split; [reflexivity|]. destruct W as [_ W]. by destruct W.
Defined.

Lemma setup_signing_rotates_witness :
  exists m' w' h', handle_setup_signing demo_setup demo_link demo_world demo_db true true demo_now (demo_msg 256)
    = Some (m', w', h')
    /\ exists s, wired w' 2 = Some s /\ sg_secret_key s = replicate 32 9.
Proof.
  destruct (setup_signing_rotates demo_setup demo_decodes demo_link demo_world demo_db true demo_now
    (demo_msg 256) sample_key demo_db_ok ltac:(by vm_compute) eq_refl)
    as (m' & w' & h' & E & _ & _ & _ & _ & Hs).
  exists m', w', h'. split; [exact E|exact Hs].
Defined.

Definition demo_inited : MAVLink * world :=
  default (demo_link, demo_world)
    (init sample_key demo_world 2 true false false 5 (Some demo_db) demo_now).
Definition demo_received : received (db := mapdb) (P := unit) :=
  default (Build_received None [] demo_link demo_world demo_db [])
    (receive_message demo_parse demo_setup demo_inited.1 demo_inited.2 demo_db true true demo_now [0]).

Lemma some_default {A} (d : A) (o : option A) :
  match o with Some _ => true | None => false end = true -> o = Some (default d o).
Proof. by destruct o. Qed.

Lemma accepted_messages_signed_witness :
  rc_msg demo_received = Some (demo_msg 0)
  /\ exists s, wired demo_inited.2 2 = Some s /\ demo_verifies (sg_secret_key s) (demo_msg 0).
Proof.
  assert (Ei : init sample_key demo_world 2 true false false 5 (Some demo_db) demo_now
               = Some (demo_inited.1, demo_inited.2))
    by (rewrite <-surjective_pairing; apply some_default; vm_compute; reflexivity).
  assert (Er : receive_message demo_parse demo_setup demo_inited.1 demo_inited.2 demo_db true true demo_now [0]
               = Some demo_received) by (apply some_default; vm_compute; reflexivity).
  assert (Em : rc_msg demo_received = Some (demo_msg 0)) by (vm_compute; reflexivity).
  split; [exact Em|].
  destruct (accepted_messages_signed demo_parse (fun _ => (0, 0)) (fun _ _ => None) demo_setup demo_verifies
    demo_verified demo_keeps demo_decodes demo_setup_bytes 2 5 sample_key demo_world demo_db false false
    (Some demo_db) demo_now demo_inited.1 demo_inited.2 [] demo_inited.1 demo_inited.2 demo_db
    true true demo_now [0] demo_received (demo_msg 0) ltac:(done) demo_db_ok ltac:(constructor) Ei eq_refl Er Em)
    as (_ & _ & _ & [W|[W _]]); [exact W|]. exfalso. vm_compute in W. discriminate W.
Defined.

(** ** Where the code falls short *)

(** The load that refuses an all-zero key leaves the flag as it was.  On a link that had
    a key (a reload after a rotation whose save failed) the flag stays set while the
    channel is left without signing, so the parser no longer checks signatures. *)
Lemma zero_key_keeps_loaded_flag (w : world (P := unit)) (h : mapdb) m now k :
  key_loaded m = true -> db_load_key h (key_id m) (key m) = (true, k) ->
  all_zero_key (timestamp k) (secret_key k) = true ->
  exists m' w', load_signing_key m w (Some h) now = Some (m', w')
    /\ key_loaded m' = true /\ wired w' (chan m) = None.
Proof.
  intros Hl Hk Hz. unfold load_signing_key. rewrite Hk. cbn [negb]. rewrite Hz.
  do 2 eexists. split; [reflexivity|]. split; [done|]. cbn. unfold upd. by rewrite Z.eqb_refl.
Qed.

(** When keys.tdb cannot be opened, the null handle is passed on to [tdb_fetch]. *)
Lemma load_signing_key_null_handle m (w : world (P := unit)) now :
  load_signing_key (db := mapdb) m w None now = None.
Proof. done. Qed.
