(* ===== verification/Session.v ===== *)
(** * Session files: naming and the telemetry log (session.cpp, session.h, tlog.cpp, tlog.h)

    The tree under logs/ as the recording code sees it, the date directory and base name
    of a session, and the tlog writer.  The C library's calendar is a parameter; the
    floating-point offset of the key record is decoded to an exact integer multiple of
    2^-149, in which all the arithmetic done on it here is exact. *)

From S2P Require Import Prelude CStr KeyDb.

(** ** The log tree *)

(** A file as [stat] reports it: inode, allocated 512-byte blocks, modification time. *)
Record entry := {
  e_name : bytes;
  e_ino : Z;
  e_blocks : Z;
  e_mtime : Z
}.

(** A date directory with its entries in [readdir] order; logs/<port2>/; logs/. *)
Abbreviation date_dir := (bytes * list entry)%type.
Abbreviation port_dir := (list date_dir).
Abbreviation log_tree := (gmap Z port_dir).

Definition has_file (d : list entry) (n : bytes) : bool :=
  existsb (fun e => bool_decide (e_name e = n)) d.

(** The entries of logs/<port2>/<datedir>; none when there is no such directory. *)
Definition dir_entries (t : log_tree) (port2 : Z) (datedir : bytes) : list entry :=
  match t !! port2 with
  | None => []
  | Some pd => match list_find (fun d => d.1 = datedir) pd with
               | Some (_, d) => d.2
               | None => []
               end
  end.

(** ** Binary32 values *)

Inductive f32 := F32_nan | F32_inf (neg : bool) | F32_fin (v : Z).

(** The scale of [F32_fin]: the value is [v / f32_one]. *)
Definition f32_one : Z := 2 ^ 149.

Definition f32_of_bits (b : Z) : f32 :=
  let neg := Z.testbit b 31 in
  let ex := Z.land (Z.shiftr b 23) 0xFF in
  let fr := Z.land b 0x7FFFFF in
  let sgn := if neg then -1 else 1 in
  if ex =? 255 then if fr =? 0 then F32_inf neg else F32_nan
  else if ex =? 0 then F32_fin (sgn * fr)
  else F32_fin (sgn * (2 ^ 23 + fr) * 2 ^ (ex - 1)).

(** [llround] of [v / f32_one]: to nearest, halves away from zero. *)
Definition llround (v : Z) : Z := Z.sgn v * ((2 * Z.abs v + f32_one) / (2 * f32_one)).

(** ** Directories *)

(** The paths [mkdir] is called on, parents first. *)
Definition mkpath_prefixes (path : bytes) : list bytes :=
  let tmp := take 1023 path in
  let n := length tmp in
  map (fun i => take i tmp)
    (filter (fun i => i = n \/ tmp !! i = Some 47) (seq 1 n)).

(** [mkdir p]: made, or already there.  The calls made and the result. *)
Fixpoint mkpath_calls (mkdir : bytes -> bool) (ps : list bytes) : list bytes * Z :=
  match ps with
  | [] => ([], 0)
  | p :: ps => if mkdir p then let '(calls, r) := mkpath_calls mkdir ps in (p :: calls, r)
               else ([p], -1)
  end.
Definition mkpath_0700 (mkdir : bytes -> bool) (path : bytes) : list bytes * Z :=
  mkpath_calls mkdir (mkpath_prefixes path).

(** ** Names *)

Record tm := {
  tm_year : Z;
  tm_mon : Z;
  tm_mday : Z;
  tm_hour : Z;
  tm_min : Z;
  tm_sec : Z
}.

(** [snprintf] into [n] bytes. *)
Definition snprintf (n : Z) (s : bytes) : bytes := ztake (n - 1) s.

(** [%0wd]. *)
Definition print_pad (w n : Z) : bytes :=
  if n <? 0 then 45 :: replicate (Z.to_nat (w - 1 - len (print_nat (- n)))) 48 ++ print_nat (- n)
  else replicate (Z.to_nat (w - len (print_nat n))) 48 ++ print_nat n.

Section naming.
Variable gmtime_r localtime_r : Z -> option tm.

Definition shifted_time (utc v : Z) : Z :=
  let v := if v <? -12 * f32_one then -12 * f32_one else v in
  let v := if 14 * f32_one <? v then 14 * f32_one else v in
  utc + llround (v * 3600).

Definition broken_time (utc : Z) (use_offset : bool) (tz_bits : Z) : option tm :=
  match use_offset, f32_of_bits tz_bits with
  | true, F32_fin v => gmtime_r (shifted_time utc v)
  | _, _ => localtime_r utc
  end.

Definition tm_zero : tm := Build_tm 0 0 0 0 0 0.

Definition date_text (t : tm) : bytes :=
  print_pad 4 (tm_year t + 1900) ++ bs "-" ++ print_pad 2 (tm_mon t + 1) ++ bs "-"
  ++ print_pad 2 (tm_mday t).
Definition name_text (t : tm) : bytes :=
  print_pad 4 (tm_year t + 1900) ++ bs "_" ++ print_pad 2 (tm_mon t + 1) ++ bs "_"
  ++ print_pad 2 (tm_mday t) ++ bs "_" ++ print_pad 2 (tm_hour t) ++ bs ":"
  ++ print_pad 2 (tm_min t) ++ bs ":" ++ print_pad 2 (tm_sec t).

(** The date directory and the base name. *)
Definition session_time_strings (utc : Z) (use_offset : bool) (tz_bits : Z)
    (datedir_len name_len : Z) : bytes * bytes :=
  let t := default tm_zero (broken_time utc use_offset tz_bits) in
  (snprintf datedir_len (date_text t), snprintf name_len (name_text t)).
End naming.

(** Every extension a session can produce. *)
Definition video_exts (slot : Z) : list bytes :=
  map (fun ext => bs ".v" ++ print_dec slot ++ bs "." ++ ext) [bs "ts"; bs "mkv"].
Definition session_exts : list bytes :=
  [bs ".tlog"; bs ".bin"] ++ flat_map video_exts (seqZ 1 KEY_MAX_VIDEO_PORTS).

Definition basename_free (d : list entry) (candidate : bytes) : bool :=
  forallb (fun ext => negb (has_file d (candidate ++ ext))) session_exts.

Definition suffixed (base : bytes) (suffix : Z) : bytes :=
  if suffix =? 1 then base else base ++ bs "-" ++ print_dec suffix.

(** The loop over suffixes, [n] of them from [suffix]. *)
Fixpoint first_free (d : list entry) (base : bytes) (suffix : Z) (n : nat) : option bytes :=
  match n with
  | O => None
  | S n => if basename_free d (suffixed base suffix) then Some (suffixed base suffix)
           else first_free d base (suffix + 1) n
  end.

Definition stamped (base : bytes) (pid nsec : Z) : bytes :=
  base ++ bs "-" ++ print_dec pid ++ print_pad 9 nsec.

(** The last resort: one try per clock reading. *)
Fixpoint first_stamp (d : list entry) (base : bytes) (pid : Z) (nsecs : list Z) : option bytes :=
  match nsecs with
  | [] => None
  | t :: ts => if basename_free d (stamped base pid t) then Some (stamped base pid t)
               else first_stamp d base pid ts
  end.

Definition max_suffix : Z := 100000.

(** [d]: the entries of the session's date directory; [nsecs]: 100 clock readings. *)
Definition session_unique_basename (d : list entry) (name : bytes) (name_len pid : Z)
    (nsecs : list Z) : bytes :=
  let base := snprintf 64 name in
  snprintf name_len
    (match first_free d base 1 (Z.to_nat (max_suffix - 1)) with
     | Some c => c
     | None => default base (first_stamp d base pid nsecs)
     end).

(** ** The tlog writer

    [fp]: what the open file holds. *)

Record TlogWriter := { tlog_fp : option bytes }.

(** [existing]: what the file at the path holds already ("ab" appends); [opened]: the
    directory could be made and the file opened. *)
Definition tlog_open (t : TlogWriter) (opened : bool) (existing : bytes) : bool * TlogWriter :=
  match tlog_fp t with
  | Some _ => (true, t)
  | None => if opened then (true, {| tlog_fp := Some existing |}) else (false, t)
  end.

(** What the two [fwrite]s of a record took, header and frame: [None], all of both; nothing
    is made of a short one. *)
Abbreviation write_result := (option (nat * nat)).

Definition taken (took : write_result) (hdr fr : bytes) : bytes :=
  match took with None => hdr ++ fr | Some (n, m) => take n hdr ++ take m fr end.

(** [frame]: [None] for a null pointer; [sec]/[usec_]: the clock. *)
Definition write_frame (t : TlogWriter) (frame : option bytes) (sec usec_ : Z) (took : write_result) : TlogWriter :=
  match tlog_fp t, frame with
  | Some f, Some ((_ :: _) as fr) =>
    {| tlog_fp := Some (f ++ taken took (be_bytes 8 (u64 (u64 (sec * 1000000) + usec_))) fr) |}
  | _, _ => t
  end.

Definition tlog_close (t : TlogWriter) : TlogWriter := {| tlog_fp := None |}.

(** ** A new session's name is unused *)

Lemma has_file_spec d n : has_file d n = true <-> exists e, e ∈ d /\ e_name e = n.
Proof.
  unfold has_file. rewrite existsb_exists. split; intros (e & Hin & He); exists e;
    rewrite <-?list_elem_of_In, ?bool_decide_eq_true in *; done.
Qed.

Lemma basename_free_false d c :
  basename_free d c = false ->
  exists e ext, e ∈ d /\ ext ∈ session_exts /\ e_name e = c ++ ext.
Proof.
  unfold basename_free. generalize session_exts. intros exts.
  induction exts as [|x exts IH]; [done|]. cbn [forallb].
  intros [H|H]%andb_false_iff.
  - apply negb_false_iff, has_file_spec in H as (e & ? & ?). exists e, x. set_solver.
  - destruct (IH H) as (e & ext & ? & ? & ?). exists e, ext. set_solver.
Qed.

Lemma basename_free_true d c e ext :
  basename_free d c = true -> e ∈ d -> ext ∈ session_exts -> e_name e <> c ++ ext.
Proof.
  unfold basename_free. rewrite forallb_forall. intros H Hin Hext E.
  specialize (H ext). rewrite <-list_elem_of_In in H. specialize (H Hext).
  apply negb_true_iff in H. rewrite (proj2 (has_file_spec d (c ++ ext))) in H; [done|by exists e].
Qed.

Lemma first_free_Some d base s n c :
  first_free d base s n = Some c ->
  exists k, s <= k < s + Z.of_nat n /\ c = suffixed base k /\ basename_free d c = true
  /\ forall j, s <= j < k -> basename_free d (suffixed base j) = false.
Proof.
  revert s. induction n as [|n IH]; intros s; [done|]. cbn [first_free].
  destruct (basename_free d (suffixed base s)) eqn:E.
  - intros [= <-]. exists s. split_and!; [lia|lia|done|done|lia].
  - intros (k & Hk & -> & Hf & Hall)%IH. exists k. split_and!; [lia|lia|done|done|].
    intros j Hj. destruct (decide (j = s)) as [->|]; [done|]. apply Hall. lia.
Qed.

Lemma first_free_None d base s n :
  first_free d base s n = None ->
  Forall (fun k => basename_free d (suffixed base k) = false) (seqZ s (Z.of_nat n)).
Proof.
  revert s. induction n as [|n IH]; intros s; [by constructor|]. cbn [first_free].
  destruct (basename_free d (suffixed base s)) eqn:E; [done|]. intros H%IH.
  rewrite seqZ_cons by lia. constructor; [done|]. by rewrite Nat2Z.inj_succ, Z.pred_succ.
Qed.

(** Every extension starts with a dot. *)
Lemma session_exts_dot ext : ext ∈ session_exts -> exists r, ext = 46 :: r.
Proof.
  assert (H : Forall (fun e => exists r, e = 46 :: r) session_exts)
    by (vm_compute; repeat constructor; eauto).
  rewrite list.Forall_forall in H. apply H.
Qed.

Lemma suffixed_inj base s t x y :
  x ∈ session_exts -> y ∈ session_exts ->
  suffixed base s ++ x = suffixed base t ++ y -> s = t.
Proof.
  intros [rx ->]%session_exts_dot [ry ->]%session_exts_dot. unfold suffixed.
  destruct (Z.eqb_spec s 1) as [->|], (Z.eqb_spec t 1) as [->|]; [done|..];
    rewrite <-?app_assoc; intros E; rewrite ?app_nil_r in E; apply app_inv_head in E;
    cbn [app bs] in E; try done.
  injection E as E. by apply print_dec_app_inj in E as [? _].
Qed.

(** Pigeonhole: distinct keys cannot each own a member of a shorter list. *)
Lemma owners_bounded {A B} (P : A -> B -> Prop) (ks : list A) (xs : list B) :
  (forall a a' b, P a b -> P a' b -> a = a') -> NoDup ks ->
  Forall (fun a => exists b, b ∈ xs /\ P a b) ks -> (length ks <= length xs)%nat.
Proof.
  intros Hinj. revert xs. induction ks as [|a ks IH]; intros xs Hnd Hall; [cbn; lia|].
  apply list.NoDup_cons in Hnd as [Ha Hnd]. apply Forall_cons_iff in Hall as [(b & Hb & Hab) Hall].
  apply list_elem_of_split in Hb as (l1 & l2 & ->).
  enough (length ks <= length (l1 ++ l2))%nat by (rewrite length_app in *; cbn; lia).
  apply IH; [done|]. rewrite list.Forall_forall in Hall |- *. intros a' Ha'.
  destruct (Hall a' Ha') as (b' & Hb' & Hab'). exists b'. split; [|done].
  apply elem_of_app in Hb' as [?|[->|?]%elem_of_cons]; [set_solver| |set_solver].
  exfalso. apply Ha. by rewrite (Hinj _ _ _ Hab Hab').
Qed.

Lemma some_suffix_free d base :
  len d < max_suffix - 1 -> is_Some (first_free d base 1 (Z.to_nat (max_suffix - 1))).
Proof.
  intros Hd. destruct (first_free _ _ _ _) eqn:E; [eauto|]. exfalso.
  apply first_free_None in E. revert Hd E. unfold max_suffix.
  generalize (Z.of_nat (Z.to_nat (100000 - 1))) (Z2Nat.id (100000 - 1) ltac:(lia)).
  intros n -> Hd H.
  assert (L : (length (seqZ 1 (100000 - 1)) <= length (e_name <$> d))%nat).
  { apply (owners_bounded (fun k x => exists ext, ext ∈ session_exts /\ x = suffixed base k ++ ext)).
    - intros a a' b (x & Hx & ->) (y & Hy & E). by apply (suffixed_inj base a a' x y).
    - apply NoDup_seqZ.
    - eapply List.Forall_impl; [|exact H]. intros k (e & ext & He & Hext & En)%basename_free_false.
      exists (e_name e). split; [by apply list_elem_of_fmap_2|by exists ext]. }
  rewrite length_seqZ, length_fmap in L. lia.
Qed.

Lemma snprintf_id n s : len s < n -> snprintf n s = s.
Proof. intros. unfold snprintf, ztake. by rewrite take_ge by lia. Qed.

Lemma length_suffixed base k : 1 <= k < max_suffix -> len (suffixed base k) <= len base + 7.
Proof.
  intros Hk. unfold suffixed, max_suffix in *. destruct (k =? 1); [lia|].
  rewrite !length_app. pose proof (length_print_dec k 4 ltac:(lia)). change (length (bs "-")) with 1%nat. lia.
Qed.

(** The base name given to a session is one that no file of its date directory uses
    with any extension a session can produce -- so opening a session's files neither
    truncates nor appends to another's -- and it is the first such one of the plain name,
    name-2, name-3 and so on; a directory would have to hold 99,999 files for the search
    to end without one. *)
Theorem unique_basename_fresh d name name_len pid nsecs :
  len name <= 50 -> 64 <= name_len -> len d < max_suffix - 1 ->
  let r := session_unique_basename d name name_len pid nsecs in
  (forall e ext, e ∈ d -> ext ∈ session_exts -> e_name e <> r ++ ext)
  /\ exists k, 1 <= k < max_suffix /\ r = suffixed name k
     /\ forall j, 1 <= j < k -> exists e ext,
          e ∈ d /\ ext ∈ session_exts /\ e_name e = suffixed name j ++ ext.
Proof.
  intros Hn Hl Hd. cbn zeta. unfold session_unique_basename.
  rewrite (snprintf_id 64 name) by lia.
  destruct (some_suffix_free d name Hd) as [c Hc]. rewrite Hc.
  apply first_free_Some in Hc as (k & Hk & -> & Hf & Hall).
  assert (Hr : 1 <= k < max_suffix) by (unfold max_suffix in *; lia).
  pose proof (length_suffixed name k Hr). rewrite snprintf_id by lia. split.
  - intros e ext He Hext. by apply (basename_free_true d).
  - exists k. split_and!; [lia|lia|done|]. intros j Hj. by apply basename_free_false, Hall.
Qed.

(** ** Reading a tlog back *)

(** One record: the time in microseconds and the frame. *)
Definition tlog_record (r : Z * bytes) : bytes := be_bytes 8 r.1 ++ r.2.

Section reading.
(** The length of the MAVLink frame a byte string starts with. *)
Variable frame_len : bytes -> option nat.

(** What a log reader makes of the file; every record is at least nine bytes long. *)
Fixpoint read_tlog (fuel : nat) (f : bytes) : list (Z * bytes) :=
  match fuel, f with
  | S fuel, _ :: _ =>
    match frame_len (drop 8 f) with
    | Some n => (be_val (take 8 f), take n (drop 8 f)) :: read_tlog fuel (drop (8 + n) f)
    | None => []
    end
  | _, _ => []
  end.

Definition frame_ok (fr : bytes) : Prop :=
  fr <> [] /\ forall rest, frame_len (fr ++ rest) = Some (length fr).

Lemma read_records rs fuel :
  Forall (fun r => is_u64 r.1 /\ frame_ok r.2) rs -> (length rs <= fuel)%nat ->
  read_tlog fuel (concat (map tlog_record rs)) = rs.
Proof.
  intros H. revert fuel. induction H as [|[us fr] rs [Hu [Hne Hfr]] _ IH]; intros fuel Hf.
  { by destruct fuel. }
  destruct fuel as [|fuel]; [cbn in Hf; lia|].
  cbn [map concat]. unfold tlog_record at 1. cbn [fst snd] in *.
  pose proof (length_be_bytes 8 us) as L. rewrite <-app_assoc.
  assert (Ed : drop 8 (be_bytes 8 us ++ fr ++ concat (map tlog_record rs))
               = fr ++ concat (map tlog_record rs)) by (by rewrite drop_app_length').
  assert (Et : take 8 (be_bytes 8 us ++ fr ++ concat (map tlog_record rs)) = be_bytes 8 us)
    by (by rewrite take_app_length').
  destruct (be_bytes 8 us ++ _) as [|b f] eqn:E; [apply (f_equal length) in E; rewrite length_app, L in E; done|].
  cbn [read_tlog]. rewrite Ed, Et, Hfr, be_val_be_bytes_small by exact Hu.
  rewrite take_app_length. f_equal. rewrite <-drop_drop, Ed, drop_app_length.
  apply IH. cbn in Hf. lia.
Qed.
End reading.

(** A session's frames, each with the clock read as it is written, all of them taken whole. *)
Definition write_frames (t : TlogWriter) (frs : list (Z * Z * bytes)) : TlogWriter :=
  fold_left (fun t '(sec, us, fr) => write_frame t (Some fr) sec us None) frs t.

Definition stamp (x : Z * Z * bytes) : Z * bytes := (x.1.1 * 1000000 + x.1.2, x.2).

Lemma write_frames_records f frs :
  Forall (fun x => is_u64 (stamp x).1 /\ 0 <= x.1.1 /\ 0 <= x.1.2 /\ x.2 <> []) frs ->
  tlog_fp (write_frames {| tlog_fp := Some f |} frs)
  = Some (f ++ concat (map tlog_record (map stamp frs))).
Proof.
  intros H. unfold write_frames. revert f. induction H as [|[[sec us] fr] frs [Hu [Hs [Hm Hne]]] _ IH]; intros f.
  { by rewrite app_nil_r. }
  unfold stamp in *. cbn [fst snd fold_left map concat] in *. unfold write_frame at 2.
  destruct fr as [|b fr]; [done|]. cbn [tlog_fp taken]. rewrite IH. unfold is_u64 in Hu.
  rewrite (wrap_small 64 (sec * 1000000)), (wrap_small 64 (sec * 1000000 + us)) by lia.
  unfold tlog_record at 2. cbn [fst snd]. by rewrite <-!app_assoc.
Qed.

(** A tlog is read back exactly: whatever the file held (any whole number of records),
    after a session's frames are written a reader finds the earlier records and then every
    frame with the microsecond it was written at, in order. *)
Theorem tlog_reads_back (frame_len : bytes -> option nat) old frs fuel :
  Forall (fun r => is_u64 r.1 /\ frame_ok frame_len r.2) old ->
  Forall (fun x => is_u64 (stamp x).1 /\ 0 <= x.1.1 /\ 0 <= x.1.2 /\ frame_ok frame_len x.2) frs ->
  (length old + length frs <= fuel)%nat ->
  let t := (tlog_open (tlog_close {| tlog_fp := None |}) true (concat (map tlog_record old))).2 in
  read_tlog frame_len fuel <$> tlog_fp (write_frames t frs) = Some (old ++ map stamp frs).
Proof.
  intros Ho Hf Hn. cbn. rewrite write_frames_records.
  - cbn. f_equal. rewrite <-concat_app, <-map_app. apply read_records.
    + apply Forall_app. split; [done|]. apply Forall_map.
      eapply List.Forall_impl; [|exact Hf]. cbn. intros x (? & ? & ? & ?). done.
    + rewrite length_app, length_map. lia.
  - eapply List.Forall_impl; [|exact Hf]. cbn. intros x (? & ? & ? & ? & ?). done.
Qed.

(** ** The stored offset *)

Lemma llround_bounds v lo hi :
  lo * f32_one <= v <= hi * f32_one -> lo <= 0 <= hi -> lo <= llround v <= hi.
Proof.
  unfold llround. assert (Hp : 0 < f32_one) by (by vm_compute).
  revert Hp. generalize f32_one. intros K HK Hv Hz.
  assert (Hq : forall a b, 0 <= b -> a <= b * K -> (2 * a + K) / (2 * K) <= b).
  { intros a b Hb Ha. apply Z.lt_succ_r, Z.div_lt_upper_bound; lia. }
  assert (H0 : forall a, 0 <= a -> 0 <= (2 * a + K) / (2 * K)) by (intros; apply Z.div_pos; lia).
  destruct (Z.abs_spec v) as [[? ->]|[? ->]].
  - specialize (Hq v hi ltac:(lia) ltac:(lia)). specialize (H0 v ltac:(lia)). nia.
  - specialize (Hq (- v) (- lo) ltac:(lia) ltac:(lia)). specialize (H0 (- v) ltac:(lia)).
    rewrite Z.sgn_neg by lia. lia.
Qed.

(** Whatever bits the record holds, the time is shifted by at most -12 or +14 hours, and a
    whole number of seconds in that range is applied exactly. *)
Lemma shifted_time_bounds utc v :
  utc - 43200 <= shifted_time utc v <= utc + 50400.
Proof.
  unfold shifted_time.
  pose proof (llround_bounds ((if 14 * f32_one <? (if v <? -12 * f32_one then -12 * f32_one else v)
    then 14 * f32_one else if v <? -12 * f32_one then -12 * f32_one else v) * 3600) (-43200) 50400) as H.
  assert (Hp : 0 < f32_one) by (by vm_compute). revert Hp H. generalize f32_one. intros K HK H.
  cbn zeta. enough (-43200 <= llround ((if 14 * K <? (if v <? -12 * K then -12 * K else v)
    then 14 * K else if v <? -12 * K then -12 * K else v) * 3600) <= 50400) by lia.
  apply H; [|lia].
  destruct (Z.ltb_spec v (-12 * K)); [destruct (Z.ltb_spec (14 * K) (-12 * K)); lia|].
  destruct (Z.ltb_spec (14 * K) v); lia.
Qed.

Example offset_half_hours :
  f32_of_bits 0x40B00000 = F32_fin (55 * f32_one / 10)
  /\ shifted_time 1000000 (55 * f32_one / 10) = 1000000 + 19800
  /\ f32_of_bits 0x7FC00000 = F32_nan /\ f32_of_bits 0xC1400000 = F32_fin (-12 * f32_one).
Proof. by vm_compute. Qed.

(** ** Witnesses *)

Lemma unique_basename_fresh_witness :
  let d := [Build_entry (bs "s.bin") 1 8 100; Build_entry (bs "s-2.v3.ts") 2 8 100] in
  session_unique_basename d (bs "s") 64 1 [] = bs "s-3"
  /\ forall e ext, e ∈ d -> ext ∈ session_exts ->
       e_name e <> session_unique_basename d (bs "s") 64 1 [] ++ ext.
Proof.
  split; [by vm_compute|].
  apply (unique_basename_fresh [Build_entry (bs "s.bin") 1 8 100; Build_entry (bs "s-2.v3.ts") 2 8 100]
    (bs "s") 64 1 []); vm_compute; congruence || done.
Defined.

(** A toy framing: the first byte is the frame's length. *)
Definition sample_frame_len (f : bytes) : option nat := Z.to_nat <$> head f.

Lemma tlog_reads_back_witness :
  read_tlog sample_frame_len 5 <$> tlog_fp (write_frames {| tlog_fp := Some [] |}
      [(1700000000, 5, [2; 9]); (1700000000, 7, [1])])
  = Some [(1700000000000005, [2; 9]); (1700000000000007, [1])].
Proof.
  apply (tlog_reads_back sample_frame_len [] [(1700000000, 5, [2; 9]); (1700000000, 7, [1])] 5).
  - constructor.
  - repeat constructor; done.
  - cbn. lia.
Defined.

(** A header cut short is not noticed, and everything after it is misread: here the record
    written next is lost. *)
Example torn_header_misread :
  let t := write_frame (write_frame {| tlog_fp := Some [] |} (Some [2; 9]) 1700000000 5 (Some (7%nat, 2%nat)))
             (Some [1]) 1700000000 7 None in
  map snd (read_tlog sample_frame_len 5 (default [] (tlog_fp t))) = [[9; 0; 6; 10; 36; 24; 30; 64; 7]].
Proof. vm_compute. reflexivity. Qed.
