(* ===== verification/Cleanup.v ===== *)
(** * Retention and disk quotas (cleanup.cpp, cleanup.h)

    The passes over logs/<port2>/: age-based retention, and one quota per kind of file.
    A directory tree is the state; whether an [unlink] succeeds is the environment's
    ([unlink_ok]), and the clock is read once per pass. *)

From stdpp Require Import sorting.
From S2P Require Import Prelude CStr Tdb KeyDb Session.

(** ** Limits *)

(** [env]: the variable's value, if it is set. *)
Definition parse_quota_env (env : option bytes) (dflt : Z) : Z :=
  match env with
  | None | Some [] => dflt
  | Some s =>
    let '(v, endp, erange) := strtoll 10 s in
    if negb erange && negb (endp =? 0)%nat && (endp =? length s)%nat && (0 <? v) then v else dflt
  end.

Definition port2_quota_bytes (env : option bytes) : Z := parse_quota_env env (1024 * 1024 * 1024).
Definition port2_video_quota_bytes (env : option bytes) : Z :=
  parse_quota_env env (4 * 1024 * 1024 * 1024).

(** [SUPPORTPROXY_ACTIVE_FILE_GRACE]: zero is allowed. *)
Definition active_file_grace_s (env : option bytes) : Z :=
  match env with
  | None | Some [] => 60
  | Some s =>
    let '(v, endp, erange) := strtoll 10 s in
    if negb erange && negb (endp =? 0)%nat && (endp =? length s)%nat && (0 <=? v) then v else 60
  end.

(** [vfs]: [f_bavail], [f_blocks] and [f_frsize], when [statvfs] succeeds. *)
Definition video_have_free_space (vfs : option (Z * Z * Z)) : bool :=
  match vfs with
  | None => true
  | Some (f_bavail, f_blocks, f_frsize) =>
    let free_bytes := u64 (f_bavail * f_frsize) in
    let total := u64 (f_blocks * f_frsize) in
    let floor_abs := 2 * 1024 * 1024 * 1024 in
    let floor_pct := total / 20 in
    (if floor_pct <? floor_abs then floor_abs else floor_pct) <? free_bytes
  end.

(** ** Kinds of file *)

Inductive session_kind := SESSION_NONE | SESSION_TELEM | SESSION_VIDEO.

#[export] Instance session_kind_eq_dec : EqDecision session_kind.
Proof. solve_decision. Defined.

(** [strcmp(name + n - k, suf) == 0] with [k] the suffix's length, for names longer than
    [more]. *)
Definition ends_with (suf name : bytes) (more : Z) : bool :=
  (more <? len name) && bool_decide (zdrop (len name - len suf) name = suf).

(** The slot part ".v<1-9>" in front of an extension of [k] bytes. *)
Definition slot_before (name : bytes) (k : Z) : bool :=
  let n := len name in
  (byte_at name (n - k - 3) =? 46) && (byte_at name (n - k - 2) =? 118)
  && (49 <=? byte_at name (n - k - 1)) && (byte_at name (n - k - 1) <=? 57).

Definition session_file_kind (name : bytes) : session_kind :=
  if ends_with (bs ".tlog") name 5 then SESSION_TELEM
  else if ends_with (bs ".bin") name 4 then SESSION_TELEM
  else if ends_with (bs ".ts") name 6 && slot_before name 3 then SESSION_VIDEO
  else if ends_with (bs ".mkv") name 7 && slot_before name 4 then SESSION_VIDEO
  else SESSION_NONE.

Definition is_session_file (name : bytes) : bool :=
  negb (bool_decide (session_file_kind name = SESSION_NONE)).

(** [d_name[0] == '.']. *)
Definition hidden (name : bytes) : bool := match name with 46 :: _ => true | _ => false end.

(** ** The tree *)

(** A file with the date directory it is in. *)
Record item := { it_dir : bytes; it_file : entry }.

#[export] Instance entry_eq_dec : EqDecision entry.
Proof. solve_decision. Defined.
#[export] Instance item_eq_dec : EqDecision item.
Proof. solve_decision. Defined.

Definition alloc (e : entry) : Z := e_blocks e * 512.
Definition total_alloc (its : list item) : Z := foldr Z.add 0 (map (fun i => alloc (it_file i)) its).

Definition dir_items (d : date_dir) : list item := map (Build_item d.1) d.2.

(** [unlink] of a name that is there. *)
Definition unlink_file (pd : port_dir) (it : item) : port_dir :=
  map (fun d => if bool_decide (d.1 = it_dir it)
                then (d.1, filter (fun e => e_name e <> e_name (it_file it)) d.2) else d) pd.

(** [rmdir], which only an empty directory lets happen. *)
Definition rmdir (pd : port_dir) (dir : bytes) : port_dir :=
  filter (fun d => ~ (d.1 = dir /\ d.2 = [])) pd.

(** ** The quota pass *)

Definition counted (kind : session_kind) (it : item) : bool :=
  negb (hidden (it_dir it)) && negb (hidden (e_name (it_file it)))
  && bool_decide (session_file_kind (e_name (it_file it)) = kind).

Definition live (now grace : Z) (it : item) : bool := now - e_mtime (it_file it) <? grace.

Definition older (a b : item) : Prop := e_mtime (it_file a) <= e_mtime (it_file b).
#[export] Instance older_dec a b : Decision (older a b).
Proof. unfold older. apply _. Defined.

Fixpoint evict (unlink_ok : item -> bool) (target needed total : Z) (its : list item)
    (pd : port_dir) : port_dir :=
  match its with
  | [] => pd
  | it :: its =>
    if total + needed <=? target then pd
    else if unlink_ok it
         then evict unlink_ok target needed (total - alloc (it_file it)) its
                (rmdir (unlink_file pd it) (it_dir it))
         else evict unlink_ok target needed total its pd
  end.

Definition counted_items (kind : session_kind) (pd : port_dir) : list item :=
  filter (fun it => counted kind it = true) (flat_map dir_items pd).

Definition enforce_quota (unlink_ok : item -> bool) (now grace : Z) (kind : session_kind)
    (quota needed : Z) (pd : port_dir) : port_dir :=
  let all := counted_items kind pd in
  let items := filter (fun it => live now grace it = false) all in
  let total := total_alloc all in
  if total + needed <=? quota then pd
  else evict unlink_ok (quota - Z.quot quota 5) needed total (merge_sort older items) pd.

(** ** The retention pass *)

(** [retention_days <= 0.0], and [age > retention_days * 86400.0]. *)
Definition keep_forever (days : Z) : bool :=
  match f32_of_bits days with
  | F32_fin v => v <=? 0
  | F32_inf neg => neg
  | F32_nan => false
  end.
Definition past_retention (days age : Z) : bool :=
  match f32_of_bits days with
  | F32_fin v => v * 86400 <? age * f32_one
  | F32_inf neg => neg
  | F32_nan => false
  end.

Definition expires (unlink_ok : item -> bool) (days now : Z) (it : item) : bool :=
  negb (hidden (e_name (it_file it))) && is_session_file (e_name (it_file it))
  && past_retention days (now - e_mtime (it_file it)) && unlink_ok it.

(** One date directory: the files that expire go, and the directory when nothing visible
    remains in it and [rmdir] takes it. *)
Definition retain_dir (unlink_ok : item -> bool) (days now : Z) (d : date_dir) : option date_dir :=
  if hidden d.1 then Some d
  else
    let files := filter (fun e => expires unlink_ok days now (Build_item d.1 e) = false) d.2 in
    let remaining := length (filter (fun e => hidden (e_name e) = false) files) in
    if (remaining =? 0)%nat && bool_decide (files = []) then None else Some (d.1, files).

Definition retention_pass (unlink_ok : item -> bool) (days now : Z) (pd : port_dir) : port_dir :=
  if keep_forever days then pd else omap (retain_dir unlink_ok days now) pd.

(** ** One entry, and all of them *)

Section passes.
Variable quota_env video_quota_env grace_env : option bytes.

Definition cleanup_for_port2 (unlink_ok : item -> bool) (days video_quota_mb now : Z)
    (pd : port_dir) : port_dir :=
  let grace := active_file_grace_s grace_env in
  let pd := retention_pass unlink_ok days now pd in
  let pd := enforce_quota unlink_ok now grace SESSION_TELEM (port2_quota_bytes quota_env) 0 pd in
  let vquota := if video_quota_mb =? 0 then port2_video_quota_bytes video_quota_env
                else video_quota_mb * 1024 * 1024 in
  enforce_quota unlink_ok now grace SESSION_VIDEO vquota 0 pd.

(** The binlog writer's and the recorder's calls; an absent directory has nothing to free. *)
Definition log_cleanup_port2_quota (unlink_ok : item -> bool) (now needed : Z) (port2 : Z)
    (t : log_tree) : log_tree :=
  alter (enforce_quota unlink_ok now (active_file_grace_s grace_env) SESSION_TELEM
           (port2_quota_bytes quota_env) needed) port2 t.

Definition log_cleanup_port2_video_quota (unlink_ok : item -> bool) (now quota needed : Z)
    (port2 : Z) (t : log_tree) : log_tree :=
  alter (enforce_quota unlink_ok now (active_file_grace_s grace_env) SESSION_VIDEO
           (if 0 <? quota then quota else port2_video_quota_bytes video_quota_env) needed) port2 t.

(** A record of keys.tdb: the port it is for and its settings, unless it is skipped. *)
Definition cleanup_record (r : bytes * bytes) : option (Z * KeyEntry) :=
  let '(key, data) := r in
  if negb (len key =? 4) || (len data <? KEYENTRY_MIN_SIZE) then None
  else
    let port2 := int_val key in
    if port2 <=? 0 then None
    else
      let k := decode_key (zero_extend KEYENTRY_SIZE data) in
      if magic k =? KEY_MAGIC then Some (port2, k) else None.

Definition traverse_cb (unlink_ok : Z -> item -> bool) (now : Z) (t : log_tree)
    (r : bytes * bytes) : log_tree :=
  match cleanup_record r with
  | None => t
  | Some (port2, k) =>
    alter (cleanup_for_port2 (unlink_ok port2) (log_retention_days k) (video_quota_mb k) now) port2 t
  end.

Definition log_cleanup_once {db} `{Tdb db} (unlink_ok : Z -> item -> bool) (now : Z)
    (h : option db) (t : log_tree) : log_tree :=
  match h with
  | None => t
  | Some h => fold_left (traverse_cb unlink_ok now) (tdb_records h) t
  end.
End passes.

(** ** Trees as lists of files *)

Definition tree_files (pd : port_dir) : list item := flat_map dir_items pd.

(** Directory names are distinct, and so are the names within each. *)
Definition tree_ok (pd : port_dir) : Prop :=
  NoDup (map fst pd) /\ Forall (fun d => NoDup (map e_name d.2)) pd.

#[export] Instance tree_ok_dec pd : Decision (tree_ok pd).
Proof. unfold tree_ok. apply _. Defined.

Definition same_path (i j : item) : Prop :=
  it_dir i = it_dir j /\ e_name (it_file i) = e_name (it_file j).
#[export] Instance same_path_dec i j : Decision (same_path i j).
Proof. unfold same_path. apply _. Defined.

Section trees.
Implicit Types (pd : port_dir) (it : item).

Lemma elem_of_dir_items it (d : date_dir) :
  it ∈ dir_items d <-> it_dir it = d.1 /\ it_file it ∈ d.2.
Proof.
  unfold dir_items. rewrite !list_elem_of_In, in_map_iff. split.
  - intros (e & <- & He). done.
  - intros [<- He]. exists (it_file it). by destruct it.
Qed.

Lemma elem_of_tree_files it pd :
  it ∈ tree_files pd <-> exists d, d ∈ pd /\ it_dir it = d.1 /\ it_file it ∈ d.2.
Proof.
  unfold tree_files. rewrite list_elem_of_In, in_flat_map.
  setoid_rewrite <-list_elem_of_In. by setoid_rewrite elem_of_dir_items.
Qed.

Lemma NoDup_map_inj {A B} (f : A -> B) (l : list A) x y :
  NoDup (map f l) -> x ∈ l -> y ∈ l -> f x = f y -> x = y.
Proof.
  induction l as [|z l IH]; cbn; [set_solver|]. intros [Hz Hnd]%list.NoDup_cons Hx Hy E.
  assert (Hin : forall w, w ∈ l -> f w ∈ map f l)
    by (intros w Hw; apply list_elem_of_In, in_map; by apply list_elem_of_In).
  apply elem_of_cons in Hx as [->|Hx]; apply elem_of_cons in Hy as [->|Hy]; [done| | |by apply IH].
  - exfalso. apply Hz. rewrite E. by apply Hin.
  - exfalso. apply Hz. rewrite <-E. by apply Hin.
Qed.

Lemma NoDup_map_filter {A B} (f : A -> B) (P : A -> Prop) `{!forall x, Decision (P x)} (l : list A) :
  NoDup (map f l) -> NoDup (map f (filter P l)).
Proof.
  induction l as [|z l IH]; [done|]. cbn [map]. intros [Hz Hnd]%list.NoDup_cons.
  rewrite filter_cons. case_decide; [|by apply IH]. cbn [map]. apply list.NoDup_cons.
  split; [|by apply IH]. intros Hin. apply Hz. apply list_elem_of_In, in_map_iff in Hin as (w & E & Hw).
  apply list_elem_of_In, in_map_iff. exists w. split; [done|].
  apply list_elem_of_In, list_elem_of_filter in Hw as [_ Hw]. by apply list_elem_of_In.
Qed.

Lemma tree_path_inj pd i j :
  tree_ok pd -> i ∈ tree_files pd -> j ∈ tree_files pd -> same_path i j -> i = j.
Proof.
  intros [Hd Hf] Hi Hj [E1 E2].
  apply elem_of_tree_files in Hi as (d & Hdi & Ei & Hei).
  apply elem_of_tree_files in Hj as (d' & Hdj & Ej & Hej).
  assert (d = d') as <- by (apply (NoDup_map_inj fst pd); congruence).
  destruct i as [di ei], j as [dj ej]. cbn in *. f_equal; [congruence|].
  rewrite list.Forall_forall in Hf. by apply (NoDup_map_inj e_name d.2); [apply Hf|..].
Qed.

Lemma filter_map_items (P : item -> Prop) `{!forall i, Decision (P i)} (dn : bytes) (l : list entry) :
  filter P (map (Build_item dn) l) = map (Build_item dn) (filter (fun e => P (Build_item dn e)) l).
Proof. induction l as [|e l IH]; [done|]. cbn [map]. rewrite !filter_cons. case_decide; cbn; by rewrite IH. Qed.

Lemma filter_iff_in {A} (P Q : A -> Prop) `{!forall x, Decision (P x), !forall x, Decision (Q x)}
    (l : list A) :
  (forall x, x ∈ l -> P x <-> Q x) -> filter P l = filter Q l.
Proof.
  induction l as [|x l IH]; intros Hpq; [done|]. rewrite !filter_cons, IH by set_solver.
  pose proof (Hpq x ltac:(set_solver)). repeat case_decide; tauto || done.
Qed.

Lemma tree_files_unlink pd it :
  tree_files (unlink_file pd it) = filter (fun i => ~ same_path i it) (tree_files pd).
Proof.
  unfold tree_files, unlink_file. induction pd as [|d pd IH]; [done|].
  cbn [map flat_map]. rewrite IH, list.filter_app. f_equal. unfold dir_items. rewrite filter_map_items.
  case_bool_decide as E; cbn [fst snd].
  - f_equal. apply list_filter_iff. intros e. unfold same_path. cbn. naive_solver.
  - rewrite filter_all; [done|]. apply list.Forall_forall. intros e _ [E' _]. by apply E.
Qed.

Lemma tree_files_rmdir pd dir : tree_files (rmdir pd dir) = tree_files pd.
Proof.
  unfold tree_files, rmdir. induction pd as [|d pd IH]; [done|]. rewrite filter_cons.
  case_decide as H; cbn [flat_map]; rewrite IH; [done|].
  destruct H as [_ H]. unfold dir_items. by rewrite H.
Qed.

Lemma tree_ok_unlink pd it : tree_ok pd -> tree_ok (unlink_file pd it).
Proof.
  intros [Hd Hf]. split.
  - unfold unlink_file. rewrite map_map.
    replace (map (fun d => (if bool_decide (d.1 = it_dir it) then _ else d).1) pd) with (map fst pd); [done|].
    apply map_ext. intros d. by case_bool_decide.
  - apply Forall_map. eapply List.Forall_impl; [|exact Hf]. intros d Hn. cbn beta in Hn |- *.
    case_bool_decide; [|done]. by apply NoDup_map_filter.
Qed.

Lemma tree_ok_rmdir pd dir : tree_ok pd -> tree_ok (rmdir pd dir).
Proof.
  intros [Hd Hf]. split; [by apply NoDup_map_filter|].
  rewrite list.Forall_forall in Hf |- *. intros d Hin.
  apply list_elem_of_filter in Hin as [_ Hin]. by apply Hf.
Qed.

Lemma NoDup_tree_files pd : tree_ok pd -> NoDup (tree_files pd).
Proof.
  intros [Hd Hf]. unfold tree_files. induction pd as [|d pd IH]; [constructor|].
  cbn [map flat_map] in *. apply list.NoDup_cons in Hd as [Hd Hds].
  apply Forall_cons_iff in Hf as [Hf Hfs]. apply list.NoDup_app. split_and!; [| |by apply IH].
  - unfold dir_items. clear -Hf. induction d.2 as [|e l IH]; [constructor|]. cbn [map] in *.
    apply list.NoDup_cons in Hf as [He Hf]. apply list.NoDup_cons. split; [|by apply IH].
    intros Hin. apply He. apply list_elem_of_In, in_map_iff in Hin as (e' & [= <-] & Hin').
    by apply list_elem_of_In, in_map.
  - intros i Hi Hi'. apply elem_of_dir_items in Hi as [E _].
    apply elem_of_tree_files in Hi' as (d' & Hd' & E' & _). apply Hd.
    rewrite <-E, E'. by apply list_elem_of_In, in_map, list_elem_of_In.
Qed.

(** Removing one file and perhaps its directory. *)
Lemma unlink_rmdir pd it :
  tree_ok pd -> it ∈ tree_files pd ->
  tree_ok (rmdir (unlink_file pd it) (it_dir it))
  /\ tree_files (rmdir (unlink_file pd it) (it_dir it)) = filter (fun i => i <> it) (tree_files pd).
Proof.
  intros Hok Hin. split; [by apply tree_ok_rmdir, tree_ok_unlink|].
  rewrite tree_files_rmdir, tree_files_unlink. apply filter_iff_in.
  intros i Hi. split.
  - intros Hs ->. by apply Hs.
  - intros Hne Hs. apply Hne. by apply (tree_path_inj pd).
Qed.
End trees.

(** ** The quota pass *)

Lemma total_alloc_app l k : total_alloc (l ++ k) = total_alloc l + total_alloc k.
Proof. unfold total_alloc. induction l as [|x l IH]; cbn in *; lia. Qed.

Section evicting.
Variables (unlink_ok : item -> bool) (target needed : Z).

(** What an eviction over [its] removes: those of a first part of [its] that can be
    unlinked -- all of [its], or just enough of it. *)
Lemma evict_spec total its pd :
  tree_ok pd -> NoDup its -> Forall (fun it => it ∈ tree_files pd) its ->
  exists k, let gone := filter (fun it => unlink_ok it = true) (take k its) in
  let pd' := evict unlink_ok target needed total its pd in
  tree_files pd' = filter (fun it => it ∉ gone) (tree_files pd) /\ tree_ok pd'
  /\ (total - total_alloc gone + needed <= target \/ drop k its = [])
  /\ (forall g1 g, gone = g1 ++ [g] -> target < total - total_alloc g1 + needed).
Proof.
  revert total pd. induction its as [|it its IH]; intros total pd Hok Hnd Hin.
  { exists O. cbn. split_and!; [|done|by right|by intros [] ? ?].
    symmetry. apply filter_all, list.Forall_forall. intros x _ Hx. by apply not_elem_of_nil in Hx. }
  apply list.NoDup_cons in Hnd as [Hit Hnd]. apply Forall_cons_iff in Hin as [Hit' Hin].
  cbn [evict]. destruct (Z.leb_spec (total + needed) target).
  { exists O. cbn. split_and!; [|done|left; lia|by intros [] ? ?].
    symmetry. apply filter_all, list.Forall_forall. intros x _ Hx. by apply not_elem_of_nil in Hx. }
  destruct (unlink_ok it) eqn:Hu.
  - destruct (unlink_rmdir pd it Hok Hit') as [Hok' Hf'].
    destruct (IH (total - alloc (it_file it)) (rmdir (unlink_file pd it) (it_dir it)))
      as (k & IHf & IHok & IHt & IHg); [done..| |].
    { rewrite list.Forall_forall in Hin |- *. intros x Hx. rewrite Hf'.
      apply list_elem_of_filter. split; [congruence|by apply Hin]. }
    exists (S k). cbn [take drop]. rewrite filter_cons_True by done. cbn zeta in *. split_and!.
    + rewrite IHf, Hf', list_filter_filter. apply list_filter_iff. intros x.
      rewrite not_elem_of_cons. tauto.
    + done.
    + cbn [total_alloc map foldr]. fold (total_alloc (filter (fun it => unlink_ok it = true) (take k its))).
      destruct IHt; [left; lia|by right].
    + intros [|g0 g1] g [= -> E]; [cbn; lia|]. specialize (IHg _ _ E).
      cbn [total_alloc map foldr]. fold (total_alloc g1). lia.
  - destruct (IH total pd Hok Hnd Hin) as (k & IHk). exists (S k). cbn [take drop].
    by rewrite filter_cons_False by congruence.
Qed.
End evicting.

Definition victims (unlink_ok : item -> bool) (now grace : Z) (kind : session_kind) (pd : port_dir)
  : list item :=
  filter (fun it => live now grace it = false /\ unlink_ok it = true) (counted_items kind pd).

Lemma elem_of_counted kind pd it :
  it ∈ counted_items kind pd <-> it ∈ tree_files pd /\ counted kind it = true.
Proof. unfold counted_items. rewrite list_elem_of_filter. unfold tree_files. tauto. Qed.

#[export] Instance older_total : Total older.
Proof. intros a b. unfold older. lia. Qed.
#[export] Instance older_trans : Transitive older.
Proof. intros a b c. unfold older. lia. Qed.

(** The candidates in the order they are tried. *)
Definition queue (now grace : Z) (kind : session_kind) (pd : port_dir) : list item :=
  merge_sort older (filter (fun it => live now grace it = false) (counted_items kind pd)).

Lemma elem_of_queue now grace kind pd it :
  it ∈ queue now grace kind pd <-> live now grace it = false /\ it ∈ counted_items kind pd.
Proof. unfold queue. rewrite (merge_sort_Permutation older). by rewrite list_elem_of_filter. Qed.

Lemma elem_of_victims unlink_ok now grace kind pd it :
  it ∈ victims unlink_ok now grace kind pd <-> it ∈ queue now grace kind pd /\ unlink_ok it = true.
Proof. unfold victims. rewrite list_elem_of_filter, elem_of_queue. tauto. Qed.

Lemma enforce_quota_evicts unlink_ok now grace kind quota needed pd :
  tree_ok pd ->
  let pd' := enforce_quota unlink_ok now grace kind quota needed pd in
  let total := total_alloc (counted_items kind pd) in
  exists k, let gone := filter (fun it => unlink_ok it = true) (take k (queue now grace kind pd)) in
    tree_files pd' = filter (fun it => it ∉ gone) (tree_files pd) /\ tree_ok pd'
    /\ (total + needed <= quota -> gone = [])
    /\ (quota < total + needed ->
        total - total_alloc gone + needed <= quota - Z.quot quota 5
        \/ drop k (queue now grace kind pd) = [])
    /\ (forall g1 g, gone = g1 ++ [g] -> quota - Z.quot quota 5 < total - total_alloc g1 + needed).
Proof.
  intros Hok. cbn zeta. unfold enforce_quota. set (total := total_alloc _).
  fold (queue now grace kind pd). destruct (Z.leb_spec (total + needed) quota).
  { exists O. cbn. split_and!; [|done|done|lia|by intros [] ? ?].
    symmetry. apply filter_all, list.Forall_forall. intros x _. apply not_elem_of_nil. }
  destruct (evict_spec unlink_ok (quota - Z.quot quota 5) needed total (queue now grace kind pd) pd)
    as (k & Hf & Hok' & Ht & Hg); [done| | |exists k; split_and!; try done; lia].
  - unfold queue. rewrite (merge_sort_Permutation older).
    by apply list.NoDup_filter, list.NoDup_filter, NoDup_tree_files.
  - apply list.Forall_forall. intros x [_ [Hx _]%elem_of_counted]%elem_of_queue. done.
Qed.

(** The quota pass removes a set [gone] of files and nothing else.  Each is of the
    pass's kind, visible, not live, and could be unlinked; nothing goes while the total
    (with what the caller needs) is within the quota; above it, files go until 80% of
    the quota is met or no candidate is left, oldest first, and not one more than it
    takes. *)
Theorem quota_pass_spec unlink_ok now grace kind quota needed pd :
  tree_ok pd ->
  let pd' := enforce_quota unlink_ok now grace kind quota needed pd in
  let total := total_alloc (counted_items kind pd) in
  let target := quota - Z.quot quota 5 in
  exists gone,
    tree_files pd' = filter (fun it => it ∉ gone) (tree_files pd) /\ tree_ok pd'
    /\ gone ⊆ victims unlink_ok now grace kind pd
    /\ (total + needed <= quota -> gone = [])
    /\ (quota < total + needed ->
        total - total_alloc gone + needed <= target \/ victims unlink_ok now grace kind pd ⊆ gone)
    /\ (forall g1 g, gone = g1 ++ [g] -> target < total - total_alloc g1 + needed)
    /\ (forall g it, g ∈ gone -> it ∈ victims unlink_ok now grace kind pd -> it ∉ gone ->
        e_mtime (it_file g) <= e_mtime (it_file it)).
Proof.
  intros Hok. cbn zeta.
  destruct (enforce_quota_evicts unlink_ok now grace kind quota needed pd Hok)
    as (k & Hf & Hok' & H0 & Ht & Hg).
  pose proof (elem_of_victims unlink_ok now grace kind pd) as Hv.
  exists (filter (fun it => unlink_ok it = true) (take k (queue now grace kind pd))).
  split_and!; [done|done| |done| |done|].
  - intros x [? Hx]%list_elem_of_filter. apply Hv. split; [|done].
    by apply elem_of_take in Hx as (? & ?%list_elem_of_lookup_2 & _).
  - intros [Ht'|Ht']%Ht; [by left|right]. intros x [Hx Hu]%Hv.
    apply list_elem_of_filter. split; [done|].
    by rewrite <-(take_drop k (queue now grace kind pd)), Ht', app_nil_r in Hx.
  - intros g it [Hgu Hgk]%list_elem_of_filter [Hi Hiu]%Hv Hn.
    pose proof (StronglySorted_merge_sort older
      (filter (fun it => live now grace it = false) (counted_items kind pd))) as Hs.
    fold (queue now grace kind pd) in Hs.
    rewrite <-(take_drop k (queue now grace kind pd)) in Hs, Hi. apply elem_of_app in Hi as [Hi|Hi].
    { exfalso. apply Hn. by apply list_elem_of_filter. }
    by eapply StronglySorted_app_1_elem_of in Hs.
Qed.

(** ** The passes of one entry *)

Lemma quota_keeps unlink_ok now grace kind quota needed pd it :
  tree_ok pd -> it ∈ tree_files pd ->
  (it ∈ victims unlink_ok now grace kind pd -> total_alloc (counted_items kind pd) + needed <= quota) ->
  it ∈ tree_files (enforce_quota unlink_ok now grace kind quota needed pd).
Proof.
  intros Hok Hin Hv.
  destruct (enforce_quota_evicts unlink_ok now grace kind quota needed pd Hok) as (k & -> & _ & H0 & _).
  apply list_elem_of_filter. split; [|done]. intros [Hu Hk]%list_elem_of_filter.
  assert (Hvi : it ∈ victims unlink_ok now grace kind pd).
  { apply elem_of_victims. split; [|done]. by apply elem_of_take in Hk as (? & ?%list_elem_of_lookup_2 & _). }
  specialize (H0 (Hv Hvi)).
  assert (Hin' : it ∈ filter (fun it => unlink_ok it = true) (take k (queue now grace kind pd)))
    by (by apply list_elem_of_filter).
  rewrite H0 in Hin'. by apply not_elem_of_nil in Hin'.
Qed.

Lemma quota_tree_ok unlink_ok now grace kind quota needed pd :
  tree_ok pd -> tree_ok (enforce_quota unlink_ok now grace kind quota needed pd)
  /\ exists P : item -> Prop, exists _ : forall i, Decision (P i),
     tree_files (enforce_quota unlink_ok now grace kind quota needed pd) = filter P (tree_files pd).
Proof.
  intros Hok. destruct (enforce_quota_evicts unlink_ok now grace kind quota needed pd Hok)
    as (k & Hf & Hok' & _). split; [done|]. eexists _, _. exact Hf.
Qed.

(** The files the retention pass leaves. *)
Lemma retention_files unlink_ok days now pd :
  keep_forever days = false ->
  tree_files (retention_pass unlink_ok days now pd)
  = filter (fun it => hidden (it_dir it) = true \/ expires unlink_ok days now it = false) (tree_files pd).
Proof.
  intros Hk. unfold retention_pass. rewrite Hk. unfold tree_files.
  induction pd as [|d pd IH]; [done|]. cbn [omap list_omap flat_map].
  rewrite list.filter_app, <-IH. unfold retain_dir, dir_items. rewrite filter_map_items. cbn [it_dir].
  destruct (hidden d.1) eqn:Eh.
  { cbn [flat_map]. f_equal. rewrite filter_all; [done|]. apply list.Forall_forall. by left. }
  rewrite (list_filter_iff (fun e => false = true \/ expires unlink_ok days now {| it_dir := d.1; it_file := e |} = false)
    (fun e => expires unlink_ok days now {| it_dir := d.1; it_file := e |} = false)) by naive_solver.
  destruct (_ && bool_decide _)%bool eqn:E; [|done].
  apply andb_true_iff in E as [_ E%bool_decide_eq_true]. by rewrite E.
Qed.

Lemma retention_tree_ok unlink_ok days now pd :
  tree_ok pd -> tree_ok (retention_pass unlink_ok days now pd).
Proof.
  unfold retention_pass. destruct (keep_forever days); [done|]. intros [Hd Hf].
  assert (Hsub : forall d d', retain_dir unlink_ok days now d = Some d' ->
    d'.1 = d.1 /\ (NoDup (map e_name d.2) -> NoDup (map e_name d'.2))).
  { unfold retain_dir. intros d d'. destruct (hidden d.1); [by intros [= <-]|].
    destruct (_ && bool_decide _)%bool; [done|]. intros [= <-]. split; [done|].
    apply NoDup_map_filter. }
  induction pd as [|d pd IH]; [done|]. cbn [map] in Hd. apply list.NoDup_cons in Hd as [Hd Hds].
  apply Forall_cons_iff in Hf as [Hf Hfs]. destruct (IH Hds Hfs) as [IHd IHf].
  unfold tree_ok in *. cbn [omap list_omap].
  destruct (retain_dir _ _ _ d) as [d'|] eqn:E; [|done]. destruct (Hsub _ _ E) as [E1 Hn].
  split; [|by constructor; [apply Hn|]]. cbn [map]. apply list.NoDup_cons. split; [|done].
  rewrite E1. intros Hin. apply Hd. apply list_elem_of_In, in_map_iff in Hin as (x & Ex & Hx).
  apply list_elem_of_In, list_elem_of_omap in Hx as (y & Hy & Ey). destruct (Hsub _ _ Ey) as [E2 _].
  apply list_elem_of_In, in_map_iff. exists y. split; [congruence|by apply list_elem_of_In].
Qed.

Definition blocks_ok (pd : port_dir) : Prop := Forall (fun it => 0 <= e_blocks (it_file it)) (tree_files pd).

#[export] Instance blocks_ok_dec pd : Decision (blocks_ok pd).
Proof. unfold blocks_ok. apply _. Defined.

(** A pass leaves a part of the tree's files. *)
Definition shrinks (pd pd' : port_dir) : Prop :=
  tree_ok pd' /\ exists P : item -> Prop, exists _ : forall i, Decision (P i),
    tree_files pd' = filter P (tree_files pd).

Lemma filter_comm {A} (P Q : A -> Prop) `{!forall x, Decision (P x), !forall x, Decision (Q x)} (l : list A) :
  filter P (filter Q l) = filter Q (filter P l).
Proof. rewrite !list_filter_filter. apply list_filter_iff. tauto. Qed.

Lemma total_filter_le (P : item -> Prop) `{!forall i, Decision (P i)} l :
  Forall (fun it => 0 <= e_blocks (it_file it)) l -> total_alloc (filter P l) <= total_alloc l.
Proof.
  intros Hnn. induction Hnn as [|x l Hx _ IH]; [done|]. rewrite filter_cons.
  case_decide; unfold total_alloc, alloc in *; cbn in *; lia.
Qed.

Lemma shrinks_total kind pd pd' :
  blocks_ok pd -> shrinks pd pd' ->
  blocks_ok pd' /\ total_alloc (counted_items kind pd') <= total_alloc (counted_items kind pd).
Proof.
  intros Hb (_ & P & HP & E). unfold blocks_ok, counted_items in *. fold (tree_files pd') (tree_files pd).
  rewrite E. split.
  - rewrite list.Forall_forall in Hb |- *. intros i [_ Hi]%list_elem_of_filter. by apply Hb.
  - rewrite filter_comm. apply total_filter_le. rewrite list.Forall_forall in Hb |- *.
    intros i [_ Hi]%list_elem_of_filter. by apply Hb.
Qed.

Lemma retention_shrinks unlink_ok days now pd :
  tree_ok pd -> shrinks pd (retention_pass unlink_ok days now pd).
Proof.
  intros Hok. split; [by apply retention_tree_ok|].
  destruct (keep_forever days) eqn:E.
  - exists (fun _ => True), _. unfold retention_pass. rewrite E.
    symmetry. by apply filter_all, list.Forall_forall.
  - eexists _, _. by apply retention_files.
Qed.

Lemma retention_keeps unlink_ok days now pd it :
  it ∈ tree_files pd -> keep_forever days = true \/ expires unlink_ok days now it = false ->
  it ∈ tree_files (retention_pass unlink_ok days now pd).
Proof.
  intros Hin Hk. destruct (keep_forever days) eqn:E; [by unfold retention_pass; rewrite E|].
  rewrite retention_files by done. apply list_elem_of_filter. destruct Hk; [done|]. auto.
Qed.

(** Why the pass for [kind] leaves a file alone, whatever else is in the tree. *)
Definition spared (now grace quota : Z) (kind : session_kind) (pd : port_dir) (it : item) : Prop :=
  counted kind it = false \/ live now grace it = true \/ total_alloc (counted_items kind pd) <= quota.

Lemma spared_keeps unlink_ok now grace kind quota pd0 pd it :
  blocks_ok pd0 -> shrinks pd0 pd -> it ∈ tree_files pd -> spared now grace quota kind pd0 it ->
  it ∈ tree_files (enforce_quota unlink_ok now grace kind quota 0 pd).
Proof.
  intros Hb Hs Hin Hsp. destruct (shrinks_total kind _ _ Hb Hs) as [_ Ht].
  apply quota_keeps; [apply Hs|done|]. intros [Hc _]%elem_of_victims.
  apply elem_of_queue in Hc as [Hl [_ Hc]%elem_of_counted].
  destruct Hsp as [Hsp|[Hsp|Hsp]]; [congruence..|lia].
Qed.

(** C30: What one entry's cleanup spares.  A file that is not past the entry's retention
    survives unless its own kind is over that kind's quota and it is old enough to be a
    candidate: live files, files of no session kind and hidden ones always stay, telemetry
    within its budget stays however much video there is, and video likewise. *)
Theorem cleanup_spares quota_env vquota_env grace_env unlink_ok days mb now pd it :
  tree_ok pd -> blocks_ok pd -> it ∈ tree_files pd ->
  keep_forever days = true \/ expires unlink_ok days now it = false ->
  let grace := active_file_grace_s grace_env in
  let vquota := if mb =? 0 then port2_video_quota_bytes vquota_env else mb * 1024 * 1024 in
  spared now grace (port2_quota_bytes quota_env) SESSION_TELEM pd it ->
  spared now grace vquota SESSION_VIDEO pd it ->
  it ∈ tree_files (cleanup_for_port2 quota_env vquota_env grace_env unlink_ok days mb now pd).
Proof.
  intros Hok Hb Hin Hr grace vquota Ht Hv. unfold cleanup_for_port2. fold grace. fold vquota.
  pose proof (retention_shrinks unlink_ok days now pd Hok) as Hs1.
  destruct (shrinks_total SESSION_TELEM _ _ Hb Hs1) as [Hb1 _].
  pose proof (quota_tree_ok unlink_ok now grace SESSION_TELEM (port2_quota_bytes quota_env) 0
    (retention_pass unlink_ok days now pd) (proj1 Hs1)) as Hs2.
  apply (spared_keeps _ _ _ _ _ pd); [done| | |done].
  - destruct Hs1 as (_ & P1 & ? & E1), Hs2 as (Hok2 & P2 & ? & E2). split; [done|].
    rewrite E1, list_filter_filter in E2. eexists _, _. exact E2.
  - apply (spared_keeps _ _ _ _ _ pd); [done..| |done]. by apply retention_keeps.
Qed.

(** ** All entries *)

Section once.
Context {db : Type} `{TdbLaws db}.
Variable quota_env video_quota_env grace_env : option bytes.

Definition pass_of (unlink_ok : Z -> item -> bool) (now p : Z) (r : option bytes) : port_dir -> port_dir :=
  match cleanup_record ∘ pair (key_of p) <$> r with
  | Some (Some (_, k)) =>
      cleanup_for_port2 quota_env video_quota_env grace_env (unlink_ok p) (log_retention_days k)
        (video_quota_mb k) now
  | _ => fun pd => pd
  end.

Lemma cleanup_record_key key data p k :
  bytes_ok key -> cleanup_record (key, data) = Some (p, k) -> key = key_of p /\ is_i32 p.
Proof.
  unfold cleanup_record. intros Hb Hr. case_tests_in Hr; try done. simplify_eq. reflect_bools.
  split; [|].
  - symmetry. apply int_bytes_int_val; [done|]. lia.
  - unfold int_val, to_signed, is_i32. pose proof (wrap_range 32 (le_val key) ltac:(lia)).
    change (2 ^ (32 - 1)) with 2147483648. case_decide; lia.
Qed.

Lemma traverse_cb_lookup unlink_ok now t key data p :
  bytes_ok key -> is_i32 p ->
  traverse_cb quota_env video_quota_env grace_env unlink_ok now t (key, data) !! p
  = (if decide (key = key_of p) then pass_of unlink_ok now p (Some data) else id) <$> t !! p.
Proof.
  intros Hb Hp. unfold traverse_cb, pass_of. cbn [fmap option_fmap option_map compose].
  destruct (decide (key = key_of p)) as [->|Hne].
  - destruct (cleanup_record _) as [[p' k]|] eqn:E; [|by destruct (t !! p)].
    apply cleanup_record_key in E as [E Hp']; [|done].
    apply int_bytes_inj in E as <-; [|done..]. apply lookup_alter_eq.
  - destruct (cleanup_record _) as [[p' k]|] eqn:E; [|by destruct (t !! p)].
    apply cleanup_record_key in E as [E Hp']; [|done]. rewrite lookup_alter_ne by congruence.
    by destruct (t !! p).
Qed.
Lemma traverse_fold unlink_ok now p rs t :
  is_i32 p -> NoDup (map fst rs) -> Forall (fun r => bytes_ok r.1) rs ->
  let t' := fold_left (traverse_cb quota_env video_quota_env grace_env unlink_ok now) rs t in
  (forall v, (key_of p, v) ∈ rs -> t' !! p = pass_of unlink_ok now p (Some v) <$> t !! p)
  /\ ((forall v, (key_of p, v) ∉ rs) -> t' !! p = t !! p).
Proof.
  intros Hp. cbn zeta. revert t. induction rs as [|[key data] rs IH]; intros t Hnd Hb.
  { split; [intros v Hv; by apply not_elem_of_nil in Hv|done]. }
  cbn [map] in Hnd. apply list.NoDup_cons in Hnd as [Hk Hnd]. apply Forall_cons_iff in Hb as [Hb Hbs].
  cbn [fold_left fst] in *. destruct (IH (traverse_cb quota_env video_quota_env grace_env unlink_ok now t (key, data)) Hnd Hbs)
    as [IH1 IH2]. pose proof (traverse_cb_lookup unlink_ok now t key data p Hb Hp) as Ht. split.
  - intros v [[= <- <-]|Hv]%elem_of_cons.
    + rewrite IH2; [by rewrite Ht, decide_True by done|]. intros u Hu. apply Hk.
      apply list_elem_of_In, in_map_iff. exists (key_of p, u). split; [done|]. by apply list_elem_of_In.
    + rewrite (IH1 v Hv), Ht, decide_False; [by destruct (t !! p)|]. intros ->. apply Hk.
      apply list_elem_of_In, in_map_iff. exists (key_of p, v). split; [done|]. by apply list_elem_of_In.
  - intros Hn. rewrite IH2 by (intros v Hv; apply (Hn v); by right).
    rewrite Ht, decide_False; [by destruct (t !! p)|]. intros ->. apply (Hn data). by left.
Qed.

(** The hourly pass cleans each entry's directory once, by that entry's own retention
    and video budget, whatever order the database is walked in; the directories of ports
    with no valid record (deleted entries included) are left alone. *)
Theorem cleanup_once_per_entry unlink_ok now h t p :
  is_i32 p -> Forall (fun r => bytes_ok r.1) (tdb_records h) ->
  log_cleanup_once quota_env video_quota_env grace_env unlink_ok now (Some h) t !! p
  = pass_of unlink_ok now p (tdb_fetch h (key_of p)) <$> t !! p.
Proof.
  intros Hp Hb. unfold log_cleanup_once.
  destruct (traverse_fold unlink_ok now p (tdb_records h) t Hp (tdb_records_keys h) Hb) as [H1 H2].
  destruct (tdb_fetch h (key_of p)) as [v|] eqn:E.
  - apply H1. by apply tdb_records_fetch.
  - rewrite H2; [by destruct (t !! p)|]. intros v Hv%tdb_records_fetch. congruence.
Qed.
End once.

(** ** Limits read from the environment *)

(** A quota is a positive number of bytes, whatever the variable holds, and a plain
    decimal is taken as it is. *)
Lemma quota_positive env dflt : 0 < dflt -> 0 < parse_quota_env env dflt.
Proof.
  intros. unfold parse_quota_env. destruct env as [[|c s]|]; [done| |done].
  destruct (strtoll 10 (c :: s)) as [[v e] er].
  destruct (negb er && _ && _ && (0 <? v))%bool eqn:E; [|done]. reflect_bools. lia.
Qed.

Lemma quota_printed n dflt :
  0 < n <= LLONG_MAX -> parse_quota_env (Some (print_dec n)) dflt = n.
Proof.
  intros Hn. pose proof (strtoll_print_nat n [] ltac:(lia) I) as E. rewrite app_nil_r in E.
  unfold parse_quota_env, print_dec. rewrite (proj2 (Z.ltb_ge n 0)) by lia.
  destruct (print_nat_cons n ltac:(lia)) as (c & s & Ep & _). rewrite Ep in *. rewrite E.
  cbn [length Nat.eqb negb andb]. by rewrite Nat.eqb_refl, (proj2 (Z.ltb_lt 0 n)) by lia.
Qed.

Example quota_strict :
  parse_quota_env (Some (bs "1GB")) 7 = 7 /\ parse_quota_env (Some (bs "-5")) 7 = 7
  /\ parse_quota_env (Some (bs "99999999999999999999")) 7 = 7
  /\ parse_quota_env (Some (bs "4096")) 7 = 4096.
Proof. by vm_compute. Qed.

(** ** Witnesses *)

Definition sample_tree : port_dir :=
  [(bs "2024-01-01", [Build_entry (bs "a.bin") 1 2000 100; Build_entry (bs "a.tlog") 2 2000 200;
                      Build_entry (bs "a.v1.ts") 3 9000 100; Build_entry (bs "notes") 4 8 0]);
   (bs "2024-01-02", [Build_entry (bs "b.bin") 5 2000 5000])].

Lemma sample_tree_ok : tree_ok sample_tree /\ blocks_ok sample_tree.
Proof. split; decide_vm. Qed.

Lemma quota_pass_spec_witness :
  tree_files (enforce_quota (fun _ => true) 5010 60 SESSION_TELEM 2048000 0 sample_tree)
    = filter (fun it => e_ino (it_file it) <> 1 /\ e_ino (it_file it) <> 2) (tree_files sample_tree)
  /\ exists gone : list item, tree_files (enforce_quota (fun _ => true) 5010 60 SESSION_TELEM 2048000 0 sample_tree)
    = filter (fun it => it ∉ gone) (tree_files sample_tree).
Proof.
  split; [by vm_compute|].
  destruct (quota_pass_spec (fun _ => true) 5010 60 SESSION_TELEM 2048000 0 sample_tree
    (proj1 sample_tree_ok)) as (gone & Hf & _). by exists gone.
Defined.

Lemma cleanup_spares_witness :
  Build_item (bs "2024-01-01") (Build_entry (bs "a.bin") 1 2000 100)
  ∈ tree_files (cleanup_for_port2 (Some (bs "4096000")) (Some (bs "1000000")) None (fun _ => true)
      0 0 5010 sample_tree).
Proof.
  apply (cleanup_spares (Some (bs "4096000")) (Some (bs "1000000")) None (fun _ => true) 0 0 5010
    sample_tree).
  - exact (proj1 sample_tree_ok).
  - exact (proj2 sample_tree_ok).
  - decide_vm.
  - left. by vm_compute.
  - right. right. by vm_compute.
  - left. by vm_compute.
Defined.

Definition sample_logs : log_tree := {[ 14550 := sample_tree; 9 := sample_tree ]}.

Lemma cleanup_once_per_entry_witness :
  let h : mapdb := {[ key_of 14550 := le_bytes 8 KEY_MAGIC ++ replicate 448 0 ]} in
  log_cleanup_once (Some (bs "2048000")) None None (fun _ _ => true) 5010 (Some h) sample_logs !! 9
    = Some sample_tree
  /\ log_cleanup_once (Some (bs "2048000")) None None (fun _ _ => true) 5010 (Some h) sample_logs !! 14550
    <> Some sample_tree.
Proof.
  split.
  - rewrite (cleanup_once_per_entry (Some (bs "2048000")) None None (fun _ _ => true) 5010
      ({[ key_of 14550 := le_bytes 8 KEY_MAGIC ++ replicate 448 0 ]} : mapdb) sample_logs 9);
      [by vm_compute|done|decide_vm].
  - rewrite (cleanup_once_per_entry (Some (bs "2048000")) None None (fun _ _ => true) 5010
      ({[ key_of 14550 := le_bytes 8 KEY_MAGIC ++ replicate 448 0 ]} : mapdb) sample_logs 14550);
      [by vm_compute|done|decide_vm].
Defined.
