(* ===== verification/BinLog.v ===== *)
(** * Dataflash logs over MAVLink (binlog.cpp, binlog.h)

    The writer that stores a vehicle's log blocks in a sparse file, acknowledges them, asks
    for the missing ones, and starts a new file when the vehicle reboots.

    Times are integer microseconds.  The open file is its inode and contents; the log tree
    is what the environment shows at each call, and is changed by the quota pass the writer
    runs.  Messages are given by the fields the code reads; what is sent is recorded. *)

From S2P Require Import Prelude CStr KeyDb Session Cleanup.

Definition BLOCK_BYTES : Z := 200.
Definition MAX_NACKS_PER_TICK : nat := 10.
Definition NACK_REPEAT : Z := 100000.
Definition NACK_GIVEUP : Z := 60000000.
Definition NACK_GIVEUP_BLOCKS : Z := 200.
Definition START_REPEAT : Z := 1000000.
Definition STOP_REPEAT : Z := 2000000.
Definition STOP_MIN_GATED_BLOCKS : Z := 3.
Definition START_KEEPALIVE : Z := 5000000.
Definition REBOOT_TIME_BACKWARD_MS : Z := 10000.
Definition SEQNO0_RESTART_MIN_HIGHEST : Z := 200.
Definition MAX_FORWARD_JUMP_BYTES : Z := 100 * 1024 * 1024.
Definition QUOTA_CLEANUP_MIN_INTERVAL : Z := 30000000.

(** ** State *)

Record NackState := { first_seen : Z; last_sent : Z }.

Record open_file := { of_ino : Z; of_data : bytes }.

Record BinlogWriter := {
  fp : option open_file;
  seen_bitmap : bytes;
  highest_seen : Z;
  any_block_seen : bool;
  last_start_sent : Z;
  target_system : Z;
  target_component : Z;
  pending_acks : list Z;
  nack_state : gmap Z NackState;
  gated_block_count : Z;
  last_stop_sent : Z;
  port2_ : Z;
  base_dir_ : bytes;
  datedir_ : bytes;
  name_ : bytes;
  tz_use_offset : bool;
  tz_offset : Z;
  current_file_size : Z;
  other_sessions_bytes : Z;
  writes_since_quota_refresh : Z;
  last_quota_cleanup : Z;
  fc_sysid_filter : Z;
  last_system_time_boot_ms : Z
}.

#[export] Instance eta_BinlogWriter : Eta BinlogWriter := fun w =>
  Build_BinlogWriter (fp w) (seen_bitmap w) (highest_seen w) (any_block_seen w) (last_start_sent w)
    (target_system w) (target_component w) (pending_acks w) (nack_state w) (gated_block_count w)
    (last_stop_sent w) (port2_ w) (base_dir_ w) (datedir_ w) (name_ w) (tz_use_offset w)
    (tz_offset w) (current_file_size w) (other_sessions_bytes w) (writes_since_quota_refresh w)
    (last_quota_cleanup w) (fc_sysid_filter w) (last_system_time_boot_ms w).

Implicit Types w : BinlogWriter.

(** [set_session_paths], [set_tz] and [set_fc_sysid_filter] at the fork. *)
Definition binlog_new (datedir name : bytes) (use_offset : bool) (tz sysid : Z) : BinlogWriter := {|
  fp := None; seen_bitmap := []; highest_seen := 0; any_block_seen := false; last_start_sent := 0;
  target_system := 0; target_component := 0; pending_acks := []; nack_state := ∅;
  gated_block_count := 0; last_stop_sent := 0; port2_ := 0; base_dir_ := []; datedir_ := datedir;
  name_ := name; tz_use_offset := use_offset; tz_offset := tz; current_file_size := 0;
  other_sessions_bytes := 0; writes_since_quota_refresh := 0; last_quota_cleanup := 0;
  fc_sysid_filter := sysid; last_system_time_boot_ms := 0
|}.

(** ** The bitmap of stored blocks *)

Definition seqno_seen w (seqno : Z) : bool :=
  let byte := Z.shiftr seqno 3 in
  if len (seen_bitmap w) <=? byte then false
  else negb (Z.land (byte_at (seen_bitmap w) byte) (Z.shiftl 1 (Z.land seqno 7)) =? 0).

Definition grow_bitmap (b : bytes) (byte : Z) : bytes :=
  if len b <=? byte
  then b ++ replicate (Z.to_nat (Z.land (byte + 1 + 65535) (Z.lnot 65535) - len b)) 0
  else b.

Definition set_bitmap w (b : bytes) : BinlogWriter := w <| seen_bitmap := b |>.

Definition mark_seqno_seen w (seqno : Z) : BinlogWriter :=
  let byte := Z.shiftr seqno 3 in
  set_bitmap w (alter (fun b => Z.lor b (u8 (Z.shiftl 1 (Z.land seqno 7)))) (Z.to_nat byte)
                  (grow_bitmap (seen_bitmap w) byte)).

(** ** The directory's other files *)

Definition other_bytes (t : log_tree) (port2 : Z) (own : option Z) : Z :=
  match t !! port2 with
  | None => 0
  | Some pd =>
    total_alloc (filter (fun it =>
      negb (hidden (it_dir it))
      && (ends_with (bs ".tlog") (e_name (it_file it)) 5 || ends_with (bs ".bin") (e_name (it_file it)) 4)
      && negb (bool_decide (own = Some (e_ino (it_file it)))) = true) (flat_map dir_items pd))
  end.

Definition set_other w (n : Z) : BinlogWriter := w <| other_sessions_bytes := n |>.

Definition refresh_other_sessions_bytes w (t : log_tree) : BinlogWriter :=
  set_other w (if bool_decide (base_dir_ w = []) || (port2_ w =? 0) then 0
               else other_bytes t (port2_ w) (of_ino <$> fp w)).

(** ** Opening, closing, rotating *)

Definition set_fp w (f : option open_file) : BinlogWriter := w <| fp := f |>.

Definition opened w (ino port2 : Z) : BinlogWriter :=
  set_fp w (Some {| of_ino := ino; of_data := [] |})
    <| port2_ := port2 |> <| base_dir_ := bs "logs" |> <| current_file_size := 0 |>.

Definition set_writes w (n : Z) : BinlogWriter := w <| writes_since_quota_refresh := n |>.

(** [opens]: the new file's inode, when the directory can be made and the file opened. *)
Definition binlog_open w (opens : option Z) (port2 : Z) (t : log_tree) : bool * BinlogWriter :=
  match fp w with
  | Some _ => (true, w)
  | None =>
    match opens with
    | None => (false, w)
    | Some ino => (true, set_writes (refresh_other_sessions_bytes (opened w ino port2) t) 0)
    end
  end.

Definition binlog_close w : BinlogWriter := set_fp w None.

Definition reset_log w : BinlogWriter :=
  set_bitmap (binlog_close w) []
    <| highest_seen := 0 |> <| pending_acks := ([] : list Z) |> <| nack_state := (∅ : gmap Z NackState) |>
    <| last_start_sent := 0 |> <| gated_block_count := 0 |> <| last_system_time_boot_ms := 0 |>.

Definition set_paths w (datedir name : bytes) : BinlogWriter :=
  w <| datedir_ := datedir |> <| name_ := name |>.

(** What the environment answers during one call. *)
Record call_env := {
  ce_now : Z;                     (* time_seconds() *)
  ce_opens : option Z;            (* open(): the new file's inode *)
  ce_stat : option (Z * Z);       (* fstat(fp): st_blocks, st_blksize *)
  ce_seek_ok : bool;
  ce_wrote : nat;                 (* what fwrite takes, at most BLOCK_BYTES *)
  ce_unlink_ok : item -> bool;
  ce_pid : Z;
  ce_nsecs : list Z
}.

Section binlog.
Variable gmtime_r localtime_r : Z -> option tm.
Variable quota_env grace_env : option bytes.
Implicit Types e : call_env.

Definition rotate_for_reboot w e (t : log_tree) : BinlogWriter :=
  let w := reset_log w in
  let '(datedir, name) :=
    session_time_strings gmtime_r localtime_r (ce_now e / 1000000) (tz_use_offset w) (tz_offset w) 16 64 in
  set_paths w datedir
    (session_unique_basename (dir_entries t (port2_ w) datedir) name 64 (ce_pid e) (ce_nsecs e)).

(** ** A data block *)

(** [fseeko] and [fwrite] of the bytes taken: a write past the end leaves a hole. *)
Definition pwrite (f : bytes) (off : nat) (d : bytes) : bytes :=
  match d with
  | [] => f
  | _ => take off (f ++ replicate (off - length f) 0) ++ d ++ drop (off + length d) f
  end.

Definition put_data w (off : nat) (d : bytes) : BinlogWriter :=
  match fp w with
  | Some f => set_fp w (Some {| of_ino := of_ino f; of_data := pwrite (of_data f) off d |})
  | None => w
  end.

Definition restarts w (seqno : Z) : bool :=
  match fp w with
  | Some _ => (seqno =? 0) && (SEQNO0_RESTART_MIN_HIGHEST <=? highest_seen w)
  | None => false
  end.

Definition latch_target w (sysid compid : Z) : BinlogWriter :=
  w <| target_system := sysid |> <| target_component := compid |>.

(** A block that arrives with no file open and is not block 0. *)
Definition gated w (sysid compid : Z) : BinlogWriter :=
  let w := if target_system w =? 0 then latch_target w sysid compid else w in
  if gated_block_count w <? STOP_MIN_GATED_BLOCKS
  then w <| gated_block_count := gated_block_count w + 1 |> else w.

Definition set_gated w (n : Z) : BinlogWriter := w <| gated_block_count := n |>.

(** The gate: [None] when the block goes no further. *)
Definition pass_gate w e (t : log_tree) (port2 sysid compid seqno : Z) : BinlogWriter * bool :=
  match fp w with
  | Some _ => (w, true)
  | None =>
    if negb (seqno =? 0) then (gated w sysid compid, false)
    else let '(ok, w) := binlog_open w (ce_opens e) port2 t in
         if ok then (set_gated w 0, true) else (w, false)
  end.

Definition prospective_size w (seqno : Z) : Z :=
  Z.max (current_file_size w) (seqno * BLOCK_BYTES + BLOCK_BYTES).

(** The file's own allocation and what one write may add. *)
Definition own_alloc e : Z := match ce_stat e with Some (b, _) => b * 512 | None => 0 end.
Definition write_growth e : Z :=
  match ce_stat e with
  | Some (_, blksize) => if BLOCK_BYTES <? blksize then blksize else BLOCK_BYTES
  | None => BLOCK_BYTES
  end.

Definition set_cleanup w (now : Z) : BinlogWriter := w <| last_quota_cleanup := now |>.

(** Over quota: free space now, at most once per interval. *)
Definition relieve w e (t : log_tree) : BinlogWriter * log_tree :=
  if port2_quota_bytes quota_env <? other_sessions_bytes w + own_alloc e + write_growth e then
    if QUOTA_CLEANUP_MIN_INTERVAL <=? ce_now e - last_quota_cleanup w then
      let w := set_cleanup w (ce_now e) in
      let t := log_cleanup_port2_quota quota_env grace_env (ce_unlink_ok e) (ce_now e / 1000000)
                 (write_growth e) (port2_ w) t in
      (refresh_other_sessions_bytes w t, t)
    else (w, t)
  else (w, t).

Definition latch_first w (sysid compid : Z) : BinlogWriter :=
  if any_block_seen w then w else latch_target w sysid compid <| any_block_seen := true |>.

Definition count_write w (size : Z) (t : log_tree) : BinlogWriter :=
  let w := set_writes w (writes_since_quota_refresh w + 1) <| current_file_size := size |> in
  if 10000 <=? writes_since_quota_refresh w then set_writes (refresh_other_sessions_bytes w t) 0 else w.

Definition set_nacks w (m : gmap Z NackState) : BinlogWriter := w <| nack_state := m |>.

Definition add_gap w (now : Z) (m : gmap Z NackState) (s : Z) : gmap Z NackState :=
  if seqno_seen w s then m
  else match m !! s with Some _ => m | None => <[s := Build_NackState now 0]> m end.

Definition queue_gap_nacks w (prev_highest new_seqno now : Z) : BinlogWriter :=
  let s0 := u32 (prev_highest + 1) in
  set_nacks w (fold_left (add_gap w now) (seqZ s0 (new_seqno - s0)) (nack_state w)).

Definition set_highest w (s : Z) : BinlogWriter := w <| highest_seen := s |>.
Definition push_ack w (s : Z) : BinlogWriter := w <| pending_acks := pending_acks w ++ [s] |>.

(** A block that has been written: seen, its gap recorded, its acknowledgement queued. *)
Definition account w (seqno now : Z) : BinlogWriter :=
  let was_seen := seqno_seen w seqno in
  let w := mark_seqno_seen w seqno in
  let w := set_nacks w (delete seqno (nack_state w)) in
  let w := if any_block_seen w && (u32 (highest_seen w + 1) <? seqno)
              && negb ((highest_seen w =? 0) && negb was_seen && (seqno =? 0))
           then queue_gap_nacks w (highest_seen w) seqno now else w in
  let w := if highest_seen w <=? seqno then set_highest w seqno else w in
  push_ack w seqno.

(** The checks, then the write. *)
Definition store w e (t : log_tree) (sysid compid seqno : Z) (data : bytes) : BinlogWriter * log_tree :=
  let size := prospective_size w seqno in
  if MAX_FORWARD_JUMP_BYTES <? size - current_file_size w then (w, t)
  else
    let '(w, t) := relieve w e t in
    if port2_quota_bytes quota_env <? other_sessions_bytes w + own_alloc e + write_growth e then (w, t)
    else
      let w := latch_first w sysid compid in
      if negb (ce_seek_ok e) then (w, t)
      else
        let w := put_data w (Z.to_nat (seqno * BLOCK_BYTES)) (take (ce_wrote e) data) in
        if negb (ce_wrote e =? Z.to_nat BLOCK_BYTES)%nat then (w, t)
        else (account (count_write w size t) seqno (ce_now e), t).

Definition handle_block w e (t : log_tree) (port2 sysid compid seqno : Z) (data : bytes)
  : BinlogWriter * log_tree :=
  let w := if restarts w seqno then rotate_for_reboot w e t else w in
  let '(w, ok) := pass_gate w e t port2 sysid compid seqno in
  if ok then store w e t sysid compid seqno data else (w, t).

(** ** Watching for a reboot *)

(** [system_time]: the message's time_boot_ms, when it is a SYSTEM_TIME. *)
Definition observe w e (t : log_tree) (system_time : option Z) (from_autopilot : bool) (sysid : Z)
  : BinlogWriter :=
  match system_time with
  | None => w
  | Some boot_ms =>
    if negb from_autopilot then w
    else if negb (fc_sysid_filter w =? 0) && negb (sysid =? fc_sysid_filter w) then w
    else
      let w := if negb (last_system_time_boot_ms w =? 0)
                  && (u32 (boot_ms + REBOOT_TIME_BACKWARD_MS) <=? last_system_time_boot_ms w)
                  && match fp w with Some _ => true | None => false end
               then rotate_for_reboot w e t else w in
      w <| last_system_time_boot_ms := boot_ms |>
  end.
End binlog.

(** ** The periodic pump *)

(** A REMOTE_LOG_BLOCK_STATUS to a system and component: the magic START or STOP, or a
    block's acknowledgement or negative acknowledgement. *)
Inductive status_kind := SendStart | SendStop | SendAck (seqno : Z) | SendNack (seqno : Z).
Record status_msg := { to_system : Z; to_component : Z; st_kind : status_kind }.

(** What has been sent, and the results of the sends to come (when they run out, sends
    fail). *)
Record outbox := { ob_sent : list status_msg; ob_results : list bool }.

Definition post w (o : outbox) (k : status_kind) : bool * outbox :=
  let m := Build_status_msg (target_system w) (target_component w) k in
  match ob_results o with
  | [] => (false, Build_outbox (ob_sent o ++ [m]) [])
  | r :: rs => (r, Build_outbox (ob_sent o ++ [m]) rs)
  end.

(** [send_status] sends nothing before the first block. *)
Definition send_status w (o : outbox) (k : status_kind) : bool * outbox :=
  if any_block_seen w then post w o k else (false, o).

Definition stop_sent w (now : Z) : BinlogWriter :=
  w <| last_stop_sent := now |> <| last_start_sent := 0 |>.
Definition start_sent w (now : Z) : BinlogWriter := w <| last_start_sent := now |>.

Definition tick_stop w (now : Z) (o : outbox) : BinlogWriter * outbox :=
  if match fp w with Some _ => false | None => true end
     && (STOP_MIN_GATED_BLOCKS <=? gated_block_count w)
     && (STOP_REPEAT <=? now - last_stop_sent w)
  then let '(ok, o) := post w o SendStop in (if ok then stop_sent w now else w, o)
  else (w, o).

Definition tick_start w (now every : Z) (o : outbox) : BinlogWriter * outbox :=
  if every <=? now - last_start_sent w
  then let '(ok, o) := post w o SendStart in (if ok then start_sent w now else w, o)
  else (w, o).

Definition set_acks w (l : list Z) : BinlogWriter := w <| pending_acks := l |>.

Definition drain_acks w (o : outbox) : BinlogWriter * outbox :=
  (set_acks w [], fold_left (fun o s => (send_status w o (SendAck s)).2) (pending_acks w) o).

Definition stale w (now : Z) (s : Z) (n : NackState) : bool :=
  seqno_seen w s || (NACK_GIVEUP <? now - first_seen n)
  || ((s <=? highest_seen w) && (NACK_GIVEUP_BLOCKS <? highest_seen w - s)).

Definition drop_stale_nack_state w (now : Z) : BinlogWriter :=
  set_nacks w (filter (fun '(s, n) => stale w now s n = false) (nack_state w)).

(** A missing block asked for less than the repeat interval ago. *)
Definition throttled (now : Z) (n : NackState) : bool :=
  negb (last_sent n =? 0) && (now - last_sent n <? NACK_REPEAT).

(** The loop over the missing blocks, [budget] NACKs at most. *)
Fixpoint nack_loop w (now : Z) (budget : nat) (o : outbox) (l : list (Z * NackState))
    : BinlogWriter * outbox :=
  match budget, l with
  | O, _ | _, [] => (w, o)
  | S b, (s, n) :: l =>
    if throttled now n then nack_loop w now budget o l
    else
      let '(ok, o) := send_status w o (SendNack s) in
      if ok then nack_loop (set_nacks w (<[s := Build_NackState (first_seen n) now]> (nack_state w))) now b o l
      else nack_loop w now budget o l
  end.

Section ticking.
(** The order in which the hash table is walked. *)
Variable nack_order : gmap Z NackState -> list (Z * NackState).

Definition tick w (now : Z) (o : outbox) : BinlogWriter * outbox :=
  let '(w, o) := tick_stop w now o in
  if negb (any_block_seen w) then tick_start w now START_REPEAT o
  else
    let '(w, o) := tick_start w now START_KEEPALIVE o in
    match fp w with
    | None => (w, o)
    | Some _ =>
      let '(w, o) := drain_acks w o in
      let w := drop_stale_nack_state w now in
      nack_loop w now MAX_NACKS_PER_TICK o (nack_order (nack_state w))
    end.
End ticking.

(** ** The bitmap is a set *)

Lemma land_bit b k : 0 <= k -> negb (Z.land b (Z.shiftl 1 k) =? 0) = Z.testbit b k.
Proof.
  intros Hk. rewrite Z.shiftl_1_l.
  assert (E : Z.land b (2 ^ k) = if Z.testbit b k then 2 ^ k else 0).
  { apply Z.bits_inj'. intros n Hn. rewrite Z.land_spec, Z.pow2_bits_eqb by lia.
    destruct (Z.eqb_spec k n) as [<-|Hne]; rewrite ?andb_true_r, ?andb_false_r.
    - destruct (Z.testbit b k); [by rewrite Z.pow2_bits_true|by rewrite Z.bits_0].
    - destruct (Z.testbit b k); [by rewrite Z.pow2_bits_false|by rewrite Z.bits_0]. }
  rewrite E. pose proof (Z.pow_pos_nonneg 2 k ltac:(lia) Hk).
  destruct (Z.testbit b k); [|done]. by rewrite (proj2 (Z.eqb_neq _ _)) by lia.
Qed.

Lemma low3 s : 0 <= Z.land s 7 < 8.
Proof. change 7 with (Z.ones 3). rewrite Z.land_ones by lia. apply Z.mod_pos_bound. lia. Qed.

(** The bit for block [s]. *)
Definition bit_of (m : bytes) (s : Z) : bool :=
  match m !! Z.to_nat (Z.shiftr s 3) with
  | Some b => Z.testbit b (Z.land s 7)
  | None => false
  end.

Lemma seqno_seen_bit w s : 0 <= s -> seqno_seen w s = bit_of (seen_bitmap w) s.
Proof.
  intros Hs. unfold seqno_seen, bit_of. pose proof (proj2 (Z.shiftr_nonneg s 3) Hs).
  destruct (Z.leb_spec (len (seen_bitmap w)) (Z.shiftr s 3)).
  - by rewrite lookup_ge_None_2 by lia.
  - destruct (lookup_lt_is_Some_2 (seen_bitmap w) (Z.to_nat (Z.shiftr s 3)) ltac:(lia)) as [b Hb].
    rewrite Hb, land_bit by apply low3. unfold byte_at. by rewrite (nth_lookup_Some _ _ _ b).
Qed.

Lemma bit_of_grow m byte s : bit_of (grow_bitmap m byte) s = bit_of m s.
Proof.
  unfold grow_bitmap. destruct (len m <=? byte); [|done]. unfold bit_of.
  destruct (lt_dec (Z.to_nat (Z.shiftr s 3)) (length m)).
  - by rewrite lookup_app_l.
  - rewrite lookup_app_r by lia. rewrite (lookup_ge_None_2 m) by lia.
    destruct (replicate _ 0 !! _) as [b|] eqn:E; [|done].
    apply lookup_replicate in E as [-> _]. by rewrite Z.bits_0.
Qed.

Lemma length_grow m byte : 0 <= byte -> byte < len (grow_bitmap m byte).
Proof.
  intros Hb. unfold grow_bitmap. destruct (Z.leb_spec (len m) byte); [|lia].
  rewrite length_app, length_replicate.
  enough (byte < Z.land (byte + 1 + 65535) (Z.lnot 65535)) by lia.
  change 65535 with (Z.ones 16) at 2. rewrite <-Z.ldiff_land, Z.ldiff_ones_r by lia.
  rewrite Z.shiftl_mul_pow2, Z.shiftr_div_pow2 by lia. change (2 ^ 16) with 65536.
  pose proof (Z.div_mod (byte + 1 + 65535) 65536 ltac:(lia)).
  pose proof (Z.mod_pos_bound (byte + 1 + 65535) 65536 ltac:(lia)). lia.
Qed.

Lemma split_seqno s : 0 <= s -> s = 8 * Z.shiftr s 3 + Z.land s 7.
Proof.
  intros. change 7 with (Z.ones 3). rewrite Z.land_ones, Z.shiftr_div_pow2 by lia.
  change (2 ^ 3) with 8. apply Z.div_mod. lia.
Qed.

Lemma seen_mark w s s' :
  0 <= s -> 0 <= s' ->
  seqno_seen (mark_seqno_seen w s) s' = bool_decide (s' = s) || seqno_seen w s'.
Proof.
  intros Hs Hs'. rewrite !seqno_seen_bit by done. unfold mark_seqno_seen. cbn [seen_bitmap set_bitmap].
  pose proof (proj2 (Z.shiftr_nonneg s 3) Hs) as Hb. pose proof (proj2 (Z.shiftr_nonneg s' 3) Hs') as Hb'.
  pose proof (low3 s). pose proof (low3 s').
  rewrite <-(bit_of_grow (seen_bitmap w) (Z.shiftr s 3) s').
  pose proof (length_grow (seen_bitmap w) (Z.shiftr s 3) Hb) as Hl.
  set (m := grow_bitmap _ _) in *. unfold bit_of. rewrite list_lookup_alter.
  rewrite Z.shiftl_1_l. unfold wrap. rewrite (Z.mod_small (2 ^ Z.land s 7))
    by (split; [apply Z.pow_nonneg; lia|change (2 ^ 8) with (2 ^ 8); apply Z.pow_lt_mono_r; lia]).
  pose proof (split_seqno s Hs). pose proof (split_seqno s' Hs').
  destruct (decide (Z.to_nat (Z.shiftr s 3) = Z.to_nat (Z.shiftr s' 3))) as [Eb|Eb].
  - apply Z2Nat.inj in Eb; [|done..].
    destruct (lookup_lt_is_Some_2 m (Z.to_nat (Z.shiftr s' 3)) ltac:(lia)) as [b Hm].
    rewrite Eb, Hm. cbn. rewrite Z.lor_spec, Z.pow2_bits_eqb by lia.
    destruct (Z.eqb_spec (Z.land s 7) (Z.land s' 7)).
    + rewrite bool_decide_eq_true_2 by lia. by rewrite orb_true_r.
    + rewrite bool_decide_eq_false_2 by congruence. by rewrite orb_false_r.
  - by rewrite bool_decide_eq_false_2 by congruence.
Qed.

(** ** Writing into the file *)

Lemma lookup_pwrite f off d i :
  d <> [] ->
  pwrite f off d !! i
  = if decide (off <= i < off + length d)%nat then d !! (i - off)%nat
    else if decide (i < length f)%nat then f !! i
    else if decide (i < off)%nat then Some 0 else None.
Proof.
  intros Hd. destruct d as [|x d']; [done|]. cbn [pwrite]. set (d := x :: d').
  assert (Lt : length (take off (f ++ replicate (off - length f) 0)) = off)
    by (rewrite length_take, length_app, length_replicate; lia).
  destruct (decide (off <= i < off + length d)%nat) as [Hin|Hout].
  - rewrite lookup_app_r by lia. rewrite Lt. by rewrite lookup_app_l by lia.
  - destruct (lt_dec i off).
    + rewrite lookup_app_l by lia. rewrite lookup_take_lt by lia.
      destruct (decide (i < length f)%nat).
      * by rewrite lookup_app_l.
      * rewrite decide_True by lia. rewrite lookup_app_r by lia. apply lookup_replicate_2. lia.
    + rewrite lookup_app_r by lia. rewrite Lt. rewrite lookup_app_r by lia. rewrite lookup_drop.
      replace (off + length d + (i - off - length d))%nat with i by lia.
      destruct (decide (i < length f)%nat); [done|]. rewrite decide_False by lia.
      apply lookup_ge_None_2. lia.
Qed.

(** ** What the writer's state means

    [log]: the vehicle's log, block by block.  The open file agrees with it wherever a block
    is marked stored, and everywhere else holds the log's bytes or a hole's zeros. *)

Definition log_ok (log : Z -> bytes) : Prop := forall s, length (log s) = Z.to_nat BLOCK_BYTES.

Definition stores (log : Z -> bytes) (f : bytes) (s : Z) : Prop :=
  forall j, (j < 200)%nat -> f !! (Z.to_nat (s * BLOCK_BYTES) + j)%nat = log s !! j.

Record LogInv (log : Z -> bytes) w : Prop := {
  li_closed : fp w = None ->
    seen_bitmap w = [] /\ highest_seen w = 0 /\ pending_acks w = [] /\ nack_state w = ∅;
  li_stores : forall f s, fp w = Some f -> 0 <= s -> seqno_seen w s = true -> stores log (of_data f) s;
  li_holes : forall f i b, fp w = Some f -> of_data f !! i = Some b ->
    b = 0 \/ log (Z.of_nat i / BLOCK_BYTES) !! (i mod 200)%nat = Some b;
  li_highest : is_u32 (highest_seen w);
  li_seen : forall s, 0 <= s -> seqno_seen w s = true -> s <= highest_seen w;
  li_size : is_Some (fp w) ->
    current_file_size w = 0 /\ highest_seen w = 0 /\ (forall s, 0 <= s -> seqno_seen w s = false)
    \/ current_file_size w = BLOCK_BYTES * (highest_seen w + 1) /\ seqno_seen w (highest_seen w) = true;
  li_acks : forall s, s ∈ pending_acks w -> is_u32 s /\ seqno_seen w s = true;
  li_nacks : forall s, is_Some (nack_state w !! s) ->
    0 <= s < highest_seen w /\ seqno_seen w s = false
}.

(** The fields the invariant is about. *)
Definition core w :=
  (fp w, seen_bitmap w, highest_seen w, pending_acks w, nack_state w, current_file_size w).

Section invariant.
Variable log : Z -> bytes.

Lemma LogInv_core w w' : core w' = core w -> LogInv log w -> LogInv log w'.
Proof.
  unfold core. intros [= E1 E2 E3 E4 E5 E6] [H1 H2 H3 H4 H5 H6 H7 H8].
  assert (Es : forall s, seqno_seen w' s = seqno_seen w s) by (intros s; unfold seqno_seen; by rewrite E2).
  split; rewrite ?E1, ?E2, ?E3, ?E4, ?E5, ?E6; repeat setoid_rewrite Es; done.
Qed.

Lemma seen_empty w s : seen_bitmap w = [] -> 0 <= s -> seqno_seen w s = false.
Proof. intros E Hs. rewrite seqno_seen_bit by done. unfold bit_of. by rewrite E. Qed.

(** With no file open the state says nothing about the log. *)
Lemma LogInv_closed w :
  fp w = None -> seen_bitmap w = [] -> highest_seen w = 0 -> pending_acks w = [] -> nack_state w = ∅ ->
  LogInv log w.
Proof.
  intros E1 E2 E3 E4 E5.
  split; try (intros; congruence); rewrite ?E2, ?E3, ?E4, ?E5.
  - done.
  - done.
  - intros s Hs H. by rewrite seen_empty in H.
  - intros [? H]. congruence.
  - intros s Hs. by apply not_elem_of_nil in Hs.
  - intros s [? H]. by rewrite lookup_empty in H.
Qed.

Lemma LogInv_opened w ino port2 :
  LogInv log w -> fp w = None -> LogInv log (opened w ino port2).
Proof.
  intros Hi Hf. destruct (li_closed _ _ Hi Hf) as (E2 & E3 & E4 & E5).
  assert (Es : forall s, 0 <= s -> seqno_seen (opened w ino port2) s = false)
    by (intros; by apply seen_empty).
  split; cbn [opened fp set_fp highest_seen pending_acks nack_state current_file_size].
  - done.
  - intros f s [= <-] Hs H. by rewrite Es in H.
  - intros f i b [= <-]. done.
  - apply Hi.
  - intros s Hs H. by rewrite Es in H.
  - intros _. left. done.
  - rewrite E4. intros s Hs. by apply not_elem_of_nil in Hs.
  - rewrite E5. intros s [? H]. by rewrite lookup_empty in H.
Qed.

(** The block a file position belongs to. *)
Lemma block_position s j :
  0 <= s -> (j < 200)%nat ->
  Z.of_nat (Z.to_nat (s * BLOCK_BYTES) + j) / BLOCK_BYTES = s
  /\ ((Z.to_nat (s * BLOCK_BYTES) + j) mod 200)%nat = j.
Proof.
  unfold BLOCK_BYTES. intros Hs Hj. split.
  - rewrite Nat2Z.inj_add, Z2Nat.id by lia. rewrite Z.div_add_l, Z.div_small by lia. lia.
  - rewrite Z2Nat.inj_mul by lia. change (Z.to_nat 200) with 200%nat.
    rewrite Nat.add_comm, Nat.Div0.mod_add. by apply Nat.mod_small.
Qed.

Lemma log_byte s j : log_ok log -> (j < 200)%nat -> is_Some (log s !! j).
Proof. intros Hl Hj. apply lookup_lt_is_Some_2. rewrite (Hl s). exact Hj. Qed.

(** Writing a part of the log's block [s] at its place keeps the file true to the log. *)
Lemma stores_pwrite f s s' n :
  log_ok log -> 0 <= s -> 0 <= s' -> stores log f s' ->
  stores log (pwrite f (Z.to_nat (s * BLOCK_BYTES)) (take n (log s))) s'.
Proof.
  intros Hlog Hs Hs' Hf j Hj. destruct (decide (take n (log s) = [])) as [->|Hd]; [by apply Hf|].
  destruct (log_byte s' j Hlog Hj) as [b Hb].
  pose proof (Hf j Hj) as Hfj. rewrite Hb in Hfj. pose proof (lookup_lt_Some _ _ _ Hfj).
  rewrite lookup_pwrite, Hb by done. destruct (decide (_ <= _ < _)%nat) as [Hin|Hout]; [|by rewrite decide_True].
  rewrite length_take, (Hlog s) in Hin. unfold BLOCK_BYTES in *. change (Z.to_nat 200) with 200%nat in Hin.
  assert (s' = s) as -> by lia. rewrite lookup_take_lt by lia. rewrite <-Hb. f_equal. lia.
Qed.

Lemma stores_written f s :
  log_ok log -> 0 <= s -> stores log (pwrite f (Z.to_nat (s * BLOCK_BYTES)) (log s)) s.
Proof.
  intros Hlog Hs j Hj. destruct (log_byte s j Hlog Hj) as [b Hb].
  assert (log s <> []) by (intros E; by rewrite E in Hb).
  rewrite lookup_pwrite by done. rewrite (Hlog s). unfold BLOCK_BYTES in *.
  change (Z.to_nat 200) with 200%nat. rewrite decide_True by lia. f_equal. lia.
Qed.

Lemma holes_pwrite f s n i b :
  log_ok log -> 0 <= s ->
  (forall i b, f !! i = Some b -> b = 0 \/ log (Z.of_nat i / BLOCK_BYTES) !! (i mod 200)%nat = Some b) ->
  pwrite f (Z.to_nat (s * BLOCK_BYTES)) (take n (log s)) !! i = Some b ->
  b = 0 \/ log (Z.of_nat i / BLOCK_BYTES) !! (i mod 200)%nat = Some b.
Proof.
  intros Hlog Hs Hf. destruct (decide (take n (log s) = [])) as [->|Hd]; [by apply Hf|].
  rewrite lookup_pwrite by done. destruct (decide (_ <= _ < _)%nat) as [Hin|Hout].
  - intros Hb. right. rewrite length_take, (Hlog s) in Hin. change (Z.to_nat BLOCK_BYTES) with 200%nat in Hin.
    destruct (block_position s (i - Z.to_nat (s * BLOCK_BYTES)) Hs ltac:(lia)) as [E1 E2].
    replace (Z.to_nat (s * BLOCK_BYTES) + (i - Z.to_nat (s * BLOCK_BYTES)))%nat with i in E1, E2 by lia.
    rewrite E1, E2. apply lookup_take_Some in Hb as [Hb _]. exact Hb.
  - destruct (decide (i < length f)%nat); [apply Hf|].
    destruct (decide _); [intros [= <-]; by left|done].
Qed.

Lemma LogInv_put w s n :
  log_ok log -> 0 <= s -> LogInv log w ->
  LogInv log (put_data w (Z.to_nat (s * BLOCK_BYTES)) (take n (log s))).
Proof.
  intros Hlog Hs Hi. unfold put_data. destruct (fp w) as [f|] eqn:Ef; [|done].
  destruct Hi as [H1 H2 H3 H4 H5 H6 H7 H8].
  split; cbn [set_fp fp highest_seen pending_acks nack_state current_file_size]; try done.
  - intros g s' [= <-] Hs' Hseen. cbn [of_data]. apply stores_pwrite; try done. by apply H2.
  - intros g i b [= <-]. cbn [of_data]. apply holes_pwrite; try done. intros. by eapply H3.
  - intros _. apply H6. by rewrite Ef.
Qed.
End invariant.

(** ** Accounting for a stored block *)

Lemma gap_lookup w now l m s :
  fold_left (add_gap w now) l m !! s
  = match m !! s with
    | Some n => Some n
    | None => if decide (s ∈ l /\ seqno_seen w s = false) then Some (Build_NackState now 0) else None
    end.
Proof.
  revert m. induction l as [|x l IH]; intros m; cbn [fold_left].
  { destruct (m !! s); [done|]. rewrite decide_False; [done|]. intros [H _]. by apply not_elem_of_nil in H. }
  rewrite IH. unfold add_gap. destruct (seqno_seen w x) eqn:Ex.
  - destruct (m !! s); [done|]. apply decide_ext. rewrite elem_of_cons. naive_solver congruence.
  - destruct (m !! x) as [n|] eqn:Em.
    + destruct (m !! s) eqn:Es; [done|]. apply decide_ext. rewrite elem_of_cons. naive_solver congruence.
    + rewrite lookup_insert. destruct (decide (x = s)) as [->|Hne].
      * rewrite Em, decide_True; [done|]. split; [by left|done].
      * destruct (m !! s); [done|]. apply decide_ext. rewrite elem_of_cons. naive_solver.
Qed.

(** The gap a block opens: from one past the highest (in 32 bits) up to it. *)
Definition in_gap w (s s' : Z) : Prop := u32 (highest_seen w + 1) <= s' < s.

Lemma account_spec w s now :
  0 <= s -> any_block_seen w = true ->
  let w' := account w s now in
  fp w' = fp w /\ current_file_size w' = current_file_size w
  /\ (forall s', 0 <= s' -> seqno_seen w' s' = bool_decide (s' = s) || seqno_seen w s')
  /\ highest_seen w' = Z.max (highest_seen w) s
  /\ pending_acks w' = pending_acks w ++ [s]
  /\ (forall s', nack_state w' !! s' =
       if decide (s' = s) then None
       else match nack_state w !! s' with
            | Some n => Some n
            | None => if decide (in_gap w s s' /\ seqno_seen w s' = false)
                      then Some (Build_NackState now 0) else None
            end).
Proof.
  intros Hs Ha. cbn zeta. unfold account.
  set (w1 := mark_seqno_seen w s).
  set (w2 := set_nacks w1 (delete s (nack_state w1))).
  assert (Hseen : forall s', 0 <= s' -> seqno_seen w2 s' = bool_decide (s' = s) || seqno_seen w s')
    by (intros; by apply seen_mark).
  assert (E2 : fp w2 = fp w /\ current_file_size w2 = current_file_size w /\ highest_seen w2 = highest_seen w
    /\ pending_acks w2 = pending_acks w /\ any_block_seen w2 = true /\ nack_state w2 = delete s (nack_state w))
    by done.
  assert (Hw2 : forall s', seqno_seen w2 s' = seqno_seen w1 s') by done.
  clearbody w2. destruct E2 as (Ef & Ec & Eh & Ep & Eab & En). rewrite Eab, Eh. cbn [andb].
  set (w3 := if (_ && _)%bool then _ else w2).
  assert (E3 : fp w3 = fp w /\ current_file_size w3 = current_file_size w /\ highest_seen w3 = highest_seen w
    /\ pending_acks w3 = pending_acks w /\ (forall s', seqno_seen w3 s' = seqno_seen w2 s')
    /\ forall s', nack_state w3 !! s' =
       if decide (s' = s) then None
       else match nack_state w !! s' with
            | Some n => Some n
            | None => if decide (in_gap w s s' /\ seqno_seen w s' = false)
                      then Some (Build_NackState now 0) else None
            end).
  { subst w3. unfold in_gap. destruct (Z.ltb_spec (u32 (highest_seen w + 1)) s) as [Hgt|Hle].
    - replace (negb _) with true.
      2: { pose proof (wrap_range 32 (highest_seen w + 1) ltac:(lia)).
           by rewrite (proj2 (Z.eqb_neq s 0)), andb_false_r by lia. }
      cbn [andb]. split_and!; try done. intros s'. cbn [queue_gap_nacks nack_state set_nacks].
      rewrite gap_lookup, En, lookup_delete. destruct (decide (s = s')) as [<-|Hne].
      + rewrite decide_False; [by rewrite decide_True|]. rewrite Hseen, bool_decide_eq_true_2 by done. naive_solver.
      + rewrite (decide_False (P := s' = s)) by congruence. destruct (nack_state w !! s'); [done|].
        apply decide_ext. rewrite elem_of_seqZ. pose proof (wrap_range 32 (highest_seen w + 1) ltac:(lia)).
        split; (intros [? Hn]; split; [lia|]);
          rewrite Hseen, bool_decide_eq_false_2 in * by (lia || congruence); done.
    - cbn [andb]. split_and!; try done. intros s'. rewrite En, lookup_delete.
      destruct (decide (s = s')) as [<-|Hne]; [by rewrite decide_True|].
      rewrite (decide_False (P := s' = s)) by congruence. destruct (nack_state w !! s'); [done|].
      rewrite decide_False; [done|]. lia. }
  clearbody w3. destruct E3 as (Ef3 & Ec3 & Eh3 & Ep3 & Es3 & En3).
  rewrite Eh3. destruct (Z.leb_spec (highest_seen w) s);
    cbn [push_ack set_highest fp current_file_size highest_seen pending_acks nack_state];
    rewrite ?Ef3, ?Ec3, ?Eh3, ?Ep3; (split_and!; [done|done| |lia|done|exact En3]);
    intros s' Hs'; rewrite <-Hseen, <-Es3 by done; done.
Qed.

Section invariant2.
Variable log : Z -> bytes.

Lemma LogInv_account w w1 f s now :
  LogInv log w -> is_u32 s -> any_block_seen w1 = true ->
  fp w1 = fp w -> seen_bitmap w1 = seen_bitmap w -> highest_seen w1 = highest_seen w ->
  pending_acks w1 = pending_acks w -> nack_state w1 = nack_state w ->
  current_file_size w1 = prospective_size w s ->
  fp w = Some f -> stores log (of_data f) s -> LogInv log (account w1 s now).
Proof.
  intros Hi Hs Ha Ef Eb Eh Ep En Ec Hf Hst. unfold is_u32 in Hs.
  destruct (account_spec w1 s now ltac:(lia) Ha) as (A1 & A2 & A3 & A4 & A5 & A6).
  set (w' := account w1 s now) in *. clearbody w'.
  assert (Es : forall s', seqno_seen w1 s' = seqno_seen w s') by (intros; unfold seqno_seen; by rewrite Eb).
  destruct Hi as [H1 H2 H3 H4 H5 H6 H7 H8]. unfold is_u32 in H4.
  rewrite Ef, Hf in A1. rewrite Ec in A2. rewrite Eh in A4. rewrite Ep in A5.
  split; rewrite ?A1, ?A2, ?A4, ?A5.
  - done.
  - intros g s' [= <-] Hs' Hseen. rewrite A3, Es in Hseen by done.
    apply orb_true_iff in Hseen as [->%bool_decide_eq_true|Hseen]; [done|]. by apply (H2 f).
  - intros g i b [= <-]. by apply H3.
  - unfold is_u32. lia.
  - intros s' Hs' Hseen. rewrite A3, Es in Hseen by done.
    apply orb_true_iff in Hseen as [->%bool_decide_eq_true|Hseen]; [lia|]. specialize (H5 s' Hs' Hseen). lia.
  - intros _. right. unfold prospective_size, BLOCK_BYTES in *. split.
    + destruct (H6 ltac:(by rewrite Hf)) as [(-> & -> & _)|[-> _]]; lia.
    + rewrite A3, Es by lia. destruct (Z.max_spec (highest_seen w) s) as [[? ->]|[? ->]];
        [by rewrite bool_decide_eq_true_2|].
      destruct (H6 ltac:(by rewrite Hf)) as [(_ & E0 & _)|[_ ->]]; [|by rewrite orb_true_r].
      rewrite bool_decide_eq_true_2 by lia. done.
  - intros s' [Hin|Hin%list_elem_of_singleton]%elem_of_app.
    + destruct (H7 s' Hin) as [Hu Hseen]. unfold is_u32 in Hu. split; [done|].
      by rewrite A3, Es, Hseen, orb_true_r by lia.
    + subst s'. split; [done|]. by rewrite A3, bool_decide_eq_true_2 by lia.
  - intros s' Hn. rewrite A6, En in Hn. destruct (decide (s' = s)) as [->|Hne]; [by destruct Hn|].
    assert (Hr : 0 <= s' < Z.max (highest_seen w) s /\ seqno_seen w s' = false).
    { destruct (nack_state w !! s') eqn:Em.
      - destruct (H8 s' ltac:(by rewrite Em)) as [? ?]. split; [lia|done].
      - destruct (decide _) as [[Hg Hse]|]; [|by destruct Hn]. rewrite Es in Hse.
        unfold in_gap in Hg. pose proof (wrap_range 32 (highest_seen w1 + 1) ltac:(lia)). split; [lia|done]. }
    destruct Hr as [Hr Hse]. split; [lia|]. by rewrite A3, Es, bool_decide_eq_false_2 by lia.
Qed.
End invariant2.

(** ** Every call keeps the meaning *)

Section steps.
Variable gmtime_r localtime_r : Z -> option tm.
Variable quota_env grace_env : option bytes.
Abbreviation rotate := (rotate_for_reboot gmtime_r localtime_r).
Abbreviation block := (handle_block gmtime_r localtime_r quota_env grace_env).
Abbreviation watch := (observe gmtime_r localtime_r).
Abbreviation put := (store quota_env grace_env).

Lemma rotate_closed log w e t : LogInv log (rotate w e t) /\ fp (rotate w e t) = None.
Proof.
  unfold rotate_for_reboot. destruct (session_time_strings _ _ _ _ _ _ _) as [dd name].
  split; [|done]. by apply LogInv_closed.
Qed.

Lemma relieve_core w e t : core (relieve quota_env grace_env w e t).1 = core w.
Proof. unfold relieve. destruct (_ <? _); [|done]. by destruct (_ <=? _). Qed.

Lemma store_inv log w e t sysid compid s f :
  log_ok log -> is_u32 s -> fp w = Some f -> LogInv log w ->
  LogInv log (put w e t sysid compid s (log s)).1.
Proof.
  intros Hlog Hs Hf Hi. unfold is_u32 in Hs. unfold store. destruct (_ <? _); [done|].
  pose proof (relieve_core w e t) as Hc. destruct (relieve _ _ w e t) as [w1 t1]. cbn [fst] in Hc.
  assert (Hi1 : LogInv log w1) by (by apply (LogInv_core log w)).
  destruct (_ <? _); [done|].
  assert (Hl : core (latch_first w1 sysid compid) = core w1 /\ any_block_seen (latch_first w1 sysid compid) = true)
    by (unfold latch_first; by destruct (any_block_seen w1) eqn:E).
  destruct Hl as [Hl Ha]. set (w2 := latch_first w1 sysid compid) in *. clearbody w2.
  assert (Hi2 : LogInv log w2) by (by apply (LogInv_core log w1)).
  destruct (ce_seek_ok e); cbn [negb]; [|done].
  pose proof (LogInv_put log w2 s (ce_wrote e) Hlog ltac:(lia) Hi2) as Hi3.
  destruct (Nat.eqb_spec (ce_wrote e) (Z.to_nat BLOCK_BYTES)) as [Hw|]; cbn [negb fst]; [|done].
  rewrite take_ge in * by (rewrite Hlog; lia).
  unfold core in Hl, Hc. injection Hl as E1 E2 E3 E4 E5 E6. injection Hc as C1 C2 C3 C4 C5 C6.
  assert (Ef2 : fp w2 = Some f) by congruence. unfold put_data in *. rewrite Ef2 in *.
  set (w3 := set_fp w2 _) in *.
  assert (Hcw : forall t1, let w4 := count_write w3 (prospective_size w s) t1 in
    fp w4 = fp w3 /\ seen_bitmap w4 = seen_bitmap w3 /\ highest_seen w4 = highest_seen w3
    /\ pending_acks w4 = pending_acks w3 /\ nack_state w4 = nack_state w3 /\ any_block_seen w4 = true
    /\ current_file_size w4 = prospective_size w3 s).
  { intros. unfold w4, count_write. destruct (_ <=? _); (split_and!; try done);
      unfold prospective_size; cbn; congruence. }
  destruct (Hcw t1) as (D1 & D2 & D3 & D4 & D5 & D6 & D7).
  eapply (LogInv_account log w3); try done. apply stores_written; [done|lia].
Qed.

Lemma pass_gate_inv log w e t port2 sysid compid s :
  LogInv log w -> LogInv log (pass_gate w e t port2 sysid compid s).1
  /\ ((pass_gate w e t port2 sysid compid s).2 = true -> is_Some (fp (pass_gate w e t port2 sysid compid s).1)).
Proof.
  intros Hi. unfold pass_gate. destruct (fp w) as [f|] eqn:Ef; [cbn [fst snd]; by rewrite Ef|].
  destruct (s =? 0); cbn [negb fst snd].
  - unfold binlog_open. rewrite Ef. destruct (ce_opens e) as [ino|]; [|done]. cbn [fst snd]. split; [|done].
    by apply (LogInv_core log (opened w ino port2)), LogInv_opened.
  - split; [|done]. apply (LogInv_core log w); [|done]. unfold gated.
    destruct (target_system w =? 0); by destruct (_ <? _).
Qed.

Lemma block_inv log log' w e t port2 sysid compid s :
  log_ok log' -> is_u32 s -> LogInv log w -> log' = log \/ restarts w s = true ->
  LogInv log' (block w e t port2 sysid compid s (log' s)).1.
Proof.
  intros Hlog Hs Hi Hl. unfold handle_block.
  assert (Hi' : LogInv log' (if restarts w s then rotate w e t else w)).
  { destruct (restarts w s); [apply rotate_closed|]. by destruct Hl as [->|]. }
  set (w0 := if restarts w s then _ else w) in *. clearbody w0.
  destruct (pass_gate_inv log' w0 e t port2 sysid compid s Hi') as [Hg Hfp].
  destruct (pass_gate w0 e t port2 sysid compid s) as [w1 ok]. cbn [fst snd] in *.
  destruct ok; [|done]. destruct (Hfp eq_refl) as [f Hf]. by apply (store_inv log' w1 e t sysid compid s f).
Qed.

Lemma observe_inv log w e t st ap sysid : LogInv log w -> LogInv log (watch w e t st ap sysid).
Proof.
  intros Hi. unfold observe. destruct st as [ms|]; [|done]. destruct (negb ap); [done|].
  destruct (_ && _)%bool; [done|].
  apply (LogInv_core log (if negb (last_system_time_boot_ms w =? 0)
      && (u32 (ms + REBOOT_TIME_BACKWARD_MS) <=? last_system_time_boot_ms w)
      && match fp w with Some _ => true | None => false end then rotate w e t else w)); [done|].
  destruct (_ && _)%bool; [apply rotate_closed|done].
Qed.

Lemma tick_stop_core w now o : core (tick_stop w now o).1 = core w /\ any_block_seen (tick_stop w now o).1 = any_block_seen w.
Proof. unfold tick_stop. destruct (_ && _)%bool; [|done]. by destruct (post w o SendStop) as [[] ?]. Qed.

Lemma tick_start_core w now every o :
  core (tick_start w now every o).1 = core w /\ any_block_seen (tick_start w now every o).1 = any_block_seen w.
Proof. unfold tick_start. destruct (_ <=? _); [|done]. by destruct (post w o SendStart) as [[] ?]. Qed.

(** The pump drops queue entries and re-stamps missing blocks, no more. *)
Lemma LogInv_queues log w w' :
  LogInv log w -> fp w' = fp w -> seen_bitmap w' = seen_bitmap w -> highest_seen w' = highest_seen w ->
  current_file_size w' = current_file_size w -> is_Some (fp w) ->
  (forall s, s ∈ pending_acks w' -> s ∈ pending_acks w) ->
  (forall s, is_Some (nack_state w' !! s) -> is_Some (nack_state w !! s)) -> LogInv log w'.
Proof.
  intros [H1 H2 H3 H4 H5 H6 H7 H8] E1 E2 E3 E4 [f Hf] Ha Hn.
  assert (Es : forall s, seqno_seen w' s = seqno_seen w s) by (intros; unfold seqno_seen; by rewrite E2).
  split; rewrite ?E1, ?E2, ?E3, ?E4, ?Hf; repeat setoid_rewrite Es; try done.
  - intros g s [= <-]. by apply H2.
  - intros g i b [= <-]. by apply H3.
  - intros _. apply H6. by rewrite Hf.
  - intros s Hs. by apply H7, Ha.
  - intros s Hs. by apply H8, Hn.
Qed.

Lemma nack_loop_keeps w now b o l :
  (forall s n, (s, n) ∈ l -> is_Some (nack_state w !! s)) ->
  let w' := (nack_loop w now b o l).1 in
  fp w' = fp w /\ seen_bitmap w' = seen_bitmap w /\ highest_seen w' = highest_seen w
  /\ current_file_size w' = current_file_size w /\ pending_acks w' = pending_acks w
  /\ forall s, is_Some (nack_state w' !! s) <-> is_Some (nack_state w !! s).
Proof.
  revert w b o. induction l as [|[s n] l IH]; intros w b o Hl; [by destruct b|].
  assert (Hl' : forall s n, (s, n) ∈ l -> is_Some (nack_state w !! s)) by (intros; eapply Hl; by right).
  cbn [nack_loop]. destruct b as [|b]; [done|]. destruct (throttled now n); [by apply IH|].
  destruct (send_status w o (SendNack s)) as [[] o']; [|by apply IH].
  set (w1 := set_nacks w _).
  assert (Hk : forall k, is_Some (nack_state w1 !! k) <-> is_Some (nack_state w !! k)).
  { intros k. cbn [w1 set_nacks nack_state]. rewrite lookup_insert. destruct (decide (s = k)) as [<-|]; [|done].
    split; [|done]. intros _. eapply Hl. by left. }
  destruct (IH w1 b o') as (? & ? & ? & ? & ? & Hs); [intros; by eapply Hk, Hl'|].
  split_and!; try done. intros k. by rewrite Hs, Hk.
Qed.
End steps.

(** ** What the pump sends *)

Definition all_succeed (o : outbox) (n : nat) : Prop :=
  Forall (fun r => r = true) (ob_results o) /\ (n <= length (ob_results o))%nat.

Lemma post_sent w o k :
  ob_sent (post w o k).2 = ob_sent o ++ [Build_status_msg (target_system w) (target_component w) k].
Proof. unfold post. by destruct (ob_results o). Qed.

Lemma post_ok w o k n : all_succeed o (S n) -> (post w o k).1 = true /\ all_succeed (post w o k).2 n.
Proof.
  intros [Ht Hl]. unfold post. destruct (ob_results o) as [|r rs] eqn:E; [cbn in Hl; lia|].
  apply Forall_cons_iff in Ht as [-> Ht]. split; [done|]. split; [done|]. cbn in *. lia.
Qed.

Lemma drain_acks_sent w o l :
  any_block_seen w = true ->
  let o' := fold_left (fun o s => (send_status w o (SendAck s)).2) l o in
  ob_sent o' = ob_sent o ++ map (fun s => Build_status_msg (target_system w) (target_component w) (SendAck s)) l
  /\ forall n, all_succeed o (length l + n) -> all_succeed o' n.
Proof.
  intros Ha. revert o. induction l as [|s l IH]; intros o; cbn [fold_left map length].
  { by rewrite app_nil_r. }
  unfold send_status at 2 4. rewrite Ha. destruct (IH (post w o (SendAck s)).2) as [IH1 IH2].
  split; [by rewrite IH1, post_sent, <-app_assoc|]. intros n Hn. by apply IH2, (post_ok w o (SendAck s)).
Qed.

(** The NACKs of one walk over the missing blocks. *)
Lemma nack_loop_sent w now b o l :
  any_block_seen w = true ->
  exists nm, ob_sent (nack_loop w now b o l).2 = ob_sent o ++ nm
  /\ (forall m, m ∈ nm -> exists s n, (s, n) ∈ l /\ throttled now n = false /\ st_kind m = SendNack s)
  /\ (all_succeed o b -> (length nm <= b)%nat
      /\ ((length nm < b)%nat -> forall s n, (s, n) ∈ l -> throttled now n = false ->
          exists m, m ∈ nm /\ st_kind m = SendNack s)).
Proof.
  revert w b o. induction l as [|[s n] l IH]; intros w b o Ha.
  { exists []. destruct b; cbn; rewrite app_nil_r; (split_and!; [done|set_solver|]); intros _;
      (split; [lia|]); intros _ s n Hin; by apply not_elem_of_nil in Hin. }
  destruct b as [|b]; cbn [nack_loop].
  { exists []. rewrite app_nil_r. split_and!; [done|set_solver|]. intros _. split; [done|]. cbn. lia. }
  destruct (throttled now n) eqn:Et.
  { destruct (IH w (S b) o Ha) as (nm & H1 & H2 & H3). exists nm. split_and!; [done| |].
    - intros m Hm. destruct (H2 m Hm) as (s' & n' & ? & ? & ?). exists s', n'. split_and!; [by right|done..].
    - intros Hs. destruct (H3 Hs) as [H4 H5]. split; [done|]. intros Hl s' n' Hin Ht; apply elem_of_cons in Hin as [[= -> ->]|Hin];
        [congruence|by eapply H5]. }
  unfold send_status. rewrite Ha. pose proof (post_sent w o (SendNack s)) as Hps.
  pose proof (post_ok w o (SendNack s) b) as Hpo.
  destruct (post w o (SendNack s)) as [ok o1]. cbn [fst snd] in *.
  set (m0 := Build_status_msg _ _ _) in Hps.
  assert (Hgen : forall w1 b1, any_block_seen w1 = true -> (all_succeed o (S b) -> ok = true -> b1 = b) ->
    (ok = false \/ b1 = b) ->
    exists nm, ob_sent (nack_loop w1 now b1 o1 l).2 = ob_sent o ++ nm
    /\ (forall m, m ∈ nm -> exists s' n', (s', n') ∈ (s, n) :: l /\ throttled now n' = false /\ st_kind m = SendNack s')
    /\ (all_succeed o (S b) -> (length nm <= S b)%nat
      /\ ((length nm < S b)%nat -> forall s' n', (s', n') ∈ (s, n) :: l -> throttled now n' = false ->
          exists m, m ∈ nm /\ st_kind m = SendNack s'))).
  { intros w1 b1 Ha1 _ Hb. destruct (IH w1 b1 o1 Ha1) as (nm & H1 & H2 & H3).
    exists (m0 :: nm). split_and!.
    - by rewrite H1, Hps, <-app_assoc.
    - intros m [->|Hm]%elem_of_cons; [exists s, n; split_and!; [by left|done..]|].
      destruct (H2 m Hm) as (s' & n' & ? & ? & ?). exists s', n'. split_and!; [by right|done..].
    - intros Hs. destruct (Hpo Hs) as [-> Hs1]. destruct Hb as [| ->]; [done|].
      destruct (H3 Hs1) as [H4 H5]. cbn [length]. split; [lia|]. intros Hl s' n' Hin Ht.
      apply elem_of_cons in Hin as [[= -> ->]|Hin]; [exists m0; split; [by left|done]|].
      destruct (H5 ltac:(lia) s' n' Hin Ht) as (m & ? & ?). exists m. split; [by right|done]. }
  destruct ok; [by apply (Hgen _ b); [|done|right]|by apply (Hgen _ (S b)); [|done|left]].
Qed.

Definition is_nack (m : status_msg) : bool := match st_kind m with SendNack _ => true | _ => false end.

Section pump.
Variable nack_order : gmap Z NackState -> list (Z * NackState).
Hypothesis nack_order_ok : forall m, nack_order m ≡ₚ map_to_list m.

Lemma elem_of_order m s n : (s, n) ∈ nack_order m <-> m !! s = Some n.
Proof. rewrite nack_order_ok. apply elem_of_map_to_list. Qed.

Lemma tick_inv log w now o : LogInv log w -> LogInv log (tick nack_order w now o).1.
Proof.
  intros Hi. unfold tick. destruct (tick_stop_core w now o) as [C1 A1].
  destruct (tick_stop w now o) as [w1 o1]. cbn [fst] in *.
  assert (Hi1 : LogInv log w1) by (by apply (LogInv_core log w)).
  destruct (negb (any_block_seen w1)).
  { apply (LogInv_core log w1); [apply tick_start_core|done]. }
  destruct (tick_start_core w1 now START_KEEPALIVE o1) as [C2 A2].
  destruct (tick_start w1 now START_KEEPALIVE o1) as [w2 o2]. cbn [fst] in *.
  assert (Hi2 : LogInv log w2) by (by apply (LogInv_core log w1)).
  destruct (fp w2) as [f|] eqn:Ef; [|done]. unfold drain_acks.
  set (w3 := drop_stale_nack_state (set_acks w2 []) now).
  destruct (nack_loop_keeps w3 now MAX_NACKS_PER_TICK
    (fold_left (fun o s => (send_status w2 o (SendAck s)).2) (pending_acks w2) o2) (nack_order (nack_state w3)))
    as (K1 & K2 & K3 & K4 & K5 & K6); [intros s n Hin%elem_of_order; by rewrite Hin|].
  apply (LogInv_queues log w2); [done|by rewrite K1|by rewrite K2|by rewrite K3|by rewrite K4|by rewrite Ef| |].
  - intros s. rewrite K5. cbn. intros Hs. by apply not_elem_of_nil in Hs.
  - intros s Hs%K6. cbn [w3 drop_stale_nack_state set_nacks nack_state set_acks] in Hs.
    destruct Hs as [n Hn]. apply map_lookup_filter_Some in Hn as [Hn _]. by exists n.
Qed.
End pump.

(** ** Properties *)

Lemma tick_stop_sent w now o :
  exists pre, ob_sent (tick_stop w now o).2 = ob_sent o ++ pre
  /\ (forall m, m ∈ pre -> st_kind m = SendStop)
  /\ (is_Some (fp w) -> (tick_stop w now o).2 = o).
Proof.
  unfold tick_stop. destruct (_ && _)%bool eqn:E.
  - pose proof (post_sent w o SendStop) as Hp. destruct (post w o SendStop) as [ok o1]. cbn [fst snd] in *.
    rewrite Hp. eexists. split_and!; [done|by intros m ->%list_elem_of_singleton|].
    intros [f Hf]. by rewrite Hf in E.
  - exists []. rewrite app_nil_r. split_and!; [done|set_solver|done].
Qed.

Lemma tick_start_sent w now every o :
  exists pre, ob_sent (tick_start w now every o).2 = ob_sent o ++ pre
  /\ (forall m, m ∈ pre -> st_kind m = SendStart)
  /\ (forall n, all_succeed o (S n) -> all_succeed (tick_start w now every o).2 n).
Proof.
  unfold tick_start. destruct (every <=? _).
  - pose proof (post_sent w o SendStart) as Hp. pose proof (post_ok w o SendStart) as Hk.
    destruct (post w o SendStart) as [ok o1]. cbn [fst snd] in *. rewrite Hp. eexists.
    split_and!; [done|by intros m ->%list_elem_of_singleton|]. intros n Hn. by apply Hk.
  - exists []. rewrite app_nil_r. split_and!; [done|set_solver|]. intros n [? ?]. split; [done|]. cbn. lia.
Qed.

(** Acknowledgements and NACKs, with the file open. *)
Lemma pump_sent nack_order w now o :
  (forall m, nack_order m ≡ₚ map_to_list m) -> any_block_seen w = true ->
  let '(w1, o1) := drain_acks w o in
  let w2 := drop_stale_nack_state w1 now in
  let o2 := (nack_loop w2 now MAX_NACKS_PER_TICK o1 (nack_order (nack_state w2))).2 in
  let due s n := nack_state w !! s = Some n /\ stale w now s n = false /\ throttled now n = false in
  exists nm, ob_sent o2 = ob_sent o
    ++ ((fun s => Build_status_msg (target_system w) (target_component w) (SendAck s)) <$> pending_acks w) ++ nm
  /\ (forall m, m ∈ nm -> exists s n, due s n /\ st_kind m = SendNack s)
  /\ (all_succeed o (length (pending_acks w) + 10) -> (length nm <= 10)%nat
      /\ ((length nm < 10)%nat -> forall s n, due s n -> exists m, m ∈ nm /\ st_kind m = SendNack s)).
Proof.
  intros Hord Ha. unfold drain_acks.
  destruct (drain_acks_sent w o (pending_acks w) Ha) as [Hd1 Hd2].
  set (o1 := fold_left _ (pending_acks w) o) in *. set (w2 := drop_stale_nack_state _ now).
  assert (Hin : forall s n, (s, n) ∈ nack_order (nack_state w2)
    <-> nack_state w !! s = Some n /\ stale w now s n = false).
  { intros s n. rewrite (elem_of_order _ Hord). cbn [w2 drop_stale_nack_state set_nacks nack_state].
    rewrite map_lookup_filter_Some. done. }
  destruct (nack_loop_sent w2 now MAX_NACKS_PER_TICK o1 (nack_order (nack_state w2)) Ha) as (nm & H1 & H2 & H3).
  exists nm. split_and!.
  - by rewrite H1, Hd1, <-app_assoc.
  - intros m Hm. destruct (H2 m Hm) as (s & n & Hi%Hin & Ht & Hk). exists s, n. naive_solver.
  - intros Hs%Hd2. destruct (H3 Hs) as [H4 H5]. split; [done|]. intros Hl s n (Hn & Hst & Ht).
    apply (H5 Hl s n); [by apply Hin|done].
Qed.

Lemma filter_none {A} (P : A -> bool) (l : list A) :
  (forall x, x ∈ l -> P x = false) -> filter (fun x => P x = true) l = [].
Proof.
  induction l as [|x l IH]; intros Hx; [done|].
  rewrite filter_cons_False by (rewrite Hx; [done|by left]). apply IH. intros. apply Hx. by right.
Qed.

(** Everything a tick sends: magic packets, then acknowledgements, then NACKs. *)
Lemma tick_sent nack_order (Hord : forall m, nack_order m ≡ₚ map_to_list m) w now o :
  let '(w', o') := tick nack_order w now o in
  let due s n := nack_state w !! s = Some n /\ stale w now s n = false /\ throttled now n = false in
  exists magic ackm nm, ob_sent o' = ob_sent o ++ magic ++ ackm ++ nm
  /\ (forall m, m ∈ magic -> st_kind m = SendStop \/ st_kind m = SendStart)
  /\ (forall m, m ∈ ackm -> exists s, st_kind m = SendAck s /\ s ∈ pending_acks w /\ is_Some (fp w))
  /\ (forall m, m ∈ nm -> exists s n, due s n /\ st_kind m = SendNack s)
  /\ (is_Some (fp w) -> any_block_seen w = true ->
      pending_acks w' = []
      /\ (forall s, s ∈ pending_acks w -> exists m, m ∈ ackm /\ st_kind m = SendAck s)
      /\ (all_succeed o (11 + length (pending_acks w)) -> (length nm <= 10)%nat
          /\ ((length nm < 10)%nat -> forall s n, due s n -> exists m, m ∈ nm /\ st_kind m = SendNack s))).
Proof.
  unfold tick. destruct (tick_stop_sent w now o) as (p1 & P1 & P2 & P3).
  destruct (tick_stop_core w now o) as [C1 A1]. destruct (tick_stop w now o) as [w1 o1].
  cbn [fst snd] in *. unfold core in C1. injection C1 as Ef Eb Eh Ep En Es.
  assert (Hmagic : forall every, let o2 := (tick_start w1 now every o1).2 in
    exists magic, ob_sent o2 = ob_sent o ++ magic
    /\ (forall m, m ∈ magic -> st_kind m = SendStop \/ st_kind m = SendStart)
    /\ (forall n, is_Some (fp w) -> all_succeed o (S n) -> all_succeed o2 n)).
  { intros every. destruct (tick_start_sent w1 now every o1) as (p2 & Q1 & Q2 & Q3).
    exists (p1 ++ p2). cbn zeta. rewrite Q1, P1, <-app_assoc. split_and!; [done| |].
    - intros m [?%P2|?%Q2]%elem_of_app; auto.
    - intros n Hf Hs. apply Q3. by rewrite (P3 Hf). }
  destruct (negb (any_block_seen w1)) eqn:Hany.
  { destruct (Hmagic START_REPEAT) as (mg & M1 & M2 & _).
    destruct (tick_start w1 now START_REPEAT o1) as [w2 o2]. cbn [snd] in *.
    exists mg, [], []. rewrite !app_nil_r. split_and!; [done..|set_solver|set_solver|].
    intros _ Ha. by rewrite A1, Ha in Hany. }
  destruct (Hmagic START_KEEPALIVE) as (mg & M1 & M2 & M3).
  destruct (tick_start_core w1 now START_KEEPALIVE o1) as [C2 A2].
  destruct (tick_start w1 now START_KEEPALIVE o1) as [w2 o2]. cbn [fst snd] in *.
  unfold core in C2. injection C2 as Ef2 Eb2 Eh2 Ep2 En2 Es2.
  destruct (fp w2) as [f|] eqn:Hfp.
  2: { exists mg, [], []. rewrite !app_nil_r. split_and!; [done..|set_solver|set_solver|].
       intros [g Hg] _. congruence. }
  assert (Hf : is_Some (fp w)) by (exists f; congruence).
  pose proof (pump_sent nack_order w2 now o2 Hord ltac:(rewrite A2; by apply negb_false_iff in Hany)) as Hp.
  cbv zeta in Hp.
  assert (Hdrain : pending_acks (drain_acks w2 o2).1 = []) by done.
  destruct (drain_acks w2 o2) as [w3 o3]. set (w4 := drop_stale_nack_state w3 now) in *.
  destruct (nack_loop_keeps w4 now MAX_NACKS_PER_TICK o3 (nack_order (nack_state w4)))
    as (_ & _ & _ & _ & K5 & _).
  { intros s n Hin%(elem_of_order _ Hord). by rewrite Hin. }
  destruct (nack_loop w4 now MAX_NACKS_PER_TICK o3 (nack_order (nack_state w4))) as [w5 o5].
  cbn [fst snd] in *. destruct Hp as (nm & N1 & N2 & N3).
  assert (Hst : forall s n, stale w2 now s n = stale w now s n).
  { intros. unfold stale, seqno_seen. by rewrite Eb2, Eb, Eh2, Eh. }
  rewrite En2, En in *. setoid_rewrite Hst in N2. setoid_rewrite Hst in N3. rewrite Ep2, Ep in *.
  exists mg, ((fun s => Build_status_msg (target_system w2) (target_component w2) (SendAck s)) <$> pending_acks w), nm.
  split_and!; [by rewrite N1, M1, <-!app_assoc|done| |done|].
  - intros m (s & -> & Hs)%list_elem_of_fmap. exists s. done.
  - intros _ _. split_and!; [by rewrite K5| |].
    + intros s Hs. eexists. split; [by apply list_elem_of_fmap_2|done].
    + intros Hall. apply N3, M3; [done|]. by rewrite (Nat.add_comm _ 10).
Qed.

Section props.
Variable gmtime_r localtime_r : Z -> option tm.
Variable quota_env grace_env : option bytes.
Variable nack_order : gmap Z NackState -> list (Z * NackState).
Hypothesis nack_order_ok : forall m, nack_order m ≡ₚ map_to_list m.

(** The states a writer can reach while the vehicle sends its log [log]: any environment,
    any blocks of it in any order, with the pump and the reboot watch in between.  A new
    log may start while no file is open, and with the block 0 the code takes for a
    restart. *)
Inductive reach : (Z -> bytes) -> BinlogWriter -> Prop :=
| reach_new log datedir name use_offset tz sysid :
    log_ok log -> reach log (binlog_new datedir name use_offset tz sysid)
| reach_block log w e t port2 sysid compid s :
    reach log w -> is_u32 s ->
    reach log (handle_block gmtime_r localtime_r quota_env grace_env w e t port2 sysid compid s (log s)).1
| reach_restart log log' w e t port2 sysid compid :
    reach log w -> log_ok log' -> restarts w 0 = true ->
    reach log' (handle_block gmtime_r localtime_r quota_env grace_env w e t port2 sysid compid 0 (log' 0)).1
| reach_boot log log' w : reach log w -> log_ok log' -> fp w = None -> reach log' w
| reach_observe log w e t st ap sysid :
    reach log w -> reach log (observe gmtime_r localtime_r w e t st ap sysid)
| reach_tick log w now o : reach log w -> reach log (tick nack_order w now o).1.

Lemma reach_inv log w : reach log w -> log_ok log /\ LogInv log w.
Proof.
  induction 1 as [log dd n uo tz sy Hl|log w e t p a c s _ [Hl Hi] Hs|log log' w e t p a c _ [_ Hi] Hl Hr
    |log log' w _ [_ Hi] Hl Hf|log w e t st ap sy _ [Hl Hi]|log w now o _ [Hl Hi]]; (split; [done|]).
  - by apply LogInv_closed.
  - apply (block_inv gmtime_r localtime_r quota_env grace_env log); auto.
  - apply (block_inv gmtime_r localtime_r quota_env grace_env log); auto. done.
  - destruct (li_closed _ _ Hi Hf) as (? & ? & ? & ?). by apply LogInv_closed.
  - by apply observe_inv.
  - by apply tick_inv.
Qed.

Lemma stores_slice log f s : log_ok log -> 0 <= s -> stores log f s -> slice f (s * BLOCK_BYTES) BLOCK_BYTES = log s.
Proof.
  intros Hl Hs Hf. unfold slice. apply list_eq. intros j.
  rewrite lookup_take. case_decide as Hj.
  - rewrite lookup_drop. apply Hf. unfold BLOCK_BYTES in Hj. lia.
  - symmetry. apply lookup_ge_None_2. rewrite (Hl s). lia.
Qed.

Lemma concat_blocks log f n :
  log_ok log -> (forall s, 0 <= s < Z.of_nat n -> stores log f s) ->
  take (n * 200) f = concat (map log (seqZ 0 (Z.of_nat n))).
Proof.
  intros Hl Hs. induction n as [|n IH]; [done|].
  rewrite seqZ_S, Z.add_0_l, map_app, concat_app.
  rewrite <-IH by (intros; apply Hs; lia). cbn [map concat]. rewrite app_nil_r.
  rewrite <-(stores_slice log f (Z.of_nat n)) by (done || lia || (apply Hs; lia)).
  unfold slice, BLOCK_BYTES. replace (Z.to_nat (Z.of_nat n * 200)) with (n * 200)%nat by lia.
  change (Z.to_nat 200) with 200%nat. rewrite take_take_drop. f_equal. lia.
Qed.

(** C28: The file is the vehicle's log.  In every reachable state with a file open: a block
    marked stored is in the file at its place, byte for byte, and so is every block whose
    acknowledgement is waiting to be sent; everything else in the file is the log's bytes
    or a hole's zeros; no block waiting for a NACK is there; and once nothing up to the
    highest block is missing, the file starts with exactly the log up to that block. *)
Theorem binlog_faithful log w f :
  reach log w -> fp w = Some f ->
  (forall s, 0 <= s -> seqno_seen w s = true -> slice (of_data f) (s * BLOCK_BYTES) BLOCK_BYTES = log s)
  /\ (forall s, s ∈ pending_acks w -> seqno_seen w s = true)
  /\ (forall i b, of_data f !! i = Some b ->
        b = 0 \/ log (Z.of_nat i / BLOCK_BYTES) !! (i mod 200)%nat = Some b)
  /\ (forall s, is_Some (nack_state w !! s) -> seqno_seen w s = false)
  /\ ((forall s, 0 <= s <= highest_seen w -> seqno_seen w s = true) ->
      ztake ((highest_seen w + 1) * BLOCK_BYTES) (of_data f)
      = concat (map log (seqZ 0 (highest_seen w + 1)))).
Proof.
  intros [Hl Hi]%reach_inv Hf.
  assert (Hst : forall s, 0 <= s -> seqno_seen w s = true -> stores log (of_data f) s)
    by (intros; by apply (li_stores _ _ Hi)).
  split_and!.
  - intros s Hs Hseen. apply stores_slice; auto.
  - intros s Hs. by apply (li_acks _ _ Hi).
  - intros i b. by apply (li_holes _ _ Hi).
  - intros s Hs. by apply (li_nacks _ _ Hi).
  - intros Hall. pose proof (li_highest _ _ Hi) as Hu. unfold is_u32 in Hu.
    pose proof (concat_blocks log (of_data f) (Z.to_nat (highest_seen w + 1)) Hl) as Hc.
    rewrite Z2Nat.id in Hc by lia. rewrite <-Hc by (intros; apply Hst; [|apply Hall]; lia).
    unfold ztake, BLOCK_BYTES. f_equal. lia.
Qed.

(** What a tick sends.  An acknowledgement is only ever for a block that is in the
    file; a NACK only for one that is not, that was noticed at most a minute ago, is within
    200 blocks of the highest and was not asked for in the last tenth of a second.  While
    a file is open every waiting acknowledgement goes out; and if the sends succeed at
    most ten NACKs do, and when fewer do, none that is due was left out. *)
Theorem tick_answers log w now o :
  reach log w ->
  let '(w', o') := tick nack_order w now o in
  let due s n := nack_state w !! s = Some n /\ stale w now s n = false /\ throttled now n = false in
  exists new, ob_sent o' = ob_sent o ++ new
  /\ (forall m s, m ∈ new -> st_kind m = SendAck s ->
        exists f, fp w = Some f /\ slice (of_data f) (s * BLOCK_BYTES) BLOCK_BYTES = log s)
  /\ (forall m s, m ∈ new -> st_kind m = SendNack s -> seqno_seen w s = false /\ exists n, due s n)
  /\ (is_Some (fp w) -> any_block_seen w = true ->
        pending_acks w' = []
        /\ (forall s, s ∈ pending_acks w -> exists m, m ∈ new /\ st_kind m = SendAck s)
        /\ (all_succeed o (11 + length (pending_acks w)) ->
            let nacks := length (filter (fun m => is_nack m = true) new) in
            (nacks <= 10)%nat
            /\ ((nacks < 10)%nat -> forall s n, due s n -> exists m, m ∈ new /\ st_kind m = SendNack s))).
Proof.
  intros [Hl Hi]%reach_inv.
  pose proof (tick_sent nack_order nack_order_ok w now o) as Ht.
  destruct (tick nack_order w now o) as [w' o'].
  destruct Ht as (magic & ackm & nm & E & Hm & Hack & Hn & Hopen).
  exists (magic ++ ackm ++ nm). split_and!; [done| | |].
  - intros m s [Hin%Hm|[Hin|Hin]%elem_of_app]%elem_of_app Hk; [naive_solver congruence| |].
    + destruct (Hack m Hin) as (s' & Hk' & Hs' & f & Hf). exists f. split; [done|].
      rewrite Hk in Hk'. injection Hk' as <-. destruct (li_acks _ _ Hi s Hs') as [Hu Hseen].
      unfold is_u32 in Hu. apply stores_slice; [done|lia|]. apply (li_stores _ _ Hi); [done|lia|done].
    + destruct (Hn m Hin) as (s' & n & _ & Hk'). congruence.
  - intros m s [Hin%Hm|[Hin|Hin]%elem_of_app]%elem_of_app Hk; [naive_solver congruence| |].
    + destruct (Hack m Hin) as (s' & Hk' & _). congruence.
    + destruct (Hn m Hin) as (s' & n & Hd & Hk'). rewrite Hk in Hk'. injection Hk' as <-.
      split; [|by exists n]. apply (li_nacks _ _ Hi). destruct Hd as [-> _]. eauto.
  - intros Hf Ha. destruct (Hopen Hf Ha) as (Hp & Hall & Hs). split_and!; [done| |].
    + intros s Hin. destruct (Hall s Hin) as (m & ? & ?). exists m. set_solver.
    + intros Hok. destruct (Hs Hok) as [Hs1 Hs2].
      rewrite !list.filter_app, !length_app, (filter_none _ magic), (filter_none _ ackm), (filter_all _ nm).
      * cbn [length Nat.add]. split; [done|]. intros Hl10 s n Hd.
        destruct (Hs2 Hl10 s n Hd) as (m & ? & ?). exists m. set_solver.
      * apply list.Forall_forall. intros m Hin. destruct (Hn m Hin) as (? & ? & _ & Hk). unfold is_nack. by rewrite Hk.
      * intros m Hin. destruct (Hack m Hin) as (? & Hk & _). unfold is_nack. by rewrite Hk.
      * intros m Hin. unfold is_nack. by destruct (Hm m Hin) as [-> | ->].
Qed.
End props.

(** ** One block's outcome *)

Section outcome.
Variable gmtime_r localtime_r : Z -> option tm.
Variable quota_env grace_env : option bytes.

(** The check of the quota, after whatever relief was to be had. *)
Definition within_quota w e (t : log_tree) : Prop :=
  other_sessions_bytes (relieve quota_env grace_env w e t).1 + own_alloc e + write_growth e
    <= port2_quota_bytes quota_env.
Definition within_jump w (s : Z) : Prop :=
  prospective_size w s - current_file_size w <= MAX_FORWARD_JUMP_BYTES.

(** The writer keeps all it knew of the log. *)
Definition unmoved w w' : Prop :=
  pending_acks w' = pending_acks w /\ highest_seen w' = highest_seen w /\ nack_state w' = nack_state w
  /\ current_file_size w' = current_file_size w /\ seen_bitmap w' = seen_bitmap w.

Lemma store_outcome w e t sysid compid s data :
  0 <= s ->
  let w' := (store quota_env grace_env w e t sysid compid s data).1 in
  (within_jump w s /\ within_quota w e t /\ ce_seek_ok e = true /\ ce_wrote e = Z.to_nat BLOCK_BYTES ->
    pending_acks w' = pending_acks w ++ [s]
    /\ (forall s', 0 <= s' -> seqno_seen w' s' = bool_decide (s' = s) || seqno_seen w s')
    /\ highest_seen w' = Z.max (highest_seen w) s
    /\ current_file_size w' = prospective_size w s
    /\ forall s', nack_state w' !! s' =
         if decide (s' = s) then None
         else match nack_state w !! s' with
              | Some n => Some n
              | None => if decide (in_gap w s s' /\ seqno_seen w s' = false)
                        then Some (Build_NackState (ce_now e) 0) else None
              end)
  /\ (~ (within_jump w s /\ within_quota w e t /\ ce_seek_ok e = true /\ ce_wrote e = Z.to_nat BLOCK_BYTES) ->
    unmoved w w').
Proof.
  intros Hs. cbn zeta. unfold within_jump, within_quota, store.
  pose proof (relieve_core quota_env grace_env w e t) as Hc.
  destruct (relieve quota_env grace_env w e t) as [w1 t1]. cbn [fst] in *.
  unfold core in Hc. injection Hc as C1 C2 C3 C4 C5 C6.
  destruct (Z.ltb_spec MAX_FORWARD_JUMP_BYTES (prospective_size w s - current_file_size w)); [split; [lia|done]|].
  destruct (Z.ltb_spec (port2_quota_bytes quota_env) (other_sessions_bytes w1 + own_alloc e + write_growth e));
    [split; [lia|done]|].
  set (w2 := latch_first w1 sysid compid).
  assert (Hl : core w2 = core w1 /\ any_block_seen w2 = true)
    by (unfold w2, latch_first; by destruct (any_block_seen w1) eqn:E).
  clearbody w2. destruct Hl as [Hl Ha]. unfold core in Hl. injection Hl as E1 E2 E3 E4 E5 E6.
  destruct (ce_seek_ok e); cbn [negb fst]; [|split; [by intros (_ & _ & ? & _)|unfold unmoved; intros _; split_and!; congruence]].
  set (w3 := put_data w2 _ _).
  assert (Hp : pending_acks w3 = pending_acks w /\ highest_seen w3 = highest_seen w
    /\ nack_state w3 = nack_state w /\ current_file_size w3 = current_file_size w
    /\ seen_bitmap w3 = seen_bitmap w /\ any_block_seen w3 = true)
    by (unfold w3, put_data; destruct (fp w2); split_and!; cbn; congruence).
  clearbody w3. destruct Hp as (P1 & P2 & P3 & P4 & P5 & P6).
  destruct (Nat.eqb_spec (ce_wrote e) (Z.to_nat BLOCK_BYTES)) as [Hw|Hw]; cbn [negb fst];
    [|split; [by intros (_ & _ & _ & ?)|unfold unmoved; intros _; split_and!; congruence]].
  split; [intros _|tauto].
  set (w4 := count_write w3 _ _).
  assert (Hq : pending_acks w4 = pending_acks w3 /\ highest_seen w4 = highest_seen w3
    /\ nack_state w4 = nack_state w3 /\ current_file_size w4 = prospective_size w s
    /\ seen_bitmap w4 = seen_bitmap w3 /\ any_block_seen w4 = any_block_seen w3)
    by (unfold w4, count_write; destruct (_ <=? _); done).
  clearbody w4. destruct Hq as (Q1 & Q2 & Q3 & Q4 & Q5 & Q6).
  destruct (account_spec w4 s (ce_now e) Hs ltac:(congruence)) as (_ & A2 & A3 & A4 & A5 & A6).
  assert (Hsn : forall s', seqno_seen w4 s' = seqno_seen w s') by (intros; unfold seqno_seen; by rewrite Q5, P5).
  split_and!; [congruence| |congruence|congruence|].
  - intros s' Hs'. by rewrite A3, Hsn.
  - intros s'. rewrite A6, Q3, P3, Hsn. unfold in_gap. by rewrite Q2, P2.
Qed.

(** A writer that has just closed its file for a new log: nothing of the old one is owed,
    noted or marked. *)
Definition from_scratch w : Prop :=
  fp w = None /\ highest_seen w = 0 /\ pending_acks w = [] /\ nack_state w = ∅ /\ gated_block_count w = 0
  /\ forall s', 0 <= s' -> seqno_seen w s' = false.

Definition after_restart w e t (s : Z) : BinlogWriter :=
  if restarts w s then rotate_for_reboot gmtime_r localtime_r w e t else w.

Lemma rotate_from_scratch w e t : from_scratch (rotate_for_reboot gmtime_r localtime_r w e t).
Proof.
  unfold rotate_for_reboot. destruct (session_time_strings _ _ _ _ _ _ _) as [d n]. split_and!; try done.
  intros s' Hs. unfold seqno_seen. assert (0 <= Z.shiftr s' 3) by by apply Z.shiftr_nonneg.
  change (seen_bitmap _) with (@nil Z). by rewrite (proj2 (Z.leb_le _ _)).
Qed.

(** C31: What becomes of a block, on every path.  Block 0 of a log that has got past block 200
    is the vehicle's restart: the file is closed and the block is handled as the first of a
    new log, with nothing of the old one owed, noted or marked.  With no file open, anything
    but block 0 is dropped and counted, and the directory is left alone; otherwise (a file
    being opened for block 0) the block is stored exactly when it grows the file by at most
    100 MiB, fits the quota -- after at most one clean-up -- and the seek and the whole
    write succeed.  Stored: its acknowledgement is queued, it and nothing else becomes
    marked, and every block missing between the highest so far and it is noted for a NACK.
    Not stored: nothing is acknowledged, marked or noted. *)
Theorem block_outcome w e t port2 sysid compid s data :
  is_u32 s ->
  let r := handle_block gmtime_r localtime_r quota_env grace_env w e t port2 sysid compid s data in
  let w' := r.1 in
  let w0 := after_restart w e t s in
  let w1 := (pass_gate w0 e t port2 sysid compid s).1 in
  let passes := is_Some (fp w0) \/ s = 0 /\ is_Some (ce_opens e) in
  let fits := within_jump w1 s /\ within_quota w1 e t /\ ce_seek_ok e = true
              /\ ce_wrote e = Z.to_nat BLOCK_BYTES in
  (is_Some (fp w) -> s = 0 -> SEQNO0_RESTART_MIN_HIGHEST <= highest_seen w -> from_scratch w0)
  /\ (~ (is_Some (fp w) /\ s = 0 /\ SEQNO0_RESTART_MIN_HIGHEST <= highest_seen w) -> w0 = w)
  /\ (~ passes -> fp w' = None /\ r.2 = t /\ unmoved w0 w')
  /\ (passes -> ~ fits -> unmoved w1 w' /\ pending_acks w' = pending_acks w0)
  /\ (passes -> fits ->
      pending_acks w' = pending_acks w0 ++ [s]
      /\ (forall s', 0 <= s' -> seqno_seen w' s' = bool_decide (s' = s) || seqno_seen w0 s')
      /\ highest_seen w' = Z.max (highest_seen w0) s
      /\ (forall s', is_Some (nack_state w' !! s') <->
            s' <> s /\ (is_Some (nack_state w0 !! s') \/ in_gap w0 s s' /\ seqno_seen w0 s' = false))).
Proof.
  intros Hs. cbn zeta. split; [|split].
  { intros [f Hf] -> Hh. unfold after_restart, restarts. rewrite Hf. cbn [Z.eqb andb].
    rewrite (proj2 (Z.leb_le _ _) Hh). apply rotate_from_scratch. }
  { intros Hn. unfold after_restart, restarts. destruct (fp w) as [f|]; [|done].
    destruct (Z.eqb_spec s 0); [|done]. destruct (Z.leb_spec SEQNO0_RESTART_MIN_HIGHEST (highest_seen w)); [|done].
    destruct Hn. by split_and!. }
  unfold is_u32 in Hs. unfold handle_block. fold (after_restart w e t s).
  generalize (after_restart w e t s). clear w. intros w.
  assert (Hg : (is_Some (fp w) \/ s = 0 /\ is_Some (ce_opens e) ->
      (pass_gate w e t port2 sysid compid s).2 = true)
    /\ (~ (is_Some (fp w) \/ s = 0 /\ is_Some (ce_opens e)) ->
      (pass_gate w e t port2 sysid compid s).2 = false /\ fp (pass_gate w e t port2 sysid compid s).1 = None)
    /\ pending_acks (pass_gate w e t port2 sysid compid s).1 = pending_acks w
    /\ highest_seen (pass_gate w e t port2 sysid compid s).1 = highest_seen w
    /\ nack_state (pass_gate w e t port2 sysid compid s).1 = nack_state w
    /\ seen_bitmap (pass_gate w e t port2 sysid compid s).1 = seen_bitmap w
    /\ (~ (is_Some (fp w) \/ s = 0 /\ is_Some (ce_opens e)) ->
      current_file_size (pass_gate w e t port2 sysid compid s).1 = current_file_size w)).
  { unfold pass_gate. destruct (fp w) as [f|] eqn:Ef.
    { cbn. split_and!; try done; intros Hn; exfalso; apply Hn; left; done. }
    destruct (Z.eqb_spec s 0); cbn [negb fst snd].
    - unfold binlog_open. rewrite Ef. destruct (ce_opens e); cbn; (split_and!; try done);
        intros [[? ?]|[_ [? ?]]] || intros Hn; try done; exfalso; apply Hn; right; done.
    - unfold gated. destruct (target_system w =? 0); destruct (_ <? _); cbn; (split_and!; try done);
        by intros [[? ?]|[? _]]. }
  destruct (pass_gate w e t port2 sysid compid s) as [w1 ok]. cbn [fst snd] in *.
  destruct Hg as (G1 & G2 & G3 & G4 & G5 & G6 & G7).
  destruct (store_outcome w1 e t sysid compid s data ltac:(lia)) as [S1 S2].
  assert (Hsn : forall s', seqno_seen w1 s' = seqno_seen w s') by (intros; unfold seqno_seen; by rewrite G6).
  split_and!.
  - intros Hn. destruct (G2 Hn) as [-> Hf]. cbn [fst snd]. split; [done|]. split; [done|]. unfold unmoved. split_and!; auto.
  - intros Hp Hf. rewrite (G1 Hp). specialize (S2 Hf). split; [done|]. destruct S2 as (-> & _). done.
  - intros Hp Hf. rewrite (G1 Hp). destruct (S1 Hf) as (R1 & R2 & R3 & _ & R5).
    rewrite R1, R3, G3, G4. split_and!; [done| |done|].
    + intros s' Hs'. by rewrite R2, Hsn.
    + intros s'. rewrite R5, G5, Hsn. unfold in_gap. rewrite G4.
      destruct (decide (s' = s)) as [->|Hne]; [split; [by intros []|by intros []]|].
      destruct (nack_state w !! s'); [split; [auto|done]|].
      destruct (decide _) as [Hd|Hd]; [split; [auto|done]|]. split; [by intros []|].
      intros [_ [[]|?]]; [done|]. by destruct Hd.
Qed.
End outcome.

(** ** Where the gates do not hold *)

Section demos.
Definition demo_env : call_env := {|
  ce_now := 50000000; ce_opens := Some 7; ce_stat := None; ce_seek_ok := true;
  ce_wrote := Z.to_nat 200; ce_unlink_ok := fun _ => true; ce_pid := 1; ce_nsecs := [] |}.
Definition demo_tm : Z -> option tm := fun _ => None.
Definition demo_writer : BinlogWriter := binlog_new (bs "2024-01-01") (bs "s") false 0 0.
Definition demo_log : Z -> bytes := fun s => replicate (Z.to_nat BLOCK_BYTES) (u8 (s + 1)).
Definition demo_block w (s : Z) : BinlogWriter :=
  (handle_block demo_tm demo_tm None None w demo_env ∅ 14550 1 1 s (demo_log s)).1.

(** Block 0 opens the file, and is dropped when the quota has no room for it: the file is
    open, a later block is then stored in a file without its head, and no NACK ever asks
    for block 0. *)
Lemma head_may_be_missing :
  let full := handle_block demo_tm demo_tm (Some (bs "100")) None demo_writer demo_env ∅ 14550 1 1 0 (demo_log 0) in
  let w := demo_block full.1 2 in
  (seqno_seen w 0, seqno_seen w 2, pending_acks w, map fst (map_to_list (nack_state w)))
  = (false, true, [2], [1]).
Proof. by vm_compute. Qed.

(** [time_boot_ms + 10000] wraps in 32 bits: after 49.7 days of uptime an ordinary clock
    step forward is taken for a reboot and closes the log. *)
Lemma uptime_wrap_rotates :
  let w := observe demo_tm demo_tm (demo_block demo_writer 0) demo_env ∅ (Some 4294960000) true 1 in
  fp w <> None
  /\ fp (observe demo_tm demo_tm w demo_env ∅ (Some 4294961000) true 1) = None.
Proof. vm_compute. split; [discriminate|done]. Qed.

(** ** Witnesses *)

Lemma demo_log_ok : log_ok demo_log.
Proof. intros s. apply length_replicate. Qed.

Lemma demo_reach : reach demo_tm demo_tm None None map_to_list demo_log
  (demo_block (demo_block (demo_block demo_writer 0) 3) 1).
Proof. repeat (apply reach_block; [|by vm_compute]). apply reach_new, demo_log_ok. Qed.

Lemma binlog_faithful_witness :
  exists f, fp (demo_block (demo_block (demo_block demo_writer 0) 3) 1) = Some f
  /\ slice (of_data f) (3 * BLOCK_BYTES) BLOCK_BYTES = demo_log 3.
Proof.
  assert (Hf : is_Some (fp (demo_block (demo_block (demo_block demo_writer 0) 3) 1))) by (vm_compute; eauto).
  destruct Hf as [f Hf]. exists f. split; [done|].
  apply (binlog_faithful demo_tm demo_tm None None map_to_list (fun m => reflexivity _) demo_log _ f
    demo_reach Hf); [lia|by vm_compute].
Defined.

Lemma tick_answers_witness :
  let w := demo_block (demo_block (demo_block demo_writer 0) 3) 1 in
  map st_kind (ob_sent (tick map_to_list w 60000000 (Build_outbox [] (replicate 20 true))).2)
    = [SendStart; SendAck 0; SendAck 3; SendAck 1; SendNack 2]
  /\ exists new, ob_sent (tick map_to_list w 60000000 (Build_outbox [] (replicate 20 true))).2 = [] ++ new.
Proof.
  split; [by vm_compute|].
  pose proof (tick_answers demo_tm demo_tm None None map_to_list (fun m => reflexivity _) demo_log _
    60000000 (Build_outbox [] (replicate 20 true)) demo_reach) as H.
  destruct (tick map_to_list _ 60000000 _) as [w' o']. destruct H as (new & Hn & _). by exists new.
Defined.

(** Block 3 after block 0; and block 0 again after block 250: the vehicle has rebooted. *)
Lemma block_outcome_witness :
  pending_acks (demo_block (demo_block demo_writer 0) 3) = [0; 3]
  /\ let w := demo_block (demo_block demo_writer 0) 250 in
     pending_acks w = [0; 250] /\ restarts w 0 = true /\ pending_acks (demo_block w 0) = [0]
     /\ seqno_seen (demo_block w 0) 250 = false.
Proof.
  split.
  - destruct (block_outcome demo_tm demo_tm None None (demo_block demo_writer 0) demo_env ∅ 14550 1 1 3
      (demo_log 3)) as (_ & _ & _ & _ & H); [by vm_compute|].
    destruct H as (H & _).
    + left. vm_compute. eauto.
    + split_and!; unfold within_jump, within_quota; by vm_compute.
    + unfold demo_block at 1. rewrite H. by vm_compute.
  - cbv zeta. set (w := demo_block (demo_block demo_writer 0) 250). split; [by vm_compute|]. split; [by vm_compute|].
    destruct (block_outcome demo_tm demo_tm None None w demo_env ∅ 14550 1 1 0 (demo_log 0)) as (H0 & _ & _ & _ & H);
      [by vm_compute|].
    assert (Hf : match fp w with Some _ => true | None => false end = true) by (vm_compute; reflexivity).
    destruct H0 as (_ & _ & E & _ & _ & Es); [by destruct (fp w)|done|by vm_compute|].
    destruct H as (H1 & H2 & _).
    + right. split; [done|]. by exists 7.
    + split_and!; unfold within_jump, within_quota; by vm_compute.
    + unfold demo_block at 1 2. rewrite H1, E. split; [done|]. rewrite H2, Es by done. done.
Defined.
End demos.
