(* ===== verification/VideoStream.v ===== *)
(** * The ring a slot's stream is kept in (videostream.cpp, videostream.h)

    A fixed buffer addressed by absolute stream offsets.  The specification is the whole
    stream ever written: the ring shows a window of it. *)

From S2P Require Import Prelude CStr.

Definition VIDEO_RING_DEFAULT : Z := 8 * 1024 * 1024.

(** [env]: SUPPORTPROXY_VIDEO_RING_BYTES, if set. *)
Definition video_ring_bytes (env : option bytes) : Z :=
  match env with
  | None | Some [] => VIDEO_RING_DEFAULT
  | Some s =>
    let '(v, endp, erange) := strtoll 10 s in
    if negb erange && negb (endp =? 0)%nat && (endp =? length s)%nat && (0 <? v)
    then v else VIDEO_RING_DEFAULT
  end.

Record VideoRing := { buf_ : bytes; write_pos_ : Z }.

Implicit Types r : VideoRing.

Definition ring_init (n : Z) : VideoRing :=
  {| buf_ := replicate (Z.to_nat (if n <? 4096 then 4096 else n)) 0; write_pos_ := 0 |}.

Definition capacity r : Z := len (buf_ r).

(** The two copies of a write no longer than the ring. *)
Definition copy_in r (b : bytes) : VideoRing :=
  let cap := capacity r in
  let start := write_pos_ r mod cap in
  let first := Z.min (cap - start) (len b) in
  let buf := memcpy_at (buf_ r) (Z.to_nat start) (ztake first b) in
  let buf := if first <? len b then memcpy_at buf 0 (zdrop first b) else buf in
  {| buf_ := buf; write_pos_ := u64 (write_pos_ r + len b) |}.

Definition skip r (n : Z) : VideoRing := {| buf_ := buf_ r; write_pos_ := u64 (write_pos_ r + n) |}.

Definition ring_write r (b : bytes) : VideoRing :=
  let cap := capacity r in
  if (cap =? 0) || (len b =? 0) then r
  else if cap <=? len b then copy_in (skip r (len b - cap)) (zdrop (len b - cap) b)
  else copy_in r b.

Definition oldest r : Z := if capacity r <? write_pos_ r then write_pos_ r - capacity r else 0.

Definition resident r (pos : Z) : bool := (oldest r <=? pos) && (pos <=? write_pos_ r).

(** The bytes copied out. *)
Definition read_at r (pos n : Z) : bytes :=
  let cap := capacity r in
  if (cap =? 0) || negb (resident r pos) then []
  else
    let avail := Z.min (write_pos_ r - pos) n in
    if avail =? 0 then []
    else
      let start := pos mod cap in
      let first := Z.min (cap - start) avail in
      ztake first (zdrop start (buf_ r)) ++ ztake (avail - first) (buf_ r).

Definition ring_reset r : VideoRing := {| buf_ := buf_ r; write_pos_ := 0 |}.

(** ** The self-test *)

Definition selftest_chunk (pass : Z) : bytes := map (fun i => u8 (pass * 31 + i)) (seqZ 0 1000).

Definition check_append : bool :=
  let inp := map u8 (seqZ 0 300) in
  let r := ring_write (ring_init 4096) inp in
  (write_pos_ r =? 300) && (oldest r =? 0) && bool_decide (read_at r 0 300 = inp) && bool_decide (read_at r 100 50 = slice inp 100 50).

Definition check_wrap : bool :=
  let r := fold_left (fun r p => ring_write r (selftest_chunk p)) (seqZ 0 10) (ring_init 4096) in
  (write_pos_ r =? 10000) && (oldest r =? 10000 - 4096) && negb (resident r 0) && resident r (oldest r)
  && bool_decide (read_at r 9000 1000 = selftest_chunk 9).

Definition check_oversized : bool :=
  let r := ring_write (ring_init 4096) (map u8 (seqZ 0 10000)) in
  (write_pos_ r =? 10000) && (oldest r =? 10000 - 4096)
  && bool_decide (read_at r (10000 - 16) 16 = map (fun i => u8 (10000 - 16 + i)) (seqZ 0 16)).

Definition check_evicted : bool :=
  let r := ring_write (ring_init 4096) (replicate 5000 0) in
  (len (read_at r 0 16) =? 0) && (len (read_at r (write_pos_ r + 1) 16) =? 0).

Definition videostream_selftest : Z := if forallb id [check_append; check_wrap; check_oversized; check_evicted] then 0 else 1.

Lemma ring_selftest_passes : videostream_selftest = 0.
Proof. by vm_compute. Qed.

(** ** The window onto the stream *)

(** [r] holds the last [capacity] bytes of [hist], each at its offset modulo the size. *)
Record Shows (hist : bytes) r : Prop := {
  sh_cap : 0 < capacity r;
  sh_pos : write_pos_ r = len hist;
  sh_byte : forall i b, hist !! i = Some b -> len hist - capacity r <= Z.of_nat i ->
    buf_ r !! Z.to_nat (Z.of_nat i mod capacity r) = Some b
}.

Lemma lookup_memcpy_at buf off src i :
  (off + length src <= length buf)%nat ->
  memcpy_at buf off src !! i
  = if decide (off <= i < off + length src)%nat then src !! (i - off)%nat else buf !! i.
Proof.
  intros Hl. unfold memcpy_at.
  assert (Lt : length (take off buf) = off) by (rewrite length_take; lia).
  case_decide as Hi.
  - rewrite lookup_app_r, Lt by lia. by rewrite lookup_app_l by lia.
  - destruct (lt_dec i off).
    + rewrite lookup_app_l by lia. by rewrite lookup_take_lt by lia.
    + rewrite lookup_app_r, Lt by lia. rewrite lookup_app_r by lia. rewrite lookup_drop. f_equal. lia.
Qed.

Section copy.
Variables (r : VideoRing) (b : bytes).
Hypothesis Hcap : 0 < capacity r.
Hypothesis Hb : len b <= capacity r.

Lemma capacity_copy_in : capacity (copy_in r b) = capacity r.
Proof using Hcap Hb.
  unfold copy_in, capacity in *. cbn [buf_].
  pose proof (Z.mod_pos_bound (write_pos_ r) (len (buf_ r)) Hcap).
  assert (Hl : (Z.to_nat (write_pos_ r mod len (buf_ r))
    + length (ztake (Z.min (len (buf_ r) - write_pos_ r mod len (buf_ r)) (len b)) b) <= length (buf_ r))%nat)
    by (rewrite length_ztake; lia).
  destruct (_ <? len b); rewrite ?length_memcpy_at; [done|done|..]; try done.
  rewrite length_memcpy_at by done. rewrite length_zdrop. lia.
Qed.

(** The cell of stream offset [write_pos + j]: byte [j] of what is written, and the cells
    of other offsets are untouched. *)
Lemma lookup_copy_in (p : Z) :
  0 <= write_pos_ r -> 0 <= p < capacity r ->
  buf_ (copy_in r b) !! Z.to_nat p
  = let j := (p - write_pos_ r) mod capacity r in
    if decide (j < len b) then b !! Z.to_nat j else buf_ r !! Z.to_nat p.
Proof using Hcap Hb.
  intros Hw Hp. unfold copy_in, capacity in *. cbn [buf_]. cbv zeta.
  set (cap := len (buf_ r)) in *. pose proof (Z.mod_pos_bound (write_pos_ r) cap Hcap) as Hs.
  assert (Hj : (p - write_pos_ r) mod cap
    = if decide (write_pos_ r mod cap <= p) then p - write_pos_ r mod cap else p - write_pos_ r mod cap + cap).
  { rewrite Zminus_mod, (Z.mod_small p) by lia. case_decide.
    - apply Z.mod_small. lia.
    - symmetry. apply (Z.mod_unique _ _ (-1)); lia. }
  rewrite Hj. set (s := write_pos_ r mod cap) in *. clearbody s. clear Hj.
  assert (Hl1 : (Z.to_nat s + length (ztake (Z.min (cap - s) (len b)) b) <= length (buf_ r))%nat)
    by (rewrite length_ztake; lia).
  destruct (Z.ltb_spec (Z.min (cap - s) (len b)) (len b)).
  - assert (Hm : Z.min (cap - s) (len b) = cap - s) by lia. rewrite Hm in *.
    rewrite lookup_memcpy_at by (rewrite length_memcpy_at by done; rewrite length_zdrop; lia).
    rewrite length_zdrop. rewrite (lookup_memcpy_at (buf_ r)) by done. rewrite length_ztake.
    unfold ztake, zdrop. case_decide as H1.
    + rewrite (decide_False (P := s <= p)), decide_True by lia. rewrite lookup_drop. f_equal. lia.
    + case_decide as H2.
      * rewrite (decide_True (P := s <= p)), decide_True by lia.
        rewrite lookup_take_lt by lia. f_equal. lia.
      * rewrite decide_False; [done|]. case_decide; lia.
  - assert (Hm : Z.min (cap - s) (len b) = len b) by lia. rewrite Hm in *.
    rewrite lookup_memcpy_at by done. rewrite length_ztake. unfold ztake. case_decide as H1.
    + rewrite (decide_True (P := s <= p)), decide_True by lia. rewrite lookup_take_lt by lia. f_equal. lia.
    + rewrite decide_False; [done|]. case_decide; lia.
Qed.
End copy.

Lemma Shows_init n : Shows [] (ring_init n).
Proof.
  assert (Hc : 0 < capacity (ring_init n)).
  { unfold capacity, ring_init. cbn [buf_]. rewrite length_replicate. destruct (Z.ltb_spec n 4096); lia. }
  split; [done|done|]. intros i b. by rewrite lookup_nil.
Qed.

(** A write of at most the ring's size, after [k] skipped bytes. *)
Lemma Shows_copy hist skipped b r r' :
  Shows hist r -> 0 < capacity r -> len b <= capacity r -> (skipped = [] \/ len b = capacity r) ->
  capacity r' = capacity r -> buf_ r' = buf_ r -> write_pos_ r' = len (hist ++ skipped) ->
  len (hist ++ skipped ++ b) < 2 ^ 64 -> Shows (hist ++ skipped ++ b) (copy_in r' b).
Proof.
  intros [Hc Hp Hby] _ Hb Hs Ec Eb Ew Hl.
  assert (Hc' : 0 < capacity r') by lia. assert (Hb' : len b <= capacity r') by lia.
  rewrite !length_app in *. split.
  - by rewrite capacity_copy_in.
  - cbn [copy_in write_pos_]. rewrite Ew, wrap_small; rewrite ?length_app; lia.
  - intros i x Hx Hi. rewrite capacity_copy_in in * by done. rewrite Ec in *.
    pose proof (Z.mod_pos_bound (Z.of_nat i) (capacity r) Hc).
    rewrite lookup_copy_in by (rewrite ?Ew, ?Ec; done || lia). cbv zeta. rewrite Ec, Ew, Zminus_mod_idemp_l.
    pose proof (lookup_lt_Some _ _ _ Hx) as Hil. rewrite !length_app in *.
    set (w := Z.of_nat (length hist + length skipped)) in *.
    destruct (Z_lt_le_dec (Z.of_nat i) w) as [Hold|Hnew].
    + assert (Hm : (Z.of_nat i - w) mod capacity r = Z.of_nat i - w + capacity r)
        by (symmetry; apply (Z.mod_unique _ _ (-1)); lia).
      rewrite Hm, decide_False by lia. rewrite Eb. apply Hby.
      * destruct Hs as [->|Hs]; [|lia]. cbn in Hx. rewrite lookup_app_l in Hx; [done|]. cbn in w. lia.
      * lia.
    + rewrite Z.mod_small by lia. rewrite decide_True by lia.
      rewrite app_assoc, lookup_app_r in Hx by (rewrite length_app; lia).
      rewrite <-Hx. f_equal. rewrite length_app. lia.
Qed.

Lemma Shows_write hist b r :
  Shows hist r -> len (hist ++ b) < 2 ^ 64 -> Shows (hist ++ b) (ring_write r b).
Proof.
  intros Hsh Hl. pose proof (sh_cap _ _ Hsh) as Hc. unfold ring_write.
  rewrite (proj2 (Z.eqb_neq (capacity r) 0)) by lia. cbn [orb].
  destruct (Z.eqb_spec (len b) 0); [destruct b; [by rewrite app_nil_r|done]|].
  destruct (Z.leb_spec (capacity r) (len b)).
  - pose proof (take_drop (Z.to_nat (len b - capacity r)) b) as E.
    fold (zdrop (len b - capacity r) b) in E. rewrite <-E at 1.
    apply (Shows_copy _ _ _ r); try done.
    + rewrite length_zdrop. lia.
    + right. rewrite length_zdrop. lia.
    + cbn [skip write_pos_]. rewrite (sh_pos _ _ Hsh), length_app, length_take.
      rewrite length_app in Hl. rewrite wrap_small; lia.
    + by rewrite E.
  - apply (Shows_copy hist [] b r); try done; try lia.
    + by left.
    + by rewrite app_nil_r, (sh_pos _ _ Hsh).
Qed.

Lemma read_window hist r pos n :
  Shows hist r -> oldest r <= pos <= len hist -> 0 <= n -> read_at r pos n = slice hist pos n.
Proof.
  intros [Hc Hp Hby] Ho Hn. unfold oldest in Ho. rewrite Hp in Ho. unfold read_at.
  rewrite (proj2 (Z.eqb_neq (capacity r) 0)) by lia.
  replace (resident r pos) with true
    by (unfold resident, oldest; rewrite Hp, (proj2 (Z.leb_le _ _)), (proj2 (Z.leb_le _ _)) by lia; done).
  cbn [negb orb]. rewrite Hp.
  assert (Hpos : 0 <= pos /\ len hist - capacity r <= pos) by (destruct (_ <? _) eqn:E in Ho; reflect_bools; lia).
  pose proof (Z.mod_pos_bound pos (capacity r) Hc) as Hs. unfold capacity in *. set (cap := len (buf_ r)) in *.
  destruct (Z.eqb_spec (Z.min (len hist - pos) n) 0).
  { unfold slice. destruct (Z.eq_dec n 0) as [->|]; [done|]. rewrite drop_ge by lia. by rewrite take_nil. }
  set (avail := Z.min (len hist - pos) n) in *. set (first := Z.min (cap - pos mod cap) avail) in *.
  apply list_eq. intros j. unfold slice, ztake, zdrop.
  assert (Hcell : forall k, (k < Z.to_nat avail)%nat ->
    buf_ r !! Z.to_nat ((pos + Z.of_nat k) mod cap) = hist !! (Z.to_nat pos + k)%nat).
  { intros k Hk. destruct (lookup_lt_is_Some_2 hist (Z.to_nat pos + k) ltac:(lia)) as [x Hx].
    rewrite Hx. rewrite <-(Hby _ _ Hx) by lia. do 2 f_equal. f_equal. lia. }
  destruct (decide (j < Z.to_nat avail)%nat) as [Hj|Hj].
  - rewrite (lookup_take_lt (drop (Z.to_nat pos) hist)), lookup_drop, <-Hcell by lia.
    assert (Hmod : (pos + Z.of_nat j) mod cap
      = if decide (pos mod cap + Z.of_nat j < cap) then pos mod cap + Z.of_nat j else pos mod cap + Z.of_nat j - cap).
    { rewrite Zplus_mod, (Z.mod_small (Z.of_nat j)) by lia. case_decide.
      - apply Z.mod_small. lia.
      - symmetry. apply (Z.mod_unique _ _ 1); lia. }
    rewrite Hmod. case_decide.
    + rewrite lookup_app_l by (rewrite length_take, length_drop; lia).
      rewrite lookup_take_lt, lookup_drop by lia. f_equal. lia.
    + rewrite lookup_app_r by (rewrite length_take, length_drop; lia).
      rewrite length_take, length_drop, lookup_take_lt by lia. f_equal. lia.
  - rewrite (lookup_ge_None_2 (take _ _)) by (rewrite length_take, length_drop; lia).
    apply lookup_ge_None_2. rewrite length_app, !length_take, length_drop. lia.
Qed.

Lemma capacity_write b r : 0 < capacity r -> capacity (ring_write r b) = capacity r.
Proof.
  intros Hc. unfold ring_write. destruct (_ || _)%bool; [done|].
  destruct (Z.leb_spec (capacity r) (len b)).
  - rewrite capacity_copy_in; [done|done|].
    change (capacity (skip r (len b - capacity r))) with (capacity r). rewrite length_zdrop. lia.
  - apply capacity_copy_in; lia.
Qed.

Lemma Shows_writes ws hist r :
  Shows hist r -> len (hist ++ concat ws) < 2 ^ 64 ->
  Shows (hist ++ concat ws) (fold_left ring_write ws r) /\ capacity (fold_left ring_write ws r) = capacity r.
Proof.
  revert hist r. induction ws as [|w ws IH]; intros hist r Hs Hl; [by rewrite app_nil_r|].
  cbn [fold_left concat] in *. rewrite app_assoc in *.
  assert (Hw : len (hist ++ w) < 2 ^ 64) by (rewrite !length_app in *; lia).
  destruct (IH _ _ (Shows_write hist w r Hs Hw) Hl) as [? ->]. split; [done|].
  apply capacity_write, (sh_cap _ _ Hs).
Qed.

(** C29: The ring is a window onto the stream.  Whatever was written, in whatever pieces
    (longer than the ring included), the write position is the number of bytes ever
    written; a position is resident exactly when it is within the last [capacity] bytes of
    them; reading there gives the stream's own bytes from that offset, as many as were asked
    for and written; and reading anywhere else gives nothing, never other bytes. *)
Theorem ring_refines_stream size (ws : list bytes) pos n :
  len (concat ws) < 2 ^ 64 -> 0 <= n ->
  let r := fold_left ring_write ws (ring_init size) in
  write_pos_ r = len (concat ws)
  /\ capacity r = Z.max 4096 size
  /\ (resident r pos = true <-> Z.max 0 (len (concat ws) - capacity r) <= pos <= len (concat ws))
  /\ read_at r pos n = if resident r pos then slice (concat ws) pos n else [].
Proof.
  intros Hl Hn. cbv zeta.
  destruct (Shows_writes ws [] _ (Shows_init size) Hl) as [Hs Hc]. cbn [app] in Hs. set (r := fold_left _ _ _) in *.
  assert (Hcap : capacity r = Z.max 4096 size).
  { rewrite Hc. unfold capacity, ring_init. cbn [buf_]. rewrite length_replicate. destruct (Z.ltb_spec size 4096); lia. }
  pose proof (sh_pos _ _ Hs) as Hp.
  assert (Hr : resident r pos = true <-> Z.max 0 (len (concat ws) - capacity r) <= pos <= len (concat ws)).
  { unfold resident, oldest. rewrite Hp, andb_true_iff, !Z.leb_le. destruct (Z.ltb_spec (capacity r) (len (concat ws))); lia. }
  split_and!; [done|done|done|]. destruct (resident r pos) eqn:E.
  - apply read_window; [done| |done]. apply proj1 in Hr. specialize (Hr eq_refl).
    unfold oldest. rewrite Hp. destruct (_ <? _); lia.
  - unfold read_at. by rewrite E, orb_true_r.
Qed.

Lemma ring_refines_stream_witness :
  read_at (fold_left ring_write [replicate 4000 1; replicate 200 2] (ring_init 0)) 3998 4 = [1; 1; 2; 2].
Proof.
  destruct (ring_refines_stream 0 [replicate 4000 1; replicate 200 2] 3998 4) as (_ & _ & _ & H);
    [by vm_compute|done|].
  rewrite H. by vm_compute.
Defined.
