(* ===== verification/Amf.v ===== *)
(** * AMF0, as far as an RTMP publisher needs it (videortmp.cpp, first part)

    Reading with a cursor into a received message ([p], [i]; [n] is its length), the
    few values written back, and the credential carried in a stream name.  A double is
    its 64-bit pattern: the code only carries it through. *)

From S2P Require Import Prelude CStr HttpReq.

Definition AMF_NUMBER : Z := 0.
Definition AMF_BOOLEAN : Z := 1.
Definition AMF_STRING : Z := 2.
Definition AMF_OBJECT : Z := 3.
Definition AMF_NULL : Z := 5.
Definition AMF_UNDEFINED : Z := 6.
Definition AMF_REFERENCE : Z := 7.
Definition AMF_ECMA_ARRAY : Z := 8.
Definition AMF_OBJECT_END : Z := 9.
Definition AMF_STRICT_ARRAY : Z := 10.
Definition AMF_DATE : Z := 11.
Definition AMF_LONG_STRING : Z := 12.

Implicit Types (p b s : bytes) (i n : Z).

(** ** Writing *)

(** [be_double], [put_be_double]. *)
Definition be_double p i : Z := be_val (slice p i 8).
Definition put_be_double (d : Z) : bytes := be_bytes 8 d.

(** The pattern of [double(v)] for an unsigned 32-bit [v]. *)
Definition double_of_u32 (v : Z) : Z :=
  if v =? 0 then 0
  else let e := Z.log2 v in (1023 + e) * 2 ^ 52 + (v - 2 ^ e) * 2 ^ (52 - e).

(** [const char *]: what [strlen] sees. *)
Definition c_str s : bytes := match find_byte 0 s with Some k => take k s | None => s end.

Definition amf_num (d : Z) : bytes := AMF_NUMBER :: put_be_double d.
Definition amf_key (s : bytes) : bytes := be_bytes 2 (len s) ++ s.
Definition amf_str (s : bytes) : bytes := AMF_STRING :: amf_key s.
Definition amf_null : bytes := [AMF_NULL].
Definition amf_obj_end : bytes := [0; 0; AMF_OBJECT_END].

(** ** Skipping a value

    The result is the verdict and the cursor, which a failure leaves where it stopped. *)

Definition advance p i n : bool * Z := (i + n <=? len p, i + n).

Section skip.
(** The nested call, one level deeper. *)
Variable skip : bytes -> Z -> bool * Z.

Fixpoint amf_skip_object_body (fuel : nat) p i : bool * Z :=
  match fuel with
  | O => (false, i)
  | S fuel =>
    if len p <? i + 2 then (false, i)
    else
      let klen := be_val (slice p i 2) in
      let i := i + 2 in
      if klen =? 0 then
        if (len p <=? i) || negb (byte_at p i =? AMF_OBJECT_END) then (false, i) else (true, i + 1)
      else if len p <? i + klen then (false, i)
      else match skip p (i + klen) with
           | (false, i) => (false, i)
           | (true, i) => amf_skip_object_body fuel p i
           end
  end.

Fixpoint amf_skip_items (cnt : nat) p i : bool * Z :=
  match cnt with
  | O => (true, i)
  | S cnt => match skip p i with
             | (false, i) => (false, i)
             | (true, i) => amf_skip_items cnt p i
             end
  end.

Definition body_fuel p : nat := S (length p).

Definition amf_skip_value p i : bool * Z :=
  if len p <=? i then (false, i)
  else
    let m := byte_at p i in
    let i := i + 1 in
    if m =? AMF_NUMBER then advance p i 8
    else if m =? AMF_BOOLEAN then advance p i 1
    else if m =? AMF_STRING then
      if len p <? i + 2 then (false, i) else advance p i (2 + be_val (slice p i 2))
    else if m =? AMF_LONG_STRING then
      if len p <? i + 4 then (false, i) else advance p i (4 + be_val (slice p i 4))
    else if (m =? AMF_NULL) || (m =? AMF_UNDEFINED) then (true, i)
    else if m =? AMF_REFERENCE then advance p i 2
    else if m =? AMF_DATE then advance p i 10
    else if m =? AMF_OBJECT then amf_skip_object_body (body_fuel p) p i
    else if m =? AMF_ECMA_ARRAY then
      if len p <? i + 4 then (false, i + 4) else amf_skip_object_body (body_fuel p) p (i + 4)
    else if m =? AMF_STRICT_ARRAY then
      if len p <? i + 4 then (false, i)
      else
        let cnt := be_val (slice p i 4) in
        if len p <? cnt then (false, i + 4) else amf_skip_items (Z.to_nat cnt) p (i + 4)
    else if m =? AMF_OBJECT_END then (true, i)
    else (false, i).
End skip.

(** [levels] is how much deeper the nesting may go: [9 - depth]. *)
Fixpoint amf_skip_levels (levels : nat) p i : bool * Z :=
  match levels with
  | O => (false, i)
  | S levels => amf_skip_value (amf_skip_levels levels) p i
  end.

Definition amf_skip : bytes -> Z -> bool * Z := amf_skip_levels 9.

(** ** Reading *)

Definition amf_read_string p i : option (bytes * Z) :=
  if (len p <=? i) || negb (byte_at p i =? AMF_STRING) then None
  else
    let i := i + 1 in
    if len p <? i + 2 then None
    else
      let n := be_val (slice p i 2) in
      let i := i + 2 in
      if len p <? i + n then None else Some (slice p i n, i + n).

Definition amf_read_number p i : option (Z * Z) :=
  if (len p <=? i) || negb (byte_at p i =? AMF_NUMBER) then None
  else if len p <? i + 9 then None
  else Some (be_double p (i + 1), i + 9).

(** The two named members found so far; the flags are [have_v1] and [have_v2]. *)
Record named := { have_v1 : bool; have_v2 : bool; v1 : bytes; v2 : bytes }.
#[global] Instance named_eta : Eta named := fun o => Build_named (have_v1 o) (have_v2 o) (v1 o) (v2 o).

Section members.
Variables k1 k2 : bytes.

Definition take_member (key : bytes) (o : named) : option named :=
  let is_v1 := bool_decide (key = k1) in
  let is_v2 := bool_decide (key = k2) in
  if (is_v1 && have_v1 o) || (is_v2 && have_v2 o) then None
  else Some (o <| have_v1 := have_v1 o || is_v1 |> <| have_v2 := have_v2 o || is_v2 |>).

Definition set_member (key sv : bytes) (o : named) : named :=
  if bool_decide (key = k1) then o <| v1 := sv |>
  else if bool_decide (key = k2) then o <| v2 := sv |> else o.

Fixpoint amf_members_strings (fuel : nat) p i (o : named) : bool * named :=
  match fuel with
  | O => (false, o)
  | S fuel =>
    if len p <? i + 2 then (false, o)
    else
      let klen := be_val (slice p i 2) in
      let i := i + 2 in
      if klen =? 0 then
        (negb ((len p <=? i) || negb (byte_at p i =? AMF_OBJECT_END)), o)
      else if len p <? i + klen then (false, o)
      else
        let key := slice p i klen in
        let i := i + klen in
        match take_member key o with
        | None => (false, o)
        | Some o =>
          match (if (i <? len p) && (byte_at p i =? AMF_STRING) then amf_read_string p i else None) with
          | Some (sv, i) => amf_members_strings fuel p i (set_member key sv o)
          | None => match amf_skip p i with
                    | (false, _) => (false, o)
                    | (true, i) => amf_members_strings fuel p i o
                    end
          end
        end
  end.

(** The members are stored as they are met, so a failure leaves the ones before it. *)
Definition amf_object_strings p i (o1 o2 : bytes) : bool * (bytes * bytes) :=
  if len p <=? i then (false, (o1, o2))
  else
    let m := byte_at p i in
    if (m =? AMF_ECMA_ARRAY) || (m =? AMF_OBJECT) then
      let i := if m =? AMF_ECMA_ARRAY then i + 5 else i + 1 in
      let '(ok, o) := amf_members_strings (body_fuel p) p i
                        {| have_v1 := false; have_v2 := false; v1 := o1; v2 := o2 |} in
      (ok, (v1 o, v2 o))
    else ((amf_skip p i).1, (o1, o2)).
End members.

(** ** The credential of a stream name *)

Definition first_of_query s : option nat :=
  list_find (fun c => c = 63 \/ c = 38) s ≫= (fun x => Some x.1).

Definition credential_key (k : bytes) : bool :=
  bool_decide (k = bs "pw") || bool_decide (k = bs "password") || bool_decide (k = bs "key").

Fixpoint find_credential (kvs : list bytes) : option bytes :=
  match kvs with
  | [] => None
  | kv :: kvs =>
    match find_byte 61 kv with
    | Some eq => if credential_key (take eq kv) then Some (http_url_decode (drop (S eq) kv))
                 else find_credential kvs
    | None => find_credential kvs
    end
  end.

(** The bare name, and the credential if there is one. *)
Definition split_credential (name : bytes) : bytes * option bytes :=
  match first_of_query name with
  | None => (name, None)
  | Some q => (take q name, find_credential (split_on 38 (drop (S q) name)))
  end.

(** ** The grammar

    The byte strings that are one AMF0 value, nested at most [levels] deep. *)

Section form.
Variable V : bytes -> Prop.

Inductive amf_members : bytes -> Prop :=
| members_end : amf_members amf_obj_end
| members_cons h k v rest :
    length h = 2%nat -> be_val h = len k -> k <> [] -> V v -> amf_members rest ->
    amf_members (h ++ k ++ v ++ rest).

Inductive amf_form : bytes -> Prop :=
| form_number d : length d = 8%nat -> amf_form (AMF_NUMBER :: d)
| form_boolean d : length d = 1%nat -> amf_form (AMF_BOOLEAN :: d)
| form_string h s : length h = 2%nat -> be_val h = len s -> amf_form (AMF_STRING :: h ++ s)
| form_long h s : length h = 4%nat -> be_val h = len s -> amf_form (AMF_LONG_STRING :: h ++ s)
| form_null : amf_form [AMF_NULL]
| form_undefined : amf_form [AMF_UNDEFINED]
| form_reference d : length d = 2%nat -> amf_form (AMF_REFERENCE :: d)
| form_date d : length d = 10%nat -> amf_form (AMF_DATE :: d)
| form_object body : amf_members body -> amf_form (AMF_OBJECT :: body)
| form_ecma h body : length h = 4%nat -> amf_members body -> amf_form (AMF_ECMA_ARRAY :: h ++ body)
| form_strict h vs :
    length h = 4%nat -> be_val h = len vs -> Forall V vs -> amf_form (AMF_STRICT_ARRAY :: h ++ concat vs)
| form_end : amf_form [AMF_OBJECT_END].
End form.

Fixpoint amf_value (levels : nat) (v : bytes) : Prop :=
  match levels with
  | O => False
  | S levels => amf_form (amf_value levels) v
  end.

(** ** Bytes at the cursor *)

Definition at_ p i v : Prop := v `prefix_of` zdrop i p.

Section at_.
Variables (p : bytes).
Hypothesis Hp : bytes_ok p.

Lemma at_len i v : 0 <= i <= len p -> at_ p i v -> i + len v <= len p.
Proof using. intros Hi H%prefix_length. rewrite length_zdrop in H. lia. Qed.

Lemma at_app i v w : 0 <= i -> at_ p i (v ++ w) <-> at_ p i v /\ at_ p (i + len v) w.
Proof using.
  intros Hi. unfold at_. replace (i + len v) with (i + Z.of_nat (length v)) by lia.
  rewrite <-zdrop_zdrop by lia. unfold zdrop at 3. rewrite Nat2Z.id. split.
  - intros [k E]. rewrite E, <-app_assoc. split; [by eexists|].
    rewrite drop_app_length. by eexists.
  - intros [[k E] [k' E']]. rewrite E, drop_app_length in E'. subst k. exists k'.
    by rewrite E, app_assoc.
Qed.

Lemma at_slice i n v : 0 <= i -> 0 <= n -> 0 < n \/ i <= len p -> len v = n -> at_ p i v <-> i + n <= len p /\ v = slice p i n.
Proof using.
  intros Hi Hn Hl. unfold at_, slice, zdrop. split.
  - intros [k E]. split.
    + apply (f_equal length) in E. rewrite length_drop, length_app in E. lia.
    + rewrite E. rewrite take_app_length'; [done|lia].
  - intros [_ ->]. exists (drop (Z.to_nat n) (drop (Z.to_nat i) p)). by rewrite take_drop.
Qed.

Lemma at_cons i x v : 0 <= i -> at_ p i (x :: v) <-> i < len p /\ byte_at p i = x /\ at_ p (i + 1) v.
Proof using.
  intros Hi. change (x :: v) with ([x] ++ v). rewrite at_app by done. change (len [x]) with 1.
  rewrite (at_slice i 1 [x]) by (done || lia). unfold slice, byte_at. split.
  - intros [[Hl E] ?]. split; [lia|]. split; [|done].
    rewrite <-(take_drop (Z.to_nat i) p) at 1. rewrite app_nth2 by (rewrite length_take; lia).
    rewrite length_take. replace (_ - _)%nat with 0%nat by lia.
    destruct (drop (Z.to_nat i) p); [done|]. cbn in E. by injection E.
  - intros (Hl & <- & ?). split; [|done]. split; [lia|].
    rewrite <-(take_drop (Z.to_nat i) p) at 1. rewrite app_nth2 by (rewrite length_take; lia).
    rewrite length_take. replace (_ - _)%nat with 0%nat by lia.
    destruct (drop (Z.to_nat i) p) eqn:E; [|done]. apply (f_equal length) in E. rewrite length_drop in E. cbn in E. lia.
Qed.

Lemma at_nil i : at_ p i [].
Proof using. apply prefix_nil. Qed.

(** A length-prefixed run of bytes. *)
Lemma at_counted i k :
  0 <= i -> 0 < k -> (exists h s, len h = k /\ be_val h = len s /\ at_ p i (h ++ s)) <->
  i + k <= len p /\ i + k + be_val (slice p i k) <= len p.
Proof using Hp.
  intros Hi Hk. pose proof (be_val_range (slice p i k) (bytes_ok_slice _ _ _ Hp)). split.
  - intros (h & s & Hn & Hs & [H1 H2]%at_app); [|done].
    apply (at_slice i k h) in H1 as [H1 ->]; [|lia..].
    apply (at_slice _ (len s)) in H2 as [H2 _]; [|lia..]. rewrite Hs, Hn in *. lia.
  - intros [H1 H2]. pose proof (length_slice p i k Hi ltac:(lia) H1) as L.
    set (m := be_val (slice p i k)) in *. exists (slice p i k), (slice p (i + k) m).
    assert (Hm : len (slice p (i + k) m) = m) by (rewrite length_slice; lia).
    split_and!; [lia|lia|]. rewrite at_app by done. split.
    + by apply (at_slice i k); [lia..|].
    + rewrite L. replace (i + Z.of_nat (Z.to_nat k)) with (i + k) by lia.
      by apply (at_slice _ m); [lia..|].
Qed.

(** Any [n] bytes. *)
Lemma at_any i n : 0 <= i -> 0 < n -> (exists v, len v = n /\ at_ p i v) <-> i + n <= len p.
Proof using.
  intros Hi Hn. split.
  - intros (v & Hv & H). apply (at_slice i n) in H as [? _]; lia.
  - intros H. exists (slice p i n). pose proof (length_slice p i n Hi ltac:(lia) H).
    split; [lia|]. by apply (at_slice i n); [lia..|].
Qed.
End at_.

(** ** Skipping is parsing *)

Section parses.
Variables (skip : bytes -> Z -> bool * Z) (V : bytes -> Prop).

(** [skip] succeeds exactly on a value, and stops at its end. *)
Definition parses : Prop := forall p i i', bytes_ok p -> 0 <= i ->
  skip p i = (true, i') <-> exists v, V v /\ at_ p i v /\ i' = i + len v.

Hypothesis Hskip : parses.
Hypothesis V_nonempty : forall v, V v -> v <> [].

Lemma body_sound fuel p i i' :
  bytes_ok p -> 0 <= i -> amf_skip_object_body skip fuel p i = (true, i') ->
  exists v, amf_members V v /\ at_ p i v /\ i' = i + len v.
Proof using Hskip.
  intros Hp. revert i. induction fuel as [|fuel IH]; intros i Hi; cbn [amf_skip_object_body]; [done|].
  destruct (Z.ltb_spec (len p) (i + 2)); [done|].
  pose proof (length_slice p i 2 Hi ltac:(lia) ltac:(lia)) as L.
  assert (H2 : at_ p i (slice p i 2)) by (by apply (at_slice _ _ 2); [lia..|]).
  destruct (Z.eqb_spec (be_val (slice p i 2)) 0) as [E|E].
  - destruct (Z.leb_spec (len p) (i + 2)); [done|]. cbn [orb].
    destruct (Z.eqb_spec (byte_at p (i + 2)) AMF_OBJECT_END) as [E9|]; [|done]. intros [= <-].
    exists amf_obj_end. split; [constructor|]. split; [|cbn; lia].
    change amf_obj_end with ([0; 0] ++ [9]). apply at_app; [done|]. split.
    + pose proof (be_bytes_be_val (slice p i 2) (bytes_ok_slice _ _ _ Hp)) as Eb.
      rewrite L, E in Eb. rewrite <-Eb in H2. exact H2.
    + apply at_cons; [lia|]. split_and!; [cbn; lia|exact E9|]. apply at_nil.
  - destruct (Z.ltb_spec (len p) (i + 2 + be_val (slice p i 2))); [done|].
    set (k := be_val (slice p i 2)) in *.
    pose proof (be_val_range (slice p i 2) (bytes_ok_slice _ _ _ Hp)) as Hk. fold k in Hk.
    destruct (skip p (i + 2 + k)) as [[] i1] eqn:Es; [|done]. intros Hb.
    apply Hskip in Es as (v & Hv & Ha & ->); [|done|lia].
    apply IH in Hb as (w & Hw & Hb & ->); [|lia].
    pose proof (length_slice p (i + 2) k ltac:(lia) ltac:(lia) ltac:(lia)) as Lk.
    exists (slice p i 2 ++ slice p (i + 2) k ++ v ++ w).
    split; [constructor; [lia|fold k; lia| |done|done]|].
    + intros En. rewrite En in Lk. cbn in Lk. lia.
    + rewrite !length_app, L, Lk. split; [|lia]. rewrite !at_app by (rewrite ?L, ?Lk; lia).
      rewrite L, Lk. replace (i + Z.of_nat (Z.to_nat 2)) with (i + 2) by lia.
      replace (i + 2 + Z.of_nat (Z.to_nat k)) with (i + 2 + k) by lia.
      split_and!; [done| |done|done]. by apply (at_slice _ _ k); [lia..|].
Qed.

Lemma body_complete fuel p i v :
  bytes_ok p -> 0 <= i -> amf_members V v -> at_ p i v -> (length v <= fuel)%nat ->
  amf_skip_object_body skip fuel p i = (true, i + len v).
Proof using Hskip V_nonempty.
  intros Hp Hi Hv. revert fuel i Hi. induction Hv as [|h k v rest Lh Ek Hk Hv Hm IH]; intros fuel i Hi Ha Hf.
  - destruct fuel as [|fuel]; [cbn in Hf; lia|]. cbn [amf_skip_object_body].
    change amf_obj_end with ([0; 0] ++ [9]) in Ha. apply at_app in Ha as [H2 H9]; [|done].
    apply (at_slice _ _ 2) in H2 as [Hl E2]; [|cbn; lia..].
    apply at_cons in H9 as (H9 & E9 & _); [|cbn; lia].
    change (len [0; 0]) with 2 in *. rewrite <-E2, E9.
    rewrite (proj2 (Z.ltb_ge (len p) (i + 2))) by lia. cbn.
    rewrite (proj2 (Z.leb_gt (len p) (i + 2))) by lia. cbn. f_equal. lia.
  - rewrite !length_app in *. pose proof (V_nonempty _ Hv) as Hn.
    destruct v as [|x v]; [done|]. cbn [length] in Hf |- *.
    destruct fuel as [|fuel]; [lia|]. cbn [amf_skip_object_body].
    rewrite !at_app in Ha by lia. destruct Ha as (H2 & H3 & H4 & H5).
    apply (at_slice _ _ 2) in H2 as [Hl E2]; [|lia..]. rewrite <-E2, Ek, Lh in *.
    change (i + Z.of_nat 2) with (i + 2) in *.
    apply (at_slice _ _ (len k)) in H3 as [Hl3 _]; [|destruct k; cbn in *; lia..].
    rewrite (proj2 (Z.ltb_ge (len p) (i + 2))) by lia.
    rewrite (proj2 (Z.eqb_neq (len k) 0)) by (destruct k; cbn in *; [done|lia]).
    rewrite (proj2 (Z.ltb_ge (len p) (i + 2 + len k))) by lia.
    assert (Es : skip p (i + 2 + len k) = (true, i + 2 + len k + len (x :: v)))
      by (apply Hskip; [done|lia|by exists (x :: v)]).
    rewrite Es, IH; [f_equal; cbn [length]; lia|lia|done|lia].
Qed.

Lemma items_parse cnt p i i' :
  bytes_ok p -> 0 <= i -> amf_skip_items skip cnt p i = (true, i') <->
  exists vs, length vs = cnt /\ Forall V vs /\ at_ p i (concat vs) /\ i' = i + len (concat vs).
Proof using Hskip.
  intros Hp. revert i. induction cnt as [|cnt IH]; intros i Hi; cbn [amf_skip_items].
  - split.
    + intros [= <-]. exists []. split_and!; [done..|apply at_nil|cbn; lia].
    + intros ([|v vs] & Hl & _ & _ & ->); [|done]. f_equal. cbn. lia.
  - split.
    + destruct (skip p i) as [[] i1] eqn:Es; [|done]. intros Hc.
      apply Hskip in Es as (v & Hv & Ha & ->); [|done..]. apply IH in Hc as (vs & Hl & Hvs & Hc & ->); [|lia].
      exists (v :: vs). cbn [length concat]. rewrite length_app, at_app by done.
      split_and!; [lia|by constructor|done|done|lia].
    + intros ([|v vs] & Hl & Hvs & Hc & ->); [done|]. apply Forall_cons_iff in Hvs as [Hv Hvs].
      cbn [concat] in *. apply at_app in Hc as [Ha Hc]; [|done].
      assert (Es : skip p i = (true, i + len v)) by (apply Hskip; [done..|by exists v]).
      rewrite Es. apply IH; [lia|]. exists vs. rewrite length_app. cbn in Hl. split_and!; [lia|done|done|lia].
Qed.

Lemma members_nonempty v : amf_members V v -> v <> [].
Proof using. intros [|h k w r Lh _ _ _ _]; [done|]. by destruct h. Qed.

Lemma form_nonempty v : amf_form V v -> v <> [].
Proof using. by intros []. Qed.

Lemma body_parses p i i' :
  bytes_ok p -> 0 <= i -> amf_skip_object_body skip (body_fuel p) p i = (true, i') <->
  exists v, amf_members V v /\ at_ p i v /\ i' = i + len v.
Proof using Hskip V_nonempty.
  intros Hp Hi. split; [by apply body_sound|]. intros (v & Hv & Ha & ->).
  apply body_complete; try done. unfold body_fuel. apply prefix_length in Ha. rewrite length_zdrop in Ha. lia.
Qed.
End parses.

(** A marker followed by bytes of a kind [K]: how each arm of the [switch] is verified. *)
Lemma at_marker p i m (K : bytes -> Prop) i' :
  0 <= i -> i < len p -> byte_at p i = m ->
  (exists v, (exists d, v = m :: d /\ K d) /\ at_ p i v /\ i' = i + len v) <->
  (exists d, K d /\ at_ p (i + 1) d /\ i' = i + 1 + len d).
Proof.
  intros Hi Hl Hm. split.
  - intros (v & (d & -> & Hd) & Ha & ->). apply at_cons in Ha as (_ & _ & Ha); [|done].
    exists d. cbn [length]. split_and!; [done|done|lia].
  - intros (d & Hd & Ha & ->). exists (m :: d). cbn [length].
    split_and!; [by exists d| |lia]. by apply at_cons.
Qed.

Lemma advance_any p i n i' :
  0 <= i -> 0 < n -> advance p i n = (true, i') <-> exists d, len d = n /\ at_ p i d /\ i' = i + len d.
Proof.
  intros Hi Hn. unfold advance. split.
  - destruct (Z.leb_spec (i + n) (len p)) as [H|]; [|done]. intros [= <-].
    apply at_any in H as (d & Hd & Ha); [|done..]. exists d. split_and!; [done..|lia].
  - intros (d & Hd & Ha & ->). f_equal; [|lia]. apply Z.leb_le, at_any; [done..|by exists d].
Qed.

(** A run of bytes after its length in [k] bytes. *)
Lemma counted_any p i k i' :
  bytes_ok p -> 0 <= i -> 0 < k ->
  (if len p <? i + k then (false, i) else advance p i (k + be_val (slice p i k))) = (true, i') <->
  exists d, (exists h s, d = h ++ s /\ len h = k /\ be_val h = len s) /\ at_ p i d /\ i' = i + len d.
Proof.
  intros Hp Hi Hk. unfold advance. pose proof (be_val_range _ (bytes_ok_slice p i k Hp)) as Hb.
  set (m := be_val (slice p i k)) in *. split.
  - destruct (Z.ltb_spec (len p) (i + k)); [done|]. destruct (Z.leb_spec (i + (k + m)) (len p)); [|done].
    intros [= <-]. destruct (proj2 (at_counted p Hp i k Hi Hk)) as (h & s & Hh & Hs & Ha); [fold m; lia|].
    exists (h ++ s). split_and!; [by exists h, s|done|].
    apply at_app in Ha as [Ha _]; [|done]. apply (at_slice _ _ k) in Ha as [_ ->]; [|lia..].
    rewrite length_app. fold m in Hs. lia.
  - intros (d & (h & s & -> & Hh & Hs) & Ha & ->).
    destruct (proj1 (at_counted p Hp i k Hi Hk)) as [H1 H2]; [by exists h, s|]. fold m in H2.
    rewrite (proj2 (Z.ltb_ge _ _)) by lia. rewrite (proj2 (Z.leb_le _ _)) by lia.
    apply at_app in Ha as [Ha _]; [|done]. apply (at_slice _ _ k) in Ha as [_ ->]; [|lia..].
    rewrite length_app. fold m in Hs. f_equal. lia.
Qed.

Section value.
Variables (skip : bytes -> Z -> bool * Z) (V : bytes -> Prop).
Hypothesis Hskip : parses skip V.
Hypothesis V_nonempty : forall v, V v -> v <> [].

Definition counted (k : Z) (d : bytes) : Prop := exists h s, d = h ++ s /\ len h = k /\ be_val h = len s.

(** What may follow each marker. *)
Definition form_tail (m : Z) (d : bytes) : Prop :=
  if m =? AMF_NUMBER then len d = 8
  else if m =? AMF_BOOLEAN then len d = 1
  else if m =? AMF_STRING then counted 2 d
  else if m =? AMF_LONG_STRING then counted 4 d
  else if (m =? AMF_NULL) || (m =? AMF_UNDEFINED) then d = []
  else if m =? AMF_REFERENCE then len d = 2
  else if m =? AMF_DATE then len d = 10
  else if m =? AMF_OBJECT then amf_members V d
  else if m =? AMF_ECMA_ARRAY then exists h body, d = h ++ body /\ len h = 4 /\ amf_members V body
  else if m =? AMF_STRICT_ARRAY then
    exists h vs, d = h ++ concat vs /\ len h = 4 /\ be_val h = len vs /\ Forall V vs
  else if m =? AMF_OBJECT_END then d = [] else False.

Lemma form_marker v : amf_form V v <-> exists m d, v = m :: d /\ form_tail m d.
Proof using.
  split.
  - intros []; eexists _, _; (split; [reflexivity|]); cbn; try done; try lia; eexists _, _; split_and!; done || lia.
  - intros (m & d & -> & Ht). unfold form_tail in Ht.
    repeat match type of Ht with
      | context [if ?b then _ else _] => destruct b eqn:? ; [|try done]
      end; reflect_bools; subst.
    + constructor. lia.
    + constructor. lia.
    + destruct Ht as (h & s & -> & ? & ?). constructor; lia.
    + destruct Ht as (h & s & -> & ? & ?). constructor; lia.
    + destruct (Z.eqb_spec m AMF_NULL) as [->|]; [constructor|].
      destruct (Z.eqb_spec m AMF_UNDEFINED) as [->|]; [constructor|done].
    + constructor. lia.
    + constructor. lia.
    + by constructor.
    + destruct Ht as (h & body & -> & ? & ?). constructor; [lia|done].
    + destruct Ht as (h & vs & -> & ? & ? & ?). constructor; [lia|lia|done].
    + constructor.
Qed.

(** A fixed-length header, then something parsed from there. *)
Lemma header_then p i k (K : bytes -> Prop) i' :
  0 <= i -> 0 < k ->
  (exists d, (exists h b, d = h ++ b /\ len h = k /\ K b) /\ at_ p i d /\ i' = i + len d) <->
  i + k <= len p /\ exists b, K b /\ at_ p (i + k) b /\ i' = i + k + len b.
Proof using.
  intros Hi Hk. split.
  - intros (d & (h & b & -> & Hh & Hb) & Ha & ->). apply at_app in Ha as [H1 H2]; [|done].
    apply (at_slice _ _ k) in H1 as [? _]; [|lia..]. rewrite Hh in *. split; [done|].
    exists b. rewrite length_app. split_and!; [done..|lia].
  - intros (Hl & b & Hb & Ha & ->). apply at_any in Hl as (h & Hh & H1); [|lia..].
    exists (h ++ b). rewrite length_app, at_app, Hh by done. split_and!; [by exists h, b|done|done|lia].
Qed.

Lemma nil_tail p i i' : (true, i) = (true, i') <-> exists d, d = [] /\ at_ p i d /\ i' = i + len d.
Proof using.
  split.
  - intros [= <-]. exists []. split_and!; [done|apply at_nil|cbn; lia].
  - intros (d & -> & _ & ->). f_equal. cbn. lia.
Qed.

Lemma tail_parses p i m i' :
  bytes_ok p -> 0 <= i -> i < len p -> byte_at p i = m ->
  amf_skip_value skip p i = (true, i') <-> exists d, form_tail m d /\ at_ p (i + 1) d /\ i' = i + 1 + len d.
Proof using Hskip V_nonempty.
  intros Hp Hi Hl Hm. unfold amf_skip_value, form_tail. rewrite (proj2 (Z.leb_gt _ _)) by lia.
  cbv zeta. rewrite Hm. assert (Hi1 : 0 <= i + 1) by lia. set (j := i + 1) in *. clearbody j.
  destruct (m =? AMF_NUMBER); [by apply advance_any|].
  destruct (m =? AMF_BOOLEAN); [by apply advance_any|].
  destruct (m =? AMF_STRING); [by apply counted_any|].
  destruct (m =? AMF_LONG_STRING); [by apply counted_any|].
  destruct (_ || _)%bool; [apply nil_tail|].
  destruct (m =? AMF_REFERENCE); [by apply advance_any|].
  destruct (m =? AMF_DATE); [by apply advance_any|].
  destruct (m =? AMF_OBJECT); [by apply body_parses|].
  destruct (m =? AMF_ECMA_ARRAY).
  { rewrite header_then, <-(body_parses skip V) by (done || lia).
    destruct (Z.ltb_spec (len p) (j + 4)); split; try done; [lia|tauto]. }
  destruct (m =? AMF_STRICT_ARRAY).
  - destruct (Z.ltb_spec (len p) (j + 4)).
    { split; [done|]. intros (d & (h & vs & -> & Hh & _) & Ha & _). apply at_app in Ha as [H1 _]; [|done].
      apply (at_slice _ _ 4) in H1 as [? _]; lia. }
    pose proof (be_val_range _ (bytes_ok_slice p j 4 Hp)) as Hb.
    pose proof (length_slice p j 4 Hi1 ltac:(lia) ltac:(lia)) as L. set (cnt := be_val (slice p j 4)) in *.
    assert (Hs : at_ p j (slice p j 4)) by (by apply (at_slice _ _ 4); [lia..|]).
    split.
    + destruct (Z.ltb_spec (len p) cnt); [done|]. intros (vs & Hvl & Hvs & Ha & ->)%(items_parse skip V); [|done|done|lia].
      exists (slice p j 4 ++ concat vs). rewrite length_app, at_app, L by done.
      split_and!; [|done|done|lia]. exists (slice p j 4), vs. fold cnt. split_and!; [done|lia|lia|done].
    + intros (d & (h & vs & -> & Hh & Hc & Hvs) & Ha & ->). apply at_app in Ha as [H1 H2]; [|done].
      rewrite Hh in H2. apply (at_slice _ _ 4) in H1 as [_ ->]; [|lia..]. fold cnt in Hc.
      assert (Hn : forall l, Forall V l -> len l <= len (concat l)).
      { clear -V_nonempty. induction 1 as [|v vs Hv _ IH]; [done|]. cbn [concat length]. rewrite length_app.
        apply V_nonempty in Hv. destruct v; [done|]. cbn [length]. lia. }
      specialize (Hn vs Hvs). pose proof (at_len p (j + 4) (concat vs) ltac:(lia) H2).
      rewrite (proj2 (Z.ltb_ge _ _)) by lia. rewrite length_app, L.
      apply (items_parse skip V); [done|done|lia|]. exists vs. split_and!; [lia|done|done|lia].
  - destruct (m =? AMF_OBJECT_END); [apply nil_tail|]. split; [done|]. by intros (? & [] & _).
Qed.

Lemma value_parses : parses (amf_skip_value skip) (amf_form V).
Proof using Hskip V_nonempty.
  intros p i i' Hp Hi. destruct (Z_lt_le_dec i (len p)) as [Hl|Hl].
  - rewrite (tail_parses p i (byte_at p i)) by done. split.
    + intros (d & Hd & Ha & ->). exists (byte_at p i :: d). rewrite form_marker. cbn [length].
      split_and!; [by eexists _, _|by apply at_cons|lia].
    + intros (v & (m & d & -> & Hd)%form_marker & Ha & ->). apply at_cons in Ha as (_ & -> & Ha); [|done].
      exists d. cbn [length]. split_and!; [done..|lia].
  - unfold amf_skip_value. rewrite (proj2 (Z.leb_le _ _)) by lia. split; [done|].
    intros (v & Hv%form_nonempty & Ha & _). destruct v; [done|]. apply at_cons in Ha; [|done]. lia.
Qed.
End value.

Lemma levels_parses levels :
  parses (amf_skip_levels levels) (amf_value levels) /\ forall v, amf_value levels v -> v <> [].
Proof.
  induction levels as [|levels [IH IHn]]; cbn [amf_skip_levels amf_value].
  - split; [|done]. intros p i i' _ _. split; [done|]. by intros (v & [] & _).
  - split; [by apply value_parses|]. intros v. apply form_nonempty.
Qed.

(** ** What the callers rely on *)

(** C35: Skipping a value is parsing it.  From any position of any message, [amf_skip] succeeds
    exactly when an AMF0 value nested at most nine deep stands there, whole, and it stops
    right after it: a truncated or malformed value, or one nested deeper, is refused, and
    no read or cursor passes the end of the message. *)
Theorem amf_skip_exact p i i' :
  bytes_ok p -> 0 <= i ->
  (amf_skip p i = (true, i') <-> exists v, amf_value 9 v /\ at_ p i v /\ i' = i + len v).
Proof. apply levels_parses. Qed.

Definition sample_object : bytes :=
  AMF_OBJECT :: (be_bytes 2 3 ++ bs "app") ++ amf_str (bs "live")
  ++ (be_bytes 2 1 ++ bs "x") ++ (AMF_STRICT_ARRAY :: be_bytes 4 2 ++ [AMF_NULL] ++ amf_num 0) ++ amf_obj_end.

Lemma amf_skip_exact_witness :
  amf_skip (sample_object ++ [7]) 0 = (true, len sample_object) /\ amf_value 9 sample_object
  /\ forall i', amf_skip (removelast sample_object) 0 <> (true, i').
Proof.
  assert (E : amf_skip (sample_object ++ [7]) 0 = (true, len sample_object)) by (by vm_compute).
  split; [done|].
  destruct (proj1 (amf_skip_exact (sample_object ++ [7]) 0 (len sample_object) ltac:(decide_vm) ltac:(lia)) E)
    as (v & Hv & Ha & Hl).
  assert (v = sample_object) as ->.
  { destruct Ha as [k Hk]. change (zdrop 0 ?l) with l in Hk.
    apply (f_equal (take (length v))) in Hk. rewrite take_app_length in Hk. rewrite <-Hk.
    rewrite Z.add_0_l in Hl. apply Nat2Z.inj in Hl. rewrite <-Hl. by rewrite take_app_length. }
  split; [done|]. intros i' H%(f_equal fst). by vm_compute in H.
Defined.

Lemma levels_advance levels p i i' :
  bytes_ok p -> 0 <= i -> amf_skip_levels levels p i = (true, i') -> i < i' <= len p.
Proof.
  intros Hp Hi H. destruct (levels_parses levels) as [Hl Hn].
  apply Hl in H as (v & Hv%Hn & Ha & ->); [|done..].
  destruct v as [|x v]; [done|]. pose proof Ha as (? & _)%at_cons; [|done].
  apply at_len in Ha; [|lia]. cbn [length] in *. lia.
Qed.

(** The member loops run out of input before they run out of fuel. *)
Lemma body_fuel_irrelevant skip p :
  (forall i i', 0 <= i -> skip p i = (true, i') -> i < i') -> bytes_ok p ->
  forall fuel fuel' i, 0 <= i -> len p < i + Z.of_nat fuel -> len p < i + Z.of_nat fuel' ->
  amf_skip_object_body skip fuel p i = amf_skip_object_body skip fuel' p i.
Proof.
  intros Hs Hp. induction fuel as [|fuel IH]; intros [|fuel'] i Hi Hf Hf'; cbn [amf_skip_object_body].
  - done.
  - by rewrite (proj2 (Z.ltb_lt _ _)) by lia.
  - by rewrite (proj2 (Z.ltb_lt _ _)) by lia.
  - destruct (Z.ltb_spec (len p) (i + 2)); [done|]. destruct (be_val (slice p i 2) =? 0); [done|].
    destruct (len p <? _); [done|].
    pose proof (be_val_range _ (bytes_ok_slice p i 2 Hp)).
    destruct (skip p _) as [[] i1] eqn:E; [|done]. apply Hs in E; [|lia]. apply IH; lia.
Qed.

Lemma members_fuel_irrelevant k1 k2 p :
  bytes_ok p ->
  forall fuel fuel' i o, 0 <= i -> len p < i + Z.of_nat fuel -> len p < i + Z.of_nat fuel' ->
  amf_members_strings k1 k2 fuel p i o = amf_members_strings k1 k2 fuel' p i o.
Proof.
  intros Hp. induction fuel as [|fuel IH]; intros [|fuel'] i o Hi Hf Hf'; cbn [amf_members_strings].
  - done.
  - by rewrite (proj2 (Z.ltb_lt _ _)) by lia.
  - by rewrite (proj2 (Z.ltb_lt _ _)) by lia.
  - destruct (Z.ltb_spec (len p) (i + 2)); [done|]. destruct (be_val (slice p i 2) =? 0); [done|].
    pose proof (be_val_range _ (bytes_ok_slice p i 2 Hp)). set (k := be_val _) in *.
    destruct (len p <? i + 2 + k); [done|]. destruct (take_member _ _ _ _) as [o'|]; [|done].
    destruct (if _ && _ then _ else _) as [[sv i1]|] eqn:E.
    + apply IH; destruct (_ && _)%bool; try done; unfold amf_read_string in E;
        repeat case_match; simplify_eq; pose proof (be_val_range _ (bytes_ok_slice p (i + 2 + k + 1) 2 Hp)); lia.
    + destruct (amf_skip p _) as [[] i1] eqn:Es; [|done]. apply levels_advance in Es; [|done|lia]. apply IH; lia.
Qed.

(** The loops over a peer's AMF data terminate: the fuel they are modelled with is never
    what ends them.  Any larger amount gives the same verdict, cursor and values, for every
    message, position and depth. *)
Theorem amf_loops_terminate levels k1 k2 p i o extra :
  bytes_ok p -> 0 <= i ->
  amf_skip_object_body (amf_skip_levels levels) (body_fuel p) p i
  = amf_skip_object_body (amf_skip_levels levels) (body_fuel p + extra) p i
  /\ amf_members_strings k1 k2 (body_fuel p) p i o = amf_members_strings k1 k2 (body_fuel p + extra) p i o.
Proof.
  intros Hp Hi. unfold body_fuel. split.
  - apply body_fuel_irrelevant; [|done|done|lia..]. intros j j' Hj Hs%levels_advance; [lia|done..].
  - apply members_fuel_irrelevant; [done|done|lia..].
Qed.

Lemma amf_loops_terminate_witness :
  amf_skip_object_body (amf_skip_levels 8) (body_fuel sample_object + 100) sample_object 1
  = (true, len sample_object).
Proof.
  rewrite <-(proj1 (amf_loops_terminate 8 [] [] sample_object 1 (Build_named false false [] []) 100
    ltac:(decide_vm) ltac:(lia))).
  by vm_compute.
Defined.
