(* ===== verification/Rtmp.v ===== *)
(** * RTMP publish ingest (videortmp.cpp, videortmp.h)

    One publisher's session: handshake, chunk streams, the commands of a publisher, and the
    conversion of media messages to FLV.  [to_peer_] and [to_flv_] are what the session
    owes the peer and the backend; the caller drains them. *)

From S2P Require Import Prelude CStr HttpReq Amf.

Definition RTMP_OUT_CHUNK_SIZE : Z := 4096.
Definition RTMP_DEFAULT_CHUNK_SIZE : Z := 128.
Definition RTMP_PREPUBLISH_MAX_BYTES : Z := 256 * 1024.
Definition RTMP_PREPUBLISH_MAX_S : Z := 20.
Definition RTMP_MAX_MESSAGE_BYTES : Z := 4 * 1024 * 1024.
Definition RTMP_MAX_CHUNK_SIZE : Z := 1 * 1024 * 1024.
Definition RTMP_MAX_CHUNK_STREAM : Z := 255.
Definition RTMP_MAX_ASSEMBLY_BYTES : Z := 8 * 1024 * 1024.
Definition RTMP_MAX_OUT_BYTES : Z := 256 * 1024.

Inductive rtmp_vcodec_t := RTMP_VCODEC_NONE | RTMP_VCODEC_H264 | RTMP_VCODEC_OTHER.
Inductive rtmp_state := RTMP_WANT_C0C1 | RTMP_WANT_C2 | RTMP_CHUNKS | RTMP_DEAD.
#[global] Instance rtmp_vcodec_dec : EqDecision rtmp_vcodec_t. Proof. solve_decision. Defined.
#[global] Instance rtmp_state_dec : EqDecision rtmp_state. Proof. solve_decision. Defined.

Record ChunkStream := {
  ts : Z; delta : Z; mlen : Z; mtype : Z; sid : Z; ext_ts : bool; acc : bytes
}.
#[global] Instance ChunkStream_eta : Eta ChunkStream := fun c =>
  Build_ChunkStream (ts c) (delta c) (mlen c) (mtype c) (sid c) (ext_ts c) (acc c).

Definition chunk_stream_new : ChunkStream :=
  {| ts := 0; delta := 0; mlen := 0; mtype := 0; sid := 0; ext_ts := false; acc := [] |}.

Record RtmpSession := {
  state_ : rtmp_state; in_ : bytes; in_pos_ : Z; to_peer_ : bytes; to_flv_ : bytes;
  in_chunk_ : Z; ack_window_ : Z; bytes_in_ : Z; acked_ : Z; cs_ : list ChunkStream;
  app_ : bytes; stream_ : bytes; password_ : bytes; password_present_ : bool;
  publish_txn_ : Z; publish_sid_ : Z; publishing_ : bool; publish_pending_ : bool;
  connected_ : bool; publishing_since_ : Z; assembly_bytes_ : Z; vcodec_ : rtmp_vcodec_t;
  flv_header_written_ : bool; saw_c0c1_ : bool; started_ : Z; now_ : Z; total_in_ : Z;
  media_bytes_ : Z; error_ : bytes
}.
#[global] Instance RtmpSession_eta : Eta RtmpSession := fun s =>
  Build_RtmpSession (state_ s) (in_ s) (in_pos_ s) (to_peer_ s) (to_flv_ s) (in_chunk_ s)
    (ack_window_ s) (bytes_in_ s) (acked_ s) (cs_ s) (app_ s) (stream_ s) (password_ s)
    (password_present_ s) (publish_txn_ s) (publish_sid_ s) (publishing_ s)
    (publish_pending_ s) (connected_ s) (publishing_since_ s) (assembly_bytes_ s) (vcodec_ s)
    (flv_header_written_ s) (saw_c0c1_ s) (started_ s) (now_ s) (total_in_ s) (media_bytes_ s)
    (error_ s).

Definition rtmp_new : RtmpSession :=
  {| state_ := RTMP_WANT_C0C1; in_ := []; in_pos_ := 0; to_peer_ := []; to_flv_ := [];
     in_chunk_ := RTMP_DEFAULT_CHUNK_SIZE; ack_window_ := 0; bytes_in_ := 0; acked_ := 0;
     cs_ := []; app_ := []; stream_ := []; password_ := []; password_present_ := false;
     publish_txn_ := 0; publish_sid_ := 1; publishing_ := false; publish_pending_ := false;
     connected_ := false; publishing_since_ := 0; assembly_bytes_ := 0;
     vcodec_ := RTMP_VCODEC_NONE; flv_header_written_ := false; saw_c0c1_ := false;
     started_ := 0; now_ := 0; total_in_ := 0; media_bytes_ := 0; error_ := [] |}.

Implicit Types (s : RtmpSession) (c : ChunkStream) (p b : bytes).

Definition fail s (why : bytes) : RtmpSession := s <| error_ := why |> <| state_ := RTMP_DEAD |>.
Definition path s : bytes :=
  if len (app_ s) =? 0 then stream_ s
  else if len (stream_ s) =? 0 then app_ s
  else app_ s ++ bs "/" ++ stream_ s.

Definition compact s : RtmpSession :=
  if in_pos_ s =? len (in_ s) then s <| in_ := ([] : bytes) |> <| in_pos_ := 0 |>
  else if 65536 <? in_pos_ s then s <| in_ := zdrop (in_pos_ s) (in_ s) |> <| in_pos_ := 0 |>
  else s.

(** ** Messages to the peer *)

Fixpoint out_chunks (fuel : nat) (csid : Z) p : bytes :=
  match fuel with
  | O => []
  | S fuel =>
    match p with
    | [] => []
    | _ => u8 (Z.lor 0xc0 csid) :: ztake RTMP_OUT_CHUNK_SIZE p
           ++ out_chunks fuel csid (zdrop RTMP_OUT_CHUNK_SIZE p)
    end
  end.

Definition rtmp_msg (csid type sid : Z) p (ts : Z) : bytes :=
  [csid] ++ be_bytes 3 ts ++ be_bytes 3 (len p) ++ [type] ++ le_bytes 4 sid
  ++ ztake RTMP_OUT_CHUNK_SIZE p ++ out_chunks (length p) csid (zdrop RTMP_OUT_CHUNK_SIZE p).

Definition send_msg s (csid type sid : Z) p (ts : Z) : RtmpSession :=
  s <| to_peer_ := to_peer_ s ++ rtmp_msg csid type sid p ts |>.
Definition send_amf s (csid sid : Z) b : RtmpSession := send_msg s csid 20 sid b 0.

(** ** FLV *)

Definition flv_header : bytes := bs "FLV" ++ [1; 5; 0; 0; 0; 9; 0; 0; 0; 0].

Definition write_flv_header s : RtmpSession :=
  if flv_header_written_ s then s
  else s <| flv_header_written_ := true |> <| to_flv_ := to_flv_ s ++ flv_header |>.

Definition flv_tag (type ts : Z) p : bytes :=
  let tag := [type] ++ be_bytes 3 (len p) ++ be_bytes 3 ts ++ [u8 (Z.shiftr ts 24)] ++ [0; 0; 0] ++ p in
  tag ++ be_bytes 4 (u32 (len tag)).

Definition write_flv_tag s (type ts : Z) p : RtmpSession :=
  s <| to_flv_ := to_flv_ s ++ flv_tag type ts p |>.

Definition set_data_frame : bytes := bs "@setDataFrame".

(** The codec named by a first video tag. *)
Definition codec_of p : rtmp_vcodec_t :=
  if Z.land (byte_at p 0) 0x80 =? 0 then
    if Z.land (byte_at p 0) 0x0f =? 7 then RTMP_VCODEC_H264 else RTMP_VCODEC_OTHER
  else if 5 <=? len p then
    if bool_decide (slice p 1 4 = bs "avc1") then RTMP_VCODEC_H264 else RTMP_VCODEC_OTHER
  else RTMP_VCODEC_NONE.

(** The call inside a [@setDataFrame] wrapper. *)
Definition unwrap_data p : bytes :=
  let skip := 3 + len set_data_frame in
  if (skip <? len p) && (byte_at p 0 =? AMF_STRING) && (byte_at p 1 =? 0)
     && (byte_at p 2 =? len set_data_frame) && bool_decide (slice p 3 (len set_data_frame) = set_data_frame)
  then zdrop skip p else p.

Definition on_media s (type ts : Z) p : RtmpSession :=
  if negb (publishing_ s) || (len p =? 0) then s
  else
    let s := if (type =? 9) && bool_decide (vcodec_ s = RTMP_VCODEC_NONE)
             then s <| vcodec_ := codec_of p |> else s in
    let p := if type =? 18 then unwrap_data p else p in
    write_flv_tag (s <| media_bytes_ := u64 (media_bytes_ s + len p) |>) type ts p.

(** ** Commands *)

Definition status_object (level code description : bytes) : bytes :=
  [AMF_OBJECT] ++ amf_key (bs "level") ++ amf_str level ++ amf_key (bs "code") ++ amf_str code
  ++ amf_key (bs "description") ++ amf_str description.

Definition connect_result (txn : Z) : bytes :=
  amf_str (bs "_result") ++ amf_num txn
  ++ [AMF_OBJECT] ++ amf_key (bs "fmsVer") ++ amf_str (bs "FMS/3,0,1,123")
  ++ amf_key (bs "capabilities") ++ amf_num (double_of_u32 31) ++ amf_obj_end
  ++ status_object (bs "status") (bs "NetConnection.Connect.Success") (bs "Connection succeeded.")
  ++ amf_key (bs "objectEncoding") ++ amf_num (double_of_u32 0) ++ amf_obj_end.

Definition on_bw_done : bytes :=
  amf_str (bs "onBWDone") ++ amf_num (double_of_u32 0) ++ amf_null ++ amf_num (double_of_u32 8192).

Definition send_connect s (txn : Z) : RtmpSession :=
  let s := send_msg s 2 5 0 [0x00; 0x26; 0x25; 0xa0] 0 in
  let s := send_msg s 2 6 0 [0x00; 0x26; 0x25; 0xa0; 0x02] 0 in
  let s := send_msg s 2 4 0 [0; 0; 0; 0; 0; 0] 0 in
  let s := send_msg s 2 1 0 (be_bytes 4 RTMP_OUT_CHUNK_SIZE) 0 in
  let s := send_amf s 3 0 (connect_result txn) in
  send_amf s 3 0 on_bw_done.

Definition offer s (pw : option bytes) : RtmpSession :=
  match pw with
  | Some pw => if password_present_ s then s else s <| password_ := pw |> <| password_present_ := true |>
  | None => s
  end.

(** The credential of [connect]: the application name's, else the URL's. *)
Definition connect_credential s (tc_url : bytes) : RtmpSession :=
  let '(app, pw) := split_credential (app_ s) in
  let s := s <| app_ := app |> <| password_present_ := bool_decide (is_Some pw) |>
             <| password_ := default (password_ s) pw |> in
  offer s (split_credential tc_url).2.

Definition on_connect s p i (txn : Z) : bool * RtmpSession :=
  if connected_ s then (false, fail s (bs "repeated connect"))
  else
    let s := s <| connected_ := true |> in
    let '(ok, (app, tc_url)) := amf_object_strings (bs "app") (bs "tcUrl") p i (app_ s) [] in
    let s := s <| app_ := app |> in
    if negb ok then (false, fail s (bs "malformed or duplicate connect property"))
    else (true, send_connect (connect_credential s tc_url) txn).

(** A stream name after the command object, which is skipped whatever it is. *)
Definition stream_name p i : option bytes := fst <$> amf_read_string p (amf_skip p i).2.

Definition on_fc_publish s p i : bool * RtmpSession :=
  let '(name, pw) := split_credential (default [] (stream_name p i)) in
  let s := offer s pw in
  (true, send_amf s 3 0
    (amf_str (bs "onFCPublish") ++ amf_num (double_of_u32 0) ++ amf_null
     ++ status_object (bs "status") (bs "NetStream.Publish.Start")
          (if len name =? 0 then bs "Publishing." else c_str name) ++ amf_obj_end)).

Definition on_publish s c p i (txn : Z) : bool * RtmpSession :=
  if publishing_ s || publish_pending_ s then (false, fail s (bs "second publish on one connection"))
  else if negb (connected_ s) then (false, fail s (bs "publish before connect"))
  else
    match stream_name p i with
    | None => (false, fail s (bs "publish without a stream name"))
    | Some name =>
      let '(stream, pw) := split_credential name in
      let s := offer (s <| stream_ := stream |>) pw in
      (true, s <| publish_txn_ := txn |>
               <| publish_sid_ := if sid c =? 0 then 1 else sid c |>
               <| publish_pending_ := true |>)
    end.

Definition on_command s c p : bool * RtmpSession :=
  match amf_read_string p 0 with
  | None => (false, fail s (bs "unparseable command"))
  | Some (cmd, i) =>
    let '(txn, i) := default (0, i) (amf_read_number p i) in
    if bool_decide (cmd = bs "connect") then on_connect s p i txn
    else if bool_decide (cmd = bs "releaseStream") then
      (true, send_amf s 3 0 (amf_str (bs "_result") ++ amf_num txn ++ amf_null))
    else if bool_decide (cmd = bs "FCUnpublish") || bool_decide (cmd = bs "deleteStream")
            || bool_decide (cmd = bs "closeStream") then
      if publishing_ s && (bool_decide (cmd = bs "deleteStream") || bool_decide (cmd = bs "FCUnpublish"))
      then (false, fail s (bs "publisher unpublished")) else (true, s)
    else if bool_decide (cmd = bs "FCPublish") then on_fc_publish s p i
    else if bool_decide (cmd = bs "createStream") then
      (true, send_amf s 3 0 (amf_str (bs "_result") ++ amf_num txn ++ amf_null
                             ++ amf_num (double_of_u32 (publish_sid_ s))))
    else if bool_decide (cmd = bs "publish") then on_publish s c p i txn
    else if bool_decide (cmd = bs "play") || bool_decide (cmd = bs "play2") then
      (false, fail s (bs "this port accepts publishers only"))
    else (true, s)
  end.

(** The caller's answers to a pending publish. *)
Definition accept_publish s : RtmpSession :=
  if negb (publish_pending_ s) then s
  else
    let s := s <| publish_pending_ := false |> <| publishing_ := true |>
               <| publishing_since_ := if now_ s =? 0 then started_ s else now_ s |> in
    let s := send_msg s 2 4 0 ([0; 0] ++ be_bytes 4 (publish_sid_ s)) 0 in
    let s := send_msg s 5 20 (publish_sid_ s)
      (amf_str (bs "onStatus") ++ amf_num (double_of_u32 0) ++ amf_null
       ++ status_object (bs "status") (bs "NetStream.Publish.Start")
            (if len (stream_ s) =? 0 then bs "Publishing." else c_str (stream_ s ++ bs " is now published."))
       ++ amf_key (bs "clientid") ++ amf_num (double_of_u32 1) ++ amf_obj_end) 0 in
    write_flv_header s.

Definition reject_publish s (code description : bytes) : RtmpSession :=
  let s := s <| publish_pending_ := false |> in
  let s := send_msg s 5 20 (publish_sid_ s)
    (amf_str (bs "onStatus") ++ amf_num (publish_txn_ s) ++ amf_null
     ++ status_object (bs "error") code description ++ amf_obj_end) 0 in
  s <| error_ := description |> <| state_ := RTMP_DEAD |>.

(** ** Chunks *)

(** [cs_[csid]] after the [resize]. *)
Definition stream_at s (csid : Z) : ChunkStream := nth (Z.to_nat csid) (cs_ s) chunk_stream_new.

Definition resize_streams s (csid : Z) : RtmpSession :=
  if len (cs_ s) <=? csid
  then s <| cs_ := cs_ s ++ replicate (Z.to_nat (csid + 1) - length (cs_ s)) chunk_stream_new |>
  else s.

Definition set_stream s (csid : Z) c : RtmpSession := s <| cs_ := <[Z.to_nat csid := c]> (cs_ s) |>.

(** Format, chunk stream id and length of the basic header at [i]. *)
Definition basic_header p i : option (Z * Z * Z) :=
  let b0 := byte_at p i in
  let fmt := Z.shiftr b0 6 in
  let csid := Z.land b0 0x3f in
  if csid =? 0 then
    if len p <? i + 2 then None else Some (fmt, 64 + byte_at p (i + 1), 2)
  else if csid =? 1 then
    if len p <? i + 3 then None else Some (fmt, 64 + byte_at p (i + 1) + 256 * byte_at p (i + 2), 3)
  else Some (fmt, csid, 1).

Definition mh (fmt : Z) : Z := if fmt =? 0 then 11 else if fmt =? 1 then 7 else if fmt =? 2 then 3 else 0.

(** The length, type and stream id a message header [h] gives. *)
Definition header_fields c (fmt : Z) (h : bytes) : ChunkStream :=
  if fmt =? 0 then
    c <| mlen := be_val (slice h 3 3) |> <| mtype := byte_at h 6 |> <| sid := le_val (slice h 7 4) |>
  else if fmt =? 1 then c <| mlen := be_val (slice h 3 3) |> <| mtype := byte_at h 6 |>
  else c.

(** The timestamps, from the 24-bit field and the extension. *)
Definition header_times c (fmt ts_field ext : Z) : ChunkStream :=
  if fmt <=? 2 then
    let new_ext_ts := ts_field =? 0xffffff in
    let t := if new_ext_ts then ext else ts_field in
    if fmt =? 0 then c <| ext_ts := new_ext_ts |> <| ts := t |> <| delta := 0 |>
    else c <| ext_ts := new_ext_ts |> <| delta := t |> <| ts := u32 (ts c + t) |>
  else if len (acc c) =? 0 then c <| ts := u32 (ts c + delta c) |>
  else c.

(** What one chunk says, decoded before any state is touched: the chunk stream's new
    fields, its payload and the offset after it; or why there is nothing to commit yet. *)
Inductive chunk_verdict :=
| Incomplete
| Refused (why : bytes)
| Chunk (c : ChunkStream) (payload : bytes) (after : Z).

(** The payload at [pos], under the new header [c']. *)
Definition chunk_payload s c c' (fmt pos : Z) : chunk_verdict :=
  if RTMP_MAX_MESSAGE_BYTES <? mlen c' then Refused (bs "message too large")
  else if negb (fmt =? 3) && negb (len (acc c) =? 0)
  then Refused (bs "header restarts a message already in progress")
  else
    let remaining := u64 (mlen c' - len (acc c)) in
    let take := if remaining <? in_chunk_ s then remaining else in_chunk_ s in
    if len (in_ s) <? pos + take then Incomplete
    else if RTMP_MAX_ASSEMBLY_BYTES <? u64 (assembly_bytes_ s + take)
    then Refused (bs "too many partial messages")
    else Chunk c' (slice (in_ s) pos take) (pos + take).

Definition decode_chunk s (fmt csid hdr : Z) : chunk_verdict :=
  let p := in_ s in
  let i := in_pos_ s in
  let c := stream_at s csid in
  if len p <? i + hdr + mh fmt then Incomplete
  else
    let h := zdrop (i + hdr) p in
    let ts_field := if fmt <=? 2 then be_val (slice h 0 3) else ts c in
    let pos := i + hdr + mh fmt in
    let want_ext := ((fmt <=? 2) && (ts_field =? 0xffffff)) || ((fmt =? 3) && ext_ts c) in
    if want_ext && (len p <? pos + 4) then Incomplete
    else
      let ext := if want_ext then be_val (slice p pos 4) else 0 in
      let pos := if want_ext then pos + 4 else pos in
      chunk_payload s c (header_times (header_fields c fmt h) fmt ts_field ext) fmt pos.

(** Acknowledge once per window. *)
Definition acknowledge s (n : Z) : RtmpSession :=
  let s := s <| bytes_in_ := u64 (bytes_in_ s + n) |> in
  if negb (ack_window_ s =? 0) && (ack_window_ s <=? u64 (bytes_in_ s - acked_ s))
  then let s := s <| acked_ := bytes_in_ s |> in send_msg s 2 3 0 (be_bytes 4 (u32 (acked_ s))) 0
  else s.

Definition set_chunk_size s p : bool * RtmpSession :=
  if len p <? 4 then (false, fail s (bs "short SetChunkSize"))
  else
    let v := Z.land (be_val (slice p 0 4)) 0x7fffffff in
    if (v =? 0) || (RTMP_MAX_CHUNK_SIZE <? v) then (false, fail s (bs "bad chunk size"))
    else (true, s <| in_chunk_ := v |>).

Definition abort_message s p : RtmpSession :=
  if 4 <=? len p then
    let id := be_val (slice p 0 4) in
    if id <? len (cs_ s) then
      let c := stream_at s id in
      set_stream (s <| assembly_bytes_ := u64 (assembly_bytes_ s - len (acc c)) |>) id
        (c <| acc := ([] : bytes) |>)
    else s
  else s.

Definition user_control s p : RtmpSession :=
  if (2 <=? len p) && (be_val (slice p 0 2) =? 6) && (6 <=? len p)
  then send_msg s 2 4 0 ([0; 7] ++ slice p 2 4) 0 else s.

Definition set_window s p : RtmpSession :=
  if 4 <=? len p then s <| ack_window_ := be_val (slice p 0 4) |> else s.

Definition on_message s c p : bool * RtmpSession :=
  let t := mtype c in
  if t =? 1 then set_chunk_size s p
  else if t =? 2 then (true, abort_message s p)
  else if t =? 3 then (true, s)
  else if (t =? 5) || (t =? 6) then (true, set_window s p)
  else if t =? 4 then (true, user_control s p)
  else if (t =? 8) || (t =? 9) || (t =? 18) then (true, on_media s t (ts c) p)
  else if t =? 20 then on_command s c p
  else (true, s).

(** The whole chunk is here: it is counted and appended, *)
Definition absorb s (csid : Z) c (payload : bytes) (after : Z) : RtmpSession :=
  let s := acknowledge s (after - in_pos_ s) in
  set_stream (s <| assembly_bytes_ := u64 (assembly_bytes_ s + len payload) |> <| in_pos_ := after |>)
    csid c.

(** and a message it completes is taken out and acted on. *)
Definition deliver s (csid : Z) c : bool * RtmpSession :=
  if mlen c <=? len (acc c) then
    let msg := acc c in
    let c := c <| acc := ([] : bytes) |> in
    on_message (set_stream (s <| assembly_bytes_ := u64 (assembly_bytes_ s - len msg) |>) csid c) c msg
  else (true, s).

Definition check_out (r : bool * RtmpSession) : bool * RtmpSession :=
  let '(ok, s) := r in
  if negb ok then (false, s)
  else if RTMP_MAX_OUT_BYTES <? len (to_peer_ s) then (false, fail s (bs "peer is not reading its responses"))
  else (true, s).

Definition commit_chunk s (csid : Z) c (payload : bytes) (after : Z) : bool * RtmpSession :=
  let c := c <| acc := acc c ++ payload |> in
  check_out (deliver (absorb s csid c payload after) csid c).

Definition parse_chunks s : bool * RtmpSession :=
  if len (in_ s) <=? in_pos_ s then (false, s)
  else
    match basic_header (in_ s) (in_pos_ s) with
    | None => (false, s)
    | Some (fmt, csid, hdr) =>
      if RTMP_MAX_CHUNK_STREAM <? csid then (false, fail s (bs "chunk stream id out of range"))
      else
        let s := resize_streams s csid in
        match decode_chunk s fmt csid hdr with
        | Incomplete => (false, s)
        | Refused why => (false, fail s why)
        | Chunk c payload after => commit_chunk s csid c payload after
        end
    end.

(** ** The session *)

Definition s1 : bytes := replicate 8 0 ++ map u8 (seqZ 8 1528).

Definition do_handshake s : bool * RtmpSession :=
  let avail := len (in_ s) - in_pos_ s in
  if bool_decide (state_ s = RTMP_WANT_C0C1) then
    if avail <? 1537 then (false, s)
    else if negb (byte_at (in_ s) (in_pos_ s) =? 3) then (false, fail s (bs "unsupported RTMP version"))
    else (true, s <| to_peer_ := to_peer_ s ++ [3] ++ s1 ++ slice (in_ s) (in_pos_ s + 1) 1536 |>
                  <| in_pos_ := in_pos_ s + 1537 |> <| saw_c0c1_ := true |> <| state_ := RTMP_WANT_C2 |>)
  else if avail <? 1536 then (false, s)
  else (true, s <| in_pos_ := in_pos_ s + 1536 |> <| state_ := RTMP_CHUNKS |>).

Definition parse_step s : bool * RtmpSession :=
  if bool_decide (state_ s = RTMP_CHUNKS) then parse_chunks s else do_handshake s.

(** Each turn consumes a byte at least, so [run_parser]'s fuel lets it run to its end. *)
Fixpoint parse_loop (fuel : nat) s : bool * RtmpSession :=
  match fuel with
  | O => (false, s)
  | S fuel =>
    if bool_decide (state_ s = RTMP_DEAD) then (false, s)
    else
      match parse_step s with
      | (false, s') => (negb (bool_decide (state_ s' = RTMP_DEAD)), s')
      | (true, s') =>
        if publish_pending_ s' || (in_pos_ s' =? in_pos_ s) then (true, compact s')
        else parse_loop fuel s'
      end
  end.

Definition run_parser s : bool * RtmpSession := parse_loop (S (length (in_ s))) s.

Definition feed s (buf : bytes) (now : Z) : bool * RtmpSession :=
  if bool_decide (state_ s = RTMP_DEAD) then (false, s)
  else
    let s := if started_ s =? 0 then s <| started_ := now |> else s in
    let s := s <| now_ := now |> <| total_in_ := u64 (total_in_ s + len buf) |> in
    if negb (publishing_ s)
       && ((RTMP_PREPUBLISH_MAX_BYTES <? total_in_ s) || (RTMP_PREPUBLISH_MAX_S <? now - started_ s))
    then (false, fail s (bs "did not publish in time"))
    else run_parser (s <| in_ := in_ s ++ buf |>).

Definition resume s : bool * RtmpSession :=
  if bool_decide (state_ s = RTMP_DEAD) then (false, s) else run_parser s.

(** The caller takes what is owed: [to_peer().clear()], [to_flv().clear()]. *)
Definition drain_peer s : RtmpSession := s <| to_peer_ := ([] : bytes) |>.
Definition drain_flv s : RtmpSession := s <| to_flv_ := ([] : bytes) |>.

(** ** The input is only looked at by the parser

    Everything a message does commutes with a change of the input buffer and cursor, and of
    the clock and the byte count [feed] checks: it neither reads nor moves them. *)

Definition with_env s (b : bytes) (i t n st : Z) : RtmpSession :=
  s <| in_ := b |> <| in_pos_ := i |> <| total_in_ := t |> <| now_ := n |> <| started_ := st |>.

(** A result with its session's environment replaced. *)
Definition env_result (r : bool * RtmpSession) (b : bytes) (i t n st : Z) : bool * RtmpSession :=
  (r.1, with_env r.2 b i t n st).

Section commute.
Variables (b : bytes) (i t n st : Z).

Lemma send_connect_env s txn : send_connect (with_env s b i t n st) txn = with_env (send_connect s txn) b i t n st.
Proof. done. Qed.

Lemma offer_env s pw : offer (with_env s b i t n st) pw = with_env (offer s pw) b i t n st.
Proof. destruct pw; cbn; [|done]. by destruct (password_present_ s). Qed.

Lemma connect_credential_env s u : connect_credential (with_env s b i t n st) u = with_env (connect_credential s u) b i t n st.
Proof. unfold connect_credential. cbn. destruct (split_credential (app_ s)) as [app pw].
  by rewrite <-offer_env. Qed.

Lemma on_media_env s ty ts p : on_media (with_env s b i t n st) ty ts p = with_env (on_media s ty ts p) b i t n st.
Proof. unfold on_media. cbn. destruct (_ || _)%bool; [done|]. by destruct (_ && _)%bool. Qed.

Lemma on_command_env s c p : on_command (with_env s b i t n st) c p = env_result (on_command s c p) b i t n st.
Proof.
  unfold on_command. destruct (amf_read_string p 0) as [[cmd j]|]; [|done].
  destruct (default (0, j) (amf_read_number p j)) as [txn k].
  case_bool_decide.
  { unfold on_connect. cbn [connected_ with_env]. destruct (connected_ s); [done|]. cbn.
    destruct (amf_object_strings _ _ _ _ _ _) as [[] [app u]]; [|done]. cbn.
    unfold env_result. cbn [fst snd]. rewrite <-send_connect_env, <-connect_credential_env. done. }
  case_bool_decide; [done|]. destruct (_ || _)%bool; [cbn; by destruct (_ && _)%bool|].
  case_bool_decide.
  { unfold on_fc_publish. destruct (split_credential _) as [name pw]. unfold env_result. cbn [fst snd].
    by rewrite offer_env. }
  case_bool_decide; [done|]. case_bool_decide.
  { unfold on_publish. cbn. destruct (_ || _)%bool; [done|]. destruct (negb _); [done|].
    destruct (stream_name p k) as [name|]; [|done]. destruct (split_credential name) as [nm pw].
    unfold offer. destruct pw; [|done]. cbn. by destruct (password_present_ s). }
  by destruct (_ || _)%bool.
Qed.

Lemma abort_message_env s p : abort_message (with_env s b i t n st) p = with_env (abort_message s p) b i t n st.
Proof. unfold abort_message. destruct (_ <=? _); [|done]. cbn. by destruct (_ <? _). Qed.

Lemma on_message_env s c p : on_message (with_env s b i t n st) c p = env_result (on_message s c p) b i t n st.
Proof.
  unfold on_message.
  destruct (_ =? 1). { unfold set_chunk_size. destruct (_ <? _); [done|]. by destruct (_ || _)%bool. }
  destruct (_ =? 2). { by rewrite abort_message_env. }
  destruct (_ =? 3); [done|].
  destruct (_ || _)%bool. { unfold set_window. by destruct (_ <=? _). }
  destruct (_ =? 4). { unfold user_control. by destruct (_ && _)%bool. }
  destruct (_ || _)%bool. { by rewrite on_media_env. }
  destruct (_ =? 20); [apply on_command_env|done].
Qed.

Lemma acknowledge_env s k : acknowledge (with_env s b i t n st) k = with_env (acknowledge s k) b i t n st.
Proof. unfold acknowledge. cbn. by destruct (_ && _)%bool. Qed.
End commute.


(** The input alone, and the clock alone. *)
Definition with_in s (b : bytes) (i : Z) : RtmpSession := s <| in_ := b |> <| in_pos_ := i |>.
Definition with_clock s (t n st : Z) : RtmpSession := s <| total_in_ := t |> <| now_ := n |> <| started_ := st |>.

Definition in_result (r : bool * RtmpSession) (b : bytes) (i : Z) : bool * RtmpSession :=
  (r.1, with_in r.2 b i).
Definition clock_result (r : bool * RtmpSession) (t n st : Z) : bool * RtmpSession :=
  (r.1, with_clock r.2 t n st).

Lemma with_in_id s : with_in s (in_ s) (in_pos_ s) = s.
Proof. by destruct s. Qed.

Definition env_of s : bytes * Z * Z * Z * Z := (in_ s, in_pos_ s, total_in_ s, now_ s, started_ s).

Lemma env_kept (f : RtmpSession -> RtmpSession) s :
  (forall b i t n st, f (with_env s b i t n st) = with_env (f s) b i t n st) -> env_of (f s) = env_of s.
Proof.
  intros H. specialize (H (in_ s) (in_pos_ s) (total_in_ s) (now_ s) (started_ s)).
  replace (with_env s _ _ _ _ _) with s in H by (by destruct s). by rewrite H.
Qed.

Lemma env_in (f : RtmpSession -> RtmpSession) s b i :
  (forall b i t n st, f (with_env s b i t n st) = with_env (f s) b i t n st) ->
  f (with_in s b i) = with_in (f s) b i.
Proof.
  intros H. pose proof (env_kept f s H) as [= _ _ E1 E2 E3].
  change (with_in s b i) with (with_env s b i (total_in_ s) (now_ s) (started_ s)).
  rewrite H. unfold with_env, with_in. by rewrite <-E1, <-E2, <-E3.
Qed.

Lemma env_clock (f : RtmpSession -> RtmpSession) s t n st :
  (forall b i t n st, f (with_env s b i t n st) = with_env (f s) b i t n st) ->
  f (with_clock s t n st) = with_clock (f s) t n st.
Proof.
  intros H. pose proof (env_kept f s H) as [= E1 E2 _ _ _].
  change (with_clock s t n st) with (with_env s (in_ s) (in_pos_ s) t n st).
  rewrite H. unfold with_env, with_clock. by rewrite <-E1, <-E2.
Qed.

(** The verdict is not affected either. *)
Lemma on_message_in s b i c p : on_message (with_in s b i) c p = in_result (on_message s c p) b i.
Proof.
  unfold in_result. apply injective_projections; cbn [fst snd].
  - change (with_in s b i) with (with_env s b i (total_in_ s) (now_ s) (started_ s)). by rewrite on_message_env.
  - apply (env_in (fun s => (on_message s c p).2)). intros. by rewrite on_message_env.
Qed.

Lemma on_message_clock s t n st c p :
  on_message (with_clock s t n st) c p = clock_result (on_message s c p) t n st.
Proof.
  unfold clock_result. apply injective_projections; cbn [fst snd].
  - change (with_clock s t n st) with (with_env s (in_ s) (in_pos_ s) t n st). by rewrite on_message_env.
  - apply (env_clock (fun s => (on_message s c p).2)). intros. by rewrite on_message_env.
Qed.

Lemma acknowledge_in s b i k : acknowledge (with_in s b i) k = with_in (acknowledge s k) b i.
Proof. apply (env_in (fun s => acknowledge s k)). intros. apply acknowledge_env. Qed.

Lemma acknowledge_clock s t n st k : acknowledge (with_clock s t n st) k = with_clock (acknowledge s k) t n st.
Proof. apply (env_clock (fun s => acknowledge s k)). intros. apply acknowledge_env. Qed.

(** More input after what a session holds. *)
Definition more s (y : bytes) : RtmpSession := with_in s (in_ s ++ y) (in_pos_ s).

Lemma absorb_in s b i csid c pl after :
  in_pos_ s = i -> absorb (with_in s b i) csid c pl after = with_in (absorb s csid c pl after) b after.
Proof. intros <-. unfold absorb. cbn [in_pos_ with_in]. by rewrite acknowledge_in. Qed.

Lemma deliver_in s b i csid c : deliver (with_in s b i) csid c = in_result (deliver s csid c) b i.
Proof. unfold deliver. destruct (_ <=? _); [|done]. by rewrite <-on_message_in. Qed.

(** A chunk is committed, and its message acted on, whatever follows it. *)
Lemma commit_chunk_in s b i csid c pl after :
  in_pos_ s = i -> commit_chunk (with_in s b i) csid c pl after = in_result (commit_chunk s csid c pl after) b after.
Proof.
  intros Hi. unfold commit_chunk, check_out. rewrite absorb_in, deliver_in by done.
  destruct (deliver (absorb _ _ _ _ _) _ _) as [[] s']; [|done]. unfold in_result. cbn [fst snd negb].
  change (to_peer_ (with_in s' b after)) with (to_peer_ s'). by destruct (_ <? _).
Qed.

Lemma commit_chunk_input s csid c pl after :
  in_ (commit_chunk s csid c pl after).2 = in_ s /\ in_pos_ (commit_chunk s csid c pl after).2 = after.
Proof. rewrite <-(with_in_id s) at 1 3. by rewrite commit_chunk_in. Qed.

(** ** Decoding is stable under more input *)

Definition positioned s : Prop := 0 <= in_pos_ s <= len (in_ s) /\ bytes_ok (in_ s) /\ 1 <= in_chunk_ s.

Lemma basic_header_bounds p i fmt csid hdr :
  bytes_ok p -> 0 <= i < len p -> basic_header p i = Some (fmt, csid, hdr) ->
  0 <= fmt <= 3 /\ 2 <= csid /\ 1 <= hdr <= 3 /\ i + hdr <= len p.
Proof.
  intros Hp Hi. unfold basic_header. pose proof (byte_at_ok p i Hp) as Hb. unfold is_byte in Hb.
  assert (Hf : 0 <= Z.shiftr (byte_at p i) 6 <= 3).
  { rewrite Z.shiftr_div_pow2 by lia. change (2 ^ 6) with 64.
    assert (byte_at p i / 64 < 4) by (apply Z.div_lt_upper_bound; lia). pose proof (Z.div_pos (byte_at p i) 64). lia. }
  assert (Hc : 0 <= Z.land (byte_at p i) 63) by (apply Z.land_nonneg; lia).
  pose proof (byte_at_ok p (i + 1) Hp) as H1. pose proof (byte_at_ok p (i + 2) Hp) as H2. unfold is_byte in *.
  destruct (Z.eqb_spec (Z.land (byte_at p i) 63) 0).
  { destruct (Z.ltb_spec (len p) (i + 2)); [done|]. intros [= <- <- <-]. lia. }
  destruct (Z.eqb_spec (Z.land (byte_at p i) 63) 1).
  { destruct (Z.ltb_spec (len p) (i + 3)); [done|]. intros [= <- <- <-]. lia. }
  intros [= <- <- <-]. lia.
Qed.

Lemma basic_header_app p y i r :
  0 <= i < len p -> basic_header p i = Some r -> basic_header (p ++ y) i = Some r.
Proof.
  intros Hi. unfold basic_header. rewrite byte_at_app_l by lia. rewrite length_app.
  destruct (_ =? 0).
  { destruct (Z.ltb_spec (len p) (i + 2)); [done|]. rewrite (proj2 (Z.ltb_ge _ _)) by lia.
    by rewrite byte_at_app_l by lia. }
  destruct (_ =? 1); [|done].
  destruct (Z.ltb_spec (len p) (i + 3)); [done|]. rewrite (proj2 (Z.ltb_ge _ _)) by lia.
  by rewrite !byte_at_app_l by lia.
Qed.

Lemma header_fields_app c fmt h y :
  0 <= fmt <= 3 -> mh fmt <= len h -> header_fields c fmt (h ++ y) = header_fields c fmt h.
Proof.
  intros Hf. unfold header_fields, mh.
  destruct (fmt =? 0); [intros; by rewrite !slice_app_l, byte_at_app_l by lia|].
  destruct (fmt =? 1); [intros; by rewrite slice_app_l, byte_at_app_l by lia|done].
Qed.

Lemma take_nonneg x k : 0 <= k -> 0 <= (if u64 x <? k then u64 x else k).
Proof. intros. pose proof (wrap_range 64 x). destruct (_ <? _); lia. Qed.

Lemma decode_chunk_more s fmt csid hdr y :
  positioned s -> 0 <= fmt <= 3 -> 1 <= hdr -> decode_chunk s fmt csid hdr <> Incomplete ->
  decode_chunk (more s y) fmt csid hdr = decode_chunk s fmt csid hdr.
Proof.
  intros [Hi [_ Hc]] Hf Hh. unfold decode_chunk, chunk_payload, more. cbn [in_ in_pos_ with_in].
  change (stream_at (with_in s (in_ s ++ y) (in_pos_ s)) csid) with (stream_at s csid).
  change (in_chunk_ (with_in s _ _)) with (in_chunk_ s).
  change (assembly_bytes_ (with_in s _ _)) with (assembly_bytes_ s).
  destruct (Z.ltb_spec (len (in_ s)) (in_pos_ s + hdr + mh fmt)) as [|H1]; [done|].
  assert (Hm : 0 <= mh fmt /\ (fmt <= 2 -> 3 <= mh fmt)).
  { unfold mh. destruct (Z.eqb_spec fmt 0), (Z.eqb_spec fmt 1), (Z.eqb_spec fmt 2); lia. }
  rewrite (proj2 (Z.ltb_ge (len (in_ s ++ y)) (in_pos_ s + hdr + mh fmt))) by (rewrite length_app; lia).
  rewrite zdrop_app_le by lia. set (h := zdrop (in_pos_ s + hdr) (in_ s)).
  assert (Hl : mh fmt <= len h) by (unfold h; rewrite length_zdrop; lia).
  rewrite header_fields_app by done.
  assert (E : (if fmt <=? 2 then be_val (slice (h ++ y) 0 3) else ts (stream_at s csid))
    = if fmt <=? 2 then be_val (slice h 0 3) else ts (stream_at s csid))
    by (destruct (Z.leb_spec fmt 2); [by rewrite slice_app_l by lia|done]).
  rewrite E. clear E. set (tf := if fmt <=? 2 then _ else _). set (we := (_ || _)%bool).
  set (pos := in_pos_ s + hdr + mh fmt) in *.
  destruct (we && (len (in_ s) <? pos + 4)) eqn:E; [done|].
  assert (E' : we && (len (in_ s ++ y) <? pos + 4) = false).
  { destruct we; [|done]. cbn in *. reflect_bools. apply Z.ltb_ge. rewrite length_app. lia. }
  rewrite E'. clear E'.
  assert (E' : (if we then be_val (slice (in_ s ++ y) pos 4) else 0) = if we then be_val (slice (in_ s) pos 4) else 0).
  { destruct we; [|done]. cbn in E. reflect_bools. by rewrite slice_app_l by lia. }
  rewrite E'. clear E'. set (ext := if we then be_val _ else 0). set (pos' := if we then pos + 4 else pos).
  assert (Hpos : 0 <= pos' ) by (unfold pos', pos; destruct we; lia).
  destruct (_ <? mlen _); [done|]. destruct (negb (fmt =? 3) && _)%bool; [done|].
  set (rem := u64 _). set (take := if rem <? _ then _ else _).
  assert (Ht : 0 <= take) by (apply take_nonneg; lia).
  destruct (Z.ltb_spec (len (in_ s)) (pos' + take)); [done|]. intros _.
  rewrite (proj2 (Z.ltb_ge (len (in_ s ++ y)) (pos' + take))) by (rewrite length_app; lia).
  rewrite slice_app_l by lia. done.
Qed.

Lemma decode_chunk_after s fmt csid hdr c pl after :
  positioned s -> 0 <= fmt <= 3 -> 1 <= hdr -> decode_chunk s fmt csid hdr = Chunk c pl after ->
  in_pos_ s < after <= len (in_ s) /\ bytes_ok pl.
Proof.
  intros [Hi [Hok Hc]] Hf Hh. unfold decode_chunk, chunk_payload.
  destruct (Z.ltb_spec (len (in_ s)) (in_pos_ s + hdr + mh fmt)) as [|H1]; [done|].
  assert (Hm : 0 <= mh fmt) by (unfold mh; destruct (fmt =? 0), (fmt =? 1), (fmt =? 2); lia).
  destruct (_ && _)%bool; [done|]. destruct (_ <? mlen _); [done|]. destruct (_ && _)%bool; [done|].
  set (rem := u64 (mlen _ - _)). set (take := if rem <? _ then _ else _).
  assert (Ht : 0 <= take) by (apply take_nonneg; lia). set (pos := if (_ || _)%bool then _ + 4 else _).
  assert (Hpos : in_pos_ s < pos) by (unfold pos; destruct (_ || _)%bool; lia).
  destruct (Z.ltb_spec (len (in_ s)) (pos + take)); [done|].
  destruct (RTMP_MAX_ASSEMBLY_BYTES <? _); [done|]. intros [= _ <- <-]. split; [lia|by apply bytes_ok_slice].
Qed.

(** ** The invariant of the buffers *)

Fixpoint held (cs : list ChunkStream) : Z :=
  match cs with [] => 0 | c :: cs => len (acc c) + held cs end.

(** A partial message never reaches its announced length, so [new_len - acc.size()] does
    not go below zero. *)
Definition stream_ok c : Prop :=
  is_u32 (ts c) /\ 0 <= mlen c <= RTMP_MAX_MESSAGE_BYTES
  /\ bytes_ok (acc c) /\ (acc c = [] \/ len (acc c) < mlen c).

Record Wf s : Prop := {
  wf_pos : positioned s;
  wf_chunk : in_chunk_ s <= RTMP_MAX_CHUNK_SIZE;
  wf_count : len (cs_ s) <= RTMP_MAX_CHUNK_STREAM + 1;
  wf_streams : Forall stream_ok (cs_ s);
  wf_held : assembly_bytes_ s = held (cs_ s) /\ held (cs_ s) <= RTMP_MAX_ASSEMBLY_BYTES
}.

(** The fields the invariant speaks of. *)
Definition core s := (in_ s, in_pos_ s, in_chunk_ s, cs_ s, assembly_bytes_ s).

Lemma Wf_core s s' : core s' = core s -> Wf s -> Wf s'.
Proof. intros [= E1 E2 E3 E4 E5] []. split; unfold positioned in *; by rewrite ?E1, ?E2, ?E3, ?E4, ?E5. Qed.

Lemma offer_core s pw : core (offer s pw) = core s.
Proof. destruct pw; cbn; [|done]. by destruct (password_present_ s). Qed.

Lemma on_media_core s t ts p : core (on_media s t ts p) = core s.
Proof. unfold on_media. destruct (_ || _)%bool; [done|]. by destruct (_ && _)%bool. Qed.

(** All a command can change. *)
Definition command_frame s s' : Prop :=
  s' = s <| error_ := error_ s' |> <| state_ := state_ s' |> <| to_peer_ := to_peer_ s' |>
         <| connected_ := connected_ s' |> <| app_ := app_ s' |> <| stream_ := stream_ s' |>
         <| password_ := password_ s' |> <| password_present_ := password_present_ s' |>
         <| publish_txn_ := publish_txn_ s' |> <| publish_sid_ := publish_sid_ s' |>
         <| publish_pending_ := publish_pending_ s' |>.

Lemma command_frame_refl s : command_frame s s.
Proof. by destruct s. Qed.

Lemma command_frame_offer s s' pw : command_frame s s' -> command_frame s (offer s' pw).
Proof. intros H. destruct pw; cbn; [|done]. destruct (password_present_ s'); [done|]. rewrite H. done. Qed.

Lemma on_command_frame s c p : command_frame s (on_command s c p).2.
Proof.
  unfold on_command. destruct (amf_read_string p 0) as [[cmd j]|]; [|done].
  destruct (default (0, j) (amf_read_number p j)) as [txn k].
  case_bool_decide.
  { unfold on_connect. destruct (connected_ s); [done|]. cbn.
    destruct (amf_object_strings _ _ _ _ _ _) as [[] [app u]]; [|done]. cbn [negb snd].
    unfold connect_credential. cbn. destruct (split_credential app) as [a pw].
    set (s0 := offer _ _). assert (Hs : command_frame s s0) by (by apply command_frame_offer).
    clearbody s0. rewrite Hs. done. }
  case_bool_decide; [done|]. destruct (_ || _)%bool; [destruct (_ && _)%bool; [done|apply command_frame_refl]|].
  case_bool_decide.
  { unfold on_fc_publish. destruct (split_credential _) as [name pw]. cbn [snd].
    pose proof (command_frame_offer s s pw (command_frame_refl s)) as Hs. rewrite Hs. done. }
  case_bool_decide; [done|]. case_bool_decide.
  { unfold on_publish. destruct (_ || _)%bool; [done|]. destruct (negb _); [done|].
    destruct (stream_name p k) as [name|]; [|done]. destruct (split_credential name) as [nm pw].
    set (s0 := offer _ _). assert (Hs : command_frame s s0) by (by apply command_frame_offer).
    clearbody s0. cbn [snd]. rewrite Hs. done. }
  destruct (_ || _)%bool; [done|apply command_frame_refl].
Qed.

Lemma on_command_core s c p : core (on_command s c p).2 = core s.
Proof. by rewrite (on_command_frame s c p). Qed.

Lemma held_nonneg cs : 0 <= held cs.
Proof. induction cs; cbn; lia. Qed.

Lemma held_app cs cs' : held (cs ++ cs') = held cs + held cs'.
Proof. induction cs; cbn; lia. Qed.

Lemma held_new n : held (replicate n chunk_stream_new) = 0.
Proof. induction n; cbn; lia. Qed.

Lemma held_insert cs i c c' :
  cs !! i = Some c -> held (<[i := c']> cs) = held cs - len (acc c) + len (acc c').
Proof.
  revert i. induction cs as [|x cs IH]; intros [|i]; [done..| |].
  - intros [= ->]. cbn. lia.
  - intros H. change (<[S i:=c']> (x :: cs)) with (x :: <[i:=c']> cs). cbn [held]. rewrite (IH _ H). lia.
Qed.

Lemma held_member cs i c : cs !! i = Some c -> len (acc c) <= held cs.
Proof. intros H. pose proof (held_insert cs i c chunk_stream_new H). pose proof (held_nonneg (<[i:=chunk_stream_new]> cs)). cbn in *. lia. Qed.

Lemma stream_ok_empty c :
  is_u32 (ts c) -> 0 <= mlen c <= RTMP_MAX_MESSAGE_BYTES -> acc c = [] -> stream_ok c.
Proof. intros ? ? E. split; [done|]. rewrite E. split; [done|]. by split; [|left]. Qed.

Lemma stream_new_ok : stream_ok chunk_stream_new.
Proof. unfold stream_ok. split_and!; [decide_vm|by vm_compute..|done|by left]. Qed.

Lemma stream_at_lookup s csid : 0 <= csid < len (cs_ s) -> cs_ s !! Z.to_nat csid = Some (stream_at s csid).
Proof.
  intros H. unfold stream_at. rewrite nth_lookup.
  destruct (lookup_lt_is_Some_2 (cs_ s) (Z.to_nat csid)) as [c ->]; [lia|done].
Qed.

Lemma stream_at_ok s csid : Wf s -> 0 <= csid -> stream_ok (stream_at s csid).
Proof.
  intros H Hc. destruct (Z_lt_le_dec csid (len (cs_ s))).
  - eapply list.Forall_lookup_1; [apply (wf_streams _ H)|]. by apply stream_at_lookup.
  - unfold stream_at. rewrite nth_overflow by lia. apply stream_new_ok.
Qed.

Lemma resize_Wf s csid :
  Wf s -> 0 <= csid <= RTMP_MAX_CHUNK_STREAM ->
  Wf (resize_streams s csid) /\ csid < len (cs_ (resize_streams s csid)).
Proof.
  intros H Hc. unfold resize_streams. destruct (Z.leb_spec (len (cs_ s)) csid); [|by split; [|lia]].
  split; [|cbn; rewrite length_app, length_replicate; lia].
  destruct H as [H1 H2 H3 H4 [H5 H6]]. split; cbn; try done.
  - rewrite length_app, length_replicate. lia.
  - apply Forall_app. split; [done|]. apply Forall_replicate, stream_new_ok.
  - rewrite held_app, held_new. lia.
Qed.

Lemma set_stream_Wf s csid c n :
  Wf s -> 0 <= csid < len (cs_ s) -> stream_ok c ->
  n = assembly_bytes_ s - len (acc (stream_at s csid)) + len (acc c) -> n <= RTMP_MAX_ASSEMBLY_BYTES ->
  Wf (set_stream (s <| assembly_bytes_ := n |>) csid c).
Proof.
  intros [H1 H2 H3 H4 [H5 H6]] Hc Hok -> Hn. split; cbn; try done.
  - by rewrite length_insert.
  - by apply Forall_insert.
  - rewrite (held_insert _ _ (stream_at s csid)) by (by apply stream_at_lookup). split; lia.
Qed.

Lemma header_acc c fmt h tf ext : acc (header_times (header_fields c fmt h) fmt tf ext) = acc c.
Proof. unfold header_times, header_fields. by repeat case_match. Qed.

Lemma header_mlen c fmt h tf ext :
  bytes_ok h -> 0 <= fmt <= 3 -> 0 <= mlen c ->
  let c' := header_times (header_fields c fmt h) fmt tf ext in 0 <= mlen c' /\ (fmt = 3 -> mlen c' = mlen c).
Proof.
  intros Hh Hf Hc. assert (Hb : 0 <= be_val (slice h 3 3)) by (by apply be_val_range, bytes_ok_slice).
  unfold header_times, header_fields. cbv zeta. repeat case_match; reflect_bools; cbn; split; lia.
Qed.

Lemma header_ts c fmt h tf ext :
  is_u32 (ts c) -> 0 <= tf < 2 ^ 24 -> is_u32 ext ->
  is_u32 (ts (header_times (header_fields c fmt h) fmt tf ext)).
Proof.
  intros Hc Ht He. assert (Hw : forall z, is_u32 (u32 z)) by (intros; by apply wrap_range).
  assert (Htf : is_u32 tf) by (unfold is_u32; lia).
  unfold header_times, header_fields. cbv zeta. repeat case_match; cbn; done.
Qed.

Lemma be_val_slice p i n : bytes_ok p -> 0 <= n -> 0 <= be_val (slice p i n) < 256 ^ n.
Proof.
  intros Hp Hn. pose proof (be_val_range _ (bytes_ok_slice p i n Hp)) as Hb. split; [lia|].
  eapply Z.lt_le_trans; [apply Hb|]. apply Z.pow_le_mono_r; [lia|].
  unfold slice. rewrite length_take. lia.
Qed.

Lemma decode_chunk_ts s fmt csid hdr c pl after :
  Wf s -> 0 <= csid -> 0 <= fmt <= 3 -> decode_chunk s fmt csid hdr = Chunk c pl after -> is_u32 (ts c).
Proof.
  intros H Hs Hf. pose proof (stream_at_ok s csid H Hs) as (Hts & _).
  pose proof (wf_pos _ H) as [_ [Hok _]]. unfold decode_chunk, chunk_payload.
  destruct (_ <? _); [done|]. set (tf := if fmt <=? 2 then _ else _). set (we := (_ || _)%bool). destruct (we && _); [done|].
  set (ext := if we then _ else 0). set (pos := if we then _ + 4 else _).
  set (h := zdrop _ _) in *. set (c' := header_times _ _ _ _).
  assert (He : is_u32 ext) by (unfold ext; destruct we; [apply (be_val_slice _ _ 4); [done|lia]|unfold is_u32; lia]).
  assert (Hc' : is_u32 (ts c')).
  { unfold c'. destruct (Z.leb_spec fmt 2) as [Hf2|Hf2].
    - apply header_ts; [done| |done]. unfold tf.
      apply (be_val_slice h 0 3); [by apply bytes_ok_drop|lia].
    - assert (fmt = 3) as E by lia. clearbody tf ext h. clear -Hts E.
      unfold header_times. rewrite E. cbn. case_match; [by apply wrap_range|done]. }
  destruct (_ <? mlen _); [done|]. destruct (negb (fmt =? 3) && _)%bool; [done|].
  set (rem := u64 _). set (take := if rem <? _ then _ else _).
  destruct (_ <? pos + take); [done|]. destruct (RTMP_MAX_ASSEMBLY_BYTES <? _); [done|]. by intros [= <- _ _].
Qed.

(** What a chunk that is committed satisfies. *)
Lemma decode_chunk_ok s fmt csid hdr c pl after :
  Wf s -> 0 <= fmt <= 3 -> 1 <= hdr -> 0 <= csid ->
  decode_chunk s fmt csid hdr = Chunk c pl after ->
  acc c = acc (stream_at s csid) /\ 0 <= mlen c <= RTMP_MAX_MESSAGE_BYTES
  /\ len (acc c) + len pl <= mlen c /\ assembly_bytes_ s + len pl <= RTMP_MAX_ASSEMBLY_BYTES.
Proof.
  intros H Hf Hh Hs E. pose proof (stream_at_ok s csid H Hs) as (_ & Hl & _ & Ha).
  pose proof (wf_pos _ H) as Hpos. pose proof Hpos as [_ [Hok Hc]]. pose proof (wf_chunk _ H) as Hc2.
  pose proof (decode_chunk_after _ _ _ _ _ _ _ Hpos Hf Hh E) as [Haft _]. revert E. unfold decode_chunk, chunk_payload.
  destruct (Z.ltb_spec (len (in_ s)) (in_pos_ s + hdr + mh fmt)) as [|H1]; [done|].
  set (tf := if fmt <=? 2 then _ else _). set (we := (_ || _)%bool). destruct (we && _); [done|].
  set (ext := if we then _ else 0). set (pos := if we then _ + 4 else _).
  set (h := zdrop _ _). set (c' := header_times _ _ _ _).
  assert (Hacc : acc c' = acc (stream_at s csid)) by apply header_acc.
  assert (Hm : 0 <= mlen c' /\ (fmt = 3 -> mlen c' = mlen (stream_at s csid)))
    by (apply header_mlen; [by apply bytes_ok_drop|done|lia]).
  destruct (Z.ltb_spec RTMP_MAX_MESSAGE_BYTES (mlen c')); [done|].
  destruct (negb (fmt =? 3) && _)%bool eqn:E3; [done|].
  set (rem := u64 _). set (take := if rem <? _ then _ else _).
  destruct (Z.ltb_spec (len (in_ s)) (pos + take)); [done|].
  destruct (Z.ltb_spec RTMP_MAX_ASSEMBLY_BYTES (u64 (assembly_bytes_ s + take))) as [|Hasm]; [done|].
  intros [= <- <- <-]. rewrite Hacc.
  assert (Hr : len (acc (stream_at s csid)) <= mlen c').
  { destruct (Z.eqb_spec fmt 3) as [->|]; cbn in E3.
    - rewrite (proj2 Hm) by done. destruct Ha as [->|]; cbn; lia.
    - reflect_bools. lia. }
  assert (Erem : rem = mlen c' - len (acc (stream_at s csid)))
    by (apply wrap_small; unfold RTMP_MAX_MESSAGE_BYTES in *; lia).
  assert (Ht : 0 <= take <= rem /\ take <= RTMP_MAX_CHUNK_SIZE) by (unfold take; destruct (Z.ltb_spec rem (in_chunk_ s)); lia).
  assert (Hpl : len (slice (in_ s) pos take) <= take) by (unfold slice; rewrite length_take; lia).
  pose proof (wf_held _ H) as [Hh1 Hh2]. pose proof (held_nonneg (cs_ s)).
  rewrite wrap_small in Hasm by (unfold RTMP_MAX_ASSEMBLY_BYTES, RTMP_MAX_CHUNK_SIZE in *; lia).
  split_and!; [done|lia|done|lia|lia].
Qed.

Lemma on_message_Wf s c p : Wf s -> bytes_ok p -> Wf (on_message s c p).2.
Proof.
  intros H Hp. unfold on_message.
  destruct (_ =? 1).
  { unfold set_chunk_size. destruct (_ <? _); [by apply (Wf_core s)|].
    assert (Hv : 0 <= Z.land (be_val (slice p 0 4)) 0x7fffffff) by (apply Z.land_nonneg; lia).
    set (v := Z.land _ _) in *. destruct (Z.eqb_spec v 0); [by apply (Wf_core s)|].
    destruct (Z.ltb_spec RTMP_MAX_CHUNK_SIZE v); [by apply (Wf_core s)|].
    destruct H as [(? & ? & ?) ? ? ? ?]. split; cbn; try done. unfold positioned. cbn. split_and!; [lia|lia|done|lia]. }
  destruct (_ =? 2).
  { unfold abort_message. destruct (_ <=? _); [|done].
    pose proof (be_val_range (slice p 0 4) (bytes_ok_slice _ _ _ Hp)) as Hi. set (id := be_val _) in *.
    destruct (Z.ltb_spec id (len (cs_ s))); [|done]. cbn [snd].
    pose proof (stream_at_lookup s id ltac:(lia)) as Hl. pose proof (held_member _ _ _ Hl) as Hm.
    pose proof (stream_at_ok s id H ltac:(lia)) as (? & ? & _). pose proof (wf_held _ H) as [Ha Hb].
    apply set_stream_Wf; [done|lia|by apply stream_ok_empty|..]; unfold RTMP_MAX_ASSEMBLY_BYTES in *;
      rewrite wrap_small; cbn; lia. }
  destruct (_ =? 3); [done|]. destruct (_ || _)%bool; [unfold set_window; destruct (_ <=? _); by apply (Wf_core s)|].
  destruct (_ =? 4); [unfold user_control; destruct (_ && _)%bool; by apply (Wf_core s)|].
  destruct (_ || _)%bool; [apply (Wf_core s); [apply on_media_core|done]|].
  destruct (_ =? 20); [apply (Wf_core s); [apply on_command_core|done]|done].
Qed.

Lemma acknowledge_core s n : core (acknowledge s n) = core s.
Proof. unfold acknowledge. by destruct (_ && _)%bool. Qed.

Lemma with_in_Wf s after : Wf s -> in_pos_ s < after <= len (in_ s) -> Wf (with_in s (in_ s) after).
Proof. intros [(? & ? & ?) ? ? ? ?] Ha. split; cbn; try done. unfold positioned. cbn. split_and!; done || lia. Qed.

(** [absorb] is one update of a well-formed session. *)
Lemma absorb_shape s csid c pl after :
  exists s0, core s0 = core (with_in s (in_ s) after)
  /\ absorb s csid c pl after = set_stream (s0 <| assembly_bytes_ := u64 (assembly_bytes_ s + len pl) |>) csid c.
Proof.
  pose proof (acknowledge_core s (after - in_pos_ s)) as [= E1 E2 E3 E4 E5].
  exists (with_in (acknowledge s (after - in_pos_ s)) (in_ s) after). unfold core. cbn.
  split; [by rewrite E3, E4, E5|]. unfold absorb, set_stream. cbn. by rewrite E1, E5.
Qed.

Lemma stream_at_core s s' csid : core s' = core s -> stream_at s' csid = stream_at s csid.
Proof. intros [= _ _ _ E _]. unfold stream_at. by rewrite E. Qed.

Lemma deliver_Wf s fmt csid hdr c pl after :
  Wf s -> 0 <= fmt <= 3 -> 1 <= hdr -> 0 <= csid < len (cs_ s) ->
  decode_chunk s fmt csid hdr = Chunk c pl after ->
  let c' := c <| acc := acc c ++ pl |> in Wf (deliver (absorb s csid c' pl after) csid c').2.
Proof.
  intros H Hf Hh Hc E. cbv zeta.
  destruct (decode_chunk_after _ _ _ _ _ _ _ (wf_pos _ H) Hf Hh E) as [Haft Hpl].
  destruct (decode_chunk_ok _ _ _ _ _ _ _ H Hf Hh (proj1 Hc) E) as (Ea & Hm & Hle & Hasm).
  set (c' := c <| acc := acc c ++ pl |>).
  destruct (absorb_shape s csid c' pl after) as (s0 & Hs0 & ->).
  assert (W0 : Wf s0) by (apply (Wf_core _ _ Hs0), with_in_Wf; done).
  assert (Hst : stream_at s0 csid = stream_at s csid) by (by rewrite (stream_at_core _ _ _ Hs0)).
  injection Hs0 as E1 E2 E3 E4 E5. cbn in E1, E2, E3, E4, E5.
  pose proof (wf_held _ H) as [Hw1 Hw2]. pose proof (held_nonneg (cs_ s)).
  pose proof (held_member _ _ _ (stream_at_lookup s csid Hc)) as Hmem.
  assert (Hbo : bytes_ok (acc c')).
  { cbn. apply bytes_ok_app. split; [|done]. rewrite Ea. by apply (stream_at_ok s csid H (proj1 Hc)). }
  assert (Hts : is_u32 (ts c')) by exact (decode_chunk_ts s fmt csid hdr c pl after H (proj1 Hc) Hf E).
  assert (Hl : len (acc c') = len (acc (stream_at s csid)) + len pl) by (cbn; rewrite length_app, Ea; lia).
  rewrite wrap_small by (unfold RTMP_MAX_ASSEMBLY_BYTES in *; lia).
  unfold deliver. destruct (Z.leb_spec (mlen c') (len (acc c'))).
  - apply on_message_Wf.
    + apply (Wf_core (set_stream (s0 <| assembly_bytes_ := u64 (assembly_bytes_ s + len pl - len (acc c')) |>)
        csid (c' <| acc := ([] : bytes) |>))).
      { unfold core, set_stream. cbn. by rewrite list_insert_insert_eq. }
      apply set_stream_Wf; [done|by rewrite E4|by apply stream_ok_empty|..]; cbn [assembly_bytes_ set_stream];
        rewrite wrap_small; rewrite ?Hst, ?E5; cbn [acc length]; unfold RTMP_MAX_ASSEMBLY_BYTES in *; lia.
    + done.
  - apply set_stream_Wf; [done|by rewrite E4| |rewrite Hst, E5; lia|lia].
    split; [done|]. split; [done|]. split; [done|right; lia].
Qed.

(** ** One step of the parser *)

(** A handler either goes on or kills the session. *)
Definition goes_on s (r : bool * RtmpSession) : Prop :=
  state_ r.2 = if r.1 then state_ s else RTMP_DEAD.

Lemma offer_state s pw : state_ (offer s pw) = state_ s.
Proof. destruct pw; cbn; [|done]. by destruct (password_present_ s). Qed.

Lemma on_command_goes_on s c p : goes_on s (on_command s c p).
Proof.
  unfold on_command, goes_on. destruct (amf_read_string p 0) as [[cmd j]|]; [|done].
  destruct (default (0, j) (amf_read_number p j)) as [txn k].
  case_bool_decide.
  { unfold on_connect. destruct (connected_ s); [done|].
    destruct (amf_object_strings _ _ _ _ _ _) as [[] [app u]]; [|done]. cbn [negb fst snd].
    change (state_ (send_connect ?x txn)) with (state_ x). unfold connect_credential. cbn.
    destruct (split_credential app) as [a pw]. by rewrite offer_state. }
  case_bool_decide; [done|]. destruct (_ || _)%bool; [by destruct (_ && _)%bool|].
  case_bool_decide; [unfold on_fc_publish; destruct (split_credential _) as [name pw]; apply (offer_state s pw)|].
  case_bool_decide; [done|]. case_bool_decide.
  { unfold on_publish. destruct (_ || _)%bool; [done|]. destruct (negb _); [done|].
    destruct (stream_name p k) as [name|]; [|done]. destruct (split_credential name) as [st pw].
    apply (offer_state (s <| stream_ := st |>) pw). }
  by destruct (_ || _)%bool.
Qed.

Lemma on_message_goes_on s c p : goes_on s (on_message s c p).
Proof.
  unfold on_message, goes_on. destruct (_ =? 1).
  { unfold set_chunk_size. destruct (_ <? _); [done|]. by destruct (_ || _)%bool. }
  destruct (_ =? 2); [unfold abort_message; destruct (_ <=? _); [by destruct (_ <? _)|done]|].
  destruct (_ =? 3); [done|]. destruct (_ || _)%bool; [unfold set_window; by destruct (_ <=? _)|].
  destruct (_ =? 4); [unfold user_control; by destruct (_ && _)%bool|].
  destruct (_ || _)%bool.
  { unfold on_media. destruct (_ || _)%bool; [done|]. by destruct (_ && _)%bool. }
  destruct (_ =? 20); [apply on_command_goes_on|done].
Qed.

Lemma commit_chunk_goes_on s csid c pl after : goes_on s (commit_chunk s csid c pl after).
Proof.
  assert (Ha : forall c0, state_ (absorb s csid c0 pl after) = state_ s).
  { intros c0. unfold absorb, set_stream. cbn. unfold acknowledge. by destruct (_ && _)%bool. }
  unfold commit_chunk, check_out, goes_on. specialize (Ha (c <| acc := acc c ++ pl |>)). set (s0 := absorb _ _ _ _ _) in *.
  assert (Hd : goes_on s (deliver s0 csid (c <| acc := acc c ++ pl |>))).
  { unfold goes_on, deliver. destruct (_ <=? _); [|apply Ha].
    match goal with |- context [on_message ?s1 ?c ?p] => pose proof (on_message_goes_on s1 c p) as Ho end.
    unfold goes_on in Ho. rewrite Ho. cbn [state_ set_stream]. by rewrite Ha. }
  unfold goes_on in Hd. destruct (deliver _ _ _) as [[] s']; [|done]. cbn in *. by destruct (_ <? _).
Qed.

Lemma commit_chunk_false s csid c pl after :
  (commit_chunk s csid c pl after).1 = false -> state_ (commit_chunk s csid c pl after).2 = RTMP_DEAD.
Proof. intros H. pose proof (commit_chunk_goes_on s csid c pl after) as Hg. unfold goes_on in Hg. by rewrite H in Hg. Qed.

Lemma parse_step_alive s s' : parse_step s = (true, s') -> state_ s <> RTMP_DEAD -> state_ s' <> RTMP_DEAD.
Proof.
  unfold parse_step. case_bool_decide as Hst.
  - unfold parse_chunks. destruct (_ <=? _); [done|]. destruct (basic_header _ _) as [[[fmt csid] hdr]|]; [|done].
    destruct (_ <? _); [done|]. destruct (decode_chunk _ _ _ _) as [| |c pl after]; [done..|].
    pose proof (commit_chunk_goes_on (resize_streams s csid) csid c pl after) as Hg. unfold goes_on in Hg.
    intros E. rewrite E in Hg. cbn in Hg. rewrite Hg. unfold resize_streams. by destruct (_ <=? _).
  - unfold do_handshake. case_bool_decide.
    + destruct (_ <? _); [done|]. destruct (negb _); [done|]. intros E%(f_equal snd). cbn [snd] in E. by rewrite <-E.
    + destruct (_ <? _); [done|]. intros E%(f_equal snd). cbn [snd] in E. by rewrite <-E.
Qed.

Lemma fail_Wf s why : Wf s -> Wf (fail s why).
Proof. by apply Wf_core. Qed.

(** What one step keeps, and that a step that goes on has consumed something. *)
Record stepped s (ok : bool) s' : Prop := {
  st_Wf : Wf s';
  st_in : in_ s' = in_ s;
  st_pos : in_pos_ s <= in_pos_ s';
  st_progress : ok = true -> in_pos_ s < in_pos_ s'
}.

Lemma resize_core s csid : in_ (resize_streams s csid) = in_ s /\ in_pos_ (resize_streams s csid) = in_pos_ s
  /\ state_ (resize_streams s csid) = state_ s.
Proof. unfold resize_streams. by destruct (_ <=? _). Qed.

Lemma parse_chunks_stepped s : Wf s -> stepped s (parse_chunks s).1 (parse_chunks s).2.
Proof.
  intros H. pose proof (wf_pos _ H) as Hpos. pose proof Hpos as (Hi & Hok & Hc). unfold parse_chunks.
  destruct (Z.leb_spec (len (in_ s)) (in_pos_ s)); [by split|].
  destruct (basic_header (in_ s) (in_pos_ s)) as [[[fmt csid] hdr]|] eqn:Eb; [|by split].
  apply basic_header_bounds in Eb as (Hf & Hcs & Hh & Hle); [|done|lia].
  destruct (Z.ltb_spec RTMP_MAX_CHUNK_STREAM csid); [split; [by apply fail_Wf|done|done|done]|].
  destruct (resize_Wf s csid H) as [Hr Hlt]; [lia|]. destruct (resize_core s csid) as (E1 & E2 & _).
  destruct (decode_chunk _ _ _ _) as [|why|c pl after] eqn:Ed.
  - by split; cbn; rewrite ?E1, ?E2.
  - by split; cbn; [apply fail_Wf|rewrite ?E1, ?E2..].
  - pose proof (deliver_Wf (resize_streams s csid) fmt csid hdr c pl after Hr Hf (proj1 Hh) ltac:(lia) Ed) as Hd. cbv zeta in Hd.
    destruct (decode_chunk_after _ _ _ _ _ _ _ (wf_pos _ Hr) Hf (proj1 Hh) Ed) as [Haft _].
    destruct (commit_chunk_input (resize_streams s csid) csid c pl after) as [I1 I2].
    rewrite E1, E2 in *. split; [|done|lia|lia].
    revert Hd. unfold commit_chunk, check_out. destruct (deliver _ _ _) as [[] s']; [|done]. cbn.
    destruct (_ <? _); [apply fail_Wf|done].
Qed.

Lemma do_handshake_stepped s : Wf s -> stepped s (do_handshake s).1 (do_handshake s).2.
Proof.
  intros H. pose proof (wf_pos _ H) as (Hi & Hok & Hc). unfold do_handshake.
  case_bool_decide.
  - destruct (Z.ltb_spec (len (in_ s) - in_pos_ s) 1537); [by split|].
    destruct (negb _); [split; [by apply fail_Wf|done..]|].
    split; cbn; [|done|lia|lia]. apply (Wf_core (with_in s (in_ s) (in_pos_ s + 1537))); [done|].
    apply with_in_Wf; [done|lia].
  - destruct (Z.ltb_spec (len (in_ s) - in_pos_ s) 1536); [by split|].
    split; cbn; [|done|lia|lia]. apply (Wf_core (with_in s (in_ s) (in_pos_ s + 1536))); [done|].
    apply with_in_Wf; [done|lia].
Qed.

Lemma parse_step_stepped s : Wf s -> stepped s (parse_step s).1 (parse_step s).2.
Proof. intros H. unfold parse_step. case_bool_decide; [by apply parse_chunks_stepped|by apply do_handshake_stepped]. Qed.

(** ** The same step with more input behind it *)

Lemma more_resize s y csid : resize_streams (more s y) csid = more (resize_streams s csid) y.
Proof. unfold resize_streams, more. cbn [cs_ with_in]. by destruct (_ <=? _). Qed.

Lemma resize_twice s csid :
  csid < len (cs_ (resize_streams s csid)) -> resize_streams (resize_streams s csid) csid = resize_streams s csid.
Proof.
  intros H. set (s' := resize_streams s csid) in *. unfold resize_streams.
  by rewrite (proj2 (Z.leb_gt (len (cs_ s')) csid)) by done.
Qed.

(** Either the step is the same, or it was waiting, and then nothing it did matters. *)
Definition extends s (step : RtmpSession -> bool * RtmpSession) : Prop :=
  forall y r, step s = r ->
  (step (more s y) = (r.1, more r.2 y) /\ (r.1 = false -> state_ r.2 = RTMP_DEAD))
  \/ r.1 = false /\ state_ r.2 <> RTMP_DEAD /\ state_ r.2 = state_ s /\ in_pos_ r.2 = in_pos_ s
     /\ step (more s y) = step (more r.2 y).

Lemma parse_chunks_extends s : Wf s -> state_ s = RTMP_CHUNKS -> extends s parse_chunks.
Proof.
  intros H Hst y r Er. pose proof (wf_pos _ H) as Hpos. pose proof Hpos as (Hi & Hok & Hc).
  unfold parse_chunks in Er.
  destruct (Z.leb_spec (len (in_ s)) (in_pos_ s)); [right; subst r; cbn; by rewrite Hst|].
  destruct (basic_header (in_ s) (in_pos_ s)) as [[[fmt csid] hdr]|] eqn:Eb; [|right; subst r; cbn; by rewrite Hst].
  pose proof (basic_header_app (in_ s) y (in_pos_ s) _ ltac:(lia) Eb) as Eb'.
  apply basic_header_bounds in Eb as (Hf & Hcs & Hh & Hle); [|done|lia].
  assert (Hmore : forall s', in_ s' = in_ s -> in_pos_ s' = in_pos_ s -> parse_chunks (more s' y)
    = if RTMP_MAX_CHUNK_STREAM <? csid then (false, more (fail s' (bs "chunk stream id out of range")) y)
      else match decode_chunk (more (resize_streams s' csid) y) fmt csid hdr with
           | Incomplete => (false, more (resize_streams s' csid) y)
           | Refused why => (false, more (fail (resize_streams s' csid) why) y)
           | Chunk c payload after => commit_chunk (more (resize_streams s' csid) y) csid c payload after
           end).
  { intros s' E1 E2. unfold parse_chunks.
    change (in_ (more s' y)) with (in_ s' ++ y). change (in_pos_ (more s' y)) with (in_pos_ s').
    rewrite E1, E2, Eb', (proj2 (Z.leb_gt _ _)) by (rewrite length_app; lia). by rewrite more_resize. }
  rewrite (Hmore s) by done.
  destruct (Z.ltb_spec RTMP_MAX_CHUNK_STREAM csid) as [|Hcsid]; [left; by subst r|].
  destruct (resize_Wf s csid H) as [Hr Hlt]; [lia|]. destruct (resize_core s csid) as (E1 & E2 & E3).
  destruct (decode_chunk (resize_streams s csid) fmt csid hdr) as [|why|c pl after] eqn:Ed; subst r.
  - right. cbn [fst snd]. rewrite E3, Hst. split_and!; [done..|].
    rewrite (Hmore (resize_streams s csid)) by done. by rewrite resize_twice.
  - left. split; [|done]. rewrite decode_chunk_more; [by rewrite Ed|apply Hr|done|lia|by rewrite Ed].
  - left. split; [|apply commit_chunk_false]. rewrite decode_chunk_more; [rewrite Ed|apply Hr|done|lia|by rewrite Ed].
    pose proof (commit_chunk_input (resize_streams s csid) csid c pl after) as [I1 I2].
    unfold more. rewrite commit_chunk_in by done. unfold in_result. by rewrite I1, I2.
Qed.

Lemma do_handshake_extends s : Wf s -> state_ s <> RTMP_DEAD -> extends s do_handshake.
Proof.
  intros H Hst y r Er. pose proof (wf_pos _ H) as (Hi & Hok & Hc). unfold do_handshake in Er.
  case_bool_decide as E.
  - destruct (Z.ltb_spec (len (in_ s) - in_pos_ s) 1537); [right; by subst r|left].
    unfold do_handshake, more. cbn [state_ in_ in_pos_ with_in]. rewrite bool_decide_true by done.
    rewrite (proj2 (Z.ltb_ge _ _)) by (rewrite length_app; lia). rewrite byte_at_app_l, slice_app_l by lia.
    by destruct (negb _); subst r.
  - destruct (Z.ltb_spec (len (in_ s) - in_pos_ s) 1536); [right; by subst r|left].
    unfold do_handshake, more. cbn [state_ in_ in_pos_ with_in]. rewrite bool_decide_false by done.
    rewrite (proj2 (Z.ltb_ge _ _)) by (rewrite length_app; lia). by subst r.
Qed.

Lemma parse_step_extends s : Wf s -> state_ s <> RTMP_DEAD -> extends s parse_step.
Proof.
  intros H Hst y r Er. unfold parse_step in Er. case_bool_decide as E.
  - destruct (parse_chunks_extends s H E y r Er) as [[El Hf]|(H1 & H2 & H3 & H4 & El)].
    + left. split; [|done]. unfold parse_step. by rewrite bool_decide_true.
    + right. unfold parse_step. by rewrite !bool_decide_true by (cbn; congruence).
  - destruct (do_handshake_extends s H Hst y r Er) as [[El Hf]|(H1 & H2 & H3 & H4 & El)].
    + left. split; [|done]. unfold parse_step. by rewrite bool_decide_false.
    + right. unfold parse_step. by rewrite !bool_decide_false by (cbn; congruence).
Qed.

(** ** The loop *)

(** Enough fuel for what is left to read; the rest is unused. *)
Lemma parse_loop_fuel n m s :
  Wf s -> len (in_ s) - in_pos_ s < Z.of_nat n -> len (in_ s) - in_pos_ s < Z.of_nat m ->
  parse_loop n s = parse_loop m s.
Proof.
  revert m s. induction n as [|n IH]; intros [|m] s H Hn Hm; pose proof (wf_pos _ H) as (Hi & _); try lia.
  cbn [parse_loop]. destruct (bool_decide _); [done|].
  destruct (parse_step_stepped s H) as [W E1 E2 E3]. destruct (parse_step s) as [[] s']; [|done]. cbn in *.
  destruct (_ || _)%bool; [done|]. apply IH; [done|rewrite E1; lia..].
Qed.

Lemma more_Wf s y : Wf s -> bytes_ok y -> Wf (more s y).
Proof.
  intros [(? & ? & ?) ? ? ? ?] Hy. split; cbn; try done. unfold positioned. cbn.
  rewrite length_app. split_and!; [lia|lia|by apply bytes_ok_app|done].
Qed.

Lemma parse_loop_step n s :
  parse_loop (S n) s
  = if bool_decide (state_ s = RTMP_DEAD) then (false, s)
    else match parse_step s with
         | (false, s') => (negb (bool_decide (state_ s' = RTMP_DEAD)), s')
         | (true, s') => if publish_pending_ s' || (in_pos_ s' =? in_pos_ s) then (true, compact s')
                         else parse_loop n s'
         end.
Proof. done. Qed.

Lemma compact_pending s : publish_pending_ (compact s) = publish_pending_ s.
Proof. unfold compact. destruct (_ =? _); [done|]. by destruct (_ <? _). Qed.

(** A loop that stops alive with no publish pending was waiting for more input, and given
    more goes on as if it had been there from the start. *)
Lemma parse_loop_more n s s' y :
  Wf s -> bytes_ok y -> len (in_ s) - in_pos_ s < Z.of_nat n ->
  parse_loop n s = (true, s') -> publish_pending_ s' = false ->
  Wf s' /\ in_ s' = in_ s /\ in_pos_ s <= in_pos_ s' /\ state_ s' <> RTMP_DEAD
  /\ parse_loop (n + length y) (more s y) = parse_loop (n + length y) (more s' y).
Proof.
  revert s. induction n as [|n IH]; intros s H Hy Hn; [done|]. rewrite parse_loop_step.
  case_bool_decide as Hd; [done|]. destruct (parse_step_stepped s H) as [W E1 E2 E3].
  destruct (parse_step s) as [[] s1] eqn:Es; cbn [fst snd] in *.
  - rewrite (proj2 (Z.eqb_neq _ _)) by (specialize (E3 eq_refl); lia). rewrite orb_false_r.
    destruct (publish_pending_ s1) eqn:Ep.
    + intros [= <-]. rewrite compact_pending. congruence.
    + intros Hl Hp. specialize (E3 eq_refl).
      destruct (IH s1 W Hy ltac:(rewrite E1; lia) Hl Hp) as (W' & I1 & I2 & I3 & I4).
      split_and!; [done|congruence|lia|done|]. cbn [Nat.add]. rewrite parse_loop_step.
      change (state_ (more s y)) with (state_ s). rewrite bool_decide_false by done.
      destruct (parse_step_extends s H Hd y _ Es) as [[El _]|(? & _)]; [|done]. rewrite El. cbn [fst snd].
      change (publish_pending_ (more s1 y)) with (publish_pending_ s1).
      change (in_pos_ (more ?x y)) with (in_pos_ x).
      rewrite Ep, (proj2 (Z.eqb_neq _ _)) by lia. cbn [orb]. rewrite I4.
      assert (W2 : Wf (more s' y)) by (by apply more_Wf).
      apply (parse_loop_fuel (n + length y) (S (n + length y))); [done|..];
        cbn [more in_ in_pos_ with_in]; rewrite length_app, I1, E1; lia.
  - intros [= Ha <-] Hp. apply negb_true_iff, bool_decide_eq_false in Ha.
    split_and!; [done|done|done|done|].
    destruct (parse_step_extends s H Hd y _ Es) as [[_ Hf]|(_ & _ & Hst & Hps & El)]; [by specialize (Hf eq_refl)|].
    cbn [Nat.add snd] in *. rewrite !parse_loop_step. change (state_ (more ?x y)) with (state_ x).
    rewrite !bool_decide_false by congruence. rewrite El.
    change (in_pos_ (more ?x y)) with (in_pos_ x). by rewrite Hps.
Qed.

Lemma compact_Wf s : Wf s -> Wf (compact s).
Proof.
  intros [(? & ? & ?) ? ? ? ?]. unfold compact. destruct (Z.eqb_spec (in_pos_ s) (len (in_ s))).
  { by split. }
  destruct (Z.ltb_spec 65536 (in_pos_ s)); [|by split].
  split; cbn; try done. unfold positioned. cbn. rewrite length_zdrop.
  split_and!; [lia|lia|by apply bytes_ok_drop|done].
Qed.

(** How much the parser can leave unread: less than one handshake block or chunk. *)
Definition unread s : Z := len (in_ s) - in_pos_ s.
Definition unread_max s : Z := Z.max 1537 (18 + in_chunk_ s).

Lemma resize_chunk s csid : in_chunk_ (resize_streams s csid) = in_chunk_ s.
Proof. unfold resize_streams. by destruct (_ <=? _). Qed.

Lemma decode_incomplete s fmt csid hdr :
  Wf s -> 0 <= fmt <= 3 -> 1 <= hdr <= 3 -> decode_chunk s fmt csid hdr = Incomplete -> unread s < 18 + in_chunk_ s.
Proof.
  intros H Hf Hh. pose proof (wf_pos _ H) as (Hi & Hok & Hc). unfold decode_chunk, chunk_payload, unread.
  assert (Hm : 0 <= mh fmt <= 11) by (unfold mh; destruct (fmt =? 0), (fmt =? 1), (fmt =? 2); lia).
  destruct (Z.ltb_spec (len (in_ s)) (in_pos_ s + hdr + mh fmt)); [lia|].
  set (we := (_ || _)%bool). destruct (we && _) eqn:Ew; [destruct we; [cbn in Ew; reflect_bools; lia|done]|].
  set (pos := if we then _ + 4 else _).
  assert (Hp : pos <= in_pos_ s + 18) by (unfold pos; destruct we; lia). clearbody pos.
  destruct (_ <? mlen _); [done|]. destruct (negb (fmt =? 3) && _)%bool; [done|]. set (rem := u64 _).
  set (take := if rem <? _ then _ else _).
  assert (Ht : take <= in_chunk_ s) by (unfold take; destruct (Z.ltb_spec rem (in_chunk_ s)); lia). clearbody take.
  destruct (Z.ltb_spec (len (in_ s)) (pos + take)); [lia|]. by destruct (RTMP_MAX_ASSEMBLY_BYTES <? _).
Qed.

Lemma parse_chunks_waits s s' :
  Wf s -> parse_chunks s = (false, s') -> state_ s' <> RTMP_DEAD -> unread s' < unread_max s'.
Proof.
  intros H. pose proof (wf_pos _ H) as (Hi & Hok & Hc). unfold parse_chunks, unread_max.
  destruct (Z.leb_spec (len (in_ s)) (in_pos_ s)); [intros [= <-] _; unfold unread; lia|].
  destruct (basic_header (in_ s) (in_pos_ s)) as [[[fmt csid] hdr]|] eqn:Eb.
  - apply basic_header_bounds in Eb as (Hf & Hcs & Hh & Hle); [|done|lia].
    destruct (Z.ltb_spec RTMP_MAX_CHUNK_STREAM csid); [by intros [= <-]|].
    destruct (resize_Wf s csid H) as [Hr Hlt]; [lia|].
    destruct (decode_chunk _ _ _ _) as [|why|c pl after] eqn:Ed.
    + intros [= <-] _. apply decode_incomplete in Ed; [lia|done..].
    + by intros [= <-].
    + intros E Hd. destruct Hd. pose proof (commit_chunk_false (resize_streams s csid) csid c pl after) as Hf'.
      rewrite E in Hf'. by apply Hf'.
  - intros [= <-] _. revert Eb. unfold basic_header, unread.
    destruct (_ =? 0); [destruct (Z.ltb_spec (len (in_ s)) (in_pos_ s + 2)); [lia|done]|].
    destruct (_ =? 1); [destruct (Z.ltb_spec (len (in_ s)) (in_pos_ s + 3)); [lia|done]|done].
Qed.

Lemma parse_step_waits s s' :
  Wf s -> parse_step s = (false, s') -> state_ s' <> RTMP_DEAD -> unread s' < unread_max s'.
Proof.
  intros H. unfold parse_step. case_bool_decide; [by apply parse_chunks_waits|].
  unfold do_handshake, unread_max, unread. case_bool_decide.
  - destruct (Z.ltb_spec (len (in_ s) - in_pos_ s) 1537); [intros [= <-] _; lia|].
    destruct (negb _); [|done]. by intros [= <-].
  - destruct (Z.ltb_spec (len (in_ s) - in_pos_ s) 1536); [intros [= <-] _; lia|done].
Qed.

(** The loop's outcome: it never runs out of fuel, and it stops dead, at a publish, or
    with less than a chunk left to read. *)
Lemma parse_loop_outcome n s :
  Wf s -> len (in_ s) - in_pos_ s < Z.of_nat n ->
  let r := parse_loop n s in
  Wf r.2 /\ r.1 = negb (bool_decide (state_ r.2 = RTMP_DEAD))
  /\ (r.1 = true -> publish_pending_ r.2 = false -> unread r.2 < unread_max r.2).
Proof.
  revert s. induction n as [|n IH]; intros s H Hn; pose proof (wf_pos _ H) as (Hi & _); [lia|].
  rewrite parse_loop_step. cbv zeta. case_bool_decide as Hd; [cbn; by rewrite bool_decide_true|].
  destruct (parse_step_stepped s H) as [W E1 E2 E3].
  destruct (parse_step s) as [[] s1] eqn:Es; cbn [fst snd] in *.
  - specialize (E3 eq_refl). rewrite (proj2 (Z.eqb_neq _ _)), orb_false_r by lia.
    destruct (publish_pending_ s1) eqn:Ep; [|apply IH; [done|rewrite E1; lia]].
    cbn [fst snd]. split_and!; [by apply compact_Wf| |by rewrite compact_pending, Ep].
    assert (Hs : state_ (compact s1) = state_ s1)
      by (unfold compact; destruct (_ =? _); [done|]; by destruct (_ <? _)).
    rewrite Hs, bool_decide_false; [done|]. by eapply parse_step_alive.
  - split_and!; [done|done|]. intros Ha%negb_true_iff%bool_decide_eq_false _. exact (parse_step_waits s s1 H Es Ha).
Qed.

(** ** Every session *)

Inductive rtmp_op :=
| OpFeed (buf : bytes) (now : Z)
| OpResume
| OpAccept
| OpReject (code description : bytes)
| OpDrainPeer
| OpDrainFlv.

(** What the caller may do, in any order, whatever the calls return. *)
Definition rtmp_apply s (o : rtmp_op) : RtmpSession :=
  match o with
  | OpFeed buf now => (feed s buf now).2
  | OpResume => (resume s).2
  | OpAccept => accept_publish s
  | OpReject code d => reject_publish s code d
  | OpDrainPeer => drain_peer s
  | OpDrainFlv => drain_flv s
  end.

Definition op_ok (o : rtmp_op) : Prop := match o with OpFeed buf _ => bytes_ok buf | _ => True end.

Definition rtmp_run (ops : list rtmp_op) : RtmpSession := fold_left rtmp_apply ops rtmp_new.

Lemma accept_core s : core (accept_publish s) = core s.
Proof.
  unfold accept_publish. destruct (negb _); [done|]. unfold write_flv_header.
  cbn [flv_header_written_ send_msg]. by destruct (flv_header_written_ s).
Qed.

Lemma run_parser_Wf s : Wf s -> Wf (run_parser s).2.
Proof. intros H. pose proof (wf_pos _ H) as (? & _). apply parse_loop_outcome; [done|lia]. Qed.

(** What [feed] hands the parser. *)
Definition fed s (buf : bytes) (now : Z) : RtmpSession :=
  let s := if started_ s =? 0 then s <| started_ := now |> else s in
  more (s <| now_ := now |> <| total_in_ := u64 (total_in_ s + len buf) |>) buf.

Definition too_late s (buf : bytes) (now : Z) : bool :=
  negb (publishing_ s) && ((RTMP_PREPUBLISH_MAX_BYTES <? u64 (total_in_ s + len buf))
    || (RTMP_PREPUBLISH_MAX_S <? now - (if started_ s =? 0 then now else started_ s))).

Lemma feed_fed s buf now :
  state_ s <> RTMP_DEAD -> too_late s buf now = false -> feed s buf now = run_parser (fed s buf now).
Proof.
  intros Hd Hl. unfold feed. rewrite bool_decide_false by done. unfold too_late in Hl. unfold fed.
  destruct (started_ s =? 0) eqn:E; cbn in *; rewrite ?E; by rewrite Hl.
Qed.

Lemma fed_Wf s buf now : Wf s -> bytes_ok buf -> Wf (fed s buf now).
Proof. intros H Hb. unfold fed. apply more_Wf; [|done]. apply (Wf_core s); [|done]. by destruct (_ =? _). Qed.

Lemma feed_Wf s buf now : Wf s -> bytes_ok buf -> Wf (feed s buf now).2.
Proof.
  intros H Hb. unfold feed. case_bool_decide; [done|].
  destruct (_ && _)%bool.
  - apply fail_Wf, (Wf_core s); [|done]. by destruct (_ =? _).
  - by apply run_parser_Wf, (fed_Wf s buf now).
Qed.

Lemma apply_Wf s o : Wf s -> op_ok o -> Wf (rtmp_apply s o).
Proof.
  intros H Ho. destruct o; cbn.
  - by apply feed_Wf.
  - unfold resume. case_bool_decide; [done|by apply run_parser_Wf].
  - apply (Wf_core s); [apply accept_core|done].
  - by apply (Wf_core s).
  - by apply (Wf_core s).
  - by apply (Wf_core s).
Qed.

Lemma new_Wf : Wf rtmp_new.
Proof. split; [|done..]. by split. Qed.

Lemma run_Wf ops : Forall op_ok ops -> Wf (rtmp_run ops).
Proof.
  intros H. unfold rtmp_run. pose proof new_Wf as W. revert W. generalize rtmp_new.
  induction H as [|o ops Ho _ IH]; intros s W; [done|]. by apply IH, apply_Wf.
Qed.

(** C34: What an unauthenticated peer can make a session hold.  Whatever is fed to it, in
    whatever pieces, and whatever the caller does in between: at most 256 chunk streams are
    kept; a partial message is shorter than the length announced for it, which is at most
    4 MiB, so the bytes still owed never go below zero; the count of held bytes is exact
    and stays within 8 MiB over all of them; the chunk size stays between 1 byte and 1 MiB;
    and after a read less than one chunk (or handshake block) is left unparsed, unless a
    publish is waiting for its answer. *)
Theorem rtmp_holds_bounded ops buf now :
  Forall op_ok ops -> bytes_ok buf ->
  let s := rtmp_run ops in
  len (cs_ s) <= 256
  /\ (forall c, c ∈ cs_ s -> mlen c <= 4 * 2 ^ 20 /\ (acc c = [] \/ len (acc c) < mlen c))
  /\ assembly_bytes_ s = held (cs_ s) /\ held (cs_ s) <= 8 * 2 ^ 20
  /\ 1 <= in_chunk_ s <= 2 ^ 20 /\ 0 <= in_pos_ s <= len (in_ s)
  /\ let r := feed s buf now in
     r.1 = true -> publish_pending_ r.2 = false -> unread r.2 < 18 + Z.max 1519 (in_chunk_ r.2).
Proof.
  intros Ho Hb. cbv zeta. pose proof (run_Wf ops Ho) as W. pose proof W as [(Hp & _ & Hc) H2 H3 H4 [H5 H6]].
  set (s := rtmp_run ops) in *.
  unfold RTMP_MAX_CHUNK_STREAM, RTMP_MAX_CHUNK_SIZE, RTMP_MAX_ASSEMBLY_BYTES in *.
  split_and!; try lia.
  - intros c Hin. rewrite list.Forall_forall in H4. destruct (H4 c Hin) as (_ & ? & _ & ?).
    unfold RTMP_MAX_MESSAGE_BYTES in *. split; [lia|done].
  - intros Ht Hpp. destruct (decide (state_ s = RTMP_DEAD)) as [Hd|Hd].
    { unfold feed in Ht. by rewrite bool_decide_true in Ht. }
    destruct (too_late s buf now) eqn:El.
    { exfalso. revert Ht El. unfold feed, too_late. rewrite bool_decide_false by done.
      destruct (started_ s =? 0) eqn:E; cbn; rewrite ?E; intros Ht El; by rewrite El in Ht. }
    rewrite feed_fed in * by done. pose proof (fed_Wf s buf now W Hb) as Wf'.
    pose proof (wf_pos _ Wf') as (? & _).
    destruct (parse_loop_outcome (S (length (in_ (fed s buf now)))) (fed s buf now) Wf' ltac:(lia)) as (_ & _ & Hu).
    specialize (Hu Ht Hpp). unfold unread_max in Hu. unfold run_parser in *. lia.
Qed.

(** ** Segmentation *)

Section clock.
Variables (t n st : Z).

Lemma deliver_clock s csid c : deliver (with_clock s t n st) csid c = clock_result (deliver s csid c) t n st.
Proof. unfold deliver. destruct (_ <=? _); [|done]. by rewrite <-on_message_clock. Qed.

Lemma absorb_clock s csid c pl after :
  absorb (with_clock s t n st) csid c pl after = with_clock (absorb s csid c pl after) t n st.
Proof. unfold absorb. cbn [in_pos_ with_clock]. by rewrite acknowledge_clock. Qed.

Lemma commit_chunk_clock s csid c pl after :
  commit_chunk (with_clock s t n st) csid c pl after = clock_result (commit_chunk s csid c pl after) t n st.
Proof.
  unfold commit_chunk, check_out. rewrite absorb_clock, deliver_clock.
  destruct (deliver (absorb _ _ _ _ _) _ _) as [[] s']; [|done]. unfold clock_result. cbn [fst snd negb].
  change (to_peer_ (with_clock s' t n st)) with (to_peer_ s'). by destruct (_ <? _).
Qed.

Lemma parse_step_clock s : parse_step (with_clock s t n st) = clock_result (parse_step s) t n st.
Proof.
  unfold parse_step. cbn [state_ with_clock]. case_bool_decide.
  - unfold parse_chunks. cbn [in_ in_pos_ with_clock]. destruct (_ <=? _); [done|].
    destruct (basic_header _ _) as [[[fmt csid] hdr]|]; [|done]. destruct (_ <? _); [done|].
    assert (E : resize_streams (with_clock s t n st) csid = with_clock (resize_streams s csid) t n st)
      by (unfold resize_streams; cbn [cs_ with_clock]; by destruct (_ <=? _)).
    rewrite E. change (decode_chunk (with_clock ?x t n st)) with (decode_chunk x).
    destruct (decode_chunk _ _ _ _) as [| |c pl after]; [done..|]. apply commit_chunk_clock.
  - unfold do_handshake. cbn [state_ in_ in_pos_ with_clock]. case_bool_decide.
    + destruct (_ <? _); [done|]. by destruct (negb _).
    + by destruct (_ <? _).
Qed.

Lemma parse_loop_clock fuel s : parse_loop fuel (with_clock s t n st) = clock_result (parse_loop fuel s) t n st.
Proof.
  revert s. induction fuel as [|fuel IH]; intros s; [done|]. rewrite !parse_loop_step, parse_step_clock.
  cbn [state_ in_pos_ with_clock]. case_bool_decide; [done|].
  destruct (parse_step s) as [[] s']; [|done]. unfold clock_result at 1. cbn [fst snd publish_pending_ in_pos_ with_clock].
  destruct (_ || _)%bool; [|apply IH]. unfold clock_result, compact. cbn [fst snd in_ in_pos_ with_clock].
  destruct (_ =? _); [done|]. by destruct (_ <? _).
Qed.
End clock.

Lemma parse_loop_clock_kept fuel s :
  let r := (parse_loop fuel s).2 in
  total_in_ r = total_in_ s /\ now_ r = now_ s /\ started_ r = started_ s.
Proof.
  cbv zeta. pose proof (parse_loop_clock (total_in_ s) (now_ s) (started_ s) fuel s) as E.
  replace (with_clock s _ _ _) with s in E by (by destruct s). by rewrite E.
Qed.

(** Publishing starts with the caller's answer, not with what is parsed. *)
Lemma on_message_publishing s c p : publishing_ (on_message s c p).2 = publishing_ s.
Proof.
  unfold on_message. destruct (_ =? 1).
  { unfold set_chunk_size. destruct (_ <? _); [done|]. by destruct (_ || _)%bool. }
  destruct (_ =? 2); [unfold abort_message; destruct (_ <=? _); [by destruct (_ <? _)|done]|].
  destruct (_ =? 3); [done|]. destruct (_ || _)%bool; [unfold set_window; by destruct (_ <=? _)|].
  destruct (_ =? 4); [unfold user_control; by destruct (_ && _)%bool|].
  destruct (_ || _)%bool.
  { unfold on_media. destruct (negb (publishing_ s) || _)%bool; [done|]. by destruct (_ && _)%bool. }
  destruct (_ =? 20); [by rewrite (on_command_frame s c p)|done].
Qed.

(** ** What the parser keeps, message by message *)

(** All that happens outside the message handlers. *)
Definition quiet s s' : Prop :=
  s' = s <| error_ := error_ s' |> <| state_ := state_ s' |> <| in_ := in_ s' |> <| in_pos_ := in_pos_ s' |>
         <| cs_ := cs_ s' |> <| assembly_bytes_ := assembly_bytes_ s' |> <| bytes_in_ := bytes_in_ s' |>
         <| acked_ := acked_ s' |> <| to_peer_ := to_peer_ s' |> <| saw_c0c1_ := saw_c0c1_ s' |>.

Lemma quiet_refl s : quiet s s.
Proof. by destruct s. Qed.

Lemma quiet_trans s1 s2 s3 : quiet s1 s2 -> quiet s2 s3 -> quiet s1 s3.
Proof. intros H1 H2. unfold quiet in *. rewrite H2, H1. done. Qed.

Lemma quiet_resize s csid : quiet s (resize_streams s csid).
Proof. unfold resize_streams. destruct (_ <=? _); [done|apply quiet_refl]. Qed.

Lemma quiet_acknowledge s k : quiet s (acknowledge s k).
Proof. unfold acknowledge. by destruct (_ && _)%bool. Qed.

Lemma quiet_absorb s csid c pl after : quiet s (absorb s csid c pl after).
Proof. eapply quiet_trans; [apply (quiet_acknowledge s (after - in_pos_ s))|done]. Qed.

Lemma quiet_check_out r : quiet r.2 (check_out r).2.
Proof.
  destruct r as [ok s]. unfold check_out. destruct (negb ok); [apply quiet_refl|].
  destruct (_ <? _); [done|apply quiet_refl].
Qed.

(** The messages the parser completes. *)
Definition message_ok c p : Prop := is_u32 (ts c) /\ len p <= RTMP_MAX_MESSAGE_BYTES /\ bytes_ok p.

(** Quiet, then at most one message, then quiet. *)
Definition one_message s s' : Prop :=
  exists s0 s1, quiet s s0 /\ (s1 = s0 \/ exists c p, message_ok c p /\ s1 = (on_message s0 c p).2) /\ quiet s1 s'.

Lemma one_message_quiet s s' : quiet s s' -> one_message s s'.
Proof. intros H. exists s, s. split; [apply quiet_refl|]. by split; [left|]. Qed.

Lemma one_message_wrap s s0 s1 s' : quiet s s0 -> one_message s0 s1 -> quiet s1 s' -> one_message s s'.
Proof.
  intros H0 (t0 & t1 & T0 & T & T1) H1. exists t0, t1.
  split; [by apply (quiet_trans _ s0)|]. split; [done|by apply (quiet_trans _ s1)].
Qed.

Lemma deliver_message s csid c : message_ok c (acc c) -> one_message s (deliver s csid c).2.
Proof.
  intros H. unfold deliver. destruct (_ <=? _); [|apply one_message_quiet, quiet_refl].
  set (c0 := c <| acc := ([] : bytes) |>). assert (Hm : message_ok c0 (acc c)) by done.
  eexists _, _. split; [|split; [right; exists c0, (acc c); split; [done|reflexivity]|apply quiet_refl]]. done.
Qed.

Lemma commit_chunk_message s csid c pl after :
  message_ok c (acc c ++ pl) -> one_message s (commit_chunk s csid c pl after).2.
Proof.
  intros H. unfold commit_chunk. cbv zeta. set (c' := c <| acc := acc c ++ pl |>).
  assert (Hm : message_ok c' (acc c')) by exact H. clearbody c'.
  eapply one_message_wrap; [apply quiet_absorb|by apply deliver_message|apply quiet_check_out].
Qed.

Lemma parse_step_message s : Wf s -> one_message s (parse_step s).2.
Proof.
  intros H. pose proof (wf_pos _ H) as (Hi & Hok & _). unfold parse_step. case_bool_decide.
  - unfold parse_chunks. destruct (Z.leb_spec (len (in_ s)) (in_pos_ s)); [apply one_message_quiet, quiet_refl|].
    destruct (basic_header _ _) as [[[fmt csid] hdr]|] eqn:Eb; [|apply one_message_quiet, quiet_refl].
    apply basic_header_bounds in Eb as (Hf & Hcs & Hh & Hle); [|done|lia].
    destruct (Z.ltb_spec RTMP_MAX_CHUNK_STREAM csid); [by apply one_message_quiet|].
    pose proof (quiet_resize s csid) as Hr. destruct (resize_Wf s csid H) as [W _]; [lia|].
    destruct (decode_chunk _ _ _ _) as [|why|c pl after] eqn:Ed.
    + by apply one_message_quiet.
    + apply one_message_quiet, (quiet_trans _ _ _ Hr). done.
    + eapply one_message_wrap; [exact Hr|apply commit_chunk_message|apply quiet_refl].
      pose proof (decode_chunk_ts _ _ _ _ _ _ _ W (ltac:(lia) : 0 <= csid) Hf Ed).
      destruct (decode_chunk_ok _ _ _ _ _ _ _ W Hf (proj1 Hh) (ltac:(lia) : 0 <= csid) Ed) as (Ea & ? & ? & _).
      destruct (decode_chunk_after _ _ _ _ _ _ _ (wf_pos _ W) Hf (proj1 Hh) Ed) as [_ Hpl].
      split_and!; [done|rewrite length_app; lia|]. apply bytes_ok_app. split; [|done].
      rewrite Ea. apply (stream_at_ok _ _ W). lia.
  - apply one_message_quiet. unfold do_handshake. case_bool_decide.
    + destruct (_ <? _); [apply quiet_refl|]. by destruct (negb _).
    + by destruct (_ <? _); [apply quiet_refl|].
Qed.

Section kept.
Variable R : RtmpSession -> RtmpSession -> Prop.
Context `{!PreOrder R}.
Hypothesis R_quiet : forall s s', quiet s s' -> R s s'.
Hypothesis R_message : forall s c p, message_ok c p -> R s (on_message s c p).2.

Lemma parse_loop_kept n s : Wf s -> R s (parse_loop n s).2.
Proof using All.
  assert (Hc : forall s, R s (compact s)).
  { intros s0. apply R_quiet. unfold compact. destruct (_ =? _); [done|]. destruct (_ <? _); [done|apply quiet_refl]. }
  revert s. induction n as [|n IH]; intros s W; [done|]. rewrite parse_loop_step.
  case_bool_decide; [done|]. destruct (parse_step_stepped s W) as [W' _ _ _].
  assert (Hs : R s (parse_step s).2).
  { destruct (parse_step_message s W) as (s0 & s1 & H0 & H1 & H2). etrans; [by apply R_quiet|].
    etrans; [|by apply R_quiet]. destruct H1 as [->|(c & p & Hm & ->)]; [done|by apply R_message]. }
  destruct (parse_step s) as [[] s']; cbn [snd] in *; [|done].
  destruct (_ || _)%bool; cbn [snd]; (etrans; [exact Hs|]); [apply Hc|by apply IH].
Qed.
End kept.

(** A field every message keeps. *)
Lemma parse_loop_field {A} (f : RtmpSession -> A) n s :
  (forall s s', quiet s s' -> f s' = f s) -> (forall s c p, f (on_message s c p).2 = f s) ->
  Wf s -> f (parse_loop n s).2 = f s.
Proof.
  intros Hq Hm W. assert (PreOrder (fun s s' => f s' = f s)).
  { split; [done|]. intros s1 s2 s3 H1 H2. by rewrite H2. }
  apply (parse_loop_kept (fun s s' => f s' = f s)); [done|by intros..].
Qed.

Lemma parse_loop_publishing n s : Wf s -> publishing_ (parse_loop n s).2 = publishing_ s.
Proof.
  apply (parse_loop_field publishing_); [|apply on_message_publishing].
  intros s1 s2 H. by rewrite H.
Qed.

(** When a session's clock starts. *)
Definition start_time s (now : Z) : Z := if started_ s =? 0 then now else started_ s.

Lemma fed_clock s buf now :
  fed s buf now = with_clock (more s buf) (u64 (total_in_ s + len buf)) now (start_time s now).
Proof. unfold fed, start_time. by destruct (started_ s =? 0). Qed.

Lemma start_time_twice s now : (if start_time s now =? 0 then now else start_time s now) = start_time s now.
Proof.
  unfold start_time. destruct (Z.eqb_spec (started_ s) 0) as [|E]; [destruct (Z.eqb_spec now 0); lia|].
  by rewrite (proj2 (Z.eqb_neq _ _)).
Qed.

Lemma feed_alive s buf now s1 :
  feed s buf now = (true, s1) -> state_ s <> RTMP_DEAD /\ too_late s buf now = false.
Proof.
  unfold feed. case_bool_decide as Hd; [done|]. split; [done|]. revert H. unfold too_late.
  destruct (started_ s =? 0) eqn:E; cbn [started_ publishing_ total_in_];
    rewrite ?E; destruct (negb _ && _)%bool; done.
Qed.

Lemma more_more s b1 b2 : more (more s b1) b2 = more s (b1 ++ b2).
Proof. unfold more, with_in. cbn. by rewrite app_assoc. Qed.

(** C33: TCP segmentation does not matter.  Bytes fed in two pieces leave the session in
    exactly the state, and with exactly the verdict, that feeding them at once does: no
    header is applied twice, no payload is lost or repeated.  Both pieces come at the same
    clock, and the first leaves the session alive.  (A session that has reached a publish
    stops there for its answer, and the limits before publish are on what has been fed so
    far, so both are excluded between the pieces.) *)
Theorem rtmp_segmentation s b1 b2 now s1 :
  Wf s -> bytes_ok b1 -> bytes_ok b2 -> 0 <= total_in_ s ->
  publishing_ s = true \/ total_in_ s + len (b1 ++ b2) <= RTMP_PREPUBLISH_MAX_BYTES ->
  feed s b1 now = (true, s1) -> publish_pending_ s1 = false ->
  feed s1 b2 now = feed s (b1 ++ b2) now.
Proof.
  intros W Hb1 Hb2 Ht Hlim Hf Hpp. pose proof (feed_alive _ _ _ _ Hf) as [Hd Hl].
  rewrite feed_fed in Hf by done. unfold run_parser in Hf.
  pose proof (fed_Wf s b1 now W Hb1) as Wf1. pose proof (wf_pos _ Wf1) as (Hp1 & _).
  destruct (parse_loop_more (S (length (in_ (fed s b1 now)))) (fed s b1 now) s1 b2 Wf1 Hb2 ltac:(lia) Hf Hpp) as (W1 & E1 & _ & Hd1 & Hloop).
  pose proof (parse_loop_clock_kept (S (length (in_ (fed s b1 now)))) (fed s b1 now)) as (K1 & K2 & K3).
  pose proof (parse_loop_publishing (S (length (in_ (fed s b1 now)))) (fed s b1 now) Wf1) as K4.
  rewrite Hf in K1, K2, K3, K4. cbn [snd] in *. rewrite fed_clock in K1, K2, K3, K4. cbn in K1, K2, K3, K4.
  assert (Hst : start_time s1 now = start_time s now) by (unfold start_time at 1; rewrite K3; apply start_time_twice).
  set (T := u64 (total_in_ s + len (b1 ++ b2))).
  assert (HT : u64 (total_in_ s1 + len b2) = T)
    by (rewrite K1; unfold T; rewrite wrap_add_l, length_app; f_equal; lia).
  assert (Hlate : publishing_ s = true \/ T <= RTMP_PREPUBLISH_MAX_BYTES).
  { destruct Hlim as [|Hlim]; [by left|right]. unfold T. rewrite wrap_small; [done|].
    unfold RTMP_PREPUBLISH_MAX_BYTES in *. lia. }
  unfold too_late in Hl. fold (start_time s now) in Hl.
  assert (Hlast : forall x, negb (publishing_ s) && ((RTMP_PREPUBLISH_MAX_BYTES <? T)
    || (RTMP_PREPUBLISH_MAX_S <? now - start_time s now)) = x -> x = false).
  { intros x <-. destruct Hlate as [->|Hlate]; [done|]. destruct (publishing_ s); [done|].
    cbn in *. apply orb_false_iff in Hl as [_ ->]. by rewrite (proj2 (Z.ltb_ge _ _)). }
  rewrite (feed_fed s1), (feed_fed s); [|done| |done|].
  - unfold run_parser. rewrite !fed_clock, HT, Hst. fold T.
    rewrite fed_clock in Hloop, E1. cbn [in_ with_clock] in *.
    assert (Hn : S (length (in_ (more s1 b2))) = (S (length (in_ (more s b1))) + length b2)%nat)
      by (cbn; rewrite E1, length_app; cbn; lia).
    assert (Hn' : S (length (in_ (more s (b1 ++ b2)))) = (S (length (in_ (more s b1))) + length b2)%nat)
      by (cbn; rewrite !length_app; lia).
    rewrite Hn, Hn', !parse_loop_clock, <-Hloop.
    change (more (with_clock ?x ?a ?b ?c) b2) with (with_clock (more x b2) a b c).
    rewrite more_more, parse_loop_clock. done.
  - apply Hlast. done.
  - unfold too_late. fold (start_time s1 now). rewrite K4, HT, Hst. by apply Hlast.
Qed.

(** C36: The parser always finishes, and says why it stopped.  From any well-formed live
    session, whatever is buffered, the loop ends by itself -- more fuel changes nothing --
    and its verdict is true exactly when the session is still alive: it never reports a
    live session as over, nor a dead one as running. *)
Theorem rtmp_parser_terminates s extra :
  Wf s ->
  let r := run_parser s in
  parse_loop (S (length (in_ s)) + extra) s = r
  /\ r.1 = negb (bool_decide (state_ r.2 = RTMP_DEAD)) /\ Wf r.2.
Proof.
  intros W. pose proof (wf_pos _ W) as (Hp & _). cbv zeta. unfold run_parser.
  destruct (parse_loop_outcome (S (length (in_ s))) s W ltac:(lia)) as (W' & Hv & _).
  split_and!; [|done|done]. apply parse_loop_fuel; [done|lia..].
Qed.

(** ** A publisher, for the witnesses *)

Definition demo_handshake : bytes := [3] ++ replicate (1536 + 1536) 0.

Definition demo_object (app : bytes) : bytes :=
  [AMF_OBJECT] ++ amf_key (bs "app") ++ amf_str app ++ amf_obj_end.

Definition demo_connect (app : bytes) : bytes :=
  rtmp_msg 3 20 0 (amf_str (bs "connect") ++ amf_num (double_of_u32 1) ++ demo_object app) 0.

Definition demo_publish (name : bytes) : bytes :=
  rtmp_msg 3 20 1 (amf_str (bs "publish") ++ amf_num (double_of_u32 5) ++ amf_null ++ amf_str name) 0.

Definition demo_fc_publish (name : bytes) : bytes :=
  rtmp_msg 3 20 0 (amf_str (bs "FCPublish") ++ amf_num (double_of_u32 4) ++ amf_null ++ amf_str name) 0.

Definition demo_video : bytes := rtmp_msg 4 9 1 [0x17; 0; 1; 2; 3] 40.

Definition demo_start : bytes := demo_handshake ++ demo_connect (bs "live?pw=s3").

(** Password, path and codec of a publish whose media is sent along behind it. *)
Example demo_session :
  let s := rtmp_run [OpFeed (demo_start ++ demo_publish (bs "cam") ++ demo_video) 100; OpAccept; OpResume] in
  (publishing_ s, path s, password_present_ s, password_ s, vcodec_ s, media_bytes_ s)
    = (true, bs "live/cam", true, bs "s3", RTMP_VCODEC_H264, 5)
  /\ to_flv_ s = flv_header ++ flv_tag 9 40 [0x17; 0; 1; 2; 3].
Proof. by vm_compute. Qed.

Lemma rtmp_segmentation_witness :
  exists s1, feed rtmp_new (take 3100 demo_start) 100 = (true, s1)
    /\ feed s1 (drop 3100 demo_start) 100 = feed rtmp_new demo_start 100.
Proof.
  destruct (feed rtmp_new (take 3100 demo_start) 100) as [ok s1] eqn:E.
  assert (Hok : ok = true) by (by apply (f_equal fst) in E; vm_compute in E). subst ok.
  exists s1. split; [done|].
  rewrite (rtmp_segmentation rtmp_new (take 3100 demo_start) (drop 3100 demo_start) 100 s1);
    [by rewrite take_drop|apply new_Wf|decide_vm|decide_vm|by vm_compute|right; by vm_compute|done|].
  apply (f_equal (fun r => publish_pending_ r.2)) in E. cbn [snd] in E. rewrite <-E. by vm_compute.
Defined.

Lemma rtmp_holds_bounded_witness :
  let s := rtmp_run [OpFeed demo_start 100] in
  in_chunk_ s = 128 /\ assembly_bytes_ s = held (cs_ s).
Proof.
  split; [by vm_compute|].
  by apply (rtmp_holds_bounded [OpFeed demo_start 100] [] 100 ltac:(repeat constructor; decide_vm) ltac:(constructor)).
Defined.

Lemma rtmp_parser_terminates_witness :
  parse_loop 5000 (more rtmp_new demo_start) = run_parser (more rtmp_new demo_start)
  /\ (run_parser (more rtmp_new demo_start)).1 = true.
Proof.
  assert (W : Wf (more rtmp_new demo_start)) by (apply more_Wf; [apply new_Wf|decide_vm]).
  split; [|by vm_compute].
  rewrite <-(proj1 (rtmp_parser_terminates (more rtmp_new demo_start) (4999 - length demo_start) W)).
  f_equal; vm_compute; reflexivity.
Defined.

(** ** Findings *)

(** "The first credential offered anywhere in the RTMP setup wins": not when it comes before
    [connect], which forgets that there was one. *)
Lemma connect_forgets_credential :
  let pre := demo_handshake ++ demo_fc_publish (bs "cam?pw=guess") in
  password_present_ (rtmp_run [OpFeed pre 100]) = true
  /\ password_present_ (rtmp_run [OpFeed (pre ++ demo_connect (bs "live")) 100]) = false.
Proof. by vm_compute. Qed.

(** The input buffer is emptied only where the parser stops for a publish: a read that ends
    any other way keeps every byte ever received, so a publisher's whole stream stays in
    memory for as long as it publishes. *)
Lemma input_never_dropped s buf now s1 :
  Wf s -> bytes_ok buf -> feed s buf now = (true, s1) -> publish_pending_ s1 = false -> in_ s1 = in_ s ++ buf.
Proof.
  intros W Hb Hf Hpp. pose proof (feed_alive _ _ _ _ Hf) as [Hd Hl]. rewrite feed_fed in Hf by done.
  pose proof (fed_Wf s buf now W Hb) as W1. pose proof (wf_pos _ W1) as (Hp & _).
  destruct (parse_loop_more (S (length (in_ (fed s buf now)))) (fed s buf now) s1 [] W1
    ltac:(constructor) ltac:(lia) Hf Hpp) as (_ & -> & _).
  by rewrite fed_clock.
Qed.
