(* ===== verification/RtmpMedia.v ===== *)
(** * RTMP: the credential, and the media a publisher sends

    Which credential an admission decision sees; that nothing reaches the backend before the
    publish is accepted and what reaches it is a well-formed FLV stream; and that media
    messages, in whatever headers and chunks a sender puts them, come out of it whole and in
    order, with their timestamps. *)

From S2P Require Import Prelude CStr HttpReq Amf Rtmp.

Implicit Types (s : RtmpSession) (c : ChunkStream) (p b : bytes).

(** ** The credential *)

Definition credential s : bool * bool * bytes := (connected_ s, password_present_ s, password_ s).

(** Once connected with a credential, nothing changes it. *)
Definition credential_kept s s' : Prop :=
  connected_ s = true -> password_present_ s = true -> credential s' = credential s.

#[local] Instance credential_kept_preorder : PreOrder credential_kept.
Proof.
  split; [done|]. intros s1 s2 s3 H1 H2 Hc Hp. pose proof (H1 Hc Hp) as E. pose proof E as [= E1 E2 _].
  rewrite H2; congruence.
Qed.

Lemma credential_same s s' : credential s' = credential s -> credential_kept s s'.
Proof. intros H ? ?. exact H. Qed.

Lemma offer_present s pw : password_present_ s = true -> offer s pw = s.
Proof. intros H. destruct pw; cbn; [by rewrite H|done]. Qed.

Lemma on_command_credential s c p : credential_kept s (on_command s c p).2.
Proof.
  intros Hc Hp. unfold on_command. destruct (amf_read_string p 0) as [[cmd j]|]; [|done].
  destruct (default (0, j) (amf_read_number p j)) as [txn k].
  case_bool_decide; [unfold on_connect; by rewrite Hc|].
  case_bool_decide; [done|]. destruct (_ || _)%bool; [by destruct (_ && _)%bool|].
  case_bool_decide.
  { unfold on_fc_publish. destruct (split_credential _) as [name pw]. by rewrite offer_present. }
  case_bool_decide; [done|]. case_bool_decide; [|by destruct (_ || _)%bool].
  unfold on_publish. destruct (_ || _)%bool; [done|]. destruct (negb _); [done|].
  destruct (stream_name p k) as [name|]; [|done]. destruct (split_credential name) as [nm pw].
  by rewrite offer_present.
Qed.

Lemma on_message_credential s c p : credential_kept s (on_message s c p).2.
Proof.
  unfold on_message. destruct (_ =? 1).
  { apply credential_same. unfold set_chunk_size. destruct (_ <? _); [done|]. by destruct (_ || _)%bool. }
  destruct (_ =? 2).
  { apply credential_same. unfold abort_message. destruct (_ <=? _); [by destruct (_ <? _)|done]. }
  destruct (_ =? 3); [done|].
  destruct (_ || _)%bool; [apply credential_same; unfold set_window; by destruct (_ <=? _)|].
  destruct (_ =? 4); [apply credential_same; unfold user_control; by destruct (_ && _)%bool|].
  destruct (_ || _)%bool.
  { apply credential_same. unfold on_media. destruct (_ || _)%bool; [done|]. by destruct (_ && _)%bool. }
  destruct (_ =? 20); [apply on_command_credential|done].
Qed.

Lemma quiet_credential s s' : quiet s s' -> credential_kept s s'.
Proof. intros H. apply credential_same. by rewrite H. Qed.

Lemma run_parser_credential s : Wf s -> credential_kept s (run_parser s).2.
Proof.
  intros W. apply (parse_loop_kept credential_kept); [apply quiet_credential| |done].
  intros. apply on_message_credential.
Qed.

Lemma apply_credential s o : Wf s -> op_ok o -> credential_kept s (rtmp_apply s o).
Proof.
  intros W Ho. destruct o; cbn.
  - destruct (decide (state_ s = RTMP_DEAD)); [unfold feed; by rewrite bool_decide_true|].
    destruct (too_late s buf now) eqn:El.
    + apply credential_same. unfold feed. rewrite bool_decide_false by done. unfold too_late in El.
      destruct (started_ s =? 0) eqn:E; cbn; rewrite ?E; by rewrite El.
    + rewrite feed_fed by done. rewrite fed_clock.
      trans (with_clock (more s buf) (u64 (total_in_ s + len buf)) now (start_time s now)); [done|].
      rewrite <-fed_clock. by apply run_parser_credential, fed_Wf.
  - unfold resume. case_bool_decide; [done|by apply run_parser_credential].
  - apply credential_same. unfold accept_publish. destruct (negb _); [done|]. unfold write_flv_header.
    cbn [flv_header_written_ send_msg]. by destruct (flv_header_written_ s).
  - done.
  - done.
  - done.
Qed.

(** Which credential a publisher is admitted by.  The first [connect] decides it: the one
    in its application name, else the one in its URL.  From then on, a credential that is
    there stays: no later command, repeated or in any order, and no answer of the caller's
    replaces it or makes it absent. *)
Theorem credential_settles s p i txn s1 ops :
  Wf s -> connected_ s = false -> on_connect s p i txn = (true, s1) ->
  let '(_, (app, url)) := amf_object_strings (bs "app") (bs "tcUrl") p i (app_ s) [] in
  let offered := match (split_credential app).2 with Some pw => Some pw | None => (split_credential url).2 end in
  password_present_ s1 = bool_decide (is_Some offered)
  /\ password_ s1 = default (password_ s) offered
  /\ (Forall op_ok ops -> is_Some offered ->
      let s2 := fold_left rtmp_apply ops s1 in
      password_present_ s2 = true /\ Some (password_ s2) = offered).
Proof.
  intros W Hc Hs. pose proof Hs as Hs'. unfold on_connect in Hs. rewrite Hc in Hs. cbn in Hs.
  destruct (amf_object_strings _ _ _ _ _ _) as [ok [app url]] eqn:Eo.
  destruct ok; [|done]. cbn [negb] in Hs. injection Hs as <-. unfold connect_credential in *. cbn.
  destruct (split_credential app) as [a pw] eqn:Ea. cbn [snd].
  set (off := match pw with Some pw => Some pw | None => _ end).
  match goal with |- context [send_connect ?x txn] => set (s0 := x) end.
  assert (E1 : password_present_ s0 = bool_decide (is_Some off)).
  { unfold s0, off, offer. destruct pw as [pw|]; cbn; [by destruct (split_credential url).2|].
    by destruct (split_credential url).2. }
  assert (E2 : password_ s0 = default (password_ s) off).
  { unfold s0, off, offer. destruct pw as [pw|]; cbn; by destruct (split_credential url).2. }
  assert (E3 : connected_ s0 = true).
  { unfold s0, offer. destruct pw; cbn; by destruct (split_credential url).2. }
  assert (W0 : Wf (send_connect s0 txn)).
  { apply (Wf_core s0); [done|]. apply (Wf_core s); [|done]. unfold s0. by rewrite offer_core. }
  change (password_present_ (send_connect s0 txn)) with (password_present_ s0).
  change (password_ (send_connect s0 txn)) with (password_ s0). split_and!; [done|done|].
  intros Hops Hoff. set (s3 := send_connect s0 txn) in *.
  assert (Hk : credential (fold_left rtmp_apply ops s3) = credential s3).
  { assert (C3 : connected_ s3 = true) by exact E3.
    assert (P3 : password_present_ s3 = true) by (change (password_present_ s0 = true); rewrite E1; by apply bool_decide_true).
    clearbody s3. clear -Hops W0 C3 P3. revert s3 W0 C3 P3.
    induction Hops as [|o ops Ho _ IH]; intros s W C P; [done|]. cbn [fold_left].
    pose proof (apply_credential s o W Ho C P) as E. pose proof E as [= E1 E2 _].
    rewrite IH; [done|by apply apply_Wf|congruence|congruence]. }
  injection Hk as _ -> ->. change (password_present_ s0 = true /\ Some (password_ s0) = off).
  rewrite E1, E2. split; [by apply bool_decide_true|]. by destruct Hoff as [x ->].
Qed.

Definition demo_connect_body : bytes :=
  amf_str (bs "connect") ++ amf_num (double_of_u32 1) ++ demo_object (bs "live?pw=s3").

Lemma credential_settles_witness :
  let s := rtmp_run [OpFeed demo_handshake 100] in
  exists s1, on_connect s demo_connect_body 19 (double_of_u32 1) = (true, s1)
    /\ Some (password_ (feed s1 (demo_fc_publish (bs "cam?pw=other")) 100).2) = Some (bs "s3").
Proof.
  cbv zeta. set (s := rtmp_run [OpFeed demo_handshake 100]).
  assert (W : Wf s) by (apply run_Wf; constructor; [change (bytes_ok demo_handshake); decide_vm|constructor]).
  destruct (on_connect s demo_connect_body 19 (double_of_u32 1)) as [ok s1] eqn:E.
  assert (Hok : ok = true) by (apply (f_equal fst) in E; by vm_compute in E). subst ok.
  exists s1. split; [done|].
  pose proof (credential_settles s demo_connect_body 19 (double_of_u32 1) s1
    [OpFeed (demo_fc_publish (bs "cam?pw=other")) 100] W ltac:(by vm_compute) E) as H.
  assert (Eo : amf_object_strings (bs "app") (bs "tcUrl") demo_connect_body 19 (app_ s) []
    = (true, (bs "live?pw=s3", []))) by (by vm_compute).
  rewrite Eo in H. destruct H as (_ & _ & H).
  apply H; [constructor; [change (bytes_ok (demo_fc_publish (bs "cam?pw=other"))); decide_vm|constructor]|].
  vm_compute. by eexists.
Defined.

(** ** The FLV stream *)

Definition flv_entry : Type := Z * Z * bytes.

(** A reader of the format: type, timestamp and payload of each tag. *)
Fixpoint flv_read (fuel : nat) (b : bytes) : option (list flv_entry) :=
  match fuel with
  | O => None
  | S fuel =>
    if len b =? 0 then Some []
    else if len b <? 15 then None
    else
      let n := be_val (slice b 1 3) in
      if len b <? 15 + n then None
      else if (be_val (slice b 8 3) =? 0) && (be_val (slice b (11 + n) 4) =? 11 + n) then
        cons (byte_at b 0, be_val (slice b 4 3) + 2 ^ 24 * be_val (slice b 7 1), slice b 11 n)
          <$> flv_read fuel (zdrop (15 + n) b)
      else None
  end.

Definition entry_ok (e : flv_entry) : Prop :=
  let '(ty, ts, p) := e in
  (ty = 8 \/ ty = 9 \/ ty = 18) /\ is_u32 ts /\ 0 < len p <= RTMP_MAX_MESSAGE_BYTES.

Definition entry_tag (e : flv_entry) : bytes := flv_tag e.1.1 e.1.2 e.2.
Definition entry_len (e : flv_entry) : Z := len e.2.
Fixpoint total_len (es : list flv_entry) : Z :=
  match es with [] => 0 | e :: es => entry_len e + total_len es end.

Lemma total_len_app es es' : total_len (es ++ es') = total_len es + total_len es'.
Proof. induction es; cbn; lia. Qed.

Lemma length_flv_tag ty ts p : len (flv_tag ty ts p) = 15 + len p.
Proof. unfold flv_tag. rewrite !length_app, !length_be_bytes. cbn. lia. Qed.

#[local] Hint Rewrite @length_cons @length_nil : proxy_len.

Lemma flv_read_tag fuel e rest :
  entry_ok e -> flv_read (S fuel) (entry_tag e ++ rest) = cons e <$> flv_read fuel rest.
Proof.
  destruct e as [[ty ts] p]. intros (Hty & Hts & Hl). unfold entry_tag, RTMP_MAX_MESSAGE_BYTES in *. cbn [fst snd].
  pose proof (length_flv_tag ty ts p) as L. cbn [flv_read].
  rewrite length_app. rewrite (proj2 (Z.eqb_neq _ 0)), (proj2 (Z.ltb_ge _ 15)) by lia.
  assert (E : flv_tag ty ts p ++ rest = [ty] ++ be_bytes 3 (len p) ++ be_bytes 3 ts ++ [u8 (Z.shiftr ts 24)]
    ++ [0; 0; 0] ++ p ++ be_bytes 4 (11 + len p) ++ rest).
  { unfold flv_tag. rewrite <-!app_assoc. do 6 f_equal. f_equal. f_equal.
    rewrite !length_app, !length_be_bytes. cbn [length]. rewrite wrap_small; lia. }
  assert (En : be_val (slice (flv_tag ty ts p ++ rest) 1 3) = len p).
  { rewrite E. slice_norm. apply be_val_be_bytes_small. lia. }
  rewrite En, (proj2 (Z.ltb_ge _ (15 + len p))) by lia.
  assert (E8 : be_val (slice (flv_tag ty ts p ++ rest) 8 3) = 0) by (rewrite E; by slice_norm).
  assert (Ep : be_val (slice (flv_tag ty ts p ++ rest) (11 + len p) 4) = 11 + len p).
  { rewrite E. slice_norm. apply be_val_be_bytes_small. lia. }
  rewrite E8, Ep, !Z.eqb_refl. cbn [andb].
  assert (Ety : byte_at (flv_tag ty ts p ++ rest) 0 = ty) by (by rewrite E).
  assert (Ets : be_val (slice (flv_tag ty ts p ++ rest) 4 3)
    + 2 ^ 24 * be_val (slice (flv_tag ty ts p ++ rest) 7 1) = ts).
  { unfold is_u32 in Hts. rewrite E. slice_norm. rewrite be_val_be_bytes.
    change (be_val [u8 (Z.shiftr ts 24)]) with (u8 (Z.shiftr ts 24) + 256 * 0).
    rewrite Z.shiftr_div_pow2, wrap_small by first [lia|split; [apply Z.div_pos; lia|apply Z.div_lt_upper_bound; lia]].
    change (256 ^ Z.of_nat 3) with (2 ^ 24). pose proof (Z.div_mod ts (2 ^ 24)). lia. }
  assert (Epl : slice (flv_tag ty ts p ++ rest) 11 (len p) = p) by (rewrite E; by slice_norm).
  assert (Er : zdrop (15 + len p) (flv_tag ty ts p ++ rest) = rest) by (unfold zdrop; apply drop_app_length'; lia).
  by rewrite Ety, Ets, Epl, Er.
Qed.

Lemma flv_read_tags fuel es :
  Forall entry_ok es -> (length es < fuel)%nat -> flv_read fuel (concat (map entry_tag es)) = Some es.
Proof.
  intros H. revert fuel. induction H as [|e es He _ IH]; intros [|fuel] Hf; cbn [length] in Hf; try lia; [done|].
  cbn [map concat]. rewrite flv_read_tag by done. by rewrite IH by lia.
Qed.

(** What a stretch of parsing hands the backend. *)
Definition emits s s' (es : list flv_entry) : Prop :=
  Forall entry_ok es /\ to_flv_ s' = to_flv_ s ++ concat (map entry_tag es)
  /\ media_bytes_ s' = u64 (media_bytes_ s + total_len es)
  /\ publishing_ s' = publishing_ s /\ flv_header_written_ s' = flv_header_written_ s
  /\ (publishing_ s = false -> es = []).

Definition emits_some s s' : Prop := is_u64 (media_bytes_ s) -> exists es, emits s s' es.

Lemma emits_refl s : is_u64 (media_bytes_ s) -> emits s s [].
Proof. intros H. split_and!; try done; cbn; [by rewrite app_nil_r|]. by rewrite Z.add_0_r, wrap_small. Qed.

#[local] Instance emits_some_preorder : PreOrder emits_some.
Proof.
  split; [intros s H; exists []; by apply emits_refl|].
  intros s1 s2 s3 H1 H2 Hs. destruct (H1 Hs) as (es & F1 & T1 & M1 & P1 & W1 & N1).
  destruct H2 as (es' & F2 & T2 & M2 & P2 & W2 & N2); [rewrite M1; by apply wrap_range|].
  exists (es ++ es'). split_and!.
  - by apply Forall_app.
  - by rewrite T2, T1, map_app, concat_app, app_assoc.
  - rewrite M2, M1, wrap_add_l, total_len_app. f_equal. lia.
  - congruence.
  - congruence.
  - intros Hp. rewrite N1, N2 by congruence. done.
Qed.

Lemma emits_same s s' :
  to_flv_ s' = to_flv_ s -> media_bytes_ s' = media_bytes_ s -> publishing_ s' = publishing_ s ->
  flv_header_written_ s' = flv_header_written_ s -> emits_some s s'.
Proof.
  intros E1 E2 E3 E4 H. exists []. split_and!; try done; cbn; [by rewrite app_nil_r|].
  by rewrite Z.add_0_r, wrap_small.
Qed.

Lemma unwrap_data_len p : 0 < len p -> 0 < len (unwrap_data p) <= len p.
Proof.
  intros Hp. unfold unwrap_data. destruct (_ && _)%bool eqn:E; [|lia].
  reflect_bools. rewrite length_zdrop. change (len set_data_frame) with 13 in *. lia.
Qed.

Lemma on_media_emits s c p :
  (mtype c =? 8) || (mtype c =? 9) || (mtype c =? 18) = true -> message_ok c p ->
  emits_some s (on_media s (mtype c) (ts c) p).
Proof.
  intros Ht (Hts & Hl & _) Hm. unfold on_media.
  destruct (negb (publishing_ s) || (len p =? 0)) eqn:E; [exists []; by apply emits_refl|].
  apply orb_false_iff in E as [Hpub%negb_false_iff Hn%Z.eqb_neq].
  set (p' := if mtype c =? 18 then unwrap_data p else p).
  assert (Hp' : 0 < len p' <= RTMP_MAX_MESSAGE_BYTES).
  { unfold p'. destruct (mtype c =? 18); [|lia]. pose proof (unwrap_data_len p). lia. }
  exists [(mtype c, ts c, p')]. split_and!.
  - constructor; [|done]. split; [|done].
    apply orb_true_iff in Ht as [[H%Z.eqb_eq|H%Z.eqb_eq]%orb_true_iff|H%Z.eqb_eq]; auto.
  - cbn [concat map]. rewrite app_nil_r. by destruct (_ && _)%bool.
  - cbn [total_len entry_len snd]. rewrite Z.add_0_r. by destruct (_ && _)%bool.
  - by destruct (_ && _)%bool.
  - by destruct (_ && _)%bool.
  - congruence.
Qed.

Lemma on_message_emits s c p : message_ok c p -> emits_some s (on_message s c p).2.
Proof.
  intros Hm. unfold on_message. destruct (_ =? 1).
  { apply emits_same; unfold set_chunk_size; (destruct (_ <? _); [done|]); by destruct (_ || _)%bool. }
  destruct (_ =? 2).
  { apply emits_same; unfold abort_message; (destruct (_ <=? _); [by destruct (_ <? _)|done]). }
  destruct (_ =? 3); [done|].
  destruct (_ || _)%bool; [apply emits_same; unfold set_window; by destruct (_ <=? _)|].
  destruct (_ =? 4); [apply emits_same; unfold user_control; by destruct (_ && _)%bool|].
  destruct (_ || _)%bool eqn:E; [by apply on_media_emits|].
  destruct (_ =? 20); [|done]. by apply emits_same; rewrite (on_command_frame s c p).
Qed.

Lemma run_parser_emits s : Wf s -> emits_some s (run_parser s).2.
Proof.
  intros W. apply (parse_loop_kept emits_some); [|apply on_message_emits|done].
  intros s1 s2 H. by apply emits_same; rewrite H.
Qed.

(** The session and what the caller has taken for the backend so far. *)
Definition rtmp_apply_out (x : RtmpSession * bytes) (o : rtmp_op) : RtmpSession * bytes :=
  (rtmp_apply x.1 o, match o with OpDrainFlv => x.2 ++ to_flv_ x.1 | _ => x.2 end).

Definition rtmp_run_out (ops : list rtmp_op) : RtmpSession * bytes :=
  fold_left rtmp_apply_out ops (rtmp_new, []).

Record OutInv (accepted : bool) (s : RtmpSession) (taken : bytes) : Prop := {
  oi_Wf : Wf s;
  oi_media : is_u64 (media_bytes_ s);
  oi_header : flv_header_written_ s = publishing_ s;
  oi_accepted : publishing_ s = true -> accepted = true;
  oi_out : if publishing_ s
           then exists es, Forall entry_ok es /\ taken ++ to_flv_ s = flv_header ++ concat (map entry_tag es)
                           /\ media_bytes_ s = u64 (total_len es)
           else taken ++ to_flv_ s = [] /\ media_bytes_ s = 0
}.

Lemma OutInv_emits a s s' taken : OutInv a s taken -> Wf s' -> emits_some s s' -> OutInv a s' taken.
Proof.
  intros [W Hm Hh Ha Ho] W' He. destruct (He Hm) as (es & F & T & M & P & Wr & N).
  split; [done|rewrite M; by apply wrap_range|by rewrite Wr, P|by rewrite P|]. rewrite P.
  destruct (publishing_ s).
  - destruct Ho as (es0 & F0 & O & M0). exists (es0 ++ es). rewrite T, app_assoc, O, M, M0.
    split_and!; [by apply Forall_app|by rewrite map_app, concat_app, <-app_assoc|].
    rewrite wrap_add_l, total_len_app. done.
  - rewrite (N eq_refl) in *. cbn in *. destruct Ho as [O M0]. rewrite T, app_nil_r, M, M0. done.
Qed.

Lemma feed_emits s buf now : Wf s -> bytes_ok buf -> emits_some s (feed s buf now).2.
Proof.
  intros W Hb. destruct (decide (state_ s = RTMP_DEAD)) as [Hd|Hd].
  { unfold feed. by rewrite bool_decide_true. }
  destruct (too_late s buf now) eqn:El.
  - unfold feed. rewrite bool_decide_false by done. unfold too_late in El.
    destruct (started_ s =? 0) eqn:E; cbn; rewrite ?E, El; by apply emits_same.
  - rewrite feed_fed by done. trans (fed s buf now); [|by apply run_parser_emits, fed_Wf].
    rewrite fed_clock. by apply emits_same.
Qed.

Lemma accept_fields s :
  publish_pending_ s = true ->
  let s' := accept_publish s in
  publishing_ s' = true /\ flv_header_written_ s' = true
  /\ to_flv_ s' = (if flv_header_written_ s then to_flv_ s else to_flv_ s ++ flv_header)
  /\ media_bytes_ s' = media_bytes_ s.
Proof.
  intros H. unfold accept_publish. rewrite H. cbn [negb]. unfold write_flv_header.
  cbn [flv_header_written_ send_msg]. by destruct (flv_header_written_ s) eqn:E.
Qed.

Lemma apply_OutInv a s taken o :
  OutInv a s taken -> op_ok o ->
  OutInv (match o with OpAccept => true | _ => a end) (rtmp_apply s o)
    (match o with OpDrainFlv => taken ++ to_flv_ s | _ => taken end).
Proof.
  intros I Ho. pose proof (oi_Wf _ _ _ I) as W. pose proof (apply_Wf s o W Ho) as W'.
  destruct o; cbn [rtmp_apply] in *.
  - apply (OutInv_emits _ s); [done|done|by apply feed_emits].
  - apply (OutInv_emits _ s); [done|done|]. unfold resume. case_bool_decide; [done|by apply run_parser_emits].
  - destruct I as [_ Hm Hh Ha Hout]. destruct (publish_pending_ s) eqn:Ep.
    + destruct (accept_fields s Ep) as (A1 & A2 & A3 & A4). rewrite Hh in A3.
      split; [done|by rewrite A4|congruence|done|]. rewrite A1, A3, A4.
      destruct (publishing_ s); [done|]. destruct Hout as [Hout Hz]. exists [].
      rewrite app_assoc, Hout, Hz. done.
    + unfold accept_publish in *. rewrite Ep in *. cbn [negb] in *. by split.
  - by apply (OutInv_emits _ s); [..|apply emits_same].
  - by apply (OutInv_emits _ s); [..|apply emits_same].
  - destruct I as [_ Hm Hh Ha Hout]. split; cbn; try done. by rewrite app_nil_r.
Qed.

#[global] Instance rtmp_op_dec : EqDecision rtmp_op.
Proof. solve_decision. Defined.

Lemma run_out_OutInv ops :
  Forall op_ok ops ->
  OutInv (bool_decide (OpAccept ∈ ops)) (rtmp_run_out ops).1 (rtmp_run_out ops).2.
Proof.
  induction ops as [|o ops IH] using rev_ind; intros H.
  - by cbn; split; [apply new_Wf|..].
  - apply Forall_app in H as [H Ho%Forall_inv]. specialize (IH H).
    unfold rtmp_run_out in *. rewrite fold_left_app. cbn [fold_left].
    destruct (fold_left rtmp_apply_out ops (rtmp_new, [])) as [s taken]. cbn [fst snd] in *.
    pose proof (apply_OutInv _ _ _ _ IH Ho) as [W Hm Hh Ha Hout]. split; try done.
    cbn. intros Hp. specialize (Ha Hp). apply bool_decide_eq_true. apply elem_of_app.
    destruct o; try (left; by apply bool_decide_eq_true in Ha). right. by apply list_elem_of_singleton.
Qed.

(** What reaches the backend.  Whatever a peer sends and whenever its output is drained:
    until the caller has accepted a publish, not one byte; from then on, all that has been
    handed over is one FLV stream -- the header once, then whole audio, video and data tags
    that a reader of the format recovers, each non-empty and at most 4 MiB -- and the bytes
    counted as media are those of its payloads. *)
Theorem flv_after_accept ops :
  Forall op_ok ops ->
  let '(s, taken) := rtmp_run_out ops in
  let out := taken ++ to_flv_ s in
  if publishing_ s then
    OpAccept ∈ ops
    /\ exists es, out = flv_header ++ zdrop 13 out /\ flv_read (S (length out)) (zdrop 13 out) = Some es
         /\ Forall entry_ok es /\ media_bytes_ s = u64 (total_len es)
  else out = [] /\ media_bytes_ s = 0.
Proof.
  intros H. pose proof (run_out_OutInv ops H) as [W Hm Hh Ha Ho].
  destruct (rtmp_run_out ops) as [s taken]. cbn [fst snd] in *.
  destruct (publishing_ s); [|done]. split; [by specialize (Ha eq_refl); apply bool_decide_eq_true in Ha|].
  destruct Ho as (es & F & O & M). exists es. rewrite O.
  assert (Ez : zdrop 13 (flv_header ++ concat (map entry_tag es)) = concat (map entry_tag es))
    by (unfold zdrop; by apply drop_app_length').
  rewrite Ez. split_and!; [done| |done|done]. apply flv_read_tags; [done|].
  rewrite length_app. assert (length es <= length (concat (map entry_tag es)))%nat; [|lia].
  clear. induction es as [|e es IH]; [done|]. cbn [map concat length]. rewrite length_app.
  pose proof (length_flv_tag e.1.1 e.1.2 e.2). unfold entry_tag at 1. lia.
Qed.

Lemma flv_after_accept_witness :
  let '(s, taken) := rtmp_run_out [OpFeed (demo_start ++ demo_publish (bs "cam") ++ demo_video) 100;
                                   OpAccept; OpDrainFlv; OpResume] in
  let out := taken ++ to_flv_ s in
  exists es, flv_read (S (length out)) (zdrop 13 out) = Some es /\ media_bytes_ s = u64 (total_len es) /\ len out = 33.
Proof.
  assert (H : Forall op_ok [OpFeed (demo_start ++ demo_publish (bs "cam") ++ demo_video) 100; OpAccept; OpDrainFlv; OpResume]).
  { constructor; [|repeat constructor].
    change (bytes_ok (demo_start ++ demo_publish (bs "cam") ++ demo_video)). decide_vm. }
  pose proof (flv_after_accept _ H) as Hf.
  destruct (rtmp_run_out _) as [s taken] eqn:E.
  assert (Ep : publishing_ s = true) by (apply (f_equal (fun x => publishing_ x.1)) in E; cbn [fst] in E; rewrite <-E; by vm_compute).
  rewrite Ep in Hf. destruct Hf as (_ & es & _ & Hr & _ & Hm). exists es. split_and!; [exact Hr|exact Hm|].
  apply (f_equal (fun x => len (x.2 ++ to_flv_ x.1))) in E. cbn [fst snd] in E. rewrite <-E. by vm_compute.
Defined.

(** ** A publisher's media, chunked and interleaved *)

Record media_msg := { g_csid : Z; g_ts : Z; g_type : Z; g_sid : Z; g_data : bytes }.

Definition media_ok (m : media_msg) : Prop :=
  2 <= g_csid m <= RTMP_MAX_CHUNK_STREAM /\ is_u32 (g_ts m) /\ (g_type m = 8 \/ g_type m = 9 \/ g_type m = 18)
  /\ is_u32 (g_sid m) /\ bytes_ok (g_data m) /\ 0 < len (g_data m) <= RTMP_MAX_MESSAGE_BYTES.

(** What a sender keeps for a chunk stream: the last message started on it, the timestamp
    step its header gave, the extension it carried if any, and the payload bytes sent. *)
Record strm := { st_msg : media_msg; st_step : Z; st_ext : option Z; st_sent : Z }.

Definition st_data (st : strm) : bytes := g_data (st_msg st).
Definition owing (st : strm) : bool := st_sent st <? len (st_data st).

(** A value that does not fit 24 bits goes in an extension, repeated on every chunk. *)
Definition saturated (v : Z) : option Z := if 0xffffff <=? v then Some v else None.

Definition same_shape (m m' : media_msg) : bool :=
  (g_sid m =? g_sid m') && (len (g_data m) =? len (g_data m')) && (g_type m =? g_type m').

(** The header formats a message can start with: 0 says everything; 1 leaves the message
    stream out; 2 the length and type too; 3 also the timestamp, one more step on.  The
    formats from 1 give the step from the message before. *)
Definition start_strm (fmt : Z) (m : media_msg) (prev : option strm) : option strm :=
  if fmt =? 0 then
    match prev with
    | Some p => if owing p then None else Some (Build_strm m 0 (saturated (g_ts m)) 0)
    | None => Some (Build_strm m 0 (saturated (g_ts m)) 0)
    end
  else
    match prev with
    | None => None
    | Some p =>
      let step := u32 (g_ts m - g_ts (st_msg p)) in
      if owing p then None
      else if (fmt =? 1) && (g_sid m =? g_sid (st_msg p)) || (fmt =? 2) && same_shape m (st_msg p)
      then Some (Build_strm m step (saturated step) 0)
      else if (fmt =? 3) && same_shape m (st_msg p) && (step =? st_step p)
      then Some (Build_strm m step (st_ext p) 0)
      else None
    end.

(** The basic header, in one, two or three bytes. *)
Definition basic (w csid fmt : Z) : option bytes :=
  if w =? 1 then if (2 <=? csid) && (csid <=? 63) then Some [64 * fmt + csid] else None
  else if w =? 2 then if (64 <=? csid) && (csid <=? 319) then Some [64 * fmt; csid - 64] else None
  else if w =? 3 then
    if (64 <=? csid) && (csid <=? 65599) then Some [64 * fmt + 1; (csid - 64) mod 256; (csid - 64) / 256] else None
  else None.

Definition field24 (fmt : Z) (st : strm) : Z :=
  match st_ext st with Some _ => 0xffffff | None => if fmt =? 0 then g_ts (st_msg st) else st_step st end.

Definition msg_header (fmt : Z) (st : strm) : bytes :=
  (if fmt <=? 2 then be_bytes 3 (field24 fmt st) else [])
  ++ (if fmt <=? 1 then be_bytes 3 (len (st_data st)) ++ [g_type (st_msg st)] else [])
  ++ (if fmt =? 0 then le_bytes 4 (g_sid (st_msg st)) else []).

Definition extension (st : strm) : bytes := from_option (be_bytes 4) [] (st_ext st).

Definition chunk_bytes (csz fmt : Z) (bb : bytes) (st : strm) : bytes :=
  bb ++ msg_header fmt st ++ extension st ++ slice (st_data st) (st_sent st) csz.

(** A sender may start a message with any header format the chunk stream's past allows, on
    a stream that owes nothing, or go on with one that does, in any interleaving, with
    basic headers of any width, keeping the unfinished bytes within the limit.  It yields
    the wire's bytes and the messages finished, in order. *)
Inductive send_act := Start (w fmt : Z) (m : media_msg) | Continue (w csid : Z).

Abbreviation strms := (gmap Z strm).

Definition picked (ss : strms) (a : send_act) : option (Z * Z * strm) :=
  match a with
  | Start w fmt m => (fun st => (w, fmt, st)) <$> start_strm fmt m (ss !! g_csid m)
  | Continue w csid =>
    match ss !! csid with Some st => if owing st then Some (w, 3, st) else None | None => None end
  end.

Definition sent_more (csz : Z) (st : strm) : strm :=
  Build_strm (st_msg st) (st_step st) (st_ext st) (st_sent st + Z.min csz (len (st_data st) - st_sent st)).

Fixpoint send_media (csz n : Z) (ss : strms) (acts : list send_act) : option (bytes * list media_msg) :=
  match acts with
  | [] => Some ([], [])
  | a :: acts =>
    '(w, fmt, st) ← picked ss a;
    bb ← basic w (g_csid (st_msg st)) fmt;
    let st' := sent_more csz st in
    let n' := n + (st_sent st' - st_sent st) in
    if RTMP_MAX_ASSEMBLY_BYTES <? n' then None
    else
      '(ws, fins) ← send_media csz (if owing st' then n' else n - st_sent st) (<[g_csid (st_msg st) := st']> ss) acts;
      Some (chunk_bytes csz fmt bb st ++ ws, (if owing st' then [] else [st_msg st]) ++ fins)
  end.

(** What the backend should get for a message. *)
Definition media_entry (m : media_msg) : flv_entry :=
  (g_type m, g_ts m, if g_type m =? 18 then unwrap_data (g_data m) else g_data m).

(** The session's side of a chunk stream. *)
Definition stream_of (st : strm) : ChunkStream :=
  {| ts := g_ts (st_msg st); delta := st_step st; mlen := len (st_data st); mtype := g_type (st_msg st);
     sid := g_sid (st_msg st); ext_ts := bool_decide (is_Some (st_ext st));
     acc := if owing st then ztake (st_sent st) (st_data st) else [] |}.

Definition strm_ok (st : strm) : Prop :=
  media_ok (st_msg st) /\ is_u32 (st_step st) /\ (forall x, st_ext st = Some x -> is_u32 x)
  /\ 0 <= st_sent st <= len (st_data st).

Record Receiving (csz n : Z) (ss : strms) s : Prop := {
  rv_Wf : Wf s;
  rv_state : state_ s = RTMP_CHUNKS;
  rv_publishing : publishing_ s = true /\ publish_pending_ s = false;
  rv_chunk : in_chunk_ s = csz;
  rv_held : assembly_bytes_ s = n;
  rv_known : forall csid st, ss !! csid = Some st ->
    (strm_ok st /\ 0 < st_sent st) /\ g_csid (st_msg st) = csid /\ stream_at s csid = stream_of st;
  rv_new : forall csid, 2 <= csid <= RTMP_MAX_CHUNK_STREAM -> ss !! csid = None -> acc (stream_at s csid) = []
}.

(** *** One chunk on the wire, decoded *)

Lemma length_basic w csid fmt bb : basic w csid fmt = Some bb -> len bb = w /\ 1 <= w <= 3.
Proof. unfold basic. intros H. repeat case_match; simplify_eq; reflect_bools; subst; cbn; lia. Qed.

Lemma split_first_byte fmt x : 0 <= fmt -> 0 <= x < 64 ->
  Z.shiftr (64 * fmt + x) 6 = fmt /\ Z.land (64 * fmt + x) 63 = x.
Proof.
  intros Hf Hc. rewrite Z.shiftr_div_pow2 by lia. change (2 ^ 6) with 64. change 63 with (Z.ones 6).
  rewrite Z.land_ones by lia. change (2 ^ 6) with 64.
  split; symmetry; [apply (Z.div_unique _ _ _ x)|apply (Z.mod_unique _ _ fmt)]; lia.
Qed.

Lemma basic_header_first pre fmt x l : 0 <= fmt -> 0 <= x < 64 ->
  basic_header (pre ++ (64 * fmt + x) :: l) (len pre)
  = if x =? 0 then if len l <? 1 then None else Some (fmt, 64 + byte_at l 0, 2)
    else if x =? 1 then if len l <? 2 then None else Some (fmt, 64 + byte_at l 0 + 256 * byte_at l 1, 3)
    else Some (fmt, x, 1).
Proof.
  intros Hf Hx. destruct (split_first_byte fmt x Hf Hx) as [E1 E2]. unfold basic_header.
  rewrite !byte_at_app_r, length_app by lia. rewrite Z.sub_diag, !Z.add_simpl_l.
  change (byte_at (?y :: l) 0) with y. change (byte_at (?y :: l) 1) with (byte_at l 0).
  change (byte_at (?y :: l) 2) with (byte_at l 1). rewrite E1, E2. cbn [length].
  case_match; [|case_match; [|done]]; reflect_bools.
  - destruct (Z.ltb_spec (len l) 1); [rewrite (proj2 (Z.ltb_lt _ _)) by lia|rewrite (proj2 (Z.ltb_ge _ _)) by lia]; done.
  - destruct (Z.ltb_spec (len l) 2); [rewrite (proj2 (Z.ltb_lt _ _)) by lia|rewrite (proj2 (Z.ltb_ge _ _)) by lia]; done.
Qed.

Lemma basic_header_at w csid fmt bb pre l :
  0 <= fmt <= 3 -> basic w csid fmt = Some bb -> basic_header (pre ++ bb ++ l) (len pre) = Some (fmt, csid, w).
Proof.
  intros Hf H. unfold basic in H. repeat case_match; simplify_eq; reflect_bools; subst; cbn [app].
  - rewrite basic_header_first by lia. by rewrite (proj2 (Z.eqb_neq csid 0)), (proj2 (Z.eqb_neq csid 1)) by lia.
  - rewrite <-(Z.add_0_r (64 * fmt)), basic_header_first by lia. change (0 =? 0) with true. cbn [length].
    rewrite (proj2 (Z.ltb_ge _ _)) by lia. change (byte_at (?y :: l) 0) with y. do 3 f_equal. lia.
  - rewrite basic_header_first by lia. change (1 =? 0) with false. change (1 =? 1) with true. cbn [length].
    rewrite (proj2 (Z.ltb_ge _ _)) by lia. change (byte_at (?y :: _) 0) with y. change (byte_at (_ :: ?y :: l) 1) with y.
    do 3 f_equal. pose proof (Z.div_mod (csid - 64) 256). lia.
Qed.

Lemma slice_at pre l i n : 0 <= i -> slice (pre ++ l) (len pre + i) n = slice l i n.
Proof. intros. rewrite slice_skip by lia. f_equal. lia. Qed.

Lemma zdrop_at {A} (pre l : list A) i : 0 <= i -> zdrop (len pre + i) (pre ++ l) = zdrop i l.
Proof. intros. unfold zdrop. rewrite drop_app_ge by lia. f_equal. lia. Qed.

Lemma length_extension st : len (extension st) = if bool_decide (is_Some (st_ext st)) then 4 else 0.
Proof. unfold extension. destruct (st_ext st) as [x|]; [exact (f_equal Z.of_nat (length_be_bytes 4 x))|done]. Qed.

Lemma length_msg_header fmt st : 0 <= fmt <= 3 -> len (msg_header fmt st) = mh fmt.
Proof.
  intros H. unfold msg_header, mh. autorewrite with proxy_len.
  assert (fmt = 0 \/ fmt = 1 \/ fmt = 2 \/ fmt = 3) as [->|[->|[->| ->]]] by lia; cbn; by rewrite ?length_be_bytes, ?length_le_bytes.
Qed.

Lemma chunk_payload_at s c c' fmt pos k :
  Wf s -> 0 <= mlen c' <= RTMP_MAX_MESSAGE_BYTES -> fmt = 3 \/ acc c = [] -> len (acc c) <= mlen c' ->
  k = Z.min (in_chunk_ s) (mlen c' - len (acc c)) -> pos + k <= len (in_ s) ->
  assembly_bytes_ s + k <= RTMP_MAX_ASSEMBLY_BYTES ->
  chunk_payload s c c' fmt pos = Chunk c' (slice (in_ s) pos k) (pos + k).
Proof.
  intros W Hm Hf Hle Hk Hlen Hasm. unfold chunk_payload.
  pose proof (wf_pos _ W) as (_ & _ & Hc). pose proof (wf_held _ W) as [Hh _]. pose proof (held_nonneg (cs_ s)).
  unfold RTMP_MAX_ASSEMBLY_BYTES, RTMP_MAX_MESSAGE_BYTES in *.
  rewrite (proj2 (Z.ltb_ge _ (mlen c'))) by lia.
  assert (E : negb (fmt =? 3) && negb (len (acc c) =? 0) = false).
  { destruct Hf as [->| ->]; [done|]. by rewrite andb_false_r. }
  rewrite E, (wrap_small 64 (mlen c' - _)) by lia.
  assert (Ek : (if mlen c' - len (acc c) <? in_chunk_ s then mlen c' - len (acc c) else in_chunk_ s) = k)
    by (destruct (Z.ltb_spec (mlen c' - len (acc c)) (in_chunk_ s)); lia).
  rewrite Ek, (proj2 (Z.ltb_ge _ _)) by lia. rewrite wrap_small by lia. by rewrite (proj2 (Z.ltb_ge _ _)) by lia.
Qed.

Lemma slice_beyond l i n k : 0 <= i -> k = Z.min n (len l - i) -> slice l i n = slice l i k.
Proof.
  intros Hi ->. unfold slice. destruct (Z.le_ge_cases n (len l - i)).
  - by rewrite Z.min_l.
  - rewrite Z.min_r by lia. rewrite !take_ge; [done|rewrite length_drop; lia..].
Qed.

(** A 24-bit field holds its value unless the extension does. *)
Definition field_fits (fmt : Z) (st : strm) : Prop :=
  fmt <= 2 -> st_ext st = saturated (if fmt =? 0 then g_ts (st_msg st) else st_step st).

Lemma field24_spec fmt st : strm_ok st -> field_fits fmt st -> fmt <= 2 ->
  0 <= field24 fmt st < 2 ^ 24 /\ (field24 fmt st =? 0xffffff) = bool_decide (is_Some (st_ext st))
  /\ (if field24 fmt st =? 0xffffff then default 0 (st_ext st) else field24 fmt st) = if fmt =? 0 then g_ts (st_msg st) else st_step st.
Proof.
  intros ((_ & Ht & _) & Hs & _) Hf Hfmt. specialize (Hf Hfmt). unfold field24, saturated, is_u32 in *.
  set (v := if fmt =? 0 then g_ts (st_msg st) else st_step st) in *.
  assert (Hv : 0 <= v) by (unfold v; destruct (fmt =? 0); lia).
  destruct (Z.leb_spec 0xffffff v); rewrite Hf; cbn; [split_and!; [lia..|done]|].
  rewrite (proj2 (Z.eqb_neq _ _)) by lia. split_and!; [lia..|done|done].
Qed.

(** What a header says, whatever comes after it. *)
Lemma header_says fmt st tail :
  0 <= fmt <= 3 -> strm_ok st -> field_fits fmt st ->
  let h := msg_header fmt st ++ tail in
  (fmt <= 2 -> be_val (slice h 0 3) = field24 fmt st)
  /\ (fmt <= 1 -> be_val (slice h 3 3) = len (st_data st) /\ byte_at h 6 = g_type (st_msg st))
  /\ (fmt = 0 -> le_val (slice h 7 4) = g_sid (st_msg st)).
Proof.
  intros Hf Hok Hfits h. pose proof (field24_spec fmt st Hok Hfits) as Hfl.
  destruct Hok as ((_ & _ & _ & Hs & _ & Hl) & _). unfold RTMP_MAX_MESSAGE_BYTES, is_u32 in *. fold (st_data st) in Hl.
  unfold h, msg_header. split_and!; intros Hle.
  - rewrite (proj2 (Z.leb_le fmt 2)) by lia. rewrite <-!app_assoc. slice_norm. apply be_val_be_bytes_small. lia.
  - rewrite (proj2 (Z.leb_le fmt 2)), (proj2 (Z.leb_le fmt 1)) by lia. rewrite <-!app_assoc. split; [|done].
    slice_norm. apply be_val_be_bytes_small. lia.
  - subst fmt. cbn [Z.leb Z.eqb Z.compare]. rewrite <-!app_assoc. slice_norm. apply le_val_le_bytes_small. lia.
Qed.

Definition header_gives (c : ChunkStream) (fmt : Z) (st : strm) : Prop :=
  forall h tf x, (fmt <= 2 -> tf = field24 fmt st) ->
    (fmt <= 1 -> be_val (slice h 3 3) = len (st_data st) /\ byte_at h 6 = g_type (st_msg st)) ->
    (fmt = 0 -> le_val (slice h 7 4) = g_sid (st_msg st)) ->
    x = default 0 (st_ext st) ->
    header_times (header_fields c fmt h) fmt tf x = stream_of st.

Lemma decode_sent csz w bb fmt st s pre rest :
  Wf s -> strm_ok st -> owing st = true -> in_chunk_ s = csz -> 0 <= fmt <= 3 ->
  basic w (g_csid (st_msg st)) fmt = Some bb -> field_fits fmt st ->
  in_ s = pre ++ chunk_bytes csz fmt bb st ++ rest -> in_pos_ s = len pre ->
  let c := stream_at s (g_csid (st_msg st)) in
  fmt = 3 \/ acc c = [] -> len (acc c) = st_sent st ->
  (fmt = 3 -> ext_ts c = bool_decide (is_Some (st_ext st))) -> header_gives c fmt st ->
  assembly_bytes_ s + Z.min csz (len (st_data st) - st_sent st) <= RTMP_MAX_ASSEMBLY_BYTES ->
  decode_chunk s fmt (g_csid (st_msg st)) w
  = Chunk (stream_of st) (slice (st_data st) (st_sent st) csz) (len pre + len (chunk_bytes csz fmt bb st)).
Proof.
  intros W Hok How Hcsz Hf Hbb Hfits Hin Hpos c Hfree Hacc Hx3 Hgives Hasm.
  pose proof (wf_pos _ W) as (_ & _ & Hck). rewrite Hcsz in Hck. destruct (length_basic _ _ _ _ Hbb) as [Lw Hw].
  pose proof Hok as (Hm & _ & Hext & Hsent). pose proof Hm as (_ & _ & _ & _ & _ & Hl). fold (st_data st) in Hl.
  unfold owing in How. apply Z.ltb_lt in How.
  set (k := Z.min csz (len (st_data st) - st_sent st)) in *. set (hd := msg_header fmt st).
  assert (Epl : slice (st_data st) (st_sent st) csz = slice (st_data st) (st_sent st) k) by (apply slice_beyond; lia).
  assert (Lpl : len (slice (st_data st) (st_sent st) k) = k) by (rewrite length_slice; lia).
  assert (Lh : len hd = mh fmt) by (by apply length_msg_header). pose proof (length_extension st) as Lx.
  assert (Lc : len (chunk_bytes csz fmt bb st) = w + mh fmt + len (extension st) + k).
  { unfold chunk_bytes. rewrite Epl. fold hd. rewrite !length_app. lia. }
  assert (Lin : len (in_ s) = len pre + len (chunk_bytes csz fmt bb st) + len rest) by (rewrite Hin, !length_app; lia).
  assert (Ein : in_ s = (pre ++ bb ++ hd) ++ extension st ++ slice (st_data st) (st_sent st) k ++ rest).
  { rewrite Hin. unfold chunk_bytes. rewrite Epl. fold hd. by rewrite <-!app_assoc. }
  assert (LP : len (pre ++ bb ++ hd) = len pre + w + mh fmt) by (rewrite !length_app; lia).
  assert (Hmh : 0 <= mh fmt) by lia.
  unfold decode_chunk. rewrite Hpos. fold c. rewrite (proj2 (Z.ltb_ge _ _)) by lia.
  assert (Eh : zdrop (len pre + w) (in_ s) = hd ++ extension st ++ slice (st_data st) (st_sent st) k ++ rest).
  { rewrite Ein, <-!app_assoc, zdrop_at by lia. unfold zdrop. apply drop_app_length'. lia. }
  rewrite Eh. destruct (header_says fmt st (extension st ++ slice (st_data st) (st_sent st) k ++ rest) Hf Hok Hfits)
    as (H1 & H2 & H3). fold hd in H1, H2, H3. set (h := hd ++ _) in *.
  set (tf := if fmt <=? 2 then be_val (slice h 0 3) else ts c).
  assert (Htf : fmt <= 2 -> tf = field24 fmt st).
  { intros Hle. unfold tf. rewrite (proj2 (Z.leb_le _ _)) by lia. by apply H1. }
  assert (Hwant : ((fmt <=? 2) && (tf =? 0xffffff)) || ((fmt =? 3) && ext_ts c) = bool_decide (is_Some (st_ext st))).
  { destruct (Z.leb_spec fmt 2).
    - rewrite Htf by lia. destruct (field24_spec fmt st Hok Hfits) as (_ & -> & _); [lia|].
      rewrite (proj2 (Z.eqb_neq fmt 3)) by lia. by rewrite orb_false_r.
    - rewrite (proj2 (Z.eqb_eq fmt 3)), Hx3 by lia. done. }
  rewrite Hwant.
  assert (Hpay : forall pos, pos = len pre + w + mh fmt + len (extension st) ->
    chunk_payload s c (stream_of st) fmt pos
    = Chunk (stream_of st) (slice (st_data st) (st_sent st) csz) (len pre + len (chunk_bytes csz fmt bb st))).
  { intros pos ->. rewrite (chunk_payload_at s c (stream_of st) fmt _ k); cbn [mlen stream_of]; try done; try lia.
    f_equal; [|lia]. rewrite Epl, Ein, <-LP, slice_at by lia. by slice_norm. }
  destruct (st_ext st) as [x|] eqn:Ex; cbn in Lx |- *.
  - rewrite (proj2 (Z.ltb_ge _ _)) by lia.
    assert (Ee : be_val (slice (in_ s) (len pre + w + mh fmt) 4) = x).
    { rewrite Ein, <-LP, <-(Z.add_0_r (len (pre ++ _))), slice_at by lia. unfold extension. rewrite Ex. cbn [from_option].
      slice_norm. apply be_val_be_bytes_small. specialize (Hext x eq_refl). unfold is_u32 in Hext. lia. }
    rewrite Ee, Hgives by (done || by rewrite Ex). apply Hpay. lia.
  - rewrite Hgives by (done || by rewrite Ex). apply Hpay. lia.
Qed.

(** *** One chunk committed *)

Lemma length_ack v : len (rtmp_msg 2 3 0 (be_bytes 4 v) 0) = 16.
Proof.
  unfold rtmp_msg. pose proof (length_be_bytes 4 v) as L. destruct (be_bytes 4 v) as [|a [|b [|c [|d [|]]]]]; done.
Qed.

Lemma acknowledge_facts s k :
  let s' := acknowledge s k in
  core s' = core s /\ (state_ s' = state_ s /\ publishing_ s' = publishing_ s
  /\ publish_pending_ s' = publish_pending_ s /\ to_flv_ s' = to_flv_ s)
  /\ len (to_peer_ s') <= len (to_peer_ s) + 16.
Proof.
  cbv zeta. split; [apply acknowledge_core|]. unfold acknowledge. destruct (_ && _)%bool; [|split; [done|cbn; lia]].
  split; [done|]. unfold send_msg. cbn [to_peer_ acked_ bytes_in_]. by rewrite length_app, Nat2Z.inj_add, length_ack.
Qed.

(** The parts of a session a receiving step is described by. *)
Definition view s : rtmp_state * bool * bool * bytes * Z * Z * list ChunkStream * bytes :=
  (state_ s, publishing_ s, publish_pending_ s, in_ s, in_pos_ s, in_chunk_ s, cs_ s, to_flv_ s).

Lemma commit_open s csid c pl after :
  len (acc c ++ pl) < mlen c -> len (to_peer_ s) + 16 <= RTMP_MAX_OUT_BYTES ->
  exists s', commit_chunk s csid c pl after = (true, s')
    /\ view s' = (state_ s, publishing_ s, publish_pending_ s, in_ s, after, in_chunk_ s,
                  <[Z.to_nat csid := c <| acc := acc c ++ pl |>]> (cs_ s), to_flv_ s)
    /\ assembly_bytes_ s' = u64 (assembly_bytes_ s + len pl) /\ len (to_peer_ s') <= len (to_peer_ s) + 16.
Proof.
  intros Hl Hp. destruct (acknowledge_facts s (after - in_pos_ s)) as ([= A1 A2 A3 A4 A5] & (A6 & A7 & A8 & A9) & A10).
  unfold commit_chunk, check_out, deliver, absorb. set (s0 := acknowledge _ _) in *. clearbody s0. cbv zeta.
  cbn [acc mlen]. rewrite (proj2 (Z.leb_gt _ _)) by lia. cbn [negb to_peer_ set_stream].
  rewrite (proj2 (Z.ltb_ge _ _)) by lia. eexists. split; [reflexivity|]. split.
  - unfold view, set_stream. cbn. by rewrite A1, A3, A4, A6, A7, A8, A9.
  - cbn. by rewrite A5.
Qed.

Lemma on_media_view s ty t p :
  publishing_ s = true -> 0 < len p ->
  view (on_media s ty t p)
  = (state_ s, publishing_ s, publish_pending_ s, in_ s, in_pos_ s, in_chunk_ s, cs_ s,
     to_flv_ s ++ flv_tag ty t (if ty =? 18 then unwrap_data p else p))
  /\ to_peer_ (on_media s ty t p) = to_peer_ s.
Proof.
  intros Hp Hn. unfold on_media. rewrite Hp, (proj2 (Z.eqb_neq (len p) 0)) by lia. cbn [negb orb].
  destruct ((ty =? 9) && _)%bool; by rewrite <-Hp.
Qed.

Lemma commit_media s csid c pl after :
  mlen c <= len (acc c ++ pl) -> mtype c = 8 \/ mtype c = 9 \/ mtype c = 18 -> publishing_ s = true ->
  0 < len (acc c ++ pl) -> len (to_peer_ s) + 16 <= RTMP_MAX_OUT_BYTES ->
  let p := acc c ++ pl in
  exists s', commit_chunk s csid c pl after = (true, s')
    /\ view s' = (state_ s, publishing_ s, publish_pending_ s, in_ s, after, in_chunk_ s,
                  <[Z.to_nat csid := c <| acc := ([] : bytes) |>]> (cs_ s),
                  to_flv_ s ++ flv_tag (mtype c) (ts c) (if mtype c =? 18 then unwrap_data p else p))
    /\ len (to_peer_ s') <= len (to_peer_ s) + 16.
Proof.
  intros Hl Ht Hpub Hn Hp p. destruct (acknowledge_facts s (after - in_pos_ s)) as ([= A1 A2 A3 A4 A5] & (A6 & A7 & A8 & A9) & A10).
  unfold commit_chunk, check_out, deliver, absorb. set (s0 := acknowledge _ _) in *. clearbody s0. cbv zeta.
  cbn [ts delta mlen mtype sid ext_ts acc]. fold p in Hl, Hn |- *. rewrite (proj2 (Z.leb_le (mlen c) (len p)) Hl).
  set (c0 := c <| acc := ([] : bytes) |>). set (s1 := set_stream _ _ c0).
  assert (Em : on_message s1 c0 p = (true, on_media s1 (mtype c) (ts c) p)).
  { unfold on_message. change (mtype c0) with (mtype c). change (ts c0) with (ts c). by destruct Ht as [->|[->| ->]]. }
  rewrite Em. cbn [negb]. assert (P1 : publishing_ s1 = true) by (unfold s1, set_stream; cbn; congruence).
  assert (T1 : to_flv_ s1 = to_flv_ s) by (unfold s1, set_stream; cbn; done).
  pose proof (on_media_view s1 (mtype c) (ts c) p P1 Hn) as Ef. rewrite T1 in Ef.
  destruct Ef as [Ef Ep]. rewrite Ep. assert (Ep1 : to_peer_ s1 = to_peer_ s0) by done. rewrite Ep1.
  rewrite (proj2 (Z.ltb_ge _ _)) by lia. eexists. split; [reflexivity|]. rewrite Ef, Ep, Ep1. split; [|lia].
  unfold s1, set_stream, c0. cbn. rewrite list_insert_insert_eq. by rewrite A1, A3, A4, A6, A7, A8.
Qed.

(** *** Receiving what is sent *)

Lemma stream_at_resize s csid x : 0 <= x -> stream_at (resize_streams s csid) x = stream_at s x.
Proof.
  intros Hx. unfold stream_at, resize_streams. destruct (_ <=? _); [|done]. cbn [cs_]. rewrite !nth_lookup.
  destruct (lt_dec (Z.to_nat x) (length (cs_ s))); [by rewrite lookup_app_l|].
  rewrite lookup_app_r, (lookup_ge_None_2 (cs_ s)) by lia.
  destruct (replicate _ _ !! _) eqn:E; [|done]. by apply lookup_replicate in E as [-> _].
Qed.

Lemma stream_at_insert s s' csid c x :
  cs_ s' = <[Z.to_nat csid := c]> (cs_ s) -> 0 <= csid < len (cs_ s) -> 0 <= x ->
  stream_at s' x = if decide (x = csid) then c else stream_at s x.
Proof.
  intros E Hc Hx. unfold stream_at. rewrite E, !nth_lookup. case_decide as Hxc.
  - subst x. by rewrite list_lookup_insert_eq by lia.
  - rewrite list_lookup_insert_ne; [done|lia].
Qed.

Lemma grow_payload (d : bytes) off csz :
  0 <= off <= len d -> 0 <= csz ->
  ztake off d ++ slice d off csz = ztake (off + Z.min csz (len d - off)) d.
Proof.
  intros Ho Hc. rewrite (slice_beyond d off csz (Z.min csz (len d - off))) by lia.
  unfold ztake, slice. set (k := Z.min _ _). replace (Z.to_nat (off + k)) with (Z.to_nat off + Z.to_nat k)%nat by lia.
  by rewrite take_take_drop.
Qed.

(** What a chunk needs of the stream it comes on. *)
Record Fits (c : ChunkStream) (fmt : Z) (st : strm) : Prop := {
  ft_fmt : 0 <= fmt <= 3;
  ft_ok : strm_ok st;
  ft_owing : owing st = true;
  ft_field : field_fits fmt st;
  ft_free : fmt = 3 \/ acc c = [];
  ft_acc : len (acc c) = st_sent st;
  ft_ext : fmt = 3 -> ext_ts c = bool_decide (is_Some (st_ext st));
  ft_gives : header_gives c fmt st
}.

Lemma saturated_u32 v x : is_u32 v -> saturated v = Some x -> is_u32 x.
Proof. unfold saturated. intros H E. case_match; by simplify_eq. Qed.

Lemma fresh_stream m step ext : media_ok m -> is_u32 step -> (forall x, ext = Some x -> is_u32 x) ->
  let st := Build_strm m step ext 0 in
  strm_ok st /\ owing st = true
  /\ stream_of st = {| ts := g_ts m; delta := step; mlen := len (g_data m); mtype := g_type m; sid := g_sid m;
       ext_ts := bool_decide (is_Some ext); acc := [] |}.
Proof.
  intros Hm Hs He. pose proof Hm as (_ & _ & _ & _ & _ & Hl). split_and!.
  - split_and!; try done. unfold st_data. cbn. lia.
  - apply Z.ltb_lt. unfold st_data. cbn. lia.
  - unfold stream_of. by case_match.
Qed.

(** A message's first header, in any of the four formats. *)
Lemma full_start c m : media_ok m -> acc c = [] -> Fits c 0 (Build_strm m 0 (saturated (g_ts m)) 0).
Proof.
  intros Hm Hc. pose proof Hm as (_ & Ht & _).
  destruct (fresh_stream m 0 (saturated (g_ts m)) Hm) as (Hok & How & Hst); [done|by intros x; apply saturated_u32|].
  split; try done; [by right|by rewrite Hc|].
  intros h tf x Htf Hlt Hsid Hx. specialize (Htf ltac:(lia)). destruct (Hlt ltac:(lia)) as [E1 E2]. specialize (Hsid eq_refl).
  destruct (field24_spec 0 _ Hok ltac:(done) ltac:(lia)) as (_ & F2 & F3).
  unfold header_times, header_fields. cbn [Z.leb Z.eqb Z.compare]. cbv zeta. rewrite Htf, Hx, F3, F2, Hst.
  rewrite E1, E2, Hsid. cbn [ts delta mlen mtype sid ext_ts acc]. by rewrite Hc.
Qed.

Definition idle_after (c : ChunkStream) (p : strm) : Prop := c = stream_of p /\ owing p = false /\ strm_ok p.

Lemma step_back t t' : is_u32 t -> u32 (t' + u32 (t - t')) = t.
Proof. intros H. rewrite wrap_add_r. rewrite wrap_small; unfold is_u32 in H; lia. Qed.

Lemma step_start c fmt m (p : strm) :
  idle_after c p -> media_ok m -> g_sid m = g_sid (st_msg p) -> fmt = 1 \/ fmt = 2 /\ same_shape m (st_msg p) = true ->
  let step := u32 (g_ts m - g_ts (st_msg p)) in
  Fits c fmt (Build_strm m step (saturated step) 0).
Proof.
  intros (Hc & Hp & Hpok) Hm Hsid Hfmt step. pose proof Hm as (_ & Ht & _).
  assert (Hs : is_u32 step) by (unfold step; apply wrap_range; lia).
  destruct (fresh_stream m step (saturated step) Hm Hs) as (Hok & How & Hst); [intros x; by apply saturated_u32|].
  assert (Hf : 1 <= fmt <= 2) by lia. assert (Hacc : acc c = []) by (rewrite Hc; cbn; by rewrite Hp).
  assert (Hfits : field_fits fmt (Build_strm m step (saturated step) 0)).
  { intros _. cbn. by rewrite (proj2 (Z.eqb_neq _ _)) by lia. }
  split; try done; [lia|by right|by rewrite Hacc|lia|].
  intros h tf x Htf Hlt _ Hx. specialize (Htf ltac:(lia)).
  destruct (field24_spec fmt _ Hok Hfits ltac:(lia)) as (_ & F2 & F3).
  assert (Eh : header_fields c fmt h = c <| mlen := len (g_data m) |> <| mtype := g_type m |>).
  { unfold header_fields. rewrite (proj2 (Z.eqb_neq _ _)) by lia. destruct Hfmt as [->|[-> Hsame]]; cbn.
    - by destruct (Hlt ltac:(lia)) as [-> ->].
    - unfold same_shape in Hsame. reflect_bools. rewrite Hc. unfold stream_of. cbn. by f_equal. }
  rewrite Eh. unfold header_times. rewrite (proj2 (Z.leb_le _ _)), (proj2 (Z.eqb_neq fmt 0)) in * by lia.
  cbv zeta. rewrite Htf, Hx, F3, F2, Hst. rewrite Hc. cbn [ts delta mlen mtype sid ext_ts acc stream_of st_step st_ext].
  unfold step. rewrite Hp, step_back by done. by rewrite Hsid.
Qed.

Lemma repeat_start c m (p : strm) :
  idle_after c p -> media_ok m -> same_shape m (st_msg p) = true -> u32 (g_ts m - g_ts (st_msg p)) = st_step p ->
  Fits c 3 (Build_strm m (st_step p) (st_ext p) 0).
Proof.
  intros (Hc & Hp & Hpok) Hm Hsame Hstep. pose proof Hm as (_ & Ht & _). pose proof Hpok as (_ & Hs & He & _).
  destruct (fresh_stream m (st_step p) (st_ext p) Hm Hs He) as (Hok & How & Hst).
  assert (Hacc : acc c = []) by (rewrite Hc; cbn; by rewrite Hp).
  split; try done; [intros ?; lia|by left|by rewrite Hacc|by rewrite Hc|].
  intros h tf x _ _ _ _. unfold header_times, header_fields.
  change (3 <=? 2) with false. change (3 =? 0) with false. change (3 =? 1) with false. cbv iota. rewrite Hacc. cbn [length].
  change (Z.of_nat 0 =? 0) with true. cbv iota. rewrite Hst, Hc. unfold same_shape in Hsame. reflect_bools.
  cbn [ts delta mlen mtype sid ext_ts acc stream_of]. rewrite <-Hstep, step_back by done.
  unfold st_data. by f_equal.
Qed.

Lemma continued st : strm_ok st -> owing st = true -> 0 < st_sent st -> Fits (stream_of st) 3 st.
Proof.
  intros Hok How Hpos. pose proof Hok as (_ & _ & _ & Hle).
  assert (La : len (acc (stream_of st)) = st_sent st) by (cbn; rewrite How, length_ztake; lia).
  split; try done; [intros ?; lia|by left|].
  intros h tf x _ _ _ _. unfold header_times, header_fields.
  change (3 <=? 2) with false. change (3 =? 0) with false. change (3 =? 1) with false. cbv iota.
  by rewrite (proj2 (Z.eqb_neq _ _)) by lia.
Qed.
(** *** What the sender picks, received *)

Definition act_ok (a : send_act) : Prop := match a with Start _ _ m => media_ok m | Continue _ _ => True end.

Lemma picked_fits csz n ss s a w fmt st :
  Receiving csz n ss s -> act_ok a -> picked ss a = Some (w, fmt, st) ->
  Fits (stream_at s (g_csid (st_msg st))) fmt st.
Proof.
  intros R Ha Hp. destruct a as [w' f m|w' csid]; cbn in Hp.
  - apply fmap_Some in Hp as (st' & Hs & [= -> -> ->]). pose proof Ha as (Hc & _).
    assert (Eg : g_csid (st_msg st') = g_csid m).
    { unfold start_strm in Hs. repeat case_match; by simplify_eq. }
    rewrite Eg. set (c := stream_at s (g_csid m)).
    destruct (ss !! g_csid m) as [q|] eqn:El.
    + destruct (rv_known _ _ _ _ R _ _ El) as ([Hq _] & _ & Hst). unfold start_strm in Hs.
      destruct (owing q) eqn:How; [by case_match|].
      assert (Hi : idle_after c q) by done.
      assert (Hacc : acc c = []) by (unfold c; rewrite Hst; cbn; by rewrite How).
      destruct (Z.eqb_spec f 0) as [->|]; [injection Hs as <-; by apply full_start|].
      destruct ((f =? 1) && _ || _)%bool eqn:E1.
      * injection Hs as <-. apply orb_true_iff in E1 as [[E1 E2]%andb_true_iff|[E1 E2]%andb_true_iff]; reflect_bools; subst f.
        -- apply step_start; [done..|by left].
        -- apply step_start; [done..| |by right]. unfold same_shape in E2. by reflect_bools.
      * destruct ((f =? 3) && _ && _)%bool eqn:E2; [|done]. injection Hs as <-.
        apply andb_true_iff in E2 as [[E2 E3]%andb_true_iff E4]. apply Z.eqb_eq in E2 as ->. apply Z.eqb_eq in E4.
        rewrite E4. by apply repeat_start.
    + unfold start_strm in Hs. destruct (Z.eqb_spec f 0) as [->|]; [|done]. injection Hs as <-.
      apply full_start; [done|]. by apply (rv_new _ _ _ _ R).
  - destruct (ss !! csid) as [q|] eqn:El; [|done]. destruct (owing q) eqn:How; [|done]. injection Hp as <- <- <-.
    destruct (rv_known _ _ _ _ R _ _ El) as ([Hq Hq0] & -> & ->). by apply continued.
Qed.

Definition cursor s (w : bytes) : Prop := exists pre, in_ s = pre ++ w /\ in_pos_ s = len pre.

Lemma sent_more_ok csz st : 1 <= csz -> strm_ok st -> owing st = true ->
  strm_ok (sent_more csz st) /\ 0 < st_sent (sent_more csz st) /\ st_msg (sent_more csz st) = st_msg st.
Proof.
  intros Hc (Hm & Hs & He & Ho) How. apply Z.ltb_lt in How.
  split; [split; [done|split; [done|split; [done|]]]|split; [|done]]; change (st_sent (sent_more csz st)) with (st_sent st + Z.min csz (len (st_data st) - st_sent st));
    change (st_data (sent_more csz st)) with (st_data st); lia.
Qed.

(** The stream once the chunk's payload is appended, and a finished message taken out. *)
Lemma stream_of_more csz st : 1 <= csz -> 0 <= st_sent st -> owing st = true ->
  let st' := sent_more csz st in
  let c := stream_of st in
  let grown := acc c ++ slice (st_data st) (st_sent st) csz in
  grown = ztake (st_sent st') (st_data st) /\ len grown = st_sent st'
  /\ stream_of st' = c <| acc := if owing st' then grown else [] |>.
Proof.
  intros Hc H0 How. cbv zeta. cbn [acc stream_of]. rewrite How. apply Z.ltb_lt in How.
  rewrite grow_payload by lia. change (st_sent (sent_more csz st)) with (st_sent st + Z.min csz (len (st_data st) - st_sent st)).
  split; [done|]. split; [rewrite length_ztake; lia|done].
Qed.

Lemma recv_decode csz n ss s w fmt st bb rest :
  Receiving csz n ss s -> Fits (stream_at s (g_csid (st_msg st))) fmt st ->
  basic w (g_csid (st_msg st)) fmt = Some bb -> cursor s (chunk_bytes csz fmt bb st ++ rest) ->
  n + Z.min csz (len (st_data st) - st_sent st) <= RTMP_MAX_ASSEMBLY_BYTES ->
  parse_step s = commit_chunk (resize_streams s (g_csid (st_msg st))) (g_csid (st_msg st)) (stream_of st)
    (slice (st_data st) (st_sent st) csz) (in_pos_ s + len (chunk_bytes csz fmt bb st)).
Proof.
  intros [W Hst _ Hcsz Hheld _ _] [Hf Hok How Hfld Hfree Hacc Hx Hg] Hbb (pre & Hin & Hpos) Hasm.
  pose proof Hok as ((Hc & _) & _). destruct (length_basic _ _ _ _ Hbb) as [Lw Hw].
  assert (Lc : 0 < len (chunk_bytes csz fmt bb st)) by (unfold chunk_bytes; rewrite length_app; lia).
  set (csid := g_csid (st_msg st)) in *.
  destruct (resize_Wf s csid W) as [Wr _]; [lia|]. destruct (resize_core s csid) as (R1 & R2 & _).
  assert (R3 : assembly_bytes_ (resize_streams s csid) = n) by (unfold resize_streams; by destruct (_ <=? _)).
  unfold parse_step. rewrite bool_decide_true by done. unfold parse_chunks.
  rewrite (proj2 (Z.leb_gt _ _)) by (rewrite Hpos, Hin, !length_app; lia).
  rewrite Hpos at 1. rewrite Hin at 1. unfold chunk_bytes at 1. rewrite <-app_assoc, (basic_header_at w csid fmt bb) by done.
  rewrite (proj2 (Z.ltb_ge _ _)) by lia. rewrite Hpos.
  rewrite (decode_sent csz w bb fmt st _ pre rest); try done;
    rewrite ?R1, ?R2, ?resize_chunk, ?stream_at_resize, ?R3 by lia; done.
Qed.

Lemma recv_step csz n ss s w fmt st bb rest :
  let st' := sent_more csz st in
  let n' := n + (st_sent st' - st_sent st) in
  Receiving csz n ss s -> Fits (stream_at s (g_csid (st_msg st))) fmt st ->
  basic w (g_csid (st_msg st)) fmt = Some bb -> cursor s (chunk_bytes csz fmt bb st ++ rest) ->
  n' <= RTMP_MAX_ASSEMBLY_BYTES -> len (to_peer_ s) + 16 <= RTMP_MAX_OUT_BYTES ->
  exists s', parse_step s = (true, s')
    /\ Receiving csz (if owing st' then n' else n - st_sent st) (<[g_csid (st_msg st) := st']> ss) s' /\ cursor s' rest
    /\ to_flv_ s' = to_flv_ s ++ concat (map entry_tag (map media_entry (if owing st' then [] else [st_msg st])))
    /\ len (to_peer_ s') <= len (to_peer_ s) + 16.
Proof.
  intros st' n' R F Hbb Hcur Hasm Hout. pose proof R as [W Hst [Hpub Hpend] Hcsz Hheld Hknown Hnew].
  pose proof F as [Hf Hok How _ _ Hacc _ _]. pose proof (wf_pos _ W) as (_ & _ & Hck). rewrite Hcsz in Hck.
  pose proof Hok as ((Hc & _ & Hty & _ & _ & Hl) & _ & _ & Hsent).
  destruct (sent_more_ok csz st ltac:(lia) Hok How) as (Hok' & Hpos' & Em). fold st' in Hok', Hpos', Em.
  destruct (stream_of_more csz st ltac:(lia) ltac:(lia) How) as (Hgrow & Lgrow & Hst'). fold st' in Hgrow, Lgrow, Hst'.
  assert (En : st_sent st' - st_sent st = Z.min csz (len (st_data st) - st_sent st)) by (cbn; lia).
  pose proof (recv_decode csz n ss s w fmt st bb rest R F Hbb Hcur ltac:(lia)) as Ep.
  set (csid := g_csid (st_msg st)) in *. set (w' := chunk_bytes csz fmt bb st) in *.
  set (pl := slice (st_data st) (st_sent st) csz) in *.
  destruct (resize_Wf s csid W) as [Wr Hlt]; [lia|]. set (r := resize_streams s csid) in *.
  assert (Vr : view r = (state_ s, publishing_ s, publish_pending_ s, in_ s, in_pos_ s, in_chunk_ s, cs_ r, to_flv_ s)
    /\ to_peer_ r = to_peer_ s) by (unfold r, resize_streams, view; by destruct (_ <=? _)).
  destruct Vr as [[= V1 V2 V3 V4 V5 V6 V8] V9].
  destruct (parse_step_stepped s W) as [W' _ _ _]. destruct Hcur as (pre & Hin & Hpos).
  assert (Hrest : forall s', in_ s' = in_ s -> in_pos_ s' = in_pos_ s + len w' -> cursor s' rest).
  { intros s' E1 E2. exists (pre ++ w'). rewrite E1, E2, Hin, Hpos, length_app, app_assoc. split; [done|lia]. }
  (* the session stays in step, whatever the chunk ends with *)
  assert (Hkeep : forall s' x, Wf s' -> state_ s' = state_ s -> publishing_ s' = publishing_ s ->
    publish_pending_ s' = publish_pending_ s -> in_chunk_ s' = in_chunk_ s ->
    cs_ s' = <[Z.to_nat csid := stream_of st']> (cs_ r) -> len (acc (stream_of st')) = x ->
    Receiving csz (n - st_sent st + x) (<[csid := st']> ss) s').
  { intros s' x Ws' X1 X2 X3 X4 X5 Hx. split; [done|congruence|split; congruence|congruence|..].
    - rewrite (proj1 (wf_held _ Ws')), X5, (held_insert _ _ (stream_at r csid)) by (apply stream_at_lookup; lia).
      rewrite <-(proj1 (wf_held _ Wr)). unfold r at 2. rewrite stream_at_resize by lia. fold csid in Hacc. rewrite Hacc, Hx.
      assert (Ar : assembly_bytes_ r = n) by (unfold r, resize_streams; by destruct (_ <=? _)). lia.
    - intros x' st1 [[<- <-]|[Hne Hl1]]%lookup_insert_Some.
      + split_and!; [done|done|by rewrite Em|]. rewrite (stream_at_insert r s' _ _ _ X5) by lia. by rewrite decide_True.
      + destruct (Hknown _ _ Hl1) as (Hk & Hg & Hs1). pose proof Hk as [((Hc1 & _) & _) _].
        split_and!; [apply Hk|apply Hk|done|]. rewrite (stream_at_insert r s' _ _ _ X5) by lia.
        rewrite decide_False by done. unfold r. by rewrite stream_at_resize by lia.
    - intros x' Hx' [Hn Hne]%lookup_insert_None. rewrite (stream_at_insert r s' _ _ _ X5) by lia.
      rewrite decide_False by done. unfold r. rewrite stream_at_resize by lia. by apply Hnew. }
  destruct (owing st') eqn:Ho'.
  - pose proof Ho' as Hlt'%Z.ltb_lt.
    destruct (commit_open r csid (stream_of st) pl (in_pos_ s + len w')) as (s' & E & V & _ & Hp);
      [rewrite Lgrow; exact Hlt'|by rewrite V9|].
    rewrite Ep, E in *. cbn [snd] in W'. injection V as X1 X2 X3 X4 X5 X6 X7 X8.
    exists s'. split; [done|]. split; [|split; [apply Hrest; congruence|split; [cbn; rewrite app_nil_r; congruence|congruence]]].
    replace n' with (n - st_sent st + st_sent st') by (unfold n'; lia).
    apply Hkeep; [done|congruence..| |].
    + rewrite X7, Hst'. done.
    + rewrite Hst'. exact Lgrow.
  - pose proof Ho' as Hge'%Z.ltb_ge.
    destruct (commit_media r csid (stream_of st) pl (in_pos_ s + len w')) as (s' & E & V & Hp);
      [rewrite Lgrow; exact Hge'|done|congruence|rewrite Lgrow; lia|by rewrite V9|].
    rewrite Ep, E in *. cbn [snd] in W'. injection V as X1 X2 X3 X4 X5 X6 X7 X8.
    exists s'. split; [done|]. split; [|split; [apply Hrest; congruence|split; [|congruence]]].
    2: { rewrite X8, V8. cbn [acc stream_of] in Hgrow. rewrite Hgrow. cbn [map concat]. rewrite app_nil_r. unfold entry_tag, media_entry. cbn [fst snd mtype ts stream_of].
         unfold ztake. rewrite (take_ge (st_data st)); [done|]. change (st_data st') with (st_data st) in Hge'. lia. }
    rewrite <-(Z.add_0_r (n - st_sent st)). apply Hkeep; [done|congruence..| |].
    + rewrite X7, Hst'. done.
    + by rewrite Hst'.
Qed.

Lemma recv_loop acts csz n ss s ws fins fuel :
  Receiving csz n ss s -> Forall act_ok acts -> send_media csz n ss acts = Some (ws, fins) ->
  cursor s ws -> len ws < Z.of_nat fuel -> len (to_peer_ s) + 16 * len acts <= RTMP_MAX_OUT_BYTES ->
  exists s', parse_loop fuel s = (true, s') /\ unread s' = 0
    /\ to_flv_ s' = to_flv_ s ++ concat (map entry_tag (map media_entry fins)).
Proof.
  revert n ss s ws fins fuel. induction acts as [|a acts IH]; intros n ss s ws fins fuel R Hok Hs Hcur Hf Hout.
  - cbn in Hs. injection Hs as <- <-. destruct Hcur as (pre & Hin & Hpos). rewrite app_nil_r in Hin.
    exists s. split; [|split; [unfold unread; rewrite Hin, Hpos; lia|by rewrite app_nil_r]].
    destruct fuel as [|fuel]; [cbn in Hf; lia|]. rewrite parse_loop_step, (rv_state _ _ _ _ R).
    rewrite bool_decide_false by done. unfold parse_step. rewrite bool_decide_true by apply (rv_state _ _ _ _ R).
    unfold parse_chunks. rewrite (proj2 (Z.leb_le _ _)) by (rewrite Hin, Hpos; lia).
    by rewrite (rv_state _ _ _ _ R).
  - apply Forall_cons_iff in Hok as [Ha Hok]. cbn [send_media] in Hs.
    destruct (picked ss a) as [[[w fmt] st]|] eqn:Epk; [|done]. cbn [mbind option_bind] in Hs.
    destruct (basic w (g_csid (st_msg st)) fmt) as [bb|] eqn:Ebb; [|done]. cbn [mbind option_bind] in Hs.
    destruct (Z.ltb_spec RTMP_MAX_ASSEMBLY_BYTES (n + (st_sent (sent_more csz st) - st_sent st))); [done|].
    destruct (send_media _ _ _ acts) as [[ws' fins']|] eqn:Es; [|done]. cbn [mbind option_bind] in Hs.
    injection Hs as <- <-. cbn [length] in Hout.
    pose proof (picked_fits csz n ss s a w fmt st R Ha Epk) as F.
    destruct (recv_step csz n ss s w fmt st bb ws' R F Ebb Hcur) as (s1 & E1 & R1 & C1 & T1 & P1); [lia|lia|].
    destruct (parse_step_stepped s (rv_Wf _ _ _ _ R)) as [_ _ _ Hprog]. rewrite E1 in Hprog.
    specialize (Hprog eq_refl). cbn [snd] in Hprog.
    destruct fuel as [|fuel]; [lia|]. destruct (length_basic _ _ _ _ Ebb) as [Lw Hw].
    unfold chunk_bytes in Hf. rewrite !length_app in Hf.
    destruct (IH _ _ s1 ws' fins' fuel R1 Hok Es C1) as (s2 & E2 & U2 & T2); [lia|lia|].
    exists s2. split; [|split; [done|by rewrite T2, T1, map_app, map_app, concat_app, app_assoc]].
    rewrite parse_loop_step, (rv_state _ _ _ _ R). rewrite bool_decide_false by done. rewrite E1.
    rewrite (proj2 (rv_publishing _ _ _ _ R1)). cbn [orb]. by rewrite (proj2 (Z.eqb_neq _ _)) by lia.
Qed.

(** C32: A publisher's media reaches the backend.  Its messages may start with any of the four
    header formats the stream's past allows (absolute timestamps, a step from the message
    before, the same step again), with or without extended timestamps, on any chunk stream
    in any basic header that names it; be cut into chunks of the agreed size; and be
    interleaved in any way with others on other chunk streams.  Each comes out of the
    session as exactly one FLV tag, with its type, its absolute timestamp and its whole
    payload (the [@setDataFrame] wrapper of metadata removed), in the order they were
    finished, and nothing else does.  (Media messages only; all of the bytes in one read,
    with [rtmp_segmentation] for others; a step of a format-3 start after a format-0 header
    is 0, as the session takes it.) *)
Theorem media_delivered s acts now ws fins :
  Wf s -> state_ s = RTMP_CHUNKS -> publishing_ s = true -> publish_pending_ s = false ->
  (forall csid, 2 <= csid <= RTMP_MAX_CHUNK_STREAM -> acc (stream_at s csid) = []) -> unread s = 0 ->
  Forall act_ok acts -> bytes_ok ws ->
  send_media (in_chunk_ s) (assembly_bytes_ s) ∅ acts = Some (ws, fins) ->
  len (to_peer_ s) + 16 * len acts <= RTMP_MAX_OUT_BYTES ->
  exists s', feed s ws now = (true, s') /\ unread s' = 0
    /\ to_flv_ s' = to_flv_ s ++ concat (map entry_tag (map media_entry fins)).
Proof.
  intros W Hst Hpub Hpend Hidle Hun Hok Hb Hs Hout. rewrite feed_fed; [|by rewrite Hst|].
  2: { unfold too_late. by rewrite Hpub. }
  rewrite fed_clock. set (s1 := with_clock _ _ _ _).
  assert (Hcur : cursor s1 ws) by (exists (in_ s); unfold unread in Hun; cbn; split; [done|lia]).
  assert (Hlen : len ws < Z.of_nat (S (length (in_ s1)))) by (cbn; rewrite length_app; lia).
  unfold run_parser. apply (recv_loop acts (in_chunk_ s) (assembly_bytes_ s) ∅ s1 ws fins); try done.
  split; try done; [apply (Wf_core (more s ws)); [done|by apply more_Wf]|].
  intros csid Hc _. by apply Hidle.
Qed.

(** Video in two chunks, an audio message between them; then audio a step on, the same step
    again in the shortest header, and video on a wide chunk stream id with a late timestamp
    and a step that needs an extension. *)
Definition demo_media : list send_act :=
  [Start 1 0 {| g_csid := 4; g_ts := 10; g_type := 9; g_sid := 1; g_data := 0x17 :: replicate 150 7 |};
   Start 1 0 {| g_csid := 6; g_ts := 41; g_type := 8; g_sid := 1; g_data := [0xaf; 1; 2] |}; Continue 1 4;
   Start 1 1 {| g_csid := 6; g_ts := 64; g_type := 8; g_sid := 1; g_data := [0xaf; 1] |};
   Start 1 3 {| g_csid := 6; g_ts := 87; g_type := 8; g_sid := 1; g_data := [0xaf; 2] |};
   Start 2 0 {| g_csid := 70; g_ts := 0x1000000; g_type := 9; g_sid := 1; g_data := [0x27; 1] |};
   Start 3 2 {| g_csid := 70; g_ts := 0x2000000; g_type := 9; g_sid := 1; g_data := [0x27; 2] |}].

Definition demo_tags : bytes :=
  flv_tag 8 41 [0xaf; 1; 2] ++ flv_tag 9 10 (0x17 :: replicate 150 7) ++ flv_tag 8 64 [0xaf; 1]
  ++ flv_tag 8 87 [0xaf; 2] ++ flv_tag 9 0x1000000 [0x27; 1] ++ flv_tag 9 0x2000000 [0x27; 2].

Lemma media_delivered_witness :
  let s := rtmp_run [OpFeed (demo_start ++ demo_publish (bs "cam")) 100; OpAccept; OpResume] in
  exists ws s', feed s ws 101 = (true, s') /\ to_flv_ s' = flv_header ++ demo_tags.
Proof.
  cbv zeta. set (s := rtmp_run _).
  assert (W : Wf s).
  { apply run_Wf. constructor; [|repeat constructor].
    change (bytes_ok (demo_start ++ demo_publish (bs "cam"))). decide_vm. }
  assert (Hidle : forall csid, 2 <= csid <= RTMP_MAX_CHUNK_STREAM -> acc (stream_at s csid) = []).
  { intros csid Hc. assert (H : Forall (fun c => acc c = []) (cs_ s)) by decide_vm.
    unfold stream_at. destruct (nth_in_or_default (Z.to_nat csid) (cs_ s) chunk_stream_new) as [Hin| ->]; [|done].
    rewrite List.Forall_forall in H. by apply H. }
  destruct (send_media (in_chunk_ s) (assembly_bytes_ s) ∅ demo_media) as [[ws fins]|] eqn:Es; [|by vm_compute in Es].
  assert (Hb : bytes_ok ws) by (apply (bool_decide_unpack _);
    assert (E : Some ws = fst <$> send_media (in_chunk_ s) (assembly_bytes_ s) ∅ demo_media) by (by rewrite Es);
    vm_compute in E; injection E as ->; by vm_compute).
  destruct (media_delivered s demo_media 101 ws fins W) as (s' & Hf & _ & Ht);
    [by vm_compute..|exact Hidle|by vm_compute|repeat constructor; decide_vm|exact Hb|exact Es|by vm_compute|].
  exists ws, s'. split; [exact Hf|]. rewrite Ht.
  assert (E : Some fins = snd <$> send_media (in_chunk_ s) (assembly_bytes_ s) ∅ demo_media) by (by rewrite Es).
  vm_compute in E. injection E as ->. by vm_compute.
Defined.
