(* ===== verification/VideoRec.v ===== *)
(** * Segment recording (videorec.cpp, videorec.h)

    The writer's state, the choice and exclusive creation of a segment's file, writing and
    rotation.  The disk is the environment: the log tree as the directories list it, the
    results of the coming opens and writes, and [segs], the files this writer has made, with
    what they hold, oldest first; the open segment is the last of them. *)

From S2P Require Import Prelude CStr Session Cleanup.

Definition VIDEO_SEGMENT_SECONDS_DEFAULT : Z := 600.
Definition VIDEO_SEGMENT_BYTES_DEFAULT : Z := 512 * 1024 * 1024.
Definition VIDEO_ROTATE_OVERSHOOT_S : Z := 30.
Definition VIDEO_FADVISE_CHUNK : Z := 8 * 1024 * 1024.

(** [env]: the variable's value, if it is set. *)
Definition positive_env (env : option bytes) (dflt : Z) : Z :=
  match env with
  | None | Some [] => dflt
  | Some s =>
    let '(v, endp, erange) := strtoll 10 s in
    if negb erange && negb (endp =? 0)%nat && (endp =? length s)%nat && (0 <? v) then v else dflt
  end.
Definition video_segment_seconds (env : option bytes) : Z := u32 (positive_env env VIDEO_SEGMENT_SECONDS_DEFAULT).
Definition video_segment_bytes (env : option bytes) : Z := positive_env env VIDEO_SEGMENT_BYTES_DEFAULT.

(** ** The environment *)

(** One [open] with O_EXCL on a name not in the directory: a new inode, a name taken since it
    was checked, or an error (full: ENOSPC or EDQUOT). *)
Inductive open_res := OpenNew (ino : Z) | OpenRaced (other : Z) | OpenErr (full : bool).
(** One [write]: bytes taken, EINTR, or an error. *)
Inductive disk_res := DiskTook (n : nat) | DiskIntr | DiskErr.

(** What one call of [open_segment] meets. *)
Record OpenEnv := {
  oe_vfs : option (Z * Z * Z);
  oe_unlink_ok : item -> bool;
  oe_clock : Z;                  (* the cleanup's clock *)
  oe_mkdir : bytes -> bool;
  oe_pid : Z;
  oe_nsecs : list Z;
  oe_opens : list open_res
}.

Record Disk := {
  tree : log_tree;
  open_envs : list OpenEnv;
  writes : list disk_res;
  segs : list (bytes * bytes);   (* path, contents *)
  flushed : list (Z * Z);        (* posix_fadvise's ranges *)
  closes : Z                     (* segments closed, each fsynced once *)
}.

#[export] Instance eta_Disk : Eta Disk := fun d =>
  Build_Disk (tree d) (open_envs d) (writes d) (segs d) (flushed d) (closes d).

Record VideoWriter := {
  port2_ : Z;
  slot_ : Z;
  use_tz_ : bool;
  tz_offset_ : Z;                (* the float's bits *)
  base_dir_ : bytes;
  quota_mb_ : Z;
  matroska_ : bool;
  fd_open : bool;                (* fd_ >= 0 *)
  path_ : bytes;
  date_dir_ : bytes;
  seg_start_ : Z;
  rotate_wanted_ : Z;
  seg_bytes_ : Z;
  total_bytes_ : Z;
  segments_ : Z;
  fadvise_mark_ : Z;
  stopped_ : bool
}.

#[export] Instance eta_VideoWriter : Eta VideoWriter := fun v =>
  Build_VideoWriter (port2_ v) (slot_ v) (use_tz_ v) (tz_offset_ v) (base_dir_ v) (quota_mb_ v)
    (matroska_ v) (fd_open v) (path_ v) (date_dir_ v) (seg_start_ v) (rotate_wanted_ v) (seg_bytes_ v)
    (total_bytes_ v) (segments_ v) (fadvise_mark_ v) (stopped_ v).

Implicit Types v : VideoWriter.
Implicit Types k : Disk.

Definition writer_init : VideoWriter := {|
  port2_ := 0; slot_ := 0; use_tz_ := false; tz_offset_ := 0; base_dir_ := bs "logs"; quota_mb_ := 0;
  matroska_ := false; fd_open := false; path_ := []; date_dir_ := []; seg_start_ := 0; rotate_wanted_ := 0;
  seg_bytes_ := 0; total_bytes_ := 0; segments_ := 0; fadvise_mark_ := 0; stopped_ := false
|}.

Definition configure v (port2 slot : Z) (use_tz : bool) (tz_offset : Z) (base_dir : option bytes) (quota_mb : Z)
  : VideoWriter :=
  v <| port2_ := port2 |> <| slot_ := slot |> <| use_tz_ := use_tz |> <| tz_offset_ := tz_offset |>
    <| base_dir_ := default (bs "logs") base_dir |> <| quota_mb_ := quota_mb |>.

Definition set_matroska v (value : bool) : VideoWriter := v <| matroska_ := value |>.
Definition is_open v : bool := fd_open v.

(** ** Opening *)

Section recorder.
Variable gmtime_r localtime_r : Z -> option tm.
Variable grace_env video_quota_env seconds_env bytes_env : option bytes.

(** A new file in logs/<port2>/<datedir>. *)
Definition add_file (t : log_tree) (port2 : Z) (datedir : bytes) (e : entry) : log_tree :=
  let pd := default [] (t !! port2) in
  <[port2 := match list_find (fun d => d.1 = datedir) pd with
             | Some (i, d) => <[i := (d.1, d.2 ++ [e])]> pd
             | None => pd ++ [(datedir, [e])]
             end]> t.

Definition segment_file v (base : bytes) : bytes :=
  base ++ bs ".v" ++ print_dec (slot_ v + 1) ++ bs "." ++ (if matroska_ v then bs "mkv" else bs "ts").

Definition stop v : VideoWriter := v <| stopped_ := true |>.

Definition opened v (path dir : bytes) (now : Z) : VideoWriter :=
  v <| fd_open := true |> <| path_ := path |> <| date_dir_ := dir |> <| seg_start_ := now |>
    <| seg_bytes_ := 0 |> <| fadvise_mark_ := 0 |> <| rotate_wanted_ := 0 |>
    <| segments_ := u32 (segments_ v + 1) |>.

Definition new_entry (name : bytes) (ino now : Z) : entry :=
  {| e_name := name; e_ino := ino; e_blocks := 0; e_mtime := now |}.

Definition made k (path : bytes) (t : log_tree) : Disk :=
  k <| tree := t |> <| segs := segs k ++ [(path, [])] |>.
Definition set_tree k (t : log_tree) : Disk := k <| tree := t |>.

(** The attempts, [n] of them: [now], [datedir] and [name] are the candidate's, [dir] and
    [dir0] the directory the file goes in, as a path and in the tree. *)
Fixpoint open_attempts (n : nat) (env : OpenEnv) (opens : list open_res) v k (dir dir0 : bytes)
    (now : Z) (datedir name : bytes) : bool * VideoWriter * Disk :=
  match n with
  | O => (false, v, k)
  | S n =>
    let base := session_unique_basename (dir_entries (tree k) (port2_ v) datedir) (snprintf 64 name) 64
                  (oe_pid env) (oe_nsecs env) in
    let file := segment_file v base in
    let path := snprintf 1200 (dir ++ bs "/" ++ file) in
    let again k :=
      let now := now + 1 in
      let '(datedir, name) := session_time_strings gmtime_r localtime_r now (use_tz_ v) (tz_offset_ v) 16 64 in
      open_attempts n env (tail opens) v k dir dir0 now datedir name in
    if has_file (dir_entries (tree k) (port2_ v) dir0) file then again k
    else match head opens with
         | Some (OpenNew ino) =>
             (true, opened v path dir now,
              made k path (add_file (tree k) (port2_ v) dir0 (new_entry file ino (oe_clock env))))
         | Some (OpenRaced ino) =>
             again (set_tree k (add_file (tree k) (port2_ v) dir0 (new_entry file ino (oe_clock env))))
         | Some (OpenErr full) => (false, if full then stop v else v, k)
         | None => (false, v, k)
         end
  end.

Definition next_open k : option OpenEnv * Disk :=
  match open_envs k with
  | [] => (None, k)
  | e :: es => (Some e, k <| open_envs := es |>)
  end.

(** With no environment left, the directory cannot be made. *)
Definition open_segment v k (now : Z) : bool * VideoWriter * Disk :=
  if stopped_ v then (false, v, k)
  else
    match next_open k with
    | (None, k) => (false, v, k)
    | (Some env, k) =>
      if negb (video_have_free_space (oe_vfs env)) then (false, stop v, k)
      else
        let k := set_tree k (log_cleanup_port2_video_quota grace_env video_quota_env (oe_unlink_ok env)
                   (oe_clock env) (if quota_mb_ v =? 0 then 0 else quota_mb_ v * 1024 * 1024)
                   (video_segment_bytes bytes_env) (port2_ v) (tree k)) in
        let '(datedir, name) := session_time_strings gmtime_r localtime_r now (use_tz_ v) (tz_offset_ v) 16 64 in
        let dir := snprintf 1024 (base_dir_ v ++ bs "/" ++ print_dec (port2_ v) ++ bs "/" ++ datedir) in
        if (mkpath_0700 (oe_mkdir env) dir).2 <? 0 then (false, v, k)
        else open_attempts 8 env (oe_opens env) v k dir datedir now datedir name
    end.

(** ** Writing *)

Definition close_segment v k : VideoWriter * Disk :=
  if negb (fd_open v) then (v, k)
  else (v <| fd_open := false |>, k <| closes := closes k + 1 |>).

Fixpoint append_last (b : bytes) (l : list (bytes * bytes)) : list (bytes * bytes) :=
  match l with
  | [] => []
  | [(p, c)] => [(p, c ++ b)]
  | x :: l => x :: append_last b l
  end.

Definition put k (b : bytes) : Disk := k <| segs := append_last b (segs k) |>.

Definition next_write k : option disk_res * Disk :=
  match writes k with
  | [] => (None, k)
  | r :: rs => (Some r, k <| writes := rs |>)
  end.

(** The write loop; with no result left, the disk takes it all.  One turn per result. *)
Fixpoint write_loop (fuel : nat) k (b : bytes) : bool * Disk :=
  match b, fuel with
  | [], _ => (true, k)
  | _, O => (true, put k b)
  | _, S fuel =>
    match next_write k with
    | (None, k) => (true, put k b)
    | (Some (DiskTook n), k) => write_loop fuel (put k (take n b)) (drop n b)
    | (Some DiskIntr, k) => write_loop fuel k b
    | (Some DiskErr, k) => (false, k)
    end
  end.

Definition counted v (n : Z) : VideoWriter :=
  v <| seg_bytes_ := u64 (seg_bytes_ v + n) |> <| total_bytes_ := u64 (total_bytes_ v + n) |>.

Definition flush_pages v k : VideoWriter * Disk :=
  if VIDEO_FADVISE_CHUNK <=? u64 (seg_bytes_ v - fadvise_mark_ v)
  then (v <| fadvise_mark_ := seg_bytes_ v |>,
        k <| flushed := flushed k ++ [(fadvise_mark_ v, u64 (seg_bytes_ v - fadvise_mark_ v))] |>)
  else (v, k).

Definition write v k (buf : bytes) (now : Z) : bool * VideoWriter * Disk :=
  if stopped_ v then (false, v, k)
  else
    let '(ok, v, k) := if fd_open v then (true, v, k) else open_segment v k now in
    if negb ok then (false, v, k)
    else
      let '(ok, k) := write_loop (length (writes k)) k buf in
      if negb ok then
        let '(v, k) := close_segment v k in (false, stop v, k)
      else
        let '(v, k) := flush_pages (counted v (len buf)) k in (true, v, k).

(** ** Rotation *)

Definition rotation_due v (now : Z) : bool * VideoWriter :=
  if negb (fd_open v) then (false, v)
  else
    let due := (video_segment_seconds seconds_env <=? now - seg_start_ v)
               || (video_segment_bytes bytes_env <=? seg_bytes_ v) in
    (due, if due && (rotate_wanted_ v =? 0) then v <| rotate_wanted_ := now |> else v).

Definition rotation_overdue v (now : Z) : bool :=
  negb (rotate_wanted_ v =? 0) && (VIDEO_ROTATE_OVERSHOOT_S <=? now - rotate_wanted_ v).

Definition rotate v k : VideoWriter * Disk :=
  if negb (fd_open v) then (v, k)
  else let '(v, k) := close_segment v k in (v <| rotate_wanted_ := 0 |>, k).
(** ** Calls *)

Inductive rec_op :=
| OpWrite (b : bytes) (now : Z)
| OpDue (now : Z)
| OpRotate
| OpClose
| OpMatroska (value : bool)
| OpConfigure (port2 slot : Z) (use_tz : bool) (tz_offset : Z) (base_dir : option bytes) (quota_mb : Z).

(** The writer, the disk, and what the calls that returned true were given. *)
Definition rec_step (st : VideoWriter * Disk * bytes) (op : rec_op) : VideoWriter * Disk * bytes :=
  let '(v, k, acc) := st in
  match op with
  | OpWrite b now => let '(ok, v, k) := write v k b now in (v, k, if ok then acc ++ b else acc)
  | OpDue now => ((rotation_due v now).2, k, acc)
  | OpRotate => (rotate v k, acc)
  | OpClose => (close_segment v k, acc)
  | OpMatroska value => (set_matroska v value, k, acc)
  | OpConfigure p s t o b q => (configure v p s t o b q, k, acc)
  end.
Definition rec_run k (ops : list rec_op) : VideoWriter * Disk * bytes := fold_left rec_step ops (writer_init, k, []).

Definition recorded k : bytes := concat (map snd (segs k)).

Record RecInv v k (acc : bytes) : Prop := {
  ri_kept : stopped_ v = false -> recorded k = acc;
  ri_prefix : acc `prefix_of` recorded k;
  ri_stopped : stopped_ v = true -> fd_open v = false;
  ri_closes : closes k + (if fd_open v then 1 else 0) = len (segs k);
  ri_open : fd_open v = true -> exists pre c, segs k = pre ++ [(path_ v, c)] /\ (len c < 2 ^ 64 -> seg_bytes_ v = len c)
}.

Lemma append_last_snoc b l p c : append_last b (l ++ [(p, c)]) = l ++ [(p, c ++ b)].
Proof.
  induction l as [|[p0 c0] l IH]; [done|]. cbn [app append_last]. rewrite IH.
  destruct l; [done|]. by destruct p0.
Qed.

Lemma recorded_snoc l p c : concat (map snd (l ++ [(p, c)] : list (bytes * bytes))) = concat (map snd l) ++ c.
Proof. rewrite map_app, concat_app. cbn. by rewrite app_nil_r. Qed.

(** What opening a segment can do. *)
Definition opens_to v k (r : bool * VideoWriter * Disk) : Prop :=
  let '(ok, v', k') := r in
  closes k' = closes k
  /\ if ok
     then exists p, segs k' = segs k ++ [(p, [])] /\ fd_open v' = true /\ path_ v' = p /\ seg_bytes_ v' = 0
          /\ stopped_ v' = stopped_ v /\ fadvise_mark_ v' = 0
     else segs k' = segs k /\ fd_open v' = fd_open v.

Lemma open_attempts_opens n env opens v k dir dir0 now datedir name :
  opens_to v k (open_attempts n env opens v k dir dir0 now datedir name).
Proof.
  revert opens k now datedir name. induction n as [|n IH]; intros opens k now datedir name; [done|].
  cbn [open_attempts]. destruct (has_file _ _).
  - destruct (session_time_strings _ _ _ _ _ _ _). apply IH.
  - destruct (head opens) as [[ino|ino|full]|]; [| |by destruct full|done].
    + split; [done|]. by eexists.
    + destruct (session_time_strings _ _ _ _ _ _ _). exact (IH _ (set_tree k _) _ _ _).
Qed.

Lemma opens_to_same v k k1 r : segs k1 = segs k -> closes k1 = closes k -> opens_to v k1 r -> opens_to v k r.
Proof. unfold opens_to. by intros -> ->. Qed.

Lemma open_segment_opens v k now : opens_to v k (open_segment v k now).
Proof.
  unfold open_segment. destruct (stopped_ v) eqn:Es; [done|]. unfold next_open. destruct (open_envs k) as [|env es]; [done|].
  destruct (negb _); [done|]. destruct (session_time_strings _ _ _ _ _ _ _) as [datedir name].
  destruct (_ <? 0); [done|]. eapply opens_to_same; [| |apply open_attempts_opens]; done.
Qed.

Lemma put_recorded k pre p c b :
  segs k = pre ++ [(p, c)] -> segs (put k b) = pre ++ [(p, c ++ b)].
Proof. intros E. unfold put. cbn. by rewrite E, append_last_snoc. Qed.

(** The loop writes all of the buffer, or fails having written a part of it. *)
Lemma write_loop_spec fuel k b pre p c :
  segs k = pre ++ [(p, c)] ->
  let '(ok, k') := write_loop fuel k b in
  closes k' = closes k /\ exists b', segs k' = pre ++ [(p, c ++ b')] /\ b' `prefix_of` b /\ (ok = true -> b' = b).
Proof.
  revert k b c. induction fuel as [|fuel IH]; intros k b c E.
  - destruct b as [|x b]; cbn [write_loop].
    + split; [done|]. exists []. by rewrite app_nil_r.
    + split; [done|]. exists (x :: b). split; [by apply put_recorded|]. done.
  - destruct b as [|x b]; cbn [write_loop].
    { split; [done|]. exists []. by rewrite app_nil_r. }
    set (bb := x :: b). unfold next_write. destruct (writes k) as [|[n| |] rs].
    + split; [done|]. exists bb. split; [by apply put_recorded|]. done.
    + set (k1 := k <| writes := rs |>).
      assert (E1 : segs (put k1 (take n bb)) = pre ++ [(p, c ++ take n bb)]) by by apply put_recorded.
      specialize (IH _ (drop n bb) _ E1). destruct (write_loop fuel _ _) as [ok k'].
      destruct IH as (Hc & b' & Eb & Hp & Hok). split; [done|]. exists (take n bb ++ b'). split_and!.
      * by rewrite Eb, <-app_assoc.
      * rewrite <-(take_drop n bb) at 2. by apply prefix_app.
      * intros Ho. by rewrite (Hok Ho), take_drop.
    + set (k1 := k <| writes := rs |>). apply (IH k1 bb c E).
    + split; [done|]. exists []. rewrite app_nil_r. split; [done|]. split; [apply prefix_nil|done].
Qed.

Lemma close_inv v k acc : RecInv v k acc -> let '(v', k') := close_segment v k in
  RecInv v' k' acc /\ segs k' = segs k /\ fd_open v' = false /\ stopped_ v' = stopped_ v.
Proof.
  intros [H1 H2 H3 H4 H5]. unfold close_segment. destruct (fd_open v) eqn:E; cbn [negb].
  - split; [|done]. split; try done; cbn. unfold recorded in *. cbn in *. lia.
  - split; [|done]. split; rewrite ?E; done.
Qed.

Lemma write_inv v k acc b now : RecInv v k acc ->
  let '(ok, v', k') := write v k b now in RecInv v' k' (if ok then acc ++ b else acc).
Proof.
  intros Hi. unfold write. destruct (stopped_ v) eqn:Es; [done|].
  assert (Ho : let '(ok, v1, k1) := if fd_open v then (true, v, k) else open_segment v k now in
    if ok then RecInv v1 k1 acc /\ fd_open v1 = true /\ stopped_ v1 = false else RecInv v1 k1 acc).
  { destruct (fd_open v) eqn:Ef; [by split|]. pose proof (open_segment_opens v k now) as Hop.
    destruct (open_segment v k now) as [[ok v1] k1]. destruct Hop as [Hc Hop]. destruct Hi as [H1 H2 H3 H4 H5].
    rewrite Ef in *. destruct ok.
    - destruct Hop as (p & Hs & Hf & Hp & Hb & Hst & _). split; [|by rewrite Hf, Hst].
      assert (Er : recorded k1 = recorded k) by (unfold recorded; by rewrite Hs, recorded_snoc, app_nil_r).
      split.
      + rewrite Er, Hst. done.
      + by rewrite Er.
      + rewrite Hst, Es. done.
      + rewrite Hf, Hs, Hc, length_app. cbn. lia.
      + intros _. exists (segs k), []. by rewrite Hs, Hp.
    - destruct Hop as [Hs Hf].
      assert (Er : recorded k1 = recorded k) by (unfold recorded; by rewrite Hs).
      split; rewrite ?Er, ?Hs, ?Hc, ?Hf, ?Ef; try done. intros _. by apply H1. }
  destruct (if fd_open v then _ else _) as [[ok v1] k1]. destruct ok; cbn [negb]; [|done].
  destruct Ho as (Hi1 & Hf1 & Hs1). destruct Hi1 as [H1 H2 H3 H4 H5]. destruct (H5 Hf1) as (pre & c & Es1 & Hlen).
  pose proof (write_loop_spec (length (writes k1)) k1 b pre (path_ v1) c Es1) as Hw.
  destruct (write_loop _ k1 b) as [ok2 k2]. destruct Hw as (Hc2 & b' & Es2 & Hb' & Hok2).
  assert (Er1 : recorded k1 = concat (map snd pre) ++ c) by (unfold recorded; by rewrite Es1, recorded_snoc).
  assert (Er2 : recorded k2 = recorded k1 ++ b') by (unfold recorded at 1; by rewrite Es2, recorded_snoc, Er1, app_assoc).
  destruct ok2; cbn [negb].
  - specialize (Hok2 eq_refl) as ->.
    assert (Hfin : RecInv (counted v1 (len b)) k2 (acc ++ b)).
    { split; cbn.
      - intros _. by rewrite Er2, H1.
      - rewrite Er2, H1 by done. done.
      - done.
      - rewrite Es2, Hc2, length_app, Hf1. rewrite Es1, length_app, Hf1 in H4. cbn in *. lia.
      - intros _. exists pre, (c ++ b). split; [done|]. rewrite length_app. intros Hl.
        rewrite Hlen by lia. rewrite wrap_small; lia. }
    unfold flush_pages. destruct (_ <=? _); [|done]. destruct Hfin as [F1 F2 F3 F4 F5]. by split.
  - assert (Hp : acc `prefix_of` recorded k2) by (rewrite Er2; etransitivity; [exact H2|]; by eexists).
    unfold close_segment. rewrite Hf1. cbn [negb]. split; [done|exact Hp|done| |done].
    cbn. rewrite Es2, Hc2, length_app. rewrite Es1, length_app, Hf1 in H4. cbn in *. lia.
Qed.

Lemma rec_step_inv st op : RecInv st.1.1 st.1.2 st.2 ->
  RecInv (rec_step st op).1.1 (rec_step st op).1.2 (rec_step st op).2.
Proof.
  destruct st as [[v k] acc]. cbn [fst snd]. intros Hi. destruct op as [b now|now| | |value|p s t o b q]; cbn [rec_step].
  - pose proof (write_inv v k acc b now Hi) as Hw. by destruct (write v k b now) as [[ok v'] k'].
  - cbn [fst snd]. unfold rotation_due. destruct (negb (fd_open v)); [done|]. cbn [snd].
    destruct (_ && _)%bool; [|done]. destruct Hi as [H1 H2 H3 H4 H5]. by split.
  - cbn [fst snd]. unfold rotate. destruct (negb (fd_open v)); [done|].
    pose proof (close_inv v k acc Hi) as Hc. destruct (close_segment v k) as [v' k']. destruct Hc as [[H1 H2 H3 H4 H5] _].
    by split.
  - cbn [fst snd]. pose proof (close_inv v k acc Hi) as Hc. destruct (close_segment v k) as [v' k']. apply Hc.
  - cbn [fst snd]. destruct Hi as [H1 H2 H3 H4 H5]. by split.
  - cbn [fst snd]. destruct Hi as [H1 H2 H3 H4 H5]. by split.
Qed.

(** What a write leaves of its buffer: all of it, and the recorder goes on, or a part. *)
Lemma write_leaves v k acc b now : RecInv v k acc -> stopped_ v = false ->
  let '(ok, v', k') := write v k b now in
  if ok then stopped_ v' = false else exists b', b' `prefix_of` b /\ recorded k' = recorded k ++ b'.
Proof.
  intros Hi Es. unfold write. rewrite Es.
  assert (Ho : let '(ok, v1, k1) := if fd_open v then (true, v, k) else open_segment v k now in
    recorded k1 = recorded k /\ (ok = true -> fd_open v1 = true /\ stopped_ v1 = false /\ exists pre c, segs k1 = pre ++ [(path_ v1, c)])).
  { destruct (fd_open v) eqn:Ef; [split; [done|]; intros _; split_and!; [done..|]; destruct (ri_open _ _ _ Hi Ef) as (pre & c & E & _); by exists pre, c|].
    pose proof (open_segment_opens v k now) as Hop. destruct (open_segment v k now) as [[ok v1] k1]. destruct Hop as [_ Hop].
    destruct ok; [|destruct Hop as [Hs _]; unfold recorded; by rewrite Hs].
    destruct Hop as (p & Hs & Hf & Hp & _ & Hst & _). split; [unfold recorded; by rewrite Hs, recorded_snoc, app_nil_r|].
    intros _. rewrite Hst. split_and!; [done..|]. exists (segs k), []. by rewrite Hp. }
  destruct (if fd_open v then _ else _) as [[ok v1] k1]. destruct Ho as [Er Ho].
  destruct ok; cbn [negb]; [|exists []; rewrite app_nil_r; split; [apply prefix_nil|done]].
  destruct (Ho eq_refl) as (Hf1 & Hs1 & pre & c & Es1).
  pose proof (write_loop_spec (length (writes k1)) k1 b pre (path_ v1) c Es1) as Hw.
  destruct (write_loop _ k1 b) as [ok2 k2]. destruct Hw as (_ & b' & Es2 & Hb' & _). destruct ok2; cbn [negb].
  - unfold flush_pages. by destruct (_ <=? _).
  - unfold close_segment. rewrite Hf1. cbn [negb]. exists b'. split; [done|]. rewrite <-Er. unfold recorded. cbn [segs].
    by rewrite Es2, Es1, !recorded_snoc, app_assoc.
Qed.

(** Once the disk has failed, nothing more is written and no segment is opened. *)
Lemma stopped_for_good v k b now : stopped_ v = true -> write v k b now = (false, v, k).
Proof. intros Hs. unfold write. by rewrite Hs. Qed.

Lemma stopped_step v k acc op : RecInv v k acc -> stopped_ v = true ->
  let '(v', k', acc') := rec_step (v, k, acc) op in stopped_ v' = true /\ segs k' = segs k /\ acc' = acc.
Proof.
  intros Hi Hs. pose proof (ri_stopped _ _ _ Hi Hs) as Hf. destruct op as [b now|now| | |value|p s t o b q]; cbn [rec_step]; try done.
  - by rewrite stopped_for_good.
  - unfold rotation_due. by rewrite Hf.
  - unfold rotate. by rewrite Hf.
  - unfold close_segment. by rewrite Hf.
Qed.

(** Only a write can stop the recorder. *)
Lemma stopping_step v k acc op : RecInv v k acc -> stopped_ v = false ->
  let '(v', k', acc') := rec_step (v, k, acc) op in stopped_ v' = true ->
  exists b now b', op = OpWrite b now /\ b' `prefix_of` b /\ recorded k' = acc ++ b' /\ acc' = acc.
Proof.
  intros Hi Hs. destruct op as [b now|now| | |value|p s t o b q]; cbn [rec_step]; try (cbn; congruence).
  - pose proof (write_leaves v k acc b now Hi Hs) as Hw. destruct (write v k b now) as [[ok v'] k']. destruct ok; [congruence|].
    intros _. destruct Hw as (b' & Hp & Hr). exists b, now, b'. by rewrite Hr, (ri_kept _ _ _ Hi Hs).
  - unfold rotation_due. destruct (negb (fd_open v)); [cbn; congruence|]. destruct (_ && _)%bool; cbn; congruence.
  - unfold rotate, close_segment. destruct (negb (fd_open v)); cbn; congruence.
  - unfold close_segment. destruct (negb (fd_open v)); cbn; congruence.
Qed.

Lemma rec_run_inv k ops : segs k = [] -> closes k = 0 ->
  let '(v, k', acc) := rec_run k ops in RecInv v k' acc.
Proof.
  intros Hs Hc.
  assert (H0 : RecInv writer_init k []) by (split; unfold recorded; rewrite ?Hs, ?Hc; done).
  unfold rec_run. assert (Hr : forall st, RecInv st.1.1 st.1.2 st.2 ->
    let st' := fold_left rec_step ops st in RecInv st'.1.1 st'.1.2 st'.2).
  { induction ops as [|op ops IH]; intros st Hst; [done|]. cbn [fold_left]. by apply IH, rec_step_inv. }
  specialize (Hr (writer_init, k, []) H0). cbv zeta in Hr. by destruct (fold_left _ _ _) as [[v k'] acc].
Qed.

(** The write that stopped the recorder, and what it left. *)
Definition stopped_by k (ops : list rec_op) (segs' : list (bytes * bytes)) (acc : bytes) : Prop :=
  exists ops1 b now ops2 b', ops = ops1 ++ OpWrite b now :: ops2
  /\ stopped_ (rec_run k ops1).1.1 = false /\ b' `prefix_of` b
  /\ concat (map snd segs') = acc ++ b' /\ acc = (rec_run k ops1).2
  /\ segs' = segs (rec_run k (ops1 ++ [OpWrite b now])).1.2.

Lemma rec_run_stopped k ops : segs k = [] -> closes k = 0 ->
  let '(v, k', acc) := rec_run k ops in stopped_ v = true -> stopped_by k ops (segs k') acc.
Proof.
  intros Hs Hc. assert (Hsnoc : forall l op, rec_run k (l ++ [op]) = rec_step (rec_run k l) op)
    by (intros; unfold rec_run; apply fold_left_app).
  induction ops as [|op ops IH] using rev_ind; [done|]. rewrite Hsnoc.
  pose proof (rec_run_inv k ops Hs Hc) as Hi. destruct (rec_run k ops) as [[v k1] acc] eqn:E1.
  destruct (stopped_ v) eqn:Ev.
  - pose proof (stopped_step v k1 acc op Hi Ev) as Hst. destruct (rec_step (v, k1, acc) op) as [[v2 k2] acc2].
    destruct Hst as (_ & -> & ->). intros _. destruct (IH eq_refl) as (ops1 & b & now & ops2 & b' & -> & H).
    exists ops1, b, now, (ops2 ++ [op]), b'. by rewrite <-app_assoc.
  - pose proof (stopping_step v k1 acc op Hi Ev) as Hst. pose proof (Hsnoc ops op) as Hso. rewrite E1 in Hso.
    destruct (rec_step (v, k1, acc) op) as [[v2 k2] acc2]. intros (b & now & b' & -> & Hp & Hr & ->)%Hst.
    exists ops, b, now, [], b'. by rewrite E1, Hso.
Qed.

(** C40: A recording is what was written.  Whatever the disk does -- short writes, interrupted
    writes, names taken from under the writer, a full filesystem -- and however the caller
    mixes writes, rotations and closes: until the recorder stops, the segments read one after
    another are exactly the buffers the writer accepted, in order, with no byte lost, repeated
    or out of place; once it has stopped they are the buffers accepted before the write that
    stopped it and a part, from its start, of that write's own buffer, the segments are as
    that write left them, nothing having been appended or opened since, and no later write
    was accepted.  Every segment is closed exactly once, and the byte count is the open
    segment's size. *)
Theorem recording_faithful k ops :
  segs k = [] -> closes k = 0 ->
  let '(v, k', acc) := rec_run k ops in
  (stopped_ v = false -> recorded k' = acc)
  /\ (stopped_ v = true -> fd_open v = false /\ stopped_by k ops (segs k') acc)
  /\ closes k' + (if fd_open v then 1 else 0) = len (segs k')
  /\ (fd_open v = true -> exists pre c, segs k' = pre ++ [(path_ v, c)] /\ (len c < 2 ^ 64 -> seg_bytes_ v = len c)).
Proof.
  intros Hs Hc. pose proof (rec_run_inv k ops Hs Hc) as Hi. pose proof (rec_run_stopped k ops Hs Hc) as Hst.
  destruct (rec_run k ops) as [[v k'] acc]. destruct Hi as [H1 _ H3 H4 H5]. split_and!; auto.
Qed.

(** A rotation that has become due stays due until it happens, and is forced once the
    overshoot has passed. *)
Lemma overdue_forced v now later :
  (rotation_due v now).1 = true -> now <> 0 -> rotate_wanted_ v = 0 ->
  now + VIDEO_ROTATE_OVERSHOOT_S <= later -> rotation_overdue (rotation_due v now).2 later = true.
Proof.
  unfold rotation_due. destruct (negb (fd_open v)); [done|]. cbn [fst snd]. intros -> Hn Hw Hl. rewrite Hw.
  cbn [Z.eqb andb]. unfold rotation_overdue. cbn [rotate_wanted_].
  rewrite (proj2 (Z.eqb_neq _ _)) by done. apply Z.leb_le. lia.
Qed.
End recorder.

(** ** A recording with a short write, a rotation and a name taken under the writer *)

Definition demo_time (utc : Z) : option tm := Some (Build_tm 126 0 1 0 (utc / 60) (utc mod 60)).
Definition demo_open (rs : list open_res) : OpenEnv :=
  {| oe_vfs := None; oe_unlink_ok := fun _ => true; oe_clock := 7; oe_mkdir := fun _ => true; oe_pid := 1;
     oe_nsecs := []; oe_opens := rs |}.
Definition demo_disk : Disk :=
  {| tree := ∅; open_envs := [demo_open [OpenNew 11]; demo_open [OpenRaced 12; OpenNew 13]];
     writes := [DiskTook 1; DiskIntr; DiskTook 9]; segs := []; flushed := []; closes := 0 |}.
Definition demo_ops : list rec_op :=
  [OpConfigure 14550 0 false 0 None 0; OpWrite [1; 2; 3] 5; OpDue 605; OpRotate; OpWrite [4; 5] 605].
Definition demo_recording : VideoWriter * Disk * bytes :=
  rec_run demo_time demo_time None None None None demo_disk demo_ops.

(** The same disk failing in the middle of the second buffer. *)
Definition failing_disk : Disk := demo_disk <| writes := [DiskTook 9; DiskTook 1; DiskErr] |>.
Definition failing_ops : list rec_op :=
  [OpConfigure 14550 0 false 0 None 0; OpWrite [1; 2; 3] 5; OpWrite [4; 5] 6; OpWrite [6] 7; OpClose].
Definition failed_recording : VideoWriter * Disk * bytes :=
  rec_run demo_time demo_time None None None None failing_disk failing_ops.

Lemma recording_faithful_witness :
  recorded demo_recording.1.2 = [1; 2; 3; 4; 5]
  /\ map fst (segs demo_recording.1.2)
     = [bs "logs/14550/2026-01-01/2026_01_01_00:00:05.v1.ts"; bs "logs/14550/2026-01-01/2026_01_01_00:10:06.v1.ts"]
  /\ recorded failed_recording.1.2 = [1; 2; 3; 4]
  /\ stopped_by demo_time demo_time None None None None failing_disk failing_ops (segs failed_recording.1.2) [1; 2; 3].
Proof.
  split; [|split; [vm_compute; reflexivity|split; [vm_compute; reflexivity|]]].
  - assert (Hv : stopped_ demo_recording.1.1 = false /\ demo_recording.2 = [1; 2; 3; 4; 5])
      by (vm_compute; split; reflexivity).
    pose proof (recording_faithful demo_time demo_time None None None None demo_disk demo_ops eq_refl eq_refl) as H.
    fold demo_recording in H. revert H Hv. generalize demo_recording. intros [[v k] acc] (H & _) [Hs Ha].
    cbn [fst snd] in *. rewrite <-Ha. exact (H Hs).
  - assert (Hv : stopped_ failed_recording.1.1 = true /\ failed_recording.2 = [1; 2; 3])
      by (vm_compute; split; reflexivity).
    pose proof (recording_faithful demo_time demo_time None None None None failing_disk failing_ops eq_refl eq_refl) as H.
    fold failed_recording in H. revert H Hv. generalize failed_recording. intros [[v k] acc] (_ & H & _) [Hs Ha].
    cbn [fst snd] in *. rewrite <-Ha. exact (proj2 (H Hs)).
Defined.
