(* ===== verification/VideoMkv.v ===== *)
(** * Matroska framing (videomkv.h, VideoScanner)

    The scanner frames a live Matroska stream into its header elements (kept as the prefix
    every viewer and every recording starts with) and its clusters (each a join point), or
    is the MPEG-TS scanner when the slot's publisher sends that.  The [cluster] callback is a
    log of what it was given. *)

From S2P Require Import Prelude CStr VideoTs.

Record VideoScanner := {
  tss : TSScanner;               (* the base class *)
  matroska : bool;
  failed : bool;
  prefix : bytes;
  stage : Z;
  offset : Z;
  anchor : Z;
  have_anchor : bool;
  pending : bytes;
  clusters : list bytes          (* what [cluster] has been called with *)
}.

#[export] Instance eta_VideoScanner : Eta VideoScanner := fun s =>
  Build_VideoScanner (tss s) (matroska s) (failed s) (prefix s) (stage s) (offset s) (anchor s)
    (have_anchor s) (pending s) (clusters s).

Implicit Types s : VideoScanner.

Definition reset : VideoScanner :=
  {| tss := ts_init; matroska := false; failed := false; prefix := []; stage := 0; offset := 0;
     anchor := 0; have_anchor := false; pending := []; clusters := [] |}.

Definition join_offset s : option Z :=
  if negb (matroska s) then VideoTs.join_offset (tss s)
  else if have_anchor s && negb (failed s) then Some (anchor s) else None.

(** ** EBML variable-length integers *)

Inductive vint_res := VBad | VMore | VInt (value : Z) (len : nat).

(** The first byte's marker bit and the length it stands for; [fuel] is the bits left. *)
Fixpoint vint_mask (fuel : nat) (b mask : Z) (n : nat) : Z * nat :=
  match fuel with
  | S fuel => if Z.land b mask =? 0 then vint_mask fuel b (Z.shiftr mask 1) (S n) else (mask, n)
  | O => (mask, n)
  end.

Definition vint (p : bytes) (id : bool) : vint_res :=
  match p with
  | [] => VMore
  | b :: rest =>
    if b =? 0 then VBad
    else
      let '(mask, n) := vint_mask 7 b 0x80 1 in
      if ((if id then 4 else 8) <? n)%nat then VBad
      else if (length p <? n)%nat then VMore
      else VInt (foldl (fun v x => Z.lor (u64 (Z.shiftl v 8)) x)
                   (if id then b else Z.land b (Z.lnot mask)) (take (n - 1) rest)) n
  end.

(** ** Elements *)

Definition EBML_HEADER : Z := 0x1a45dfa3.
Definition SEGMENT : Z := 0x18538067.
Definition INFO : Z := 0x1549a966.
Definition TRACKS : Z := 0x1654ae6b.
Definition CLUSTER : Z := 0x1f43b675.
Definition expected : list Z := [EBML_HEADER; SEGMENT; INFO; TRACKS].

Inductive elem_res := EBad | EMore | Elem (id : Z) (total : nat).

(** The element at the head of [p]: its ID, and its length with ID and size fields. *)
Definition element (stage : Z) (p : bytes) : elem_res :=
  match vint p true with
  | VBad => EBad
  | VMore => EMore
  | VInt id a =>
    match vint (drop a p) false with
    | VBad => EBad
    | VMore => EMore
    | VInt size b =>
      let unknown := size =? 2 ^ (7 * Z.of_nat b) - 1 in
      if (if stage =? 1 then negb (id =? SEGMENT) || negb unknown
          else unknown || (4 * 1024 * 1024 <? size) || ((stage <? 4) && (65536 <? size)))
      then EBad
      else
        let size := if stage =? 1 then 0 else size in
        let total := (a + b + Z.to_nat size)%nat in
        if (length p <? total)%nat then EMore else Elem id total
    end
  end.

Definition fail s : VideoScanner := s <| failed := true |>.

Definition consume s (total : nat) : VideoScanner :=
  s <| pending := drop total (pending s) |> <| offset := u64 (offset s + Z.of_nat total) |>.

Definition take_header s (total : nat) : VideoScanner :=
  s <| prefix := prefix s ++ take total (pending s) |> <| stage := stage s + 1 |>.

Definition take_cluster s (total : nat) : VideoScanner :=
  s <| anchor := offset s |> <| have_anchor := true |>
    <| clusters := clusters s ++ [take total (pending s)] |>.

(** A complete element's effect. *)
Definition on_element s (id : Z) (total : nat) : bool * VideoScanner :=
  if stage s <? 4 then
    if negb (id =? nth (Z.to_nat (stage s)) expected 0)
       || (131072 <? len (prefix s) + Z.of_nat total)
    then (false, fail s)
    else (true, consume (take_header s total) total)
  else if negb (id =? CLUSTER) then (false, fail s)
  else (true, consume (take_cluster s total) total).

(** The loop over complete elements; each takes at least two bytes of [pending]. *)
Fixpoint scan (fuel : nat) s : VideoScanner :=
  match fuel with
  | O => s
  | S fuel =>
    match element (stage s) (pending s) with
    | EBad => fail s
    | EMore => s
    | Elem id total => let '(ok, s) := on_element s id total in if ok then scan fuel s else s
    end
  end.

Definition append s (buf : bytes) (base : Z) : VideoScanner :=
  (match pending s with [] => s <| offset := base |> | _ => s end)
    <| pending := pending s ++ buf |>.

Definition feed s (buf : bytes) (base : Z) : VideoScanner :=
  if negb (matroska s) then s <| tss := ts_feed (tss s) buf base |>
  else if failed s then s
  else let s := append s buf base in scan (length (pending s)) s.

(** ** Integers and elements on a growing buffer *)

Lemma vint_mask_len b : 1 <= b < 256 ->
  vint_mask 7 b 0x80 1 = (2 ^ Z.log2 b, Z.to_nat (8 - Z.log2 b))
  /\ Z.land b (Z.lnot (2 ^ Z.log2 b)) = b - 2 ^ Z.log2 b.
Proof.
  intros Hb.
  assert (Hall : forallb (fun b => bool_decide (vint_mask 7 b 0x80 1 = (2 ^ Z.log2 b, Z.to_nat (8 - Z.log2 b)))
    && bool_decide (Z.land b (Z.lnot (2 ^ Z.log2 b)) = b - 2 ^ Z.log2 b)) (seqZ 1 255) = true) by by vm_compute.
  rewrite forallb_forall in Hall. specialize (Hall b).
  rewrite <-list_elem_of_In, elem_of_seqZ in Hall. specialize (Hall ltac:(lia)).
  apply andb_true_iff in Hall as [H1%bool_decide_eq_true H2%bool_decide_eq_true]. done.
Qed.

Lemma vint_mask_pos fuel b mask n : (n <= (vint_mask fuel b mask n).2)%nat.
Proof.
  revert mask n. induction fuel as [|fuel IH]; intros; cbn; [done|].
  destruct (_ =? 0); [|done]. etransitivity; [|apply IH]. lia.
Qed.

Lemma vint_app p q id : vint p id <> VMore -> vint (p ++ q) id = vint p id.
Proof.
  destruct p as [|b rest]; [done|]. cbn [app vint]. destruct (b =? 0); [done|].
  pose proof (vint_mask_pos 7 b 0x80 1). destruct (vint_mask 7 b 0x80 1) as [mask n]. cbn [snd] in *.
  destruct (_ <? n)%nat; [done|]. cbn [length]. rewrite length_app.
  destruct (Nat.ltb_spec (S (length rest)) n); [done|]. intros _.
  rewrite (proj2 (Nat.ltb_ge _ _)) by lia. by rewrite take_app_le by lia.
Qed.

Lemma vint_len p id v n : vint p id = VInt v n -> (1 <= n <= length p)%nat.
Proof.
  destruct p as [|b rest]; [done|]. cbn [vint]. destruct (b =? 0); [done|].
  pose proof (vint_mask_pos 7 b 0x80 1). destruct (vint_mask 7 b 0x80 1) as [mask k]. cbn [snd] in *.
  destruct (_ <? k)%nat; [done|]. destruct (Nat.ltb_spec (length (b :: rest)) k); [done|].
  intros [= _ <-]. lia.
Qed.

Lemma element_app st p q : element st p <> EMore -> element st (p ++ q) = element st p.
Proof.
  unfold element. destruct (vint p true) as [| |id a] eqn:Ea; [|done|];
    rewrite vint_app by congruence; rewrite Ea; [done|].
  pose proof (vint_len _ _ _ _ Ea). rewrite drop_app_le by lia.
  destruct (vint (drop a p) false) as [| |size b] eqn:Eb; [|done|];
    rewrite vint_app by congruence; rewrite Eb; [done|].
  cbv zeta. destruct (if st =? 1 then _ else _); [done|].
  destruct (Nat.ltb_spec (length p) (a + b + Z.to_nat (if st =? 1 then 0 else size))); [done|].
  intros _. by rewrite (proj2 (Nat.ltb_ge _ _)) by (rewrite length_app; lia).
Qed.

Lemma element_len st p id n : element st p = Elem id n -> (2 <= n <= length p)%nat.
Proof.
  unfold element. destruct (vint p true) as [| |i a] eqn:Ea; [done..|].
  destruct (vint (drop a p) false) as [| |size b] eqn:Eb; [done..|].
  apply vint_len in Ea, Eb. cbv zeta. destruct (if st =? 1 then _ else _); [done|].
  case_match eqn:E; [done|]. apply Nat.ltb_ge in E. intros [= <- <-]. lia.
Qed.

(** ** The loop *)

Definition push s (q : bytes) : VideoScanner := s <| pending := pending s ++ q |>.

Lemma push_push s q1 q2 : push (push s q1) q2 = push s (q1 ++ q2).
Proof. destruct s. unfold push. cbn. by rewrite app_assoc. Qed.
Lemma push_nil s : push s [] = s.
Proof. destruct s. unfold push. cbn. by rewrite app_nil_r. Qed.

Lemma on_element_push s id n q : (n <= length (pending s))%nat ->
  on_element (push s q) id n = ((on_element s id n).1, push (on_element s id n).2 q).
Proof.
  intros Hn. destruct s as [t m f px st off an ha pd cl]. unfold on_element, push, consume, take_header, take_cluster, fail.
  cbn in *. destruct (st <? 4).
  - destruct (_ || _)%bool; [done|]. cbn. by rewrite take_app_le, drop_app_le by lia.
  - destruct (negb _); [done|]. cbn. by rewrite take_app_le, drop_app_le by lia.
Qed.

Lemma on_element_ok s id n s' : on_element s id n = (true, s') ->
  pending s' = drop n (pending s) /\ failed s' = failed s /\ matroska s' = matroska s
  /\ offset s' = u64 (offset s + Z.of_nat n) /\ tss s' = tss s.
Proof.
  unfold on_element. destruct (stage s <? 4); [destruct (_ || _)%bool|destruct (negb _)]; by intros [= <-].
Qed.
Lemma on_element_fail s id n s' : on_element s id n = (false, s') -> s' = fail s.
Proof.
  unfold on_element. destruct (stage s <? 4); [destruct (_ || _)%bool|destruct (negb _)]; by intros [= <-].
Qed.

Lemma scan_fuel f1 f2 s : (length (pending s) <= f1)%nat -> (length (pending s) <= f2)%nat -> scan f1 s = scan f2 s.
Proof.
  revert f2 s. induction f1 as [|f1 IH]; intros f2 s H1 H2.
  - destruct (pending s) eqn:E; [|cbn in *; lia]. destruct f2; [done|]. cbn. by rewrite E.
  - destruct f2 as [|f2].
    { destruct (pending s) eqn:E; [|cbn in *; lia]. cbn. by rewrite E. }
    cbn [scan]. destruct (element _ _) as [| |id n] eqn:E; [done..|].
    destruct (on_element s id n) as [ok s'] eqn:Eo. destruct ok; [|done].
    apply element_len in E. apply on_element_ok in Eo as (Ep & _). apply IH; rewrite Ep, length_drop; lia.
Qed.

Definition run s : VideoScanner := scan (length (pending s)) s.

Lemma run_step s :
  run s = match element (stage s) (pending s) with
          | EBad => fail s
          | EMore => s
          | Elem id n => let '(ok, s) := on_element s id n in if ok then run s else s
          end.
Proof.
  unfold run. rewrite (scan_fuel _ (S (length (pending s)))) by lia. cbn [scan].
  destruct (element _ _) as [| |id n] eqn:E; [done..|].
  destruct (on_element s id n) as [ok s'] eqn:Eo. destruct ok; [|done].
  apply element_len in E. apply on_element_ok in Eo as (Ep & _). apply scan_fuel; rewrite ?Ep, ?length_drop; lia.
Qed.

(** Induction over the elements consumed. *)
Lemma run_ind (P : VideoScanner -> VideoScanner -> Prop) :
  (forall s, element (stage s) (pending s) = EBad -> P s (fail s)) ->
  (forall s, element (stage s) (pending s) = EMore -> P s s) ->
  (forall s id n, element (stage s) (pending s) = Elem id n -> on_element s id n = (false, fail s) -> P s (fail s)) ->
  (forall s id n s', element (stage s) (pending s) = Elem id n -> on_element s id n = (true, s') ->
     P s' (run s') -> P s (run s')) ->
  forall s, P s (run s).
Proof.
  intros Hb Hm Hf Hs s. remember (length (pending s)) as k eqn:Ek. revert s Ek.
  induction (lt_wf k) as [k _ IH]. intros s ->. rewrite run_step.
  destruct (element _ _) as [| |id n] eqn:E; [by apply Hb|by apply Hm|].
  destruct (on_element s id n) as [[] s'] eqn:Eo.
  - pose proof (element_len _ _ _ _ E). pose proof (on_element_ok _ _ _ _ Eo) as (Ep & _).
    assert (Hr : P s' (run s')) by (apply (IH (length (pending s'))); [rewrite Ep, length_drop; lia|done]).
    exact (Hs s id n s' E Eo Hr).
  - pose proof (on_element_fail _ _ _ _ Eo) as ->. by apply (Hf s id n).
Qed.

(** Where the unread bytes end in the stream. *)
Definition Contig s (base : Z) : Prop := is_u64 (offset s) /\ u64 (offset s + len (pending s)) = base.

Lemma run_contig s base : Contig s base -> Contig (run s) base.
Proof.
  revert base. apply (run_ind (fun s s' => forall base, Contig s base -> Contig s' base)); [done..|].
  intros s0 id n s' E Eo IH base [Hu Hc]. apply IH. apply element_len in E. apply on_element_ok in Eo as (Ep & _ & _ & Ew & _).
  split; rewrite Ew; [apply wrap_range; lia|]. rewrite Ep, length_drop, wrap_add_l, <-Hc. f_equal. lia.
Qed.

Lemma run_keeps s : matroska (run s) = matroska s /\ tss (run s) = tss s.
Proof.
  apply (run_ind (fun s s' => matroska s' = matroska s /\ tss s' = tss s)); [done..|].
  intros s0 id n s' E Eo [-> ->]. by apply on_element_ok in Eo as (_ & _ & -> & _ & ->).
Qed.

(** What more data does: nothing once failed, and otherwise what it would have done had it
    come with what was there before. *)
Lemma run_push s q : failed s = false ->
  run (push s q) = if failed (run s) then push (run s) q else run (push (run s) q).
Proof.
  revert s. apply (run_ind (fun s s' => failed s = false ->
    run (push s q) = if failed s' then push s' q else run (push s' q))).
  - intros s E Hf. rewrite (run_step (push s q)); change (stage (push s q)) with (stage s); change (pending (push s q)) with (pending s ++ q). by rewrite element_app, E by congruence.
  - intros s E Hf. by rewrite Hf.
  - intros s id n E Eo Hf. pose proof (element_len _ _ _ _ E). rewrite (run_step (push s q)); change (stage (push s q)) with (stage s); change (pending (push s q)) with (pending s ++ q).
    rewrite element_app, E by congruence. rewrite on_element_push, Eo by lia. done.
  - intros s id n s' E Eo IH Hf. pose proof (element_len _ _ _ _ E).
    pose proof (on_element_ok _ _ _ _ Eo) as (_ & Hf' & _).
    rewrite <-IH by congruence.
    rewrite (run_step (push s q)); change (stage (push s q)) with (stage s); change (pending (push s q)) with (pending s ++ q). rewrite element_app, E by congruence.
    by rewrite on_element_push, Eo by lia.
Qed.

(** ** Reads *)

Definition rebase s (base : Z) : VideoScanner :=
  match pending s with [] => s <| offset := base |> | _ => s end.

Lemma rebase_contig s base : is_u64 base -> Contig s base -> rebase s base = s.
Proof.
  intros Hb [Hu Hc]. unfold rebase. destruct (pending s) eqn:E; [|done].
  change (len []) with 0 in Hc. rewrite Z.add_0_r, wrap_small in Hc by apply Hu. subst base.
  destruct s. by cbn in *; subst.
Qed.

Lemma rebase_Contig s base : is_u64 base -> (pending s = [] \/ Contig s base) -> Contig (rebase s base) base.
Proof.
  intros Hb [E|H]; [|by rewrite rebase_contig]. unfold rebase. rewrite E. split; [done|]. cbn [offset pending].
  rewrite ?E. change (len []) with 0. rewrite Z.add_0_r. by apply wrap_small.
Qed.

Lemma feed_run s buf base : matroska s = true -> failed s = false ->
  feed s buf base = run (push (rebase s base) buf).
Proof.
  intros Hm Hf. unfold feed. rewrite Hm, Hf. cbn [negb]. unfold run.
  by replace (append s buf base) with (push (rebase s base) buf) by (unfold append, push, rebase; by destruct (pending s) eqn:E; cbn; rewrite ?E).
Qed.

(** What anything but the scanner itself can see: a failed one never reads on. *)
Definition visible s : VideoScanner := if failed s then s <| pending := ([] : bytes) |> else s.

Lemma failed_visible s : failed (visible s) = failed s.
Proof. unfold visible. destruct (failed s) eqn:E; [|done]. by cbn. Qed.

(** Two reads in a row are one. *)
Lemma feed_app s a b base :
  is_u64 base -> matroska s = true -> (pending s = [] \/ Contig s base) ->
  visible (feed (feed s a base) b (u64 (base + len a))) = visible (feed s (a ++ b) base).
Proof.
  intros Hb Hm Hc. destruct (failed s) eqn:Hf.
  { unfold feed at 2. rewrite Hm, Hf. cbn [negb]. unfold feed. by rewrite Hm, Hf. }
  rewrite (feed_run s), (feed_run s) by done.
  pose proof (rebase_Contig _ _ Hb Hc) as Hr. set (s0 := rebase s base) in *.
  assert (Hf0 : failed (push s0 a) = false) by (unfold s0, rebase; by destruct (pending s)).
  assert (Hm0 : matroska (push s0 a) = true) by (unfold s0, rebase; by destruct (pending s)).
  assert (Hc1 : Contig (push s0 a) (u64 (base + len a))).
  { destruct Hr as [Hu Hr]. split; [done|]. cbn. rewrite length_app, <-Hr, wrap_add_l. f_equal. lia. }
  rewrite <-push_push, (run_push (push s0 a)) by done.
  pose proof (run_contig _ _ Hc1) as Hc2. destruct (run_keeps (push s0 a)) as [Hm2 _].
  set (s1 := run (push s0 a)) in *. destruct (failed s1) eqn:Hf1.
  - unfold feed. rewrite Hm2, Hm0, Hf1. cbn [negb]. unfold visible. cbn [push failed]. by rewrite Hf1.
  - rewrite feed_run by congruence. by rewrite rebase_contig by (done || apply wrap_range; lia).
Qed.

(** A stream fed as consecutive pieces. *)
Fixpoint feed_all s (cs : list bytes) (base : Z) : VideoScanner :=
  match cs with
  | [] => s
  | c :: cs => feed_all (feed s c base) cs (u64 (base + len c))
  end.

Lemma feed_contig s c base : is_u64 base -> matroska s = true -> failed s = false ->
  (pending s = [] \/ Contig s base) -> Contig (feed s c base) (u64 (base + len c)).
Proof.
  intros Hb Hm Hf Hc. rewrite feed_run by done. apply run_contig. destruct (rebase_Contig _ _ Hb Hc) as [Hu Hr].
  set (s0 := rebase s base) in *. clearbody s0. split; [done|]. cbn. rewrite length_app, <-Hr, wrap_add_l. f_equal. lia.
Qed.

Lemma feed_failed_all s cs base : matroska s = true -> failed s = true -> feed_all s cs base = s.
Proof.
  intros Hm Hf. revert base. induction cs as [|c cs IH]; intros base; [done|]. cbn [feed_all].
  replace (feed s c base) with s by (unfold feed; by rewrite Hm, Hf). apply IH.
Qed.

Lemma feed_matroska s c base : matroska s = true -> matroska (feed s c base) = true.
Proof.
  intros Hm. destruct (failed s) eqn:Hf.
  - unfold feed. rewrite Hm, Hf. done.
  - rewrite feed_run by done. destruct (run_keeps (push (rebase s base) c)) as [-> _].
    unfold rebase. by destruct (pending s).
Qed.


Lemma feed_pieces s c cs base :
  is_u64 base -> matroska s = true -> (pending s = [] \/ Contig s base) ->
  visible (feed_all s (c :: cs) base) = visible (feed s (c ++ concat cs) base).
Proof.
  revert s c base. induction cs as [|c' cs IH]; intros s c base Hb Hm Hc; [cbn; by rewrite app_nil_r|].
  cbn [feed_all concat]. cbn [feed_all] in IH. destruct (failed s) eqn:Hf.
  { assert (Hn : forall c b, feed s c b = s) by (intros; unfold feed; by rewrite Hm, Hf).
    rewrite !Hn. by rewrite feed_failed_all. }
  pose proof (feed_contig s c base Hb Hm Hf Hc). pose proof (feed_matroska s c base Hm).
  rewrite IH by (done || (apply wrap_range; lia) || by right). by apply feed_app.
Qed.

(** ** A stream of elements *)

(** An element as a muxer writes it, with a [k]-byte size field; the live Segment has the
    size that stands for unknown. *)
Definition ebml (id : Z) (k : nat) (payload : bytes) : bytes :=
  be_bytes 4 id ++ be_bytes k (2 ^ (7 * Z.of_nat k) + len payload) ++ payload.
Definition live_segment (k : nat) : bytes :=
  be_bytes 4 SEGMENT ++ be_bytes k (2 ^ (7 * Z.of_nat k) + (2 ^ (7 * Z.of_nat k) - 1)).

(** A size field of [k] bytes that can hold the payload's length. *)
Definition fits (k : nat) (payload : bytes) : Prop :=
  (1 <= k <= 8)%nat /\ len payload < 2 ^ (7 * Z.of_nat k) - 1.

Lemma le_bytes_snoc n z : le_bytes (S n) z = le_bytes n z ++ [u8 (z / 256 ^ Z.of_nat n)].
Proof.
  revert z. induction n as [|n IH]; intros z.
  - cbn [le_bytes app]. change (256 ^ Z.of_nat 0) with 1. by rewrite Z.div_1_r.
  - cbn [le_bytes] in *. rewrite IH. cbn [app]. do 3 f_equal. f_equal.
    rewrite Zdiv_Zdiv by lia. f_equal. replace (Z.of_nat (S n)) with (1 + Z.of_nat n) by lia.
    by rewrite Z.pow_add_r by lia.
Qed.

Lemma be_bytes_S n z : be_bytes (S n) z = u8 (z / 256 ^ Z.of_nat n) :: be_bytes n z.
Proof. unfold be_bytes. by rewrite le_bytes_snoc, reverse_snoc. Qed.

Lemma lor_byte v b : 0 <= v -> is_byte b -> Z.lor (v * 256) b = v * 256 + b.
Proof.
  intros Hv Hb. assert (Hl : Z.land (v * 256) b = 0); [|by rewrite Z.add_nocarry_lxor, Z.lxor_lor].
  change 256 with (2 ^ 8). rewrite <-Z.shiftl_mul_pow2 by lia. apply Z.bits_inj'. intros i Hi.
  rewrite Z.land_spec, Z.bits_0. destruct (Z.ltb_spec i 8); [by rewrite Z.shiftl_spec_low by lia|].
  replace b with (b mod 2 ^ 8) by (apply Z.mod_small, Hb).
  by rewrite Z.mod_pow2_bits_high, andb_false_r by lia.
Qed.

Lemma vint_fold v j z : 0 <= v -> (v + 1) * 256 ^ Z.of_nat j <= 2 ^ 64 ->
  foldl (fun v x => Z.lor (u64 (Z.shiftl v 8)) x) v (be_bytes j z) = v * 256 ^ Z.of_nat j + z mod 256 ^ Z.of_nat j.
Proof.
  revert v. induction j as [|j IH]; intros v Hv Hl.
  - cbn. rewrite Z.mod_1_r. lia.
  - assert (Hp : 256 ^ Z.of_nat (S j) = 256 * 256 ^ Z.of_nat j)
      by (replace (Z.of_nat (S j)) with (1 + Z.of_nat j) by lia; by rewrite Z.pow_add_r by lia).
    assert (0 < 256 ^ Z.of_nat j) by (apply Z.pow_pos_nonneg; lia).
    rewrite be_bytes_S. cbn [foldl]. rewrite Z.shiftl_mul_pow2 by lia. change (2 ^ 8) with 256.
    pose proof (wrap_range 8 (z / 256 ^ Z.of_nat j) ltac:(lia)).
    rewrite (wrap_small 64) by nia. rewrite lor_byte by (done || unfold is_byte; lia).
    rewrite IH by nia. rewrite Hp, (Z.mul_comm 256), Z.rem_mul_r by lia. unfold wrap. change (2 ^ 8) with 256. lia.
Qed.

Lemma vint_size k n r : (1 <= k <= 8)%nat -> 0 <= n < 2 ^ (7 * Z.of_nat k) ->
  vint (be_bytes k (2 ^ (7 * Z.of_nat k) + n) ++ r) false = VInt n k.
Proof.
  intros Hk Hn. destruct k as [|j]; [lia|]. set (z := 2 ^ (7 * Z.of_nat (S j)) + n).
  assert (Hp : 2 ^ (7 * Z.of_nat (S j)) = 2 ^ (7 - Z.of_nat j) * 256 ^ Z.of_nat j)
    by (change 256 with (2 ^ 8); rewrite <-Z.pow_mul_r, <-Z.pow_add_r by lia; f_equal; lia).
  assert (0 < 256 ^ Z.of_nat j) by (apply Z.pow_pos_nonneg; lia).
  assert (H7 : 0 < 2 ^ (7 - Z.of_nat j) <= 2 ^ 7) by (split; [apply Z.pow_pos_nonneg; lia|apply Z.pow_le_mono_r; lia]).
  rewrite Hp in *. set (m := 2 ^ (7 - Z.of_nat j)) in *. set (w := 256 ^ Z.of_nat j) in *.
  assert (Hq : m <= z / w < 2 * m)
    by (split; [apply Z.div_le_lower_bound|apply Z.div_lt_upper_bound]; unfold z; nia).
  assert (Hb : u8 (z / w) = z / w) by (apply wrap_small; lia).
  assert (Hlog : Z.log2 (z / w) = 7 - Z.of_nat j).
  { apply Z.log2_unique; [lia|]. rewrite Z.pow_succ_r by lia. fold m. lia. }
  rewrite be_bytes_S. fold w. rewrite Hb. cbn [app vint]. rewrite (proj2 (Z.eqb_neq _ _)) by lia.
  destruct (vint_mask_len (z / w)) as [-> Hl]; [lia|]. rewrite Hlog in *. fold m in Hl. fold m.
  replace (Z.to_nat (8 - (7 - Z.of_nat j))) with (S j) by lia.
  rewrite (proj2 (Nat.ltb_ge _ _)) by lia. cbn [length]. rewrite length_app, length_be_bytes.
  rewrite (proj2 (Nat.ltb_ge _ _)) by lia. rewrite Nat.sub_succ, Nat.sub_0_r.
  rewrite take_app_le, take_ge by (rewrite length_be_bytes; lia). rewrite Hl.
  assert (Hw : w * 2 ^ 8 <= 2 ^ 64).
  { unfold w. change 256 with (2 ^ 8). rewrite <-Z.pow_mul_r, <-Z.pow_add_r by lia. apply Z.pow_le_mono_r; lia. }
  rewrite vint_fold by (fold w; nia). fold w. f_equal.
  rewrite Z.mul_sub_distr_r. pose proof (Z.div_mod z w ltac:(lia)). unfold z in *. lia.
Qed.

(** The IDs the scanner knows, each four bytes. *)
Definition ids : list Z := CLUSTER :: expected.

Lemma vint_id id r : id ∈ ids -> vint (be_bytes 4 id ++ r) true = VInt id 4.
Proof. unfold ids, expected. rewrite !elem_of_cons, elem_of_nil. by intros [->|[->|[->|[->|[->|[]]]]]]. Qed.

Lemma length_ebml id k p : length (ebml id k p) = (4 + k + length p)%nat.
Proof. unfold ebml. rewrite !length_app, !length_be_bytes. lia. Qed.

Lemma element_ebml st id k p r :
  id ∈ ids -> st <> 1 -> fits k p -> len p <= (if st <? 4 then 65536 else 4 * 1024 * 1024) ->
  element st (ebml id k p ++ r) = Elem id (length (ebml id k p)).
Proof.
  intros Hid Hst [Hk Hf] Hl. unfold element, ebml. rewrite <-!app_assoc, vint_id by done.
  rewrite drop_app_length' by by rewrite length_be_bytes. rewrite vint_size by lia.
  rewrite (proj2 (Z.eqb_neq st 1)) by done. rewrite (proj2 (Z.eqb_neq _ (_ - 1))) by lia.
  rewrite (proj2 (Z.ltb_ge _ (len p))) by (destruct (st <? 4); lia). cbn [orb].
  replace ((st <? 4) && (65536 <? len p)) with false
    by (symmetry; destruct (Z.ltb_spec st 4); cbn [andb]; [apply Z.ltb_ge; lia|done]).
  cbv zeta. rewrite Nat2Z.id. rewrite !length_app, !length_be_bytes.
  rewrite (proj2 (Nat.ltb_ge _ _)) by lia. f_equal; lia.
Qed.

Lemma element_segment k r : (1 <= k <= 8)%nat ->
  element 1 (live_segment k ++ r) = Elem SEGMENT (length (live_segment k)).
Proof.
  intros Hk. unfold element, live_segment. rewrite <-!app_assoc, vint_id by (unfold ids, expected; set_solver).
  rewrite drop_app_length' by by rewrite length_be_bytes. rewrite vint_size by lia.
  rewrite !Z.eqb_refl. cbn [negb orb]. cbv zeta. rewrite !length_app, !length_be_bytes.
  rewrite (proj2 (Nat.ltb_ge _ _)) by lia. f_equal. lia.
Qed.

(** A cluster cut short is waited for. *)
Lemma element_partial st e id n : (n < length e)%nat -> element st e = Elem id (length e) -> element st (take n e) = EMore.
Proof.
  intros Hn E. pose proof (element_app st (take n e) (drop n e)) as Ha. rewrite take_drop, E in Ha.
  destruct (element st (take n e)) as [| |i m] eqn:E2; [specialize (Ha ltac:(done)); congruence|done|].
  specialize (Ha ltac:(done)). injection Ha as -> <-. apply element_len in E2. rewrite length_take in E2. lia.
Qed.

(** The state after a header element, and after a cluster. *)
Definition past_header s (e rest : bytes) : VideoScanner :=
  s <| prefix := prefix s ++ e |> <| stage := stage s + 1 |> <| pending := rest |>
    <| offset := u64 (offset s + len e) |>.
Definition past_cluster s (e rest : bytes) : VideoScanner :=
  s <| anchor := offset s |> <| have_anchor := true |> <| clusters := clusters s ++ [e] |>
    <| pending := rest |> <| offset := u64 (offset s + len e) |>.

Lemma run_header s e rest :
  pending s = e ++ rest -> 0 <= stage s < 4 ->
  element (stage s) (e ++ rest) = Elem (nth (Z.to_nat (stage s)) expected 0) (length e) ->
  len (prefix s) + len e <= 131072 -> run s = run (past_header s e rest).
Proof.
  intros Ep Hs Ee Hl. rewrite run_step, Ep, Ee. unfold on_element. rewrite (proj2 (Z.ltb_lt _ _)) by lia.
  rewrite Z.eqb_refl, (proj2 (Z.ltb_ge _ _)) by lia. cbn [negb orb]. f_equal.
  unfold consume, take_header, past_header. cbn. by rewrite Ep, take_app_length, drop_app_length.
Qed.

Lemma run_cluster s e rest :
  pending s = e ++ rest -> 4 <= stage s -> element (stage s) (e ++ rest) = Elem CLUSTER (length e) ->
  run s = run (past_cluster s e rest).
Proof.
  intros Ep Hs Ee. rewrite run_step, Ep, Ee. unfold on_element. rewrite (proj2 (Z.ltb_ge _ _)) by lia.
  rewrite Z.eqb_refl. cbn [negb]. f_equal.
  unfold consume, take_cluster, past_cluster. cbn. by rewrite Ep, take_app_length, drop_app_length.
Qed.

(** What a scanner holds after the header [hd] and the whole clusters [cls] of a stream that
    began at [base]: the last cluster's offset is the join point. *)
Record Framed (base : Z) (hd : bytes) (cls : list bytes) (tail : bytes) s : Prop := {
  fr_kind : matroska s = true /\ failed s = false;
  fr_prefix : prefix s = hd;
  fr_clusters : clusters s = cls;
  fr_pending : pending s = tail;
  fr_offset : offset s = u64 (base + len (hd ++ concat cls));
  fr_none : cls = [] -> join_offset s = None;
  fr_join : forall cls0 c, cls = cls0 ++ [c] -> join_offset s = Some (u64 (base + len (hd ++ concat cls0)))
}.

Lemma run_clusters base hd cls0 cls tail s :
  Forall (fun e => forall r, element 4 (e ++ r) = Elem CLUSTER (length e)) cls -> element 4 tail = EMore ->
  stage s = 4 -> Framed base hd cls0 (concat cls ++ tail) s -> Framed base hd (cls0 ++ cls) tail (run s).
Proof.
  intros Hc Ht. revert cls0 s. induction Hc as [|e cls He Hc IH]; intros cls0 s Hs Hf.
  - rewrite app_nil_r. rewrite run_step, Hs, (fr_pending _ _ _ _ _ Hf). cbn [concat app] in *. by rewrite Ht.
  - destruct Hf as [[Hm Hf] Hp Hcl Hpe Ho Hn Hj]. cbn [concat] in Hpe. rewrite <-app_assoc in Hpe.
    rewrite (run_cluster s e (concat cls ++ tail)) by (done || lia || by rewrite Hs).
    rewrite (cons_middle e cls0 cls), app_assoc. apply IH; [done|].
    split; cbn; try done.
    + by rewrite Hcl.
    + rewrite Ho, wrap_add_l, concat_app. cbn. rewrite !length_app. f_equal. cbn. lia.
    + intros E. by destruct cls0.
    + intros cls1 c [-> [= ->]]%app_inj_tail. unfold join_offset. cbn. rewrite Hm, Hf. by rewrite Ho.
Qed.

(** ** A live stream *)

Definition header_elems (hs : list (nat * bytes)) : list bytes :=
  match hs with
  | [(k0, p0); (k1, _); (k2, p2); (k3, p3)] =>
      [ebml EBML_HEADER k0 p0; live_segment k1; ebml INFO k2 p2; ebml TRACKS k3 p3]
  | _ => []
  end.

(** The four header elements of a stream this scanner takes. *)
Record header_ok (hs : list (nat * bytes)) : Prop := {
  ho_four : length hs = 4%nat;
  ho_fits : Forall (fun h => fits h.1 h.2 /\ len h.2 <= 65536) hs;
  ho_total : len (concat (header_elems hs)) <= 131072
}.

Definition cluster_ok (c : nat * bytes) : Prop := fits c.1 c.2 /\ len c.2 <= 4 * 1024 * 1024.
Definition cluster_bytes (c : nat * bytes) : bytes := ebml CLUSTER c.1 c.2.

Definition live : VideoScanner := reset <| matroska := true |>.

Lemma cluster_element c r : cluster_ok c -> element 4 (cluster_bytes c ++ r) = Elem CLUSTER (length (cluster_bytes c)).
Proof. intros [Hf Hl]. apply element_ebml; [unfold ids; set_solver|done|done|done]. Qed.

Lemma cluster_partial c n : cluster_ok c -> (n < length (cluster_bytes c))%nat -> element 4 (take n (cluster_bytes c)) = EMore.
Proof.
  intros Hc Hn. pose proof (cluster_element c [] Hc) as E. rewrite app_nil_r in E. by eapply element_partial.
Qed.

Lemma run_headers base hs rest :
  is_u64 base -> header_ok hs ->
  exists s, stage s = 4 /\ Framed base (concat (header_elems hs)) [] rest s
    /\ run (push (live <| offset := base |>) (concat (header_elems hs) ++ rest)) = run s.
Proof.
  intros Hb [H4 Hf Ht]. destruct hs as [|[k0 p0] [|[k1 p1] [|[k2 p2] [|[k3 p3] [|]]]]]; try done.
  rewrite !list.Forall_cons in Hf. destruct Hf as ([H0 L0] & [[H1 _] _] & [H2 L2] & [H3 L3] & _). cbn [fst snd] in *.
  cbn [header_elems concat] in *. rewrite app_nil_r in *. rewrite !length_app in Ht.
  set (e0 := ebml _ k0 p0) in *. set (e1 := live_segment k1) in *. set (e2 := ebml _ k2 p2) in *.
  set (e3 := ebml _ k3 p3) in *. set (s0 := push _ _).
  set (s1 := past_header s0 e0 (e1 ++ e2 ++ e3 ++ rest)).
  set (s2 := past_header s1 e1 (e2 ++ e3 ++ rest)). set (s3 := past_header s2 e2 (e3 ++ rest)).
  set (s4 := past_header s3 e3 rest). exists s4.
  assert (Hid : forall id, id ∈ expected -> id ∈ ids) by (intros; unfold ids; set_solver).
  split; [done|]. split.
  - split; try done.
    + change (prefix s4) with (((([] ++ e0) ++ e1) ++ e2) ++ e3). by rewrite <-!app_assoc.
    + change (offset s4) with (u64 (u64 (u64 (u64 (base + len e0) + len e1) + len e2) + len e3)).
      cbn [concat]. repeat rewrite <-?Z.add_assoc, wrap_add_l. rewrite app_nil_r, !length_app, !Nat2Z.inj_add.
      by repeat rewrite <-Z.add_assoc.
    + intros [|] ? ?; done.
  - rewrite (run_header s0 e0 (e1 ++ e2 ++ e3 ++ rest)).
    2: { change (pending s0) with ((e0 ++ e1 ++ e2 ++ e3) ++ rest). by rewrite <-!app_assoc. }
    2: done.
    2: { apply element_ebml; [apply Hid; unfold expected; set_solver|done|done|done]. }
    2: { change (prefix s0) with ([] : bytes). clear -Ht. clearbody e0 e1 e2 e3. cbn. lia. }
    fold s1. rewrite (run_header s1 e1 (e2 ++ e3 ++ rest)); [|done|done|by apply element_segment|change (prefix s1) with e0; clear -Ht; clearbody e0 e1 e2 e3; lia].
    fold s2. rewrite (run_header s2 e2 (e3 ++ rest)); [|done|done| |change (prefix s2) with (e0 ++ e1); clear -Ht; clearbody e0 e1 e2 e3; rewrite length_app; lia].
    2: { apply element_ebml; [apply Hid; unfold expected; set_solver|done|done|done]. }
    fold s3. rewrite (run_header s3 e3 rest); [done|done|done| |change (prefix s3) with ((e0 ++ e1) ++ e2); clear -Ht; clearbody e0 e1 e2 e3; rewrite !length_app; lia].
    apply element_ebml; [apply Hid; unfold expected; set_solver|done|done|done].
Qed.

(** A live stream, cut short in a cluster and fed in any pieces. *)
Lemma scanner_frames base hs cls c n r rs :
  is_u64 base -> header_ok hs -> Forall cluster_ok cls -> cluster_ok c -> (n < length (cluster_bytes c))%nat ->
  concat (r :: rs) = concat (header_elems hs) ++ concat (map cluster_bytes cls) ++ take n (cluster_bytes c) ->
  Framed base (concat (header_elems hs)) (map cluster_bytes cls) (take n (cluster_bytes c)) (feed_all live (r :: rs) base).
Proof.
  intros Hb Hh Hcs Hc Hn E. pose proof (feed_pieces live r rs base Hb eq_refl (or_introl eq_refl)) as Hv.
  change (r ++ concat rs) with (concat (r :: rs)) in Hv. rewrite feed_run, E in Hv by done.
  change (rebase live base) with (live <| offset := base |>) in Hv.
  destruct (run_headers base hs (concat (map cluster_bytes cls) ++ take n (cluster_bytes c)) Hb Hh) as (s & Hs & Hf & Er).
  rewrite Er in Hv. apply (run_clusters _ _ _ (map cluster_bytes cls)) in Hf; [|..|done].
  2: { apply Forall_map. eapply list.Forall_impl; [exact Hcs|]. intros x Hx r0. by apply cluster_element. }
  2: by apply cluster_partial.
  cbn [app] in Hf. unfold visible in Hv at 2. rewrite (proj2 (fr_kind _ _ _ _ _ Hf)) in Hv.
  assert (Hff : failed (feed_all live (r :: rs) base) = false)
    by (rewrite <-failed_visible, Hv; apply (fr_kind _ _ _ _ _ Hf)).
  unfold visible in Hv. rewrite Hff in Hv. by rewrite Hv.
Qed.
