(* ===== verification/HttpChunks.v ===== *)
(** * Chunked transfer coding (videomkv.h, VideoChunks)

    The strict streaming decoder of a Matroska publisher's request body.  The [emit]
    callback is a log of what it was given. *)

From S2P Require Import Prelude CStr.

Definition CHUNK_MAX : Z := 4 * 1024 * 1024.

Record VideoChunks := {
  line : bytes;
  remaining : Z;
  ending : Z;
  emitted : list bytes           (* what [emit] has been called with *)
}.

#[export] Instance eta_VideoChunks : Eta VideoChunks := fun c =>
  Build_VideoChunks (line c) (remaining c) (ending c) (emitted c).

Implicit Types c : VideoChunks.

Definition init : VideoChunks := {| line := []; remaining := 0; ending := 0; emitted := [] |}.

(** A hex digit's value, 16 for any other character. *)
Definition digit (h : Z) : Z :=
  if (48 <=? h) && (h <=? 57) then h - 48
  else if (97 <=? h) && (h <=? 102) then h - 97 + 10
  else if (65 <=? h) && (h <=? 70) then h - 65 + 10
  else 16.

Fixpoint chunk_length (acc : Z) (l : bytes) : option Z :=
  match l with
  | [] => Some acc
  | h :: l => if (15 <? digit h) || (CHUNK_MAX / 16 <? acc) then None
              else chunk_length (acc * 16 + digit h) l
  end.

(** The line before a newline: hex digits and a carriage return, for 1 byte to 4 MB. *)
Definition parse_line (l : bytes) : option Z :=
  if (length l <? 2)%nat || negb (byte_at l (len l - 1) =? 13) then None
  else match chunk_length 0 (take (length l - 1) l) with
       | None => None
       | Some n => if (n =? 0) || (CHUNK_MAX <? n) then None else Some n
       end.

Definition payload c (data : bytes) : VideoChunks :=
  let rem := remaining c - len data in
  c <| emitted := emitted c ++ [data] |> <| remaining := rem |>
    <| ending := if rem =? 0 then 2 else ending c |>.

Definition start_chunk c (n : Z) : VideoChunks := c <| remaining := n |> <| line := ([] : bytes) |>.

(** One turn of the loop on a non-empty input: false to give up, the input left. *)
Definition turn c (p : bytes) : bool * bytes * VideoChunks :=
  if negb (remaining c =? 0) then
    let n := Z.to_nat (Z.min (len p) (remaining c)) in
    (true, drop n p, payload c (take n p))
  else if negb (ending c =? 0) then
    if byte_at p 0 =? (if ending c =? 2 then 13 else 10)
    then (true, drop 1 p, c <| ending := ending c - 1 |>) else (false, drop 1 p, c)
  else
    let ch := byte_at p 0 in
    if ch =? 10 then
      match parse_line (line c) with
      | None => (false, drop 1 p, c)
      | Some n => (true, drop 1 p, start_chunk c n)
      end
    else
      let c := c <| line := line c ++ [ch] |> in
      ((length (line c) <=? 10)%nat, drop 1 p, c).

(** Every turn takes at least one byte. *)
Fixpoint run (fuel : nat) c (p : bytes) : bool * VideoChunks :=
  match p, fuel with
  | [], _ | _, O => (true, c)
  | _, S fuel => let '(ok, p, c) := turn c p in if ok then run fuel c p else (false, c)
  end.

Definition feed c (p : bytes) : bool * VideoChunks := run (length p) c p.

(** ** One byte at a time *)

Fixpoint bytes_run c (p : bytes) : bool * VideoChunks :=
  match p with
  | [] => (true, c)
  | b :: p => let '(ok, _, c) := turn c [b] in if ok then bytes_run c p else (false, c)
  end.

(** The same decoder, whatever pieces it handed its data on in. *)
Definition same c1 c2 : Prop :=
  line c1 = line c2 /\ remaining c1 = remaining c2 /\ ending c1 = ending c2
  /\ concat (emitted c1) = concat (emitted c2).

#[export] Instance same_equiv : Equivalence same.
Proof.
  unfold same. split; [done| |].
  - intros c1 c2 (? & ? & ? & ?). by rewrite H, H0, H1, H2.
  - intros c1 c2 c3 (-> & -> & -> & ->) (-> & -> & -> & ->). done.
Qed.

Lemma turn_same c1 c2 p : same c1 c2 ->
  (turn c1 p).1.1 = (turn c2 p).1.1 /\ (turn c1 p).1.2 = (turn c2 p).1.2 /\ same (turn c1 p).2 (turn c2 p).2.
Proof.
  intros (El & Er & Ee & Eo). unfold turn, payload, start_chunk. rewrite Er, Ee, El.
  destruct (negb (remaining c2 =? 0)); [|destruct (negb (ending c2 =? 0)); [|destruct (_ =? 10)]].
  - split_and!; [done|done|]. unfold same. cbn. by rewrite ?concat_app, ?El, ?Er, ?Ee, ?Eo.
  - destruct (_ =? _); split_and!; try done; unfold same; cbn; by rewrite ?concat_app, ?El, ?Er, ?Ee, ?Eo.
  - destruct (parse_line _); split_and!; try done; unfold same; cbn; by rewrite ?concat_app, ?El, ?Er, ?Ee, ?Eo.
  - by split_and!.
Qed.

Lemma bytes_run_same c1 c2 p : same c1 c2 ->
  (bytes_run c1 p).1 = (bytes_run c2 p).1 /\ same (bytes_run c1 p).2 (bytes_run c2 p).2.
Proof.
  revert c1 c2. induction p as [|b p IH]; intros c1 c2 Hs; [done|]. cbn [bytes_run].
  pose proof (turn_same _ _ [b] Hs) as (E1 & _ & E3).
  destruct (turn c1 [b]) as [[ok1 ?] d1], (turn c2 [b]) as [[ok2 ?] d2]. cbn in *. subst ok2.
  destruct ok1; [by apply IH|done].
Qed.

Lemma bytes_run_app c p q :
  bytes_run c (p ++ q) = let '(ok, c) := bytes_run c p in if ok then bytes_run c q else (false, c).
Proof.
  revert c. induction p as [|b p IH]; intros c; [done|]. cbn [app bytes_run].
  destruct (turn c [b]) as [[[] ?] d]; [apply IH|done].
Qed.

Lemma bytes_run_payload c p :
  p <> [] -> len p <= remaining c ->
  (bytes_run c p).1 = true /\ same (bytes_run c p).2 (payload c p).
Proof.
  revert c. induction p as [|b p IH]; intros c Hp Hl; [done|]. cbn [length] in Hl. cbn [bytes_run].
  unfold turn at 1 2. rewrite (proj2 (Z.eqb_neq (remaining c) 0)) by lia. cbn [negb].
  replace (Z.to_nat (Z.min (len [b]) (remaining c))) with 1%nat by (cbn; lia). cbn [take].
  destruct p as [|b' p].
  - by cbn [bytes_run].
  - destruct (IH (payload c [b])) as [E1 E2]; [done|cbn [payload remaining length] in *; lia|].
    split; [done|]. etransitivity; [exact E2|]. unfold same, payload. cbn [line remaining ending emitted].
    replace (remaining c - len (b :: b' :: p)) with (remaining c - len [b] - len (b' :: p)) by (cbn [length]; lia).
    split_and!; try done.
    + destruct (Z.eqb_spec (remaining c - len [b]) 0); [cbn [length] in *; lia|done].
    + rewrite <-app_assoc, !concat_app. cbn. by rewrite app_nil_r.
Qed.

Lemma chunk_length_pos l acc z : 0 <= acc -> chunk_length acc l = Some z -> 0 <= z.
Proof.
  revert acc. induction l as [|h l IH]; intros acc Ha; cbn; [by intros [= <-]|].
  destruct (_ || _)%bool; [done|]. apply IH.
  assert (0 <= digit h) by (unfold digit; repeat case_match; reflect_bools; lia). lia.
Qed.

Lemma parse_line_pos l n : parse_line l = Some n -> 0 < n.
Proof.
  unfold parse_line. destruct (_ || _)%bool; [done|].
  destruct (chunk_length _ _) as [z|] eqn:E; [|done]. apply chunk_length_pos in E; [|lia].
  destruct (_ || _)%bool eqn:E2; [done|]. intros [= <-]. reflect_bools. lia.
Qed.

Lemma turn_remaining c p : p <> [] -> 0 <= remaining c -> 0 <= remaining (turn c p).2.
Proof.
  intros Hp Hr. unfold turn. destruct (Z.eqb_spec (remaining c) 0) as [E|E]; cbn [negb].
  - destruct (negb _); [by destruct (_ =? _)|]. destruct (_ =? 10); [|done].
    destruct (parse_line (line c)) as [n|] eqn:Ep; [|done]. apply parse_line_pos in Ep. cbn. lia.
  - cbn. rewrite length_take. lia.
Qed.

(** The loop takes bytes in runs; it is the byte machine all the same. *)
Lemma run_bytes fuel c p :
  0 <= remaining c -> (length p <= fuel)%nat ->
  (run fuel c p).1 = (bytes_run c p).1 /\ same (run fuel c p).2 (bytes_run c p).2.
Proof.
  revert c p. induction fuel as [|fuel IH]; intros c p Hr Hl; [destruct p; [done|cbn in Hl; lia]|].
  destruct p as [|b p]; [done|]. cbn [run]. set (pp := b :: p) in *.
  destruct (Z.eq_dec (remaining c) 0) as [E|E].
  - assert (Ht : exists ok c', turn c pp = (ok, p, c') /\ turn c [b] = (ok, [], c')).
    { unfold turn, start_chunk. rewrite E. cbn [negb Z.eqb]. unfold pp.
      change (byte_at (b :: p) 0) with b. change (byte_at [b] 0) with b.
      destruct (negb (ending c =? 0)); [destruct (_ =? _)|destruct (_ =? 10); [destruct (parse_line (line c))|]];
        by eexists _, _. }
    destruct Ht as (ok & c' & -> & E2). pose proof (turn_remaining c [b] ltac:(done) Hr) as Hr'. rewrite E2 in Hr'.
    cbn [snd] in Hr'.
    unfold pp. cbn [bytes_run]. rewrite E2.
    destruct ok; [|done]. apply IH; [done|]. cbn in Hl. lia.
  - unfold turn. rewrite (proj2 (Z.eqb_neq _ 0)) by done. cbn [negb].
    set (n := Z.to_nat (Z.min (len pp) (remaining c))).
    assert (Hn : (1 <= n <= length pp)%nat /\ Z.of_nat n <= remaining c) by (unfold n, pp; cbn [length]; lia).
    destruct (bytes_run_payload c (take n pp)) as [E1 E2].
    { destruct n; [lia|]. done. }
    { rewrite length_take. lia. }
    destruct (IH (payload c (take n pp)) (drop n pp)) as [E3 E4].
    { cbn. rewrite length_take. lia. }
    { rewrite length_drop. lia. }
    replace (bytes_run c pp) with (bytes_run c (take n pp ++ drop n pp)) by (by rewrite take_drop).
    rewrite bytes_run_app.
    destruct (bytes_run c (take n pp)) as [ok c'] eqn:Eb. cbn [fst snd] in *. subst ok.
    pose proof (bytes_run_same _ _ (drop n pp) E2) as [E5 E6]. rewrite E3, <-E5. split; [done|].
    etransitivity; [exact E4|]. by symmetry.
Qed.

(** ** Chunks as a client writes them *)

Definition hex_val (h : bytes) : Z := foldl (fun acc x => acc * 16 + digit_val x) 0 h.
Definition CRLF : bytes := [13; 10].

(** A chunk: a spelling of its size in hex, and the data. *)
Record chunk_ok (ch : bytes * bytes) : Prop := {
  co_hex : Forall (fun x => isxdigit x = true) ch.1;
  co_line : (1 <= length ch.1 <= 9)%nat;
  co_size : hex_val ch.1 = len ch.2;
  co_max : 1 <= len ch.2 <= CHUNK_MAX
}.
Definition chunk_bytes (ch : bytes * bytes) : bytes := ch.1 ++ CRLF ++ ch.2 ++ CRLF.

Definition idle (E : list bytes) : VideoChunks := {| line := []; remaining := 0; ending := 0; emitted := E |}.

Lemma xdigit_digit x : isxdigit x = true -> digit x = digit_val x /\ digit x <= 15 /\ x <> 10 /\ 0 <= digit x.
Proof. unfold isxdigit, digit_val, digit, isdigit. intros H. repeat case_match; reflect_bools; lia. Qed.

Lemma hex_fold_mono h acc : 0 <= acc -> Forall (fun x => isxdigit x = true) h ->
  acc <= foldl (fun acc x => acc * 16 + digit_val x) acc h.
Proof.
  intros Ha Hh. revert acc Ha. induction Hh as [|x h Hc Hh IH]; intros acc Ha; cbn; [lia|].
  destruct (xdigit_digit x Hc) as (E & _ & _ & ?). etransitivity; [|apply IH]; lia.
Qed.

Lemma chunk_length_hex h acc :
  0 <= acc -> Forall (fun x => isxdigit x = true) h ->
  foldl (fun acc x => acc * 16 + digit_val x) acc h <= CHUNK_MAX ->
  chunk_length acc h = Some (foldl (fun acc x => acc * 16 + digit_val x) acc h).
Proof.
  intros Ha Hh. revert acc Ha. induction Hh as [|x h Hc Hh IH]; intros acc Ha Hl; [done|]. cbn [chunk_length foldl] in *.
  destruct (xdigit_digit x Hc) as (E & ? & _ & ?). rewrite (proj2 (Z.ltb_ge 15 _)) by lia.
  pose proof (hex_fold_mono h (acc * 16 + digit_val x) ltac:(lia) Hh).
  rewrite (proj2 (Z.ltb_ge _ acc)) by (apply Z.div_le_lower_bound; lia || lia).
  cbn [orb]. rewrite E. apply IH; lia.
Qed.

Lemma bytes_run_line l h E :
  Forall (fun x => x <> 10) h -> (length l + length h <= 10)%nat ->
  bytes_run {| line := l; remaining := 0; ending := 0; emitted := E |} h
  = (true, {| line := l ++ h; remaining := 0; ending := 0; emitted := E |}).
Proof.
  intros Hh. revert l. induction Hh as [|x h Hc Hh IH]; intros l Hl; [cbn; by rewrite app_nil_r|].
  cbn [bytes_run length] in *. unfold turn. cbn [remaining ending line negb Z.eqb]. change (byte_at [x] 0) with x.
  rewrite (proj2 (Z.eqb_neq x 10)) by done. cbn. rewrite length_app. cbn [length].
  rewrite (proj2 (Nat.leb_le _ _)) by lia. rewrite IH by (rewrite length_app; cbn; lia).
  by rewrite <-app_assoc.
Qed.

Lemma chunk_decodes ch E : chunk_ok ch ->
  (bytes_run (idle E) (chunk_bytes ch)).1 = true
  /\ same (bytes_run (idle E) (chunk_bytes ch)).2 (idle (E ++ [ch.2])).
Proof.
  intros [Hx Hl Hs Hm]. destruct ch as [h d]. cbn [fst snd] in *. unfold chunk_bytes. cbn [fst snd].
  assert (Hp : parse_line (h ++ [13]) = Some (len d)).
  { unfold parse_line. rewrite length_app. cbn [length]. rewrite (proj2 (Nat.ltb_ge _ _)) by lia.
    rewrite byte_at_app_r by (rewrite ?length_app; cbn; lia).
    replace (Z.of_nat (length h + 1) - 1 - len h) with 0 by lia.
    change (byte_at [13] 0) with 13. cbn [Z.eqb Pos.eqb negb orb].
    rewrite take_app_le, take_ge by lia.
    unfold hex_val in Hs. rewrite chunk_length_hex by (done || lia). rewrite Hs.
    rewrite (proj2 (Z.eqb_neq _ 0)), (proj2 (Z.ltb_ge _ _)) by lia. done. }
  rewrite bytes_run_app. unfold idle. rewrite bytes_run_line; [|
    eapply list.Forall_impl; [exact Hx|]; intros x Hc; apply (xdigit_digit x Hc) | cbn; lia].
  cbn [app]. unfold CRLF. change ([13; 10] ++ ?r) with ([13] ++ [10] ++ r). rewrite bytes_run_app.
  rewrite bytes_run_line by (first [by repeat constructor|cbn; lia]).
  set (c0 := {| line := h ++ [13]; remaining := 0; ending := 0; emitted := E |}).
  cbn [app bytes_run]. replace (turn c0 [10]) with (true, [] : bytes, start_chunk c0 (len d))
    by (unfold turn, c0; cbn [remaining ending line negb Z.eqb byte_at nth Z.to_nat]; by rewrite Hp).
  rewrite bytes_run_app. destruct (bytes_run_payload (start_chunk c0 (len d)) d) as [E1 E2].
  { intros ->. cbn in Hm. lia. }
  { cbn. lia. }
  destruct (bytes_run (start_chunk c0 (len d)) d) as [ok c1]. cbn [fst snd] in E1, E2. subst ok.
  destruct (bytes_run_same _ _ [13; 10] E2) as [-> E3].
  assert (Ee : bytes_run (payload (start_chunk c0 (len d)) d) [13; 10] = (true, idle (E ++ [d]))).
  { unfold payload, start_chunk, c0. cbn [line remaining ending emitted]. rewrite Z.sub_diag. done. }
  rewrite Ee in *. split; [done|]. exact E3.
Qed.

Lemma chunks_decode chs E : Forall chunk_ok chs ->
  (bytes_run (idle E) (concat (map chunk_bytes chs))).1 = true
  /\ same (bytes_run (idle E) (concat (map chunk_bytes chs))).2 (idle (E ++ map snd chs)).
Proof.
  intros Hc. revert E. induction Hc as [|ch chs Hc Hcs IH]; intros E; [cbn; by rewrite app_nil_r|].
  cbn [map concat]. rewrite bytes_run_app. destruct (chunk_decodes ch E Hc) as [E1 E2].
  destruct (bytes_run (idle E) (chunk_bytes ch)) as [ok c]. cbn [fst snd] in *. subst ok.
  destruct (bytes_run_same _ _ (concat (map chunk_bytes chs)) E2) as [-> E3].
  destruct (IH (E ++ [ch.2])) as [-> E4]. split; [done|]. etransitivity; [exact E3|].
  by rewrite <-app_assoc in E4.
Qed.
