(* ===== verification/Socket.v ===== *)
(** * A connected, non-blocking stream socket

    What the viewers' [send] and [recv] on a socket meet: the results of the coming sends
    are a list (when it runs out the socket is full) and [wire] is what has been taken. *)

From S2P Require Import Prelude.

Inductive snd_res := SndTook (n : nat) | SndAgain | SndIntr | SndErr.
Inductive rcv_res := RcvData (b : bytes) | RcvEof | RcvAgain | RcvErr.

Record Sock := { results : list snd_res; wire : bytes }.

#[export] Instance eta_Sock : Eta Sock := fun k => Build_Sock (results k) (wire k).

Implicit Types k : Sock.

(** [send(fd, b, len b, MSG_NOSIGNAL)]: at most what was offered is taken. *)
Definition sock_send k (b : bytes) : snd_res * Sock :=
  match results k with
  | [] => (SndAgain, k)
  | SndTook n :: rs => let n := Nat.min n (length b) in
                       (SndTook n, k <| results := rs |> <| wire := wire k ++ take n b |>)
  | r :: rs => (r, k <| results := rs |>)
  end.

Lemma sock_send_results k b r k' : sock_send k b = (r, k') ->
  (length (results k') <= length (results k))%nat
  /\ (results k <> [] -> (length (results k') < length (results k))%nat).
Proof.
  unfold sock_send. destruct (results k) as [|[] rs] eqn:E; intros [= <- <-]; cbn; rewrite ?E; cbn; split; lia || done.
Qed.

Lemma sock_send_wire k b r k' : sock_send k b = (r, k') ->
  match r with
  | SndTook n => (n <= length b)%nat /\ wire k' = wire k ++ take n b
  | _ => wire k' = wire k
  end.
Proof. unfold sock_send. destruct (results k) as [|[] rs]; intros [= <- <-]; cbn; try done. split; [lia|done]. Qed.

(** A socket with room for everything offered to it. *)
Definition roomy k (n : nat) : Prop := exists rs, results k = replicate n (SndTook (Z.to_nat 65536)) ++ rs.
