(* ===== verification/Splice.v ===== *)
(** * The publisher splice (video.cpp: SpliceQueue, splice_flush, guard_rtsp_requests)

    The queue of one direction, and the filter between an RTSP publisher and its backend:
    the stream is passed on unchanged, but each request's line is inspected first. *)

From S2P Require Import Prelude CStr VideoAuth HttpReq Socket.

(** ** Queues *)

Record SpliceQueue := { buf : bytes; sent : nat; armed : bool }.

#[export] Instance eta_SpliceQueue : Eta SpliceQueue := fun q => Build_SpliceQueue (buf q) (sent q) (armed q).

Implicit Types q : SpliceQueue.

Definition queue_new : SpliceQueue := {| buf := []; sent := O; armed := false |}.

Definition pending q : Z := len (buf q) - Z.of_nat (sent q).
Definition clear q : SpliceQueue := queue_new.
Definition compact q : SpliceQueue :=
  if (sent q =? length (buf q))%nat then q <| buf := ([] : bytes) |> <| sent := O |>
  else if 65536 <? Z.of_nat (sent q) then q <| buf := drop (sent q) (buf q) |> <| sent := O |>
  else q.

Definition SPLICE_QUEUE_MAX : Z := 1024 * 1024.

Definition insert q (b : bytes) : SpliceQueue := q <| buf := buf q ++ b |>.
Definition advance q (n : nat) : SpliceQueue := q <| sent := (sent q + n)%nat |>.

(** One turn per result of the socket, and one that finds it full.  Before the final
    [compact]. *)
Fixpoint splice_loop (fuel : nat) (k : Sock) q : bool * Sock * SpliceQueue :=
  if pending q <=? 0 then (true, k, q)
  else
    match fuel with
    | O => (true, k, q)
    | S fuel =>
      let '(r, k) := sock_send k (drop (sent q) (buf q)) in
      match r with
      | SndTook (S n) => splice_loop fuel k (advance q (S n))
      | SndTook O => (false, k, q)
      | SndIntr => splice_loop fuel k q
      | SndAgain => (true, k, q)
      | SndErr => (false, k, q)
      end
    end.

(** False when the sink is gone. *)
Definition splice_flush (k : Sock) q : bool * Sock * SpliceQueue :=
  let '(ok, k, q) := splice_loop (S (length (results k))) k q in (ok, k, if ok then compact q else q).

(** [open]: the sink's descriptor is there; [ctl_ok]: [epoll_ctl] succeeds. *)
Definition splice_arm (open ctl_ok : bool) q : SpliceQueue :=
  let want := 0 <? pending q in
  if Bool.eqb want (armed q) || negb open then q
  else if ctl_ok then q <| armed := want |> else q.

(** ** The request filter *)

Record RtspRequestGuard := { buffered : bytes; opaque_left : Z }.

#[export] Instance eta_RtspRequestGuard : Eta RtspRequestGuard := fun g =>
  Build_RtspRequestGuard (buffered g) (opaque_left g).

Implicit Types g : RtspRequestGuard.

Definition guard_new : RtspRequestGuard := {| buffered := []; opaque_left := 0 |}.

(** The length of the header at the head of the buffer: up to the first blank line. *)
Fixpoint header_scan (i : nat) (s : bytes) : nat :=
  match s with
  | [] => O
  | _ :: s' =>
    if starts_with LF2 s then (i + 2)%nat
    else if starts_with CRLF2 s then (i + 4)%nat
    else header_scan (S i) s'
  end.
Definition header_len (s : bytes) : nat := header_scan O s.

(** [strtoull(s.c_str(), &end, 10)]: the value, [end - s], and whether [errno] is set.  A
    negative numeral is converted and then negated as an unsigned value. *)
Definition ULLONG_MAX : Z := 2 ^ 64 - 1.
Definition strtoull (s : bytes) : Z * nat * bool :=
  let '(v, n) := strto 10 s in
  if ULLONG_MAX <? Z.abs v then (ULLONG_MAX, n, true) else (u64 v, n, false).

Definition c_str (s : bytes) : bytes := match find_byte 0 s with Some i => take i s | None => s end.

(** The declared body length; [None] when the header is refused. *)
Definition body_of (req : HttpRequest) : option Z :=
  let count := header_count req (bs "Content-Length") in
  let value := header req (bs "Content-Length") in
  if (1 <? count) || ((count =? 1) && is_nil value) then None
  else if is_nil value then Some 0
  else
    let s := c_str value in
    let '(v, n, erange) := strtoull s in
    if erange || (n =? 0)%nat || negb (n =? length s)%nat || (16 * 1024 * 1024 <? v) then None else Some v.

(** The text before the last slash. *)
Definition before_slash (s : bytes) : option bytes :=
  match find_byte 47 (reverse s) with Some i => Some (take (length s - S i) s) | None => None end.

Inductive guard_res := GuardMore | GuardBad | GuardBadPassword | GuardOn (g : RtspRequestGuard) (out : bytes).

Section guard.
Variable sha256 : bytes -> bytes.
Variable key : bytes.            (* the entry's publish password *)

(** A credential a request offers, as it stands or without a control path after it. *)
Definition credential_ok (pw : bytes) : bool :=
  negb (key_set key) || video_password_matches sha256 key pw
  || match before_slash pw with Some p => video_password_matches sha256 key p | None => false end.

(** One turn of the filter on a non-empty buffer; the bytes to pass on. *)
Definition guard_turn g : guard_res :=
  let b := buffered g in
  if 0 <? opaque_left g then
    let n := Z.min (opaque_left g) (len b) in
    GuardOn {| buffered := zdrop n b; opaque_left := opaque_left g - n |} (ztake n b)
  else if byte_at b 0 =? 36 then
    if (length b <? 4)%nat then GuardMore
    else GuardOn {| buffered := drop 4 b; opaque_left := Z.lor (Z.shiftl (byte_at b 2) 8) (byte_at b 3) |} (take 4 b)
  else
    match header_len b with
    | O => if len b <=? HTTP_MAX_REQUEST then GuardMore else GuardBad
    | n =>
      match HttpReq.feed http_init (take n b) with
      | (1, req) =>
        if match http_query_value (target_ req) (bs "pw") with Some pw => credential_ok pw | None => true end
        then match body_of req with
             | Some body =>
                 GuardOn {| buffered := drop n b;
                            opaque_left := if is_nil (header req (bs "Content-Length")) then opaque_left g else body |} (take n b)
             | None => GuardBad
             end
        else GuardBadPassword
      | _ => GuardBad
      end
    end.

(** What a read ends in. *)
Inductive guard_end := PassedOn | Refused (password : bool).

(** Each turn takes bytes off the buffer. *)
Fixpoint guard_loop (fuel : nat) g q : guard_end * RtspRequestGuard * SpliceQueue :=
  match buffered g, fuel with
  | [], _ | _, O => (PassedOn, g, q)
  | _, S fuel =>
    match guard_turn g with
    | GuardMore => (PassedOn, g, q)
    | GuardBad => (Refused false, g, q)
    | GuardBadPassword => (Refused true, g, q)
    | GuardOn g out => guard_loop fuel g (insert q out)
    end
  end.

(** [q]: the queue towards the backend. *)
Definition guard_rtsp_requests g q (b : bytes) : guard_end * RtspRequestGuard * SpliceQueue :=
  let g := g <| buffered := buffered g ++ b |> in guard_loop (length (buffered g)) g q.
End guard.

(** ** Nothing lost in a queue *)

(** What the queue has still to hand on. *)
Definition owed q : bytes := drop (sent q) (buf q).
Definition queue_ok q : Prop := (sent q <= length (buf q))%nat.

Lemma pending_owed q : queue_ok q -> pending q = len (owed q).
Proof. unfold queue_ok, pending, owed. rewrite length_drop. lia. Qed.

Lemma compact_ok q : queue_ok q -> queue_ok (compact q) /\ owed (compact q) = owed q /\ armed (compact q) = armed q.
Proof.
  unfold queue_ok, compact, owed. intros Hq. destruct (Nat.eqb_spec (sent q) (length (buf q))) as [E|E].
  - split_and!; [done| |done]. cbn. by rewrite E, drop_all.
  - destruct (_ <? _); [|done]. split_and!; [cbn; lia|done|done].
Qed.

Lemma insert_ok q b : queue_ok q -> queue_ok (insert q b) /\ owed (insert q b) = owed q ++ b.
Proof.
  unfold queue_ok, insert, owed. cbn. rewrite length_app. intros Hq. split; [lia|]. by rewrite drop_app_le by lia.
Qed.

Lemma splice_loop_ok fuel k q : queue_ok q ->
  let '(_, k', q') := splice_loop fuel k q in
  queue_ok q' /\ wire k' ++ owed q' = wire k ++ owed q /\ armed q' = armed q /\ buf q' = buf q.
Proof.
  revert k q. induction fuel as [|fuel IH]; intros k q Hq; cbn [splice_loop]; destruct (_ <=? _) eqn:Ep; try done.
  destruct (sock_send k _) as [r k1] eqn:Es. apply sock_send_wire in Es.
  apply Z.leb_gt in Ep. unfold pending in Ep.
  destruct r as [[|n]| | |].
  - destruct Es as [_ Es]. cbn in Es. rewrite app_nil_r in Es. by rewrite Es.
  - destruct Es as [Hn Es]. rewrite length_drop in Hn. specialize (IH k1 (advance q (S n))).
    destruct (splice_loop fuel k1 _) as [[ok k2] q2]. destruct IH as (H1 & H2 & H3 & H4).
    { unfold queue_ok in *. cbn. lia. }
    split_and!; [done| |done|done]. rewrite H2, Es, <-app_assoc. f_equal. unfold owed. cbn.
    rewrite <-drop_drop. apply take_drop.
  - by rewrite Es.
  - rewrite <-Es. by apply IH.
  - by rewrite Es.
Qed.

(** A flush moves bytes from the queue to the wire and does nothing else to either. *)
Lemma splice_flush_ok k q : queue_ok q ->
  let '(_, k', q') := splice_flush k q in
  queue_ok q' /\ wire k' ++ owed q' = wire k ++ owed q /\ armed q' = armed q.
Proof.
  intros Hq. unfold splice_flush. pose proof (splice_loop_ok (S (length (results k))) k q Hq) as H.
  destruct (splice_loop _ k q) as [[[] k'] q']; destruct H as (H1 & H2 & H3 & _); [|done].
  destruct (compact_ok q' H1) as (H4 & H5 & H6). split_and!; [done|congruence|congruence].
Qed.

(** The loop's fuel is enough: it stops by itself. *)
Lemma splice_loop_fuel f1 f2 k q :
  (length (results k) < f1)%nat -> (length (results k) < f2)%nat -> splice_loop f1 k q = splice_loop f2 k q.
Proof.
  revert f2 k q. induction f1 as [|f1 IH]; intros f2 k q H1 H2; [lia|]. destruct f2 as [|f2]; [lia|]. cbn [splice_loop].
  destruct (_ <=? _); [done|]. destruct (sock_send k _) as [r k'] eqn:Es.
  pose proof (sock_send_results _ _ _ _ Es) as [_ Hlt].
  assert (Hk : r <> SndAgain -> (length (results k') < f1)%nat /\ (length (results k') < f2)%nat).
  { intros Hr. assert (results k <> []); [|specialize (Hlt ltac:(done)); lia].
    intros E. unfold sock_send in Es. rewrite E in Es. by injection Es as <- <-. }
  destruct r as [[|n]| | |]; try done; apply IH; by apply Hk.
Qed.

(** ** What the filter passes on *)

(** A piece of the publisher's stream, as the filter cuts it: a request's header and its
    body, or an interleaved frame's four bytes and its data. *)
Record piece := { head : bytes; rest : bytes }.

Definition piece_bytes (p : piece) : bytes := head p ++ rest p.

Section filter.
Variable sha256 : bytes -> bytes.
Variable key : bytes.

(** The length the head declares for the rest, if it is one head and may pass. *)
Definition passes (h : bytes) : option Z :=
  if byte_at h 0 =? 36
  then if (length h =? 4)%nat then Some (Z.lor (Z.shiftl (byte_at h 2) 8) (byte_at h 3)) else None
  else if negb (header_len h =? length h)%nat then None
  else
    match HttpReq.feed http_init h with
    | (1, req) =>
        if match http_query_value (target_ req) (bs "pw") with Some pw => credential_ok sha256 key pw | None => true end
        then body_of req else None
    | _ => None
    end.

Definition whole (p : piece) : Prop := passes (head p) = Some (len (rest p)).

(** [fwd] is whole pieces and, while [left] bytes are missing, the start of another. *)
Definition cut_up (fwd : bytes) (left : Z) : Prop :=
  exists ps cur, Forall whole ps /\ fwd = concat (map piece_bytes ps) ++ cur
  /\ (left = 0 /\ cur = []
      \/ 0 < left /\ exists p, cur = piece_bytes p /\ passes (head p) = Some (len (rest p) + left)).

Lemma header_scan_spec i s n : header_scan i s = n -> n <> O ->
  (i + 2 <= n <= i + length s)%nat /\ header_scan i (take (n - i) s) = n.
Proof.
  revert i. induction s as [|c s IH]; intros i Hn Hne; [by subst n|]. cbn [header_scan] in Hn.
  assert (Hlast : forall pat, (0 < length pat)%nat -> starts_with pat (c :: s) = true -> n = (i + length pat)%nat ->
    (n <= i + length (c :: s))%nat /\ take (n - i) (c :: s) = pat).
  { intros pat Hp Hs ->. pose proof (starts_with_len _ _ Hs). split; [lia|].
    rewrite (starts_with_inv _ _ Hs). replace (i + length pat - i)%nat with (length pat) by lia. apply take_app_length. }
  destruct (starts_with LF2 (c :: s)) eqn:E1.
  { destruct (Hlast LF2 ltac:(cbn; lia) E1 ltac:(cbn; lia)) as [H1 ->]. split; [cbn in *; lia|]. cbn. lia. }
  destruct (starts_with CRLF2 (c :: s)) eqn:E2.
  { destruct (Hlast CRLF2 ltac:(cbn; lia) E2 ltac:(cbn; lia)) as [H1 ->]. split; [cbn in *; lia|]. cbn. lia. }
  destruct (IH (S i) Hn Hne) as [H1 H2]. split; [cbn [length]; lia|].
  replace (n - i)%nat with (S (n - S i)) by lia. cbn [take header_scan].
  assert (Hno : forall pat, starts_with pat (c :: s) = false -> starts_with pat (c :: take (n - S i) s) = false).
  { intros pat Hf. destruct (starts_with pat (c :: take (n - S i) s)) eqn:E; [|done]. rewrite <-Hf. symmetry.
    rewrite <-(take_drop (n - S i) s), app_comm_cons. by apply starts_with_app_l. }
  by rewrite (Hno _ E1), (Hno _ E2).
Qed.

Lemma header_len_take s n : header_len s = n -> n <> O ->
  (2 <= n <= length s)%nat /\ header_len (take n s) = n /\ length (take n s) = n.
Proof.
  intros Hn Hne. destruct (header_scan_spec 0 s n Hn Hne) as [H1 H2]. rewrite Nat.sub_0_r in H2.
  split; [lia|]. split; [done|]. rewrite length_take. lia.
Qed.

Lemma strtoull_bound s v n e : strtoull s = (v, n, e) -> 0 <= v.
Proof. unfold strtoull. destruct (strto 10 s) as [u m]. destruct (_ <? _); intros [= <- _ _]; [done|apply wrap_range; lia]. Qed.

Lemma body_of_bound req n : body_of req = Some n -> 0 <= n.
Proof.
  unfold body_of. destruct (_ || _); [done|]. destruct (is_nil _); [by intros [= <-]|].
  destruct (strtoull _) as [[v m] e] eqn:Es. apply strtoull_bound in Es. destruct (_ || _ || _ || _); [done|]. by intros [= <-].
Qed.

Lemma cut_up_piece ps p left :
  Forall whole ps -> 0 <= left -> passes (head p) = Some (len (rest p) + left) ->
  cut_up (concat (map piece_bytes ps) ++ piece_bytes p) left.
Proof.
  intros Hps Hl Hp. destruct (Z.eq_dec left 0) as [->|].
  - exists (ps ++ [p]), []. rewrite map_app, concat_app. cbn. rewrite !app_nil_r. split_and!; [|done|by left].
    apply list.Forall_app. split; [done|]. constructor; [|constructor]. unfold whole. rewrite Hp. f_equal. lia.
  - exists ps, (piece_bytes p). split_and!; [done|done|]. right. split; [lia|]. by exists p.
Qed.

(** A turn that passes something on: bytes off the front of the buffer, which extend the
    pieces. *)
Lemma guard_turn_on g fwd g' out :
  buffered g <> [] -> bytes_ok (buffered g) -> cut_up fwd (opaque_left g) -> guard_turn sha256 key g = GuardOn g' out ->
  out <> [] /\ buffered g = out ++ buffered g' /\ cut_up (fwd ++ out) (opaque_left g').
Proof.
  intros Hne Hb (ps & cur & Hps & -> & Hcur). unfold guard_turn. destruct (Z.ltb_spec 0 (opaque_left g)) as [Hpos|Hz].
  - intros [= <- <-]. destruct Hcur as [[? _]|(_ & p & -> & Hp)]; [lia|]. set (n := Z.min (opaque_left g) (len (buffered g))).
    assert (Hlen : len (ztake n (buffered g)) = n) by (rewrite length_ztake; lia).
    assert (Hpos' : 0 < n) by (destruct (buffered g); [done|cbn [length] in *; lia]).
    split_and!.
    + intros E. rewrite E in Hlen. cbn in Hlen. lia.
    + cbn. symmetry. apply take_drop.
    + cbn [opaque_left]. replace ((_ ++ piece_bytes p) ++ _) with
        (concat (map piece_bytes ps) ++ piece_bytes {| head := head p; rest := rest p ++ ztake n (buffered g) |})
        by (unfold piece_bytes; cbn; by rewrite <-!app_assoc).
      apply cut_up_piece; [done|lia|]. cbn. rewrite Hp, length_app. f_equal. lia.
  - assert (Hleft : opaque_left g = 0 /\ cur = []) by (destruct Hcur as [|(? & _)]; [done|lia]). destruct Hleft as [Hleft ->].
    clear Hcur. rewrite app_nil_r.
    assert (Hnew : forall m n, (0 < m <= length (buffered g))%nat -> 0 <= n -> passes (take m (buffered g)) = Some n ->
      take m (buffered g) <> [] /\ buffered g = take m (buffered g) ++ drop m (buffered g)
      /\ cut_up (concat (map piece_bytes ps) ++ take m (buffered g)) n).
    { intros m n Hm Hn Hp. split_and!.
      - intros E. apply (f_equal length) in E. rewrite length_take in E. cbn in E. lia.
      - symmetry. apply take_drop.
      - replace (take m (buffered g)) with (piece_bytes {| head := take m (buffered g); rest := [] |})
          by (unfold piece_bytes; cbn; by rewrite app_nil_r).
        apply cut_up_piece; [done|done|]. cbn. by rewrite Hp. }
    destruct (Z.eqb_spec (byte_at (buffered g) 0) 36) as [E36|E36].
    + destruct (Nat.ltb_spec (length (buffered g)) 4); [done|]. intros [= <- <-]. cbn [buffered opaque_left].
      assert (L4 : length (take 4 (buffered g)) = 4%nat) by (rewrite length_take; lia).
      apply Hnew; [lia|..].
      * apply Z.lor_nonneg. split; [apply Z.shiftl_nonneg|]; by apply byte_at_ok.
      * unfold passes. change 0 with (Z.of_nat 0). change 2 with (Z.of_nat 2). change 3 with (Z.of_nat 3).
        rewrite !byte_at_take, L4 by lia. change (Z.of_nat 0) with 0. by rewrite E36.
    + destruct (header_len (buffered g)) as [|n] eqn:En; [by destruct (_ <=? _)|].
      destruct (header_len_take _ _ En ltac:(done)) as (Hn & Hh & Hl).
      destruct (HttpReq.feed http_init (take (S n) (buffered g))) as [v req] eqn:Ef.
      destruct (Z.eq_dec v 1) as [->|Hv]; [|by destruct v as [|[]|]].
      destruct (match http_query_value _ _ with Some _ => _ | None => _ end) eqn:Epw; [|done].
      destruct (body_of req) as [body|] eqn:Eb; [|done]. intros [= <- <-]. cbn [buffered opaque_left].
      assert (Eop : (if is_nil (header req (bs "Content-Length")) then opaque_left g else body) = body).
      { destruct (is_nil _) eqn:Enil; [|done]. unfold body_of in Eb. rewrite Enil in Eb. destruct (_ || _); [done|].
        injection Eb as <-. done. }
      rewrite Eop. apply Hnew; [lia|..].
      * by eapply body_of_bound.
      * unfold passes. rewrite (byte_at_take _ (S n) 0) by lia. change (Z.of_nat 0) with 0.
        rewrite (proj2 (Z.eqb_neq _ _) E36), Hh, Hl, Nat.eqb_refl. cbn [negb]. by rewrite Ef, Epw, Eb.
Qed.

(** What is left in the buffer when the filter waits for more. *)
Definition waits g : Prop := len (buffered g) <= HTTP_MAX_REQUEST.

Lemma guard_loop_ok fuel g q fwd e g' q' :
  bytes_ok (buffered g) -> cut_up fwd (opaque_left g) -> (length (buffered g) <= fuel)%nat ->
  guard_loop sha256 key fuel g q = (e, g', q') ->
  exists out, buffered g = out ++ buffered g' /\ buf q' = buf q ++ out /\ sent q' = sent q /\ armed q' = armed q
  /\ cut_up (fwd ++ out) (opaque_left g')
  /\ match e with
     | PassedOn => waits g'
     | Refused pw => guard_turn sha256 key g' = if pw then GuardBadPassword else GuardBad
     end.
Proof.
  revert g q fwd. induction fuel as [|fuel IH]; intros g q fwd Hb Hc Hf; cbn [guard_loop].
  { destruct (buffered g) eqn:E; [|cbn in Hf; lia]. intros [= <- <- <-]. exists []. rewrite !app_nil_r, E.
    split_and!; try done. unfold waits. by rewrite E. }
  destruct (buffered g) eqn:E.
  { intros [= <- <- <-]. exists []. rewrite !app_nil_r, E. split_and!; try done. unfold waits. by rewrite E. }
  rewrite <-E in *. assert (Hne : buffered g <> []) by (by rewrite E). clear E l z.
  assert (Hstop : forall e0, (e0, g, q) = (e, g', q') ->
    (match e0 with PassedOn => waits g | Refused pw => guard_turn sha256 key g = if pw then GuardBadPassword else GuardBad end) ->
    exists out, buffered g = out ++ buffered g' /\ buf q' = buf q ++ out /\ sent q' = sent q /\ armed q' = armed q
    /\ cut_up (fwd ++ out) (opaque_left g')
    /\ match e with PassedOn => waits g' | Refused pw => guard_turn sha256 key g' = if pw then GuardBadPassword else GuardBad end).
  { intros e0 [= <- <- <-] He. exists []. by rewrite !app_nil_r. }
  destruct (guard_turn sha256 key g) as [| | |g1 out1] eqn:Et.
  - intros Heq. apply (Hstop _ Heq). unfold waits. revert Et. unfold guard_turn. destruct (_ <? opaque_left g); [done|].
    destruct (_ =? 36).
    { destruct (Nat.ltb_spec (length (buffered g)) 4); [|done]. intros _. unfold HTTP_MAX_REQUEST. lia. }
    destruct (header_len _); [destruct (Z.leb_spec (len (buffered g)) HTTP_MAX_REQUEST); [done|done]|].
    destruct (HttpReq.feed _ _) as [v req]. destruct (Z.eq_dec v 1) as [->|Hv]; [|by destruct v as [|[]|]].
    destruct (match http_query_value _ _ with Some _ => _ | None => _ end); [|done]. by destruct (body_of req).
  - intros Heq. by apply (Hstop _ Heq).
  - intros Heq. by apply (Hstop _ Heq).
  - intros Hr. destruct (guard_turn_on g fwd g1 out1 Hne Hb Hc Et) as (Ho & Ebuf & Hc1).
    assert (Hl : (length (buffered g1) < length (buffered g))%nat).
    { rewrite Ebuf, length_app. destruct out1; [done|cbn; lia]. }
    assert (Hb1 : bytes_ok (buffered g1)) by (rewrite Ebuf in Hb; by apply list.Forall_app in Hb as [_ ?]).
    destruct (IH g1 (insert q out1) (fwd ++ out1) Hb1 Hc1 ltac:(lia) Hr) as (out & E1 & E2 & E3 & E4 & E5 & E6).
    exists (out1 ++ out). rewrite Ebuf, E1, E2. cbn. rewrite <-!app_assoc in *. done.
Qed.

(** The reads of a connection, until one is refused. *)
Fixpoint guard_run g q (reads : list bytes) : guard_end * RtspRequestGuard * SpliceQueue :=
  match reads with
  | [] => (PassedOn, g, q)
  | b :: reads =>
    match guard_rtsp_requests sha256 key g q b with
    | (PassedOn, g, q) => guard_run g q reads
    | r => r
    end
  end.

Lemma guard_run_ok reads g q fwd e g' q' :
  bytes_ok (buffered g ++ concat reads) -> cut_up fwd (opaque_left g) -> waits g -> guard_run g q reads = (e, g', q') ->
  exists used out, used `prefix_of` reads /\ buffered g ++ concat used = out ++ buffered g' /\ buf q' = buf q ++ out
  /\ cut_up (fwd ++ out) (opaque_left g')
  /\ match e with
     | PassedOn => used = reads /\ waits g'
     | Refused pw => guard_turn sha256 key g' = if pw then GuardBadPassword else GuardBad
     end.
Proof.
  revert g q fwd. induction reads as [|b reads IH]; intros g q fwd Hb Hc Hw; cbn [guard_run].
  { intros [= <- <- <-]. exists [], []. cbn. by rewrite !app_nil_r. }
  cbn [concat] in Hb. rewrite app_assoc in Hb.
  destruct (guard_rtsp_requests sha256 key g q b) as [[e1 g1] q1] eqn:E1. unfold guard_rtsp_requests in E1.
  pose proof Hb as Hb0. apply list.Forall_app in Hb0 as [Hb0 _].
  apply (guard_loop_ok _ _ q fwd) in E1; [|done|done|done]. destruct E1 as (out1 & B1 & Q1 & _ & _ & C1 & P1).
  cbn [buffered] in B1. destruct e1 as [|pw].
  - intros Hr. destruct (IH g1 q1 (fwd ++ out1)) as (used & out & U & B & Q & C & P); [|done|done|done|].
    { rewrite B1, <-app_assoc in Hb. by apply list.Forall_app in Hb as [_ ?]. }
    exists (b :: used), (out1 ++ out). cbn [concat]. rewrite app_assoc, B1, Q, Q1, <-!app_assoc, B in *.
    split_and!; [by apply prefix_cons|by rewrite <-?app_assoc|done|done|]. destruct e; [destruct P as [-> ?]|]; done.
  - intros [= <- <- <-]. exists [b], out1. cbn [concat]. rewrite app_nil_r. split_and!; try done.
    by eexists.
Qed.

(** C18: The RTSP splice passes the publisher's stream on unchanged, and no request it has not
    looked at.  Whatever reads a publisher's connection delivers: what has gone to the
    backend's queue and what is held back are, in order, exactly the bytes read; what has
    gone is whole requests and interleaved frames, the last possibly still lacking part of
    its body; every request among them parses, declares its body, and, if its target carries
    a password, carries the entry's own (or one before a control path); a request that is
    refused stays behind as a whole; and never more than a header's limit is held back while
    the connection is kept. *)
Theorem rtsp_filter_faithful q reads e g' q' :
  Forall is_byte (concat reads) -> guard_run guard_new q reads = (e, g', q') ->
  exists used out ps cur, used `prefix_of` reads /\ concat used = out ++ buffered g' /\ buf q' = buf q ++ out
  /\ out = concat (map piece_bytes ps) ++ cur
  /\ Forall (fun p => passes (head p) = Some (len (rest p))) ps
  /\ (opaque_left g' = 0 /\ cur = []
      \/ 0 < opaque_left g' /\ exists p, cur = piece_bytes p /\ passes (head p) = Some (len (rest p) + opaque_left g'))
  /\ match e with
     | PassedOn => used = reads /\ len (buffered g') <= HTTP_MAX_REQUEST
     | Refused pw => guard_turn sha256 key g' = if pw then GuardBadPassword else GuardBad
     end.
Proof.
  intros Hb Hr. apply (guard_run_ok reads guard_new q []) in Hr; [|done| |done].
  2: { exists [], []. split_and!; [constructor|done|by left]. }
  destruct Hr as (used & out & U & B & Q & (ps & cur & P1 & P2 & P3) & P). by exists used, out, ps, cur.
Qed.
End filter.

(** ** A publisher with a body and a frame *)

Definition demo_publish : bytes :=
  bs "ANNOUNCE rtsp://h/cam?pw=s RTSP/1.0" ++ [13; 10] ++ bs "CSeq: 2" ++ [13; 10] ++ bs "Content-Length: 3" ++ [13; 10; 13; 10]
  ++ bs "abc" ++ [36; 0; 0; 2; 7; 8] ++ bs "TEARD".
Definition demo_publish_reads : list bytes := [take 20 demo_publish; slice demo_publish 20 50; drop 70 demo_publish].

Lemma rtsp_filter_faithful_witness :
  exists g' q', guard_run demo_hash (demo_hash (bs "s")) guard_new queue_new demo_publish_reads = (PassedOn, g', q')
  /\ demo_publish = buf q' ++ buffered g'.
Proof.
  destruct (guard_run demo_hash (demo_hash (bs "s")) guard_new queue_new demo_publish_reads) as [[e g'] q'] eqn:E.
  exists g', q'. assert (e = PassedOn) as ->.
  { revert E. vm_compute. by intros [= <- _ _]. }
  split; [done|].
  destruct (rtsp_filter_faithful demo_hash (demo_hash (bs "s")) queue_new demo_publish_reads PassedOn g' q')
    as (used & out & ps & cur & _ & B & Q & _ & _ & _ & -> & _); [decide_vm|exact E|].
  rewrite Q. cbn [app buf queue_new]. rewrite <-B. vm_compute. reflexivity.
Defined.

(** A password that does not match keeps the request back. *)
Example wrong_password_refused :
  let '(e, _, q) := guard_run demo_hash (demo_hash (bs "t")) guard_new queue_new demo_publish_reads in
  (e, buf q) = (Refused true, []).
Proof. by vm_compute. Qed.

(** ffmpeg's control path after the password. *)
Example control_path_accepted : credential_ok demo_hash (demo_hash (bs "s")) (bs "s/streamid=0") = true.
Proof. by vm_compute. Qed.
