(* ===== verification/Backend.v ===== *)
(** * The ffmpeg backend's life (videortsp.cpp, videortsp.h)

    Starting, watching and stopping the process that turns a publisher's RTSP, FLV or RTP
    into MPEG-TS.  The system calls' results are the environment; the descriptors this
    process holds for the backend, and the children not yet waited for, are kept in a
    ledger, so that what [start] and [stop] leave behind can be stated. *)

From S2P Require Import Prelude CStr VideoAuth Socket.

Definition RTSP_BACKEND_READY_MS : Z := 3000.
Definition STEP_MS : Z := 20.

Inductive splice_proto_t := SPLICE_RTSP | SPLICE_RTMP | SPLICE_RTP.
#[export] Instance splice_proto_eq_dec : EqDecision splice_proto_t.
Proof. solve_decision. Defined.

Definition splice_proto_name (p : splice_proto_t) : bytes :=
  match p with SPLICE_RTMP => bs "RTMP" | SPLICE_RTP => bs "RTP" | SPLICE_RTSP => bs "RTSP" end.

(** ** The ledger *)

Inductive fd_name := FdProbe | FdMedia0 | FdMedia1 | FdFeed0 | FdFeed1 | FdRtp | FdConn.
#[export] Instance fd_name_eq_dec : EqDecision fd_name.
Proof. solve_decision. Defined.

(** [faults]: a descriptor closed that was not open, or opened twice. *)
Record Ledger := { fds : list fd_name; kids : list Z; faults : bool }.

#[export] Instance eta_Ledger : Eta Ledger := fun l => Build_Ledger (fds l) (kids l) (faults l).

Implicit Types l : Ledger.

Definition opens (n : fd_name) l : Ledger := l <| fds := n :: fds l |> <| faults := faults l || bool_decide (n ∈ fds l) |>.
Definition closes (n : fd_name) l : Ledger :=
  l <| fds := filter (fun m => m <> n) (fds l) |> <| faults := faults l || negb (bool_decide (n ∈ fds l)) |>.
Definition forked (pid : Z) l : Ledger := l <| kids := pid :: kids l |>.
Definition waited (pid : Z) l : Ledger := l <| kids := filter (fun p => p <> pid) (kids l) |>.

(** ** The backend *)

(** [backend_fd_], [media_fd_] and [rtp_fd_] name the descriptor held, if any. *)
Record RtspBackend := {
  pid_ : Z;
  backend_fd_ : option fd_name;
  media_fd_ : option fd_name;
  rtp_fd_ : option fd_name;
  rtp_dst_port_ : Z;
  port2_ : Z;
  slot_ : Z;
  proto_ : splice_proto_t;
  feed : Sock;                   (* what [backend_fd_] takes *)
  datagrams : list bytes         (* what [rtp_fd_] has sent *)
}.

#[export] Instance eta_RtspBackend : Eta RtspBackend := fun b =>
  Build_RtspBackend (pid_ b) (backend_fd_ b) (media_fd_ b) (rtp_fd_ b) (rtp_dst_port_ b) (port2_ b) (slot_ b) (proto_ b)
    (feed b) (datagrams b).

Implicit Types b : RtspBackend.

Definition backend_new : RtspBackend :=
  {| pid_ := -1; backend_fd_ := None; media_fd_ := None; rtp_fd_ := None; rtp_dst_port_ := 0; port2_ := 0; slot_ := 0;
     proto_ := SPLICE_RTSP; feed := Build_Sock [] []; datagrams := [] |}.

Definition running b : bool := 0 <? pid_ b.
Definition backend_readable b : bool := bool_decide (proto_ b = SPLICE_RTSP).

(** [waitpid(pid_, &status, WNOHANG)]. *)
Inductive wait_res := WaitGone | WaitNoChild | WaitRunning.

Definition gone b : RtspBackend := b <| pid_ := -1 |>.

(** True when there is no child any more. *)
Definition reap b l (w : wait_res) : bool * RtspBackend * Ledger :=
  if pid_ b <=? 0 then (true, b, l)
  else match w with
       | WaitGone | WaitNoChild => (true, gone b, waited (pid_ b) l)
       | WaitRunning => (false, b, l)
       end.

Definition close_opt (n : option fd_name) l : Ledger := match n with Some n => closes n l | None => l end.

(** The 50 tries, and then SIGKILL and a wait that cannot fail. *)
Fixpoint stop_loop (n i : nat) b l (ws : nat -> wait_res) : RtspBackend * Ledger :=
  match n with
  | O => (gone b, waited (pid_ b) l)
  | S n => let '(r, b, l) := reap b l (ws i) in if r then (b, l) else stop_loop n (S i) b l ws
  end.

Definition closed b : RtspBackend :=
  b <| backend_fd_ := (None : option fd_name) |> <| rtp_fd_ := (None : option fd_name) |>
    <| media_fd_ := (None : option fd_name) |>.

Definition stop b l (ws : nat -> wait_res) : RtspBackend * Ledger :=
  let l := close_opt (media_fd_ b) (close_opt (rtp_fd_ b) (close_opt (backend_fd_ b) l)) in
  let b := closed b in
  if 0 <? pid_ b then stop_loop 50 0 b l ws else (b, l).

(** ** Starting *)

(** A socket bound to an ephemeral loopback port and closed again; [None] when [socket]
    fails, otherwise whether [bind] and [getsockname] do and the port. *)
Definition pick_loopback_port (probe : option (bool * bool * Z)) l : Z * Ledger :=
  match probe with
  | None => (-1, l)
  | Some (bound, named, port) =>
    let l := opens FdProbe l in
    if negb bound then (-1, closes FdProbe l)
    else if negb named then (-1, closes FdProbe l)
    else (port, closes FdProbe l)
  end.

(** Is there a socket on the port, by the lines of /proc/net/udp ([None]: cannot be read)? *)
Definition hex_upper (n : Z) : Z := if n <? 10 then 48 + n else 55 + n.
Definition print_hex4 (n : Z) : bytes := map (fun i => hex_upper (Z.shiftr n i mod 16)) [12; 8; 4; 0].
Definition loopback_udp_bound (port : Z) (file : option (list bytes)) : bool :=
  match file with
  | None => false
  | Some lines => existsb (fun line => bool_decide (find_sub (bs " 0100007F:" ++ print_hex4 port ++ bs " ") line <> None)) lines
  end.

(** One turn of the wait for the backend: what /proc/net/udp holds, or whether a socket could
    be made and connected; and the child's state. *)
Record Poll := { p_udp : option (list bytes); p_socket : bool; p_connect : bool; p_wait : wait_res }.

Record StartEnv := {
  e_probe : option (bool * bool * Z);
  e_media : bool;                (* pipe *)
  e_feed : bool;                 (* socketpair, or the second pipe *)
  e_fork : Z;                    (* negative: fork fails *)
  e_sdp : bool;                  (* the SDP was written whole *)
  e_rtp : bool;                  (* socket *)
  e_sock : Sock;                 (* what the backend will take of its feed *)
  e_polls : nat -> Poll;
  e_stops : nat -> wait_res
}.

Definition polls : nat := Z.to_nat (RTSP_BACKEND_READY_MS / STEP_MS).

Inductive waited_for := Ready b l | Gave_up b l.

Definition accept_conn b l : waited_for := Ready (b <| backend_fd_ := Some FdConn |>) l.

(** The wait for the RTP backend to bind its port. *)
Fixpoint rtp_wait (n i : nat) b l (port : Z) (env : StartEnv) : waited_for :=
  match n with
  | O => Gave_up b l
  | S n =>
    let p := e_polls env i in
    if loopback_udp_bound port (p_udp p) then Ready b l
    else
      let '(r, b, l) := reap b l (p_wait p) in
      if r then Gave_up b l else rtp_wait n (S i) b l port env
  end.

(** The wait for the RTSP backend to listen. *)
Fixpoint rtsp_wait (n i : nat) b l (env : StartEnv) : waited_for :=
  match n with
  | O => Gave_up b l
  | S n =>
    let p := e_polls env i in
    if negb (p_socket p) then Gave_up b l
    else
      let l := opens FdConn l in
      if p_connect p then accept_conn b l
      else
        let l := closes FdConn l in
        let '(r, b, l) := reap b l (p_wait p) in
        if r then Gave_up b l else rtsp_wait n (S i) b l env
  end.

Definition identify b (port2 slot : Z) (proto : splice_proto_t) : RtspBackend :=
  b <| port2_ := port2 |> <| slot_ := slot |> <| proto_ := proto |>.
Definition spawned b (env : StartEnv) : RtspBackend :=
  b <| pid_ := e_fork env |> <| media_fd_ := Some FdMedia0 |> <| feed := e_sock env |> <| datagrams := ([] : list bytes) |>.

(** What follows the wait. *)
Definition settle (w : waited_for) (env : StartEnv) : bool * RtspBackend * Ledger :=
  match w with
  | Ready b l => (true, b, l)
  | Gave_up b l => let '(b, l) := stop b l (e_stops env) in (false, b, l)
  end.

(** The parent's side after the fork. *)
Definition after_fork b l (proto : splice_proto_t) (lport : Z) (env : StartEnv) : bool * RtspBackend * Ledger :=
  let l := closes FdMedia1 (forked (e_fork env) l) in
  let b := spawned b env in
  match proto with
  | SPLICE_RTMP => (true, b <| backend_fd_ := Some FdFeed1 |>, closes FdFeed0 l)
  | SPLICE_RTP =>
    let l := closes FdFeed1 (closes FdFeed0 l) in
    let '(b, l) := if e_rtp env then (b <| rtp_fd_ := Some FdRtp |>, opens FdRtp l) else (b, l) in
    if negb (e_sdp env) || negb (e_rtp env) then let '(b, l) := stop b l (e_stops env) in (false, b, l)
    else settle (rtp_wait polls 0 (b <| rtp_dst_port_ := lport |>) l lport env) env
  | SPLICE_RTSP => settle (rtsp_wait polls 0 b l env) env
  end.

(** [codec]: the name for the SDP, which RTP needs. *)
Definition start b l (port2 slot : Z) (proto : splice_proto_t) (codec : option bytes) (env : StartEnv)
  : bool * RtspBackend * Ledger :=
  let b := identify b port2 slot proto in
  let '(lport, l) := match proto with SPLICE_RTMP => (1, l) | _ => pick_loopback_port (e_probe env) l end in
  if lport <=? 0 then (false, b, l)
  else if bool_decide (proto = SPLICE_RTP) && match codec with Some _ => false | None => true end then (false, b, l)
  else if negb (e_media env) then (false, b, l)
  else
    let l := opens FdMedia1 (opens FdMedia0 l) in
    let pair := bool_decide (proto <> SPLICE_RTSP) in
    if pair && negb (e_feed env) then (false, b, closes FdMedia1 (closes FdMedia0 l))
    else
      let l := if pair then opens FdFeed1 (opens FdFeed0 l) else l in
      if e_fork env <=? 0 then
        let l := closes FdMedia1 (closes FdMedia0 l) in
        (false, b, if pair then closes FdFeed1 (closes FdFeed0 l) else l)
      else after_fork b l proto lport env.

(** The session description an RTP backend reads. *)
Definition sdp (lport pt : Z) (codec : bytes) : bytes :=
  let crlf := [13; 10] in
  bs "v=0" ++ crlf ++ bs "o=- 0 0 IN IP4 127.0.0.1" ++ crlf ++ bs "s=SupportProxy" ++ crlf ++ bs "c=IN IP4 127.0.0.1" ++ crlf
  ++ bs "t=0 0" ++ crlf ++ bs "m=video " ++ print_dec lport ++ bs " RTP/AVP " ++ print_dec pt ++ crlf
  ++ bs "a=rtpmap:" ++ print_dec pt ++ bs " " ++ codec ++ bs "/90000" ++ crlf.

(** The command line. *)
Definition backend_argv (proto : splice_proto_t) (want_audio : bool) (vbsf : option bytes) (lport : Z) : list bytes :=
  let url := match proto with
             | SPLICE_RTSP => bs "rtsp://127.0.0.1:" ++ print_dec lport ++ bs "/"
             | _ => bs "pipe:0"
             end in
  [bs "ffmpeg"; bs "-hide_banner"; bs "-nostdin"; bs "-loglevel"; bs "warning"]
  ++ match proto with
     | SPLICE_RTMP => [bs "-protocol_whitelist"; bs "file,pipe"; bs "-f"; bs "live_flv"]
     | SPLICE_RTP => [bs "-protocol_whitelist"; bs "file,pipe,rtp,udp"; bs "-max_delay"; bs "100000"; bs "-localaddr";
                      bs "127.0.0.1"; bs "-f"; bs "sdp"]
     | SPLICE_RTSP => [bs "-protocol_whitelist"; bs "file,rtp,udp,tcp"; bs "-rtsp_flags"; bs "listen"; bs "-rtsp_transport";
                       bs "tcp"; bs "-timeout"; bs "10000000"]
     end
  ++ [bs "-i"; url; bs "-map"; bs "0:v:0"] ++ (if want_audio then [bs "-map"; bs "0:a?"] else [])
  ++ [bs "-c:v"; bs "copy"]
  ++ match vbsf with Some (c :: f) => [bs "-bsf:v"; c :: f] | _ => [] end
  ++ (if want_audio then [bs "-c:a"; bs "aac"] else [bs "-an"])
  ++ [bs "-muxdelay"; bs "0"; bs "-muxpreload"; bs "0"; bs "-flush_packets"; bs "1"; bs "-f"; bs "mpegts"; bs "pipe:1"].

(** [sent_all]: [sendto] took the whole datagram. *)
Definition send_rtp b (d : bytes) (sent_all : bool) : bool * RtspBackend :=
  match rtp_fd_ b with
  | None => (false, b)
  | Some _ => (sent_all, if sent_all then b <| datagrams := datagrams b ++ [d] |> else b)
  end.

(** ** What the ledger must say *)

(** The descriptors the backend records, in the order [stop] closes them. *)
Definition held b : list fd_name := omap id [backend_fd_ b; rtp_fd_ b; media_fd_ b].

Record balanced b l : Prop := {
  bal_faults : faults l = false;
  bal_fds : fds l ≡ₚ held b;
  bal_nodup : NoDup (held b);
  bal_kids : kids l = if running b then [pid_ b] else []
}.

Definition idle b : Prop := held b = [] /\ running b = false.

Lemma closes_perm n l rest :
  fds l ≡ₚ n :: rest -> n ∉ rest -> fds (closes n l) ≡ₚ rest /\ faults (closes n l) = faults l /\ kids (closes n l) = kids l.
Proof.
  intros Hp Hn. unfold closes. cbn. split_and!; [|rewrite (bool_decide_eq_true_2 (n ∈ fds l)) by (rewrite Hp; left); apply orb_false_r|done].
  rewrite Hp, filter_cons_False by tauto. rewrite filter_all; [done|]. apply list.Forall_forall. by intros x Hx ->.
Qed.

Lemma close_opt_perm o l rest :
  fds l ≡ₚ omap id [o] ++ rest -> NoDup (omap id [o] ++ rest) ->
  fds (close_opt o l) ≡ₚ rest /\ faults (close_opt o l) = faults l /\ kids (close_opt o l) = kids l.
Proof.
  destruct o as [n|]; cbn; [|done]. intros Hp Hn. apply list.NoDup_cons in Hn as [? ?]. by apply closes_perm.
Qed.

Lemma held_split b : held b = omap id [backend_fd_ b] ++ omap id [rtp_fd_ b] ++ omap id [media_fd_ b].
Proof. unfold held. cbn. by destruct (backend_fd_ b), (rtp_fd_ b), (media_fd_ b). Qed.

Lemma waited_own pid l : kids l = [pid] -> kids (waited pid l) = [].
Proof. intros E. unfold waited. cbn. rewrite E, filter_cons_False by tauto. done. Qed.

Lemma stop_loop_ok n i b l ws :
  0 < pid_ b -> kids l = [pid_ b] -> stop_loop n i b l ws = (gone b, waited (pid_ b) l).
Proof.
  intros Hp Hk. revert i. induction n as [|n IH]; intros i; [done|]. cbn [stop_loop]. unfold reap.
  replace (pid_ b <=? 0) with false by lia. by destruct (ws i).
Qed.

Lemma stop_spec b l ws :
  balanced b l -> balanced (stop b l ws).1 (stop b l ws).2 /\ idle (stop b l ws).1.
Proof.
  intros [Hf Hp Hn Hk]. unfold stop.
  set (l1 := close_opt (media_fd_ b) _).
  assert (fds l1 = [] /\ faults l1 = false /\ kids l1 = kids l) as (E1 & E2 & E3).
  { rewrite held_split in Hp, Hn. subst l1.
    destruct (close_opt_perm _ _ _ Hp Hn) as (P1 & F1 & K1). apply list.NoDup_app in Hn as (_ & _ & Hn).
    destruct (close_opt_perm _ _ _ P1 Hn) as (P2 & F2 & K2). apply list.NoDup_app in Hn as (_ & _ & Hn).
    rewrite <-(app_nil_r (omap id [media_fd_ b])) in P2, Hn.
    destruct (close_opt_perm _ _ _ P2 Hn) as (P3 & F3 & K3).
    split_and!; [by apply Permutation_nil|congruence|congruence]. }
  clearbody l1. change (pid_ (closed b)) with (pid_ b). unfold running in Hk. destruct (0 <? pid_ b) eqn:Er.
  - rewrite stop_loop_ok; [|cbn; lia|by rewrite E3]. split; [|done].
    constructor; [done|cbn; by rewrite E1|constructor|].
    cbn [fst snd]. change (pid_ (closed b)) with (pid_ b). rewrite waited_own by (by rewrite E3). done.
  - split; [constructor|split]; cbn; unfold running; cbn; rewrite ?E1, ?E2, ?E3, ?Hk, ?Er; first [done|constructor].
Qed.

Lemma reap_spec b l w : balanced b l -> balanced (reap b l w).1.2 (reap b l w).2.
Proof.
  intros [Hf Hp Hn Hk]. unfold reap, running in *. destruct (pid_ b <=? 0) eqn:Er; [by constructor|].
  replace (0 <? pid_ b) with true in Hk by lia.
  destruct w; cbn; constructor; unfold running; cbn; try done;
    try (by apply waited_own); replace (0 <? pid_ b) with true by lia; done.
Qed.

(** The two waits end with the backend connected or bound, or with a balanced ledger. *)
Definition wait_ok (proto : splice_proto_t) (w : waited_for) : Prop :=
  match w with
  | Ready b l => balanced b l /\ running b = true /\ proto_ b = proto /\ media_fd_ b = Some FdMedia0 /\
                 (proto = SPLICE_RTSP -> backend_fd_ b = Some FdConn) /\ (proto = SPLICE_RTP -> rtp_fd_ b = Some FdRtp)
  | Gave_up b l => balanced b l
  end.

Lemma opens_closes n l : n ∉ fds l -> closes n (opens n l) = l.
Proof.
  intros Hn. destruct l as [f k fa]. unfold opens, closes. cbn [fds kids faults] in *.
  rewrite (bool_decide_eq_false_2 (n ∈ f)), filter_cons_False by tauto.
  rewrite filter_all by (apply list.Forall_forall; by intros x Hx ->). rewrite bool_decide_eq_true_2 by left. by rewrite !orb_false_r.
Qed.

Lemma rtsp_wait_ok n i b l env :
  balanced b l -> running b = true -> proto_ b = SPLICE_RTSP ->
  backend_fd_ b = None -> rtp_fd_ b = None -> media_fd_ b = Some FdMedia0 ->
  wait_ok SPLICE_RTSP (rtsp_wait n i b l env).
Proof.
  intros Hb Hr Hpr Hbf Hrf Hm. revert i. induction n as [|n IH]; intros i; [done|].
  cbn [rtsp_wait]. destruct (p_socket (e_polls env i)) eqn:Es; [|done]. cbn [negb].
  assert (Hfd : fds l = [FdMedia0]).
  { apply Permutation_singleton_r. rewrite (bal_fds _ _ Hb). unfold held. by rewrite Hbf, Hrf, Hm. }
  cbv zeta. rewrite opens_closes by (rewrite Hfd; by apply (bool_decide_unpack _)).
  destruct (p_connect _).
  - unfold accept_conn, wait_ok. destruct Hb as [H1 H2 H3 H4]. split_and!; try done. constructor; cbn.
    + by rewrite H1, Hfd.
    + unfold held. cbn. by rewrite Hfd, Hrf, Hm.
    + unfold held. cbn. rewrite Hrf, Hm. apply (bool_decide_unpack _). done.
    + exact H4.
  - pose proof (reap_spec b l (p_wait (e_polls env i)) Hb) as Hs. unfold reap in *.
    unfold running in Hr. replace (pid_ b <=? 0) with false in * by lia.
    destruct (p_wait _); [done|done|apply IH].
Qed.

Lemma rtp_wait_ok n i b l port env :
  balanced b l -> running b = true -> proto_ b = SPLICE_RTP -> media_fd_ b = Some FdMedia0 -> rtp_fd_ b = Some FdRtp ->
  wait_ok SPLICE_RTP (rtp_wait n i b l port env).
Proof.
  intros Hb Hr Hpr Hm Hrf. revert i. induction n as [|n IH]; intros i; [done|].
  cbn [rtp_wait]. cbv zeta. destruct (loopback_udp_bound _ _); [by split_and!|].
  pose proof (reap_spec b l (p_wait (e_polls env i)) Hb) as Hs. unfold reap in *.
  unfold running in Hr. replace (pid_ b <=? 0) with false in * by lia.
  destruct (p_wait _); [done|done|apply IH].
Qed.

(** What [start] leaves: a running backend with what its protocol is fed through, or nothing. *)
Definition started (proto : splice_proto_t) (r : bool * RtspBackend * Ledger) : Prop :=
  let '(ok, b, l) := r in
  balanced b l /\
  if ok then running b = true /\ proto_ b = proto /\ media_fd_ b = Some FdMedia0 /\
             match proto with
             | SPLICE_RTSP => backend_fd_ b = Some FdConn
             | SPLICE_RTMP => backend_fd_ b = Some FdFeed1
             | SPLICE_RTP => rtp_fd_ b = Some FdRtp
             end
  else idle b.

Lemma settle_started proto w env :
  proto <> SPLICE_RTMP -> wait_ok proto w -> started proto (settle w env).
Proof.
  intros Hne. destruct w as [b l|b l]; cbn [wait_ok settle].
  - intros (? & ? & ? & ? & H1 & H2). split; [done|]. split_and!; try done. destruct proto; [by apply H1|done|by apply H2].
  - intros Hb. destruct (stop_spec b l (e_stops env) Hb) as [H1 H2]. destruct (stop b l _) as [b' l']. done.
Qed.

Lemma idle_fields b l :
  balanced b l -> idle b ->
  backend_fd_ b = None /\ rtp_fd_ b = None /\ media_fd_ b = None /\ l = Build_Ledger [] [] false.
Proof.
  intros [Hf Hp Hn Hk] [Hh Hr]. rewrite Hh in Hp. rewrite Hr in Hk. apply Permutation_nil_r in Hp.
  unfold held in Hh. destruct l as [f k fa]. cbn in *. destruct (backend_fd_ b), (rtp_fd_ b), (media_fd_ b); try done.
  split_and!; [done..|]. by f_equal.
Qed.

Lemma after_fork_started b proto lport env :
  proto_ b = proto -> backend_fd_ b = None -> rtp_fd_ b = None -> media_fd_ b = None -> 0 < e_fork env ->
  started proto (after_fork b (Build_Ledger (if bool_decide (proto <> SPLICE_RTSP) then [FdFeed1; FdFeed0; FdMedia1; FdMedia0]
                                             else [FdMedia1; FdMedia0]) [] false) proto lport env).
Proof.
  intros Hpr Hbf Hrf Hm Hf. unfold after_fork.
  assert (Hrun : running (spawned b env) = true) by (unfold running; cbn; lia).
  destruct proto; cbn zeta.
  - apply settle_started; [done|]. apply rtsp_wait_ok; try done. constructor; [done| | |by rewrite Hrun];
      unfold held; cbn; rewrite Hbf, Hrf; [done|apply NoDup_singleton].
  - split; [constructor; [done| | |by unfold running; cbn; replace (0 <? _) with true by lia]|by split_and!];
      unfold held; cbn; rewrite Hrf; [done|apply (bool_decide_unpack _); done].
  - destruct (e_rtp env) eqn:Er; cbn [negb]; rewrite ?orb_false_r, ?orb_true_r.
    + assert (Hb : balanced (spawned b env <| rtp_fd_ := Some FdRtp |>)
                     (Build_Ledger [FdRtp; FdMedia0] [e_fork env] false)).
      { constructor; [done| | |by unfold running; cbn; replace (0 <? _) with true by lia];
          unfold held; cbn; rewrite Hbf; [done|apply (bool_decide_unpack _); done]. }
      destruct (e_sdp env); cbn [negb].
      * apply settle_started; [done|]. apply rtp_wait_ok; try done. destruct Hb. by constructor.
      * exact (settle_started SPLICE_RTP (Gave_up _ _) env ltac:(done) Hb).
    + refine (settle_started SPLICE_RTP (Gave_up _ _) env ltac:(done) _). cbn [wait_ok].
      constructor; [done| | |by rewrite Hrun]; unfold held; cbn; rewrite Hbf, Hrf; [done|apply NoDup_singleton].
Qed.

Lemma start_started b l port2 slot proto codec env :
  balanced b l -> idle b -> started proto (start b l port2 slot proto codec env).
Proof.
  intros Hb Hi. destruct (idle_fields b l Hb Hi) as (Hbf & Hrf & Hm & ->).
  set (b1 := identify b port2 slot proto).
  assert (Hidle : started proto (false, b1, Build_Ledger [] [] false)).
  { split; [|by destruct Hi]. destruct Hb, Hi as [Hh Hr]. constructor; try done.
  }
  unfold start. fold b1.
  assert (exists lport, (match proto with SPLICE_RTMP => (1, Build_Ledger [] [] false)
           | _ => pick_loopback_port (e_probe env) (Build_Ledger [] [] false) end) = (lport, Build_Ledger [] [] false))
    as [lport ->].
  { destruct proto; [|by eexists|]; unfold pick_loopback_port; destruct (e_probe env) as [[[[] []] port]|]; by eexists. }
  clear Hb. destruct (lport <=? 0); [exact Hidle|].
  destruct (_ && _); [exact Hidle|]. destruct (e_media env); [|exact Hidle]. cbn [negb].
  destruct (bool_decide (proto <> SPLICE_RTSP) && negb (e_feed env)) eqn:Ef; [exact Hidle|]. clear Ef.
  pose proof (after_fork_started b1 proto lport env eq_refl Hbf Hrf Hm) as Haf.
  destruct (e_fork env <=? 0) eqn:Ek.
  - by destruct (bool_decide (proto <> SPLICE_RTSP)).
  - destruct (bool_decide (proto <> SPLICE_RTSP)); apply Haf; lia.
Qed.

(** The calls made of a backend, by callers that start it only when it is idle: as it is made,
    after a failed [start] or after a [stop].  ([start] itself does not look: see
    [start_needs_idle].  The video child's callers ask [running] first, and in every state it
    reaches a backend that is not running is idle: [slot_ok].) *)
Inductive used : RtspBackend -> Ledger -> Prop :=
| used_new : used backend_new (Build_Ledger [] [] false)
| used_start b l port2 slot proto codec env :
    used b l -> idle b ->
    used (start b l port2 slot proto codec env).1.2 (start b l port2 slot proto codec env).2
| used_reap b l w : used b l -> used (reap b l w).1.2 (reap b l w).2
| used_stop b l ws : used b l -> used (stop b l ws).1 (stop b l ws).2.

Lemma used_balanced b l : used b l -> balanced b l.
Proof.
  intros Hu. induction Hu as [|b l port2 slot proto codec env Hu IH Hi|b l w Hu IH|b l ws Hu IH].
  - constructor; try done; constructor.
  - pose proof (start_started b l port2 slot proto codec env IH Hi) as Hs.
    destruct (start b l port2 slot proto codec env) as [[ok b'] l']. destruct Hs as [Hs _]. exact Hs.
  - by apply reap_spec.
  - by apply stop_spec.
Qed.

(** C19: A backend started only when idle never leaks.  Whatever the system calls answer - no
    free port, no pipe, no fork, a child that exits before it listens, one that never does -
    and however [start], [reap] and [stop] are mixed, provided that [start] is only called on
    an idle backend (new, stopped, or whose last [start] failed): every descriptor opened for
    the backend and not closed again is one it records, none is closed twice or opened over
    another, and the one child not waited for is the one whose pid it records; a failed
    [start] and any [stop] leave nothing open and no child, so that it is idle again, and a
    successful [start] leaves a running backend holding what its protocol feeds it through
    and the pipe its stream is read from. *)
Theorem backend_never_leaks b l :
  used b l ->
  balanced b l
  /\ (forall port2 slot proto codec env, idle b -> started proto (start b l port2 slot proto codec env))
  /\ (forall ws, let r := stop b l ws in idle r.1 /\ r.2 = Build_Ledger [] [] false).
Proof.
  intros Hu%used_balanced. split_and!; [done|by intros; apply start_started|].
  intros ws. cbn zeta. destruct (stop_spec b l ws Hu) as [Hb' Hi]. split; [done|]. by apply (idle_fields _ _ Hb').
Qed.

Definition busy_then_up : StartEnv :=
  {| e_probe := Some (true, true, 40000); e_media := true; e_feed := true; e_fork := 77; e_sdp := true; e_rtp := true; e_sock := Build_Sock [] [];
     e_polls := fun i => {| p_udp := None; p_socket := true; p_connect := (3 <=? i)%nat; p_wait := WaitRunning |};
     e_stops := fun _ => WaitRunning |}.

(** A second [start], or one after the child has been reaped but not stopped, opens over
    descriptors that are still held. *)
Lemma start_needs_idle :
  let again r := (start r.1.2 r.2 14550 0 SPLICE_RTSP None busy_then_up).2 in
  let r := start backend_new (Build_Ledger [] [] false) 14550 0 SPLICE_RTSP None busy_then_up in
  faults r.2 = false /\ faults (again r) = true /\ faults (again (reap r.1.2 r.2 WaitGone)) = true.
Proof. vm_compute. done. Qed.

(** Started, found gone, stopped and started again. *)
Lemma backend_never_leaks_witness :
  let r := start backend_new (Build_Ledger [] [] false) 14550 0 SPLICE_RTSP None busy_then_up in
  let r1 := reap r.1.2 r.2 WaitGone in
  let r2 := stop r1.1.2 r1.2 (fun _ => WaitRunning) in
  (r.1.1 = true /\ fds r.2 = [FdConn; FdMedia0] /\ kids r.2 = [77])
  /\ fds r1.2 = [FdConn; FdMedia0] /\ r2.2 = Build_Ledger [] [] false
  /\ started SPLICE_RTP (start r2.1 r2.2 14550 0 SPLICE_RTP (Some (bs "H264")) busy_then_up).
Proof.
  cbv zeta. split; [vm_compute; done|]. split; [vm_compute; done|].
  set (r := start backend_new _ _ _ _ _ _). set (r1 := reap r.1.2 r.2 WaitGone).
  assert (Hu : used r1.1.2 r1.2) by (apply used_reap, used_start; [apply used_new|done]).
  destruct (proj2 (proj2 (backend_never_leaks _ _ Hu)) (fun _ => WaitRunning)) as [Hi He]. split; [exact He|].
  apply (backend_never_leaks _ _ (used_stop _ _ (fun _ => WaitRunning) Hu)). exact Hi.
Defined.
