(* ===== verification/RtspView.v ===== *)
(** * RTSP playback (videortspview.cpp, videortspview.h)

    A viewer that plays the slot's MPEG-TS ring over interleaved RTP: the request parser, the
    method handlers, the media pump and the sender reports.  The socket is [Socket]'s; the
    clocks are arguments; OpenSSL's functions are parameters. *)

From S2P Require Import Prelude CStr KeyDb VideoAuth HttpReq VideoTs VideoStream VideoMkv Socket.

Definition VIDEO_RTSP_AUTH_TIMEOUT_S : Z := 15.
Definition VIDEO_RTSP_SESSION_TIMEOUT_S : Z := 60.
Definition VIDEO_RTSP_TIMEOUT_GRACE_S : Z := 5.
Definition VIDEO_VIEWER_STUCK_S : Z := 10.
Definition VIDEO_VIEWER_WRITE_CHUNK : Z := 65536.
Definition REQUEST_LIMIT : Z := 16384.
Definition RTP_PAYLOAD : Z := 7 * TS_PACKET_SIZE.

(** ** Text *)

(** The path of a request target: after an rtsp:// authority, up to the query. *)
Definition path (target : bytes) : bytes :=
  let until_query s := match find_byte 63 s with Some q => take q s | None => s end in
  if starts_with (bs "rtsp://") target
  then match find_byte 47 (drop 7 target) with
       | None => [47]
       | Some i => until_query (drop (7 + i) target)
       end
  else until_query target.

Fixpoint decimal_in (value max : Z) (s : bytes) : option Z :=
  match s with
  | [] => Some value
  | c :: s =>
    if (c <? 48) || (57 <? c) || (max / 10 <? value) then None
    else let value := value * 10 + c - 48 in
         if max <? value then None else decimal_in value max s
  end.
Definition decimal (s : bytes) (max : Z) : option Z :=
  match s with [] => None | _ => decimal_in 0 max s end.

Definition put32 (v : Z) : bytes := be_bytes 4 v.

Definition trim (s : bytes) : bytes := chop_blanks (drop_blanks s).

(** One parameter of a transport: still valid, channels seen, the first channel. *)
Definition transport_param (st : bool * bool * Z) (param : bytes) : bool * bool * Z :=
  let '(valid, have_channels, first) := st in
  let value := trim param in
  let valid := valid && negb (bool_decide (value = bs "multicast")) in
  if starts_with (bs "interleaved=") value then
    let channels := drop 12 value in
    match valid && negb have_channels, find_byte 45 channels with
    | true, Some dash =>
      match decimal (take dash channels) 254, decimal (drop (S dash) channels) 255 with
      | Some a, Some b => (b =? a + 1, true, a)
      | _, _ => (false, true, 0)
      end
    | _, _ => (false, true, first)
    end
  else (valid, have_channels, first).

Definition transport_entry (entry : bytes) : option Z :=
  match split_on 59 (trim entry) with
  | [] => None
  | proto :: params =>
    let '(valid, _, first) :=
      fold_left transport_param params (bool_decide (trim proto = bs "RTP/AVP/TCP"), false, 0) in
    if valid then Some first else None
  end.

(** The first acceptable transport's first channel.  (The code stops before a trailing empty
    entry, which no transport is.) *)
Fixpoint first_transport (entries : list bytes) : option Z :=
  match entries with
  | [] => None
  | e :: es => match transport_entry e with Some c => Some c | None => first_transport es end
  end.
Definition tcp_transport (header : bytes) : option Z := first_transport (split_on 44 header).

(** ** [strtod]

    A decimal or hexadecimal constant as an exact rational: sign, numerator and denominator,
    and the characters used.  Infinities and NaNs are not 1, and are not parsed. *)

Fixpoint scan_frac (base acc : Z) (n : nat) (s : bytes) : Z * nat :=
  match s with
  | [] => (acc, n)
  | c :: s' => if digit_val c <? base then scan_frac base (acc * base + digit_val c) (S n) s' else (acc, n)
  end.

(** An exponent after its marker: its value and length, none unless it has digits. *)
Definition scan_exp (s : bytes) : Z * nat :=
  let '(neg, n) := sign_of s in
  let '(e, m) := scan_digits 10 0 (drop n s) in
  match m with O => (0, O) | _ => (if neg then - e else e, (n + m)%nat) end.

(** Digits with a point and an exponent: the value as [num / den], the length. *)
Definition scan_number (base marker ebase : Z) (s : bytes) : option (Z * Z * nat) :=
  let '(int, i) := scan_digits base 0 s in
  let rest := drop i s in
  let '(mant, f, used) :=
    match rest with
    | 46 :: rest' => let '(m, f) := scan_frac base int 0 rest' in (m, f, (i + 1 + f)%nat)
    | _ => (int, O, i)
    end in
  if (i + f =? 0)%nat then None
  else
    let '(e, n) := match drop used s with
                   | c :: rest' => if tolower c =? marker
                                   then match scan_exp rest' with (_, O) => (0, O) | (e, n) => (e, S n) end
                                   else (0, O)
                   | [] => (0, O)
                   end in
    let den := base ^ Z.of_nat f in
    Some (if e <? 0 then mant else mant * ebase ^ e, if e <? 0 then den * ebase ^ (- e) else den, (used + n)%nat).

Definition strtod (s : bytes) : option (bool * Z * Z * nat) :=
  let sp := spaces s in
  let '(neg, sg) := sign_of (drop sp s) in
  let body := drop (sp + sg) s in
  let hex := match body with
             | 48 :: x :: rest => if tolower x =? 120 then scan_number 16 112 2 rest else None
             | _ => None
             end in
  match hex with
  | Some (num, den, n) => Some (neg, num, den, (sp + sg + 2 + n)%nat)
  | None => match scan_number 10 101 10 body with
            | Some (num, den, n) => Some (neg, num, den, (sp + sg + n)%nat)
            | None => None
            end
  end.

(** [num / den] rounds to the double 1.0: halfway cases go to it, its last bit being even. *)
Definition rounds_to_one (num den : Z) : bool :=
  ((2 ^ 54 - 1) * den <=? num * 2 ^ 54) && (num * 2 ^ 53 <=? (2 ^ 53 + 1) * den).

(** The C string in a buffer: up to its first NUL. *)
Definition c_string (s : bytes) : bytes := match find_byte 0 s with Some i => take i s | None => s end.

Definition normal_scale (scale : bytes) : bool :=
  match scale with
  | [] => true
  | _ =>
    let s := c_string scale in
    match strtod s with
    | None => false
    | Some (neg, num, den, n) => negb neg && (n =? length s)%nat && rounds_to_one num den
    end
  end.

(** ** RTCP *)

(** The loop over the compound packet; every turn is at least four bytes. *)
Fixpoint rtcp_loop (fuel : nat) (p : bytes) : bool :=
  match p, fuel with
  | [], _ => true
  | _, O => true
  | _, S fuel =>
    if (len p <? 4) || negb (Z.shiftr (byte_at p 0) 6 =? 2) || (byte_at p 1 <? 192) || (223 <? byte_at p 1)
    then false
    else
      let length := Z.lor (Z.shiftl (byte_at p 2) 8) (byte_at p 3) * 4 + 4 in
      if len p <? length then false
      else if (byte_at p 1 =? 201) && (length <? 8 + 24 * Z.land (byte_at p 0) 31) then false
      else if negb (Z.land (byte_at p 0) 0x20 =? 0)
              && (negb (length =? len p) || (byte_at p (length - 1) =? 0)
                  || (length - 4 <? byte_at p (length - 1)))
           then false
      else rtcp_loop fuel (zdrop length p)
  end.

Definition valid_rtcp (data : bytes) : bool :=
  if len data <? 4 then false else rtcp_loop (length data) data.

(** ** The viewer *)

Record RtspViewer := {
  sock : Sock;
  port2_ : Z;
  input_ : bytes;
  out_ : bytes;
  session_ : bytes;
  sent_ : nat;
  authorised_ : bool;
  setup_ : bool;
  playing_ : bool;
  played_ : bool;
  closing_ : bool;
  blocked_ : bool;
  channel_ : Z;
  seq_ : Z;
  ssrc_ : Z;
  read_pos_ : Z;
  bytes_sent_ : Z;
  packets_ : Z;
  octets_ : Z;
  connected_ : Z;
  progress_ : Z;
  control_ : Z;
  report_ : Z;
  auth_failures_ : Z;
  reason_ : bytes
}.

#[export] Instance eta_RtspViewer : Eta RtspViewer := fun x =>
  Build_RtspViewer (sock x) (port2_ x) (input_ x) (out_ x) (session_ x) (sent_ x) (authorised_ x) (setup_ x)
    (playing_ x) (played_ x) (closing_ x) (blocked_ x) (channel_ x) (seq_ x) (ssrc_ x) (read_pos_ x)
    (bytes_sent_ x) (packets_ x) (octets_ x) (connected_ x) (progress_ x) (control_ x) (report_ x)
    (auth_failures_ x) (reason_ x).

Implicit Types x : RtspViewer.

(** [random]: RAND_bytes' 14 bytes, if it succeeded; the two integers are read as the
    little-endian host reads them. *)
Definition rtsp_new (k : Sock) (port2 now : Z) (random : option bytes) : RtspViewer :=
  let base := {|
    sock := k; port2_ := port2; input_ := []; out_ := []; session_ := []; sent_ := O; authorised_ := false;
    setup_ := false; playing_ := false; played_ := false; closing_ := false; blocked_ := false; channel_ := 0;
    seq_ := 0; ssrc_ := 0; read_pos_ := 0; bytes_sent_ := 0; packets_ := 0; octets_ := 0; connected_ := now;
    progress_ := now; control_ := now; report_ := 0; auth_failures_ := 0;
    reason_ := bs "RTSP connection closed"
  |} in
  match random with
  | None => base <| closing_ := true |> <| reason_ := bs "RTSP random generation failed" |>
  | Some r => base <| session_ := hex_of (take 8 r) |> <| ssrc_ := le_val (slice r 8 4) |>
                   <| seq_ := le_val (slice r 12 2) |>
  end.

Definition wants_write x : bool := blocked_ x || (sent_ x <? length (out_ x))%nat.
Definition playback_target (target : bytes) : bool := starts_with (bs "/view/") (path target).

Definition crlf : bytes := [13; 10].

Definition reply_bytes (cseq : bytes) (code : Z) (reason headers body : bytes) : bytes :=
  bs "RTSP/1.0 " ++ print_dec code ++ [32] ++ reason ++ crlf ++ bs "CSeq: " ++ cseq ++ crlf ++ headers
  ++ bs "Content-Length: " ++ print_dec (len body) ++ crlf ++ crlf ++ body.
Definition add_out x (b : bytes) : RtspViewer := x <| out_ := out_ x ++ b |>.
Definition reply x (cseq : bytes) (code : Z) (reason headers body : bytes) : RtspViewer :=
  add_out x (reply_bytes cseq code reason headers body).

(** ** Requests *)

Section viewer.
Variable sha256 : bytes -> bytes.
Variable hmac : bytes -> bytes -> bytes.
Variable b64_read : bytes -> bytes.

(** [video_viewer_authorised] (videoview.cpp): an unset viewer password is open viewing. *)
Definition video_viewer_authorised (ke : KeyEntry) (password : bytes) : bool :=
  if negb (key_set (video_viewer_key ke)) then true
  else video_password_matches sha256 (video_viewer_key ke) password.

(** The credentials a request carries, and whether they are acceptable. *)
Definition offers (req : HttpRequest) : bool :=
  bool_decide (http_query_value (target_ req) (bs "pw") <> None)
  || bool_decide (http_query_value (target_ req) (bs "t") <> None)
  || negb (header_count req (bs "Authorization") =? 0).

Definition credentials_ok (port2 : Z) (ke : KeyEntry) (slot now : Z) (req : HttpRequest) : bool :=
  match http_query_value (target_ req) (bs "t") with
  | Some token => video_token_valid hmac ke port2 slot (Some (c_string token)) now
  | None => false
  end
  || video_viewer_authorised ke
       (match http_query_value (target_ req) (bs "pw") with
        | Some pw => pw
        | None => http_basic_password b64_read (header req (bs "Authorization"))
        end).

Definition VIEW : bytes := bs "/view/v".

(** A request this connection's slot serves. *)
Definition serves (slot : Z) (req : HttpRequest) : bool :=
  let base := VIEW ++ print_dec (slot + 1) in
  bool_decide (path (target_ req) ∈ [base; base ++ [47]; base ++ bs "/trackID=0"]).

Definition deny x (cseq : bytes) : RtspViewer :=
  let x := reply x cseq 401 (bs "Unauthorized")
             (bs "WWW-Authenticate: Basic realm=" ++ [34] ++ bs "SupportProxy video" ++ [34] ++ crlf) [] in
  x <| auth_failures_ := u32 (auth_failures_ x + 1) |>
    <| closing_ := closing_ x || (3 <=? u32 (auth_failures_ x + 1)) |>.

Definition sdp_of (ssrc : Z) : bytes :=
  bs "v=0" ++ crlf ++ bs "o=- " ++ print_dec ssrc ++ bs " 1 IN IP4 0.0.0.0" ++ crlf
  ++ bs "s=SupportProxy video" ++ crlf ++ bs "c=IN IP4 0.0.0.0" ++ crlf ++ bs "t=0 0" ++ crlf
  ++ bs "a=control:*" ++ crlf ++ bs "m=video 0 RTP/AVP 33" ++ crlf
  ++ bs "a=rtpmap:33 MP2T/90000" ++ crlf ++ bs "a=control:trackID=0" ++ crlf.

(** The request's URL without its query, with a final slash. *)
Definition content_base (target : bytes) : bytes :=
  let location := match find_byte 63 target with Some q => take q target | None => target end in
  if byte_at location (len location - 1) =? 47 then location else location ++ [47].

(** A join point that is still buffered. *)
Definition join_point (ring : VideoRing) (scanner : VideoScanner) : option Z :=
  match VideoMkv.join_offset scanner with
  | Some a => if resident ring a then Some a else None
  | None => None
  end.

Definition unavailable x (cseq : bytes) : RtspViewer := reply x cseq 503 (bs "Service Unavailable") [] [].

Definition describe x (cseq : bytes) (req : HttpRequest) (ring : VideoRing) (scanner : VideoScanner) : RtspViewer :=
  match join_point ring scanner with
  | None => unavailable x cseq
  | Some _ =>
    reply x cseq 200 (bs "OK")
      (bs "Content-Type: application/sdp" ++ crlf ++ bs "Content-Base: " ++ content_base (target_ req) ++ crlf)
      (sdp_of (ssrc_ x))
  end.

Definition setup x (cseq : bytes) (req : HttpRequest) : RtspViewer :=
  if playing_ x then reply x cseq 455 (bs "Method Not Valid in This State") [] []
  else
    match tcp_transport (header req (bs "Transport")) with
    | None => reply x cseq 461 (bs "Unsupported Transport") [] []
    | Some first =>
      let requested := header req (bs "Session") in
      if negb (is_nil requested) && negb (bool_decide (requested = session_ x))
      then reply x cseq 454 (bs "Session Not Found") [] []
      else
        reply (x <| setup_ := true |> <| channel_ := u8 first |>) cseq 200 (bs "OK")
          (bs "Session: " ++ session_ x ++ bs ";timeout=" ++ print_dec VIDEO_RTSP_SESSION_TIMEOUT_S ++ crlf
           ++ bs "Transport: RTP/AVP/TCP;unicast;interleaved=" ++ print_dec first ++ bs "-" ++ print_dec (first + 1)
           ++ crlf) []
    end.

Definition range_ok (range : bytes) : bool :=
  bool_decide (range ∈ [[]; bs "npt=0.000-"; bs "npt=0-"; bs "npt=now-"]).

(** Where playing starts: where it was left, while that is buffered, and otherwise at a
    join point ([join_offset] writes the position even when it is not buffered). *)
Definition cue x (ring : VideoRing) (scanner : VideoScanner) : option Z * RtspViewer :=
  if negb (playing_ x) && (negb (played_ x) || negb (resident ring (read_pos_ x))) then
    match VideoMkv.join_offset scanner with
    | None => (None, x)
    | Some a => (if resident ring a then Some a else None, x <| read_pos_ := a |>)
    end
  else (Some (read_pos_ x), x).

Definition ok_session x (cseq : bytes) : RtspViewer :=
  reply x cseq 200 (bs "OK") (bs "Session: " ++ session_ x ++ crlf) [].

Definition play x (cseq : bytes) (req : HttpRequest) (ring : VideoRing) (scanner : VideoScanner) (now : Z)
  : RtspViewer :=
  if negb (range_ok (header req (bs "Range"))) || negb (normal_scale (header req (bs "Scale")))
  then reply x cseq 457 (bs "Invalid Range") [] []
  else
    match cue x ring scanner with
    | (None, x) => unavailable x cseq
    | (Some _, x) => ok_session (x <| playing_ := true |> <| played_ := true |> <| progress_ := now |>) cseq
    end.

(** PLAY, PAUSE, TEARDOWN and GET_PARAMETER. *)
Definition in_session x (cseq method : bytes) (req : HttpRequest) (ring : VideoRing) (scanner : VideoScanner)
    (now : Z) : RtspViewer :=
  if negb (setup_ x) || negb (bool_decide (header req (bs "Session") = session_ x))
  then reply x cseq 454 (bs "Session Not Found") [] []
  else if bool_decide (method = bs "PLAY") then play x cseq req ring scanner now
  else if bool_decide (method = bs "PAUSE") then ok_session (x <| playing_ := false |>) cseq
  else if bool_decide (method = bs "TEARDOWN")
       then ok_session (x <| playing_ := false |> <| closing_ := true |>) cseq
  else ok_session x cseq.

Definition session_methods : list bytes := [bs "PLAY"; bs "PAUSE"; bs "TEARDOWN"; bs "GET_PARAMETER"].

(** A permitted request. *)
Definition serve x (cseq method : bytes) (req : HttpRequest) (ring : VideoRing) (scanner : VideoScanner) (now : Z)
  : RtspViewer :=
  if matroska scanner then reply x cseq 415 (bs "Unsupported Media Type") [] []
  else if bool_decide (method = bs "DESCRIBE") then describe x cseq req ring scanner
  else if bool_decide (method = bs "SETUP") then setup x cseq req
  else if bool_decide (method ∈ session_methods) then in_session x cseq method req ring scanner now
  else reply x cseq 405 (bs "Method Not Allowed") [] [].

(** A request line that ends in the protocol, a target with no control characters, and one
    CSeq that is a number. *)
Definition well_formed (head : bytes) (req : HttpRequest) : bool :=
  match find_sub crlf head with
  | None => false
  | Some eol => (9 <=? eol)%nat && bool_decide (slice head (Z.of_nat eol - 9) 9 = bs " RTSP/1.0")
  end
  && forallb (fun c => negb (c <=? 0x20) && negb (c =? 0x7f)) (target_ req)
  && (header_count req (bs "CSeq") =? 1)
  && match decimal (header req (bs "CSeq")) 2147483647 with Some _ => true | None => false end.

Definition options_reply x (cseq : bytes) : RtspViewer :=
  reply x cseq 200 (bs "OK")
    (bs "Public: OPTIONS, DESCRIBE, SETUP, PLAY, PAUSE, TEARDOWN, GET_PARAMETER" ++ crlf) [].

(** False to drop the connection. *)
Definition request x (head : bytes) (ke : KeyEntry) (slot : Z) (ring : VideoRing) (scanner : VideoScanner) (now : Z)
  : bool * RtspViewer :=
  match HttpReq.feed http_init head with
  | (1, req) =>
    if negb (well_formed head req) then (false, x)
    else
      let cseq := header req (bs "CSeq") in
      let x := x <| control_ := now |> in
      let method := method_ req in
      if bool_decide (method = bs "OPTIONS") then (true, options_reply x cseq)
      else if negb (serves slot req) then (true, reply x cseq 404 (bs "Not Found") [] [])
      else if (authorised_ x && negb (offers req)) || credentials_ok (port2_ x) ke slot now req
      then (true, serve (x <| authorised_ := true |>) cseq method req ring scanner now)
      else (true, deny x cseq)
  | _ => (false, x)
  end.

(** ** Input *)

Definition drop_input x (n : nat) : RtspViewer := x <| input_ := drop n (input_ x) |>.

Inductive input_res := InputBad | InputMore | InputDone.

(** The receiver report an interleaved frame carries. *)
Definition take_rtcp x (now : Z) : input_res * RtspViewer :=
  let inp := input_ x in
  if (length inp <? 4)%nat then (InputMore, x)
  else
    let n := Z.lor (Z.shiftl (byte_at inp 2) 8) (byte_at inp 3) in
    if negb (setup_ x) || negb (byte_at inp 1 =? channel_ x + 1) || (REQUEST_LIMIT - 4 <? n) then (InputBad, x)
    else if len inp <? n + 4 then (InputMore, x)
    else if negb (valid_rtcp (slice inp 4 n)) then (InputBad, x)
    else (InputDone, drop_input (x <| control_ := now |>) (Z.to_nat (n + 4))).

(** The length of a request's body, [None] for headers that are refused. *)
Definition body_length (req : HttpRequest) : option Z :=
  if (1 <? header_count req (bs "Content-Length")) || negb (header_count req (bs "Transfer-Encoding") =? 0) then None
  else if header_count req (bs "Content-Length") =? 0 then Some 0
  else decimal (header req (bs "Content-Length")) REQUEST_LIMIT.

Definition take_request x (ke : KeyEntry) (slot : Z) (ring : VideoRing) (scanner : VideoScanner) (now : Z)
  : input_res * RtspViewer :=
  match find_sub CRLF2 (input_ x) with
  | None => (InputMore, x)
  | Some end_ =>
    let header_size := (end_ + 4)%nat in
    match HttpReq.feed http_init (take header_size (input_ x)) with
    | (1, req) =>
      match body_length req with
      | None => (InputBad, x)
      | Some body_size =>
        let total := Z.of_nat header_size + body_size in
        if REQUEST_LIMIT <? total then (InputBad, x)
        else if len (input_ x) <? total then (InputMore, x)
        else
          let '(ok, x) := request x (take header_size (input_ x)) ke slot ring scanner now in
          if negb ok then (InputBad, x)
          else
            let x := drop_input x (Z.to_nat total) in
            if REQUEST_LIMIT <? len (out_ x) then (InputBad, x)
            else (if closing_ x then InputMore else InputDone, x)
      end
    | _ => (InputBad, x)
    end
  end.

(** The loop over complete messages; each takes at least four bytes of the input. *)
Fixpoint input_loop (fuel : nat) x (ke : KeyEntry) (slot : Z) (ring : VideoRing) (scanner : VideoScanner) (now : Z)
  : bool * RtspViewer :=
  match input_ x, fuel with
  | [], _ => (true, x)
  | _, O => (true, x)
  | c :: _, S fuel =>
    match (if c =? 36 then take_rtcp x now else take_request x ke slot ring scanner now) with
    | (InputBad, x) => (false, x)
    | (InputMore, x) => (true, x)
    | (InputDone, x) => input_loop fuel x ke slot ring scanner now
    end
  end.

Definition RTSP_READ : nat := Z.to_nat 4096.

Definition timed_out x (now : Z) : bool := negb (authorised_ x) && (VIDEO_RTSP_AUTH_TIMEOUT_S <? now - connected_ x).
Definition auth_timeout x : RtspViewer := x <| reason_ := bs "RTSP authentication timeout" |>.

(** False to drop the viewer.  [r]: what the socket gives. *)
Definition on_readable x (r : rcv_res) (ke : KeyEntry) (slot : Z) (ring : VideoRing) (scanner : VideoScanner) (now : Z)
  : bool * RtspViewer :=
  if closing_ x && (sent_ x =? length (out_ x))%nat then (false, x)
  else if timed_out x now then (false, auth_timeout x)
  else
    match r with
    | RcvEof | RcvErr => (false, x)
    | RcvAgain => (true, x)
    | RcvData b =>
      if closing_ x then (true, x)
      else
        let x := x <| input_ := input_ x ++ take RTSP_READ b |> in
        if REQUEST_LIMIT <? len (input_ x) then (false, x)
        else input_loop (length (input_ x)) x ke slot ring scanner now
    end.
End viewer.

(** ** Output *)

Definition set_sock x (k : Sock) : RtspViewer := x <| sock := k |>.
Definition took x (n : nat) (now : Z) : RtspViewer := x <| sent_ := (sent_ x + n)%nat |> <| progress_ := now |>.
Definition flushed x : RtspViewer := x <| out_ := ([] : bytes) |> <| sent_ := O |> <| blocked_ := false |>.

(** One turn per result of the socket, and one that finds it full. *)
Fixpoint flush_loop (fuel : nat) x (now : Z) : bool * RtspViewer :=
  if (sent_ x <? length (out_ x))%nat then
    match fuel with
    | O => (true, x)
    | S fuel =>
      let '(r, k) := sock_send (sock x) (drop (sent_ x) (out_ x)) in
      let x := set_sock x k in
      match r with
      | SndIntr => flush_loop fuel x now
      | SndAgain =>
        let x := x <| blocked_ := true |> in
        if VIDEO_VIEWER_STUCK_S <? now - progress_ x then (false, x <| reason_ := bs "stalled" |>) else (true, x)
      | SndErr => (false, x)
      | SndTook O => (false, x)
      | SndTook n => flush_loop fuel (took x n now) now
      end
    end
  else (true, flushed x).
Definition flush x (now : Z) : bool * RtspViewer := flush_loop (S (length (results (sock x)))) x now.

(** A clock reading: seconds and nanoseconds. *)
Abbreviation clock := (Z * Z)%type.

Definition timestamp (t : clock) : Z := u32 (u64 (u64 t.1 * 90000 + t.2 * 9 / 100000)).

(** An interleaved frame on a channel. *)
Definition interleaved (channel : Z) (data : bytes) : bytes := 36 :: u8 channel :: be_bytes 2 (len data) ++ data.

Definition sr_packet x (rtp_time : Z) (wall : clock) : bytes :=
  [0x80; 200; 0; 6] ++ put32 (ssrc_ x) ++ put32 (wall.1 + 2208988800)
  ++ put32 (u64 (Z.shiftl wall.2 32) / 1000000000) ++ put32 rtp_time ++ put32 (packets_ x) ++ put32 (octets_ x).

(** [while (size % 4) += 0]. *)
Definition pad4 (b : bytes) : bytes := b ++ replicate (Z.to_nat ((- len b) mod 4)) 0.

Definition sdes_packet x : bytes :=
  let cname := bs "SupportProxy-" ++ session_ x in
  let sdes := pad4 (put32 (ssrc_ x) ++ [1; u8 (len cname)] ++ cname ++ [0]) in
  [0x81; 202] ++ be_bytes 2 (len sdes / 4) ++ sdes.

Definition sender_report x (rtp_time : Z) (wall : clock) : RtspViewer :=
  add_out x (interleaved (channel_ x + 1) (sr_packet x rtp_time wall ++ sdes_packet x)).

Definition rtp_packet x (rtp_time : Z) (payload : bytes) : bytes :=
  [0x80; 33] ++ be_bytes 2 (seq_ x) ++ put32 rtp_time ++ put32 (ssrc_ x) ++ payload.

Definition send_media x (rtp_time : Z) (payload : bytes) : RtspViewer :=
  (add_out x (interleaved (channel_ x) (rtp_packet x rtp_time payload)))
    <| seq_ := u16 (seq_ x + 1) |>
    <| read_pos_ := u64 (read_pos_ x + len payload) |> <| bytes_sent_ := u64 (bytes_sent_ x + len payload) |>
    <| packets_ := u32 (packets_ x + 1) |> <| octets_ := u32 (octets_ x + u32 (len payload)) |>.

Definition whole_packets (n : Z) : Z := n / TS_PACKET_SIZE * TS_PACKET_SIZE.

(** The pump: each turn sends at least one packet of the budget.  [mono] and [wall] give the
    clocks of turn [i]. *)
Fixpoint pump_loop (fuel i : nat) x (ring : VideoRing) (now budget : Z) (mono wall : nat -> clock) : bool * RtspViewer :=
  match fuel with
  | O => (true, x)
  | S fuel =>
    if budget <? TS_PACKET_SIZE then (true, x)
    else
      let want := whole_packets (Z.min budget RTP_PAYLOAD) in
      let data := read_at ring (read_pos_ x) want in
      let got := whole_packets (len data) in
      if got =? 0 then (true, x)
      else
        let rtp_time := timestamp (mono i) in
        let x := if (report_ x =? 0) || (5 <=? now - report_ x)
                 then (sender_report x rtp_time (wall i)) <| report_ := now |> else x in
        let '(ok, x) := flush (send_media x rtp_time (ztake got data)) now in
        if negb ok then (false, x)
        else if negb (is_nil (out_ x)) then (true, x)
        else pump_loop fuel (S i) x ring now (budget - got) mono wall
  end.

(** As many turns as the budget has packets, and one more. *)
Definition pump_fuel : nat := Z.to_nat (VIDEO_VIEWER_WRITE_CHUNK / TS_PACKET_SIZE + 1).

(** False to drop the viewer. *)
Definition on_writable x (ring : VideoRing) (now : Z) (mono wall : nat -> clock) : bool * RtspViewer :=
  if timed_out x now then (false, auth_timeout x)
  else if playing_ x && negb (resident ring (read_pos_ x))
  then (false, x <| reason_ := bs "fell too far behind (lapped)" |>)
  else
    let '(ok, x) := flush x now in
    if negb ok then (false, x)
    else if negb (is_nil (out_ x)) then (true, x)
    else if closing_ x then (false, x)
    else if VIDEO_RTSP_SESSION_TIMEOUT_S + VIDEO_RTSP_TIMEOUT_GRACE_S <? now - control_ x
    then (false, x <| reason_ := bs "RTSP control timeout" |>)
    else if negb (playing_ x) then (true, x)
    else pump_loop pump_fuel 0 x ring now VIDEO_VIEWER_WRITE_CHUNK mono wall.

(** ** Scale and transport headers *)

Example normal_scales :
  map normal_scale [bs ""; bs "1"; bs "1.0"; bs "+1.000"; bs "10e-1"; bs "0x1p0"; bs "0.1E+1"]
    = replicate 7 true
  /\ map normal_scale [bs "2"; bs "-1"; bs "1x"; bs "0.999"; bs "nan"; bs "."; bs "1e"] = replicate 7 false.
Proof. by vm_compute. Qed.

Example transports :
  map tcp_transport [bs "RTP/AVP/TCP;unicast;interleaved=0-1"; bs "RTP/AVP;unicast;client_port=1-2, RTP/AVP/TCP;interleaved=4-5";
                     bs "RTP/AVP/TCP"] = [Some 0; Some 4; Some 0]
  /\ map tcp_transport [bs "RTP/AVP;unicast"; bs "RTP/AVP/TCP;interleaved=0-2"; bs "RTP/AVP/TCP;multicast";
                        bs "RTP/AVP/TCP;interleaved=255-256"; bs ""] = replicate 5 None.
Proof. by vm_compute. Qed.

(** ** What the viewer owes its client *)

(** Everything the socket has taken and everything still to be sent. *)
Definition owed x : bytes := wire (sock x) ++ drop (sent_ x) (out_ x).
Definition sane x : Prop := (sent_ x <= length (out_ x))%nat.

(** The fields that number and place the media. *)
Definition placed x : Z * Z * Z * Z * bytes := (channel_ x, ssrc_ x, seq_ x, read_pos_ x, session_ x).

Lemma flush_loop_owed fuel x now :
  sane x ->
  let x' := (flush_loop fuel x now).2 in owed x' = owed x /\ sane x' /\ placed x' = placed x.
Proof.
  revert x. induction fuel as [|fuel IH]; intros x Hs; cbn [flush_loop].
  - destruct (Nat.ltb_spec (sent_ x) (length (out_ x))); [done|].
    split_and!; [|unfold sane; cbn; lia|done]. unfold owed. cbn. by rewrite drop_ge by lia.
  - destruct (Nat.ltb_spec (sent_ x) (length (out_ x))).
    2: { split_and!; [|unfold sane; cbn; lia|done]. unfold owed. cbn. by rewrite drop_ge by lia. }
    destruct (sock_send _ _) as [r k] eqn:Es. apply sock_send_wire in Es.
    assert (Hsame : match r with SndTook _ => True | _ => owed (set_sock x k) = owed x end)
      by (destruct r; [done|..]; unfold owed; cbn; by rewrite Es).
    destruct r as [[|n]| | |].
    + destruct Es as [_ Es]. unfold owed, sane. cbn. rewrite Es. cbn. by rewrite app_nil_r.
    + destruct Es as [Hn Ew]. rewrite length_drop in Hn.
      destruct (IH (took (set_sock x k) (S n) now)) as (E1 & E2 & E3); [unfold sane; cbn; lia|].
      split_and!; [|done|done]. rewrite E1. unfold owed. cbn. rewrite Ew, <-app_assoc. f_equal.
      rewrite <-(take_drop (S n) (drop (sent_ x) (out_ x))) at 2. by rewrite drop_drop.
    + destruct (_ <? _); done.
    + destruct (IH (set_sock x k) Hs) as (E1 & E2 & E3). split_and!; [by rewrite E1|done|done].
    + done.
Qed.

Lemma owed_add x b : sane x -> owed (add_out x b) = owed x ++ b /\ sane (add_out x b).
Proof.
  intros Hs. unfold sane, owed in *. cbn. rewrite length_app. split; [|lia].
  by rewrite drop_app_le, app_assoc by lia.
Qed.

(** ** What a connection may see *)

(** The answers given to anybody: to OPTIONS, to a request for something else, and to one
    without acceptable credentials; with the request's own number. *)
Definition plain_reply (b : bytes) : Prop :=
  exists cseq n, decimal cseq 2147483647 = Some n
  /\ (b = reply_bytes cseq 200 (bs "OK") (bs "Public: OPTIONS, DESCRIBE, SETUP, PLAY, PAUSE, TEARDOWN, GET_PARAMETER" ++ crlf) []
      \/ b = reply_bytes cseq 404 (bs "Not Found") [] []
      \/ b = reply_bytes cseq 401 (bs "Unauthorized")
               (bs "WWW-Authenticate: Basic realm=" ++ [34] ++ bs "SupportProxy video" ++ [34] ++ crlf) []).

Section admission.
Variable sha256 : bytes -> bytes.
Variable hmac : bytes -> bytes -> bytes.
Variable b64_read : bytes -> bytes.

Section told.
(** What the socket had taken before the connection was a viewer's. *)
Variable w0 : bytes.

(** The client has been told nothing but that. *)
Definition told_nothing x : Prop := sane x /\ exists rs, owed x = w0 ++ concat rs /\ Forall plain_reply rs.

(** Nothing of the stream without authorisation. *)
Record Gated x : Prop := {
  ga_setup : setup_ x = true -> authorised_ x = true;
  ga_playing : playing_ x = true -> authorised_ x = true;
  ga_played : played_ x = true -> authorised_ x = true;
  ga_sent : bytes_sent_ x <> 0 -> authorised_ x = true;
  ga_told : authorised_ x = false -> told_nothing x
}.

(** The fields that say what has been granted, and what has been said. *)
Definition grants x : bool * bool * bool * bool * Z * Z :=
  (authorised_ x, setup_ x, playing_ x, played_ x, bytes_sent_ x, port2_ x).
Definition says x : Sock * nat * bytes := (sock x, sent_ x, out_ x).

Lemma Gated_told x x' :
  grants x' = grants x -> (told_nothing x -> told_nothing x') -> Gated x -> Gated x'.
Proof. unfold grants. intros [= E1 E2 E3 E4 E5 E6] Ht [H1 H2 H3 H4 H5]. split; rewrite ?E1, ?E2, ?E3, ?E4, ?E5; auto. Qed.

Lemma Gated_same x x' : grants x' = grants x -> says x' = says x -> Gated x -> Gated x'.
Proof. intros Hg [= E1 E2 E3]. apply Gated_told; [done|]. unfold told_nothing, sane, owed. by rewrite E1, E2, E3. Qed.

Lemma Gated_authorised x : authorised_ x = true -> Gated x.
Proof. intros H. by split; rewrite ?H. Qed.

(** An answer for anybody. *)
Lemma Gated_reply x b : plain_reply b -> Gated x -> Gated (add_out x b).
Proof.
  intros Hb. apply Gated_told; [done|]. intros [Hs (rs & E & Hr)]. destruct (owed_add x b Hs) as [E' Hs']. split; [done|].
  exists (rs ++ [b]). rewrite E', E, concat_app. cbn [concat]. rewrite app_nil_r, app_assoc. split; [done|].
  apply list.Forall_app. split; [done|by constructor].
Qed.

Lemma well_formed_cseq head req : well_formed head req = true -> exists n, decimal (header req (bs "CSeq")) 2147483647 = Some n.
Proof. unfold well_formed. intros [_ H]%andb_true_iff. destruct (decimal _ _); [by eexists|done]. Qed.

Lemma serve_keeps x cseq method req ring scanner now :
  authorised_ (serve x cseq method req ring scanner now) = authorised_ x
  /\ port2_ (serve x cseq method req ring scanner now) = port2_ x
  /\ input_ (serve x cseq method req ring scanner now) = input_ x.
Proof.
  unfold serve. destruct (matroska scanner); [done|]. case_bool_decide; [unfold describe; by destruct (join_point _ _)|].
  case_bool_decide.
  { unfold setup. destruct (playing_ x); [done|]. destruct (tcp_transport _); [|done]. by destruct (_ && _)%bool. }
  case_bool_decide; [|done]. unfold in_session. destruct (_ || _)%bool; [done|].
  case_bool_decide.
  { unfold play. destruct (_ || _)%bool; [done|]. unfold cue. destruct (_ && _)%bool; [|done].
    destruct (VideoMkv.join_offset scanner) as [a|]; [|done]. by destruct (resident ring a). }
  case_bool_decide; [done|]. by case_bool_decide.
Qed.

(** What a request that grants anything must be. *)
Definition admits (port2 : Z) (ke : KeyEntry) (slot now : Z) (head : bytes) : Prop :=
  exists req, HttpReq.feed http_init head = (1, req) /\ serves slot req = true
  /\ credentials_ok sha256 hmac b64_read port2 ke slot now req = true.

Lemma request_gate x head ke slot ring scanner now :
  Gated x ->
  let x' := (request sha256 hmac b64_read x head ke slot ring scanner now).2 in
  Gated x' /\ port2_ x' = port2_ x /\ input_ x' = input_ x
  /\ (authorised_ x' = true -> authorised_ x = true \/ admits (port2_ x) ke slot now head).
Proof.
  intros Hg. unfold request. destruct (HttpReq.feed http_init head) as [v req] eqn:Ef.
  destruct (Z.eq_dec v 1) as [->|Hv]; [|destruct v as [|[]|]; auto; done].
  destruct (well_formed head req) eqn:Ew; cbn [negb]; [|by auto].
  destruct (well_formed_cseq _ _ Ew) as [n Hn]. set (cseq := header req (bs "CSeq")) in *.
  set (x1 := x <| control_ := now |>).
  assert (Hg1 : Gated x1) by by apply (Gated_same x).
  case_bool_decide; [split_and!; [apply Gated_reply; [by exists cseq, n; auto|done]|by auto..]|].
  destruct (serves slot req) eqn:Es; cbn [negb];
    [|split_and!; [apply Gated_reply; [by exists cseq, n; auto|done]|by auto..]].
  destruct (authorised_ x1 && negb (offers req) || credentials_ok sha256 hmac b64_read (port2_ x1) ke slot now req)%bool eqn:Ep;
    [|split_and!; [|by auto..]; eapply Gated_same; [..|apply (Gated_reply x1); [exists cseq, n; auto|done]]; done].
  cbn [snd]. destruct (serve_keeps (x1 <| authorised_ := true |>) (header req (bs "CSeq")) (method_ req) req ring scanner now)
    as (Ha & Hp & Hi).
  split_and!; [by apply Gated_authorised|done|done|]. intros _.
  apply orb_true_iff in Ep as [[E _]%andb_true_iff|E]; [by left|right]. by exists req.
Qed.

(** ** Calls *)

Inductive rv_op :=
| RvRead (r : rcv_res) (ke : KeyEntry) (slot : Z) (ring : VideoRing) (scanner : VideoScanner) (now : Z)
| RvWrite (ring : VideoRing) (now : Z) (mono wall : nat -> clock).

Definition rv_step x (op : rv_op) : bool * RtspViewer :=
  match op with
  | RvRead r ke slot ring scanner now => on_readable sha256 hmac b64_read x r ke slot ring scanner now
  | RvWrite ring now mono wall => on_writable x ring now mono wall
  end.

(** Until one of them drops the viewer. *)
Fixpoint rv_run x (ops : list rv_op) : bool * RtspViewer :=
  match ops with
  | [] => (true, x)
  | op :: ops => let '(ok, x) := rv_step x op in if ok then rv_run x ops else (false, x)
  end.

(** What the client has sent, as the calls read it. *)
Definition received (ops : list rv_op) : bytes :=
  concat (map (fun op => match op with RvRead (RcvData b) _ _ _ _ _ => take RTSP_READ b | _ => [] end) ops).

(** Some request among what had been received by one of the calls was entitled to view. *)
Definition earned (port2 : Z) (ops : list rv_op) : Prop :=
  exists before after r ke slot ring scanner now head pre post,
  ops = before ++ RvRead r ke slot ring scanner now :: after
  /\ received (before ++ [RvRead r ke slot ring scanner now]) = pre ++ head ++ post
  /\ admits port2 ke slot now head.

Lemma received_snoc ops op : received (ops ++ [op]) = received ops ++ received [op].
Proof. unfold received. rewrite map_app, concat_app. cbn. by rewrite app_nil_r. Qed.

Lemma earned_app port2 ops ops' : earned port2 ops -> earned port2 (ops ++ ops').
Proof.
  intros (before & after & r & ke & slot & ring & sc & now & head & pre & post & -> & H).
  exists before, (after ++ ops'), r, ke, slot, ring, sc, now, head, pre, post. by rewrite <-app_assoc.
Qed.

(** The unread input is the end of what was received. *)
Definition unread (all : bytes) x : Prop := exists pre, all = pre ++ input_ x.

Lemma unread_drop all x x' n : unread all x -> input_ x' = drop n (input_ x) -> unread all x'.
Proof.
  intros [pre ->] E. exists (pre ++ take n (input_ x)). by rewrite E, <-app_assoc, take_drop.
Qed.

Section one_read.
Variables (all : bytes) (ke : KeyEntry) (slot : Z) (ring : VideoRing) (scanner : VideoScanner) (now : Z).

(** What handling one complete message of the input does. *)
Definition kept port2 x x' : Prop :=
  Gated x' /\ port2_ x' = port2 /\ unread all x'
  /\ (authorised_ x' = true -> authorised_ x = true
      \/ exists pre head post, all = pre ++ head ++ post /\ admits port2 ke slot now head).

Lemma take_rtcp_kept x : Gated x -> unread all x -> kept (port2_ x) x (take_rtcp x now).2.
Proof.
  intros Hg Hu. unfold take_rtcp. destruct (_ <? 4)%nat; [by split_and!; auto|]. cbv zeta.
  destruct (_ || _)%bool; [by split_and!; auto|]. destruct (_ <? _); [by split_and!; auto|].
  destruct (negb _); [by split_and!; auto|]. cbn [snd].
  split_and!; [by apply (Gated_same x)|done|by eapply unread_drop|by left].
Qed.

Lemma take_request_kept x : Gated x -> unread all x ->
  kept (port2_ x) x (take_request sha256 hmac b64_read x ke slot ring scanner now).2.
Proof.
  intros Hg Hu. unfold take_request. destruct (find_sub CRLF2 (input_ x)) as [e|]; [|by split_and!; auto].
  cbv zeta. destruct (HttpReq.feed http_init _) as [v req].
  destruct (Z.eq_dec v 1) as [->|Hv]; [|destruct v as [|[]|]; by split_and!; auto].
  destruct (body_length req) as [n|]; [|by split_and!; auto].
  destruct (REQUEST_LIMIT <? Z.of_nat (e + 4) + n); [by split_and!; auto|]. destruct (_ <? _); [by split_and!; auto|].
  pose proof (request_gate x (take (e + 4) (input_ x)) ke slot ring scanner now Hg) as Hr. cbv zeta in Hr.
  destruct (request _ _ _ x _ _ _ _ _ _) as [ok x1]. cbn [snd] in Hr. destruct Hr as (Hg1 & Hp1 & Hi1 & Ha1).
  assert (Hk : forall x', grants x' = grants x1 -> says x' = says x1 -> unread all x' -> kept (port2_ x) x x').
  { intros x' Hs Hy Hun. pose proof Hs as Hs2. injection Hs2 as E1 _ _ _ _ E6.
    split_and!; [by apply (Gated_same x1)|congruence|done|].
    rewrite E1. intros Ha. destruct (Ha1 Ha) as [|Had]; [by left|right].
    destruct Hu as [pre Hpre]. exists pre, (take (e + 4) (input_ x)), (drop (e + 4) (input_ x)).
    by rewrite take_drop. }
  destruct ok; cbn [negb]; [|by apply Hk; [done..|]; eapply (unread_drop _ x _ 0)].
  destruct (REQUEST_LIMIT <? len (out_ _)); cbn [snd]; apply Hk; try done;
    eapply (unread_drop _ x); cbn; rewrite ?Hi1; done.
Qed.

Lemma input_loop_kept fuel x : Gated x -> unread all x ->
  kept (port2_ x) x (input_loop sha256 hmac b64_read fuel x ke slot ring scanner now).2.
Proof.
  revert x. induction fuel as [|fuel IH]; intros x Hg Hu; cbn [input_loop].
  - destruct (input_ x); by split_and!; auto.
  - destruct (input_ x) as [|c inp] eqn:Ei; [by split_and!; auto|].
    assert (Hk : kept (port2_ x) x (if c =? 36 then take_rtcp x now else take_request sha256 hmac b64_read x ke slot ring scanner now).2).
    { destruct (c =? 36); [by apply take_rtcp_kept|by apply take_request_kept]. }
    destruct (if c =? 36 then _ else _) as [[] x1]; cbn [snd] in *; [done|done|].
    destruct Hk as (Hg1 & Hp1 & Hu1 & Ha1). destruct (IH x1 Hg1 Hu1) as (Hg2 & Hp2 & Hu2 & Ha2).
    split_and!; [done|congruence|done|]. intros Ha. destruct (Ha2 Ha) as [E|(pre & head & post & E)]; [by apply Ha1|].
    right. rewrite Hp1 in E. by exists pre, head, post.
Qed.
End one_read.

Lemma flush_loop_grants fuel x now :
  grants (flush_loop fuel x now).2 = grants x /\ input_ (flush_loop fuel x now).2 = input_ x
  /\ closing_ (flush_loop fuel x now).2 = closing_ x.
Proof.
  revert x. induction fuel as [|fuel IH]; intros x; cbn [flush_loop]; destruct (_ <? _)%nat; try done.
  destruct (sock_send _ _) as [[[|n]| | |] k]; try done.
  - by destruct (IH (took (set_sock x k) (S n) now)) as (-> & -> & ->).
  - by destruct (_ <? _).
  - by destruct (IH (set_sock x k)) as (-> & -> & ->).
Qed.

Lemma pump_loop_gated fuel i x ring now budget mono wall :
  authorised_ x = true ->
  let x' := (pump_loop fuel i x ring now budget mono wall).2 in
  authorised_ x' = true /\ port2_ x' = port2_ x /\ input_ x' = input_ x /\ closing_ x' = closing_ x.
Proof.
  revert i x budget. induction fuel as [|fuel IH]; intros i x budget Ha; [done|]. cbn [pump_loop].
  destruct (_ <? _); [done|]. cbv zeta. destruct (_ =? 0); [done|].
  set (x1 := if (_ || _)%bool then _ else x). set (got := whole_packets _).
  assert (H1 : authorised_ x1 = true /\ port2_ x1 = port2_ x /\ input_ x1 = input_ x /\ closing_ x1 = closing_ x)
    by (unfold x1; by destruct (_ || _)%bool). clearbody x1 got. destruct H1 as (A1 & P1 & I1 & C1).
  set (x2 := send_media x1 _ _).
  assert (E2 : authorised_ x2 = authorised_ x1 /\ port2_ x2 = port2_ x1 /\ input_ x2 = input_ x1 /\ closing_ x2 = closing_ x1) by done.
  clearbody x2. destruct E2 as (A2 & P2 & I2 & C2).
  unfold flush. destruct (flush_loop_grants (S (length (results (sock x2)))) x2 now) as (Eg & Ei & Ec).
  destruct (flush_loop _ x2 now) as [ok x3]. cbn [snd] in *. injection Eg as E1 _ _ _ _ E6.
  destruct ok; cbn [negb snd]; [|split_and!; congruence]. destruct (is_nil _); cbn [negb snd]; [|split_and!; congruence].
  destruct (IH (S i) x3 (budget - got)) as (A & P & I & C); [congruence|]. split_and!; congruence.
Qed.

Lemma on_writable_gated x ring now mono wall : Gated x ->
  let x' := (on_writable x ring now mono wall).2 in
  Gated x' /\ port2_ x' = port2_ x /\ input_ x' = input_ x /\ authorised_ x' = authorised_ x /\ closing_ x' = closing_ x.
Proof.
  intros Hg. unfold on_writable. destruct (timed_out x now); [by split_and!; [apply (Gated_same x)|..]|].
  destruct (_ && _)%bool; [by split_and!; [apply (Gated_same x)|..]|].
  unfold flush. destruct (flush_loop_grants (S (length (results (sock x)))) x now) as (Eg & Ei & Ec).
  pose proof (flush_loop_owed (S (length (results (sock x)))) x now) as Ho.
  destruct (flush_loop _ x now) as [ok x1]. cbn [snd] in *.
  assert (Hg1 : Gated x1).
  { apply (Gated_told x); [done| |done]. intros [Hs Hr]. destruct (Ho Hs) as (E & Hs1 & _). split; [done|]. by rewrite E. }
  assert (H1 : Gated x1 /\ port2_ x1 = port2_ x /\ input_ x1 = input_ x /\ authorised_ x1 = authorised_ x /\ closing_ x1 = closing_ x).
  { split; [done|]. injection Eg as -> _ _ _ _ ->. done. }
  destruct H1 as (G1 & P1 & I1 & A1 & C1).
  destruct ok; cbn [negb]; [|done]. destruct (is_nil _); cbn [negb]; [|done].
  destruct (closing_ x1) eqn:Ecl; [split_and!; cbn [snd]; congruence || done|].
  destruct (_ <? now - control_ x1); [split_and!; cbn; try congruence; by apply (Gated_same x1)|].
  destruct (playing_ x1) eqn:Ep; cbn [negb]; [|split_and!; cbn [snd]; congruence || done].
  pose proof (ga_playing _ G1 Ep) as Ha.
  destruct (pump_loop_gated pump_fuel 0 x1 ring now VIDEO_VIEWER_WRITE_CHUNK mono wall Ha) as (A & P & I & C).
  split_and!; [by apply Gated_authorised|congruence..].
Qed.

Definition view_inv (port2 : Z) (ops : list rv_op) (alive : bool) x : Prop :=
  Gated x /\ port2_ x = port2 /\ (alive = true -> closing_ x = false -> unread (received ops) x)
  /\ (authorised_ x = true -> earned port2 ops).

(** A call that grants nothing and reads nothing. *)
Lemma view_inv_same port2 ops op x alive x' :
  view_inv port2 ops true x -> grants x' = grants x -> says x' = says x -> input_ x' = input_ x ->
  (alive = true -> closing_ x' = false -> closing_ x = false /\ received [op] = []) ->
  view_inv port2 (ops ++ [op]) alive x'.
Proof.
  intros (Hg & Hp & Hu & Ha) Hs Hy Hi Hc. pose proof Hs as Hs2. injection Hs2 as E1 _ _ _ _ E6.
  split_and!; [by apply (Gated_same x)|congruence| |].
  - intros Hal Hcl. destruct (Hc Hal Hcl) as [Hcx Hr]. rewrite received_snoc, Hr, app_nil_r.
    destruct (Hu eq_refl Hcx) as [pre ->]. exists pre. by rewrite Hi.
  - rewrite E1. intros Hau. by apply earned_app, Ha.
Qed.

Lemma rv_step_inv port2 ops op x :
  view_inv port2 ops true x -> view_inv port2 (ops ++ [op]) (rv_step x op).1 (rv_step x op).2.
Proof.
  intros Hv. destruct op as [r ke slot ring sc now|ring now mono wall]; cbn [rv_step].
  - set (op := RvRead r ke slot ring sc now) in *. unfold on_readable.
    destruct (closing_ x && _)%bool; [by apply (view_inv_same _ _ _ x)|].
    destruct (timed_out x now); [by apply (view_inv_same _ _ _ x)|].
    destruct r as [b| | |]; try by apply (view_inv_same _ _ _ x).
    set (x1 := x <| input_ := input_ x ++ take RTSP_READ b |>).
    destruct (closing_ x) eqn:Ecl; [apply (view_inv_same _ _ _ x); try done; cbn; congruence|].
    destruct Hv as (Hg & Hp & Hu & Ha). specialize (Hu eq_refl Ecl).
    assert (Hr : received (ops ++ [op]) = received ops ++ take RTSP_READ b)
      by (rewrite received_snoc; unfold received at 2; cbn; by rewrite app_nil_r).
    assert (Hu1 : unread (received (ops ++ [op])) x1).
    { destruct Hu as [pre E]. exists pre. rewrite Hr, E, <-app_assoc. done. }
    assert (Hg1 : Gated x1) by by apply (Gated_same x).
    destruct (_ <? _).
    { cbn [fst snd]. split_and!; [exact Hg1|exact Hp|by intros [=]|]. intros Hau. by apply earned_app, Ha. }
    destruct (input_loop_kept (received (ops ++ [op])) ke slot ring sc now (length (input_ x1)) x1 Hg1 Hu1)
      as (Hg2 & Hp2 & Hu2 & Ha2).
    split_and!; [done|by rewrite Hp2|done|]. intros Hau. destruct (Ha2 Hau) as [E|(pre & head & post & E & Had)].
    + by apply earned_app, Ha.
    + rewrite <-Hp. by exists ops, [], (RcvData b), ke, slot, ring, sc, now, head, pre, post.
  - destruct Hv as (Hg & Hp & Hu & Ha).
    destruct (on_writable_gated x ring now mono wall Hg) as (Hg2 & Hp2 & Hi2 & Ha2 & Hc2).
    split_and!; [done|congruence| |].
    + intros _ Hcl. rewrite received_snoc, app_nil_r. rewrite Hc2 in Hcl. destruct (Hu eq_refl Hcl) as [pre E].
      exists pre. by rewrite Hi2.
    + rewrite Ha2. intros Hau. by apply earned_app, Ha.
Qed.

Lemma rv_run_inv port2 ops0 ops x :
  view_inv port2 ops0 true x -> exists alive, view_inv port2 (ops0 ++ ops) alive (rv_run x ops).2.
Proof.
  revert ops0 x. induction ops as [|op ops IH]; intros ops0 x Hv; [exists true; by rewrite app_nil_r|].
  cbn [rv_run]. pose proof (rv_step_inv port2 ops0 op x Hv) as Hs. destruct (rv_step x op) as [[] x1]; cbn [fst snd] in *.
  - destruct (IH _ _ Hs) as [al H]. exists al. by rewrite <-app_assoc in H.
  - exists false. destruct Hs as (Hg & Hp & _ & Ha). split_and!; [done|done|done|].
    intros Hau. rewrite (cons_middle op ops0 ops), app_assoc. by apply earned_app, Ha.
Qed.

End told.

Lemma rtsp_new_inv k port2 now random : view_inv (wire k) port2 [] true (rtsp_new k port2 now random).
Proof.
  assert (Hn : told_nothing (wire k) (rtsp_new k port2 now random)).
  { split; [|exists []; split; [|done]]; destruct random; try (unfold sane; cbn; lia); unfold owed; by rewrite !app_nil_r. }
  destruct random; (split_and!; [by split|done| |done]); intros _ _; exists []; done.
Qed.

(** A call that is not made, on a viewer that is dropped or that reads nothing by it. *)
Lemma view_inv_skip w port2 ops op alive x :
  view_inv w port2 ops true x -> (alive = true -> received [op] = []) -> view_inv w port2 (ops ++ [op]) alive x.
Proof. intros Hv Hr. apply (view_inv_same w port2 ops op x); auto. Qed.

Lemma view_inv_dropped w port2 ops ops' alive x : view_inv w port2 ops alive x -> view_inv w port2 (ops ++ ops') false x.
Proof. intros (Hg & Hp & _ & Ha). split_and!; [done|done|done|]. intros Hau. by apply earned_app, Ha. Qed.

(** What the connection has been granted. *)
Definition granted x : Prop := authorised_ x = true \/ setup_ x = true \/ playing_ x = true \/ bytes_sent_ x <> 0.

Lemma view_inv_granted w port2 ops alive x : view_inv w port2 ops alive x -> granted x -> earned port2 ops.
Proof.
  intros (Hg & _ & _ & Ha) Hx. apply Ha. destruct Hx as [H|[H|[H|H]]];
    [done|by apply (ga_setup _ _ Hg)|by apply (ga_playing _ _ Hg)|by apply (ga_sent _ _ Hg)].
Qed.

(** C37: Nothing of the stream goes to an RTSP client that has not earned it.  Whatever bytes it
    sends, in whatever pieces, pipelined or interleaved with anything else: either some request
    among the bytes received so far was for this connection's own slot and carried
    credentials that were acceptable when it was handled -- a viewer token valid for this
    entry and slot at that time, or the viewer password, or the entry had none -- or the
    connection is not authorised, holds no session (no SETUP has been answered), does not
    play, has sent no media, and all it has been told or is still to be told, byte for byte,
    are answers given to anybody: to OPTIONS, 404 and 401. *)
Theorem rtsp_view_authorised k port2 now random ops :
  let x := (rv_run (rtsp_new k port2 now random) ops).2 in
  earned port2 ops
  \/ (authorised_ x = false /\ setup_ x = false /\ playing_ x = false /\ bytes_sent_ x = 0
      /\ exists rs, owed x = wire k ++ concat rs /\ Forall plain_reply rs).
Proof.
  destruct (rv_run_inv (wire k) port2 [] ops _ (rtsp_new_inv k port2 now random)) as [al (Hg & _ & _ & Ha)]. cbv zeta. cbn [app] in Ha.
  destruct (authorised_ _) eqn:E; [left; by apply Ha|right]. destruct Hg as [H1 H2 _ H4 H5]. rewrite E in *.
  split_and!; [done|..|by apply H5].
  - destruct (setup_ _); [by discriminate H1|done].
  - destruct (playing_ _); [by discriminate H2|done].
  - destruct (Z.eq_dec (bytes_sent_ (rv_run (rtsp_new k port2 now random) ops).2) 0) as [|Hn]; [done|by discriminate (H4 Hn)].
Qed.
End admission.

(** ** What a client reads *)

(** A client's reading of interleaved frames: channel and data of each. *)
Fixpoint read_frames (fuel : nat) (b : bytes) : option (list (Z * bytes)) :=
  match b, fuel with
  | [], _ => Some []
  | 36 :: ch :: hi :: lo :: rest, S fuel =>
      let n := Z.to_nat (be_val [hi; lo]) in
      if (length rest <? n)%nat then None
      else match read_frames fuel (drop n rest) with
           | Some fs => Some ((ch, take n rest) :: fs)
           | None => None
           end
  | _, _ => None
  end.

Definition frames_bytes (fs : list (Z * bytes)) : bytes := concat (map (fun f => interleaved f.1 f.2) fs).

(** What the viewer sends: a sender report or a packet of the stream. *)
Inductive rtp_item := Report (data : bytes) | Media (rtp_time : Z) (payload : bytes).

(** The frames of a sequence of items, the media numbered from [seq]. *)
Fixpoint item_frames (ch ssrc seq : Z) (items : list rtp_item) : list (Z * bytes) :=
  match items with
  | [] => []
  | Report d :: items => (u8 (ch + 1), d) :: item_frames ch ssrc seq items
  | Media t p :: items =>
      (u8 ch, [0x80; 33] ++ be_bytes 2 seq ++ put32 t ++ put32 ssrc ++ p) :: item_frames ch ssrc (u16 (seq + 1)) items
  end.
Fixpoint item_payloads (items : list rtp_item) : list bytes :=
  match items with
  | [] => []
  | Report _ :: items => item_payloads items
  | Media _ p :: items => p :: item_payloads items
  end.
Definition next_seq (seq : Z) (items : list rtp_item) : Z := Nat.iter (length (item_payloads items)) (fun s => u16 (s + 1)) seq.

Lemma read_frames_bytes fs fuel :
  Forall (fun f => is_byte f.1 /\ len f.2 < 65536) fs -> (length fs <= fuel)%nat ->
  read_frames fuel (frames_bytes fs) = Some fs.
Proof.
  intros Hf. revert fuel. induction Hf as [|[ch d] fs [Hc Hd] Hf IH]; intros fuel Hl; [by destruct fuel|].
  destruct fuel as [|fuel]; [cbn in Hl; lia|]. unfold frames_bytes. cbn [map concat fst snd] in *.
  change (concat (map _ fs)) with (frames_bytes fs). unfold interleaved.
  pose proof (length_be_bytes 2 (len d)) as Hbl. pose proof (be_val_be_bytes_small 2 (len d)) as Hbv.
  destruct (be_bytes 2 (len d)) as [|hi [|lo [|]]]; try done. cbn [app read_frames].
  rewrite Hbv by (change (256 ^ Z.of_nat 2) with 65536; lia). rewrite Nat2Z.id, length_app.
  rewrite (proj2 (Nat.ltb_ge _ _)) by lia. rewrite take_app_length, drop_app_length.
  rewrite IH by (cbn in Hl; lia). rewrite wrap_small by (unfold is_byte in Hc; lia). done.
Qed.

Lemma item_frames_app ch ssrc seq is1 is2 :
  item_frames ch ssrc seq (is1 ++ is2) = item_frames ch ssrc seq is1 ++ item_frames ch ssrc (next_seq seq is1) is2.
Proof.
  revert seq. induction is1 as [|[d|t p] is1 IH]; intros seq; [done|cbn; by rewrite IH|].
  cbn [app item_frames]. rewrite IH. unfold next_seq. cbn [item_payloads length]. by rewrite Nat.iter_succ_r.
Qed.

Lemma item_payloads_app is1 is2 : item_payloads (is1 ++ is2) = item_payloads is1 ++ item_payloads is2.
Proof. induction is1 as [|[] is1 IH]; [done|done|cbn; by rewrite IH]. Qed.

Lemma next_seq_app seq is1 is2 : next_seq seq (is1 ++ is2) = next_seq (next_seq seq is1) is2.
Proof. unfold next_seq. by rewrite item_payloads_app, length_app, Nat.add_comm, Nat.iter_add. Qed.

Lemma frames_bytes_app fs gs : frames_bytes (fs ++ gs) = frames_bytes fs ++ frames_bytes gs.
Proof. unfold frames_bytes. by rewrite map_app, concat_app. Qed.

(** ** What the viewer owes its client: the media *)

(** A stretch of output: the frames sent, and the stream bytes they carry. *)
Definition Streams (hist : bytes) x x' (items : list rtp_item) : Prop :=
  owed x' = owed x ++ frames_bytes (item_frames (channel_ x) (ssrc_ x) (seq_ x) items)
  /\ sane x'
  /\ channel_ x' = channel_ x /\ ssrc_ x' = ssrc_ x /\ session_ x' = session_ x
  /\ seq_ x' = next_seq (seq_ x) items
  /\ read_pos_ x' = read_pos_ x + len (concat (item_payloads items))
  /\ concat (item_payloads items) = slice hist (read_pos_ x) (len (concat (item_payloads items)))
  /\ Forall (fun p => 0 < len p <= RTP_PAYLOAD /\ len p mod TS_PACKET_SIZE = 0) (item_payloads items)
  /\ Forall (fun f => is_byte f.1 /\ len f.2 < 65536) (item_frames (channel_ x) (ssrc_ x) (seq_ x) items).

Lemma Streams_nil hist x x' : owed x' = owed x -> sane x' -> placed x' = placed x -> Streams hist x x' [].
Proof.
  intros Eo Hs [= E1 E2 E3 E4 E5]. unfold Streams. cbn. rewrite Eo, app_nil_r, Z.add_0_r.
  split_and!; try done; constructor.
Qed.

Lemma slice_join (l : bytes) a n m : 0 <= a -> 0 <= n -> 0 <= m -> slice l a n ++ slice l (a + n) m = slice l a (n + m).
Proof.
  intros Ha Hn Hm. unfold slice. replace (Z.to_nat (a + n)) with (Z.to_nat a + Z.to_nat n)%nat by lia.
  rewrite <-drop_drop. replace (Z.to_nat (n + m)) with (Z.to_nat n + Z.to_nat m)%nat by lia.
  by rewrite take_take_drop.
Qed.

Lemma Streams_app hist x1 x2 x3 is1 is2 :
  0 <= read_pos_ x1 -> Streams hist x1 x2 is1 -> Streams hist x2 x3 is2 -> Streams hist x1 x3 (is1 ++ is2).
Proof.
  intros H0 (O1 & S1 & C1 & R1 & N1 & Q1 & P1 & L1 & F1 & B1) (O2 & S2 & C2 & R2 & N2 & Q2 & P2 & L2 & F2 & B2).
  unfold Streams. rewrite C1, R1, Q1 in *. rewrite item_frames_app, frames_bytes_app, next_seq_app, item_payloads_app, concat_app.
  split_and!; try congruence.
  - by rewrite O2, O1, app_assoc.
  - rewrite P2, P1, length_app. lia.
  - rewrite L1 at 1. rewrite L2 at 1. rewrite P1, length_app, Nat2Z.inj_add. apply slice_join; lia.
  - by apply list.Forall_app.
  - by apply list.Forall_app.
Qed.

Lemma length_pad4 b : len (pad4 b) <= len b + 3.
Proof.
  unfold pad4. rewrite length_app, length_replicate. pose proof (Z.mod_pos_bound (- len b) 4). lia.
Qed.

Lemma sender_report_streams hist x t w :
  sane x -> len (session_ x) <= 16 ->
  exists items, Streams hist x (sender_report x t w) items /\ item_payloads items = [].
Proof.
  intros Hs Hl. exists [Report (sr_packet x t w ++ sdes_packet x)]. split; [|done]. unfold sender_report.
  destruct (owed_add x (interleaved (channel_ x + 1) (sr_packet x t w ++ sdes_packet x)) Hs) as [E1 E2].
  unfold Streams. rewrite E1. cbn [item_frames item_payloads concat]. unfold frames_bytes. cbn [map concat fst snd].
  rewrite app_nil_r. split_and!; try done.
  - unfold interleaved. by rewrite wrap_wrap.
  - cbn. lia.
  - constructor; [|constructor]. cbn [fst snd]. split; [apply wrap_range; lia|].
    pose proof (length_pad4 (put32 (ssrc_ x) ++ [1; u8 (len (bs "SupportProxy-" ++ session_ x))] ++ (bs "SupportProxy-" ++ session_ x) ++ [0])) as Hp.
    unfold sr_packet, sdes_packet, put32 in *. rewrite !length_app, !length_be_bytes in *. cbn [length] in *.
    rewrite ?length_app in Hp. change (length (bs "SupportProxy-")) with 13%nat in *. cbn [length] in *. lia.
Qed.

Lemma send_media_streams hist x t p :
  sane x -> 0 < len p <= RTP_PAYLOAD -> len p mod TS_PACKET_SIZE = 0 -> p = slice hist (read_pos_ x) (len p) ->
  0 <= read_pos_ x -> read_pos_ x + len p < 2 ^ 64 ->
  Streams hist x (send_media x t p) [Media t p].
Proof.
  intros Hs Hl Hm Hp H0 Hb. unfold send_media.
  destruct (owed_add x (interleaved (channel_ x) (rtp_packet x t p)) Hs) as [E1 E2].
  unfold Streams. cbn [item_frames item_payloads concat]. unfold frames_bytes. cbn [map concat fst snd].
  rewrite !app_nil_r. split_and!; try done.
  - etransitivity; [exact E1|]. unfold interleaved. by rewrite wrap_wrap.
  - cbn. apply wrap_small. lia.
  - by constructor.
  - constructor; [|constructor]. cbn [fst snd]. split; [apply wrap_range; lia|].
    unfold put32. rewrite !length_app, !length_be_bytes. cbn [length]. unfold RTP_PAYLOAD, TS_PACKET_SIZE in Hl. lia.
Qed.

(** A ring that shows a part of the stream. *)
Definition window (hist : bytes) (ring : VideoRing) : Prop := exists h, Shows h ring /\ h `prefix_of` hist.

Lemma window_read hist ring pos n :
  window hist ring -> 0 <= n -> 0 <= pos -> read_at ring pos n <> [] ->
  read_at ring pos n = slice hist pos (len (read_at ring pos n)) /\ pos + len (read_at ring pos n) <= len hist
  /\ len (read_at ring pos n) <= n.
Proof.
  intros (h & Hs & [t ->]) Hn Hp Hne. destruct (resident ring pos) eqn:Er.
  2: { destruct Hne. unfold read_at. by rewrite Er, orb_true_r. }
  apply andb_true_iff in Er as [H1%Z.leb_le H2%Z.leb_le].
  rewrite (sh_pos _ _ Hs) in H2. rewrite (read_window h ring pos n) by (done || lia).
  assert (El : len (slice h pos n) = Z.min n (len h - pos)) by (unfold slice; rewrite length_take, length_drop; lia).
  rewrite El, length_app. split; [|lia]. rewrite (slice_app_l h t) by lia.
  unfold slice. rewrite <-(Nat2Z.id (length (drop (Z.to_nat pos) h))) || idtac.
  destruct (Z.le_ge_cases n (len h - pos)); [by rewrite Z.min_l by lia|].
  rewrite Z.min_r by lia. rewrite !take_ge; [done|..]; rewrite length_drop; lia.
Qed.

Lemma whole_packets_spec n : 0 <= n -> 0 <= whole_packets n <= n /\ whole_packets n mod TS_PACKET_SIZE = 0
  /\ (n mod TS_PACKET_SIZE = 0 -> whole_packets n = n).
Proof.
  unfold whole_packets, TS_PACKET_SIZE. intros Hn. pose proof (Z.div_mod n 188 ltac:(lia)).
  pose proof (Z.mod_pos_bound n 188 ltac:(lia)). split_and!; [nia|nia|apply Z.mod_mul; lia|nia].
Qed.

Lemma pump_loop_streams hist fuel i x ring now budget mono wall :
  sane x -> len (session_ x) <= 16 -> 0 <= read_pos_ x -> window hist ring -> len hist < 2 ^ 64 ->
  let x' := (pump_loop fuel i x ring now budget mono wall).2 in
  exists items, Streams hist x x' items.
Proof.
  intros Hs Hl H0 Hw Hh. revert i x budget Hs Hl H0. induction fuel as [|fuel IH]; intros i x budget Hs Hl H0; cbn [pump_loop].
  { exists []. by apply Streams_nil. }
  destruct (Z.ltb_spec budget TS_PACKET_SIZE); [exists []; by apply Streams_nil|]. cbv zeta.
  set (want := whole_packets (Z.min budget RTP_PAYLOAD)). set (data := read_at ring _ want).
  destruct (Z.eqb_spec (whole_packets (len data)) 0) as [|Hgot]; [exists []; by apply Streams_nil|].
  destruct (whole_packets_spec (Z.min budget RTP_PAYLOAD)) as (Hwant & _ & _); [unfold RTP_PAYLOAD, TS_PACKET_SIZE in *; lia|].
  fold want in Hwant. destruct (whole_packets_spec (len data)) as (Hg1 & Hg2 & _); [lia|].
  destruct (window_read hist ring (read_pos_ x) want Hw) as (Hd & Hdl & Hdn); [lia|done|fold data; intros E; apply Hgot; by rewrite E|].
  fold data in Hd, Hdl, Hdn. set (got := whole_packets (len data)) in *.
  set (x1 := if (_ || _)%bool then _ else x).
  assert (H1 : exists items, Streams hist x x1 items /\ item_payloads items = []).
  { unfold x1. destruct (_ || _)%bool; [|exists []; split; [by apply Streams_nil|done]].
    destruct (sender_report_streams hist x (timestamp (mono i)) (wall i) Hs Hl) as (items & Hi & He).
    exists items. split; [|done]. exact Hi. }
  clearbody x1. destruct H1 as (is1 & H1 & He1).
  assert (Hp1 : sane x1 /\ read_pos_ x1 = read_pos_ x /\ session_ x1 = session_ x).
  { destruct H1 as (_ & ? & _ & _ & ? & _ & Hr & _). rewrite He1 in Hr. cbn in Hr. split_and!; [done|lia|done]. }
  destruct Hp1 as (Hs1 & Hp1 & Hl1).
  assert (Hlen : len (ztake got data) = got) by (rewrite length_ztake; lia).
  assert (H2 : Streams hist x1 (send_media x1 (timestamp (mono i)) (ztake got data)) [Media (timestamp (mono i)) (ztake got data)]).
  { apply send_media_streams; rewrite ?Hlen, ?Hp1; try done; try lia.
    rewrite Hd. unfold ztake, slice. rewrite take_take. f_equal. lia. }
  set (x2 := send_media _ _ _) in *. clearbody x2. pose proof H2 as (_ & Hs2 & _ & _ & Hl2 & _ & Hp2 & _).
  unfold flush. destruct (flush_loop_owed (S (length (results (sock x2)))) x2 now Hs2) as (Eo & Hs3 & Ep).
  destruct (flush_loop _ x2 now) as [ok x3]. cbn [snd] in *.
  assert (H3 : Streams hist x x3 (is1 ++ [Media (timestamp (mono i)) (ztake got data)])).
  { eapply Streams_app; [done|exact H1|].
    replace [Media (timestamp (mono i)) (ztake got data)] with ([Media (timestamp (mono i)) (ztake got data)] ++ [])
      by by rewrite app_nil_r.
    eapply Streams_app; [by rewrite Hp1|exact H2|]. by apply Streams_nil. }
  destruct ok; cbn [negb snd]; [|by eexists]. destruct (is_nil (out_ x3)); cbn [negb snd]; [|by eexists].
  injection Ep as Ep1 Ep2 Ep3 Ep4 Ep5.
  destruct (IH (S i) x3 (budget - got)) as [is2 H4]; [done|by rewrite Ep5, Hl2, Hl1|rewrite Ep4, Hp2; lia|].
  exists ((is1 ++ [Media (timestamp (mono i)) (ztake got data)]) ++ is2). by eapply Streams_app.
Qed.

Lemma on_writable_streams hist x ring now mono wall :
  sane x -> len (session_ x) <= 16 -> 0 <= read_pos_ x -> window hist ring -> len hist < 2 ^ 64 ->
  exists items, Streams hist x (on_writable x ring now mono wall).2 items.
Proof.
  intros Hs Hl H0 Hw Hh. unfold on_writable. destruct (timed_out x now); [exists []; by apply Streams_nil|].
  destruct (_ && _)%bool; [exists []; by apply Streams_nil|].
  unfold flush. destruct (flush_loop_owed (S (length (results (sock x)))) x now Hs) as (Eo & Hs1 & Ep).
  destruct (flush_loop _ x now) as [ok x1]. cbn [snd] in *.
  assert (Hn : Streams hist x x1 []) by by apply Streams_nil.
  destruct ok; cbn [negb snd]; [|by exists []]. destruct (is_nil _); cbn [negb snd]; [|by exists []].
  destruct (closing_ x1); [by exists []|]. destruct (_ <? now - control_ x1); [by exists []; exact Hn|].
  destruct (playing_ x1); cbn [negb snd]; [|by exists []].
  injection Ep as Ep1 Ep2 Ep3 Ep4 Ep5.
  destruct (pump_loop_streams hist pump_fuel 0 x1 ring now VIDEO_VIEWER_WRITE_CHUNK mono wall) as [items Hi];
    [done|by rewrite Ep5|by rewrite Ep4|done|done|].
  exists ([] ++ items). by eapply Streams_app.
Qed.

(** The socket becoming writable, again and again. *)
Fixpoint write_run x (calls : list (VideoRing * Z * (nat -> clock) * (nat -> clock))) : bool * RtspViewer :=
  match calls with
  | [] => (true, x)
  | (ring, now, mono, wall) :: calls =>
    let '(ok, x) := on_writable x ring now mono wall in if ok then write_run x calls else (false, x)
  end.

Lemma write_run_streams hist calls x :
  sane x -> len (session_ x) <= 16 -> 0 <= read_pos_ x -> len hist < 2 ^ 64 ->
  Forall (fun c => window hist c.1.1.1) calls ->
  exists items, Streams hist x (write_run x calls).2 items.
Proof.
  intros Hs Hl H0 Hh Hc. revert x Hs Hl H0. induction Hc as [|[[[ring now] mono] wall] calls Hw Hc IH]; intros x Hs Hl H0.
  { exists []. by apply Streams_nil. }
  cbn [write_run fst] in *. destruct (on_writable_streams hist x ring now mono wall Hs Hl H0 Hw Hh) as [is1 H1].
  destruct (on_writable x ring now mono wall) as [[] x1]; cbn [snd] in *; [|by exists is1].
  pose proof H1 as (_ & Hs1 & _ & _ & Hl1 & _ & Hp1 & _).
  destruct (IH x1) as [is2 H2]; [done|by rewrite Hl1|rewrite Hp1; lia|]. exists (is1 ++ is2). by eapply Streams_app.
Qed.

(** C38: What an RTSP viewer is sent while it plays is the stream.  However the stream grows
    between the calls, however little of the ring is kept, and whatever part of each write
    the socket takes: what the viewer has given the socket and still owes it reads as
    interleaved frames, each a sender report or one RTP packet of whole transport packets,
    the RTP packets numbered without a gap, and their payloads joined are exactly the
    stream's bytes from where the viewer was to where it is -- nothing skipped, repeated or
    out of place, and nothing that was never published. *)
Theorem rtsp_media_faithful hist calls x :
  (sent_ x <= length (out_ x))%nat -> len (session_ x) <= 16 -> 0 <= read_pos_ x -> len hist < 2 ^ 64 ->
  Forall (fun c => exists h, Shows h c.1.1.1 /\ h `prefix_of` hist) calls ->
  let x' := (write_run x calls).2 in
  exists items new,
    owed x' = owed x ++ new
    /\ read_frames (length items) new = Some (item_frames (channel_ x) (ssrc_ x) (seq_ x) items)
    /\ Forall (fun p => 0 < len p <= RTP_PAYLOAD /\ len p mod TS_PACKET_SIZE = 0) (item_payloads items)
    /\ concat (item_payloads items) = slice hist (read_pos_ x) (read_pos_ x' - read_pos_ x)
    /\ read_pos_ x <= read_pos_ x' /\ seq_ x' = next_seq (seq_ x) items.
Proof.
  intros Hs Hl H0 Hh Hc. cbv zeta.
  destruct (write_run_streams hist calls x Hs Hl H0 Hh Hc) as (items & O & _ & _ & _ & _ & Q & P & L & F & B).
  exists items, (frames_bytes (item_frames (channel_ x) (ssrc_ x) (seq_ x) items)).
  split_and!; [done| |done| |lia|done].
  - apply read_frames_bytes; [done|]. clear. generalize (seq_ x). induction items as [|[] items IH]; intros q; cbn; [lia|apply le_n_S, IH..].
  - rewrite P, Z.add_simpl_l. done.
Qed.

(** ** Loops end by themselves *)

Lemma flush_loop_fuel f1 f2 x now :
  (length (results (sock x)) < f1)%nat -> (length (results (sock x)) < f2)%nat -> flush_loop f1 x now = flush_loop f2 x now.
Proof.
  revert f2 x. induction f1 as [|f1 IH]; intros f2 x H1 H2; [lia|]. destruct f2 as [|f2]; [lia|]. cbn [flush_loop].
  destruct (_ <? _)%nat; [|done]. destruct (sock_send _ _) as [r k] eqn:Es.
  pose proof (sock_send_results _ _ _ _ Es) as [Hle Hlt].
  assert (Hk : r <> SndAgain -> (length (results k) < f1)%nat /\ (length (results k) < f2)%nat).
  { intros Hr. assert (results (sock x) <> []); [|specialize (Hlt ltac:(done)); lia].
    intros E. unfold sock_send in Es. rewrite E in Es. by injection Es as <- <-. }
  destruct r as [[|n]| | |]; try done; apply IH; cbn; by apply Hk.
Qed.

Lemma pump_loop_fuel f1 f2 i x ring now budget mono wall :
  budget < TS_PACKET_SIZE * Z.of_nat f1 -> budget < TS_PACKET_SIZE * Z.of_nat f2 ->
  pump_loop f1 i x ring now budget mono wall = pump_loop f2 i x ring now budget mono wall.
Proof.
  revert f2 i x budget. induction f1 as [|f1 IH]; intros f2 i x budget H1 H2.
  - destruct f2 as [|f2]; [done|]. cbn [pump_loop]. by rewrite (proj2 (Z.ltb_lt _ _)) by (unfold TS_PACKET_SIZE in *; lia).
  - destruct f2 as [|f2].
    { cbn [pump_loop]. by rewrite (proj2 (Z.ltb_lt _ _)) by (unfold TS_PACKET_SIZE in *; lia). }
    cbn [pump_loop]. destruct (_ <? _); [done|]. cbv zeta.
    destruct (Z.eqb_spec (whole_packets (len (read_at ring (read_pos_ x) (whole_packets (Z.min budget RTP_PAYLOAD))))) 0) as [|Hg]; [done|].
    destruct (flush _ _) as [ok x3]. destruct ok; [|done]. cbn [negb]. destruct (negb _); [done|]. cbn [negb].
    destruct (whole_packets_spec (len (read_at ring (read_pos_ x) (whole_packets (Z.min budget RTP_PAYLOAD))))) as (Hw & Hm & _); [lia|].
    apply Z.mod_divide in Hm as [q Hq]; [|done]. unfold TS_PACKET_SIZE in *.
    apply IH; nia.
Qed.

(** The fuel given is enough: the budget itself ends the pump. *)
Lemma pump_fuel_enough f x ring now mono wall :
  (pump_fuel <= f)%nat ->
  pump_loop f 0 x ring now VIDEO_VIEWER_WRITE_CHUNK mono wall = pump_loop pump_fuel 0 x ring now VIDEO_VIEWER_WRITE_CHUNK mono wall.
Proof.
  intros Hf. assert (Hp : Z.of_nat pump_fuel = 349) by done.
  apply pump_loop_fuel; unfold VIDEO_VIEWER_WRITE_CHUNK, TS_PACKET_SIZE; lia.
Qed.

Lemma rtcp_loop_fuel f1 f2 p :
  bytes_ok p -> (length p <= f1)%nat -> (length p <= f2)%nat -> rtcp_loop f1 p = rtcp_loop f2 p.
Proof.
  revert f2 p. induction f1 as [|f1 IH]; intros f2 p Hb H1 H2; [destruct p; [by destruct f2|cbn in H1; lia]|].
  destruct p as [|b p]; [by destruct f2|]. destruct f2 as [|f2]; [cbn in H2; lia|]. cbn [rtcp_loop].
  destruct (_ || _)%bool; [done|]. set (n := _ * 4 + 4).
  assert (Hn : 4 <= n).
  { assert (0 <= Z.lor (Z.shiftl (byte_at (b :: p) 2) 8) (byte_at (b :: p) 3)); [|lia].
    apply Z.lor_nonneg. split; [apply Z.shiftl_nonneg|]; by apply byte_at_ok. }
  destruct (_ <? n); [done|]. destruct (_ && _)%bool; [done|]. destruct (_ && _)%bool; [done|].
  apply IH; [by apply bytes_ok_drop|..]; unfold zdrop; rewrite length_drop; cbn in *; lia.
Qed.

Section input.
Variable sha256 : bytes -> bytes.
Variable hmac : bytes -> bytes -> bytes.
Variable b64_read : bytes -> bytes.

Lemma request_input x head ke slot ring scanner now :
  input_ (request sha256 hmac b64_read x head ke slot ring scanner now).2 = input_ x.
Proof.
  unfold request. destruct (HttpReq.feed http_init head) as [v req].
  destruct (Z.eq_dec v 1) as [->|Hv]; [|by destruct v as [|[]|]].
  destruct (well_formed head req); cbn [negb]; [|done]. case_bool_decide; [done|].
  destruct (serves slot req); cbn [negb]; [|done]. destruct (_ || _)%bool; [|done].
  cbn [snd]. etransitivity; [apply (proj2 (proj2 (serve_keeps _ _ _ _ _ _ _)))|done].
Qed.

Lemma input_step_shrinks x c ke slot ring scanner now x' :
  input_ x <> [] -> bytes_ok (input_ x) ->
  (if c =? 36 then take_rtcp x now else take_request sha256 hmac b64_read x ke slot ring scanner now) = (InputDone, x') ->
  (exists n, (4 <= n)%nat /\ input_ x' = drop n (input_ x)) /\ bytes_ok (input_ x').
Proof.
  intros Hne Hb. assert (Hd : forall n, bytes_ok (drop n (input_ x))) by (intros; by apply bytes_ok_drop).
  destruct (c =? 36).
  - unfold take_rtcp. destruct (_ <? 4)%nat; [done|]. cbv zeta. destruct (_ || _)%bool; [done|].
    destruct (_ <? _); [done|]. destruct (negb _); [done|]. intros [= <-]. cbn. split; [|done].
    eexists. split; [|done].
    assert (0 <= Z.lor (Z.shiftl (byte_at (input_ x) 2) 8) (byte_at (input_ x) 3)); [|lia].
    apply Z.lor_nonneg. split; [apply Z.shiftl_nonneg|]; apply byte_at_ok; done.
  - unfold take_request. destruct (find_sub CRLF2 (input_ x)) as [e|]; [|done]. cbv zeta.
    destruct (HttpReq.feed http_init _) as [v req]. destruct (Z.eq_dec v 1) as [->|Hv]; [|by destruct v as [|[]|]].
    destruct (body_length req) as [n|] eqn:En; [|done]. destruct (REQUEST_LIMIT <? _); [done|]. destruct (_ <? _); [done|].
    pose proof (request_input x (take (e + 4) (input_ x)) ke slot ring scanner now) as Hr.
    destruct (request _ _ _ x _ _ _ _ _ _) as [ok x1]. cbn [snd] in Hr. destruct ok; cbn [negb]; [|done].
    destruct (_ <? len _); [done|]. intros [= Ec <-]. cbn. rewrite Hr. split; [|done].
    eexists. split; [|done].
    assert (0 <= n); [|lia]. unfold body_length in En. destruct (_ || _)%bool; [done|]. destruct (_ =? 0); [by injection En as <-|].
    unfold decimal in En. destruct (header _ _) as [|c0 s]; [done|].
    assert (Hdec : forall s v m n, 0 <= v -> decimal_in v m s = Some n -> 0 <= n).
    { clear. induction s as [|c s IH]; intros v m n Hv; cbn; [by intros [= <-]|].
      destruct (Z.ltb_spec c 48); cbn [orb]; [done|]. destruct (_ || _)%bool; [done|].
      destruct (m <? v * 10 + c - 48); [done|]. apply IH. lia. }
    by apply Hdec in En.
Qed.

Lemma input_loop_fuel f1 f2 x ke slot ring scanner now :
  bytes_ok (input_ x) -> (length (input_ x) <= f1)%nat -> (length (input_ x) <= f2)%nat ->
  input_loop sha256 hmac b64_read f1 x ke slot ring scanner now = input_loop sha256 hmac b64_read f2 x ke slot ring scanner now.
Proof.
  revert f2 x. induction f1 as [|f1 IH]; intros f2 x Hb H1 H2; cbn [input_loop].
  { destruct (input_ x) eqn:E; [|cbn in H1; lia]. destruct f2; cbn [input_loop]; by rewrite E. }
  destruct f2 as [|f2]; cbn [input_loop]; [destruct (input_ x) eqn:E; [done|cbn in H2; lia]|].
  destruct (input_ x) as [|c inp] eqn:E; [done|].
  destruct (if c =? 36 then _ else _) as [[] x'] eqn:Es; [done|done|].
  apply input_step_shrinks in Es as [(n & Hn & En) Hb']; [|by rewrite E|by rewrite E].
  apply IH; [done|..]; rewrite En, E, length_drop; cbn in *; lia.
Qed.

(** What a client can make the viewer hold: the unread input never passes the limit. *)
Lemma input_loop_short fuel x ke slot ring scanner now :
  (length (input_ (input_loop sha256 hmac b64_read fuel x ke slot ring scanner now).2) <= length (input_ x))%nat.
Proof.
  revert x. induction fuel as [|fuel IH]; intros x; cbn [input_loop].
  { destruct (input_ x) eqn:E; cbn [snd]; by rewrite E. }
  destruct (input_ x) as [|c inp] eqn:E; [cbn [snd]; by rewrite E|].
  assert (Hs : (length (input_ (if (c =? 36)%Z then take_rtcp x now else take_request sha256 hmac b64_read x ke slot ring scanner now).2)
    <= length (input_ x))%nat).
  { destruct (c =? 36).
    - unfold take_rtcp. destruct (_ <? 4)%nat; [done|]. cbv zeta. destruct (_ || _)%bool; [done|].
      destruct (_ <? _); [done|]. destruct (negb _); [done|]. cbn. rewrite length_drop. lia.
    - unfold take_request. destruct (find_sub CRLF2 (input_ x)) as [e|]; [|done]. cbv zeta.
      destruct (HttpReq.feed http_init _) as [v req]. destruct (Z.eq_dec v 1) as [->|Hv]; [|by destruct v as [|[]|]].
      destruct (body_length req) as [n|] eqn:En; [|done]. destruct (REQUEST_LIMIT <? _); [done|]. destruct (_ <? _); [done|].
      pose proof (request_input x (take (e + 4) (input_ x)) ke slot ring scanner now) as Hr.
      destruct (request _ _ _ x _ _ _ _ _ _) as [ok x1]. cbn [snd] in Hr. destruct ok; cbn [negb snd]; [|by rewrite Hr].
      destruct (_ <? len _); cbn; rewrite Hr, length_drop; lia. }
  rewrite <-E. destruct (if c =? 36 then _ else _) as [[] x'] eqn:Es; cbn [snd] in *; [done|done|].
  etransitivity; [apply IH|done].
Qed.

Lemma on_readable_bounded x r ke slot ring scanner now :
  len (input_ x) <= REQUEST_LIMIT ->
  let '(ok, x') := on_readable sha256 hmac b64_read x r ke slot ring scanner now in
  ok = true -> len (input_ x') <= REQUEST_LIMIT.
Proof.
  intros Hl. unfold on_readable. destruct (_ && _)%bool; [done|]. destruct (timed_out x now); [done|].
  destruct r as [b| | |]; try done. set (x1 := x <| input_ := input_ x ++ take RTSP_READ b |>). destruct (closing_ x); [done|].
  destruct (Z.ltb_spec REQUEST_LIMIT (len (input_ x1))); [done|].
  pose proof (input_loop_short (length (input_ x1)) x1 ke slot ring scanner now).
  destruct (input_loop _ _ _ _ x1 _ _ _ _ _) as [ok x']. cbn [snd] in *. lia.
Qed.
End input.

(** ** A viewer of a small stream *)

Definition demo_stream : bytes := concat (replicate 3 (71 :: map u8 (seqZ 0 187))).
Definition demo_ring : VideoRing := ring_write (ring_init 0) demo_stream.
Definition demo_requests : bytes :=
  bs "OPTIONS rtsp://h/view/v1 RTSP/1.0" ++ crlf ++ bs "CSeq: 1" ++ crlf ++ crlf
  ++ bs "DESCRIBE rtsp://h/view/v1?pw=x RTSP/1.0" ++ crlf ++ bs "CSeq: 2" ++ crlf ++ crlf.
(** Viewing takes the password "x"; a viewer without it is refused. *)
Definition demo_view_entry : KeyEntry := demo_entry [] <| video_viewer_key := demo_hash (bs "x") |>.
Definition demo_view_ops : list rv_op :=
  [RvRead (RcvData (take 50 demo_requests)) demo_view_entry 0 demo_ring VideoMkv.reset 7;
   RvRead (RcvData (drop 50 demo_requests)) demo_view_entry 0 demo_ring VideoMkv.reset 8].
Definition demo_random : bytes := [1; 2; 3; 4; 5; 6; 7; 8; 9; 0; 0; 0; 254; 255].

Lemma rtsp_view_authorised_witness :
  authorised_ (rv_run demo_hash demo_hmac id (rtsp_new (Build_Sock [] []) 14550 7 (Some demo_random)) demo_view_ops).2 = true
  /\ earned demo_hash demo_hmac id 14550 demo_view_ops.
Proof.
  assert (Ha : authorised_ (rv_run demo_hash demo_hmac id
    (rtsp_new (Build_Sock [] []) 14550 7 (Some demo_random)) demo_view_ops).2 = true) by (vm_compute; reflexivity).
  split; [exact Ha|].
  destruct (rtsp_view_authorised demo_hash demo_hmac id (Build_Sock [] []) 14550 7 (Some demo_random) demo_view_ops)
    as [He|(Hn & _)]; [exact He|]. congruence.
Defined.

(** Playing, with a socket that takes a little at a time. *)
Definition demo_viewer : RtspViewer :=
  (rtsp_new (Build_Sock [SndTook 30; SndIntr; SndTook 700; SndAgain; SndTook 2000] []) 14550 7 (Some demo_random))
    <| authorised_ := true |> <| setup_ := true |> <| playing_ := true |> <| played_ := true |>.
Definition demo_clock (i : nat) : clock := (1000 + Z.of_nat i, 0).
Definition demo_calls : list (VideoRing * Z * (nat -> clock) * (nat -> clock)) :=
  [(demo_ring, 8, demo_clock, demo_clock); (demo_ring, 9, demo_clock, demo_clock)].

Lemma rtsp_media_faithful_witness :
  exists items new, owed (write_run demo_viewer demo_calls).2 = owed demo_viewer ++ new
  /\ read_frames (length items) new = Some (item_frames 0 9 65534 items) /\ concat (item_payloads items) = demo_stream.
Proof.
  assert (Hw : Forall (fun c => exists h, Shows h c.1.1.1 /\ h `prefix_of` demo_stream) demo_calls).
  { assert (Hd : Shows demo_stream demo_ring).
    { change demo_stream with ([] ++ demo_stream) at 1. apply Shows_write; [apply Shows_init|by vm_compute]. }
    repeat (constructor; [by exists demo_stream|]). constructor. }
  destruct (rtsp_media_faithful demo_stream demo_calls demo_viewer) as (items & new & Ho & Hr & _ & Hp & _ & _);
    [cbn; lia|by vm_compute|done|by vm_compute|exact Hw|].
  exists items, new. split; [exact Ho|]. split; [exact Hr|]. rewrite Hp.
  replace (read_pos_ (write_run demo_viewer demo_calls).2) with 564 by (vm_compute; reflexivity).
  vm_compute. reflexivity.
Defined.
