(* ===== verification/VideoView.v ===== *)
(** * Video viewers (videoview.cpp, videoview.h)

    One connection to a slot's port: classification of what it is, admission, and the pump
    that hands it the ring.  A plain viewer's socket is [Socket]'s; a WebSocket viewer is
    driven through [WebSocket], an RTSP one through [RtspView].  What the kernel holds for
    reading is an argument of each call. *)

From S2P Require Import Prelude CStr KeyDb VideoAuth HttpReq WebSocket VideoTs VideoStream VideoMkv Socket.
From S2P Require Import RtspView.

Definition VIDEO_DETECT_SILENCE_S : Z := 2.
Definition VIDEO_SLOT_RAW_TCP : Z := Z.shiftl 1 2.

Inductive viewer_state := VV_DETECT | VV_RESPONDING | VV_STREAMING | VV_CLOSING.
Inductive viewer_kind :=
| VVK_UNKNOWN | VVK_HTTP | VVK_RAW | VVK_WS | VVK_RTSP | VVK_MKV | VVK_RTMP | VVK_RTSP_VIEW.

#[export] Instance viewer_state_eq_dec : EqDecision viewer_state.
Proof. solve_decision. Defined.
#[export] Instance viewer_kind_eq_dec : EqDecision viewer_kind.
Proof. solve_decision. Defined.

Record VideoViewer := {
  fd_open : bool;                (* fd_ >= 0 *)
  sock : Sock;
  port2_ : Z;
  state_ : viewer_state;
  kind_ : viewer_kind;
  holding_bytes_ : bool;
  peer_ip_be_ : Z;
  peer_port_be_ : Z;
  connected_at_ : Z;
  last_progress_ : Z;
  behind_since_ : Z;
  req_ : HttpRequest;
  prefix_ : bytes;
  prefix_sent_ : nat;
  out_ : bytes;
  out_sent_ : nat;
  read_pos_ : Z;
  streaming_ : bool;
  bytes_sent_ : Z;
  blocked_ : bool;
  ws_ : option WebSocket;
  rtsp_view_ : option RtspViewer;
  ws_ready_ : bool;
  drop_reason_ : bytes
}.

#[export] Instance eta_VideoViewer : Eta VideoViewer := fun v =>
  Build_VideoViewer (fd_open v) (sock v) (port2_ v) (state_ v) (kind_ v) (holding_bytes_ v) (peer_ip_be_ v)
    (peer_port_be_ v) (connected_at_ v) (last_progress_ v) (behind_since_ v) (req_ v) (prefix_ v)
    (prefix_sent_ v) (out_ v) (out_sent_ v) (read_pos_ v) (streaming_ v) (bytes_sent_ v) (blocked_ v) (ws_ v)
    (rtsp_view_ v) (ws_ready_ v) (drop_reason_ v).

Implicit Types v : VideoViewer.

(** The initialisers. *)
Definition viewer_new : VideoViewer := {|
  fd_open := false; sock := Build_Sock [] []; port2_ := 0; state_ := VV_DETECT; kind_ := VVK_UNKNOWN;
  holding_bytes_ := false; peer_ip_be_ := 0; peer_port_be_ := 0; connected_at_ := 0; last_progress_ := 0;
  behind_since_ := 0; req_ := http_init; prefix_ := []; prefix_sent_ := O; out_ := []; out_sent_ := O;
  read_pos_ := 0; streaming_ := false; bytes_sent_ := 0; blocked_ := false; ws_ := None; rtsp_view_ := None;
  ws_ready_ := false; drop_reason_ := []
|}.

Definition active v : bool := fd_open v.

(** [k]: the accepted socket. *)
Definition start v (k : Sock) (port2 peer_ip_be peer_port_be now : Z) : VideoViewer :=
  v <| fd_open := true |> <| sock := k |> <| port2_ := port2 |> <| state_ := VV_DETECT |> <| kind_ := VVK_UNKNOWN |>
    <| peer_ip_be_ := peer_ip_be |> <| peer_port_be_ := peer_port_be |> <| connected_at_ := now |>
    <| last_progress_ := now |> <| behind_since_ := 0 |> <| out_ := ([] : bytes) |> <| prefix_ := ([] : bytes) |>
    <| prefix_sent_ := O |> <| out_sent_ := O |> <| read_pos_ := 0 |> <| streaming_ := false |>
    <| bytes_sent_ := 0 |> <| blocked_ := false |> <| ws_ := (None : option WebSocket) |> <| ws_ready_ := false |>
    <| drop_reason_ := ([] : bytes) |>.

Definition close v : VideoViewer :=
  v <| rtsp_view_ := (None : option RtspViewer) |> <| ws_ := (None : option WebSocket) |> <| fd_open := false |>
    <| state_ := VV_CLOSING |>.

(** Giving up the socket to the publisher's splice. *)
Definition release_fd v : VideoViewer := v <| fd_open := false |> <| state_ := VV_CLOSING |>.

Definition set_drop_reason v (why : bytes) : VideoViewer := v <| drop_reason_ := why |>.

Definition bytes_sent v : Z :=
  match rtsp_view_ v with Some x => RtspView.bytes_sent_ x | None => bytes_sent_ v end.
Definition drop_reason v : bytes :=
  match drop_reason_ v, rtsp_view_ v with
  | [], Some x => RtspView.reason_ x
  | why, _ => why
  end.

(** ** Responses and the start of the stream *)

Definition fail v (code : Z) (reason text : bytes) : VideoViewer :=
  (if bool_decide (kind_ v = VVK_HTTP)
   then v <| out_ := http_simple_response code reason (bs "text/plain") (text ++ [10]) |> else v)
    <| drop_reason_ := reason |> <| out_sent_ := O |> <| state_ := VV_RESPONDING |> <| streaming_ := false |>.

Definition crlf : bytes := [13; 10].

Definition stream_header (mkv : bool) : bytes :=
  bs "HTTP/1.1 200 OK" ++ crlf ++ bs "Content-Type: " ++ (if mkv then bs "video/x-matroska" else bs "video/mp2t") ++ crlf
  ++ bs "Cache-Control: no-store" ++ crlf ++ bs "Connection: close" ++ crlf ++ crlf.

(** From the join point on; the Matroska header goes first. *)
Definition join v (scanner : VideoScanner) (anchor now : Z) : VideoViewer :=
  v <| prefix_ := prefix scanner |> <| prefix_sent_ := O |> <| read_pos_ := anchor |> <| streaming_ := true |>
    <| last_progress_ := now |>.

Definition not_buffered v : VideoViewer :=
  fail v 503 (bs "stream not ready") (bs "Join point is no longer buffered.").

Definition begin_stream v (ring : VideoRing) (scanner : VideoScanner) (http : bool) (now : Z) : VideoViewer :=
  match VideoMkv.join_offset scanner with
  | None => fail v 503 (bs "stream not ready")
      (bs "No decodable start point yet. The publisher has not sent a keyframe with program information.")
  | Some anchor =>
    if negb (resident ring anchor) then not_buffered v
    else
      let v := (join v scanner anchor now) <| behind_since_ := 0 |> in
      if http then v <| out_ := stream_header (matroska scanner) |> <| out_sent_ := O |> <| state_ := VV_RESPONDING |>
      else v <| out_ := ([] : bytes) |> <| out_sent_ := O |> <| state_ := VV_STREAMING |>
  end.

(** ** Classification *)

Definition rtsp_methods : list bytes :=
  [bs "OPTIONS "; bs "ANNOUNCE "; bs "DESCRIBE "; bs "SETUP "; bs "PLAY "; bs "RECORD "; bs "PAUSE "; bs "TEARDOWN ";
   bs "GET_PARAMETER "; bs "SET_PARAMETER "].
Definition tls_hello : bytes := [0x16; 0x03; 0x01].
Definition PEEK : nat := Z.to_nat 2048.

Section viewers.
Variable sha256 : bytes -> bytes.
Variable hmac : bytes -> bytes -> bytes.
Variable b64_read sha1 base64_encode : bytes -> bytes.

(** [time(nullptr)] is [clk]. *)
Definition ws_authorise v (ke : KeyEntry) (slot clk : Z) (req : HttpRequest) : bool :=
  let tok := query req (bs "t") in
  if negb (is_nil tok) && video_token_valid hmac ke (port2_ v) slot (Some (c_string tok)) clk then true
  else
    let pw := query req (bs "pw") in
    let pw := match pw with [] => http_basic_password b64_read (header req (bs "Authorization")) | _ => pw end in
    video_viewer_authorised sha256 ke pw.

(** What a call of [on_readable] meets: what the socket holds, the WebSocket's read, the
    bytes for an RTSP session, and the wall clock. *)
Record ReadEnv := {
  avail : rcv_res;
  ws_acc : acc_out;
  ws_read : rd_out;
  rtsp_random : option bytes;
  wall_clock : Z
}.

Definition rtsp_readable v (rv : RtspViewer) (env : ReadEnv) (ke : KeyEntry) (slot : Z) (ring : VideoRing)
    (scanner : VideoScanner) (now : Z) : bool * VideoViewer :=
  let '(ok, rv) := RtspView.on_readable sha256 hmac b64_read rv (avail env) ke slot ring scanner now in
  (ok, v <| rtsp_view_ := Some rv |>).

Definition set_kind v (kind : viewer_kind) : VideoViewer := v <| kind_ := kind |>.
Definition hold v : VideoViewer := v <| holding_bytes_ := true |>.

(** The target of an RTSP request line whose method (blank included) is [n] bytes long. *)
Definition request_target (n : nat) (line : bytes) : option bytes :=
  match find_byte 32 (drop n line) with
  | None => None
  | Some sp => Some (take sp (drop n line))
  end.

(** A request that starts with an RTSP method. *)
Definition classify_rtsp v (m buf : bytes) (env : ReadEnv) (ke : KeyEntry) (slot : Z) (ring : VideoRing)
    (scanner : VideoScanner) (now : Z) : bool * VideoViewer :=
  match find_byte 10 buf with
  | None =>
    if (length buf =? PEEK)%nat then (false, set_drop_reason v (bs "RTSP request line too long"))
    else (true, hold v)
  | Some _ =>
    match request_target (length m) buf with
    | Some target =>
      if playback_target target then
        let v := v <| kind_ := VVK_RTSP_VIEW |> <| state_ := VV_STREAMING |> in
        rtsp_readable v (rtsp_new (sock v) (port2_ v) now (rtsp_random env)) env ke slot ring scanner now
      else (true, set_kind v VVK_RTSP)
    | None => (true, set_kind v VVK_RTSP)
    end
  end.

Definition viewer_path (slot : Z) (mkv : bool) : bytes :=
  bs "/v" ++ print_dec (slot + 1) ++ bs "." ++ (if mkv then bs "mkv" else bs "ts").

(** A plain HTTP request, complete and consumed. *)
Definition serve_http v (req : HttpRequest) (ke : KeyEntry) (slot clk : Z) (ring : VideoRing) (scanner : VideoScanner)
    (now : Z) : VideoViewer :=
  let v := v <| req_ := req |> in
  if negb (bool_decide (method_ req = bs "GET"))
  then fail v 405 (bs "method not allowed") (bs "Only GET is served here.")
  else if negb (bool_decide (path_ req ∈ [viewer_path slot (matroska scanner); [47]; bs "/stream.ts"]))
  then fail v 404 (bs "not found") (bs "Try /v1.ts on this port.")
  else if negb (ws_authorise v ke slot clk req)
  then fail v 401 (bs "unauthorized") (bs "A viewer password is required.")
  else begin_stream v ring scanner true now.

Definition classify_http v (buf : bytes) (ke : KeyEntry) (slot clk : Z) (ring : VideoRing) (scanner : VideoScanner)
    (now : Z) : VideoViewer :=
  let v := set_kind v VVK_HTTP in
  match HttpReq.feed http_init buf with
  | (1, peek) =>
    if bool_decide (method_ peek = bs "PUT") then set_kind v VVK_MKV
    else
      let upgrade := header peek (bs "Upgrade") in
      if negb (is_nil upgrade) && bool_decide (find_sub (bs "ebsocket") upgrade <> None)
      then if negb (ws_authorise v ke slot clk peek)
           then fail v 401 (bs "unauthorized") (bs "A viewer token or password is required.")
           else set_kind v VVK_WS
      else serve_http v peek ke slot clk ring scanner now
  | (0, _) => hold v
  | _ => fail v 400 (bs "bad request") (bs "Malformed request.")
  end.

(** The bytes peeked at on a connection not yet known. *)
Definition classify v (buf : bytes) (env : ReadEnv) (ke : KeyEntry) (slot : Z) (ring : VideoRing)
    (scanner : VideoScanner) (now : Z) : bool * VideoViewer :=
  match List.find (fun m => starts_with m buf) rtsp_methods with
  | Some m => classify_rtsp v m buf env ke slot ring scanner now
  | None =>
    if byte_at buf 0 =? 0x03 then (true, set_kind v VVK_RTMP)
    else if starts_with tls_hello buf then (true, set_kind v VVK_WS)
    else (true, classify_http v buf ke slot (wall_clock env) ring scanner now)
  end.

Definition drain_ws v (w : WebSocket) (env : ReadEnv) : bool * VideoViewer :=
  let '(got, _, w) := WebSocket.recv sha1 base64_encode w PEEK (ws_acc env) (ws_read env) in
  let v := v <| ws_ := Some w |> in
  if got <? 0 then (false, set_drop_reason v (bs "websocket closed")) else (true, v).

(** False to drop the viewer. *)
Definition on_readable v (env : ReadEnv) (ke : KeyEntry) (slot : Z) (ring : VideoRing) (scanner : VideoScanner)
    (now : Z) : bool * VideoViewer :=
  match rtsp_view_ v with
  | Some x => rtsp_readable v x env ke slot ring scanner now
  | None =>
    if negb (bool_decide (state_ v = VV_DETECT)) then
      match bool_decide (kind_ v = VVK_WS), ws_ v with
      | true, Some w => drain_ws v w env
      | _, _ => match avail env with
                | RcvEof => (false, set_drop_reason v (bs "peer closed"))
                | _ => (true, v)
                end
      end
    else if bool_decide (kind_ v = VVK_WS) then (true, v)
    else
      let v := v <| holding_bytes_ := false |> in
      match avail env with
      | RcvEof => (false, set_drop_reason v (bs "peer closed"))
      | RcvAgain => (true, v)
      | RcvErr => (false, set_drop_reason v (bs "read error"))
      | RcvData b => classify v (take PEEK b) env ke slot ring scanner now
      end
  end.

(** The detect deadline: silence is a raw client, where the slot allows them. *)
Definition detect_timeout v (ke : KeyEntry) (slot : Z) (ring : VideoRing) (scanner : VideoScanner) (now : Z)
  : bool * VideoViewer :=
  if negb (bool_decide (state_ v = VV_DETECT)) then (true, v)
  else
    let v := set_kind v VVK_RAW in
    if Z.land (video_slot_opts_of ke slot) VIDEO_SLOT_RAW_TCP =? 0
    then (false, set_drop_reason v (bs "raw-TCP viewers not enabled on this slot"))
    else if key_set (video_viewer_key ke)
    then (false, set_drop_reason v (bs "raw TCP cannot carry the viewer password"))
    else (true, begin_stream v ring scanner false now).

(** ** WebSocket viewers *)

(** What [begin_ws] meets: for the constructor, the first bytes of the connection, its
    handshake and read, and the socket's coming writes; and the read it makes itself. *)
Record WsEnv := {
  first_bytes : bytes;
  new_certs : bool;
  new_acc : acc_out;
  new_read : rd_out;
  new_outs : list wr_out;
  pump_acc : acc_out;
  pump_read : rd_out
}.

Definition SINK : nat := Z.to_nat 512.

Definition begin_ws_stream v (ring : VideoRing) (scanner : VideoScanner) (now : Z) : VideoViewer :=
  match VideoMkv.join_offset scanner with
  | None => v
  | Some anchor =>
    if negb (resident ring anchor) then not_buffered v
    else (join v scanner anchor now) <| state_ := VV_STREAMING |>
  end.

Definition begin_ws v (env : WsEnv) (ring : VideoRing) (scanner : VideoScanner) (now : Z) : bool * VideoViewer :=
  let w := match ws_ v with
           | Some w => w
           | None => ws_new sha1 base64_encode WS_DEFAULT_MAX_MESSAGE (first_bytes env) (new_certs env) (new_acc env) (new_read env)
                       (new_outs env)
           end in
  let v := v <| ws_ := Some w |> in
  if ws_ready_ v then (true, begin_ws_stream v ring scanner now)
  else
    let '(r, _, w) := WebSocket.recv sha1 base64_encode w SINK (pump_acc env) (pump_read env) in
    let v := v <| ws_ := Some w |> in
    if r <? 0 then (false, set_drop_reason v (bs "websocket handshake failed"))
    else if is_nil (req_target w) then (true, v)
    else (true, begin_ws_stream (v <| ws_ready_ := true |>) ring scanner now).
End viewers.

(** ** The pump *)

(** What [errno] says after a WebSocket's [send] has failed: it need not be about that. *)
Inductive errno_t := ErrAgain | ErrIntr | ErrOther.

Inductive push_res := Pushed (n : nat) | PushAgain | PushIntr | PushErr.

(** Bytes handed to the WebSocket, or to the socket. *)
Definition push v (err : errno_t) (b : bytes) : push_res * VideoViewer :=
  match ws_ v with
  | Some w =>
    let '(n, w) := WebSocket.send w b in
    (if n <? 0 then match err with ErrAgain => PushAgain | ErrIntr => PushIntr | ErrOther => PushErr end
     else Pushed (Z.to_nat n), v <| ws_ := Some w |>)
  | None =>
    let '(r, k) := sock_send (sock v) b in
    (match r with
     | SndTook n => Pushed n | SndAgain => PushAgain | SndIntr => PushIntr | SndErr => PushErr
     end, v <| sock := k |>)
  end.

Definition is_ws v : bool := match ws_ v with Some _ => true | None => false end.

Definition block v : VideoViewer := v <| blocked_ := true |>.
Definition flushed v : VideoViewer := v <| out_ := ([] : bytes) |> <| out_sent_ := O |> <| blocked_ := false |>.
Definition flush_took v (k : Sock) (n : nat) (now : Z) : VideoViewer :=
  v <| sock := k |> <| out_sent_ := (out_sent_ v + n)%nat |> <| last_progress_ := now |>.

(** One turn per result of the socket, and one that finds it full. *)
Fixpoint flush_loop (fuel : nat) v (now : Z) : bool * VideoViewer :=
  if (out_sent_ v <? length (out_ v))%nat then
    match fuel with
    | O => (true, v)
    | S fuel =>
      let '(r, k) := sock_send (sock v) (drop (out_sent_ v) (out_ v)) in
      match r with
      | SndAgain => (true, block (v <| sock := k |>))
      | SndIntr => flush_loop fuel (v <| sock := k |>) now
      | SndErr => (false, set_drop_reason (v <| sock := k |>) (bs "write error"))
      | SndTook n => flush_loop fuel (flush_took v k n now) now
      end
    end
  else (true, flushed v).
Definition flush v (now : Z) : bool * VideoViewer := flush_loop (S (length (results (sock v)))) v now.

(** What a call ends in; [Hung] when it never returns: a WebSocket that has failed while
    [errno] still says EINTR is retried for ever. *)
Inductive pump_res := Keep v | Drop v | Hung.

(** The loops' own outcome: go on with the next step, or the call's result. *)
Inductive step_res := Next v | Done (r : pump_res).

Definition prefix_took v (n : nat) (now : Z) : VideoViewer :=
  v <| prefix_sent_ := (prefix_sent_ v + n)%nat |> <| last_progress_ := now |>.

Definition prefix_blocked v (now : Z) : step_res :=
  Done (if now - last_progress_ v <=? VIDEO_VIEWER_STUCK_S then Keep (block v) else Drop (block v)).

Definition CHUNK : Z := 16384.

(** The codec header. *)
Fixpoint prefix_loop (fuel : nat) v (err : errno_t) (now : Z) : step_res :=
  if (prefix_sent_ v <? length (prefix_ v))%nat then
    match fuel with
    | O => Next v
    | S fuel =>
      let '(r, v) := push v err (ztake CHUNK (drop (prefix_sent_ v) (prefix_ v))) in
      match r with
      | PushIntr => if is_ws v then Done Hung else prefix_loop fuel v err now
      | PushAgain => prefix_blocked v now
      | PushErr => Done (Drop v)
      | Pushed O => if is_ws v then prefix_blocked v now else Done (Drop v)
      | Pushed n => prefix_loop fuel (prefix_took v n now) err now
      end
    end
  else Next v.

Definition ring_took v (n : nat) (now : Z) : VideoViewer :=
  v <| read_pos_ := u64 (read_pos_ v + Z.of_nat n) |> <| bytes_sent_ := u64 (bytes_sent_ v + Z.of_nat n) |>
    <| last_progress_ := now |>.
Definition unblock v : VideoViewer := v <| blocked_ := false |>.

(** The stream, up to the budget. *)
Fixpoint ring_loop (fuel : nat) v (ring : VideoRing) (err : errno_t) (now budget : Z) : step_res :=
  if (0 <? budget) && (read_pos_ v <? write_pos_ ring) then
    match fuel with
    | O => Next v
    | S fuel =>
      let data := read_at ring (read_pos_ v) (if budget <? CHUNK then budget else CHUNK) in
      if len data =? 0 then Next v
      else
        let '(r, v) := push v err data in
        match r with
        | PushAgain => Next (block v)
        | PushIntr => if is_ws v then Done Hung else ring_loop fuel v ring err now budget
        | PushErr => Done (Drop (set_drop_reason v (bs "write error")))
        | Pushed n =>
          if (n =? 0)%nat && is_ws v then Next (block v)
          else
            let v := ring_took v n now in
            if (n <? length data)%nat then Next (block v)
            else ring_loop fuel (unblock v) ring err now (budget - Z.of_nat n)
        end
    end
  else Next v.

(** Enough turns: each takes a result of the socket, or a byte of the budget. *)
Definition prefix_fuel v : nat := S (length (results (sock v)) + length (prefix_ v)).
Definition ring_fuel v : nat := S (length (results (sock v)) + Z.to_nat VIDEO_VIEWER_WRITE_CHUNK).

Definition set_behind v (t : Z) : VideoViewer := v <| behind_since_ := t |>.

(** Whether the viewer keeps up. *)
Definition keep_up v (ring : VideoRing) (now : Z) : pump_res :=
  let v := if write_pos_ ring <=? read_pos_ v then unblock v else v in
  let lag := u64 (write_pos_ ring - read_pos_ v) in
  let chronic := (capacity ring / 2 <? lag) && negb (behind_since_ v =? 0) && (5 <? now - behind_since_ v) in
  if chronic then Drop (set_drop_reason v (bs "chronically behind"))
  else
    let v := if capacity ring / 2 <? lag then (if behind_since_ v =? 0 then set_behind v now else v)
             else set_behind v 0 in
    if (0 <? lag) && (VIDEO_VIEWER_STUCK_S <? now - last_progress_ v)
    then Drop (set_drop_reason v (bs "stalled")) else Keep v.

Definition pump v (ring : VideoRing) (err : errno_t) (now : Z) : pump_res :=
  if negb (resident ring (read_pos_ v)) then Drop (set_drop_reason v (bs "fell too far behind (lapped)"))
  else
    match prefix_loop (prefix_fuel v) v err now with
    | Done r => r
    | Next v =>
      match ring_loop (ring_fuel v) v ring err now VIDEO_VIEWER_WRITE_CHUNK with
      | Done r => r
      | Next v => keep_up v ring now
      end
    end.

Definition set_state v (s : viewer_state) : VideoViewer := v <| state_ := s |>.

(** [mono] and [wall] are the clocks an RTSP viewer reads. *)
Definition on_writable v (ring : VideoRing) (err : errno_t) (now : Z) (mono wall : nat -> clock) : pump_res :=
  match rtsp_view_ v with
  | Some rv =>
    let '(ok, rv) := RtspView.on_writable rv ring now mono wall in
    let v := v <| rtsp_view_ := Some rv |> in if ok then Keep v else Drop v
  | None =>
    let '(ok, v) := flush v now in
    if negb ok then Drop v
    else
      match state_ v with
      | VV_RESPONDING =>
        if negb (is_nil (out_ v)) then Keep v
        else if streaming_ v then pump (set_state v VV_STREAMING) ring err now
        else Drop v
      | VV_STREAMING => pump v ring err now
      | _ => Keep v
      end
  end.

Definition wants_write v : bool :=
  match rtsp_view_ v with
  | Some rv => RtspView.wants_write rv
  | None => blocked_ v || (out_sent_ v <? length (out_ v))%nat
  end.

(** ** A viewer's turns in the event loop (video.cpp) *)

(** After a turn: in its place, dropped, handed over to be a publisher, or the child hung. *)
Inductive turn_res := Stays v | Dropped v | Handed v | Hangs.

Definition turn_of (r : pump_res) : turn_res := match r with Keep v => Stays v | Drop v => Dropped v | Hung => Hangs end.

(** What the call to [on_writable] of a turn meets. *)
Record WriteEnv := { we_errno : errno_t; we_mono : nat -> clock; we_wall : nat -> clock }.

Definition write_turn v (ring : VideoRing) (we : WriteEnv) (now : Z) : turn_res :=
  turn_of (on_writable v ring (we_errno we) now (we_mono we) (we_wall we)).

Section turns.
Variable sha256 : bytes -> bytes.
Variable hmac : bytes -> bytes -> bytes.
Variable b64_read sha1 base64_encode : bytes -> bytes.

(** The viewer's part of [pump_viewers]. *)
Definition pump_viewer v (ws : WsEnv) (we : WriteEnv) (ke : KeyEntry) (slot : Z) (ring : VideoRing)
    (scanner : VideoScanner) (now : Z) : turn_res :=
  if bool_decide (kind_ v ∈ [VVK_RTSP; VVK_RTMP; VVK_MKV]) then Handed (release_fd v)
  else if bool_decide (state_ v = VV_DETECT) && bool_decide (kind_ v = VVK_WS) then
    let '(ok, v) := begin_ws sha1 base64_encode v ws ring scanner now in if ok then Stays v else Dropped v
  else if bool_decide (state_ v = VV_DETECT) then
    if VIDEO_DETECT_SILENCE_S <=? now - connected_at_ v then
      let '(ok, v) := detect_timeout v ke slot ring scanner now in
      if ok then write_turn v ring we now else Dropped v
    else Stays v
  else write_turn v ring we now.

(** An event on its socket: [hup] for EPOLLHUP or EPOLLERR, [inp] for EPOLLIN or EPOLLRDHUP,
    [outp] for EPOLLOUT. *)
Definition viewer_event v (hup inp outp : bool) (env : ReadEnv) (we : WriteEnv) (ke : KeyEntry) (slot : Z)
    (ring : VideoRing) (scanner : VideoScanner) (now : Z) : turn_res :=
  if hup then Dropped v
  else
    let '(ok, v) := if inp then on_readable sha256 hmac b64_read sha1 base64_encode v env ke slot ring scanner now else (true, v) in
    if negb ok then Dropped v else if outp then write_turn v ring we now else Stays v.
End turns.
