(* ===== verification/VideoViewSpec.v ===== *)
(** * What viewers are given (videoview.cpp)

    Fidelity of a plain viewer's stream, its progress, and who is admitted: the theorems on
    the model of [VideoView]. *)

From S2P Require Import Prelude CStr KeyDb VideoAuth HttpReq WebSocket VideoTs VideoStream VideoMkv Socket.
From S2P Require Import RtspView.
From S2P Require Import VideoView.

Implicit Types v : VideoViewer.
Implicit Types k : Sock.

(** ** What a plain viewer is sent *)

(** Neither WebSocket nor RTSP: the bytes go to the socket as they are. *)
Definition plain v : Prop := ws_ v = None /\ rtsp_view_ v = None.

(** Responses and codec header still to be sent. *)
Definition unsent v : bytes := drop (out_sent_ v) (out_ v) ++ drop (prefix_sent_ v) (prefix_ v).

(** The wire and what is unsent before the stream, when [head] goes first and the stream is
    [hist] from [anchor] on. *)
Record Feeds (hist head : bytes) (anchor : Z) v : Prop := {
  fe_plain : plain v;
  fe_pos : anchor <= read_pos_ v <= len hist;
  fe_wire : wire (sock v) ++ unsent v = head ++ slice hist anchor (read_pos_ v - anchor);
  fe_order : unsent v = [] \/ read_pos_ v = anchor;
  fe_state : state_ v = VV_STREAMING /\ out_ v = [] \/ state_ v = VV_RESPONDING;
  fe_streaming : streaming_ v = true;
  fe_count : bytes_sent_ v = read_pos_ v - anchor
}.

(** The fields a send does not touch. *)
Definition course v : bool * bytes * nat * Z * Z * viewer_state :=
  (streaming_ v, prefix_ v, prefix_sent_ v, read_pos_ v, bytes_sent_ v, state_ v).

Lemma flush_loop_feeds hist head anchor fuel v now :
  Feeds hist head anchor v ->
  let r := flush_loop fuel v now in Feeds hist head anchor r.2 /\ course r.2 = course v
  /\ (r.1 = true -> out_ r.2 <> [] -> out_ r.2 = out_ v).
Proof.
  revert v. induction fuel as [|fuel IH]; intros v Hf; cbn [flush_loop]; cbv zeta.
  - destruct (Nat.ltb_spec (out_sent_ v) (length (out_ v))); [done|]. split_and!; [|done|done].
    destruct Hf as [H1 H2 H3 H4 H5 H6 H7]. unfold unsent in *. rewrite drop_ge in H3, H4 by lia.
    split; try done; cbn; naive_solver.
  - destruct (Nat.ltb_spec (out_sent_ v) (length (out_ v))).
    2: { split_and!; [|done|done]. destruct Hf as [H1 H2 H3 H4 H5 H6 H7]. unfold unsent in *.
         rewrite drop_ge in H3, H4 by lia. split; try done; cbn; naive_solver. }
    destruct (sock_send _ _) as [r k] eqn:Es. pose proof (sock_send_wire _ _ _ _ Es) as Hw.
    assert (Hk : match r with SndTook _ => True | _ => Feeds hist head anchor (v <| sock := k |>) end).
    { destruct r; [done|..]; destruct Hf as [H1 H2 H3 H4 H5 H6 H7]; (split; try done); cbn; by rewrite Hw. }
    destruct r as [n| | |]; cbn [fst snd].
    + destruct Hw as [Hn Hw]. destruct (IH (flush_took v k n now)) as (G1 & G2 & G3).
      { destruct Hf as [H1 H2 H3 H4 H5 H6 H7]. (split; try done); cbn.
        - rewrite Hw, <-H3, <-app_assoc. f_equal. unfold unsent. cbn. rewrite app_assoc. f_equal.
          rewrite <-drop_drop. apply take_drop.
        - destruct H4 as [H4|]; [left|by right]. revert H4. unfold unsent. cbn. rewrite <-drop_drop.
          intros [-> ->]%app_nil. by rewrite drop_nil. }
      done.
    + split_and!; [|done|done]. destruct Hk as [H1 H2 H3 H4 H5 H6 H7]. by split.
    + by apply (IH (v <| sock := k |>)).
    + split_and!; [|done|done]. destruct Hk as [H1 H2 H3 H4 H5 H6 H7]. by split.
Qed.

Lemma push_plain v err b : plain v ->
  exists r, push v err b = (r, v <| sock := (sock_send (sock v) b).2 |>)
  /\ wire (sock_send (sock v) b).2 = wire (sock v) ++ match r with Pushed n => take n b | _ => [] end
  /\ match r with Pushed n => (n <= length b)%nat | _ => True end
  /\ (results (sock v) = [] -> r = PushAgain).
Proof.
  intros [Hw _]. unfold push. rewrite Hw. destruct (sock_send _ _) as [r k] eqn:Es.
  assert (He : results (sock v) = [] -> r = SndAgain).
  { intros E. unfold sock_send in Es. rewrite E in Es. by injection Es as <- <-. }
  apply sock_send_wire in Es. destruct r; eexists; (split; [done|]); cbn [snd]; rewrite ?app_nil_r;
    (split_and!; [naive_solver..|]); intros E; by specialize (He E).
Qed.

(** Where a loop leaves the viewer, if the call returns. *)
Definition left_in (r : pump_res) : option VideoViewer := match r with Keep v | Drop v => Some v | Hung => None end.
Definition step_left (r : step_res) : option VideoViewer := match r with Next v => Some v | Done r => left_in r end.

Definition AllSent v : Prop := out_ v = [] /\ (length (prefix_ v) <= prefix_sent_ v)%nat.

Lemma AllSent_unsent v : AllSent v -> unsent v = [].
Proof. intros [Ho Hp]. unfold unsent. by rewrite Ho, drop_nil, drop_ge. Qed.

(** What is offered of the codec header: something, while there is some left. *)
Lemma ztake_chunk (l : bytes) : exists n, ztake CHUNK l = take n l /\ (0 < n)%nat.
Proof. exists (Z.to_nat CHUNK). split; [done|]. unfold CHUNK. lia. Qed.

Lemma prefix_loop_feeds hist head anchor fuel v err now :
  Feeds hist head anchor v -> out_ v = [] -> (length (results (sock v)) < fuel)%nat ->
  match prefix_loop fuel v err now with
  | Next v' => Feeds hist head anchor v' /\ AllSent v'
  | Done (Keep v') | Done (Drop v') => Feeds hist head anchor v'
  | Done Hung => False
  end.
Proof.
  revert v. induction fuel as [|fuel IH]; intros v Hf Ho Hl; [lia|]. cbn [prefix_loop].
  destruct (Nat.ltb_spec (prefix_sent_ v) (length (prefix_ v))); [|by split].
  destruct (ztake_chunk (drop (prefix_sent_ v) (prefix_ v))) as (c & -> & Hc).
  set (b := take c _). destruct (push_plain v err b (fe_plain _ _ _ _ Hf)) as (r & -> & Hw & Hn & Hne).
  set (k := (sock_send (sock v) b).2) in *.
  assert (Hk : forall w, w = [] -> wire k = wire (sock v) ++ w -> Feeds hist head anchor (v <| sock := k |>)).
  { intros ? -> Hw'. destruct Hf as [H1 H2 H3 H4 H5 H6 H7]. (split; try done); cbn. by rewrite Hw', app_nil_r. }
  assert (Hres : results (sock v) <> [] -> (length (results k) < length (results (sock v)))%nat).
  { unfold k. destruct (sock_send (sock v) b) as [r0 k0] eqn:Es. apply (sock_send_results _ _ _ _ Es). }
  assert (is_ws (v <| sock := k |>) = false) as -> by (unfold is_ws; cbn; by rewrite (proj1 (fe_plain _ _ _ _ Hf))).
  assert (Hb : forall v0, Feeds hist head anchor v0 -> Feeds hist head anchor (block v0))
    by (intros v0 [H1 H2 H3 H4 H5 H6 H7]; by split).
  destruct r as [[|n]| | |].
  - by apply (Hk []).
  - apply IH; [|done|]. 2: { cbn. destruct (results (sock v)) eqn:E; [by specialize (Hne eq_refl)|]. specialize (Hres ltac:(done)). lia. }
    destruct Hf as [H1 H2 H3 H4 H5 H6 H7].
    assert (Eu : take (S n) b ++ unsent (prefix_took (v <| sock := k |>) (S n) now) = unsent v).
    { unfold unsent. cbn. rewrite Ho, !drop_nil. cbn [app]. rewrite <-drop_drop.
      transitivity (take (S n) (drop (prefix_sent_ v) (prefix_ v)) ++ drop (S n) (drop (prefix_sent_ v) (prefix_ v)));
        [f_equal|apply take_drop]. unfold b. rewrite take_take. f_equal.
      unfold b in Hn. rewrite length_take in Hn. lia. }
    (split; try done).
    + cbn. rewrite Hw, <-H3, <-Eu, <-app_assoc. done.
    + destruct H4 as [H4|]; [|by right]. rewrite H4 in Eu. apply app_nil in Eu as [_ Eu]. by left.
  - unfold prefix_blocked. destruct (_ <=? _); apply Hb; by apply (Hk []).
  - apply IH; [by apply (Hk [])|done|]. cbn.
    destruct (results (sock v)) eqn:E; [by specialize (Hne eq_refl)|]. specialize (Hres ltac:(done)). lia.
  - by apply (Hk []).
Qed.

Lemma Feeds_blocked hist head anchor v (b : bool) : Feeds hist head anchor v -> Feeds hist head anchor (v <| blocked_ := b |>).
Proof. intros [H1 H2 H3 H4 H5 H6 H7]. by split. Qed.

Lemma ring_loop_feeds hist head anchor fuel v ring err now budget :
  Feeds hist head anchor v -> AllSent v -> 0 <= anchor -> window hist ring -> len hist < 2 ^ 64 ->
  match ring_loop fuel v ring err now budget with
  | Next v' => Feeds hist head anchor v' /\ AllSent v'
  | Done (Keep v') | Done (Drop v') => Feeds hist head anchor v'
  | Done Hung => False
  end.
Proof.
  intros Hf Ha H0 Hwin Hh. revert v budget Hf Ha. induction fuel as [|fuel IH]; intros v budget Hf Ha; cbn [ring_loop];
    destruct (0 <? budget) eqn:Eb; cbn [andb]; try by split.
  all: destruct (read_pos_ v <? write_pos_ ring); try by split.
  apply Z.ltb_lt in Eb. set (want := if budget <? CHUNK then budget else CHUNK).
  set (data := read_at ring (read_pos_ v) want).
  destruct (Z.eqb_spec (len data) 0) as [|Hne]; [by split|].
  destruct (window_read hist ring (read_pos_ v) want Hwin) as (Hd & Hdl & _).
  { unfold want, CHUNK. destruct (_ <? _); lia. }
  { pose proof (fe_pos _ _ _ _ Hf). lia. }
  { fold data. by intros E; rewrite E in Hne. }
  fold data in Hd, Hdl.
  destruct (push_plain v err data (fe_plain _ _ _ _ Hf)) as (r & -> & Hw & Hn & _).
  set (k := (sock_send (sock v) data).2) in *.
  assert (is_ws (v <| sock := k |>) = false) as -> by (unfold is_ws; cbn; by rewrite (proj1 (fe_plain _ _ _ _ Hf))).
  assert (Hk : wire k = wire (sock v) -> Feeds hist head anchor (v <| sock := k |>) /\ AllSent (v <| sock := k |>)).
  { intros E. split; [|done]. destruct Hf as [H1 H2 H3 H4 H5 H6 H7]. (split; try done); cbn. by rewrite E. }
  destruct r as [n| | |]; cbv zeta; rewrite ?app_nil_r in Hw; try specialize (Hk Hw).
  - assert (H1 : Feeds hist head anchor (ring_took (v <| sock := k |>) n now) /\ AllSent (ring_took (v <| sock := k |>) n now)).
    { clear Hk. split; [|done]. pose proof Hf as [H1 H2 H3 H4 H5 H6 H7].
      assert (En : u64 (read_pos_ v + Z.of_nat n) = read_pos_ v + Z.of_nat n) by (apply wrap_small; lia).
      split; try done; cbn [ring_took].
      - cbn. rewrite En. lia.
      - pose proof (AllSent_unsent _ Ha) as Eu. rewrite Eu, app_nil_r in H3.
        rewrite (AllSent_unsent (ring_took (v <| sock := k |>) n now) Ha), app_nil_r. cbn. rewrite En, Hw, H3, <-app_assoc. f_equal.
        replace (take n data) with (slice hist (read_pos_ v) (Z.of_nat n)).
        2: { rewrite Hd. unfold slice. rewrite take_take. f_equal. lia. }
        replace (read_pos_ v) with (anchor + (read_pos_ v - anchor)) at 2 by lia.
        rewrite slice_join by lia. f_equal. lia.
      - left. by apply AllSent_unsent.
      - cbn. rewrite En, H7. rewrite wrap_small; lia. }
    destruct H1 as [H1 H2]. rewrite andb_false_r. destruct (_ <? _)%nat; [split; [by apply Feeds_blocked|done]|].
    apply IH; [by apply Feeds_blocked|done].
  - split; [apply Feeds_blocked|]; apply Hk.
  - by apply IH; apply Hk.
  - destruct Hk as [[H1 H2 H3 H4 H5 H6 H7] _]. by split.
Qed.

Lemma keep_up_feeds hist head anchor v ring now : Feeds hist head anchor v ->
  exists v', left_in (keep_up v ring now) = Some v' /\ Feeds hist head anchor v'.
Proof.
  intros Hf. unfold keep_up. set (v1 := if _ <=? _ then _ else v).
  assert (H1 : Feeds hist head anchor v1) by (unfold v1; destruct (_ <=? _); [by apply Feeds_blocked|done]).
  clearbody v1. clear Hf v. rename H1 into Hf. cbv zeta.
  assert (Hs : forall (v : VideoViewer) t, Feeds hist head anchor v -> Feeds hist head anchor (set_behind v t))
    by (intros v t [H1 H2 H3 H4 H5 H6 H7]; by split).
  assert (Hd : forall (v : VideoViewer) why, Feeds hist head anchor v -> Feeds hist head anchor (set_drop_reason v why))
    by (intros v t [H1 H2 H3 H4 H5 H6 H7]; by split).
  destruct (_ && _ && _)%bool; [eexists; split; [done|by apply Hd]|].
  set (v2 := if _ <? _ then _ else _).
  assert (H2 : Feeds hist head anchor v2) by (unfold v2; repeat case_match; auto).
  destruct (_ && _)%bool; (eexists; split; [done|]); auto.
Qed.

Lemma pump_feeds hist head anchor v ring err now :
  Feeds hist head anchor v -> out_ v = [] -> 0 <= anchor -> window hist ring -> len hist < 2 ^ 64 ->
  exists v', left_in (pump v ring err now) = Some v' /\ Feeds hist head anchor v'.
Proof.
  intros Hf Ho H0 Hw Hh. unfold pump.
  destruct (resident _ _); cbn [negb]; [|eexists; split; [done|]; destruct Hf as [H1 H2 H3 H4 H5 H6 H7]; by split].
  pose proof (prefix_loop_feeds hist head anchor (prefix_fuel v) v err now Hf Ho ltac:(unfold prefix_fuel; lia)) as Hp.
  destruct (prefix_loop _ _ _ _) as [v1|[v1|v1|]]; [|by eexists|by eexists|done].
  destruct Hp as [Hf1 Ha1].
  pose proof (ring_loop_feeds hist head anchor (ring_fuel v1) v1 ring err now VIDEO_VIEWER_WRITE_CHUNK Hf1 Ha1 H0 Hw Hh) as Hr.
  destruct (ring_loop _ _ _ _ _ _) as [v2|[v2|v2|]]; [|by eexists|by eexists|done].
  by apply keep_up_feeds, Hr.
Qed.

Lemma on_writable_feeds hist head anchor v ring err now mono wall :
  Feeds hist head anchor v -> 0 <= anchor -> window hist ring -> len hist < 2 ^ 64 ->
  exists v', left_in (on_writable v ring err now mono wall) = Some v' /\ Feeds hist head anchor v'.
Proof.
  intros Hf H0 Hw Hh. unfold on_writable. rewrite (proj2 (fe_plain _ _ _ _ Hf)).
  unfold flush. destruct (flush_loop_feeds hist head anchor (S (length (results (sock v)))) v now Hf) as (Hf1 & Hc & Ho).
  destruct (flush_loop _ v now) as [ok v1]. cbn [fst snd] in *. destruct ok; cbn [negb]; [|by eexists].
  destruct (state_ v1) eqn:Es; [by eexists| | |by eexists].
  - destruct (is_nil (out_ v1)) eqn:En; cbn [negb]; [|by eexists].
    rewrite (fe_streaming _ _ _ _ Hf1). apply pump_feeds; try done; [|cbn; by destruct (out_ v1)].
    destruct Hf1 as [H1 H2 H3 H4 H5 H6 H7]. split; try done. left. cbn. by destruct (out_ v1).
  - apply pump_feeds; try done. destruct (fe_state _ _ _ _ Hf1) as [[_ ?]|]; [done|congruence].
Qed.

(** One call of the event loop, with what the socket will do during it. *)
Record vw_call := { vc_ring : VideoRing; vc_err : errno_t; vc_now : Z; vc_results : list snd_res;
                    vc_mono : nat -> clock; vc_wall : nat -> clock }.

Definition call v (c : vw_call) : pump_res :=
  on_writable (v <| sock := {| results := vc_results c; wire := wire (sock v) |} |>) (vc_ring c) (vc_err c) (vc_now c)
    (vc_mono c) (vc_wall c).

(** Until the viewer is dropped. *)
Fixpoint calls v (cs : list vw_call) : pump_res :=
  match cs with
  | [] => Keep v
  | c :: cs => match call v c with Keep v => calls v cs | r => r end
  end.

Lemma calls_feeds hist head anchor v cs :
  Feeds hist head anchor v -> 0 <= anchor -> len hist < 2 ^ 64 -> Forall (fun c => window hist (vc_ring c)) cs ->
  exists v', left_in (calls v cs) = Some v' /\ Feeds hist head anchor v'.
Proof.
  intros Hf H0 Hh Hc. revert v Hf. induction Hc as [|c cs Hw Hc IH]; intros v Hf; [by eexists|].
  cbn [calls]. unfold call. set (v0 := v <| sock := {| results := vc_results c; wire := wire (sock v) |} |>).
  assert (H1 : Feeds hist head anchor v0) by (destruct Hf as [H1 H2 H3 H4 H5 H6 H7]; by split). clearbody v0.
  destruct (on_writable_feeds hist head anchor v0 (vc_ring c) (vc_err c) (vc_now c) (vc_mono c) (vc_wall c) H1 H0 Hw Hh)
    as (v1 & E1 & H2).
  destruct (on_writable _ _ _ _ _ _) as [v2|v2|]; [|by exists v1|done]. injection E1 as ->. by apply IH.
Qed.

(** A viewer that has been given the stream. *)
Lemma begin_stream_feeds v ring scanner http now hist v1 :
  plain v -> begin_stream v ring scanner http now = v1 -> streaming_ v1 = true -> bytes_sent_ v = 0 ->
  Shows hist ring ->
  exists anchor, VideoMkv.join_offset scanner = Some anchor /\ 0 <= anchor <= len hist
  /\ Feeds hist (wire (sock v) ++ (if http then stream_header (matroska scanner) else []) ++ prefix scanner) anchor v1.
Proof.
  unfold begin_stream. intros Hp <- Hs Hb Hsh. destruct (VideoMkv.join_offset scanner) as [a|]; [|done].
  destruct (resident ring a) eqn:Er; cbn [negb] in *; [|done]. exists a. split; [done|].
  apply andb_true_iff in Er as [H1%Z.leb_le H2%Z.leb_le]. rewrite (sh_pos _ _ Hsh) in H2.
  assert (H0 : 0 <= a). { pose proof (sh_cap _ _ Hsh). unfold oldest in H1. destruct (_ <? _) eqn:E in H1; [apply Z.ltb_lt in E; lia|lia]. }
  split; [lia|]. clear Hs.
  destruct http; (split; [done|cbn; lia| |by right|cbn; naive_solver|done|cbn; lia]); unfold unsent; cbn;
    rewrite Z.sub_diag; unfold slice; rewrite take_0, ?drop_0, ?app_nil_r; by rewrite ?app_assoc.
Qed.

(** C15: A viewer's socket carries the stream and nothing else.  A plain viewer that has been
    given a stream -- over HTTP or as raw TCP -- is called by the event loop any number of
    times, while the publisher goes on and the ring keeps as little as it likes, and the
    socket takes any part of each write, refuses, is interrupted or fails: every call
    returns, and what the socket has taken since the start is at every moment a prefix of the
    response header (HTTP only), the codec header, and the published stream from the join
    point on -- no byte skipped, repeated or foreign -- and the bytes counted as sent are
    exactly those of the stream among them.  A viewer that has been lapped is dropped: it is
    never resumed past a gap. *)
Theorem viewer_stream_faithful v ring scanner http now hist cs v1 :
  ws_ v = None -> rtsp_view_ v = None -> bytes_sent_ v = 0 -> len hist < 2 ^ 64 ->
  begin_stream v ring scanner http now = v1 -> streaming_ v1 = true ->
  window hist ring -> Forall (fun c => window hist (vc_ring c)) cs ->
  exists anchor v', VideoMkv.join_offset scanner = Some anchor /\ left_in (calls v1 cs) = Some v'
  /\ wire (sock v') `prefix_of`
       wire (sock v) ++ (if http then stream_header (matroska scanner) else []) ++ prefix scanner ++ zdrop anchor hist
  /\ (0 < bytes_sent_ v' ->
      wire (sock v') = wire (sock v) ++ (if http then stream_header (matroska scanner) else []) ++ prefix scanner
                       ++ slice hist anchor (bytes_sent_ v')).
Proof.
  intros Hw Hr Hb Hh Hbs Hst (h & Hsh & [t ->]) Hc.
  destruct (begin_stream_feeds v ring scanner http now h v1 (conj Hw Hr) Hbs Hst Hb Hsh) as (anchor & Ha & H0 & Hf).
  assert (Hf' : Feeds (h ++ t) (wire (sock v) ++ (if http then stream_header (matroska scanner) else []) ++ prefix scanner) anchor v1).
  { destruct Hf as [H1 H2 H3 H4 H5 H6 H7]. split; try done; [rewrite length_app; lia|].
    rewrite H3. f_equal. symmetry. rewrite length_app in *. apply slice_app_l; lia. }
  destruct (calls_feeds (h ++ t) _ anchor v1 cs Hf' (proj1 H0) Hh Hc) as (v' & E & Hf2). exists anchor, v'.
  split_and!; [done|done| |].
  - destruct Hf2 as [_ Hp He _ _ _ _]. 
    transitivity (wire (sock v') ++ unsent v'); [by eexists|]. rewrite He, <-!app_assoc. do 3 apply prefix_app.
    unfold slice, zdrop. apply prefix_take.
  - intros Hpos. destruct Hf2 as [_ Hp He Ho _ _ Hcnt]. destruct Ho as [Ho|Ho]; [|lia].
    rewrite Ho, app_nil_r in He. by rewrite He, <-!app_assoc, Hcnt.
Qed.

(** ** A viewer catches up *)

(** The socket neither fails nor takes nothing of a write. *)
Definition obliging k : Prop := Forall (fun r => r <> SndErr /\ r <> SndTook O) (results k).
(** It takes something of the next one. *)
Definition ready k : Prop := exists n rs, results k = SndTook (S n) :: rs.

(** What the viewer is still owed of a ring. *)
Definition remaining v (ring : VideoRing) : Z := len (unsent v) + (write_pos_ ring - read_pos_ v).

(** During a call at [now] that began with [r0] owed: nothing has been sent yet and the
    socket is ready, or something has been sent. *)
Record Going ring now r0 v : Prop := {
  go_sock : obliging (sock v);
  go_sent : ready (sock v) /\ remaining v ring = r0 \/ remaining v ring < r0 /\ last_progress_ v = now;
  go_pos : read_pos_ v <= write_pos_ ring
}.

Lemma obliging_send k b r k' : obliging k -> sock_send k b = (r, k') -> b <> [] ->
  obliging k' /\ r <> SndErr /\ r <> SndTook O /\ (ready k -> exists n, r = SndTook (S n)).
Proof.
  unfold obliging, ready, sock_send. intros Ho. destruct (results k) as [|[[|n]| | |] rs] eqn:E; intros [= <- <-] Hb.
  - rewrite E. split_and!; [done..|]. by intros (? & ? & ?).
  - by apply list.Forall_cons in Ho as [[_ ?] _].
  - apply list.Forall_cons in Ho as [_ Ho]. destruct b; [done|]. split_and!; [done..|]. intros _. by exists (Nat.min n (length b)).
  - apply list.Forall_cons in Ho as [_ Ho]. split_and!; [done..|]. by intros (? & ? & ?).
  - apply list.Forall_cons in Ho as [_ Ho]. split_and!; [done..|]. by intros (? & ? & ?).
  - by apply list.Forall_cons in Ho as [[? _] _].
Qed.

(** A send that got nothing through was not the first. *)
Lemma Going_again ring now r0 v r k b :
  Going ring now r0 v -> sock_send (sock v) b = (r, k) -> b <> [] -> (forall n, r <> SndTook (S n)) ->
  Going ring now r0 (v <| sock := k |>) /\ last_progress_ v = now /\ remaining v ring < r0.
Proof.
  intros [H1 H2 H3] Es Hb Hr. destruct (obliging_send _ _ _ _ H1 Es Hb) as (H4 & _ & _ & H5).
  destruct H2 as [[H2 _]|[H2 H6]]; [destruct (H5 H2) as [n ?]; by destruct (Hr n)|].
  split_and!; [|done|done]. split; [done|by right|done].
Qed.

Lemma Going_block ring now r0 v (y : bool) : Going ring now r0 v -> Going ring now r0 (v <| blocked_ := y |>).
Proof. intros [H1 H2 H3]. by split. Qed.

Lemma flush_loop_going ring now r0 fuel v :
  (length (results (sock v)) < fuel)%nat -> Going ring now r0 v ->
  exists v', flush_loop fuel v now = (true, v') /\ Going ring now r0 v'
  /\ remaining v' ring <= remaining v ring /\ behind_since_ v' = behind_since_ v
  /\ (out_ v' = [] \/ remaining v' ring < r0).
Proof.
  revert v. induction fuel as [|fuel IH]; intros v Hl Hg; [lia|]. cbn [flush_loop].
  destruct (Nat.ltb_spec (out_sent_ v) (length (out_ v))) as [Ho|Ho].
  2: { assert (Eu : remaining (flushed v) ring = remaining v ring).
       { unfold remaining, unsent. cbn. by rewrite (drop_ge (out_ v)) by lia. }
       eexists. split; [done|]. destruct Hg as [H1 H2 H3]. split_and!; [|lia|done|by left].
       split; [done|by rewrite Eu|done]. }
  destruct (sock_send _ _) as [r k] eqn:Es.
  assert (Hb : drop (out_sent_ v) (out_ v) <> []).
  { intros E. apply (f_equal length) in E. rewrite length_drop in E. cbn in E. lia. }
  destruct (obliging_send _ _ _ _ (go_sock _ _ _ _ Hg) Es Hb) as (Hk & He & H0 & _).
  pose proof (sock_send_results _ _ _ _ Es) as [_ Hlt].
  assert (Hres : r <> SndAgain -> (length (results k) < fuel)%nat).
  { intros Hr. assert (results (sock v) <> []); [|specialize (Hlt ltac:(done)); lia].
    intros E. unfold sock_send in Es. rewrite E in Es. by injection Es as <- <-. }
  destruct r as [[|n]| | |]; [done| | | |done].
  - pose proof (sock_send_wire _ _ _ _ Es) as [Hn _]. rewrite length_drop in Hn.
    assert (Er : remaining (flush_took v k (S n) now) ring < remaining v ring).
    { unfold remaining, unsent. cbn. rewrite !length_app, !length_drop. lia. }
    destruct (IH (flush_took v k (S n) now)) as (v' & -> & Hg' & Hr' & Hbe & Hz); [by apply Hres|..].
    + destruct Hg as [H1 H2 H3]. split; [done| |done]. right. split; [|done]. destruct H2 as [[_ ?]|[? _]]; lia.
    + exists v'. split_and!; [done|done|lia|done|done].
  - destruct (Going_again ring now r0 v SndAgain k _ Hg Es Hb) as (Hg' & _ & Hr); [done|].
    eexists. split; [done|]. split_and!; [by apply Going_block|done|done|by right].
  - destruct (Going_again ring now r0 v SndIntr k _ Hg Es Hb) as (Hg' & _ & Hr); [done|].
    apply (IH (v <| sock := k |>)); [by apply Hres|done].
Qed.

Definition pushed (r : snd_res) : push_res :=
  match r with SndTook n => Pushed n | SndAgain => PushAgain | SndIntr => PushIntr | SndErr => PushErr end.

Lemma push_sock v err b r k : plain v -> sock_send (sock v) b = (r, k) -> push v err b = (pushed r, v <| sock := k |>).
Proof. intros [Hw _] Es. unfold push. destruct (ws_ v); [done|]. by rewrite Es. Qed.

Lemma prefix_loop_going ring now r0 fuel v err :
  (length (results (sock v)) < fuel)%nat -> plain v -> out_ v = [] -> Going ring now r0 v ->
  exists v', (prefix_loop fuel v err now = Next v' /\ AllSent v'
              \/ prefix_loop fuel v err now = Done (Keep v') /\ remaining v' ring < r0)
  /\ Going ring now r0 v' /\ remaining v' ring <= remaining v ring
  /\ behind_since_ v' = behind_since_ v /\ read_pos_ v' = read_pos_ v /\ plain v'.
Proof.
  revert v. induction fuel as [|fuel IH]; intros v Hl Hp Ho Hg; [lia|]. cbn [prefix_loop].
  destruct (Nat.ltb_spec (prefix_sent_ v) (length (prefix_ v))) as [Hs|Hs].
  2: { exists v. split_and!; try done. by left. }
  destruct (ztake_chunk (drop (prefix_sent_ v) (prefix_ v))) as (c & -> & Hc).
  set (b := take c (drop (prefix_sent_ v) (prefix_ v))).
  assert (Hb : b <> []).
  { intros E. apply (f_equal length) in E. unfold b in E. rewrite length_take, length_drop in E. cbn in E. lia. }
  destruct (sock_send (sock v) b) as [r k] eqn:Es.
  rewrite (push_sock v err _ r k Hp Es).
  destruct (obliging_send _ _ _ _ (go_sock _ _ _ _ Hg) Es Hb) as (Hk & He & H0 & _).
  pose proof (sock_send_results _ _ _ _ Es) as [_ Hlt].
  assert (Hres : r <> SndAgain -> (length (results k) < fuel)%nat).
  { intros Hr. assert (results (sock v) <> []); [|specialize (Hlt ltac:(done)); lia].
    intros E. unfold sock_send in Es. rewrite E in Es. by injection Es as <- <-. }
  assert (is_ws (v <| sock := k |>) = false) as -> by (unfold is_ws; cbn; by rewrite (proj1 Hp)).
  destruct r as [[|n]| | |]; cbn [pushed]; [done| | | |done].
  - pose proof (sock_send_wire _ _ _ _ Es) as [Hn _]. unfold b in Hn. rewrite length_take, length_drop in Hn.
    set (v1 := prefix_took (v <| sock := k |>) (S n) now).
    assert (Er : remaining v1 ring < remaining v ring).
    { unfold remaining, unsent. cbn. rewrite !length_app, !length_drop. lia. }
    destruct (IH v1) as (v' & Hv & Hg' & Hr' & Hbe & Hrp & Hp'); [by apply Hres|done|done|..].
    + destruct Hg as [H1 H2 H3]. split; [done| |done]. right. split; [|done]. destruct H2 as [[_ ?]|[? _]]; lia.
    + exists v'. split_and!; [done|done|lia|done|done|done].
  - destruct (Going_again ring now r0 v SndAgain k _ Hg Es Hb) as (Hg' & Hlp & Hr); [done|].
    unfold prefix_blocked. change (last_progress_ (v <| sock := k |>)) with (last_progress_ v).
    rewrite (proj2 (Z.leb_le _ _)) by (unfold VIDEO_VIEWER_STUCK_S; lia).
    exists (block (v <| sock := k |>)). split_and!; [by right|by apply Going_block|done..].
  - destruct (Going_again ring now r0 v SndIntr k _ Hg Es Hb) as (Hg' & _ & Hr); [done|].
    apply (IH (v <| sock := k |>)); [by apply Hres|done..].
Qed.

Lemma read_some ring pos n :
  (exists h, Shows h ring) -> resident ring pos = true -> 0 <= pos < write_pos_ ring -> 0 < n ->
  0 < len (read_at ring pos n) <= write_pos_ ring - pos /\ len (read_at ring pos n) <= n.
Proof.
  intros [h Hs] Hr Hp Hn. rewrite (sh_pos _ _ Hs) in *. unfold resident in Hr.
  apply andb_true_iff in Hr as [H1%Z.leb_le _]. rewrite (read_window h) by (done || lia).
  unfold slice. rewrite length_take, length_drop. lia.
Qed.

Lemma resident_later ring p q : resident ring p = true -> p <= q <= write_pos_ ring -> resident ring q = true.
Proof. unfold resident. rewrite !andb_true_iff, !Z.leb_le. lia. Qed.

Lemma ring_loop_going ring now r0 fuel v err budget :
  (Z.of_nat (length (results (sock v))) + budget < Z.of_nat fuel) -> plain v -> AllSent v -> Going ring now r0 v ->
  (exists h, Shows h ring) -> write_pos_ ring < 2 ^ 64 -> resident ring (read_pos_ v) = true -> 0 <= read_pos_ v ->
  exists v', ring_loop fuel v ring err now budget = Next v' /\ AllSent v' /\ Going ring now r0 v'
  /\ remaining v' ring <= remaining v ring /\ behind_since_ v' = behind_since_ v /\ read_pos_ v <= read_pos_ v'
  /\ (0 < budget -> remaining v' ring = r0 -> write_pos_ ring <= read_pos_ v').
Proof.
  intros Hl Hp Ha Hg Hsh Hw Hr H0. revert v budget Hl Hp Ha Hg Hr H0.
  induction fuel as [|fuel IH]; intros v budget Hl Hp Ha Hg Hr H0; cbn [ring_loop].
  { rewrite (proj2 (Z.ltb_ge 0 budget)) by lia. cbn [andb]. exists v. split_and!; try done; lia. }
  destruct (Z.ltb_spec 0 budget) as [Hb|Hb]; cbn [andb]; [|exists v; split_and!; try done; lia].
  destruct (Z.ltb_spec (read_pos_ v) (write_pos_ ring)) as [Hlt|Hge]; [|exists v; split_and!; try done; lia].
  set (want := if budget <? CHUNK then budget else CHUNK). set (data := read_at ring (read_pos_ v) want).
  destruct (read_some ring (read_pos_ v) want Hsh Hr) as [Hd Hdn]; [lia|unfold want, CHUNK; destruct (_ <? _); lia|].
  fold data in Hd, Hdn. rewrite (proj2 (Z.eqb_neq _ _)) by lia.
  assert (Hdb : data <> []) by (intros E; rewrite E in Hd; cbn in Hd; lia).
  destruct (sock_send (sock v) data) as [r k] eqn:Es.
  rewrite (push_sock v err _ r k Hp Es).
  destruct (obliging_send _ _ _ _ (go_sock _ _ _ _ Hg) Es Hdb) as (Hk & He & Hz & _).
  pose proof (sock_send_results _ _ _ _ Es) as [Hle Hlt'].
  assert (Hrem : forall v0, AllSent v0 -> remaining v0 ring = write_pos_ ring - read_pos_ v0)
    by (intros v0 Ha0; unfold remaining; by rewrite AllSent_unsent).
  assert (is_ws (v <| sock := k |>) = false) as -> by (unfold is_ws; cbn; by rewrite (proj1 Hp)).
  destruct r as [[|n]| | |]; cbn [pushed]; cbv zeta; [done| | | |done].
  - pose proof (sock_send_wire _ _ _ _ Es) as [Hn _]. rewrite andb_false_r.
    set (v1 := ring_took (v <| sock := k |>) (S n) now).
    assert (Ep : read_pos_ v1 = read_pos_ v + Z.of_nat (S n)) by (cbn; apply wrap_small; lia).
    assert (Er : remaining v1 ring = remaining v ring - Z.of_nat (S n)) by (rewrite !Hrem, Ep by done; lia).
    assert (Hsent : remaining v1 ring < r0) by (destruct Hg as [_ [[_ ?]|[? _]] _]; lia).
    assert (Hg1 : Going ring now r0 v1) by (split; [done|by right|lia]).
    assert (Ha1 : AllSent v1) by done. assert (Hbe1 : behind_since_ v1 = behind_since_ v /\ results (sock v1) = results k) by done.
    assert (Hp1 : plain v1) by done.
    clearbody v1. destruct Hbe1 as [Hbe1 Hres1]. destruct (_ <? _)%nat.
    + exists (block v1). split_and!; [done|done|by apply Going_block| |done| |].
      1: change (remaining (block v1) ring) with (remaining v1 ring); lia.
      1: change (read_pos_ (block v1)) with (read_pos_ v1); lia.
      intros _ Hx. change (remaining (block v1) ring) with (remaining v1 ring) in Hx. lia.
    + destruct (IH (unblock v1) (budget - Z.of_nat (S n))) as (v' & -> & Ha' & Hg' & Hr' & Hbe & Hrp & _).
      * change (results (sock (unblock v1))) with (results (sock v1)). rewrite Hres1. lia.
      * done.
      * done.
      * by apply Going_block.
      * change (read_pos_ (unblock v1)) with (read_pos_ v1). apply (resident_later _ (read_pos_ v)); [done|lia].
      * change (read_pos_ (unblock v1)) with (read_pos_ v1). lia.
      * change (remaining (unblock v1) ring) with (remaining v1 ring) in Hr'.
        change (read_pos_ (unblock v1)) with (read_pos_ v1) in Hrp.
        exists v'. split_and!; [done|done|done|lia|by rewrite Hbe|lia|intros; lia].
  - destruct (Going_again ring now r0 v SndAgain k _ Hg Es Hdb) as (Hg' & _ & Hx); [done|].
    exists (block (v <| sock := k |>)). split_and!; [done|done|by apply Going_block|done|done|done|].
    intros _ E. change (remaining (block (v <| sock := k |>)) ring) with (remaining v ring) in E. lia.
  - destruct (Going_again ring now r0 v SndIntr k _ Hg Es Hdb) as (Hg' & _ & Hx); [done|].
    assert (results (sock v) <> []) by (intros E; unfold sock_send in Es; by rewrite E in Es).
    destruct (IH (v <| sock := k |>) budget) as (v' & -> & Ha' & Hg2 & Hr' & Hbe & Hrp & _); try done.
    { cbn. specialize (Hlt' ltac:(done)). lia. }
    change (remaining (v <| sock := k |>) ring) with (remaining v ring) in Hr'.
    exists v'. split_and!; try done. intros _ E. lia.
Qed.

(** A viewer that is not far behind, and has sent something just now or has nothing to
    send, is kept. *)
Lemma keep_up_kept ring now v :
  read_pos_ v <= write_pos_ ring -> write_pos_ ring < 2 ^ 64 -> 0 <= read_pos_ v ->
  write_pos_ ring - read_pos_ v <= capacity ring / 2 ->
  (read_pos_ v = write_pos_ ring \/ last_progress_ v = now) ->
  exists v', keep_up v ring now = Keep v' /\ sock v' = sock v /\ unsent v' = unsent v /\ read_pos_ v' = read_pos_ v.
Proof.
  intros Hp Hw H0 Hc Hl. unfold keep_up.
  set (v1 := if _ <=? _ then unblock v else v).
  assert (E1 : sock v1 = sock v /\ unsent v1 = unsent v /\ read_pos_ v1 = read_pos_ v /\ last_progress_ v1 = last_progress_ v)
    by (unfold v1; by destruct (_ <=? _)).
  clearbody v1. destruct E1 as (E1 & E2 & E3 & E4). cbv zeta. rewrite E3, wrap_small by lia.
  rewrite (proj2 (Z.ltb_ge _ _)) by lia. cbn [andb].
  change (last_progress_ (set_behind v1 0)) with (last_progress_ v1). rewrite E4.
  assert (((0 <? write_pos_ ring - read_pos_ v) && (VIDEO_VIEWER_STUCK_S <? now - last_progress_ v))%bool = false) as ->.
  { apply andb_false_iff. destruct Hl as [->| ->]; [left; apply Z.ltb_ge; lia|right; apply Z.ltb_ge; unfold VIDEO_VIEWER_STUCK_S; lia]. }
  eexists. split_and!; [done|done|done|done].
Qed.

(** A ring that can be read where the viewer is, less than half a ring ahead of it. *)
Record Within ring v : Prop := {
  wi_shows : exists h, Shows h ring;
  wi_bound : write_pos_ ring < 2 ^ 64;
  wi_resident : resident ring (read_pos_ v) = true;
  wi_pos : 0 <= read_pos_ v;
  wi_lag : write_pos_ ring - read_pos_ v <= capacity ring / 2
}.

Lemma Within_later ring v v' : Within ring v -> read_pos_ v <= read_pos_ v' <= write_pos_ ring -> Within ring v'.
Proof. intros [H1 H2 H3 H4 H5] Hp. split; [done|done|by apply (resident_later _ (read_pos_ v))|lia|lia]. Qed.

(** What a call owed [r0] leaves. *)
Definition served ring r0 v v' : Prop :=
  (remaining v' ring = 0 \/ remaining v' ring < r0) /\ read_pos_ v <= read_pos_ v' <= write_pos_ ring.

Lemma pump_served ring now r0 v err :
  plain v -> out_ v = [] -> Going ring now r0 v -> Within ring v ->
  exists v', pump v ring err now = Keep v' /\ served ring r0 v v'.
Proof.
  intros Hp Ho Hg Hw. pose proof Hw as [Hsh Hb Hr H0 Hl]. unfold pump. rewrite Hr. cbn [negb].
  destruct (prefix_loop_going ring now r0 (prefix_fuel v) v err) as (v1 & Hc & Hg1 & Hr1 & _ & Hrp & Hp1);
    [unfold prefix_fuel; lia|done|done|done|].
  destruct Hc as [[-> Ha1]|[-> Hs1]].
  2: { exists v1. split; [done|]. split; [by right|]. rewrite Hrp. split; [done|]. by apply (go_pos _ _ _ _ Hg). }
  destruct (ring_loop_going ring now r0 (ring_fuel v1) v1 err VIDEO_VIEWER_WRITE_CHUNK) as (v2 & -> & Ha2 & Hg2 & Hr2 & _ & Hrp2 & Hz);
    [|done|done|done|done|done|by rewrite Hrp|lia|].
  { unfold ring_fuel. assert (0 <= VIDEO_VIEWER_WRITE_CHUNK) by done. lia. }
  pose proof Hg2 as [_ Hs Hpos].
  assert (Hrem : remaining v2 ring = write_pos_ ring - read_pos_ v2) by (unfold remaining; by rewrite AllSent_unsent).
  destruct (keep_up_kept ring now v2) as (v3 & -> & Hk & Hu & Hrp3); [done|done|lia|lia| |].
  { destruct Hs as [[_ Hs]|[_ Hs]]; [left|by right]. specialize (Hz eq_refl Hs). lia. }
  exists v3. split; [done|]. unfold served. rewrite Hrp3. split; [|lia].
  unfold remaining in *. rewrite Hu, Hrp3. destruct Hs as [[_ Hs]|[Hs _]]; [left|by right]. specialize (Hz eq_refl Hs). lia.
Qed.

Lemma on_writable_served hist head anchor ring now v err mono wall :
  Feeds hist head anchor v -> Going ring now (remaining v ring) v -> Within ring v ->
  exists v', on_writable v ring err now mono wall = Keep v' /\ served ring (remaining v ring) v v'.
Proof.
  intros Hf Hg Hw. unfold on_writable. rewrite (proj2 (fe_plain _ _ _ _ Hf)). unfold flush.
  destruct (flush_loop_going ring now (remaining v ring) (S (length (results (sock v)))) v) as (v1 & E & Hg1 & Hr1 & _ & Hz);
    [lia|done|].
  destruct (flush_loop_feeds hist head anchor (S (length (results (sock v)))) v now Hf) as (Hf1 & Hc & _).
  rewrite E in *. cbn [fst snd negb] in *. injection Hc as _ _ _ Hrp _ _.
  assert (Hw1 : Within ring v1) by (apply (Within_later ring v); [done|rewrite Hrp; split; [done|by apply (go_pos _ _ _ _ Hg)]]).
  assert (Hpump : forall v2, plain v2 -> out_ v2 = [] -> Going ring now (remaining v ring) v2 -> Within ring v2 ->
    read_pos_ v2 = read_pos_ v -> exists v', pump v2 ring err now = Keep v' /\ served ring (remaining v ring) v v').
  { intros v2 H1 H2 H3 H4 H5. destruct (pump_served ring now _ v2 err H1 H2 H3 H4) as (v' & E' & Hs).
    exists v'. split; [done|]. unfold served in *. by rewrite H5 in Hs. }
  destruct (fe_state _ _ _ _ Hf1) as [[-> Ho]| ->].
  - apply Hpump; try done. by apply (fe_plain _ _ _ _ Hf1).
  - destruct (is_nil (out_ v1)) eqn:En; cbn [negb].
    + rewrite (fe_streaming _ _ _ _ Hf1). apply Hpump; try done.
      * apply (fe_plain _ _ _ _ Hf1).
      * cbn. by destruct (out_ v1).
      * destruct Hg1 as [G1 G2 G3]. by split.
      * destruct Hw1 as [W1 W2 W3 W4 W5]. by split.
    + exists v1. split; [done|]. split; [right|rewrite Hrp; split; [done|by apply (go_pos _ _ _ _ Hg)]].
      destruct Hz as [Hz|]; [by rewrite Hz in En|done].
Qed.

(** During a call the socket takes something, and does not fail. *)
Definition fair (ring : VideoRing) (c : vw_call) : Prop :=
  vc_ring c = ring
  /\ (exists n rs, vc_results c = SndTook (S n) :: rs)
  /\ Forall (fun r => r <> SndErr /\ r <> SndTook O) (vc_results c).

Lemma calls_served hist head anchor ring v cs :
  Feeds hist head anchor v -> 0 <= anchor -> len hist < 2 ^ 64 -> window hist ring -> Within ring v ->
  Forall (fair ring) cs -> remaining v ring <= len cs ->
  exists v', calls v cs = Keep v' /\ Feeds hist head anchor v' /\ remaining v' ring = 0.
Proof.
  intros Hf H0 Hh Hw Hi Hc. revert v Hf Hi. induction Hc as [|c cs (Hr & (n & rs & Hn) & Hg) Hc IH]; intros v Hf Hi Hl.
  - exists v. split_and!; [done|done|]. cbn in Hl. destruct Hi as [_ _ Hres%andb_true_iff _ _]. unfold remaining in *.
    destruct Hres as [_ Hres%Z.leb_le]. lia.
  - cbn [calls]. unfold call. rewrite Hr.
    set (v0 := v <| sock := {| results := vc_results c; wire := wire (sock v) |} |>).
    assert (Hf0 : Feeds hist head anchor v0) by (destruct Hf as [F1 F2 F3 F4 F5 F6 F7]; by split).
    assert (Hi0 : Within ring v0) by (destruct Hi as [I1 I2 I3 I4 I5]; by split).
    assert (Hg0 : Going ring (vc_now c) (remaining v0 ring) v0).
    { split; [done|left; split; [by exists n, rs|done]|]. destruct Hi as [_ _ [_ Hres%Z.leb_le]%andb_true_iff _ _]. done. }
    change (remaining v ring) with (remaining v0 ring) in Hl. clearbody v0.
    destruct (on_writable_served hist head anchor ring (vc_now c) v0 (vc_err c) (vc_mono c) (vc_wall c) Hf0 Hg0 Hi0)
      as (v1 & E & Hs & Hp).
    destruct (on_writable_feeds hist head anchor v0 ring (vc_err c) (vc_now c) (vc_mono c) (vc_wall c) Hf0 H0 Hw Hh)
      as (v2 & E2 & Hf2).
    rewrite E in *. injection E2 as <-. apply IH; [done|by apply (Within_later ring v0)|]. cbn in Hl. lia.
Qed.

(** C17: A viewer catches up.  Once a plain viewer has been given a stream -- over HTTP or raw
    TCP -- and while the publisher pauses, no more than half a ring ahead of it: as long as
    each call of the event loop finds a socket that takes at least a byte before it is full
    and does not fail (it may be interrupted, and may be full again right after), the viewer
    is kept by every call, and after as many calls as there were bytes to send, at the
    latest, its peer has the whole response, codec header and stream up to the newest byte. *)
Theorem viewer_catches_up v ring scanner http now hist cs v1 :
  ws_ v = None -> rtsp_view_ v = None -> bytes_sent_ v = 0 -> len hist < 2 ^ 64 -> Shows hist ring ->
  begin_stream v ring scanner http now = v1 -> streaming_ v1 = true ->
  write_pos_ ring - read_pos_ v1 <= capacity ring / 2 ->
  Forall (fair ring) cs ->
  len (out_ v1) + len (prefix_ v1) + (write_pos_ ring - read_pos_ v1) <= len cs ->
  exists anchor v', VideoMkv.join_offset scanner = Some anchor /\ calls v1 cs = Keep v'
  /\ wire (sock v') = wire (sock v) ++ (if http then stream_header (matroska scanner) else []) ++ prefix scanner
                      ++ zdrop anchor hist.
Proof.
  intros Hw Hr Hb Hh Hsh Hbs Hst Hlag Hc Hl.
  destruct (begin_stream_feeds v ring scanner http now hist v1 (conj Hw Hr) Hbs Hst Hb Hsh) as (anchor & Ha & H0 & Hf).
  exists anchor. assert (Hwin : window hist ring) by by exists hist.
  assert (Hrp : read_pos_ v1 = anchor /\ out_sent_ v1 = O /\ prefix_sent_ v1 = O /\ resident ring anchor = true).
  { unfold begin_stream in Hbs. rewrite Ha in Hbs. destruct (resident ring anchor) eqn:E; cbn [negb] in Hbs.
    - by destruct http; subst v1.
    - by subst v1. }
  destruct Hrp as (Hrp & Hos & Hps & Hres). rewrite Hrp in *.
  assert (Hi : Within ring v1).
  { split; rewrite ?Hrp; [by exists hist|by rewrite (sh_pos _ _ Hsh)|done|lia|done]. }
  destruct (calls_served hist _ anchor ring v1 cs Hf ltac:(lia) Hh Hwin Hi Hc) as (v' & E & Hf' & Hz).
  { unfold remaining, unsent. rewrite Hos, Hps, !drop_0, length_app, Hrp. lia. }
  exists v'. split_and!; [done|done|]. destruct Hf' as [_ Hp He _ _ _ _]. unfold remaining in Hz.
  rewrite (sh_pos _ _ Hsh) in Hz. assert (Eu : unsent v' = []) by (destruct (unsent v'); [done|cbn in Hz; lia]).
  rewrite Eu, app_nil_r in He. rewrite He, <-!app_assoc. do 3 f_equal. unfold slice, zdrop. apply take_ge.
  rewrite length_drop. rewrite Eu in Hz. cbn in Hz. lia.
Qed.

(** ** Admission *)

(** What a viewer may be given is decided by these. *)
Definition standing v := (port2_ v, kind_ v, streaming_ v, rtsp_view_ v, fd_open v, peer_ip_be_ v).

Lemma push_standing v err b :
  let v' := (push v err b).2 in standing v' = standing v /\ state_ v' = state_ v /\ bytes_sent_ v' = bytes_sent_ v.
Proof.
  unfold push. destruct (ws_ v) as [w|]; [by destruct (WebSocket.send w b)|].
  by destruct (sock_send (sock v) b) as [[] k].
Qed.

Lemma flush_loop_standing fuel v now :
  let v' := (flush_loop fuel v now).2 in standing v' = standing v /\ state_ v' = state_ v /\ bytes_sent_ v' = bytes_sent_ v.
Proof.
  revert v. induction fuel as [|fuel IH]; intros v; cbn [flush_loop]; destruct (_ <? _)%nat; try done.
  destruct (sock_send _ _) as [[n| | |] k]; try done; [apply (IH (flush_took v k n now))|apply (IH (v <| sock := k |>))].
Qed.

Lemma prefix_loop_standing fuel v err now v' :
  step_left (prefix_loop fuel v err now) = Some v' ->
  standing v' = standing v /\ state_ v' = state_ v /\ bytes_sent_ v' = bytes_sent_ v.
Proof.
  revert v. induction fuel as [|fuel IH]; intros v; cbn [prefix_loop]; destruct (_ <? _)%nat; try by intros [= <-].
  pose proof (push_standing v err (ztake CHUNK (drop (prefix_sent_ v) (prefix_ v)))) as Hp.
  destruct (push v err _) as [r v1]. cbn [snd] in Hp. destruct Hp as (<- & <- & <-).
  assert (Hb : step_left (prefix_blocked v1 now) = Some v' ->
    standing v' = standing v1 /\ state_ v' = state_ v1 /\ bytes_sent_ v' = bytes_sent_ v1).
  { unfold prefix_blocked. by destruct (_ <=? _); intros [= <-]. }
  destruct r as [[|n]| | |]; [by destruct (is_ws v1); [|intros [= <-]]|exact (IH (prefix_took v1 (S n) now))|done| |by intros [= <-]].
  destruct (is_ws v1); [done|apply IH].
Qed.

Lemma ring_loop_standing fuel v ring err now budget v' :
  step_left (ring_loop fuel v ring err now budget) = Some v' -> standing v' = standing v /\ state_ v' = state_ v.
Proof.
  revert v budget. induction fuel as [|fuel IH]; intros v budget; cbn [ring_loop]; destruct (_ && _)%bool; try by intros [= <-].
  destruct (_ =? 0); [by intros [= <-]|]. set (d := read_at _ _ _).
  pose proof (push_standing v err d) as Hp. destruct (push v err d) as [r v1]. cbn [snd] in Hp. destruct Hp as (<- & <- & _).
  destruct r as [n| | |]; [|by intros [= <-]| |by intros [= <-]].
  - destruct (_ && _)%bool; [by intros [= <-]|]. cbv zeta. destruct (_ <? _)%nat; [by intros [= <-]|].
    exact (IH (unblock (ring_took v1 n now)) _).
  - destruct (is_ws v1); [done|apply IH].
Qed.

Lemma keep_up_standing v ring now v' :
  left_in (keep_up v ring now) = Some v' -> standing v' = standing v /\ state_ v' = state_ v.
Proof.
  unfold keep_up. set (v1 := if _ <=? _ then _ else v).
  assert (H1 : standing v1 = standing v /\ state_ v1 = state_ v) by (unfold v1; by destruct (_ <=? _)).
  clearbody v1. destruct H1 as [<- <-]. cbv zeta. destruct (_ && _ && _)%bool; [by intros [= <-]|].
  set (v2 := if _ <? _ then _ else _).
  assert (H2 : standing v2 = standing v1 /\ state_ v2 = state_ v1)
    by (unfold v2; destruct (_ <? _); [by destruct (_ =? 0)|done]).
  clearbody v2. destruct H2 as [<- <-]. by destruct (_ && _)%bool; intros [= <-].
Qed.

Lemma pump_standing v ring err now v' :
  left_in (pump v ring err now) = Some v' -> standing v' = standing v /\ state_ v' = state_ v.
Proof.
  unfold pump. destruct (negb _); [by intros [= <-]|].
  pose proof (prefix_loop_standing (prefix_fuel v) v err now) as Hp.
  destruct (prefix_loop _ _ _ _) as [v1|r]; [|by intros E; destruct (Hp v' E) as (? & ? & _)].
  destruct (Hp v1 eq_refl) as (E1 & E2 & _). rewrite <-E1, <-E2.
  pose proof (ring_loop_standing (ring_fuel v1) v1 ring err now VIDEO_VIEWER_WRITE_CHUNK) as Hr.
  destruct (ring_loop _ _ _ _ _ _) as [v2|r]; [|apply Hr].
  destruct (Hr v2 eq_refl) as [E3 E4]. rewrite <-E3, <-E4. apply keep_up_standing.
Qed.

(** A viewer in the streaming state has been given a stream, unless it is an RTSP viewer;
    one that has been sent any of it certainly has. *)
Record Orderly v : Prop := {
  or_state : state_ v = VV_STREAMING -> streaming_ v = true \/ rtsp_view_ v <> None;
  or_sent : bytes_sent_ v <> 0 -> streaming_ v = true;
  or_detect : state_ v = VV_DETECT -> streaming_ v = false
}.

Lemma Orderly_same v v' :
  state_ v' = state_ v -> streaming_ v' = streaming_ v -> (rtsp_view_ v' = None -> rtsp_view_ v = None) -> bytes_sent_ v' = bytes_sent_ v ->
  Orderly v -> Orderly v'.
Proof. intros E1 E2 E3 E4 [H1 H2 H3]. split; rewrite ?E1, ?E2, ?E4; [|done..]. intros Hs. destruct (H1 Hs); naive_solver. Qed.

(** What a turn may not change. *)
Definition role v : Z * viewer_kind * bool := (port2_ v, kind_ v, streaming_ v).

Lemma on_writable_role v ring err now mono wall v' :
  Orderly v -> left_in (on_writable v ring err now mono wall) = Some v' -> Orderly v' /\ role v' = role v.
Proof.
  intros Ho. unfold on_writable. destruct (rtsp_view_ v) as [rv|] eqn:Er.
  { destruct (RtspView.on_writable rv ring now mono wall) as [ok rv1].
    assert (Hx : Orderly (v <| rtsp_view_ := Some rv1 |>) /\ role (v <| rtsp_view_ := Some rv1 |>) = role v).
    { split; [|done]. destruct Ho as [H1 H2 H3]. split; [|done..]. intros _. by right. }
    by destruct ok; intros [= <-]. }
  unfold flush. pose proof (flush_loop_standing (S (length (results (sock v)))) v now) as Hfl.
  destruct (flush_loop _ v now) as [ok v1]. cbn [snd] in Hfl. destruct Hfl as (Es & Est & Ebs).
  injection Es as E1 E2 E3 E4 _ _.
  assert (H1 : Orderly v1) by (apply (Orderly_same v); congruence).
  assert (Hr : role v1 = role v) by (unfold role; congruence).
  assert (Hpump : forall v2, role v2 = role v1 -> streaming_ v2 = true -> state_ v2 = VV_STREAMING ->
    left_in (pump v2 ring err now) = Some v' -> Orderly v' /\ role v' = role v).
  { intros v2 Hr2 Hs Hst Hp. apply pump_standing in Hp as [Hp Hq]. injection Hp as P1 P2 P3 P4 _ _.
    assert (Hs' : streaming_ v' = true) by congruence.
    split; [split; [by left|done|congruence]|]. rewrite <-Hr, <-Hr2. unfold role. congruence. }
  destruct ok; cbn [negb]; [|by intros [= <-]].
  destruct (state_ v1) eqn:Es1; [by intros [= <-]| | |by intros [= <-]].
  - destruct (negb _); [by intros [= <-]|]. destruct (streaming_ v1) eqn:Est1; [|by intros [= <-]].
    by apply (Hpump (set_state v1 VV_STREAMING)).
  - destruct (or_state _ H1 Es1) as [Hs|Hs]; [|congruence]. by apply Hpump.
Qed.

(** Whose connection it is. *)
Definition address v : bool * Z := (fd_open v, peer_ip_be_ v).

Lemma standing_address v v' : standing v' = standing v -> address v' = address v.
Proof. intros E. unfold address. by injection E as _ _ _ _ -> ->. Qed.

Lemma on_writable_address v ring err now mono wall v' :
  left_in (on_writable v ring err now mono wall) = Some v' -> address v' = address v.
Proof.
  unfold on_writable. destruct (rtsp_view_ v) as [rv|].
  { destruct (RtspView.on_writable rv ring now mono wall) as [[] rv1]; by intros [= <-]. }
  unfold flush. pose proof (flush_loop_standing (S (length (results (sock v)))) v now) as [Es _].
  destruct (flush_loop _ v now) as [ok v1]. cbn [snd] in Es. apply standing_address in Es. rewrite <-Es.
  assert (Hpump : forall v2, address v2 = address v1 -> left_in (pump v2 ring err now) = Some v' -> address v' = address v1).
  { intros v2 <- Hp. by apply pump_standing in Hp as [?%standing_address _]. }
  destruct ok; cbn [negb]; [|by intros [= <-]].
  destruct (state_ v1); [by intros [= <-]| |by apply Hpump|by intros [= <-]].
  destruct (negb _); [by intros [= <-]|]. destruct (streaming_ v1); [by apply Hpump|by intros [= <-]].
Qed.

Lemma write_turn_address v ring we now :
  match write_turn v ring we now with Stays v' | Dropped v' | Handed v' => address v' = address v | Hangs => True end.
Proof.
  unfold write_turn. pose proof (on_writable_address v ring (we_errno we) now (we_mono we) (we_wall we)) as Ha.
  destruct (on_writable _ _ _ _ _ _) as [v1|v1|]; [by apply Ha|by apply Ha|done].
Qed.

Lemma fail_address v code reason text : address (fail v code reason text) = address v.
Proof. unfold fail. by case_bool_decide. Qed.

Lemma begin_stream_address v ring scanner http now : address (begin_stream v ring scanner http now) = address v.
Proof.
  unfold begin_stream, not_buffered. destruct (VideoMkv.join_offset scanner); [|apply fail_address].
  destruct (resident _ _); cbn [negb]; [by destruct http|apply fail_address].
Qed.

Section admission.
Variable sha256 : bytes -> bytes.
Variable hmac : bytes -> bytes -> bytes.
Variable b64_read sha1 base64_encode : bytes -> bytes.

(** The viewer's life: turns of the loop and events on its socket. *)
Inductive vw_ev :=
| EvTurn (ws : WsEnv) (we : WriteEnv) (ke : KeyEntry) (slot : Z) (ring : VideoRing) (scanner : VideoScanner) (now : Z)
| EvSock (hup inp outp : bool) (env : ReadEnv) (we : WriteEnv) (ke : KeyEntry) (slot : Z) (ring : VideoRing)
    (scanner : VideoScanner) (now : Z).

Definition vw_step v (ev : vw_ev) : turn_res :=
  match ev with
  | EvTurn ws we ke slot ring scanner now => pump_viewer sha1 base64_encode v ws we ke slot ring scanner now
  | EvSock hup inp outp env we ke slot ring scanner now =>
      viewer_event sha256 hmac b64_read sha1 base64_encode v hup inp outp env we ke slot ring scanner now
  end.

Fixpoint vw_run v (evs : list vw_ev) : turn_res :=
  match evs with
  | [] => Stays v
  | ev :: evs => match vw_step v ev with Stays v => vw_run v evs | r => r end
  end.

Definition turn_left (r : turn_res) : option VideoViewer :=
  match r with Stays v | Dropped v | Handed v => Some v | Hangs => None end.

(** The credentials of a request, for a viewer of the entry's port. *)
Definition credited (port2 : Z) (env : ReadEnv) (ke : KeyEntry) (slot : Z) (b : bytes) : Prop :=
  exists req, HttpReq.feed http_init b = (1, req)
  /\ ws_authorise sha256 hmac b64_read (viewer_new <| port2_ := port2 |>) ke slot (wall_clock env) req = true.

(** What entitles a connection to the stream: a request with acceptable credentials; silence,
    where the slot allows raw viewers and the entry has no viewer password; or the first
    bytes of a TLS handshake. *)
Definition entitles (port2 : Z) (ev : vw_ev) : Prop :=
  match ev with
  | EvTurn _ _ ke slot _ _ _ => Z.land (video_slot_opts_of ke slot) VIDEO_SLOT_RAW_TCP <> 0 /\ key_set (video_viewer_key ke) = false
  | EvSock _ _ _ env _ ke slot _ _ _ =>
      exists b, avail env = RcvData b
      /\ (credited port2 env ke slot (take PEEK b) \/ starts_with tls_hello (take PEEK b) = true)
  end.

Record Lawful (port2 : Z) (evs : list vw_ev) v : Prop := {
  ad_port : port2_ v = port2;
  ad_orderly : Orderly v;
  ad_ws : kind_ v = VVK_WS -> Exists (entitles port2) evs;
  ad_streaming : streaming_ v = true -> Exists (entitles port2) evs
}.

Lemma ws_authorise_port v v' ke slot clk req :
  port2_ v = port2_ v' ->
  ws_authorise sha256 hmac b64_read v ke slot clk req = ws_authorise sha256 hmac b64_read v' ke slot clk req.
Proof. intros E. unfold ws_authorise. by rewrite E. Qed.

Lemma start_role v k port2 ip port now : rtsp_view_ v = None -> Orderly (start v k port2 ip port now).
Proof. by split. Qed.

Lemma fail_orderly v code reason text : streaming_ v = false -> Orderly v ->
  let v' := fail v code reason text in
  Orderly v' /\ port2_ v' = port2_ v /\ kind_ v' = kind_ v /\ streaming_ v' = false.
Proof.
  intros Hs [H1 H2 H3]. unfold fail.
  assert (bytes_sent_ v = 0) by (destruct (Z.eq_dec (bytes_sent_ v) 0) as [|Hn]; [done|apply H2 in Hn; congruence]).
  case_bool_decide; (split_and!; [split; done|done..]).
Qed.

Lemma begin_stream_orderly v ring scanner http now : streaming_ v = false -> Orderly v ->
  let v' := begin_stream v ring scanner http now in Orderly v' /\ port2_ v' = port2_ v /\ kind_ v' = kind_ v.
Proof.
  intros Hs Ho. cbv zeta. unfold begin_stream.
  assert (Hf : forall code r t, Orderly (fail v code r t) /\ port2_ (fail v code r t) = port2_ v /\ kind_ (fail v code r t) = kind_ v).
  { intros code r t. destruct (fail_orderly v code r t Hs Ho) as (? & ? & ? & _). done. }
  destruct (VideoMkv.join_offset scanner); [|apply Hf]. destruct (resident _ _); cbn [negb]; [|apply Hf].
  destruct http; (split; [|done]); split; try done; intros _; by left.
Qed.

Lemma classify_address v b env ke slot ring scanner now :
  address (classify sha256 hmac b64_read v b env ke slot ring scanner now).2 = address v.
Proof.
  unfold classify. destruct (List.find _ rtsp_methods) as [m|].
  { unfold classify_rtsp. destruct (find_byte 10 b); [|by destruct (_ =? _)%nat].
    destruct (request_target _ _) as [t|]; [|done]. destruct (playback_target t); [|done].
    unfold rtsp_readable. by destruct (RtspView.on_readable _ _ _ _ _ _ _ _ _ _). }
  destruct (_ =? 3); [done|]. destruct (starts_with _ _); [done|]. cbn [snd]. unfold classify_http. cbv zeta.
  assert (Hs : forall req, address (serve_http sha256 hmac b64_read (set_kind v VVK_HTTP) req ke slot (wall_clock env) ring scanner now) = address v).
  { intros req. unfold serve_http. cbv zeta. repeat (destruct (negb _); [by rewrite fail_address|]). by rewrite begin_stream_address. }
  destruct (HttpReq.feed http_init b) as [vd req].
  destruct vd as [|[]|]; try (by rewrite fail_address); [done|]. case_bool_decide; [done|].
  destruct (_ && _)%bool; [|apply Hs]. destruct (negb _); [by rewrite fail_address|done].
Qed.

Lemma on_readable_address v env ke slot ring scanner now :
  address (on_readable sha256 hmac b64_read sha1 base64_encode v env ke slot ring scanner now).2 = address v.
Proof.
  unfold on_readable. destruct (rtsp_view_ v) as [x|].
  { unfold rtsp_readable. by destruct (RtspView.on_readable _ _ _ _ _ _ _ _ _ _). }
  destruct (negb _).
  - assert (Hr : address (match avail env with RcvEof => (false, set_drop_reason v (bs "peer closed")) | _ => (true, v) end).2 = address v)
      by by destruct (avail env).
    destruct (bool_decide _); [|done]. destruct (ws_ v) as [w|]; [|done]. unfold drain_ws.
    destruct (WebSocket.recv _ _ _ _ _ _) as [[g b] w1]. by destruct (_ <? _).
  - destruct (bool_decide _); [done|]. cbv zeta. destruct (avail env); [|done..]. by rewrite classify_address.
Qed.

Lemma begin_ws_address v ws ring scanner now : address (begin_ws sha1 base64_encode v ws ring scanner now).2 = address v.
Proof.
  assert (Hs : forall v1, address v1 = address v -> address (begin_ws_stream v1 ring scanner now) = address v).
  { intros v1 <-. unfold begin_ws_stream, not_buffered. destruct (VideoMkv.join_offset scanner); [|done].
    destruct (negb _); [apply fail_address|done]. }
  unfold begin_ws. cbv zeta. set (w := match ws_ v with Some _ => _ | None => _ end). clearbody w.
  change (ws_ready_ (v <| ws_ := Some w |>)) with (ws_ready_ v). destruct (ws_ready_ v); [by apply Hs|].
  destruct (WebSocket.recv _ _ _ _ _ _) as [[r b] w1]. destruct (r <? 0); [done|]. destruct (is_nil _); [done|]. by apply Hs.
Qed.

(** A turn or an event changes neither whose connection it is nor whether there is one, but
    for a connection handed over to be a publisher. *)
Lemma turn_address v ws we ke slot ring scanner now :
  match pump_viewer sha1 base64_encode v ws we ke slot ring scanner now with
  | Stays v' | Dropped v' => address v' = address v
  | Handed v' => v' = release_fd v
  | Hangs => True
  end.
Proof.
  unfold pump_viewer. case_bool_decide; [done|].
  assert (Hw : forall v1, address v1 = address v -> match write_turn v1 ring we now with
     | Stays v' | Dropped v' => address v' = address v | Handed v' => v' = release_fd v | Hangs => True end).
  { intros v1 <-. pose proof (write_turn_address v1 ring we now) as Ha. unfold write_turn in *.
    by destruct (on_writable _ _ _ _ _ _). }
  destruct (_ && _)%bool.
  - pose proof (begin_ws_address v ws ring scanner now) as Hb. by destruct (begin_ws _ _ _ _ _ _ _) as [[] v1].
  - case_bool_decide; [|by apply Hw]. destruct (_ <=? _); [|done].
    assert (Hd : address (detect_timeout v ke slot ring scanner now).2 = address v).
    { unfold detect_timeout. destruct (negb _); [done|]. cbv zeta. destruct (_ =? 0); [done|]. destruct (key_set _); [done|].
      exact (begin_stream_address (set_kind v VVK_RAW) ring scanner false now). }
    destruct (detect_timeout v ke slot ring scanner now) as [[] v1]; [by apply Hw|done].
Qed.

Lemma event_address v hup inp outp env we ke slot ring scanner now :
  match viewer_event sha256 hmac b64_read sha1 base64_encode v hup inp outp env we ke slot ring scanner now with
  | Stays v' | Dropped v' | Handed v' => address v' = address v
  | Hangs => True
  end.
Proof.
  unfold viewer_event. destruct hup; [done|]. set (p := if inp then _ else _).
  assert (Hp : address p.2 = address v) by (unfold p; destruct inp; [apply on_readable_address|done]).
  clearbody p. destruct p as [ok v1]. cbn [snd] in Hp. destruct ok; [|done]. cbn [negb]. destruct outp; [|done].
  pose proof (write_turn_address v1 ring we now) as Ha. rewrite Hp in Ha. exact Ha.
Qed.

(** What one read of a connection not yet known may make of it. *)
Definition classified port2 (env : ReadEnv) ke slot b v v' : Prop :=
  Orderly v' /\ port2_ v' = port2_ v
  /\ (kind_ v' = VVK_WS \/ streaming_ v' = true ->
      credited port2 env ke slot b \/ starts_with tls_hello b = true).

Lemma classify_http_classified v b env ke slot ring scanner now :
  Orderly v -> streaming_ v = false ->
  classified (port2_ v) env ke slot b v
    (classify_http sha256 hmac b64_read v b ke slot (wall_clock env) ring scanner now).
Proof.
  intros Ho Hs. unfold classify_http.
  set (v1 := set_kind v VVK_HTTP).
  assert (Ho1 : Orderly v1) by by apply (Orderly_same v).
  assert (Hs1 : streaming_ v1 = false) by done. assert (Hp1 : port2_ v1 = port2_ v) by done.
  assert (Hk1 : kind_ v1 = VVK_HTTP) by done. clearbody v1.
  assert (Hf : forall v2 code r t, Orderly v2 -> streaming_ v2 = false -> port2_ v2 = port2_ v -> kind_ v2 = VVK_HTTP ->
    classified (port2_ v) env ke slot b v (fail v2 code r t)).
  { intros v2 code r t H1 H2 H3 H4. destruct (fail_orderly v2 code r t H2 H1) as (H5 & H6 & H7 & H8).
    split_and!; [done|by rewrite H6|]. rewrite H7, H8, H4. by intros []. }
  destruct (HttpReq.feed http_init b) as [vd req] eqn:Ef.
  assert (Hc : ws_authorise sha256 hmac b64_read v1 ke slot (wall_clock env) req = true -> vd = 1 -> credited (port2_ v) env ke slot b).
  { intros Ha ->. exists req. split; [done|]. rewrite <-Ha. by apply ws_authorise_port. }
  destruct (Z.eq_dec vd 1) as [->|Hv1].
  2: { destruct (Z.eq_dec vd 0) as [->|Hv0]; [|destruct vd as [|[]|]; by (done || apply Hf)].
       split_and!; [by apply (Orderly_same v1)|done|]. unfold hold. cbn. rewrite Hs1, Hk1. by intros []. }
  case_bool_decide.
  { split_and!; [by apply (Orderly_same v1)|done|]. unfold set_kind. cbn. rewrite Hs1. by intros []. }
  destruct (_ && _)%bool.
  - destruct (ws_authorise _ _ _ v1 ke slot (wall_clock env) req) eqn:Ea; cbn [negb]; [|by apply Hf].
    split_and!; [by apply (Orderly_same v1)|done|]. intros _. left. by apply Hc.
  - unfold serve_http. set (v2 := v1 <| req_ := req |>).
    assert (H2 : Orderly v2 /\ streaming_ v2 = false /\ port2_ v2 = port2_ v /\ kind_ v2 = VVK_HTTP)
      by (split_and!; [by apply (Orderly_same v1)|done..]).
    rewrite (ws_authorise_port v2 v1) by done. clearbody v2. destruct H2 as (H2 & H3 & H4 & H5).
    destruct (negb _); [by apply Hf|]. destruct (negb _); [by apply Hf|].
    destruct (ws_authorise _ _ _ v1 ke slot (wall_clock env) req) eqn:Ea; cbn [negb]; [|by apply Hf].
    destruct (begin_stream_orderly v2 ring scanner true now H3 H2) as (H6 & H7 & H8).
    split_and!; [done|by rewrite H7|]. intros _. left. by apply Hc.
Qed.

Lemma classify_classified v b env ke slot ring scanner now :
  Orderly v -> state_ v = VV_DETECT -> kind_ v <> VVK_WS ->
  classified (port2_ v) env ke slot b v (classify sha256 hmac b64_read v b env ke slot ring scanner now).2.
Proof.
  intros Ho Hd Hk. pose proof (or_detect _ Ho Hd) as Hs. unfold classify.
  assert (Hsame : forall v', state_ v' = state_ v -> streaming_ v' = streaming_ v -> rtsp_view_ v' = rtsp_view_ v ->
    bytes_sent_ v' = bytes_sent_ v -> port2_ v' = port2_ v -> kind_ v' <> VVK_WS -> classified (port2_ v) env ke slot b v v').
  { intros v' E1 E2 E3 E4 E5 E6. split_and!; [apply (Orderly_same v); congruence|done|]. rewrite E2, Hs. by intros []. }
  destruct (List.find _ rtsp_methods) as [m|].
  { unfold classify_rtsp. destruct (find_byte 10 b).
    2: { destruct (_ =? _)%nat; by apply Hsame. }
    destruct (request_target _ _) as [t|]; [|by apply Hsame]. destruct (playback_target t); [|by apply Hsame].
    unfold rtsp_readable. destruct (RtspView.on_readable _ _ _ _ _ _ _ _ _ _) as [ok rv]. cbn [snd].
    destruct Ho as [H1 H2 H3]. split_and!; [split; cbn; [by right|done|done]|done|]. cbn. rewrite Hs. by intros []. }
  destruct (_ =? 3); [by apply Hsame|].
  destruct (starts_with tls_hello b) eqn:Et.
  - split_and!; [by apply (Orderly_same v)|done|]. intros _. by right.
  - by apply classify_http_classified.
Qed.

Lemma Lawful_same port2 evs ev v v' :
  Lawful port2 evs v -> Orderly v' -> role v' = role v -> Lawful port2 (evs ++ [ev]) v'.
Proof.
  intros [H1 H2 H3 H4] Ho [= E1 E2 E3]. split; [congruence|done|..]; rewrite ?E2, ?E3; intros Hx;
    apply Exists_app; left; auto.
Qed.

(** A viewer changed by what entitles it. *)
Lemma Lawful_new port2 evs ev v' :
  Orderly v' -> port2_ v' = port2 -> (kind_ v' = VVK_WS \/ streaming_ v' = true -> entitles port2 ev) ->
  Lawful port2 (evs ++ [ev]) v'.
Proof.
  intros Ho Hp He. split; [done|done|..]; intros Hx; apply Exists_app; right; constructor; apply He; auto.
Qed.

Lemma write_turn_lawful port2 evs ring we now v v' :
  Lawful port2 evs v -> turn_left (write_turn v ring we now) = Some v' -> Lawful port2 evs v'.
Proof.
  intros Hl Ht. unfold write_turn in Ht. pose proof Hl as [H1 H2 H3 H4].
  destruct (on_writable_role v ring (we_errno we) now (we_mono we) (we_wall we) v' H2) as [Ho [= E1 E2 E3]].
  { destruct (on_writable _ _ _ _ _ _) as [v1|v1|]; naive_solver. }
  split; [congruence|done|..]; rewrite ?E2, ?E3; auto.
Qed.

Lemma begin_ws_lawful port2 evs ws ring scanner now v :
  Lawful port2 evs v -> state_ v = VV_DETECT -> kind_ v = VVK_WS ->
  Lawful port2 evs (begin_ws sha1 base64_encode v ws ring scanner now).2.
Proof.
  intros Hl Hd Hk. pose proof (ad_ws _ _ _ Hl Hk) as He.
  assert (Hmake : forall v', Orderly v' -> port2_ v' = port2_ v -> Lawful port2 evs v').
  { intros v' Ho Hp. split; [rewrite Hp; apply (ad_port _ _ _ Hl)|done|done|done]. }
  assert (Hst : forall v1, Orderly v1 -> port2_ v1 = port2_ v -> state_ v1 = VV_DETECT ->
    Lawful port2 evs (begin_ws_stream v1 ring scanner now)).
  { intros v1 Ho Hp Hs. pose proof (or_detect _ Ho Hs) as Hs'. unfold begin_ws_stream.
    destruct (VideoMkv.join_offset scanner); [|by apply Hmake]. destruct (resident _ _); cbn [negb].
    - apply Hmake; [|done]. split; try done. intros _. by left.
    - destruct (fail_orderly v1 503 (bs "stream not ready") (bs "Join point is no longer buffered.") Hs' Ho) as (H1 & H2 & _).
      apply Hmake; [done|by rewrite <-Hp]. }
  assert (Hsame : forall v', state_ v' = state_ v -> streaming_ v' = streaming_ v -> rtsp_view_ v' = rtsp_view_ v ->
    bytes_sent_ v' = bytes_sent_ v -> Orderly v').
  { intros v' E1 E2 E3 E4. apply (Orderly_same v); try congruence. apply Hl. }
  unfold begin_ws. set (w := match ws_ v with Some _ => _ | None => _ end).
  destruct (ws_ready_ v); [by apply Hst; [apply Hsame|..]|].
  destruct (WebSocket.recv _ _ w _ _ _) as [[r b] w1]. cbn [snd].
  destruct (r <? 0); [by apply Hmake; [apply Hsame|]|]. destruct (is_nil _); [by apply Hmake; [apply Hsame|]|].
  by apply Hst; [apply Hsame|..].
Qed.

Lemma vw_step_lawful port2 evs ev v v' :
  Lawful port2 evs v -> turn_left (vw_step v ev) = Some v' -> Lawful port2 (evs ++ [ev]) v'.
Proof.
  intros Hl Ht. pose proof Hl as [Hp Ho _ _].
  assert (Hgrow : forall v1, Lawful port2 evs v1 -> Lawful port2 (evs ++ [ev]) v1).
  { intros v1 Hl1. apply (Lawful_same _ _ _ v1); [done| |done]. apply Hl1. }
  destruct ev as [ws we ke slot ring sc now|hup inp outp env we ke slot ring sc now]; cbn [vw_step] in Ht.
  - unfold pump_viewer in Ht. case_bool_decide.
    { injection Ht as <-. apply (Lawful_same _ _ _ v); [done| |done]. destruct Ho as [H1 H2 H3]. by split. }
    destruct (decide (state_ v = VV_DETECT)) as [Hd|Hd].
    2: { rewrite (bool_decide_eq_false_2 _ Hd) in Ht. cbn [andb] in Ht. by apply Hgrow, (write_turn_lawful _ _ ring we now v). }
    rewrite (bool_decide_eq_true_2 _ Hd) in Ht. cbn [andb] in Ht. case_bool_decide as Hk.
    { pose proof (begin_ws_lawful port2 evs ws ring sc now v Hl Hd Hk) as Hb.
      destruct (begin_ws _ _ _ _ _ _ _) as [[] v1]; injection Ht as <-; by apply Hgrow. }
    destruct (_ <=? _); [|injection Ht as <-; by apply Hgrow].
    unfold detect_timeout in Ht. rewrite (bool_decide_eq_true_2 _ Hd) in Ht. cbn [negb] in Ht.
    pose proof (or_detect _ Ho Hd) as Hs. set (v1 := set_kind v VVK_RAW) in Ht.
    assert (Hraw : forall v2, Orderly v2 -> port2_ v2 = port2_ v -> kind_ v2 = VVK_RAW ->
      (streaming_ v2 = true -> Z.land (video_slot_opts_of ke slot) VIDEO_SLOT_RAW_TCP <> 0 /\ key_set (video_viewer_key ke) = false) ->
      Lawful port2 (evs ++ [EvTurn ws we ke slot ring sc now]) v2).
    { intros v2 H1 H2 H3 H4. apply Lawful_new; [done|congruence|]. intros [E|E]; [congruence|by apply H4]. }
    destruct (Z.eqb_spec (Z.land (video_slot_opts_of ke slot) VIDEO_SLOT_RAW_TCP) 0) as [|Hopt].
    { injection Ht as <-. apply Hraw; [by apply (Orderly_same v)|done|done|]. cbn. congruence. }
    destruct (key_set _) eqn:Hkey.
    { injection Ht as <-. apply Hraw; [by apply (Orderly_same v)|done|done|]. cbn. congruence. }
    destruct (begin_stream_orderly v1 ring sc false now) as (H1 & H2 & H3); [done|by apply (Orderly_same v)|].
    revert Ht. apply write_turn_lawful. apply Hraw; [done|by rewrite H2|by rewrite H3|done].
  - unfold viewer_event in Ht. destruct hup; [injection Ht as <-; by apply Hgrow|].
    set (ev := EvSock _ _ _ _ _ _ _ _ _ _) in *.
    set (p := if inp then _ else _) in Ht.
    assert (Hr : Lawful port2 (evs ++ [ev]) p.2).
    { unfold p. destruct inp; [|by apply Hgrow]. unfold on_readable. set (v1 := v <| holding_bytes_ := false |>).
      assert (Hsame : forall v2, state_ v2 = state_ v -> role v2 = role v -> (rtsp_view_ v2 = None -> rtsp_view_ v = None) ->
        bytes_sent_ v2 = bytes_sent_ v -> Lawful port2 (evs ++ [ev]) v2).
      { intros v2 E1 E2 E3 E4. apply (Lawful_same _ _ _ v); [done| |done]. injection E2 as _ _ E2. by apply (Orderly_same v). }
      destruct (rtsp_view_ v) as [x|] eqn:Ex.
      { unfold rtsp_readable. destruct (RtspView.on_readable _ _ _ _ _ _ _ _ _ _) as [ok rv]. by apply Hsame. }
      destruct (decide (state_ v = VV_DETECT)) as [Hd|Hd].
      2: { rewrite (bool_decide_eq_false_2 _ Hd). cbn [negb].
           assert (Hpl : Lawful port2 (evs ++ [ev])
             (match avail env with RcvEof => (false, set_drop_reason v (bs "peer closed")) | _ => (true, v) end).2)
             by (destruct (avail env); by apply Hsame).
           case_bool_decide; [|done]. destruct (ws_ v) as [w|]; [|done].
           unfold drain_ws. destruct (WebSocket.recv _ _ w _ _ _) as [[g b] w1]. destruct (g <? 0); by apply Hsame. }
      rewrite (bool_decide_eq_true_2 _ Hd). cbn [negb]. case_bool_decide as Hk; [by apply Hsame|]. cbv zeta.
      assert (Ho1 : Orderly v1) by by apply (Orderly_same v).
      destruct (avail env) as [b| | |] eqn:Ea; [|by apply Hsame..].
      destruct (classify_classified v1 (take PEEK b) env ke slot ring sc now Ho1 Hd Hk) as (H1 & H2 & H3).
      apply Lawful_new; [done|by rewrite H2|]. intros Hg. exists b. split; [done|]. change (port2_ v1) with (port2_ v) in H3.
      rewrite Hp in H3. by apply H3. }
    clearbody p. destruct p as [ok v1]. cbn [snd] in Hr. destruct ok; cbn [negb] in Ht; [|by injection Ht as <-].
    destruct outp; [by apply (write_turn_lawful _ _ ring we now v1)|by injection Ht as <-].
Qed.

(** *** Viewers over RTSP *)

(** The calls of the RTSP session an event makes of it, in order. *)
Definition rv_ops (ev : vw_ev) : list rv_op :=
  match ev with
  | EvTurn _ we _ _ ring _ now => [RvWrite ring now (we_mono we) (we_wall we)]
  | EvSock _ inp outp env we ke slot ring scanner now =>
      (if inp then [RvRead (avail env) ke slot ring scanner now] else [])
      ++ (if outp then [RvWrite ring now (we_mono we) (we_wall we)] else [])
  end.

(** From some event on the connection was an RTSP viewer's, and among the bytes it was read
    since then there was a request entitled to view ([earned]). *)
Definition rtsp_entitled (port2 : Z) (evs : list vw_ev) : Prop :=
  exists evs1 evs2, evs = evs1 ++ evs2 /\ earned sha256 hmac b64_read port2 (flat_map rv_ops evs2).

Definition RtspOk (port2 : Z) (evs : list vw_ev) (alive : bool) v : Prop :=
  forall x, rtsp_view_ v = Some x -> exists w evs1 evs2,
    evs = evs1 ++ evs2 /\ view_inv sha256 hmac b64_read w port2 (flat_map rv_ops evs2) alive x.

(** An RTSP viewer whose session has gone through some of an event's calls. *)
Definition Within_event (port2 : Z) (evs : list vw_ev) (ops : list rv_op) (alive : bool) v : Prop :=
  forall x, rtsp_view_ v = Some x -> exists w evs1 evs2,
    evs = evs1 ++ evs2 /\ view_inv sha256 hmac b64_read w port2 (flat_map rv_ops evs2 ++ ops) alive x.

Lemma within_none port2 evs ops alive v : rtsp_view_ v = None -> Within_event port2 evs ops alive v.
Proof. intros E x. by rewrite E. Qed.

Lemma within_start port2 evs v : RtspOk port2 evs true v -> Within_event port2 evs [] true v.
Proof. intros Ho x Hx. destruct (Ho x Hx) as (w & evs1 & evs2 & E & Hv). exists w, evs1, evs2. by rewrite app_nil_r. Qed.

Lemma within_same port2 evs ops alive v v' :
  rtsp_view_ v' = rtsp_view_ v -> Within_event port2 evs ops alive v -> Within_event port2 evs ops alive v'.
Proof. unfold Within_event. by intros ->. Qed.

Lemma within_end port2 evs ev alive v : Within_event port2 evs (rv_ops ev) alive v -> RtspOk port2 (evs ++ [ev]) alive v.
Proof.
  intros Hw x Hx. destruct (Hw x Hx) as (w & evs1 & evs2 & -> & Hv). exists w, evs1, (evs2 ++ [ev]).
  rewrite <-app_assoc, flat_map_app. cbn [flat_map]. by rewrite app_nil_r.
Qed.

Lemma within_dropped port2 evs ops ops' alive v :
  Within_event port2 evs ops alive v -> Within_event port2 evs (ops ++ ops') false v.
Proof.
  intros Hw x Hx. destruct (Hw x Hx) as (w & evs1 & evs2 & E & Hv). exists w, evs1, evs2. split; [done|].
  rewrite app_assoc. by eapply view_inv_dropped.
Qed.

(** A write that is not made. *)
Lemma within_unwritten port2 evs ops ring now mono wall v :
  Within_event port2 evs ops true v -> Within_event port2 evs (ops ++ [RvWrite ring now mono wall]) true v.
Proof.
  intros Hw x Hx. destruct (Hw x Hx) as (w & evs1 & evs2 & E & Hv). exists w, evs1, evs2. split; [done|].
  rewrite app_assoc. by apply view_inv_skip.
Qed.

(** A call of the session. *)
Lemma within_step port2 evs ops op v x x' ok :
  rtsp_view_ v = Some x -> rv_step sha256 hmac b64_read x op = (ok, x') -> Within_event port2 evs ops true v ->
  Within_event port2 evs (ops ++ [op]) ok (v <| rtsp_view_ := Some x' |>).
Proof.
  intros Hx Hs Hw y [= <-]. destruct (Hw x Hx) as (w & evs1 & evs2 & E & Hv). exists w, evs1, evs2. split; [done|].
  rewrite app_assoc. pose proof (rv_step_inv sha256 hmac b64_read w port2 _ op x Hv) as Hi. by rewrite Hs in Hi.
Qed.

Lemma on_writable_none v ring err now mono wall v' :
  rtsp_view_ v = None -> left_in (on_writable v ring err now mono wall) = Some v' -> rtsp_view_ v' = None.
Proof.
  intros Hn. unfold on_writable. rewrite Hn.
  unfold flush. pose proof (flush_loop_standing (S (length (results (sock v)))) v now) as [Es _].
  destruct (flush_loop _ v now) as [ok v1]. cbn [snd] in Es. injection Es as _ _ _ E4 _ _. rewrite Hn in E4.
  assert (Hpump : forall v2, rtsp_view_ v2 = None -> left_in (pump v2 ring err now) = Some v' -> rtsp_view_ v' = None).
  { intros v2 H2 Hp. apply pump_standing in Hp as [Hp _]. injection Hp as _ _ _ H4 _ _. congruence. }
  destruct ok; cbn [negb]; [|by intros [= <-]].
  destruct (state_ v1); [by intros [= <-]| |by apply Hpump|by intros [= <-]].
  destruct (negb _); [by intros [= <-]|]. destruct (streaming_ v1); [by apply Hpump|by intros [= <-]].
Qed.

Definition stays (r : turn_res) : bool := match r with Stays _ => true | _ => false end.

Lemma write_turn_within port2 evs ops ring we now v v' :
  Within_event port2 evs ops true v -> turn_left (write_turn v ring we now) = Some v' ->
  Within_event port2 evs (ops ++ [RvWrite ring now (we_mono we) (we_wall we)]) (stays (write_turn v ring we now)) v'.
Proof.
  intros Hw. unfold write_turn. destruct (rtsp_view_ v) as [x|] eqn:Hx.
  - unfold on_writable. rewrite Hx. destruct (RtspView.on_writable x ring now (we_mono we) (we_wall we)) as [ok x'] eqn:Es.
    pose proof (within_step port2 evs ops (RvWrite ring now (we_mono we) (we_wall we)) v x x' ok Hx Es Hw) as Hs.
    by destruct ok; intros [= <-].
  - pose proof (on_writable_none v ring (we_errno we) now (we_mono we) (we_wall we) v' Hx) as Hn.
    destruct (on_writable _ _ _ _ _ _); intros Ht; [by apply within_none, Hn..|done].
Qed.

Lemma fail_rtsp v code reason text : rtsp_view_ (fail v code reason text) = rtsp_view_ v.
Proof. unfold fail. by case_bool_decide. Qed.

Lemma begin_stream_rtsp v ring scanner http now : rtsp_view_ (begin_stream v ring scanner http now) = rtsp_view_ v.
Proof.
  unfold begin_stream, not_buffered. destruct (VideoMkv.join_offset scanner); [|apply fail_rtsp].
  destruct (resident _ _); cbn [negb]; [by destruct http|apply fail_rtsp].
Qed.

Lemma begin_ws_rtsp v ws ring scanner now : rtsp_view_ (begin_ws sha1 base64_encode v ws ring scanner now).2 = rtsp_view_ v.
Proof.
  assert (Hs : forall v1, rtsp_view_ v1 = rtsp_view_ v -> rtsp_view_ (begin_ws_stream v1 ring scanner now) = rtsp_view_ v).
  { intros v1 <-. unfold begin_ws_stream, not_buffered. destruct (VideoMkv.join_offset scanner); [|done].
    destruct (negb _); [apply fail_rtsp|done]. }
  unfold begin_ws. cbv zeta. set (w := match ws_ v with Some _ => _ | None => _ end). clearbody w.
  change (ws_ready_ (v <| ws_ := Some w |>)) with (ws_ready_ v). destruct (ws_ready_ v); [by apply Hs|].
  destruct (WebSocket.recv _ _ _ _ _ _) as [[r b] w1]. destruct (r <? 0); [done|]. destruct (is_nil _); [done|]. by apply Hs.
Qed.

Lemma classify_http_rtsp v b ke slot clk ring scanner now :
  rtsp_view_ (classify_http sha256 hmac b64_read v b ke slot clk ring scanner now) = rtsp_view_ v.
Proof.
  unfold classify_http. cbv zeta.
  assert (Hs : forall req, rtsp_view_ (serve_http sha256 hmac b64_read (set_kind v VVK_HTTP) req ke slot clk ring scanner now) = rtsp_view_ v).
  { intros req. unfold serve_http. cbv zeta. repeat (destruct (negb _); [by rewrite fail_rtsp|]). by rewrite begin_stream_rtsp. }
  destruct (HttpReq.feed http_init b) as [vd req].
  destruct vd as [|[]|]; try (by rewrite fail_rtsp); [done|]. case_bool_decide; [done|].
  destruct (_ && _)%bool; [|apply Hs]. destruct (negb _); [by rewrite fail_rtsp|done].
Qed.

(** Reading: an RTSP viewer's session reads; another connection may become one. *)
Lemma on_readable_within port2 evs env ke slot ring scanner now v :
  port2_ v = port2 -> RtspOk port2 evs true v ->
  let r := on_readable sha256 hmac b64_read sha1 base64_encode v env ke slot ring scanner now in
  Within_event port2 evs [RvRead (avail env) ke slot ring scanner now] r.1 r.2.
Proof.
  intros Hp Ho. cbv zeta. unfold on_readable. set (op := RvRead (avail env) ke slot ring scanner now).
  assert (Hread : forall v1 x, rtsp_view_ v1 = Some x -> Within_event port2 evs [] true v1 ->
    let r := rtsp_readable sha256 hmac b64_read v1 x env ke slot ring scanner now in Within_event port2 evs [op] r.1 r.2).
  { intros v1 x Hx Hw. cbv zeta. unfold rtsp_readable.
    destruct (RtspView.on_readable _ _ _ x (avail env) ke slot ring scanner now) as [ok x'] eqn:Es.
    by apply (within_step port2 evs [] op v1 x). }
  destruct (rtsp_view_ v) as [x|] eqn:Hx; [by apply Hread, within_start|].
  destruct (negb _).
  - assert (Hpl : Within_event port2 evs [op] (match avail env with RcvEof => (false, set_drop_reason v (bs "peer closed")) | _ => (true, v) end).1
       (match avail env with RcvEof => (false, set_drop_reason v (bs "peer closed")) | _ => (true, v) end).2)
      by (apply within_none; by destruct (avail env)).
    destruct (bool_decide _); [|done]. destruct (ws_ v) as [w|]; [|done]. unfold drain_ws. apply within_none.
    destruct (WebSocket.recv _ _ _ _ _ _) as [[g b] w1]. by destruct (_ <? _).
  - destruct (bool_decide _); [by apply within_none|]. cbv zeta. destruct (avail env) as [b| | |] eqn:Ea; [|by apply within_none..].
    unfold classify. destruct (List.find _ rtsp_methods) as [m|].
    2: { apply within_none. destruct (_ =? 3); [done|]. destruct (starts_with _ _); [done|]. cbn [snd]. by rewrite classify_http_rtsp. }
    unfold classify_rtsp. destruct (find_byte 10 _); [|by destruct (_ =? _)%nat; apply within_none].
    destruct (request_target _ _) as [tg|]; [|by apply within_none]. destruct (playback_target tg); [|by apply within_none].
    unfold rtsp_readable. rewrite Ea.
    match goal with |- context [RtspView.on_readable _ _ _ ?x0 _ _ _ _ _ _] => set (x := x0) end.
    destruct (RtspView.on_readable _ _ _ x _ ke slot ring scanner now) as [ok x'] eqn:Es.
    intros y [= <-]. exists (wire (sock v)), evs, []. rewrite app_nil_r. split; [done|].
    pose proof (rv_step_inv sha256 hmac b64_read (wire (sock v)) port2 [] (RvRead (RcvData b) ke slot ring scanner now) x) as Hi.
    cbn [rv_step] in Hi. rewrite Es in Hi. subst op. apply Hi. rewrite <-Hp. apply rtsp_new_inv.
Qed.

Lemma vw_step_rtsp port2 evs ev v v' :
  port2_ v = port2 -> RtspOk port2 evs true v -> turn_left (vw_step v ev) = Some v' ->
  RtspOk port2 (evs ++ [ev]) (stays (vw_step v ev)) v'.
Proof.
  intros Hp Ho. destruct ev as [ws we ke slot ring sc now|hup inp outp env we ke slot ring sc now]; cbn [vw_step].
  - intros Ht. apply within_end. cbn [rv_ops]. set (op := RvWrite ring now (we_mono we) (we_wall we)).
    assert (Hkeep : forall alive v1, rtsp_view_ v1 = rtsp_view_ v -> Within_event port2 evs [op] alive v1).
    { intros alive v1 E. apply (within_same _ _ _ _ v); [done|]. destruct alive.
      - by apply (within_unwritten port2 evs []), within_start.
      - by apply (within_dropped port2 evs [] [op] true), within_start. }
    assert (Hwrite : forall v1, rtsp_view_ v1 = rtsp_view_ v -> turn_left (write_turn v1 ring we now) = Some v' ->
      Within_event port2 evs [op] (stays (write_turn v1 ring we now)) v').
    { intros v1 E. apply (write_turn_within port2 evs []). apply (within_same _ _ _ _ v); [done|]. by apply within_start. }
    revert Ht. unfold pump_viewer. case_bool_decide; [intros [= <-]; by apply Hkeep|].
    destruct (_ && _)%bool.
    { pose proof (begin_ws_rtsp v ws ring sc now) as Hb. destruct (begin_ws _ _ _ _ _ _ _) as [[] v1]; intros [= <-]; by apply Hkeep. }
    case_bool_decide; [|by apply Hwrite]. destruct (_ <=? _); [|intros [= <-]; by apply Hkeep].
    assert (Hd : rtsp_view_ (detect_timeout v ke slot ring sc now).2 = rtsp_view_ v).
    { unfold detect_timeout. destruct (negb _); [done|]. cbv zeta. destruct (_ =? 0); [done|]. destruct (key_set _); [done|].
      exact (begin_stream_rtsp (set_kind v VVK_RAW) ring sc false now). }
    destruct (detect_timeout v ke slot ring sc now) as [[] v1]; [by apply Hwrite|intros [= <-]; by apply Hkeep].
  - intros Ht. apply within_end. revert Ht. unfold viewer_event. destruct hup.
    { intros [= <-]. by apply (within_dropped port2 evs [] _ true), within_start. }
    cbn [rv_ops]. set (p := if inp then _ else _). set (reads := if inp then _ else _).
    assert (Hr : Within_event port2 evs reads p.1 p.2).
    { unfold p, reads. destruct inp; [by apply on_readable_within|by apply within_start]. }
    clearbody p reads. destruct p as [ok v1]. cbn [fst snd] in Hr. destruct ok; cbn [negb].
    + destruct outp; [by apply write_turn_within|]. intros [= <-]. by rewrite app_nil_r.
    + intros [= <-]. by eapply within_dropped.
Qed.

(** C16: Nobody gets a stream they may not have.  Whatever a connection sends and whenever --
    split requests, silence, a WebSocket upgrade, RTSP, a change of mind after an error -- and
    however the loop's turns and the socket's events interleave: it streams, or has been
    sent any of the stream, only if at some earlier turn it was entitled to: it had sent a
    complete request whose view token is valid for this entry and slot at that time, or
    which carries the viewer password if the entry has one; or it had been silent, on a slot
    that allows raw viewers, of an entry without a viewer password; or the bytes it had sent
    began a TLS handshake (the case in which the code asks for no credential).  And a
    connection that plays over RTSP is authorised, holds a session, plays or has been sent media
    only if, since it became an RTSP viewer, it has sent a request for its own slot with
    credentials acceptable when it was handled. *)
Theorem viewer_admitted v k port2 ip port now evs r v' :
  rtsp_view_ v = None -> vw_run (start v k port2 ip port now) evs = r -> turn_left r = Some v' ->
  (streaming_ v' = true \/ bytes_sent_ v' <> 0 -> Exists (entitles port2) evs)
  /\ (forall x, rtsp_view_ v' = Some x -> granted x -> rtsp_entitled port2 evs).
Proof.
  intros Hr <- Ht.
  assert (H0 : Lawful port2 [] (start v k port2 ip port now)).
  { split; [done|by apply start_role|done|done]. }
  assert (R0 : RtspOk port2 [] true (start v k port2 ip port now)) by (intros x; cbn; by rewrite Hr).
  assert (Hrun : forall evs0 evs v0, Lawful port2 evs0 v0 -> RtspOk port2 evs0 true v0 -> turn_left (vw_run v0 evs) = Some v' ->
    exists evs1 alive, Lawful port2 evs1 v' /\ RtspOk port2 evs1 alive v' /\ evs1 `prefix_of` evs0 ++ evs).
  { clear. intros evs0 evs. revert evs0. induction evs as [|ev evs IH]; intros evs0 v0 Hl Ho Ht; cbn [vw_run] in Ht.
    { injection Ht as <-. exists evs0, true. by rewrite app_nil_r. }
    pose proof (vw_step_lawful port2 evs0 ev v0) as Hstep.
    pose proof (vw_step_rtsp port2 evs0 ev v0) as Hrtsp.
    destruct (vw_step v0 ev) as [v1|v1|v1|]; [|exists (evs0 ++ [ev]), false..|done].
    - destruct (IH (evs0 ++ [ev]) v1 (Hstep v1 Hl eq_refl) (Hrtsp v1 (ad_port _ _ _ Hl) Ho eq_refl) Ht) as (evs1 & al & H1 & H2 & H3).
      exists evs1, al. by rewrite <-app_assoc in H3.
    - split_and!; [by apply Hstep|apply (Hrtsp v'); [apply Hl|done|done]|]. exists evs. by rewrite <-app_assoc.
    - split_and!; [by apply Hstep|apply (Hrtsp v'); [apply Hl|done|done]|]. exists evs. by rewrite <-app_assoc. }
  destruct (Hrun [] evs _ H0 R0 Ht) as (evs1 & al & Hl & Ho & t & E). cbn in E. rewrite E. split.
  - intros Hs. apply Exists_app. left.
    apply (ad_streaming _ _ _ Hl). destruct Hs as [|Hs]; [done|]. by apply (or_sent _ (ad_orderly _ _ _ Hl)).
  - intros x Hx Hg. destruct (Ho x Hx) as (w & e1 & e2 & -> & Hv). exists e1, (e2 ++ t). split; [by rewrite app_assoc|].
    rewrite flat_map_app. by apply earned_app, (view_inv_granted sha256 hmac b64_read w port2 _ al x Hv).
Qed.
End admission.

(** ** What the model shows of the code *)

(** A connection that begins a TLS handshake becomes a WebSocket viewer whatever the entry's
    viewer password, and [begin_ws], which gives it the stream, is not told of the entry. *)
Lemma tls_needs_no_credential v rest env ke slot ring scanner now sha256 hmac b64_read :
  classify sha256 hmac b64_read v (tls_hello ++ rest) env ke slot ring scanner now = (true, set_kind v VVK_WS).
Proof. done. Qed.

(** A WebSocket that has failed is retried for as long as [errno] says EINTR. *)
Lemma failed_websocket_hangs v w ring now budget fuel :
  ws_ v = Some w -> (forall b, (WebSocket.send w b).1 < 0) -> 0 < budget -> read_pos_ v < write_pos_ ring ->
  read_at ring (read_pos_ v) (if budget <? CHUNK then budget else CHUNK) <> [] ->
  ring_loop (S fuel) v ring ErrIntr now budget = Done Hung.
Proof.
  intros Hw Hs Hb Hp Hd. cbn [ring_loop]. rewrite !(proj2 (Z.ltb_lt _ _)) by done. cbn [andb].
  set (d := read_at _ _ _) in *. destruct (Z.eqb_spec (len d) 0) as [E|_]; [by destruct d|].
  unfold push. rewrite Hw at 1. specialize (Hs d). destruct (WebSocket.send w d) as [n w1]. cbn [fst] in Hs.
  by rewrite (proj2 (Z.ltb_lt _ _)).
Qed.

(** ** A viewer of a small Matroska stream *)

Definition demo_mkv_stream : bytes :=
  concat (header_elems [(1%nat, [1]); (8%nat, []); (1%nat, []); (2%nat, [2; 3])])
  ++ cluster_bytes (1%nat, [9; 9]) ++ cluster_bytes (8%nat, [7]).
Definition demo_mkv_scanner : VideoScanner := VideoMkv.feed VideoMkv.live demo_mkv_stream 0.
Definition demo_mkv_ring : VideoRing := ring_write (ring_init 0) demo_mkv_stream.
Definition demo_client : VideoViewer := start viewer_new (Build_Sock [] []) 14550 16777343 4660 5.
Definition demo_call (rs : list snd_res) (now : Z) : vw_call :=
  {| vc_ring := demo_mkv_ring; vc_err := ErrAgain; vc_now := now; vc_results := rs; vc_mono := demo_clock; vc_wall := demo_clock |}.

Lemma demo_mkv_shows : Shows demo_mkv_stream demo_mkv_ring.
Proof.
  unfold demo_mkv_ring. change demo_mkv_stream with ([] ++ demo_mkv_stream) at 1.
  apply Shows_write; [apply Shows_init|by vm_compute].
Qed.

Definition demo_patchy_calls : list vw_call :=
  [demo_call [SndTook 30; SndIntr; SndTook 50; SndAgain] 6; demo_call [SndTook 200; SndTook 3; SndAgain] 7; demo_call [] 8].

Lemma viewer_stream_faithful_witness :
  exists v', left_in (calls (begin_stream demo_client demo_mkv_ring demo_mkv_scanner true 5) demo_patchy_calls) = Some v'
  /\ wire (sock v') `prefix_of` stream_header true ++ prefix demo_mkv_scanner ++ zdrop 38 demo_mkv_stream.
Proof.
  destruct (viewer_stream_faithful demo_client demo_mkv_ring demo_mkv_scanner true 5 demo_mkv_stream demo_patchy_calls
    (begin_stream demo_client demo_mkv_ring demo_mkv_scanner true 5) eq_refl eq_refl eq_refl) as (a & v' & Ha & E & Hp & _).
  - by vm_compute.
  - done.
  - by vm_compute.
  - exists demo_mkv_stream. split; [apply demo_mkv_shows|done].
  - repeat (constructor; [exists demo_mkv_stream; split; [apply demo_mkv_shows|done]|]); constructor.
  - exists v'. split; [exact E|]. assert (VideoMkv.join_offset demo_mkv_scanner = Some 38) as Ej by (vm_compute; reflexivity).
    rewrite Ej in Ha. injection Ha as <-. exact Hp.
Defined.

Lemma viewer_catches_up_witness :
  exists v', calls (begin_stream demo_client demo_mkv_ring demo_mkv_scanner true 5) (replicate 200 (demo_call [SndTook 1] 6)) = Keep v'
  /\ wire (sock v') = stream_header true ++ prefix demo_mkv_scanner ++ zdrop 38 demo_mkv_stream.
Proof.
  destruct (viewer_catches_up demo_client demo_mkv_ring demo_mkv_scanner true 5 demo_mkv_stream
    (replicate 200 (demo_call [SndTook 1] 6)) (begin_stream demo_client demo_mkv_ring demo_mkv_scanner true 5) eq_refl eq_refl eq_refl)
    as (a & v' & Ha & E & Hp).
  - by vm_compute.
  - apply demo_mkv_shows.
  - done.
  - by vm_compute.
  - by vm_compute.
  - apply list.Forall_forall. intros c [-> _]%elem_of_replicate. split; [done|]. split; [by exists 0%nat, []|].
    constructor; [done|constructor].
  - by vm_compute.
  - exists v'. split; [exact E|]. assert (VideoMkv.join_offset demo_mkv_scanner = Some 38) as Ej by (vm_compute; reflexivity).
    rewrite Ej in Ha. injection Ha as <-. exact Hp.
Defined.

Definition demo_read (b : bytes) : ReadEnv :=
  {| avail := RcvData b; ws_acc := AccAgain; ws_read := RdAgain; rtsp_random := None; wall_clock := 100 |}.
Definition demo_get : bytes := bs "GET /?pw=x HTTP/1.1" ++ crlf ++ bs "Host: h" ++ crlf ++ crlf.
Definition demo_view_turn (b : bytes) (now : Z) : vw_ev :=
  EvSock false true false (demo_read b) {| we_errno := ErrAgain; we_mono := demo_clock; we_wall := demo_clock |}
    demo_view_entry 0 demo_mkv_ring demo_mkv_scanner now.
Definition demo_view_evs : list vw_ev := [demo_view_turn (take 12 demo_get) 5; demo_view_turn demo_get 6].

(** The same client over RTSP: OPTIONS, and then DESCRIBE with the password. *)
Definition demo_rtsp_evs : list vw_ev :=
  [EvSock false true true {| avail := RcvData demo_requests; ws_acc := AccAgain; ws_read := RdAgain; rtsp_random := Some demo_random;
                             wall_clock := 100 |}
     {| we_errno := ErrAgain; we_mono := demo_clock; we_wall := demo_clock |} demo_view_entry 0 demo_mkv_ring VideoMkv.reset 6].

Lemma viewer_admitted_witness :
  (exists v', vw_run demo_hash demo_hmac id id id demo_client demo_view_evs = Stays v' /\ streaming_ v' = true
    /\ Exists (entitles demo_hash demo_hmac id 14550) demo_view_evs)
  /\ exists v' x, vw_run demo_hash demo_hmac id id id demo_client demo_rtsp_evs = Stays v' /\ rtsp_view_ v' = Some x
    /\ authorised_ x = true /\ rtsp_entitled demo_hash demo_hmac id 14550 demo_rtsp_evs.
Proof.
  split.
  - assert (Hr : exists v', vw_run demo_hash demo_hmac id id id demo_client demo_view_evs = Stays v' /\ streaming_ v' = true).
    { eexists. split; [vm_compute; reflexivity|vm_compute; reflexivity]. }
    destruct Hr as (v' & Hr & Hs). exists v'. split; [exact Hr|]. split; [exact Hs|].
    apply (viewer_admitted demo_hash demo_hmac id id id viewer_new (Build_Sock [] []) 14550 16777343 4660 5 demo_view_evs _ v'
      eq_refl eq_refl); [unfold demo_client in Hr; rewrite Hr; reflexivity|by left].
  - assert (Hr : exists v' x, vw_run demo_hash demo_hmac id id id demo_client demo_rtsp_evs = Stays v' /\ rtsp_view_ v' = Some x
      /\ authorised_ x = true).
    { do 2 eexists. split; [vm_compute; reflexivity|split; vm_compute; reflexivity]. }
    destruct Hr as (v' & x & Hr & Hx & Ha). exists v', x. split; [exact Hr|]. split; [exact Hx|]. split; [exact Ha|].
    eapply (viewer_admitted demo_hash demo_hmac id id id viewer_new (Build_Sock [] []) 14550 16777343 4660 5 demo_rtsp_evs _ v'
      eq_refl eq_refl); [unfold demo_client in Hr; rewrite Hr; reflexivity|exact Hx|by left].
Defined.
