(* ===== verification/VideoSlot.v ===== *)
(** * A video slot (video.cpp: Slot, VideoChild)

    The video child's state and the operations its publishers share: admission, latching,
    ingest into the ring, the scanner and the recorder, ending a stream, and the datagram
    publishers (MPEG-TS and bare RTP over UDP).  Every handler takes the child and the slot
    and gives them back; what the system calls answer is the environment of the event. *)

From S2P Require Import Prelude Tdb KeyDb ConnDb CStr VideoTs VideoStream VideoMkv VideoAuth Session Cleanup.
From S2P Require Import VideoRec HttpReq WebSocket HttpChunks Rtmp Socket Splice Backend VideoView.

Definition VIDEO_PUB_IDLE_S : Z := 10.
Definition VIDEO_MAX_VIEWERS_PER_IP : nat := 8.
Definition VIDEO_MAX_VIEWERS : nat := 32.
Definition VIDEO_MAX_PENDING_RTMP : nat := 4.
Definition VIDEO_RTP_SNIFF_MAX : Z := 64.
Definition VIDEO_RTP_RETRY_S : Z := 5.
Definition VIDEO_TICK_S : Z := 5.
Definition VIDEO_LOG_MIN_INTERVAL_S : Z := 1.
Definition UINT32_MAX : Z := 2 ^ 32 - 1.

Definition video_entry_wants_child (flags : Z) (video_ports : list Z) : bool :=
  negb (Z.land flags KEY_FLAG_VIDEO =? 0) && existsb (fun p => negb (p =? 0)) video_ports.

(** ** The state *)

(** An RTMP handshake: [fd] is its socket while it has one. *)
Record PendingRtmp := {
  fd : option Sock;
  sess : option RtmpSession;
  out : SpliceQueue;
  since : Z;
  ip_be : Z;
  port_be : Z
}.

#[export] Instance eta_PendingRtmp : Eta PendingRtmp := fun p =>
  Build_PendingRtmp (fd p) (sess p) (out p) (since p) (ip_be p) (port_be p).

Definition pending_new : PendingRtmp :=
  {| fd := None; sess := None; out := queue_new; since := 0; ip_be := 0; port_be := 0 |}.
Definition pending_active (p : PendingRtmp) : bool := match fd p with Some _ => true | None => false end.

Record Slot := {
  port : Z;
  udp_fd : bool;                 (* bound *)
  tcp_fd : bool;
  has_pub : bool;
  pub_ip_be : Z;
  pub_port_be : Z;
  pub_since : Z;
  pub_last : Z;
  pub_bytes : Z;
  last_reject_log : Z;
  rejects : Z;
  rtsp : RtspBackend;
  rtsp_client_fd : option Sock;
  to_backend : SpliceQueue;
  to_client : SpliceQueue;
  rtsp_guard : RtspRequestGuard;
  rtmp : option RtmpSession;
  pending : list PendingRtmp;
  mkv_open : bool;               (* mkv_fd >= 0 *)
  chunks : VideoChunks;
  ring : VideoRing;
  scanner : VideoScanner;
  rec : VideoWriter;
  viewers : list VideoViewer;
  viewer_events : list Z;
  viewers_seen : Z;
  viewers_dropped : Z;
  recording : bool;
  last_anchor : Z;
  had_anchor : bool;
  bad_datagrams : Z;
  warned_204 : bool;
  rtp_seen : Z;
  rtp_retry_after : Z;
  ledger : Ledger                (* the backend's descriptors and child *)
}.

#[export] Instance eta_Slot : Eta Slot := fun s =>
  Build_Slot (port s) (udp_fd s) (tcp_fd s) (has_pub s) (pub_ip_be s) (pub_port_be s) (pub_since s) (pub_last s)
    (pub_bytes s) (last_reject_log s) (rejects s) (rtsp s) (rtsp_client_fd s) (to_backend s) (to_client s)
    (rtsp_guard s) (rtmp s) (pending s) (mkv_open s) (chunks s) (ring s) (scanner s) (rec s) (viewers s)
    (viewer_events s) (viewers_seen s) (viewers_dropped s) (recording s) (last_anchor s) (had_anchor s)
    (bad_datagrams s) (warned_204 s) (rtp_seen s) (rtp_retry_after s) (ledger s).

Implicit Types s : Slot.

Definition slot_new : Slot := {|
  port := 0; udp_fd := false; tcp_fd := false; has_pub := false; pub_ip_be := 0; pub_port_be := 0; pub_since := 0;
  pub_last := 0; pub_bytes := 0; last_reject_log := 0; rejects := 0; rtsp := backend_new; rtsp_client_fd := None;
  to_backend := queue_new; to_client := queue_new; rtsp_guard := guard_new; rtmp := None;
  pending := replicate VIDEO_MAX_PENDING_RTMP pending_new; mkv_open := false; chunks := HttpChunks.init;
  ring := Build_VideoRing [] 0; scanner := VideoMkv.reset; rec := writer_init;
  viewers := replicate VIDEO_MAX_VIEWERS viewer_new; viewer_events := replicate VIDEO_MAX_VIEWERS 0;
  viewers_seen := 0; viewers_dropped := 0; recording := false; last_anchor := 0; had_anchor := false;
  bad_datagrams := 0; warned_204 := false; rtp_seen := 0; rtp_retry_after := 0;
  ledger := {| fds := []; kids := []; faults := false |}
|}.

Definition reset_rtp s : Slot := s <| rtp_seen := 0 |> <| rtp_retry_after := 0 |>.

Record VideoChild := {
  port2_ : Z;
  auth_ : VideoAuth;
  ke_ : KeyEntry;
  slots_ : list Slot;
  last_tick_ : Z;
  disk : Disk                    (* where the recorders write *)
}.

#[export] Instance eta_VideoChild : Eta VideoChild := fun c =>
  Build_VideoChild (port2_ c) (auth_ c) (ke_ c) (slots_ c) (last_tick_ c) (disk c).

Implicit Types c : VideoChild.

Definition session_ok c (idx : Z) : bool := negb (Z.land (video_slot_opts_of (ke_ c) idx) VIDEO_SLOT_SESSION_OK =? 0).
Definition open_publish c (idx : Z) : bool := negb (Z.land (video_slot_opts_of (ke_ c) idx) VIDEO_SLOT_OPEN_PUB =? 0).
Definition records c (idx : Z) : bool := negb (Z.land (video_slot_opts_of (ke_ c) idx) VIDEO_SLOT_RECORD =? 0).

(** What the calls made while one event is handled meet. *)
Record Env (db : Type) := {
  now : Z;                       (* the event's time *)
  clock : Z;                     (* time(nullptr), later *)
  rd1 : option db;               (* connections.tdb, opened once or twice *)
  rd2 : option db;
  backend_env : StartEnv;
  stop_env : nat -> wait_res;    (* waitpid, when a backend is stopped *)
  datagram_taken : bool;         (* sendto took a whole datagram *)
  ctl : bool                     (* epoll_ctl succeeds *)
}.
Arguments now {db} _.
Arguments clock {db} _.
Arguments rd1 {db} _.
Arguments rd2 {db} _.
Arguments backend_env {db} _.
Arguments stop_env {db} _.
Arguments datagram_taken {db} _.
Arguments ctl {db} _.

Definition log_reject s (now : Z) : Slot :=
  let s := s <| rejects := u32 (rejects s + 1) |> in
  if now - last_reject_log s <? VIDEO_LOG_MIN_INTERVAL_S then s else s <| last_reject_log := now |>.

(** ** Binding *)

(** [binds]: what binding a port's UDP and TCP socket gives ([None], or the errno). *)
Definition bind_slot (ke : KeyEntry) (i : Z) (udp tcp : option Z) (first_err : Z) s : Z * Slot :=
  let p := video_port_of ke i in
  if p =? 0 then (first_err, s)
  else
    let note (r : option Z) (err : Z) :=
      match r with Some e => if err =? 0 then (if e =? 0 then 98 else e) else err | None => err end in
    let bound (r : option Z) := match r with None => true | Some _ => false end in
    (note tcp (note udp first_err), s <| port := p |> <| udp_fd := bound udp |> <| tcp_fd := bound tcp |>).

Fixpoint bind_slots (ke : KeyEntry) (i : Z) (binds : list (option Z * option Z)) (first_err : Z) (ss : list Slot)
  : Z * list Slot :=
  match ss, binds with
  | s :: ss, (u, t) :: binds =>
    let '(err, s) := bind_slot ke i u t first_err s in
    let '(err, ss) := bind_slots ke (i + 1) binds err ss in (err, s :: ss)
  | _, _ => (first_err, ss)
  end.

(** The byte the parent reads. *)
Definition ready_byte (err : Z) : Z := u8 (if 255 <? err then 255 else err).

(** ** Viewers dropped *)

Definition drop_viewer c s (v : nat) : VideoChild * Slot :=
  match viewers s !! v with
  | Some vw =>
    if VideoView.active vw
    then (c <| last_tick_ := 0 |>,
          s <| viewers := <[v := VideoView.close vw]> (viewers s) |> <| viewers_dropped := u32 (viewers_dropped s + 1) |>)
    else (c, s)
  | None => (c, s)
  end.

Definition set_viewer s (v : nat) (vw : VideoViewer) : Slot := s <| viewers := <[v := vw]> (viewers s) |>.

(** The loop of [end_stream]. *)
Fixpoint end_viewers (n : nat) c s (why : bytes) : VideoChild * Slot :=
  match n with
  | O => (c, s)
  | S n =>
    let '(c, s) := end_viewers n c s why in
    match viewers s !! n with
    | Some vw => if VideoView.active vw then drop_viewer c (set_viewer s n (set_drop_reason vw why)) n else (c, s)
    | None => (c, s)
    end
  end.

Definition forget_stream s : Slot :=
  s <| ring := ring_reset (ring s) |> <| scanner := VideoMkv.reset |> <| last_anchor := 0 |> <| had_anchor := false |>
    <| bad_datagrams := 0 |> <| warned_204 := false |> <| pub_bytes := 0 |>.

Definition end_stream c s (why : bytes) : VideoChild * Slot :=
  let '(c, s) := end_viewers VIDEO_MAX_VIEWERS c s why in (c, forget_stream s).

Section slot.
Context {db : Type} `{Tdb db}.
Variable sha256 : bytes -> bytes.
Variable gmtime_r localtime_r : Z -> option tm.
Variable grace_env video_quota_env seconds_env bytes_env ring_env : option bytes.

Implicit Types e : Env db.

(** [auth_.admit(ke_, ip, pw, capable, session_ok(idx), open_publish(idx), now)]. *)
Definition admission c (idx ip : Z) (pw : option bytes) (capable : bool) e : video_admit_t * VideoChild :=
  let '(r, a, _) := admit_publisher sha256 (auth_ c) (ke_ c) ip pw capable (session_ok c idx) (open_publish c idx)
                      (now e) (rd1 e) (rd2 e) in
  (r, c <| auth_ := a |>).

(** ** Taking and feeding the slot *)

Definition configure_recorder c s (idx : Z) : Slot :=
  let ke := ke_ c in
  s <| rec := if recording s
              then configure (rec s) (u32 (port2_ c)) idx (negb (Z.land (flags ke) KEY_FLAG_USE_TZ =? 0))
                     (tz_offset_hours ke) (Some (bs "logs")) (video_quota_mb ke)
              else rec s |>.

Definition latched s (now : Z) : Slot :=
  reset_rtp (s <| has_pub := true |> <| pub_since := now |> <| pub_last := now |> <| pub_bytes := 0 |>
               <| ring := ring_init (video_ring_bytes ring_env) |> <| scanner := VideoMkv.reset |>
               <| rec := set_matroska (rec s) false |> <| had_anchor := false |>).

Definition latch_publisher c s (idx now : Z) : VideoChild * Slot :=
  (c <| last_tick_ := 0 |>, configure_recorder c ((latched s now) <| recording := records c idx |>) idx).

(** The scanner, which needs the offset the bytes will have, and then the ring. *)
Definition take_bytes s (buf : bytes) : Slot :=
  s <| pub_bytes := u64 (pub_bytes s + len buf) |>
    <| scanner := VideoMkv.feed (scanner s) buf (write_pos_ (ring s)) |> <| ring := ring_write (ring s) buf |>.

(** A join point has arrived with the bytes from [before] on. *)
Definition at_boundary s (before : Z) : bool :=
  match join_offset (scanner s) with
  | Some anchor => had_anchor s && (last_anchor s <? anchor) && (before <=? anchor)
  | None => false
  end.

Definition note_anchor s : Slot :=
  match join_offset (scanner s) with
  | Some anchor => s <| last_anchor := anchor |> <| had_anchor := true |>
  | None => s
  end.

Definition rotate_recorder c s : VideoChild * Slot :=
  let '(w, k) := VideoRec.rotate (rec s) (disk c) in (c <| disk := k |>, s <| rec := w |>).

Definition write_recorder c s (buf : bytes) (t : Z) : bool * VideoChild * Slot :=
  let '(ok, w, k) := VideoRec.write gmtime_r localtime_r grace_env video_quota_env bytes_env (rec s) (disk c) buf t in
  (ok, c <| disk := k |>, s <| rec := w |>).

Definition close_recorder c s : VideoChild * Slot :=
  let '(w, k) := close_segment (rec s) (disk c) in (c <| disk := k |>, s <| rec := w |> <| recording := false |>).

Definition segment_due s (t : Z) : bool * Slot :=
  let '(due, w) := rotation_due seconds_env bytes_env (rec s) t in (due, s <| rec := w |>).

(** What [ingest] and [ingest_stream] do with the bytes taken; [t] is the clock. *)
Definition record c s (buf : bytes) (before t : Z) : VideoChild * Slot :=
  if negb (recording s) || stopped_ (rec s) then (c, s)
  else
    let '(due, s) := segment_due s t in
    let '(c, s) := if due && (at_boundary s before || rotation_overdue (rec s) t) then rotate_recorder c s else (c, s) in
    let '(_, c, s) := write_recorder c (note_anchor s) buf t in (c, s).

Definition ingest_stream c s (buf : bytes) (t : Z) : VideoChild * Slot :=
  let before := write_pos_ (ring s) in record c (take_bytes s buf) buf before t.

(** A whole number of packets. *)
Definition ts_datagram (buf : bytes) : bool :=
  negb ((len buf <? TS_PACKET_SIZE) || negb (byte_at buf 0 =? TS_SYNC_BYTE) || negb (len buf mod TS_PACKET_SIZE =? 0)
        || ((TS_PACKET_SIZE <? len buf) && negb (byte_at buf TS_PACKET_SIZE =? TS_SYNC_BYTE))).
Definition dvb_datagram (buf : bytes) : bool :=
  (len buf mod 204 =? 0) && (204 <=? len buf) && (byte_at buf 0 =? TS_SYNC_BYTE).

Definition bad_datagram s : Slot := s <| bad_datagrams := u64 (bad_datagrams s + 1) |>.

Definition ingest c s (buf : bytes) (t : Z) : VideoChild * Slot :=
  if negb (ts_datagram buf) then
    (c, bad_datagram (if negb (warned_204 s) && dvb_datagram buf then s <| warned_204 := true |> else s))
  else ingest_stream c s buf t.

(** ** Bare RTP *)

Inductive rtp_codec_t := RTP_CODEC_UNKNOWN | RTP_CODEC_H264 | RTP_CODEC_HEVC.
#[local] Instance rtp_codec_eq_dec : EqDecision rtp_codec_t.
Proof. solve_decision. Defined.

(** Where the payload of a datagram that is forwarded starts. *)
Definition rtp_payload_offset (buf : bytes) : option Z :=
  let n := len buf in
  if (n <? 13) || negb (Z.land (byte_at buf 0) 0xC0 =? 0x80) then None
  else
    let pt := Z.land (byte_at buf 1) 0x7f in
    if (pt <? 96) || (127 <? pt) then None
    else
      let off := 12 + 4 * Z.land (byte_at buf 0) 0x0f in
      let ext := negb (Z.land (byte_at buf 0) 0x10 =? 0) in
      if ext && (n <? off + 4) then None
      else
        let off := if ext
                   then off + 4 + 4 * Z.lor (Z.shiftl (byte_at buf (off + 2)) 8) (byte_at buf (off + 3))
                   else off in
        if off <? n then Some off else None.

Definition rtp_codec_hint (p : bytes) : rtp_codec_t :=
  let b0 := byte_at p 0 in
  let b1 := byte_at p 1 in
  if (len p <? 2) || negb (Z.land b0 0x80 =? 0) then RTP_CODEC_UNKNOWN
  else if existsb (Z.eqb b0) [0x40; 0x42; 0x44; 0x60; 0x62] then
    if (Z.land b1 0xF8 =? 0) && negb (Z.land b1 0x07 =? 0) then RTP_CODEC_HEVC else RTP_CODEC_UNKNOWN
  else
    let t := Z.land b0 0x1f in
    if existsb (Z.eqb t) [28; 24] then RTP_CODEC_H264
    else if existsb (Z.eqb t) [5; 7; 8] then if Z.land b0 0x60 =? 0x60 then RTP_CODEC_H264 else RTP_CODEC_UNKNOWN
    else RTP_CODEC_UNKNOWN.

Definition set_backend s (r : bool * RtspBackend * Ledger) : bool * Slot :=
  let '(ok, b, l) := r in (ok, s <| rtsp := b |> <| ledger := l |>).

Definition start_backend c s (idx : Z) (proto : splice_proto_t) (codec : option bytes) e : bool * Slot :=
  set_backend s (Backend.start (rtsp s) (ledger s) (port2_ c) idx proto codec (backend_env e)).

Definition forward_rtp s (buf : bytes) e : Slot := s <| rtsp := (send_rtp (rtsp s) buf (datagram_taken e)).2 |>.

Definition count_rtp s : Slot := if rtp_seen s <? UINT32_MAX then s <| rtp_seen := rtp_seen s + 1 |> else s.
Definition rtp_name (codec : rtp_codec_t) : bytes := if bool_decide (codec = RTP_CODEC_HEVC) then bs "H265" else bs "H264".

Definition ingest_rtp c s (idx : Z) (buf : bytes) e : Slot :=
  match rtp_payload_offset buf with
  | None => s
  | Some off =>
    let s := count_rtp s in
    if now e <? rtp_retry_after s then s
    else
      let codec := rtp_codec_hint (zdrop off buf) in
      if bool_decide (codec = RTP_CODEC_UNKNOWN) && (rtp_seen s <? VIDEO_RTP_SNIFF_MAX) then s
      else
        let '(ok, s) := start_backend c s idx SPLICE_RTP (Some (rtp_name codec)) e in
        if negb ok then s <| rtp_retry_after := now e + VIDEO_RTP_RETRY_S |> else forward_rtp s buf e
  end.

(** ** UDP publishers *)

Definition ingest_udp c s (idx : Z) (buf : bytes) e : VideoChild * Slot :=
  if running (rtsp s) then (c, if bool_decide (proto_ (rtsp s) = SPLICE_RTP) then forward_rtp s buf e else s)
  else if (0 <? rtp_seen s)
          || ((packets (stats_ (tss (scanner s))) =? 0) && match rtp_payload_offset buf with Some _ => true | None => false end)
  then (c, ingest_rtp c s idx buf e)
  else ingest c s buf (clock e).

(** No publisher may take the slot: one holds it that has been heard of, or a connection does. *)
Definition fresh_pub s (now : Z) : bool := has_pub s && (now - pub_last s <=? VIDEO_PUB_IDLE_S).
Definition connected s : bool := match rtsp_client_fd s with Some _ => true | None => false end.

(** A live publisher. *)
Definition hear s (now : Z) : Slot := s <| pub_last := now |>.

Definition claim s (ip port : Z) : Slot := s <| pub_ip_be := ip |> <| pub_port_be := port |>.

Definition UDP_BUF : Z := 65536.

(** [d]: the datagram, whole ([None]: [recvfrom] failed). *)
Definition handle_udp c s (idx : Z) (d : option bytes) (ip port : Z) e : VideoChild * Slot :=
  match d with
  | None | Some [] => (c, s)
  | Some buf =>
    if mkv_open s then (c, s)
    else if UDP_BUF <? len buf then (c, bad_datagram s)
    else if has_pub s && (pub_ip_be s =? ip) && (pub_port_be s =? port) then
      ingest_udp c (hear s (now e)) idx buf e
    else
      let '(r, c) := admission c idx ip None false e in
      if negb (bool_decide (r = VIDEO_ADMIT_OK)) then (c, log_reject s (now e))
      else if fresh_pub s (now e) || running (rtsp s) || connected s then (c, log_reject s (now e))
      else
        let '(c, s) := latch_publisher c (claim s ip port) idx (now e) in
        ingest_udp c s idx buf e
  end.

(** ** A viewer's connection *)

Definition from_ip s (ip : Z) : nat :=
  length (filter (fun v => VideoView.active v = true /\ peer_ip_be_ v = ip) (viewers s)).

Fixpoint free_slot (i : nat) (vs : list VideoViewer) : option nat :=
  match vs with
  | [] => None
  | v :: vs => if VideoView.active v then free_slot (S i) vs else Some i
  end.

Definition EPOLLIN : Z := 1.
Definition EPOLLOUT : Z := 4.
Definition EPOLLRDHUP : Z := 0x2000.
Definition EPOLLET : Z := 0x80000000.

Definition set_events s (v : nat) (ev : Z) : Slot := s <| viewer_events := <[v := ev]> (viewer_events s) |>.

Definition epoll_add_viewer s (v : nat) (ctl : bool) : Slot :=
  if ctl then set_events s v (Z.lor EPOLLIN EPOLLRDHUP) else s.

Definition epoll_sync_viewer s (v : nat) (ctl : bool) : Slot :=
  match viewers s !! v with
  | None => s
  | Some vw =>
    let want := Z.lor (Z.lor EPOLLIN EPOLLRDHUP)
                  (Z.lor (if VideoView.wants_write vw then EPOLLOUT else 0) (if holding_bytes_ vw then EPOLLET else 0)) in
    if want =? default 0 (viewer_events s !! v) then s else if ctl then set_events s v want else s
  end.

Definition too_many_viewers : bytes :=
  http_simple_response 503 (bs "too many viewers") (bs "text/plain")
    (bs "This stream already has the maximum number of viewers." ++ [10]).

Definition place_viewer s (v : nat) (k : Sock) (port2 ip port now : Z) : Slot :=
  set_events (set_viewer s v (VideoView.start (default viewer_new (viewers s !! v)) k port2 ip port now)) v 0
    <| viewers_seen := u32 (viewers_seen s + 1) |>.

(** [k]: the accepted socket ([None]: [accept] failed); also what the refused connection's
    socket has been sent. *)
Definition handle_tcp c s (k : option Sock) (ip port : Z) e : option Sock * Slot :=
  match k with
  | None => (None, s)
  | Some k =>
    let free := if (from_ip s ip <? VIDEO_MAX_VIEWERS_PER_IP)%nat then free_slot O (viewers s) else None in
    match free with
    | None => (Some (sock_send k too_many_viewers).2, s)
    | Some v =>
      (None, epoll_add_viewer (place_viewer s v k (port2_ c) ip port (now e)) v (ctl e))
    end
  end.

(** ** Releasing the slot *)

Definition end_splice s (stops : nat -> wait_res) : Slot :=
  let s := s <| rtsp_client_fd := (None : option Sock) |> <| rtmp := (None : option RtmpSession) |>
             <| to_backend := queue_new |> <| to_client := queue_new |> <| rtsp_guard := guard_new |> in
  (set_backend s (true, (Backend.stop (rtsp s) (ledger s) stops).1, (Backend.stop (rtsp s) (ledger s) stops).2)).2.

Definition publisher_gone : bytes := bs "publisher gone".

Definition close_rtsp c s (stops : nat -> wait_res) : VideoChild * Slot :=
  if negb (running (rtsp s)) && match media_fd_ (rtsp s) with None => true | Some _ => false end
     && negb (connected s) && match rtmp s with None => true | Some _ => false end
  then (c, s)
  else
    let '(c, s) := close_recorder c (end_splice s stops) in
    end_stream c (reset_rtp (s <| has_pub := false |>)) publisher_gone.

(** A datagram publisher that has gone quiet. *)
Definition release_idle c s : VideoChild * Slot :=
  let '(c, s) := close_recorder c (reset_rtp (s <| has_pub := false |>)) in end_stream c s publisher_gone.
End slot.
