(* ===== verification/MkvPublish.v ===== *)
(** * A slot's Matroska publisher (video.cpp: handle_mkv, pump_mkv, close_mkv)

    Admission of the request, and the composition of the chunk decoder, the scanner, the ring
    and the recorder that a publisher's bytes go through.  The socket is the environment. *)

From S2P Require Import Prelude Tdb KeyDb CStr VideoTs VideoStream VideoAuth HttpReq WebSocket Session VideoMkv.
From S2P Require Import HttpChunks VideoRec Socket Splice Backend VideoSlot.

(** ** The decoder's output, piece by piece *)

Definition prepend (E : list bytes) (c : VideoChunks) : VideoChunks := c <| emitted := E ++ emitted c |>.

Lemma turn_prepend E c p : turn (prepend E c) p = ((turn c p).1, prepend E (turn c p).2).
Proof.
  destruct c as [l r e em]. unfold prepend, turn, payload, start_chunk. cbn [line remaining ending emitted].
  destruct (negb (r =? 0)); [cbn; by rewrite app_assoc|].
  destruct (negb (e =? 0)); [by destruct (_ =? _)|].
  destruct (_ =? 10); [by destruct (parse_line l)|done].
Qed.

Lemma bytes_run_prepend E c p : bytes_run (prepend E c) p = ((bytes_run c p).1, prepend E (bytes_run c p).2).
Proof.
  revert c. induction p as [|b p IH]; intros c; [done|]. cbn [bytes_run]. rewrite turn_prepend.
  destruct (turn c [b]) as [[[] ?] d]; cbn [fst snd]; [apply IH|done].
Qed.

Lemma bytes_run_remaining c p : 0 <= remaining c -> 0 <= remaining (bytes_run c p).2.
Proof.
  revert c. induction p as [|b p IH]; intros c Hr; [done|]. cbn [bytes_run].
  pose proof (turn_remaining c [b] ltac:(done) Hr) as Ht.
  destruct (turn c [b]) as [[[] ?] d]; [by apply IH|done].
Qed.

(** The bytes emitted only ever grow. *)
Lemma bytes_run_emits c p : exists X, concat (emitted (bytes_run c p).2) = concat (emitted c) ++ X.
Proof.
  pose proof (bytes_run_prepend (emitted c) (c <| emitted := ([] : list bytes) |>) p) as H.
  replace (prepend (emitted c) _) with c in H by (destruct c; unfold prepend; cbn; by rewrite app_nil_r).
  rewrite H. cbn. rewrite concat_app. by eexists.
Qed.

Lemma same_prepend E c1 c2 : same c1 c2 -> same (prepend E c1) (prepend E c2).
Proof. intros (? & ? & ? & Ho). unfold same, prepend. cbn. by rewrite !concat_app, Ho. Qed.

Lemma feed_all_snoc s ds d base : is_u64 base ->
  feed_all s (ds ++ [d]) base = VideoMkv.feed (feed_all s ds base) d (u64 (base + len (concat ds))).
Proof.
  revert s base. induction ds as [|e ds IH]; intros s base Hb; cbn [app feed_all concat].
  - change (len []) with 0. by rewrite Z.add_0_r, wrap_small.
  - rewrite IH by (apply wrap_range; lia). f_equal. rewrite length_app, wrap_add_l. f_equal. lia.
Qed.

Lemma feed_all_concat s ds es base :
  is_u64 base -> feed_all s (ds ++ es) base = feed_all (feed_all s ds base) es (u64 (base + len (concat ds))).
Proof.
  revert s base. induction ds as [|d ds IH]; intros s base Hb; cbn [app feed_all concat].
  - change (len []) with 0. by rewrite Z.add_0_r, wrap_small.
  - rewrite IH by (apply wrap_range; lia). f_equal. rewrite length_app, wrap_add_l. f_equal. lia.
Qed.

Lemma feed_all_matroska s ds base : matroska s = true -> matroska (feed_all s ds base) = true.
Proof. revert s base. induction ds; intros; [done|]. cbn. by apply IHds, feed_matroska. Qed.

(** A scanner that has failed on part of the stream fails on all of it. *)
Lemma failed_part ds X :
  failed (VideoMkv.feed live (concat ds ++ X) 0) = false -> failed (feed_all live ds 0) = false.
Proof.
  intros Hf. destruct (failed (feed_all live ds 0)) eqn:E; [|done]. rewrite <-Hf. symmetry.
  destruct ds as [|d ds]; [done|].
  pose proof (feed_pieces live d (ds ++ [X]) 0 ltac:(done) eq_refl (or_introl eq_refl)) as Hv.
  rewrite app_comm_cons, feed_all_concat in Hv by done.
  rewrite feed_failed_all in Hv by (done || by apply feed_all_matroska).
  rewrite concat_app in Hv. cbn [concat] in Hv. rewrite app_nil_r, app_assoc in Hv.
  cbn [concat]. by rewrite <-failed_visible, <-Hv, failed_visible.
Qed.

Implicit Types s : Slot.
Implicit Types c : VideoChild.

Definition mkv_path (idx : Z) : bytes := bs "/v" ++ print_dec (idx + 1) ++ bs ".mkv".

(** The request a Matroska publisher must make. *)
Definition mkv_valid (idx : Z) (req : HttpRequest) : bool :=
  bool_decide (HttpReq.path_ req = mkv_path idx)
  && (header_count req (bs "Content-Type") =? 1)
  && bool_decide (header req (bs "Content-Type") = bs "video/x-matroska")
  && (header_count req (bs "Transfer-Encoding") =? 1)
  && bool_decide (header req (bs "Transfer-Encoding") = bs "chunked")
  && (header_count req (bs "Content-Length") =? 0)
  && bool_decide (header req (bs "Expect") = bs "100-continue").

Definition mkv_code (idx : Z) (req : HttpRequest) (admission : video_admit_t) (busy : bool) : Z :=
  if negb (bool_decide (admission = VIDEO_ADMIT_OK)) then 403
  else if busy then 409
  else if mkv_valid idx req then 100
  else 400.

Definition mkv_rejection (code : Z) : bytes :=
  http_simple_response code (bs "publish rejected") (bs "text/plain") (bs "Cannot publish this stream." ++ [10]).
Definition mkv_continue : bytes := bs "HTTP/1.1 100 Continue" ++ [13; 10; 13; 10].

Definition MKV_PEEK : nat := 2048.
Definition MKV_READ : nat := Z.to_nat 65536.

Definition set_chunks s (k : VideoChunks) : Slot := s <| chunks := k |>.

Section mkv.
Context {db : Type} `{Tdb db}.
Variable sha256 : bytes -> bytes.
Variable gmtime_r localtime_r : Z -> option tm.
Variable grace_env video_quota_env seconds_env bytes_env ring_env : option bytes.

Implicit Types e : Env db.

(** From the latch to the scanner's callback. *)
Definition start_mkv c s (idx ip port now : Z) : VideoChild * Slot :=
  let '(c, s) := latch_publisher ring_env c (claim s ip port) idx now in
  (c, s <| mkv_open := true |> <| chunks := HttpChunks.init |> <| scanner := (scanner s) <| matroska := true |> |>
        <| rec := set_matroska (rec s) true |>).

(** [peek]: what the socket holds ([[]] for an error or end of stream); [header_read],
    [sent_100]: whether the header came off the socket whole and the interim response went
    out whole.  The reply the connection is closed with, if it is refused. *)
Definition handle_mkv c s (idx ip port : Z) (peek : bytes) (header_read sent_100 : bool) e
  : option bytes * VideoChild * Slot :=
  match take MKV_PEEK peek with
  | [] => (Some [], c, s)
  | peek =>
    match HttpReq.feed http_init peek with
    | (1, req) =>
      let '(r, c) := admission sha256 c idx ip (http_query_value (target_ req) (bs "pw")) true e in
      let code := mkv_code idx req r (has_pub s || running (rtsp s) || mkv_open s) in
      if negb (code =? 100) then (Some (mkv_rejection code), c, s)
      else if negb header_read then (Some [], c, s)
      else if negb sent_100 then (Some mkv_continue, c, s)
      else let '(c, s) := start_mkv c s idx ip port (now e) in (None, c, s)
    | _ => (Some [], c, s)
    end
  end.

(** The scanner's callback: a whole cluster, for the recorder. *)
Definition on_cluster (t : Z) (st : VideoChild * Slot) (cluster : bytes) : VideoChild * Slot :=
  let '(c, s) := st in
  if negb (recording s) || stopped_ (rec s) then (c, s)
  else
    let '(due, s) := segment_due seconds_env bytes_env s t in
    let '(c, s) := if due then rotate_recorder c s else (c, s) in
    let '(ok, c, s) := if is_open (rec s) then (true, c, s)
                       else write_recorder gmtime_r localtime_r grace_env video_quota_env bytes_env c s
                              (prefix (scanner s)) t in
    if negb ok then (c, s)
    else let '(_, c, s) := write_recorder gmtime_r localtime_r grace_env video_quota_env bytes_env c s cluster t in (c, s).

(** The decoder's callback: one piece of the stream.  The scanner's callback touches only the
    recorder, so it is run after the scanner, on the clusters it has just found. *)
Definition publish (t : Z) (st : VideoChild * Slot) (data : bytes) : VideoChild * Slot :=
  let '(c, s) := st in
  let s' := take_bytes s data in
  fold_left (on_cluster t) (drop (length (clusters (scanner s))) (clusters (scanner s'))) (c, s').

(** What the decoder emits does not depend on what the callback does, so the callbacks are
    run after it, in order. *)
Definition decode c s (buf : bytes) (t : Z) : bool * VideoChild * Slot :=
  let '(ok, k) := HttpChunks.feed ((chunks s) <| emitted := ([] : list bytes) |>) buf in
  let '(c, s) := fold_left (publish t) (emitted k) (c, set_chunks s k) in (ok, c, s).

(** False to close the publisher's connection. *)
Definition pump_mkv c s (r : rd_out) e : bool * VideoChild * Slot :=
  match r with
  | RdFailed => (false, c, s)
  | RdAgain => (true, c, s)
  | RdEof => (false, c, s)
  | RdData b =>
    let '(ok, c, s) := decode c (hear s (now e)) (take MKV_READ b) (clock e) in
    (ok && negb (failed (scanner s)), c, s)
  end.

Definition close_mkv c s (why : bytes) : VideoChild * Slot :=
  let '(c, s) := close_recorder c (s <| mkv_open := false |> <| has_pub := false |>) in end_stream c s why.

(** The reads of a whole connection: whether every one kept it. *)
Fixpoint pump_all c s (reads : list bytes) e : bool * VideoChild * Slot :=
  match reads with
  | [] => (true, c, s)
  | b :: reads => let '(ok, c, s) := pump_mkv c s (RdData b) e in if ok then pump_all c s reads e else (false, c, s)
  end.

(** ** The callback, folded over the pieces *)

(** The recorder is all the scanner's callback touches. *)
Definition only_rec s s' : Prop := s' = s <| rec := rec s' |>.

#[local] Instance only_rec_refl : Reflexive only_rec.
Proof. by intros []. Qed.
#[local] Instance only_rec_trans : Transitive only_rec.
Proof. intros s1 s2 s3 H1 H2. unfold only_rec in *. rewrite H2, H1. reflexivity. Qed.

Lemma only_rec_set s w : only_rec s (s <| rec := w |>).
Proof. reflexivity. Qed.

Lemma segment_due_rec s t : only_rec s (segment_due seconds_env bytes_env s t).2.
Proof. unfold segment_due. destruct (rotation_due _ _ _ _). apply only_rec_set. Qed.
Lemma rotate_recorder_rec c s : only_rec s (rotate_recorder c s).2.
Proof. unfold rotate_recorder. destruct (VideoRec.rotate _ _). apply only_rec_set. Qed.
Lemma write_recorder_rec c s buf t :
  only_rec s (write_recorder gmtime_r localtime_r grace_env video_quota_env bytes_env c s buf t).2.
Proof. unfold write_recorder. destruct (VideoRec.write _ _ _ _ _ _ _ _ _) as [[? ?] ?]. apply only_rec_set. Qed.

Lemma on_cluster_rec t c s d : only_rec s (on_cluster t (c, s) d).2.
Proof.
  unfold on_cluster. destruct (_ || _); [reflexivity|].
  pose proof (segment_due_rec s t) as H1. destruct (segment_due _ _ s t) as [due s1].
  assert (H2 : only_rec s (if due then rotate_recorder c s1 else (c, s1)).2)
    by (etransitivity; [exact H1|]; destruct due; [apply rotate_recorder_rec|reflexivity]).
  destruct (if due then _ else _) as [c2 s2].
  assert (H3 : only_rec s (if is_open (rec s2) then (true, c2, s2) else
    write_recorder gmtime_r localtime_r grace_env video_quota_env bytes_env c2 s2 (prefix (scanner s2)) t).2)
    by (etransitivity; [exact H2|]; destruct (is_open _); [reflexivity|apply write_recorder_rec]).
  destruct (if is_open _ then _ else _) as [[ok c3] s3]. cbn [fst snd] in *. destruct ok; [|exact H3]. cbn [negb].
  pose proof (write_recorder_rec c3 s3 d t) as H4.
  destruct (write_recorder _ _ _ _ _ c3 s3 d t) as [[? ?] ?]. by etransitivity.
Qed.

Lemma on_clusters_frame t ds c s : only_rec s (fold_left (on_cluster t) ds (c, s)).2.
Proof.
  revert c s. induction ds as [|d ds IH]; intros c s; [reflexivity|]. cbn [fold_left].
  pose proof (on_cluster_rec t c s d). destruct (on_cluster t (c, s) d) as [c1 s1]. by etransitivity; [|apply IH].
Qed.

Lemma publish_spec t c s data :
  let s' := (publish t (c, s) data).2 in
  ring s' = ring_write (ring s) data /\ scanner s' = VideoMkv.feed (scanner s) data (write_pos_ (ring s))
  /\ pub_bytes s' = u64 (pub_bytes s + len data) /\ chunks s' = chunks s.
Proof. unfold publish. cbv zeta. pose proof (on_clusters_frame t) as Hf. unfold only_rec in Hf. rewrite Hf. done. Qed.

Lemma publish_open t c s data : mkv_open (publish t (c, s) data).2 = mkv_open s.
Proof. unfold publish. cbv zeta. pose proof (on_clusters_frame t) as Hf. unfold only_rec in Hf. rewrite Hf. done. Qed.

Lemma fold_publish t ds c s hist :
  Shows hist (ring s) -> len (hist ++ concat ds) < 2 ^ 64 -> pub_bytes s = len hist ->
  let s' := (fold_left (publish t) ds (c, s)).2 in
  Shows (hist ++ concat ds) (ring s') /\ scanner s' = feed_all (scanner s) ds (len hist)
  /\ pub_bytes s' = len (hist ++ concat ds) /\ chunks s' = chunks s
  /\ capacity (ring s') = capacity (ring s).
Proof.
  revert c s hist. induction ds as [|d ds IH]; intros c s hist Hs Hl Hp; [cbn; by rewrite app_nil_r|].
  cbn [fold_left concat] in *. rewrite app_assoc in *.
  assert (Hd : len (hist ++ d) < 2 ^ 64) by (rewrite length_app in Hl; lia).
  assert (Ew : u64 (len hist + len d) = len (hist ++ d))
    by (rewrite wrap_small; rewrite length_app in *; lia).
  destruct (publish_spec t c s d) as (R & Sc & B & K).
  destruct (publish t (c, s) d) as [c1 s1]. cbn [snd] in *.
  destruct (IH c1 s1 (hist ++ d)) as (H1 & H2 & H3 & H4 & H5).
  - rewrite R. by apply Shows_write.
  - done.
  - by rewrite B, Hp.
  - split_and!; [done| |done|by rewrite H4|].
    + rewrite H2, Sc. cbn [feed_all]. by rewrite Ew, (sh_pos _ _ Hs).
    + rewrite H5, R. apply capacity_write, (sh_cap _ _ Hs).
Qed.

(** ** A whole connection *)

(** After reading [p], of which the decoder made [ds]. *)
Record Pumped (cap : Z) (p : bytes) (ds : list bytes) s : Prop := {
  pm_ok : (bytes_run HttpChunks.init p).1 = true;
  pm_chunks : same (bytes_run HttpChunks.init p).2 (prepend ds ((chunks s) <| emitted := ([] : list bytes) |>));
  pm_ring : Shows (concat ds) (ring s) /\ capacity (ring s) = cap;
  pm_scanner : scanner s = feed_all live ds 0;
  pm_bytes : pub_bytes s = len (concat ds)
}.

Lemma decode_pumped cap p ds c s b X Y :
  Pumped cap p ds s -> (length b <= MKV_READ)%nat ->
  (bytes_run HttpChunks.init (p ++ b ++ X)).1 = true ->
  concat (emitted (bytes_run HttpChunks.init (p ++ b ++ X)).2) = Y -> len Y < 2 ^ 64 ->
  failed (VideoMkv.feed live Y 0) = false ->
  forall e, exists ds' c' s', pump_mkv c s (RdData b) e = (true, c', s') /\ Pumped cap (p ++ b) ds' s'.
Proof.
  intros [Hok Hch [Hr Hcap] Hsc Hpb] Hb Hall HY HlY Hf e.
  assert (Hpb' : bytes_run HttpChunks.init (p ++ b) = bytes_run (bytes_run HttpChunks.init p).2 b).
  { rewrite bytes_run_app. destruct (bytes_run HttpChunks.init p) as [[] ?]; done. }
  rewrite app_assoc, bytes_run_app in Hall, HY.
  assert (Hok2 : (bytes_run HttpChunks.init (p ++ b)).1 = true)
    by (destruct (bytes_run HttpChunks.init (p ++ b)) as [[] ?]; done).
  destruct (bytes_run HttpChunks.init (p ++ b)) as [ok2 c2] eqn:E2. cbn [fst] in Hok2. subst ok2.
  destruct (bytes_run_emits c2 X) as [Z0 HZ]. rewrite HY in HZ.
  set (ch0 := (chunks s) <| emitted := ([] : list bytes) |>) in *.
  pose proof (bytes_run_same _ _ b Hch) as [E3 E4]. rewrite <-Hpb', bytes_run_prepend in E3, E4. cbn [fst snd] in *.
  assert (Hrem : 0 <= remaining ch0).
  { destruct Hch as (_ & Er & _). change (remaining ch0) with (remaining (prepend ds ch0)). rewrite <-Er.
    apply bytes_run_remaining. done. }
  destruct (run_bytes (length b) ch0 b Hrem ltac:(lia)) as [E5 E6].
  unfold pump_mkv, decode. rewrite take_ge by done. set (s0 := hear s (now e)).
  change (chunks s0) with (chunks s). fold ch0.
  change (HttpChunks.feed ch0 b) with (HttpChunks.run (length b) ch0 b).
  destruct (HttpChunks.run (length b) ch0 b) as [ok c3]. cbn [fst snd] in *. rewrite <-E3 in E5. subst ok.
  assert (Hem : concat (emitted c2) = concat (ds ++ emitted c3)).
  { destruct E4 as (_ & _ & _ & ->), E6 as (_ & _ & _ & E6). cbn. by rewrite !concat_app, E6. }
  assert (Hlen : len (concat ds ++ concat (emitted c3)) < 2 ^ 64).
  { rewrite <-concat_app, <-Hem. rewrite HZ, length_app in HlY. lia. }
  destruct (fold_publish (clock e) (emitted c3) c (set_chunks s0 c3) (concat ds) Hr Hlen Hpb) as (H1 & H2 & H3 & H4 & H5).
  rewrite <-concat_app in *. change (scanner (set_chunks s0 c3)) with (scanner s) in H2.
  destruct (fold_left (publish (clock e)) (emitted c3) (c, set_chunks s0 c3)) as [c4 s4]. cbn [snd] in *.
  assert (Hsc2 : scanner s4 = feed_all live (ds ++ emitted c3) 0).
  { rewrite H2, Hsc, feed_all_concat by done. f_equal. rewrite wrap_small; [done|].
    rewrite concat_app, length_app in Hlen. lia. }
  rewrite Hsc2, (failed_part (ds ++ emitted c3) Z0) by (by rewrite <-Hem, <-HZ).
  exists (ds ++ emitted c3), c4, s4. split; [done|].
  split; [by rewrite E2| |split; [done|by rewrite H5]|done|done].
  rewrite E2. cbn [snd]. etransitivity; [exact E4|]. rewrite H4. change (chunks (set_chunks s0 c3)) with c3.
  destruct E6 as (X1 & X2 & X3 & X4). unfold same, prepend. cbn. rewrite app_nil_r, !concat_app, <-X4, X1, X2, X3. done.
Qed.

Lemma pump_all_pumped cap reads p ds c s e Y :
  Pumped cap p ds s -> Forall (fun b => (length b <= MKV_READ)%nat) reads ->
  (bytes_run HttpChunks.init (p ++ concat reads)).1 = true ->
  concat (emitted (bytes_run HttpChunks.init (p ++ concat reads)).2) = Y -> len Y < 2 ^ 64 ->
  failed (VideoMkv.feed live Y 0) = false ->
  exists ds' c' s', pump_all c s reads e = (true, c', s') /\ Pumped cap (p ++ concat reads) ds' s'.
Proof.
  intros Hp Hr. revert p ds c s Hp. induction Hr as [|b reads Hb Hr IH]; intros p ds c s Hp Hok HY Hl Hf.
  - exists ds, c, s. cbn [concat]. by rewrite app_nil_r.
  - cbn [concat pump_all] in *. destruct (decode_pumped cap p ds c s b (concat reads) Y Hp Hb Hok HY Hl Hf e)
      as (ds1 & c1 & s1 & -> & Hp1). rewrite app_assoc in *. by apply (IH (p ++ b) ds1 c1 s1).
Qed.

Lemma start_mkv_fields c s idx ip port now :
  let s' := (start_mkv c s idx ip port now).2 in
  chunks s' = HttpChunks.init /\ ring s' = ring_init (video_ring_bytes ring_env) /\ scanner s' = live /\ pub_bytes s' = 0
  /\ has_pub s' = true /\ mkv_open s' = true /\ pub_ip_be s' = ip /\ pub_port_be s' = port.
Proof. cbv zeta. split_and!; reflexivity. Qed.

Lemma start_pumped c s idx ip port now :
  let s' := (start_mkv c s idx ip port now).2 in Pumped (capacity (ring s')) [] [] s'.
Proof.
  cbv zeta. destruct (start_mkv_fields c s idx ip port now) as (K & R & Sc & B & _).
  destruct (start_mkv c s idx ip port now) as [c' s']. cbn [snd] in *.
  split; [done|by rewrite K|split; [rewrite R; apply Shows_init|done]|by rewrite Sc|done].
Qed.

Lemma header_nonempty hs : header_ok hs -> concat (header_elems hs) <> [].
Proof.
  intros [H4 _ _]. destruct hs as [|[k0 p0] [|[k1 p1] [|[k2 p2] [|[k3 p3] [|]]]]]; try done.
Qed.

Lemma resident_window hist r j :
  Shows hist r -> resident r j = true -> 0 <= j -> read_at r j (write_pos_ r) = zdrop j hist.
Proof.
  intros Hs Hr Hj. unfold resident in Hr. apply andb_true_iff in Hr as [H1%Z.leb_le H2%Z.leb_le].
  rewrite (sh_pos _ _ Hs) in *. rewrite (read_window hist) by (done || lia).
  unfold slice, zdrop. apply take_ge. rewrite length_drop. lia.
Qed.

(** C39: What a viewer is given is what was published.  A publisher the slot has accepted
    sends a Matroska stream -- its header, whole clusters, and the start of another -- in
    chunks of any sizes, each size spelled in any way the coding allows, and the connection
    delivers that in any reads: every read is accepted, exactly the stream's bytes are in the
    ring (the transfer coding's are not), the scanner holds exactly the header, and from the
    first whole cluster on there is a join point, at the last whole cluster: while it is
    buffered, the header followed by the ring from there is a well-formed stream again --
    header, that cluster, and what has arrived after it. *)
Theorem mkv_published c s idx ip port now0 e hs cls part n chs reads :
  header_ok hs -> Forall cluster_ok cls -> cluster_ok part -> (n < length (cluster_bytes part))%nat ->
  Forall chunk_ok chs ->
  concat (map snd chs) = concat (header_elems hs) ++ concat (map cluster_bytes cls) ++ take n (cluster_bytes part) ->
  len (concat (map snd chs)) < 2 ^ 64 ->
  Forall (fun b => (length b <= MKV_READ)%nat) reads -> concat reads = concat (map chunk_bytes chs) ->
  let st := start_mkv c s idx ip port now0 in
  exists c' s', pump_all st.1 st.2 reads e = (true, c', s')
  /\ Shows (concat (map snd chs)) (ring s') /\ pub_bytes s' = len (concat (map snd chs))
  /\ prefix (scanner s') = concat (header_elems hs) /\ clusters (scanner s') = map cluster_bytes cls
  /\ (cls = [] -> VideoMkv.join_offset (scanner s') = None)
  /\ forall cls0 last, cls = cls0 ++ [last] ->
     exists j, VideoMkv.join_offset (scanner s') = Some j
     /\ (resident (ring s') j = true ->
         prefix (scanner s') ++ read_at (ring s') j (write_pos_ (ring s'))
         = concat (header_elems hs) ++ cluster_bytes last ++ take n (cluster_bytes part)).
Proof.
  intros Hh Hcs Hc Hn Hch HY Hl Hr Hrc. destruct (chunks_decode chs [] Hch) as [Hok Hem].
  change (HttpChunks.idle []) with HttpChunks.init in *. rewrite <-Hrc in Hok, Hem.
  destruct Hem as (_ & _ & _ & Hem). cbn [HttpChunks.idle emitted app] in Hem.
  set (Y := concat (map snd chs)) in *.
  assert (Hf : failed (VideoMkv.feed live Y 0) = false).
  { apply (fr_kind _ _ _ _ _ (scanner_frames 0 hs cls part n Y [] ltac:(done) Hh Hcs Hc Hn
      ltac:(cbn [concat]; by rewrite app_nil_r))). }
  destruct (pump_all_pumped _ reads [] [] (start_mkv c s idx ip port now0).1 _ e Y (start_pumped c s idx ip port now0) Hr Hok Hem Hl Hf)
    as (ds & c' & s' & Hrun & [_ Hsame [Hs _] Hsc Hpb]).
  exists c', s'. cbn [app] in Hsame. destruct Hsame as (_ & _ & _ & Hds). rewrite Hem in Hds. cbn in Hds.
  rewrite app_nil_r in Hds. rewrite <-Hds in Hs, Hpb.
  assert (Hfr : Framed 0 (concat (header_elems hs)) (map cluster_bytes cls) (take n (cluster_bytes part)) (scanner s')).
  { rewrite Hsc. destruct ds as [|d ds].
    - pose proof (header_nonempty hs Hh). rewrite HY in Hds. by apply app_nil in Hds as [].
    - apply (scanner_frames 0 hs cls part n d ds ltac:(done) Hh Hcs Hc Hn). by rewrite <-HY. }
  destruct Hfr as [_ Hp Hcl _ _ Hnone Hj]. split_and!; [done|done|done|done|done| |].
  - intros ->. by apply Hnone.
  - intros cls0 last ->. rewrite map_app in Hj. eexists. split; [exact (Hj _ _ eq_refl)|]. intros Hres.
    rewrite Hp, map_app, concat_app in *. cbn [map concat] in *. rewrite app_nil_r, <-app_assoc in HY.
    set (pre := concat (header_elems hs) ++ concat (map cluster_bytes cls0)) in *.
    assert (HY' : Y = pre ++ cluster_bytes last ++ take n (cluster_bytes part)) by (unfold pre; by rewrite <-app_assoc).
    clearbody pre. assert (Hpre : len pre < 2 ^ 64) by (rewrite HY', length_app in Hl; lia).
    rewrite Z.add_0_l, wrap_small in * by lia. f_equal.
    rewrite (resident_window Y) by (done || lia). rewrite HY'.
    unfold zdrop. rewrite Nat2Z.id. apply drop_app_length.
Qed.
End mkv.

(** ** A small stream *)

Definition demo_header : list (nat * bytes) := [(1%nat, [1]); (8%nat, []); (1%nat, []); (2%nat, [2; 3])].
Definition demo_clusters : list (nat * bytes) := [(1%nat, [9; 9]); (8%nat, [7])].
Definition demo_partial : nat * bytes := (1%nat, [5; 5; 5]).
Definition demo_stream : bytes :=
  concat (header_elems demo_header) ++ concat (map cluster_bytes demo_clusters) ++ take 3 (cluster_bytes demo_partial).
Definition demo_chunks : list (bytes * bytes) :=
  [(bs "1", take 1 demo_stream); (bs "0a", slice demo_stream 1 10); (bs "02B", drop 11 demo_stream)].
Definition demo_reads : list bytes :=
  let b := concat (map chunk_bytes demo_chunks) in [take 2 b; slice b 2 20; drop 22 b].
Definition demo_entry : KeyEntry := (decode_key []) <| flags := KEY_FLAG_VIDEO |>.
Definition demo_child : VideoChild :=
  {| port2_ := 14550; auth_ := auth_init 14550; ke_ := demo_entry; slots_ := []; last_tick_ := 0;
     disk := Build_Disk ∅ [] [] [] [] 0 |}.
Definition demo_start_env : StartEnv :=
  {| e_probe := None; e_media := false; e_feed := false; e_fork := -1; e_sdp := false; e_rtp := false;
     e_sock := Build_Sock [] []; e_polls := fun _ => Build_Poll None false false WaitGone; e_stops := fun _ => WaitGone |}.
Definition demo_env : Env (gmap bytes bytes) :=
  {| now := 5; clock := 5; rd1 := None; rd2 := None; backend_env := demo_start_env; stop_env := fun _ => WaitGone;
     datagram_taken := false; ctl := true |}.
Definition no_tm (t : Z) : option tm := None.

#[export] Instance xdigits_dec (l : bytes) : Decision (Forall (fun x => isxdigit x = true) l) := _.

Lemma read_fits (b : bytes) : len b <= 65536 -> (length b <= MKV_READ)%nat.
Proof. unfold MKV_READ. lia. Qed.

Lemma mkv_published_witness :
  let st := start_mkv (Some (bs "4096")) demo_child slot_new 0 1 2 5 in
  exists c' s', pump_all no_tm no_tm None None None None st.1 st.2 demo_reads demo_env = (true, c', s')
  /\ clusters (scanner s') = map cluster_bytes demo_clusters /\ VideoMkv.join_offset (scanner s') <> None.
Proof.
  destruct (mkv_published no_tm no_tm None None None None (Some (bs "4096")) demo_child slot_new 0 1 2 5 demo_env
              demo_header demo_clusters demo_partial 3 demo_chunks demo_reads)
    as (c' & s' & Hr & _ & _ & _ & Hc & _ & Hj).
  - split; [done|repeat (constructor; [split; [split; [cbn; lia|done]|done]|]); constructor|by vm_compute].
  - repeat (constructor; [split; [split; [cbn; lia|done]|done]|]); constructor.
  - split; [split; [cbn; lia|done]|done].
  - by vm_compute; lia.
  - repeat (constructor; [split; [decide_vm|vm_compute; lia|by vm_compute|vm_compute; split; congruence]|]); constructor.
  - by vm_compute.
  - by vm_compute.
  - repeat (constructor; [apply read_fits; vm_compute; congruence|]); constructor.
  - by vm_compute.
  - exists c', s'. split; [done|]. split; [done|].
    destruct (Hj [(1%nat, [9; 9])] (8%nat, [7]) eq_refl) as (j & Ej & _). by rewrite Ej.
Defined.

(** A connection becomes the slot's publisher only if the credential it offers is admitted,
    the slot has none, and the request is the one a Matroska publisher makes. *)
Lemma handle_mkv_accepts `{Tdb db} sha256 ring_env c s idx ip port peek header_read sent_100 (e : Env db) c' s' :
  handle_mkv sha256 ring_env c s idx ip port peek header_read sent_100 e = (None, c', s') ->
  has_pub s = false /\ mkv_open s = false /\ running (rtsp s) = false
  /\ exists req c1, HttpReq.feed http_init (take MKV_PEEK peek) = (1, req) /\ mkv_valid idx req = true
     /\ admission sha256 c idx ip (http_query_value (target_ req) (bs "pw")) true e = (VIDEO_ADMIT_OK, c1)
     /\ (c', s') = start_mkv ring_env c1 s idx ip port (now e).
Proof.
  unfold handle_mkv, mkv_code. destruct (take MKV_PEEK peek) as [|b p]; [done|].
  destruct (HttpReq.feed http_init (b :: p)) as [v req] eqn:Ef.
  destruct (Z.eqb_spec v 1) as [->|Hv]; [|by repeat case_match].
  destruct (admission _ _ _ _ _ _ _) as [r c1] eqn:Ea. cbv zeta.
  case_bool_decide as Ha; cbn [negb]; [|done].
  destruct (has_pub s || running (rtsp s) || mkv_open s)%bool eqn:Eb; [done|]. destruct (mkv_valid idx req) eqn:Ev; [|done].
  cbn [negb Z.eqb Pos.eqb]. destruct header_read; [|done]. destruct sent_100; [|done]. subst r. intros Hst.
  apply orb_false_iff in Eb as [[? ?]%orb_false_iff ?]. split_and!; try done. exists req, c1. split_and!; try done.
  cbn [negb] in Hst. destruct (start_mkv _ _ _ _ _ _ _). by simplify_eq.
Qed.
