(* ===== verification/VideoPublish.v ===== *)
(** * A slot's RTSP and RTMP publishers (video.cpp: handle_rtsp, pump_rtsp, the RTMP pool)

    RTSP is admitted by its first request line and then spliced to a backend; RTMP waits in
    a pool of handshakes, is admitted when it publishes, and feeds its backend FLV. *)

From S2P Require Import Prelude Tdb KeyDb ConnDb CStr VideoStream VideoAuth Session VideoMkv VideoRec HttpReq.
From S2P Require Import WebSocket HttpChunks Rtmp Socket Splice Backend VideoView VideoSlot.

Definition RTMP_CODEC_DEADLINE_S : Z := 15.
Definition RTSP_PEEK : nat := 2048.
Definition SPLICE_READ : nat := Z.to_nat 16384.
Definition PENDING_READ : nat := Z.to_nat 8192.

Implicit Types s : Slot.
Implicit Types c : VideoChild.
Implicit Types p : PendingRtmp.

(** ** The first request line *)

Definition strip_cr (line : bytes) : bytes :=
  match reverse line with 13 :: r => reverse r | _ => line end.

(** The target between the first two blanks of the first line; [None] without them. *)
Definition request_target (peek : bytes) : option bytes :=
  match find_byte 10 peek with
  | None => None
  | Some eol =>
    let first := strip_cr (take eol peek) in
    match find_byte 32 first with
    | None => None
    | Some sp1 =>
      match find_byte 32 (drop (S sp1) first) with
      | None => None
      | Some n => Some (take n (drop (S sp1) first))
      end
    end
  end.

(** What a refused publisher is told. *)
Definition video_admit_str (r : video_admit_t) : bytes :=
  match r with
  | VIDEO_ADMIT_OK => bs "ok"
  | VIDEO_ADMIT_NO_SESSION => bs "no MAVLink session"
  | VIDEO_ADMIT_STALE_SESSION => bs "MAVLink session too old"
  | VIDEO_ADMIT_WRONG_IP => bs "address does not match the MAVLink session"
  | VIDEO_ADMIT_UNAUTH => bs "MAVLink session not signature-validated"
  | VIDEO_ADMIT_BAD_PASSWORD => bs "wrong publish password"
  | VIDEO_ADMIT_SLOT_BUSY => bs "another publisher holds this slot"
  | VIDEO_ADMIT_NO_CREDENTIAL =>
      bs "a publish password is set, and plain MPEG-TS/UDP cannot carry one -- publish over RTSP, or clear the password"
  | VIDEO_ADMIT_MISSING_PASSWORD =>
      bs "a publish password is set but none was supplied -- add ?pw=... to the RTSP URL"
  end.

(** ** Queues and sockets *)

(** A descriptor that is not open. *)
Definition bad_fd : Sock := Build_Sock [SndErr] [].

Definition flush_client s : bool * Slot :=
  let '(ok, k, q) := splice_flush (default bad_fd (rtsp_client_fd s)) (to_client s) in
  (ok, s <| to_client := q |> <| rtsp_client_fd := (match rtsp_client_fd s with Some _ => Some k | None => None end : option Sock) |>).

Definition flush_backend s : bool * Slot :=
  let open := match backend_fd_ (rtsp s) with Some _ => true | None => false end in
  let '(ok, k, q) := splice_flush (if open then Backend.feed (rtsp s) else bad_fd) (to_backend s) in
  (ok, s <| to_backend := q |> <| rtsp := (rtsp s) <| Backend.feed := if open then k else Backend.feed (rtsp s) |> |>).

Definition arm_client s (ctl : bool) : Slot := s <| to_client := splice_arm (connected s) ctl (to_client s) |>.
Definition arm_backend s (ctl : bool) : Slot :=
  s <| to_backend := splice_arm (match backend_fd_ (rtsp s) with Some _ => true | None => false end) ctl (to_backend s) |>.

(** The slot's descriptors that the splice polls. *)
Inductive splice_fd := ClientFd | BackendFd | MediaFd.

Definition want_audio c : bool := negb (Z.land (video_entry_opts (video_flags (ke_ c))) 1 =? 0).

(** ** Pending handshakes *)

Definition pending_at s (k : nat) : PendingRtmp := default pending_new (pending s !! k).
Definition set_pending s (k : nat) p : Slot := s <| pending := <[k := p]> (pending s) |>.

Definition close_pending s (k : nat) : Slot :=
  let p := pending_at s k in
  if negb (pending_active p) then s
  else set_pending s k (p <| fd := (None : option Sock) |> <| sess := (None : option RtmpSession) |> <| out := queue_new |>
                          <| since := 0 |>).

(** The first entry that is free, or else the one waiting longest, which is closed. *)
Fixpoint free_pending (i : nat) (ps : list PendingRtmp) : option nat :=
  match ps with
  | [] => None
  | p :: ps => if pending_active p then free_pending (S i) ps else Some i
  end.
Fixpoint oldest_pending (i : nat) (best : nat) (since_best : Z) (ps : list PendingRtmp) : nat :=
  match ps with
  | [] => best
  | p :: ps => if since p <? since_best then oldest_pending (S i) i (since p) ps else oldest_pending (S i) best since_best ps
  end.
Definition pending_place s : nat :=
  match free_pending O (pending s) with
  | Some i => i
  | None => match pending s with [] => O | p :: ps => oldest_pending 1 O (since p) ps end
  end.

(** Park a connection; the session starts afresh. *)
Definition park_pending s (k : Sock) (ip port now : Z) : Slot :=
  let i := pending_place s in
  set_pending (close_pending s i) i
    {| fd := Some k; sess := Some rtmp_new; out := queue_new; since := now; ip_be := ip; port_be := port |}.

Section publish.
Context {db : Type} `{Tdb db}.
Variable sha256 : bytes -> bytes.
Variable gmtime_r localtime_r : Z -> option tm.
Variable grace_env video_quota_env seconds_env bytes_env ring_env : option bytes.

Implicit Types e : Env db.

(** Another publisher holds the slot. *)
Definition held_by_other s (now : Z) : bool := mkv_open s || running (rtsp s) || connected s || fresh_pub s now.

(** ** RTSP: admission *)

(** [peek]: what the connection [k] has sent ([[]] for an error or end of stream). *)
Definition handle_rtsp c s (idx ip port : Z) (k : Sock) (peek : bytes) (proto : splice_proto_t) e : VideoChild * Slot :=
  if bool_decide (proto = SPLICE_RTMP) then (c, park_pending s k ip port (now e))
  else
    match request_target (take RTSP_PEEK peek) with
    | None => (c, s)
    | Some target =>
      let '(r, c) := admission sha256 c idx ip (http_query_value target (bs "pw")) true e in
      if negb (bool_decide (r = VIDEO_ADMIT_OK)) then (c, log_reject s (now e))
      else if held_by_other s (now e) then (c, log_reject s (now e))
      else
        let '(ok, s) := start_backend c s idx proto None e in
        if negb ok then (c, s)
        else
          let s := claim (s <| rtsp_client_fd := Some k |> <| rtsp_guard := guard_new |>) ip port in
          latch_publisher ring_env c s idx (now e)
    end.

(** ** RTMP: the owner *)

(** [vbsf] and the audio choice are arguments of the backend's command line. *)
Definition rtmp_start_backend c s (idx : Z) e : bool * Slot := start_backend c s idx SPLICE_RTMP None e.

(** Hand on what the session has produced; false when the session is over. *)
Definition take_output s (r : RtmpSession) : Slot :=
  s <| to_client := insert (to_client s) (to_peer_ r) |> <| to_backend := insert (to_backend s) (to_flv_ r) |>
    <| rtmp := Some (drain_flv (drain_peer r)) |>.

Definition rtmp_drain_owner c s (idx : Z) (alive : bool) e : bool * Slot :=
  match rtmp s with
  | None => (false, s)
  | Some r =>
    let refused := publish_pending_ r in
    let s := take_output s r in
    let '(started, s) :=
      if publishing_ r && negb (running (rtsp s)) && match vcodec_ r with RTMP_VCODEC_NONE => false | _ => true end
      then rtmp_start_backend c s idx e else (true, s) in
    if negb started then (false, s)
    else if refused || negb alive then (false, (flush_client s).2)
    else (true, s)
  end.

Definition slot_path c (idx : Z) : bytes := c_str (video_rtmp_path_of (ke_ c) idx).

(** The slot takes over the socket and the session. *)
Definition promoted s (k : nat) p (r : RtmpSession) : Slot :=
  let s := s <| rtsp_client_fd := fd p |> <| rtmp := Some r |> <| to_client := out p |> <| to_backend := queue_new |> in
  set_pending s k (p <| fd := (None : option Sock) |> <| sess := (None : option RtmpSession) |> <| out := queue_new |> <| since := 0 |>).

Definition refuse_pending s (k : nat) p (r : RtmpSession) (why : bytes) : Slot :=
  set_pending s k (p <| sess := Some (reject_publish r (bs "NetStream.Publish.Denied") why) |>).

(** The connection is finished, unless it returns false and the entry is still active. *)
Definition promote_pending c s (k : nat) (idx : Z) e : bool * VideoChild * Slot :=
  let p := pending_at s k in
  match sess p with
  | None => (false, c, s)
  | Some r =>
    let pw := if password_present_ r then Some (password_ r) else None in
    let '(a, c) := admission sha256 c idx (ip_be p) pw true e in
    if negb (bool_decide (a = VIDEO_ADMIT_OK))
    then (false, c, refuse_pending (log_reject s (now e)) k p r (video_admit_str a))
    else if negb (is_nil (slot_path c idx)) && negb (bool_decide (Rtmp.path r = slot_path c idx))
    then (false, c, refuse_pending s k p r (bs "stream path does not match this slot"))
    else if held_by_other s (now e)
    then (false, c, refuse_pending (log_reject s (now e)) k p r (bs "another publisher holds this slot"))
    else
      let s := claim (promoted s k p (accept_publish r)) (ip_be p) (port_be p) in
      let '(c, s) := latch_publisher ring_env c s idx (now e) in
      let '(alive, r) := resume (accept_publish r) in
      let '(ok, s) := rtmp_drain_owner c (s <| rtmp := Some r |>) idx alive e in
      if negb ok then let '(c, s) := close_rtsp c s (stop_env e) in (true, c, s)
      else
        let '(ok, s) := flush_client s in
        if negb ok then let '(c, s) := close_rtsp c s (stop_env e) in (true, c, s)
        else (true, c, arm_client s (ctl e))
  end.

Definition flush_pending s (k : nat) : bool * Slot :=
  let p := pending_at s k in
  let '(ok, sk, q) := splice_flush (default bad_fd (fd p)) (out p) in
  (ok, set_pending s k (p <| out := q |> <| fd := (match fd p with Some _ => Some sk | None => None end : option Sock) |>)).

Definition arm_pending s (k : nat) (ctl : bool) : Slot :=
  let p := pending_at s k in set_pending s k (p <| out := splice_arm (pending_active p) ctl (out p) |>).

(** What the session answered goes to the peer; media before publish is dropped. *)
Definition answer_pending s (k : nat) : Slot :=
  let p := pending_at s k in
  match sess p with
  | None => s
  | Some r => set_pending s k (p <| out := insert (out p) (to_peer_ r) |> <| sess := Some (drain_flv (drain_peer r)) |>)
  end.

(** [rcv]: what reading the connection gives.  False when the handshake is finished. *)
Definition pump_pending c s (k : nat) (idx : Z) (rcv : rcv_res) e : bool * VideoChild * Slot :=
  let '(ok, s) := flush_pending s k in
  if negb ok then (false, c, s)
  else
    match rcv with
    | RcvEof | RcvErr => (false, c, s)
    | RcvAgain => (true, c, arm_pending s k (ctl e))
    | RcvData b =>
      let p := pending_at s k in
      match sess p with
      | None => (false, c, s)
      | Some r =>
        let '(alive, r) := Rtmp.feed r (take PENDING_READ b) (now e) in
        let s := set_pending s k (p <| sess := Some r |>) in
        let '(was_promoted, alive, c, s) :=
          if publish_pending_ r
          then let '(ok, c, s) := promote_pending c s k idx e in (ok, false, c, s)
          else (false, alive, c, s) in
        if was_promoted then (false, c, s)
        else
          let '(ok, s) := flush_pending (answer_pending s k) k in
          if negb ok || negb alive then (false, c, s) else (true, c, arm_pending s k (ctl e))
      end
    end.

(** ** The backend's media, and the owner's splice *)

Definition pump_media c s (rcv : rcv_res) e : bool * VideoChild * Slot :=
  match rcv with
  | RcvEof | RcvErr => (false, c, s)
  | RcvAgain => (true, c, s)
  | RcvData b =>
    let '(c, s) := ingest_stream gmtime_r localtime_r grace_env video_quota_env seconds_env bytes_env c
                     (hear s (now e)) (take SPLICE_READ b) (clock e) in
    (true, c, s)
  end.

Definition room q : bool := Splice.pending q <? SPLICE_QUEUE_MAX.

(** The last part: what is owed goes out, whatever was read. *)
Definition settle_rtmp s (ctl : bool) : bool * Slot :=
  let '(ok, s) := flush_client s in
  if negb ok then (false, s)
  else
    let '(ok, s) := if running (rtsp s)
                    then let '(ok, s) := flush_backend s in (ok, if ok then arm_backend s ctl else s)
                    else (true, s) in
    if negb ok then (false, s) else (true, arm_client s ctl).

Definition pump_rtmp c s (idx : Z) (f : splice_fd) (rcv : rcv_res) e : bool * VideoChild * Slot :=
  match f with
  | MediaFd => pump_media c s rcv e
  | BackendFd =>
    let '(ok, s) := flush_backend s in
    if negb ok then (false, c, s) else (true, c, arm_backend s (ctl e))
  | ClientFd =>
    match rtmp s with
    | None => (true, c, s)
    | Some _ =>
      let '(ok, s) := flush_client s in
      if negb ok then (false, c, s)
      else
        let '(ok, s) := if running (rtsp s) then flush_backend s else (true, s) in
        if negb ok then (false, c, s)
        else
          let '(ok, s) :=
            if room (to_backend s) && room (to_client s) then
              match rcv, rtmp s with
              | RcvEof, _ | RcvErr, _ => (false, s)
              | RcvAgain, _ => (true, s)
              | RcvData b, Some r =>
                let '(alive, r) := Rtmp.feed r (take SPLICE_READ b) (now e) in
                rtmp_drain_owner c ((hear s (now e)) <| rtmp := Some r |>) idx alive e
              | RcvData _, None => (false, s)
              end
            else (true, s) in
          if negb ok then (false, c, s)
          else let '(ok, s) := settle_rtmp s (ctl e) in (ok, c, s)
    end
  end.

(** What a read from the publisher does: the request filter, and then the flush. *)
Definition relay_client c s (b : bytes) e : bool * Slot :=
  let '(r, g, q) := guard_rtsp_requests sha256 (video_publish_key (ke_ c)) (rtsp_guard s) (to_backend s) b in
  let s := s <| rtsp_guard := g |> <| to_backend := q |> in
  match r with
  | Refused password => (false, if password then log_reject s (now e) else s)
  | PassedOn => flush_backend s
  end.

Definition relay_backend s (b : bytes) : bool * Slot := flush_client (s <| to_client := insert (to_client s) b |>).

Definition pump_splice c s (from_client : bool) (rcv : rcv_res) e : bool * VideoChild * Slot :=
  let '(ok, s) := if from_client then flush_backend s else flush_client s in
  if negb ok then (false, c, s)
  else
    let '(ok, s) := if from_client then flush_client s else flush_backend s in
    if negb ok then (false, c, s)
    else
      let '(ok, s) :=
        if room (if from_client then to_backend s else to_client s) then
          match rcv with
          | RcvEof | RcvErr => (false, s)
          | RcvAgain => (true, s)
          | RcvData b =>
            let b := take SPLICE_READ b in
            let '(ok, s) := if from_client then relay_client c s b e else relay_backend s b in
            (ok, if ok then hear s (now e) else s)
          end
        else (true, s) in
      if negb ok then (false, c, s) else (true, c, arm_client (arm_backend s (ctl e)) (ctl e)).

(** False when the session is over. *)
Definition pump_rtsp c s (idx : Z) (f : splice_fd) (rcv : rcv_res) e : bool * VideoChild * Slot :=
  match rtmp s with
  | Some _ => pump_rtmp c s idx f rcv e
  | None =>
    match f with
    | MediaFd => pump_media c s rcv e
    | ClientFd => match backend_fd_ (rtsp s) with None => (false, c, s) | Some _ => pump_splice c s true rcv e end
    | BackendFd => match rtsp_client_fd s with None => (false, c, s) | Some _ => pump_splice c s false rcv e end
    end
  end.
End publish.
