(* ===== verification/VideoLoop.v ===== *)
(** * The video child's event loop (video.cpp: run, pump_viewers, tick, write_conn_rows)

    The events of a slot, the push to its viewers, the periodic tick, and one turn of the
    loop. *)

From S2P Require Import Prelude Tdb KeyDb ConnDb CStr VideoTs VideoStream VideoAuth Session VideoMkv VideoRec.
From S2P Require Import HttpReq WebSocket HttpChunks Rtmp Socket Splice Backend VideoView VideoSlot MkvPublish.
From S2P Require Import VideoPublish.

Implicit Types s : Slot.
Implicit Types c : VideoChild.

Definition CONN_APP_MPEGTS : Z := 1.
Definition CONN_APP_RTSP : Z := 2.
Definition CONN_APP_RTMP : Z := 5.
Definition CONN_APP_RTP : Z := 6.
Definition CONN_APP_MATROSKA : Z := 7.

(** ** Connection rows *)

Definition rtp_pub s : bool := running (rtsp s) && bool_decide (proto_ (rtsp s) = SPLICE_RTP).
Definition is_rtmp s : bool := match rtmp s with Some _ => true | None => false end.
Definition tcp_pub s : bool := negb (rtp_pub s) && (mkv_open s || is_rtmp s || running (rtsp s) || connected s).
Definition app_of s : Z :=
  if mkv_open s then CONN_APP_MATROSKA
  else if is_rtmp s then CONN_APP_RTMP
  else if rtp_pub s then CONN_APP_RTP
  else if tcp_pub s then CONN_APP_RTSP
  else CONN_APP_MPEGTS.

Definition conn_row c s (i now pid : Z) : ConnEntry :=
  {| ce_magic := CONN_MAGIC; connected_at := u64 (pub_since s); last_update := u64 now; ConnDb.port2 := port2_ c;
     conn_index := VIDEO_PUB_INDEX i; ConnDb.pid := u32 pid; rx_msgs := u32 (pub_bytes s / 1024); tx_msgs := 0;
     peer_ip_be := pub_ip_be s; peer_port_be := pub_port_be s;
     transport := if tcp_pub s then CONN_TRANSPORT_TCP else CONN_TRANSPORT_UDP; is_user := 0; ce_flags := 0; pad1 := 0;
     pad2 := 0; role := CONN_ROLE_VIDEO_PUB; stream_idx := u8 i; app_proto := app_of s; authenticated := 0; pad3 := 0 |}.

Definition conn_rows c (now pid : Z) : list ConnEntry :=
  omap (fun x => if has_pub x.2 then Some (conn_row c x.2 x.1 now pid) else None)
    (imap (fun i s => (Z.of_nat i, s)) (slots_ c)).

(** ** Events *)

(** What the turn of one viewer of the push loop meets; [pe_peek], [pe_header] and [pe_100]
    are for a connection that turns out to be a publisher. *)
Record PumpEnv := { pe_ws : WsEnv; pe_write : WriteEnv; pe_peek : bytes; pe_header : bool; pe_100 : bool }.

(** An event of a slot: a datagram and its sender; a connection; and what a pending
    handshake's, the Matroska publisher's, a splice's or a viewer's socket reports ([hup]:
    EPOLLHUP or EPOLLERR, for the Matroska publisher EPOLLERR alone). *)
Inductive event :=
| EvUdp (d : option bytes) (ip port : Z)
| EvTcp (k : option Sock) (ip port : Z)
| EvPending (k : nat) (hup : bool) (rcv : rcv_res)
| EvMkv (hup : bool) (r : rd_out)
| EvSplice (f : splice_fd) (hup : bool) (rcv : rcv_res)
| EvViewer (v : nat) (hup inp outp : bool) (env : ReadEnv) (we : WriteEnv)
| EvPush (pe : nat -> PumpEnv).

Section loop.
Context {db : Type} `{Tdb db}.
Variable sha256 : bytes -> bytes.
Variable hmac : bytes -> bytes -> bytes.
Variable b64_read sha1 base64_encode : bytes -> bytes.
Variable gmtime_r localtime_r : Z -> option tm.
Variable grace_env video_quota_env seconds_env bytes_env ring_env : option bytes.

Implicit Types e : Env db.

(** [conn_db_open_transaction]'s store, if it opened. *)
Definition write_conn_rows (h : option db) c (now pid : Z) : option db :=
  (fun h => video_snapshot h (port2_ c) (conn_rows c now pid)) <$> h.

(** ** Viewers *)

(** Put the result of a viewer's turn back: [None] when the child hangs. *)
Definition drop_turn c s (n : nat) (v : VideoViewer) : VideoChild * Slot := drop_viewer c (set_viewer s n v) n.

(** A connection the slot turns into a publisher. *)
Definition hand_over c s (idx : Z) (n : nat) (v : VideoViewer) (pe : PumpEnv) e : VideoChild * Slot :=
  let s := set_events (set_viewer s n v) n 0 in
  if bool_decide (kind_ v = VVK_MKV)
  then
    let '(_, c, s) := handle_mkv sha256 ring_env c s idx (peer_ip_be_ v) (peer_port_be_ v) (pe_peek pe) (pe_header pe) (pe_100 pe) e in
    (c, s)
  else handle_rtsp sha256 ring_env c s idx (peer_ip_be_ v) (peer_port_be_ v) (sock v) (pe_peek pe)
         (if bool_decide (kind_ v = VVK_RTMP) then SPLICE_RTMP else SPLICE_RTSP) e.

(** The push loop reaches [epoll_sync_viewer] only past the detect phase. *)
Definition past_detect (v : VideoViewer) (now : Z) : bool :=
  negb (bool_decide (state_ v = VV_DETECT) && (bool_decide (kind_ v = VVK_WS) || (now - connected_at_ v <? VIDEO_DETECT_SILENCE_S))).

Definition push_viewer c s (idx : Z) (n : nat) (pe : PumpEnv) e : option (VideoChild * Slot) :=
  match viewers s !! n with
  | None => Some (c, s)
  | Some v =>
    if negb (VideoView.active v) then Some (c, s)
    else
      match pump_viewer sha1 base64_encode v (pe_ws pe) (pe_write pe) (ke_ c) idx (ring s) (scanner s) (now e) with
      | Stays v' => let s := set_viewer s n v' in Some (c, if past_detect v (now e) then epoll_sync_viewer s n (ctl e) else s)
      | Dropped v' => Some (drop_turn c s n v')
      | Handed v' => Some (hand_over c s idx n v' pe e)
      | Hangs => None
      end
  end.

Fixpoint pump_viewers (m n : nat) c s (idx : Z) (pe : nat -> PumpEnv) e : option (VideoChild * Slot) :=
  match m with
  | O => Some (c, s)
  | S m => match push_viewer c s idx n (pe n) e with
           | Some (c, s) => pump_viewers m (S n) c s idx pe e
           | None => None
           end
  end.

Definition viewer_turn c s (idx : Z) (n : nat) (hup inp outp : bool) (env : ReadEnv) (we : WriteEnv) e
  : option (VideoChild * Slot) :=
  match viewers s !! n with
  | None => Some (c, s)
  | Some v =>
    if negb (VideoView.active v) then Some (c, s)
    else
      match viewer_event sha256 hmac b64_read sha1 base64_encode v hup inp outp env we (ke_ c) idx (ring s) (scanner s) (now e) with
      | Stays v' | Handed v' => Some (c, epoll_sync_viewer (set_viewer s n v') n (ctl e))
      | Dropped v' => Some (drop_turn c s n v')
      | Hangs => None
      end
  end.

(** ** Events of a slot *)

Definition fd_open_in s (f : splice_fd) : bool :=
  match f with
  | ClientFd => connected s
  | BackendFd => match backend_fd_ (rtsp s) with Some _ => true | None => false end
  | MediaFd => match media_fd_ (rtsp s) with Some _ => true | None => false end
  end.

Definition pending_event c s (k : nat) (idx : Z) (hup : bool) (rcv : rcv_res) e : VideoChild * Slot :=
  if negb (pending_active (pending_at s k)) then (c, s)
  else
    let '(ok, c, s) := if hup then (false, c, s) else pump_pending sha256 ring_env c s k idx rcv e in
    (c, if ok then s else close_pending s k).

Definition mkv_event c s (hup : bool) (r : rd_out) e : VideoChild * Slot :=
  if negb (mkv_open s) then (c, s)
  else
    let '(ok, c, s) := if hup then (false, c, s)
                       else pump_mkv gmtime_r localtime_r grace_env video_quota_env seconds_env bytes_env c s r e in
    if ok then (c, s) else close_mkv c s (bs "Matroska publisher disconnected or malformed").

Definition splice_event c s (idx : Z) (f : splice_fd) (hup : bool) (rcv : rcv_res) e : VideoChild * Slot :=
  if negb (fd_open_in s f) then (c, s)
  else
    let '(ok, c, s) := if hup then (false, c, s)
                       else pump_rtsp sha256 gmtime_r localtime_r grace_env video_quota_env seconds_env bytes_env c s idx f rcv e in
    if ok then (c, s) else close_rtsp c s (stop_env e).

(** An event whose descriptor the slot does not have is not delivered. *)
Definition handle_event c s (idx : Z) (ev : event) e : option (VideoChild * Slot) :=
  match ev with
  | EvUdp d ip port =>
      Some (if udp_fd s then handle_udp sha256 gmtime_r localtime_r grace_env video_quota_env seconds_env bytes_env ring_env
                               c s idx d ip port e else (c, s))
  | EvTcp k ip port => Some (c, if tcp_fd s then (handle_tcp c s k ip port e).2 else s)
  | EvPending k hup rcv => Some (pending_event c s k idx hup rcv e)
  | EvMkv hup r => Some (mkv_event c s hup r e)
  | EvSplice f hup rcv => Some (splice_event c s idx f hup rcv e)
  | EvViewer v hup inp outp env we => viewer_turn c s idx v hup inp outp env we e
  | EvPush pe => if udp_fd s || tcp_fd s then pump_viewers VIDEO_MAX_VIEWERS 0 c s idx pe e else Some (c, s)
  end.
(** ** The tick *)

(** What the work on one slot meets: the child's state, and [waitpid] while one is stopped. *)
Record TickEnv := { te_reap : wait_res; te_stop : nat -> wait_res }.

Definition tick_mkv c s (now : Z) : VideoChild * Slot :=
  if mkv_open s && (VIDEO_PUB_IDLE_S <? now - pub_last s) then close_mkv c s (bs "publisher idle") else (c, s).

Definition tick_reap c s (te : TickEnv) : VideoChild * Slot :=
  if running (rtsp s) then
    let '(gone, s) := set_backend s (reap (rtsp s) (ledger s) (te_reap te)) in
    if gone then close_rtsp c s (te_stop te) else (c, s)
  else (c, s).

Fixpoint tick_pending (n : nat) s (now : Z) : Slot :=
  match n with
  | O => s
  | S n =>
    let s := tick_pending n s now in
    let p := pending_at s n in
    if pending_active p && negb (since p =? 0) && (RTMP_PREPUBLISH_MAX_S <? now - since p) then close_pending s n else s
  end.

(** Accepted, but no codec in time. *)
Definition codec_late s (now : Z) : bool :=
  match rtmp s with
  | Some r => publishing_ r && negb (running (rtsp s)) && negb (publishing_since_ r =? 0)
              && (RTMP_CODEC_DEADLINE_S <? now - publishing_since_ r)
  | None => false
  end.

Definition tick_slot c s (now : Z) (te : TickEnv) : VideoChild * Slot :=
  let '(c, s) := tick_mkv c s now in
  let '(c, s) := tick_reap c s te in
  let s := tick_pending VIDEO_MAX_PENDING_RTMP s now in
  if codec_late s now then close_rtsp c s (te_stop te)
  else if has_pub s && (VIDEO_PUB_IDLE_S <? now - pub_last s) then
    if running (rtsp s) || connected s then close_rtsp c s (te_stop te) else release_idle c s
  else (c, s).

Fixpoint tick_slots c (ss : list Slot) (i : nat) (now : Z) (te : nat -> TickEnv) : VideoChild * list Slot :=
  match ss with
  | [] => (c, [])
  | s :: ss =>
    let '(c, s) := tick_slot c s now (te i) in
    let '(c, ss) := tick_slots c ss (S i) now te in (c, s :: ss)
  end.

(** [k]: the record read from keys.tdb, if it could be. *)
Definition reload c (k : option KeyEntry) : VideoChild :=
  match k with Some ke => c <| ke_ := ke |> <| auth_ := invalidate (auth_ c) |> | None => c end.

Definition tick c (k : option KeyEntry) (rd : option db) (te : nat -> TickEnv) (rows : option db) (now pid : Z)
  : VideoChild * option db :=
  let c := reload c k in
  let c := c <| auth_ := observe (auth_ c) rd now |> in
  let '(c, ss) := tick_slots c (slots_ c) 0 now te in
  let c := c <| slots_ := ss |> in
  (c <| last_tick_ := now |>, write_conn_rows rows c now pid).

(** ** The loop *)

(** A step of the child: a slot's event, or a tick when one is due. *)
Inductive child_step :=
| StEvent (i : nat) (ev : event) (e : Env db)
| StTick (k : option KeyEntry) (rd : option db) (te : nat -> TickEnv) (rows : option db) (now pid : Z).

Definition step c (st : child_step) : option VideoChild :=
  match st with
  | StEvent i ev e =>
    match slots_ c !! i with
    | None => Some c
    | Some s => match handle_event c s (Z.of_nat i) ev e with
                | Some (c, s) => Some (c <| slots_ := <[i := s]> (slots_ c) |>)
                | None => None
                end
    end
  | StTick k rd te rows now pid => Some (if VIDEO_TICK_S <=? now - last_tick_ c then (tick c k rd te rows now pid).1 else c)
  end.

(** One turn: what epoll reported, the push to every slot's viewers, the tick. *)
Definition turn_steps (evs : list (nat * event * Env db)) (pushes : list ((nat -> PumpEnv) * Env db)) (t : child_step)
  : list child_step :=
  map (fun x => StEvent x.1.1 x.1.2 x.2) evs ++ imap (fun i x => StEvent i (EvPush x.1) x.2) pushes ++ [t].

(** [None]: the child hangs. *)
Fixpoint run c (sts : list child_step) : option VideoChild :=
  match sts with
  | [] => Some c
  | st :: sts => match step c st with Some c => run c sts | None => None end
  end.

(** The child as [run] starts it, with its sockets bound as [binds] says. *)
Definition child_new (port2 : Z) (ke : KeyEntry) (binds : list (option Z * option Z)) (k : Disk) : VideoChild :=
  {| port2_ := port2; auth_ := auth_init port2; ke_ := ke;
     slots_ := (bind_slots ke 0 binds 0 (replicate (Z.to_nat KEY_MAX_VIDEO_PORTS) slot_new)).2; last_tick_ := 0; disk := k |}.
End loop.
