(* ===== verification/VideoLoopSpec.v ===== *)
(** * What holds of a slot in every reachable state

    [slot_ok] is the slot's consistency, [owner_of] who publishes on it as an abstract state,
    and [own_step] the moves that state may make, none of which releases it.  Every handler of
    VideoSlot, MkvPublish, VideoPublish and VideoLoop takes a consistent slot to a consistent
    one by such moves ([moves_to]), after which the slot may be released in the cases [ends]
    names. *)

From S2P Require Import Prelude Tdb KeyDb ConnDb CStr VideoTs VideoStream VideoAuth Session VideoMkv VideoRec.
From S2P Require Import HttpReq WebSocket HttpChunks Rtmp Socket Splice Backend VideoView VideoViewSpec VideoSlot.
From S2P Require Import MkvPublish VideoPublish VideoLoop.

Implicit Types s : Slot.
Implicit Types c : VideoChild.
Implicit Types b : RtspBackend.
Implicit Types v : VideoViewer.

(** ** Consistency *)

(** The address a viewer's place is taken from. *)
Definition seat v : option Z := if VideoView.active v then Some (peer_ip_be_ v) else None.
Definition seats (o : list (option Z)) (ip : Z) : nat := length (filter (fun x => x = Some ip) o).

Definition shape (p : PendingRtmp) : bool * bool := (pending_active p, match sess p with Some _ => true | None => false end).

Definition core b := (pid_ b, backend_fd_ b, media_fd_ b, rtp_fd_ b, proto_ b).

(** What the slot's consistency and its owner depend on, but for its viewers' seats. *)
Definition rest s :=
  (has_pub s, pub_ip_be s, pub_port_be s, pub_last s, mkv_open s, connected s, is_rtmp s, core (rtsp s), ledger s,
   map shape (pending s)).
Definition hold s := (rest s, map seat (viewers s)).

(** Who publishes. *)
Inductive pub_kind := Mkv | RtmpPub | RtspPub | RtpPub | Udp.
#[export] Instance pub_kind_eq_dec : EqDecision pub_kind.
Proof. solve_decision. Defined.

Record Owner := { o_kind : pub_kind; o_ip : Z; o_port : Z; o_heard : Z }.

Definition kind_of s : pub_kind :=
  if mkv_open s then Mkv else if is_rtmp s then RtmpPub else if connected s then RtspPub else if running (rtsp s) then RtpPub else Udp.

Definition owner_of s : option Owner :=
  if has_pub s then Some {| o_kind := kind_of s; o_ip := pub_ip_be s; o_port := pub_port_be s; o_heard := pub_last s |} else None.

(** The protocols of the backend each kind of publisher may have.  An RTMP publisher may have
    an RTP one: a datagram that claims its address and port before it has named its codec
    starts one ([rtmp_slot_fed_by_udp]). *)
Definition backend_for (k : pub_kind) (p : splice_proto_t) : Prop :=
  match k with
  | RtmpPub => p = SPLICE_RTMP \/ p = SPLICE_RTP
  | RtspPub => p = SPLICE_RTSP
  | RtpPub => p = SPLICE_RTP
  | Mkv | Udp => False
  end.

Record slot_ok s : Prop := {
  so_owned : mkv_open s = true \/ connected s = true \/ is_rtmp s = true \/ running (rtsp s) = true -> has_pub s = true;
  so_mkv : mkv_open s = true -> connected s = false;
  so_rtmp : is_rtmp s = true -> connected s = true;
  so_rtsp : kind_of s = RtspPub -> running (rtsp s) = true;
  so_backend : running (rtsp s) = true -> backend_for (kind_of s) (proto_ (rtsp s));
  so_balanced : balanced (rtsp s) (ledger s);
  so_idle : running (rtsp s) = false -> idle (rtsp s);
  so_media : running (rtsp s) = true -> media_fd_ (rtsp s) <> None;
  so_viewers : length (viewers s) = VIDEO_MAX_VIEWERS;
  so_seats : forall ip, (seats (map seat (viewers s)) ip <= VIDEO_MAX_VIEWERS_PER_IP)%nat;
  so_pending : length (pending s) = VIDEO_MAX_PENDING_RTMP /\ Forall (fun p => (shape p).1 = (shape p).2) (pending s)
}.

Lemma core_running b b' : core b = core b' -> running b = running b' /\ held b = held b' /\ proto_ b = proto_ b' /\ pid_ b = pid_ b'.
Proof. intros [= E1 E2 E3 E4 E5]. unfold running, held. by rewrite E1, E2, E3, E4. Qed.

Lemma core_media b b' : core b = core b' -> media_fd_ b = media_fd_ b'.
Proof. by intros [= _ _ ? _ _]. Qed.

Lemma core_balanced b b' l : core b = core b' -> balanced b l -> balanced b' l.
Proof.
  intros E [H1 H2 H3 H4]. apply core_running in E as (R & Hh & _ & P). constructor; by rewrite <-?Hh, <-?R, <-?P.
Qed.

Lemma rest_owner s s' : rest s' = rest s -> owner_of s' = owner_of s /\ kind_of s' = kind_of s.
Proof.
  intros [= E1 E2 E3 E4 E5 E6 E7 E8 E9 E10 E11 E12 E13 E14].
  assert (H : kind_of s' = kind_of s) by (unfold kind_of, running; by rewrite E5, E6, E7, E8).
  split; [|done]. unfold owner_of. by rewrite E1, E2, E3, E4, H.
Qed.

Lemma rest_ok s s' :
  rest s' = rest s -> length (viewers s') = VIDEO_MAX_VIEWERS ->
  (forall ip, (seats (map seat (viewers s')) ip <= VIDEO_MAX_VIEWERS_PER_IP)%nat) -> slot_ok s -> slot_ok s'.
Proof.
  intros E Hv Hs [H1 H2 H3 H4 H5 H6 H7 Hmed _ _ [H10 H11]]. pose proof (rest_owner s s' E) as [_ Ek].
  assert (Ec : core (rtsp s) = core (rtsp s')) by exact (eq_sym (f_equal (fun h => h.1.1.2) E)).
  pose proof (core_running _ _ Ec) as (R & Hh & P & _). rewrite (core_media _ _ Ec) in Hmed.
  injection E as E1 E2 E3 E4 E5 E6 E7 _ _ _ _ _ El Ep.
  constructor; rewrite ?Ek, <-?R, <-?P, ?E1, ?E5, ?E6, ?E7; try done.
  - rewrite El. by apply (core_balanced (rtsp s)).
  - intros Hr. destruct (H7 Hr). by split; rewrite <-?Hh, <-?R.
  - split; [by rewrite <-(length_map shape (pending s')), Ep, length_map|].
    assert (Hf : forall ps, Forall (fun p => (shape p).1 = (shape p).2) ps <-> Forall (fun x : bool * bool => x.1 = x.2) (map shape ps))
      by (intros ps; symmetry; apply list.Forall_fmap).
    apply Hf. rewrite Ep. by apply Hf.
Qed.

Lemma hold_ok s s' : hold s' = hold s -> slot_ok s -> slot_ok s'.
Proof.
  intros E Hok. assert (Er : rest s' = rest s) by exact (f_equal fst E).
  assert (Ev : map seat (viewers s') = map seat (viewers s)) by exact (f_equal snd E).
  apply (rest_ok s); [done| |by rewrite Ev; apply Hok|done].
  rewrite <-(length_map seat), Ev, length_map. apply Hok.
Qed.

(** ** Seats *)

Lemma seat_at v ip : seat v = Some ip <-> VideoView.active v = true /\ peer_ip_be_ v = ip.
Proof. unfold seat. destruct (VideoView.active v); naive_solver. Qed.

Lemma from_ip_seats s ip : from_ip s ip = seats (map seat (viewers s)) ip.
Proof.
  unfold from_ip, seats. induction (viewers s) as [|v vs IH]; [done|]. cbn [map].
  destruct (decide (VideoView.active v = true /\ peer_ip_be_ v = ip)) as [Hd|Hd].
  - rewrite !filter_cons_True by (done || by apply seat_at). cbn [length]. by rewrite IH.
  - rewrite !filter_cons_False by (done || by rewrite seat_at). done.
Qed.

Lemma seats_vacate o n ip : (seats (<[n := None]> o) ip <= seats o ip)%nat.
Proof.
  unfold seats. revert n. induction o as [|x o IH]; intros [|n]; cbn [list_insert insert]; [done..| |].
  - change (<[O:=None]> (x :: o)) with (None :: o). rewrite !filter_cons. repeat case_decide; cbn; try done; lia.
  - change (<[S n:=None]> (x :: o)) with (x :: <[n:=None]> o). rewrite !filter_cons. specialize (IH n).
    repeat case_decide; cbn; lia.
Qed.

Lemma seats_take o n ip ip' : o !! n = Some None -> (seats (<[n := Some ip]> o) ip' = (if decide (ip = ip') then 1 else 0) + seats o ip')%nat.
Proof.
  unfold seats. revert n. induction o as [|x o IH]; intros [|n] Hn; [done..| |].
  - cbn in Hn. injection Hn as ->. change (<[O:=Some ip]> (None :: o)) with (Some ip :: o). rewrite !filter_cons.
    repeat case_decide; cbn; try lia; congruence.
  - change (<[S n:=Some ip]> (x :: o)) with (x :: <[n:=Some ip]> o). rewrite !filter_cons.
    specialize (IH n Hn). repeat case_decide; cbn; lia.
Qed.

(** ** Moves *)

Section moves.
Context {db : Type} `{Tdb db}.
Variable sha256 : bytes -> bytes.
Variable gmtime_r localtime_r : Z -> option tm.
Variable grace_env video_quota_env seconds_env bytes_env ring_env : option bytes.
Variable e : Env db.
Variable idx : Z.
(** The addresses and credentials of the peers that ask to publish in the event. *)
Variable offered : Z -> option bytes -> Prop.

(** A call of [admit] made while the event is handled. *)
Definition from_env (ev : auth_event (db := db)) : Prop :=
  match ev with EvAdmit _ _ _ _ _ _ t r1 r2 => t = now e /\ r1 = rd1 e /\ r2 = rd2 e | _ => False end.

Definition replay (a : VideoAuth) (evs : list (auth_event (db := db))) : VideoAuth := fold_left (auth_step sha256) evs a.

(** A publisher from [ip] is admitted, at some moment while the event is handled. *)
Definition let_in c (ip : Z) : Prop :=
  exists evs pw cap, Forall from_env evs /\ offered ip pw
  /\ (admit_publisher sha256 (replay (auth_ c) evs) (ke_ c) ip pw cap (session_ok c idx) (open_publish c idx)
        (now e) (rd1 e) (rd2 e)).1.1 = VIDEO_ADMIT_OK.

(** The slot has no publisher, or one sending datagrams that has been silent too long. *)
Definition vacant (o : option Owner) : Prop :=
  match o with None => True | Some o => o_kind o = Udp /\ VIDEO_PUB_IDLE_S < now e - o_heard o end.

Inductive own_step c : option Owner -> option Owner -> Prop :=
| own_heard k ip port t : own_step c (Some (Build_Owner k ip port t)) (Some (Build_Owner k ip port (now e)))
| own_muxed ip port t : own_step c (Some (Build_Owner Udp ip port t)) (Some (Build_Owner RtpPub ip port t))
| own_taken o k ip port :
    vacant o -> let_in c ip -> k <> RtpPub -> own_step c o (Some (Build_Owner k ip port (now e))).

(** What an event does to the owner: such steps, and at its end the slot may be released, by
    an owner of whom [E] holds. *)
Definition own_run (E : Owner -> Prop) c (o o' : option Owner) : Prop :=
  exists o1, rtc (own_step c) o o1 /\ (o' = o1 \/ exists ow, o1 = Some ow /\ E ow /\ o' = None).

Definition nobody (_ : Owner) : Prop := False.

Record moved (E : Owner -> Prop) (x y : VideoChild * Slot) : Prop := {
  mv_ke : ke_ y.1 = ke_ x.1;
  mv_port : port2_ y.1 = port2_ x.1;
  mv_slots : slots_ y.1 = slots_ x.1;
  mv_auth : exists evs, Forall from_env evs /\ auth_ y.1 = replay (auth_ x.1) evs;
  mv_ok : slot_ok y.2;
  mv_own : own_run E x.1 (owner_of x.2) (owner_of y.2)
}.

Definition moves_to (E : Owner -> Prop) (x y : VideoChild * Slot) : Prop := slot_ok x.2 -> moved E x y.

(** Moves that release nothing. *)
Abbreviation moves := (moves_to nobody).

#[local] Instance moves_refl E : Reflexive (moves_to E).
Proof. intros x Hok. constructor; try done; [by exists []|]. exists (owner_of x.2). by split; [|left]. Qed.

Lemma own_run_rtc c o o' : own_run nobody c o o' -> rtc (own_step c) o o'.
Proof. by intros (o1 & Hr & [-> |(ow & _ & [] & _)]). Qed.

(** After moves that release nothing, the slot may be released. *)
Lemma moves_then E x y z : moves x y -> moves_to E y z -> moves_to E x z.
Proof.
  intros Hxy Hyz Hok. destruct (Hxy Hok) as [K1 P1 S1 (evs1 & F1 & A1) Ok1 O1].
  destruct (Hyz Ok1) as [K2 P2 S2 (evs2 & F2 & A2) Ok2 O2].
  assert (Hadd : forall evs, replay (auth_ y.1) evs = replay (auth_ x.1) (evs1 ++ evs))
    by (intros evs; unfold replay; by rewrite A1, fold_left_app).
  constructor; [congruence..| |done|].
  - exists (evs1 ++ evs2). split; [by apply list.Forall_app|]. by rewrite A2, Hadd.
  - destruct O2 as (o1 & O2 & Hend). exists o1. split; [|done].
    etransitivity; [by apply own_run_rtc|]. eapply rtc_subrel; [|exact O2]. intros o o' [].
    1-2: by constructor. constructor; try done. destruct H1 as (evs & pw & cap & Hf & Hof & Ha).
    exists (evs1 ++ evs), pw, cap. split; [by apply list.Forall_app|]. split; [done|]. rewrite <-Hadd. unfold session_ok, open_publish in *.
    by rewrite <-K1.
Qed.

#[local] Instance moves_trans : Transitive moves.
Proof. intros x y z. apply moves_then. Qed.

Lemma moves_weaken E F x y : (forall o, E o -> F o) -> moves_to E x y -> moves_to F x y.
Proof.
  intros Hef Hm Hok. destruct (Hm Hok) as [K P S A Ok (o1 & Hr & Hend)]. constructor; try done. exists o1. split; [done|].
  destruct Hend as [->|(ow & -> & He & ->)]; [by left|right]. exists ow. auto.
Qed.

Lemma moves_any E x y : moves x y -> moves_to E x y.
Proof. by apply moves_weaken. Qed.

(** A move may assume the consistency it starts from. *)
Lemma moves_if E c s y : (slot_ok s -> moves_to E (c, s) y) -> moves_to E (c, s) y.
Proof. intros Hm Hok. by apply Hm. Qed.

(** The child but for its last tick and its disk. *)
Definition calm c c' : Prop := ke_ c' = ke_ c /\ port2_ c' = port2_ c /\ slots_ c' = slots_ c /\ auth_ c' = auth_ c.

Lemma moves_own c s c' s' :
  calm c c' -> (slot_ok s -> slot_ok s' /\ rtc (own_step c) (owner_of s) (owner_of s')) -> moves (c, s) (c', s').
Proof.
  intros (K & P & S & A) Hs Hok. destruct (Hs Hok) as [H1 H2]. constructor; try done; [exists []; split; [done|exact A]|].
  exists (owner_of s'). by split; [|left].
Qed.

(** A change that keeps the slot consistent and its owner who it is. *)
Definition keeps s s' : Prop := slot_ok s -> slot_ok s' /\ owner_of s' = owner_of s.

#[local] Instance keeps_refl : Reflexive keeps.
Proof. by intros s Hok. Qed.
#[local] Instance keeps_trans : Transitive keeps.
Proof. intros s1 s2 s3 H1 H2 Hok. destruct (H1 Hok) as [Hok1 <-]. by apply H2. Qed.

Lemma keeps_hold s s' : hold s' = hold s -> keeps s s'.
Proof. intros E Hok. split; [by apply (hold_ok s)|]. by apply (rest_owner s s' (f_equal fst E)). Qed.

Lemma moves_keeps c s c' s' : calm c c' -> keeps s s' -> moves (c, s) (c', s').
Proof. intros Hc Hk. apply moves_own; [done|]. intros Hok. by destruct (Hk Hok) as [Hok' ->]. Qed.

Lemma moves_hold c s c' s' : calm c c' -> hold s' = hold s -> moves (c, s) (c', s').
Proof. intros Hc E. by apply moves_keeps, keeps_hold. Qed.

(** Changes that keep the owner may follow a release. *)
Lemma moves_and_keeps E x c s c' s' : moves_to E x (c, s) -> calm c c' -> keeps s s' -> moves_to E x (c', s').
Proof.
  intros Hm (K & P & S & A) Hk Hok. destruct (Hm Hok) as [K1 P1 S1 (evs & F & A1) Ok1 O1]. destruct (Hk Ok1) as [Ok2 Ho].
  cbn [fst snd] in *. constructor; cbn [fst snd]; try congruence. exists evs. split; [done|congruence].
Qed.

Lemma moves_seats c s c' s' :
  calm c c' -> rest s' = rest s -> length (viewers s') = length (viewers s) ->
  (forall ip, (seats (map seat (viewers s')) ip <= VIDEO_MAX_VIEWERS_PER_IP)%nat \/
              (seats (map seat (viewers s')) ip <= seats (map seat (viewers s)) ip)%nat) ->
  moves (c, s) (c', s').
Proof.
  intros Hc E Hl Hs. apply moves_own; [done|]. intros Hok. split.
  - apply (rest_ok s); [done|rewrite Hl; apply Hok| |done]. intros ip. pose proof (so_seats _ Hok ip). destruct (Hs ip); lia.
  - destruct (rest_owner s s' E) as [-> _]. done.
Qed.

Lemma calm_refl c : calm c c.
Proof. by split_and!. Qed.
#[local] Hint Resolve calm_refl : core.
Lemma calm_tick c t : calm c (c <| last_tick_ := t |>).
Proof. by split_and!. Qed.
Lemma calm_disk c k : calm c (c <| disk := k |>).
Proof. by split_and!. Qed.
#[local] Hint Resolve calm_tick calm_disk : core.

(** ** The recorder and the stream *)

Lemma rotate_moves c s : moves (c, s) (rotate_recorder c s).
Proof. unfold rotate_recorder. destruct (VideoRec.rotate _ _). by apply moves_hold. Qed.

Lemma write_moves c s buf t :
  moves (c, s) (let '(_, c, s) := write_recorder gmtime_r localtime_r grace_env video_quota_env bytes_env c s buf t in (c, s)).
Proof. unfold write_recorder. destruct (VideoRec.write _ _ _ _ _ _ _ _ _) as [[? ?] ?]. by apply moves_hold. Qed.

Lemma close_recorder_moves c s : moves (c, s) (close_recorder c s).
Proof. unfold close_recorder. destruct (close_segment _ _). by apply moves_hold. Qed.

Lemma record_moves c s buf before t :
  moves (c, s) (record gmtime_r localtime_r grace_env video_quota_env seconds_env bytes_env c s buf before t).
Proof.
  unfold record. destruct (_ || _); [done|]. unfold segment_due. destruct (rotation_due _ _ _ _) as [due w].
  set (s1 := s <| rec := w |>). transitivity (c, s1); [by apply moves_hold|].
  set (cut := due && _).
  transitivity (if cut then rotate_recorder c s1 else (c, s1)); [destruct cut; [apply rotate_moves|done]|].
  destruct (if cut then rotate_recorder c s1 else (c, s1)) as [c2 s2]. transitivity (c2, note_anchor s2); [|apply write_moves].
  apply moves_hold; [done|]. unfold note_anchor. by destruct (join_offset _).
Qed.

Lemma ingest_stream_moves c s buf t :
  moves (c, s) (ingest_stream gmtime_r localtime_r grace_env video_quota_env seconds_env bytes_env c s buf t).
Proof.
  unfold ingest_stream. etransitivity; [|apply record_moves]. by apply moves_hold.
Qed.

Lemma ingest_moves c s buf t :
  moves (c, s) (ingest gmtime_r localtime_r grace_env video_quota_env seconds_env bytes_env c s buf t).
Proof.
  unfold ingest. destruct (ts_datagram buf); [apply ingest_stream_moves|]. apply moves_hold; [done|].
  unfold bad_datagram. by destruct (_ && _).
Qed.

Lemma log_reject_hold s t : hold (log_reject s t) = hold s.
Proof. unfold log_reject. by destruct (_ <? _). Qed.

(** ** Viewers leaving *)

Lemma map_seat_insert s n v : map seat (<[n := v]> (viewers s)) = <[n := seat v]> (map seat (viewers s)).
Proof. apply list_fmap_insert. Qed.

Lemma set_viewer_moves c s n v :
  seat v = None \/ (forall w, viewers s !! n = Some w -> seat v = seat w) -> moves (c, s) (c, set_viewer s n v).
Proof.
  intros Hv. apply moves_seats; [done|done|apply length_insert|]. intros ip. right.
  change (viewers (set_viewer s n v)) with (<[n:=v]> (viewers s)). rewrite map_seat_insert.
  destruct Hv as [->|Hv]; [apply seats_vacate|].
  destruct (viewers s !! n) as [w|] eqn:Ew.
  - rewrite (Hv w eq_refl), list_insert_id; [done|]. by rewrite list_lookup_fmap, Ew.
  - rewrite list_insert_ge; [done|]. rewrite length_map. by apply lookup_ge_None.
Qed.

Lemma seat_close v : seat (VideoView.close v) = None.
Proof. done. Qed.

Lemma drop_viewer_moves c s n : moves (c, s) (drop_viewer c s n).
Proof.
  unfold drop_viewer. destruct (viewers s !! n) as [v|]; [|done]. destruct (VideoView.active v); [|done].
  transitivity (c, set_viewer s n (VideoView.close v)); [apply set_viewer_moves; by left|]. by apply moves_hold.
Qed.

Lemma drop_turn_moves c s n v :
  (forall w, viewers s !! n = Some w -> seat v = seat w) -> moves (c, s) (drop_turn c s n v).
Proof. intros Hv. unfold drop_turn. etransitivity; [|apply drop_viewer_moves]. apply set_viewer_moves. by right. Qed.

Lemma end_viewers_moves m c s why : moves (c, s) (end_viewers m c s why).
Proof.
  revert c s. induction m as [|m IH]; intros c s; [done|]. cbn [end_viewers]. etransitivity; [apply IH|].
  destruct (end_viewers m c s why) as [c1 s1]. destruct (viewers s1 !! m) as [v|] eqn:Ev; [|done].
  destruct (VideoView.active v); [|done]. etransitivity; [|apply drop_viewer_moves].
  apply set_viewer_moves. right. intros w. rewrite Ev. by intros [= ->].
Qed.

Lemma end_stream_moves c s why : moves (c, s) (end_stream c s why).
Proof.
  unfold end_stream. pose proof (end_viewers_moves VIDEO_MAX_VIEWERS c s why) as Hv.
  destruct (end_viewers _ c s why) as [c1 s1]. etransitivity; [exact Hv|]. by apply moves_hold.
Qed.

(** A stream that ends touches the viewers, the ring and the scanner. *)
Lemma drop_viewer_rest c s n : rest (drop_viewer c s n).2 = rest s /\ calm c (drop_viewer c s n).1.
Proof.
  unfold drop_viewer. destruct (viewers s !! n) as [v|]; [|by split].
  by destruct (VideoView.active v).
Qed.

Lemma calm_trans c1 c2 c3 : calm c1 c2 -> calm c2 c3 -> calm c1 c3.
Proof. intros (A1 & A2 & A3 & A4) (B1 & B2 & B3 & B4). split_and!; congruence. Qed.

Lemma end_viewers_rest m c s why : rest (end_viewers m c s why).2 = rest s /\ calm c (end_viewers m c s why).1.
Proof.
  induction m as [|m [IH1 IH2]]; [done|]. cbn [end_viewers]. destruct (end_viewers m c s why) as [c1 s1].
  destruct (viewers s1 !! m) as [v|]; [|done]. destruct (VideoView.active v); [|done].
  destruct (drop_viewer_rest c1 (set_viewer s1 m (set_drop_reason v why)) m) as [E1 E2].
  split; [by rewrite E1|by eapply calm_trans].
Qed.

Lemma end_stream_rest c s why : rest (end_stream c s why).2 = rest s /\ calm c (end_stream c s why).1.
Proof.
  unfold end_stream. destruct (end_viewers_rest VIDEO_MAX_VIEWERS c s why) as [E1 E2].
  destruct (end_viewers _ c s why) as [c1 s1]. by split; [rewrite <-E1|].
Qed.

(** ** Releasing the slot *)

(** The publisher goes, and then its stream ends. *)
Lemma release_moves E c c0 s s0 why :
  calm c c0 ->
  (slot_ok s -> (slot_ok s0 /\ owner_of s0 = None) /\ exists o, owner_of s = Some o /\ E o) ->
  moves_to E (c, s) (end_stream c0 s0 why).
Proof.
  intros Hc Hs Hok. destruct (Hs Hok) as ((Hok0 & Ho0) & o & Ho & He).
  destruct (end_stream_rest c0 s0 why) as [Hr Hc0]. destruct (calm_trans _ _ _ Hc Hc0) as (K & P & S & A).
  destruct (end_stream_moves c0 s0 why Hok0) as [_ _ _ _ Hok1 _].
  constructor; try done; [by exists []|]. exists (Some o). split; [by rewrite <-Ho|right]. exists o.
  by rewrite (proj1 (rest_owner _ _ Hr)), Ho0.
Qed.

(** A state without publisher, connection or backend. *)
Lemma free_ok s s' :
  slot_ok s -> has_pub s' = false -> mkv_open s' = false -> connected s' = false -> is_rtmp s' = false ->
  balanced (rtsp s') (ledger s') -> idle (rtsp s') -> viewers s' = viewers s -> pending s' = pending s ->
  slot_ok s' /\ owner_of s' = None.
Proof.
  intros [_ _ _ _ _ _ _ _ H8 H9 H10] E1 E2 E3 E4 Hb Hi Ev Ep. pose proof (proj2 Hi) as Er.
  split; [|unfold owner_of; by rewrite E1].
  constructor; rewrite ?E1, ?E2, ?E3, ?E4, ?Er, ?Ev, ?Ep; try done; [by intros [?|[?|[?|?]]]|].
  unfold kind_of. by rewrite E2, E3, E4, Er.
Qed.

Lemma mkv_alone s : slot_ok s -> mkv_open s = true -> connected s = false /\ is_rtmp s = false /\ running (rtsp s) = false.
Proof.
  intros Hok Hm. pose proof (so_mkv _ Hok Hm) as Hc. split; [done|]. split.
  - destruct (is_rtmp s) eqn:E; [|done]. rewrite (so_rtmp _ Hok E) in Hc. done.
  - destruct (running (rtsp s)) eqn:E; [|done]. pose proof (so_backend _ Hok E) as Hk. unfold kind_of in Hk. by rewrite Hm in Hk.
Qed.

Lemma mkv_owner s : slot_ok s -> mkv_open s = true -> exists o, owner_of s = Some o /\ o_kind o = Mkv.
Proof.
  intros Hok Hm. unfold owner_of. rewrite (so_owned _ Hok) by by left. eexists. split; [done|]. unfold kind_of. cbn. by rewrite Hm.
Qed.

Lemma close_mkv_moves (E : Owner -> Prop) c s why :
  mkv_open s = true -> (forall o, o_kind o = Mkv -> E o) -> moves_to E (c, s) (close_mkv c s why).
Proof.
  intros Hm HE. unfold close_mkv, close_recorder. destruct (close_segment _ _) as [w k].
  apply release_moves; [done|]. intros Hok. destruct (mkv_alone s Hok Hm) as (H1 & H2 & H3).
  destruct (mkv_owner s Hok Hm) as (o & Ho & Hk). split; [|by exists o; auto].
  apply (free_ok s); [done..|apply Hok|by apply Hok|done|done].
Qed.

(** The publishers that have a connection or a backend. *)
Definition spliced (k : pub_kind) : Prop := match k with RtmpPub | RtspPub | RtpPub => True | Mkv | Udp => False end.

Definition gripped s : bool :=
  negb (negb (running (rtsp s)) && match media_fd_ (rtsp s) with None => true | Some _ => false end
        && negb (connected s) && match rtmp s with None => true | Some _ => false end).

Lemma gripped_owner s :
  slot_ok s -> gripped s = true -> mkv_open s = false /\ exists o, owner_of s = Some o /\ spliced (o_kind o).
Proof.
  intros Hok Hg. assert (Hc : running (rtsp s) = true \/ connected s = true \/ is_rtmp s = true).
  { unfold gripped, is_rtmp in *. destruct (running (rtsp s)) eqn:Er; [by left|right]. destruct (so_idle _ Hok Er) as [Hh _].
    unfold held in Hh. destruct (connected s), (rtmp s); auto.
    by destruct (media_fd_ (rtsp s)), (backend_fd_ (rtsp s)), (rtp_fd_ (rtsp s)). }
  assert (Hm : mkv_open s = false).
  { destruct (mkv_open s) eqn:Em; [|done]. destruct (mkv_alone s Hok Em) as (? & ? & ?). destruct Hc as [?|[?|?]]; congruence. }
  split; [done|]. unfold owner_of. rewrite (so_owned _ Hok) by (destruct Hc as [?|[?|?]]; auto). eexists. split; [done|].
  cbn. unfold kind_of. rewrite Hm. destruct (is_rtmp s); [done|]. destruct (connected s); [done|].
  destruct (running (rtsp s)); [done|]. by destruct Hc as [?|[?|?]].
Qed.

Lemma close_rtsp_moves (E : Owner -> Prop) c s stops :
  (forall o, owner_of s = Some o -> spliced (o_kind o) -> E o) -> moves_to E (c, s) (close_rtsp c s stops).
Proof.
  intros HE. destruct (gripped s) eqn:Hg; unfold close_rtsp; unfold gripped in Hg.
  2: { apply negb_false_iff in Hg. by rewrite Hg. }
  pose proof (proj1 (negb_true_iff _) Hg) as ->. unfold close_recorder. destruct (close_segment _ _) as [w k].
  apply release_moves; [done|]. intros Hok. destruct (gripped_owner s Hok Hg) as (Hm & o & Ho & Hs).
  split; [|by exists o; auto].
  destruct (stop_spec (rtsp s) (ledger s) stops (so_balanced _ Hok)). by apply (free_ok s).
Qed.

(** ** Taking the slot *)

Lemma admission_moves c s ip pw cap r c' : admission sha256 c idx ip pw cap e = (r, c') -> moves (c, s) (c', s).
Proof.
  unfold admission. destruct (admit_publisher _ _ _ _ _ _ _ _ _ _ _) as [[r1 a] n] eqn:Ea. intros [= <- <-] Hok.
  constructor; try done; [|by exists (owner_of s); split; [|left]].
  exists [EvAdmit (ke_ c) ip pw cap (session_ok c idx) (open_publish c idx) (now e) (rd1 e) (rd2 e)].
  split; [by repeat constructor|]. cbn. by rewrite Ea.
Qed.

Lemma taken_moves c s ip pw cap c1 c2 s2 k port :
  admission sha256 c idx ip pw cap e = (VIDEO_ADMIT_OK, c1) -> offered ip pw -> calm c1 c2 -> k <> RtpPub ->
  (slot_ok s -> slot_ok s2 /\ owner_of s2 = Some (Build_Owner k ip port (now e)) /\ vacant (owner_of s)) ->
  moves (c, s) (c2, s2).
Proof.
  intros Ha Hof (K & P & Sl & A) Hk Hs Hok. destruct (Hs Hok) as (H1 & H2 & H3).
  destruct (admission_moves c s _ _ _ _ _ Ha Hok) as [K1 P1 S1 (evs & F & A1) _ _]. cbn [fst snd] in *.
  constructor; cbn [fst snd]; try congruence.
  - exists evs. split; [done|]. congruence.
  - exists (owner_of s2). split; [|by left]. rewrite H2. apply rtc_once, own_taken; [done| |done]. exists [], pw, cap. split; [done|]. split; [done|].
    unfold admission in Ha. cbn. destruct (admit_publisher _ _ _ _ _ _ _ _ _ _ _) as [[r1 a] n]. by injection Ha.
Qed.

Lemma vacant_if s :
  slot_ok s -> mkv_open s = false -> running (rtsp s) = false -> connected s = false -> fresh_pub s (now e) = false ->
  vacant (owner_of s).
Proof.
  intros Hok Hm Hr Hc Hf. unfold owner_of, fresh_pub in *. destruct (has_pub s); [|done]. cbn [andb] in Hf. split.
  - cbn. unfold kind_of. destruct (is_rtmp s) eqn:E; [rewrite (so_rtmp _ Hok E) in Hc; done|]. by rewrite Hm, Hc, Hr.
  - cbn. lia.
Qed.

(** What a publisher's connection holds of the slot. *)
Definition grip s := (mkv_open s, connected s, is_rtmp s, core (rtsp s), ledger s, map shape (pending s)).

Lemma pub_ok s s' : grip s' = grip s -> viewers s' = viewers s -> has_pub s' = true -> slot_ok s -> slot_ok s'.
Proof.
  intros E Ev Hp [H1 H2 H3 H4 H5 H6 H7 Hmed H8 H9 [H10 H11]].
  assert (Ec : core (rtsp s) = core (rtsp s')) by exact (eq_sym (f_equal (fun h => h.1.1.2) E)).
  pose proof (core_running _ _ Ec) as (R & Hh & P & _). rewrite (core_media _ _ Ec) in Hmed.
  injection E as E1 E2 E3 _ _ _ _ _ El Ep.
  assert (Ek : kind_of s' = kind_of s) by (unfold kind_of; by rewrite E1, E2, E3, R).
  constructor; rewrite ?Ek, <-?R, <-?P, ?E1, ?E2, ?E3, ?Ev; try done.
  - rewrite El. by apply (core_balanced (rtsp s)).
  - intros Hr. destruct (H7 Hr). by split; rewrite <-?Hh, <-?R.
  - split; [by rewrite <-(length_map shape (pending s')), Ep, length_map|].
    assert (Hf : forall ps, Forall (fun p => (shape p).1 = (shape p).2) ps <-> Forall (fun x : bool * bool => x.1 = x.2) (map shape ps))
      by (intros ps; symmetry; apply list.Forall_fmap).
    apply Hf. rewrite Ep. by apply Hf.
Qed.

(** ** Backends *)

Lemma start_backend_spec c s proto codec ok s1 :
  slot_ok s -> running (rtsp s) = false -> start_backend c s idx proto codec e = (ok, s1) ->
  s1 = s <| rtsp := rtsp s1 |> <| ledger := ledger s1 |> /\ started proto (ok, rtsp s1, ledger s1).
Proof.
  intros Hok Hr. unfold start_backend, set_backend.
  pose proof (start_started (rtsp s) (ledger s) (port2_ c) idx proto codec (backend_env e) (so_balanced _ Hok) (so_idle _ Hok Hr)) as Hs.
  destruct (Backend.start _ _ _ _ _ _ _) as [[ok' b] l]. intros [= <- <-]. by split.
Qed.

Lemma backend_ok s b l :
  slot_ok s -> balanced b l -> (running b = false -> idle b) -> (running b = true -> media_fd_ b <> None) ->
  (running b = true -> has_pub s = true /\ backend_for (kind_of (s <| rtsp := b |> <| ledger := l |>)) (proto_ b)) ->
  (running b = false -> kind_of (s <| rtsp := b |> <| ledger := l |>) <> RtspPub) ->
  slot_ok (s <| rtsp := b |> <| ledger := l |>).
Proof.
  intros [H1 H2 H3 H4 H5 H6 H7 _ H8 H9 H10] Hb Hi Hmed Hr Hn. constructor; try done.
  - intros [?|[?|[?|?]]]; [apply H1; tauto..|by apply Hr].
  - intros Hk. change (rtsp (s <| rtsp := b |> <| ledger := l |>)) with b. destruct (running b) eqn:E; [done|]. by destruct (Hn eq_refl).
  - intros E. by apply Hr.
Qed.

(** A failed start leaves the slot as it was. *)
Lemma start_failed c s proto codec s1 :
  slot_ok s -> running (rtsp s) = false -> start_backend c s idx proto codec e = (false, s1) ->
  slot_ok s1 /\ owner_of s1 = owner_of s /\ running (rtsp s1) = false.
Proof.
  intros Hok Hr Hs. destruct (start_backend_spec _ _ _ _ _ _ Hok Hr Hs) as [E [Hb Hi]].
  pose proof (proj2 Hi) as Hr1.
  assert (Ek : kind_of s1 = kind_of s) by (rewrite E; unfold kind_of; cbn; by rewrite Hr1, Hr).
  split_and!; [|rewrite E; unfold owner_of; rewrite <-E, Ek; by rewrite E|done].
  rewrite E. apply backend_ok; try done; [by rewrite Hr1..|]. rewrite <-E, Ek. intros _ Hk.
  pose proof (so_rtsp _ Hok Hk). congruence.
Qed.

(** ** Datagrams *)

Lemma forward_hold s buf : hold (forward_rtp s buf e) = hold s.
Proof.
  assert (Hc : core (send_rtp (rtsp s) buf (datagram_taken e)).2 = core (rtsp s)).
  { generalize (rtsp s). intros b. unfold send_rtp. destruct (rtp_fd_ b) eqn:E; [|done].
    destruct (datagram_taken e); [|done]. unfold core. cbn. by rewrite E. }
  unfold forward_rtp, hold, rest. cbn. by rewrite Hc.
Qed.

(** The kinds that may have no backend. *)
Lemma no_backend_kind s : slot_ok s -> mkv_open s = false -> running (rtsp s) = false -> kind_of s = Udp \/ kind_of s = RtmpPub.
Proof.
  intros Hok Hm Hr. pose proof (so_rtsp _ Hok) as Hk. unfold kind_of in *. rewrite Hm, Hr in *.
  destruct (is_rtmp s); [by right|]. destruct (connected s); [|by left]. by specialize (Hk eq_refl).
Qed.

Lemma ingest_rtp_moves c s buf :
  has_pub s = true -> mkv_open s = false -> running (rtsp s) = false -> moves (c, s) (c, ingest_rtp c s idx buf e).
Proof.
  intros Hp Hm Hr. unfold ingest_rtp. destruct (rtp_payload_offset buf) as [off|]; [|done].
  cbv zeta. assert (H0 : hold (count_rtp s) = hold s /\ rtsp (count_rtp s) = rtsp s /\ mkv_open (count_rtp s) = mkv_open s
                     /\ has_pub (count_rtp s) = has_pub s) by (unfold count_rtp; by destruct (_ <? UINT32_MAX)).
  generalize dependent (count_rtp s). intros s0 H0. destruct H0 as (H0 & Er0 & Em0 & Ep0). transitivity (c, s0); [by apply moves_hold|].
  rewrite <-Er0 in Hr. rewrite <-Em0 in Hm. rewrite <-Ep0 in Hp.
  destruct (now e <? rtp_retry_after s0); [done|]. destruct (_ && _); [done|].
  generalize (rtp_name (rtp_codec_hint (zdrop off buf))). intros name. apply moves_if. intros Hok.
  destruct (start_backend c s0 idx SPLICE_RTP (Some name) e) as [ok s1] eqn:Es. destruct ok; cbn [negb].
  - transitivity (c, s1); [|apply moves_hold; [done|apply forward_hold]]. apply moves_own; [done|]. intros _.
    destruct (start_backend_spec _ _ _ _ _ _ Hok Hr Es) as [E (Hb & Hrun & Hproto & Hmed & _)].
    assert (Ek : kind_of s0 = Udp /\ kind_of s1 = RtpPub \/ kind_of s0 = RtmpPub /\ kind_of s1 = RtmpPub).
    { pose proof (no_backend_kind s0 Hok Hm Hr) as Hn. unfold kind_of in *.
      assert (mkv_open s1 = mkv_open s0 /\ is_rtmp s1 = is_rtmp s0 /\ connected s1 = connected s0) as (-> & -> & ->)
        by (rewrite E; done).
      rewrite Hrun, Hm, Hr in *. destruct (is_rtmp s0), (connected s0), Hn; naive_solver. }
    split.
    + rewrite E. apply backend_ok; [done|done|by rewrite Hrun|by rewrite Hmed|rewrite <-E|by rewrite Hrun]. intros _. rewrite Hproto.
      destruct Ek as [[_ ->]|[_ ->]]; (split; [done|]); cbn; auto.
    + unfold owner_of. rewrite E. cbn. rewrite <-E, Hp. destruct Ek as [[-> ->]|[-> ->]]; [|done]. apply rtc_once, own_muxed.
  - apply moves_own; [done|]. intros _. destruct (start_failed _ _ _ _ _ Hok Hr Es) as (H1 & H2 & _).
    set (s2 := s1 <| rtp_retry_after := now e + VIDEO_RTP_RETRY_S |>).
    assert (Hh : hold s2 = hold s1) by done. split; [by apply (hold_ok s1)|].
    destruct (rest_owner s1 s2 (f_equal fst Hh)) as [-> _]. by rewrite H2.
Qed.

Abbreviation ingest_udp' := (ingest_udp gmtime_r localtime_r grace_env video_quota_env seconds_env bytes_env).

Lemma ingest_udp_moves c s buf : has_pub s = true -> mkv_open s = false -> moves (c, s) (ingest_udp' c s idx buf e).
Proof.
  intros Hp Hm. unfold ingest_udp. destruct (running (rtsp s)) eqn:Hr.
  - apply moves_hold; [done|]. case_bool_decide; [apply forward_hold|done].
  - destruct (_ || _); [by apply ingest_rtp_moves|apply ingest_moves].
Qed.

Lemma udp_kind s : mkv_open s = false -> connected s = false -> is_rtmp s = false -> running (rtsp s) = false -> kind_of s = Udp.
Proof. unfold kind_of. by intros -> -> -> ->. Qed.

Lemma latch_fields c s t :
  let s' := (latch_publisher ring_env c s idx t).2 in has_pub s' = true /\ mkv_open s' = mkv_open s.
Proof. by split. Qed.

Lemma latched_ok c s ip port t : slot_ok s -> slot_ok (latch_publisher ring_env c (claim s ip port) idx t).2.
Proof. by apply pub_ok. Qed.

Lemma latched_owner c s ip port t :
  owner_of (latch_publisher ring_env c (claim s ip port) idx t).2 = Some (Build_Owner (kind_of s) ip port t).
Proof. reflexivity. Qed.

Lemma latch_calm c s t : calm c (latch_publisher ring_env c s idx t).1.
Proof. done. Qed.

Lemma latched_moves c s ip port pw cap c1 :
  admission sha256 c idx ip pw cap e = (VIDEO_ADMIT_OK, c1) -> offered ip pw ->
  mkv_open s = false -> running (rtsp s) = false -> connected s = false -> fresh_pub s (now e) = false ->
  moves (c, s) (latch_publisher ring_env c1 (claim s ip port) idx (now e)).
Proof.
  intros Ea Hof Hm Hr Hc Hf. pose proof (latch_calm c1 (claim s ip port) (now e)) as Hcalm.
  pose proof (latched_owner c1 s ip port (now e)) as Ho. pose proof (latched_ok c1 s ip port (now e)) as Hok.
  destruct (latch_publisher _ _ _ _ _) as [c2 s2].
  apply (taken_moves c s ip pw cap c1 c2 s2 Udp port Ea); [done..|]. intros Hs. cbn [snd] in *.
  assert (Ht : is_rtmp s = false) by (destruct (is_rtmp s) eqn:E; [rewrite (so_rtmp _ Hs E) in Hc|]; done).
  rewrite Ho, udp_kind by done. split_and!; [by apply Hok|done|by apply vacant_if].
Qed.

Abbreviation handle_udp' := (handle_udp sha256 gmtime_r localtime_r grace_env video_quota_env seconds_env bytes_env ring_env).

Lemma handle_udp_moves c s d ip port : offered ip None -> moves (c, s) (handle_udp' c s idx d ip port e).
Proof.
  intros Hof. unfold handle_udp. destruct d as [[|x buf]|]; [done| |done]. set (d := x :: buf). clearbody d. clear x buf.
  destruct (mkv_open s) eqn:Hm; [done|]. destruct (UDP_BUF <? _); [by apply moves_hold|].
  destruct (_ && _ && _) eqn:Et.
  { apply andb_true_iff in Et as [[Hp _]%andb_true_iff _].
    transitivity (c, hear s (now e)); [|by apply ingest_udp_moves].
    apply moves_own; [done|]. intros Hok. split; [by apply (pub_ok s)|]. unfold owner_of. cbn. rewrite Hp.
    apply rtc_once, own_heard. }
  destruct (admission sha256 c idx ip None false e) as [r c1] eqn:Ea.
  assert (Hrej : moves (c, s) (c1, log_reject s (now e))).
  { etransitivity; [by apply (admission_moves c s _ _ _ _ _ Ea)|]. apply moves_hold; [done|apply log_reject_hold]. }
  case_bool_decide as Hr; cbn [negb]; [|done]. subst r. destruct (_ || _ || _) eqn:Eb; [done|].
  apply orb_false_iff in Eb as [[Ef Er]%orb_false_iff Ec].
  pose proof (latched_moves c s ip port None false c1 Ea Hof Hm Er Ec Ef) as Hl.
  pose proof (latch_fields c1 (claim s ip port) (now e)) as [Hp2 Hm2].
  destruct (latch_publisher ring_env c1 (claim s ip port) idx (now e)) as [c2 s2]. etransitivity; [exact Hl|].
  apply ingest_udp_moves; [done|]. cbn [snd] in Hm2. rewrite Hm2. exact Hm.
Qed.

(** ** Connections *)

Lemma free_slot_spec i vs n : free_slot i vs = Some n -> exists k v, n = (i + k)%nat /\ vs !! k = Some v /\ seat v = None.
Proof.
  revert i. induction vs as [|v vs IH]; intros i; cbn [free_slot]; [done|]. destruct (VideoView.active v) eqn:Ev.
  - intros Hn. destruct (IH (S i) Hn) as (k & w & -> & Hk & Hw). exists (S k), w. split_and!; [lia|done..].
  - intros [= <-]. exists O, v. split_and!; [lia|done|]. unfold seat. by rewrite Ev.
Qed.

Lemma handle_tcp_moves c s k ip port : moves (c, s) (c, (handle_tcp c s k ip port e).2).
Proof.
  unfold handle_tcp. destruct k as [k|]; [|done]. cbv zeta.
  destruct (from_ip s ip <? VIDEO_MAX_VIEWERS_PER_IP)%nat eqn:Ef; [|done].
  destruct (free_slot O (viewers s)) as [n|] eqn:En; [|done]. apply Nat.ltb_lt in Ef.
  destruct (free_slot_spec _ _ _ En) as (n' & w & Hn & Hw & Hseat). cbn in Hn. subst n'.
  set (v := VideoView.start (default viewer_new (viewers s !! n)) k (port2_ c) ip port (now e)).
  assert (H1 : rest (place_viewer s n k (port2_ c) ip port (now e)) = rest s
            /\ viewers (place_viewer s n k (port2_ c) ip port (now e)) = <[n := v]> (viewers s)) by done.
  generalize dependent (place_viewer s n k (port2_ c) ip port (now e)). intros s1 [H1 Hv1].
  transitivity (c, s1); [|apply moves_hold; [done|]; unfold epoll_add_viewer; by destruct (ctl e)].
  apply moves_seats; [done|done|rewrite Hv1; apply length_insert|]. intros ip'.
  rewrite Hv1, map_seat_insert. change (seat v) with (Some ip).
  rewrite seats_take by (by rewrite list_lookup_fmap, Hw, <-Hseat). rewrite from_ip_seats in Ef.
  destruct (decide (ip = ip')) as [<-|]; [left; lia|right; lia].
Qed.

Lemma sync_hold s n t : hold (epoll_sync_viewer s n t) = hold s.
Proof. unfold epoll_sync_viewer. destruct (viewers s !! n); [|done]. destruct (_ =? _); [done|]. by destruct t. Qed.

(** ** Matroska *)

Abbreviation handle_mkv' := (handle_mkv sha256 ring_env).
Abbreviation pump_mkv' := (pump_mkv gmtime_r localtime_r grace_env video_quota_env seconds_env bytes_env).

Lemma start_mkv_owner c s ip port t :
  owner_of (start_mkv ring_env c s idx ip port t).2 = Some (Build_Owner Mkv ip port t).
Proof. reflexivity. Qed.

Lemma free_no_rtmp s : slot_ok s -> has_pub s = false -> connected s = false /\ is_rtmp s = false /\ running (rtsp s) = false /\ mkv_open s = false.
Proof.
  intros Hok Hp. pose proof (so_owned _ Hok) as Ho. rewrite Hp in Ho.
  destruct (connected s), (is_rtmp s), (running (rtsp s)), (mkv_open s); try done; by (discriminate Ho; auto).
Qed.

Lemma start_mkv_ok c s ip port t :
  slot_ok s -> has_pub s = false -> slot_ok (start_mkv ring_env c s idx ip port t).2.
Proof.
  intros Hok Hp. destruct (free_no_rtmp s Hok Hp) as (H1 & H2 & H3 & H4).
  destruct Hok as [_ _ _ _ _ Hb Hi _ Hv Hs Hpe].
  set (s' := (start_mkv ring_env c s idx ip port t).2).
  assert (E : has_pub s' = true /\ mkv_open s' = true /\ connected s' = connected s /\ is_rtmp s' = is_rtmp s /\ rtsp s' = rtsp s
              /\ ledger s' = ledger s /\ viewers s' = viewers s /\ pending s' = pending s) by done.
  clearbody s'. destruct E as (E1 & E2 & E3 & E4 & E5 & E6 & E7 & E8).
  constructor; rewrite ?E1, ?E3, ?E4, ?E5, ?E6, ?E7, ?E8, ?H1, ?H2, ?H3; try done; [unfold kind_of; by rewrite E2|by auto].
Qed.

Lemma start_mkv_calm c s ip port t : calm c (start_mkv ring_env c s idx ip port t).1.
Proof. done. Qed.

(** What the request of a Matroska publisher, or of an RTSP one, presents. *)
Definition mkv_presents (peek : bytes) (pw : option bytes) : Prop :=
  exists n req, HttpReq.feed http_init (take MKV_PEEK peek) = (n, req) /\ pw = http_query_value (target_ req) (bs "pw").
Definition rtsp_presents (peek : bytes) (pw : option bytes) : Prop :=
  exists target, VideoPublish.request_target (take RTSP_PEEK peek) = Some target /\ pw = http_query_value target (bs "pw").

Lemma handle_mkv_moves c s ip port peek hr ho :
  (forall pw, mkv_presents peek pw -> offered ip pw) ->
  moves (c, s) (let '(_, c, s) := handle_mkv' c s idx ip port peek hr ho e in (c, s)).
Proof.
  intros Hof. unfold handle_mkv, mkv_presents in *. destruct (take MKV_PEEK peek) as [|x b]; [done|]. set (d := x :: b) in *. clearbody d.
  destruct (HttpReq.feed http_init d) as [v req]. destruct (Z.eqb_spec v 1) as [->|Hv].
  2: { by destruct v as [|[]|]. }
  destruct (admission sha256 c idx ip _ true e) as [r c1] eqn:Ea. cbv zeta.
  pose proof (admission_moves c s _ _ _ _ _ Ea) as Hadm. unfold mkv_code.
  case_bool_decide as Hr; cbn [negb]; [|done]. subst r.
  destruct (has_pub s || running (rtsp s) || mkv_open s) eqn:Eb; [done|].
  destruct (mkv_valid idx req); [|done]. cbn [Z.eqb Pos.eqb negb]. destruct hr; [|done]. destruct ho; [|done]. cbn [negb].
  apply orb_false_iff in Eb as [[Hp Hrun]%orb_false_iff Hm].
  pose proof (start_mkv_ok c1 s ip port (now e)) as Hok. pose proof (start_mkv_owner c1 s ip port (now e)) as Ho.
  pose proof (start_mkv_calm c1 s ip port (now e)) as Hc. destruct (start_mkv _ _ _ _ _ _ _) as [c2 s2]. cbn [fst snd] in *.
  apply (taken_moves c s ip _ true c1 c2 s2 Mkv port Ea); [apply Hof; by exists 1, req|done|done|]. intros Hs. split_and!; [by apply Hok|done|].
  unfold owner_of. by rewrite Hp.
Qed.

Lemma on_clusters_moves t ds c s :
  moves (c, s) (fold_left (on_cluster gmtime_r localtime_r grace_env video_quota_env seconds_env bytes_env t) ds (c, s)).
Proof.
  revert c s. induction ds as [|d ds IH]; intros c s; [done|]. cbn [fold_left].
  destruct (on_cluster gmtime_r localtime_r grace_env video_quota_env seconds_env bytes_env t (c, s) d) as [c1 s1] eqn:E1.
  etransitivity; [|apply IH]. rewrite <-E1. unfold on_cluster. destruct (_ || _); [done|].
  unfold segment_due. destruct (rotation_due _ _ _ _) as [due w]. set (s0 := s <| rec := w |>).
  transitivity (c, s0); [by apply moves_hold|]. transitivity (if due then rotate_recorder c s0 else (c, s0));
    [destruct due; [apply rotate_moves|done]|].
  destruct (if due then rotate_recorder c s0 else (c, s0)) as [c2 s2].
  pose proof (write_moves c2 s2 (prefix (scanner s2)) t) as Hp.
  assert (Hrest : forall ok c s, moves (c, s) (if negb ok then (c, s) else
     let '(_, c, s) := write_recorder gmtime_r localtime_r grace_env video_quota_env bytes_env c s d t in (c, s)))
    by (intros [] c3 s3; [apply write_moves|done]).
  destruct (is_open (rec s2)).
  - apply (Hrest true).
  - destruct (write_recorder _ _ _ _ _ c2 s2 _ t) as [[ok c3] s3]. etransitivity; [exact Hp|]. apply Hrest.
Qed.

Lemma publish_moves t ds c s :
  moves (c, s) (fold_left (publish gmtime_r localtime_r grace_env video_quota_env seconds_env bytes_env t) ds (c, s)).
Proof.
  revert c s. induction ds as [|d ds IH]; intros c s; [done|]. cbn [fold_left].
  destruct (publish gmtime_r localtime_r grace_env video_quota_env seconds_env bytes_env t (c, s) d) as [c1 s1] eqn:E1.
  etransitivity; [|apply IH]. rewrite <-E1. unfold publish. cbv zeta.
  transitivity (c, take_bytes s d); [by apply moves_hold|apply on_clusters_moves].
Qed.

Lemma pump_mkv_moves c s r : mkv_open s = true -> moves (c, s) (let '(_, c, s) := pump_mkv' c s r e in (c, s)).
Proof.
  intros Hm. unfold pump_mkv. destruct r as [b| | |]; [|done..]. unfold decode.
  set (s0 := hear s (now e)).
  destruct (HttpChunks.feed _ _) as [ok k].
  pose proof (publish_moves (clock e) (emitted k) c (set_chunks s0 k)) as Hp.
  destruct (fold_left _ _ _) as [c1 s1]. etransitivity; [|exact Hp].
  transitivity (c, s0); [|by apply moves_hold]. apply moves_own; [done|]. intros Hok.
  assert (Hpub : has_pub s = true) by (apply Hok; tauto). split; [by apply (pub_ok s)|].
  unfold owner_of. change (has_pub s0) with (has_pub s). rewrite Hpub. apply rtc_once, own_heard.
Qed.

Lemma pump_mkv_open c s r : mkv_open (pump_mkv' c s r e).2 = mkv_open s.
Proof.
  unfold pump_mkv. destruct r as [b| | |]; [|done..]. unfold decode. destruct (HttpChunks.feed _ _) as [ok k].
  assert (Hf : forall t ds c s, mkv_open (fold_left (publish gmtime_r localtime_r grace_env video_quota_env seconds_env bytes_env t) ds (c, s)).2
                = mkv_open s).
  { intros t ds. induction ds as [|d ds IH]; intros c1 s1; [done|]. cbn [fold_left].
    pose proof (publish_open gmtime_r localtime_r grace_env video_quota_env seconds_env bytes_env t c1 s1 d) as Ho.
    destruct (publish _ _ _ _ _ _ t (c1, s1) d) as [c2 s2]. by rewrite IH. }
  specialize (Hf (clock e) (emitted k) c (set_chunks (hear s (now e)) k)). by destruct (fold_left _ _ _) as [c1 s1].
Qed.

(** ** Pending handshakes *)

Lemma set_pending_ok s k p : (shape p).1 = (shape p).2 -> slot_ok s -> slot_ok (set_pending s k p).
Proof.
  intros Hp [H1 H2 H3 H4 H5 H6 H7 Hmed H8 H9 [H10 H11]]. constructor; try done. split.
  - by rewrite <-H10; apply length_insert.
  - change (pending (set_pending s k p)) with (<[k:=p]> (pending s)). by apply Forall_insert.
Qed.

Lemma set_pending_moves c s k p : (shape p).1 = (shape p).2 -> moves (c, s) (c, set_pending s k p).
Proof. intros Hp. apply moves_own; [done|]. intros Hok. split; [by apply set_pending_ok|done]. Qed.

Lemma close_pending_keeps s k : keeps s (close_pending s k).
Proof. intros Hok. unfold close_pending. destruct (negb _); [done|]. split; [by apply set_pending_ok|done]. Qed.

Lemma close_pending_moves c s k : moves (c, s) (c, close_pending s k).
Proof. by apply moves_keeps, close_pending_keeps. Qed.

Lemma park_pending_moves c s k ip port t : moves (c, s) (c, park_pending s k ip port t).
Proof. unfold park_pending. etransitivity; [apply (close_pending_moves c s (pending_place s))|]. by apply set_pending_moves. Qed.

(** ** Queues *)

Lemma flush_client_hold s : hold (flush_client s).2 = hold s.
Proof.
  unfold flush_client. destruct (splice_flush _ _) as [[ok k] q]. cbn [snd].
  assert (Hc : connected (s <| to_client := q |> <| rtsp_client_fd := match rtsp_client_fd s with Some _ => Some k | None => None end |>)
               = connected s) by (unfold connected; cbn; by destruct (rtsp_client_fd s)).
  unfold hold, rest. rewrite Hc. reflexivity.
Qed.

Lemma flush_backend_hold s : hold (flush_backend s).2 = hold s.
Proof. unfold flush_backend. destruct (splice_flush _ _) as [[ok k] q]. reflexivity. Qed.

Lemma arm_client_hold s t : hold (arm_client s t) = hold s.
Proof. reflexivity. Qed.
Lemma arm_backend_hold s t : hold (arm_backend s t) = hold s.
Proof. reflexivity. Qed.

(** What [hold] keeps of a slot in one's hands. *)
Lemma hold_fields s s' :
  hold s' = hold s -> has_pub s' = has_pub s /\ mkv_open s' = mkv_open s /\ connected s' = connected s /\ is_rtmp s' = is_rtmp s
  /\ running (rtsp s') = running (rtsp s).
Proof.
  intros E. pose proof (f_equal fst E) as Er. cbn [fst hold] in Er. unfold hold, rest in E.
  assert (Ec : core (rtsp s') = core (rtsp s)) by exact (f_equal (fun h => h.1.1.2) Er).
  split_and!; [exact (f_equal (fun h => h.1.1.1.1.1.1.1.1.1) Er)|exact (f_equal (fun h => h.1.1.1.1.1.2) Er)
    |exact (f_equal (fun h => h.1.1.1.1.2) Er)|exact (f_equal (fun h => h.1.1.1.2) Er)|by apply core_running].
Qed.

Lemma hear_moves c s : has_pub s = true -> moves (c, s) (c, hear s (now e)).
Proof.
  intros Hp. apply moves_own; [done|]. intros Hok. split; [by apply (pub_ok s)|]. unfold owner_of.
  change (has_pub (hear s (now e))) with (has_pub s). rewrite Hp. apply rtc_once, own_heard.
Qed.

Lemma held_pub s : slot_ok s -> forall f, fd_open_in s f = true -> has_pub s = true.
Proof.
  intros Hok f Hf. apply (so_owned _ Hok). destruct f; cbn [fd_open_in] in Hf; [by auto|right; right; right..].
  all: destruct (running (rtsp s)) eqn:Er; [done|]; destruct (so_idle _ Hok Er) as [Hh _]; unfold held in Hh; cbn in Hh;
    by destruct (backend_fd_ (rtsp s)), (rtp_fd_ (rtsp s)), (media_fd_ (rtsp s)).
Qed.

(** ** RTSP *)

Abbreviation handle_rtsp' := (handle_rtsp sha256 ring_env).

Lemma spliced_ok c s s1 k ip port t :
  slot_ok s -> mkv_open s = false -> is_rtmp s = false ->
  s1 = s <| rtsp := rtsp s1 |> <| ledger := ledger s1 |> -> started SPLICE_RTSP (true, rtsp s1, ledger s1) ->
  let s2 := (latch_publisher ring_env c (claim (s1 <| rtsp_client_fd := Some k |> <| rtsp_guard := guard_new |>) ip port) idx t).2 in
  slot_ok s2 /\ owner_of s2 = Some (Build_Owner RtspPub ip port t).
Proof.
  intros Hok Hm Hr E (Hb & Hrun & Hproto & Hmed & _). cbv zeta. set (s2 := (latch_publisher _ _ _ _ _).2).
  assert (E2 : has_pub s2 = true /\ pub_ip_be s2 = ip /\ pub_port_be s2 = port /\ pub_last s2 = t /\ mkv_open s2 = mkv_open s
    /\ connected s2 = true /\ is_rtmp s2 = is_rtmp s /\ rtsp s2 = rtsp s1 /\ ledger s2 = ledger s1 /\ viewers s2 = viewers s
    /\ pending s2 = pending s) by (unfold s2; rewrite E; done).
  clearbody s2. destruct E2 as (F1 & F2 & F3 & F4 & F5 & F6 & F7 & F8 & F9 & F10 & F11).
  assert (Ek : kind_of s2 = RtspPub) by (unfold kind_of; by rewrite F5, F6, F7, Hm, Hr).
  split; [|unfold owner_of; by rewrite F1, F2, F3, F4, Ek].
  destruct Hok as [_ _ _ _ _ _ _ _ Hv Hs Hp].
  constructor; rewrite ?Ek, ?F1, ?F5, ?F6, ?F7, ?F8, ?F9, ?F10, ?F11, ?Hm, ?Hr, ?Hrun, ?Hmed; done.
Qed.

Lemma held_by_other_free s t :
  held_by_other s t = false -> mkv_open s = false /\ running (rtsp s) = false /\ connected s = false /\ fresh_pub s t = false.
Proof. unfold held_by_other. by intros [[[? ?]%orb_false_iff ?]%orb_false_iff ?]%orb_false_iff. Qed.

Lemma no_rtmp s : slot_ok s -> connected s = false -> is_rtmp s = false.
Proof. intros Hok Hc. destruct (is_rtmp s) eqn:E; [rewrite (so_rtmp _ Hok E) in Hc|]; done. Qed.

Lemma start_failed_keeps c s proto codec s1 :
  running (rtsp s) = false -> start_backend c s idx proto codec e = (false, s1) -> keeps s s1.
Proof. intros Hr Es Hok. by destruct (start_failed _ _ _ _ _ Hok Hr Es) as (H1 & -> & _). Qed.

Lemma handle_rtsp_moves c s ip port k peek proto :
  proto <> SPLICE_RTP -> (forall pw, rtsp_presents peek pw -> offered ip pw) -> moves (c, s) (handle_rtsp' c s idx ip port k peek proto e).
Proof.
  intros Hproto Hof. unfold handle_rtsp. case_bool_decide; [apply park_pending_moves|].
  destruct (VideoPublish.request_target _) as [target|] eqn:Et; [|done].
  destruct (admission sha256 c idx ip _ true e) as [r c1] eqn:Ea.
  pose proof (admission_moves c s _ _ _ _ _ Ea) as Hadm.
  assert (Hrej : moves (c, s) (c1, log_reject s (now e))) by (etransitivity; [exact Hadm|apply moves_hold; [done|apply log_reject_hold]]).
  case_bool_decide as Hr; cbn [negb]; [|done]. subst r. destruct (held_by_other s (now e)) eqn:Eb; [done|].
  apply held_by_other_free in Eb as (Hm & Hr & Hc & Hf).
  destruct (start_backend c1 s idx proto None e) as [ok s1] eqn:Es. destruct ok; cbn [negb].
  2: { etransitivity; [exact Hadm|]. by apply moves_keeps, (start_failed_keeps c1 s proto None). }
  assert (proto = SPLICE_RTSP) as -> by by destruct proto.
  set (s2 := s1 <| rtsp_client_fd := Some k |> <| rtsp_guard := guard_new |>).
  pose proof (latch_calm c1 (claim s2 ip port) (now e)) as Hcalm.
  assert (Hsp : slot_ok s -> slot_ok (latch_publisher ring_env c1 (claim s2 ip port) idx (now e)).2
    /\ owner_of (latch_publisher ring_env c1 (claim s2 ip port) idx (now e)).2 = Some (Build_Owner RtspPub ip port (now e))).
  { intros Hok. destruct (start_backend_spec c1 s SPLICE_RTSP None true s1 Hok Hr Es).
    apply (spliced_ok c1 s s1 k ip port (now e)); try done. by apply no_rtmp. }
  destruct (latch_publisher _ _ _ _ _) as [c2 s3]. cbn [fst snd] in *.
  apply (taken_moves c s ip _ true c1 c2 s3 RtspPub port Ea); [apply Hof; by exists target|done|done|]. intros Hok.
  destruct (Hsp Hok) as [H1 H2]. split_and!; [done|done|by apply vacant_if].
Qed.

(** ** RTMP *)

Lemma take_output_hold s r : is_rtmp s = true -> hold (take_output s r) = hold s.
Proof.
  intros Hr. assert (E : is_rtmp (take_output s r) = is_rtmp s) by by rewrite Hr. unfold hold, rest. rewrite E. reflexivity.
Qed.

Lemma set_rtmp_hold s r : is_rtmp s = true -> hold (s <| rtmp := Some r |>) = hold s.
Proof.
  intros Hr. assert (E : is_rtmp (s <| rtmp := Some r |>) = is_rtmp s) by by rewrite Hr. unfold hold, rest. rewrite E. reflexivity.
Qed.

(** The slot keeps its RTMP publisher. *)
Definition still_rtmp s : Prop := has_pub s = true /\ is_rtmp s = true /\ connected s = true.

Lemma rtmp_start_keeps c s ok s1 :
  still_rtmp s -> mkv_open s = false -> running (rtsp s) = false -> rtmp_start_backend c s idx e = (ok, s1) -> keeps s s1.
Proof.
  intros (Hp & Hr & Hc) Hm Hrun Es. unfold rtmp_start_backend in Es.
  destruct ok; [|by apply (start_failed_keeps c s SPLICE_RTMP None)].
  intros Hok. destruct (start_backend_spec _ _ _ _ _ _ Hok Hrun Es) as [E (Hb & Hr1 & Hproto & Hmed & _)].
  assert (Ek : kind_of s1 = RtmpPub /\ kind_of s = RtmpPub).
  { unfold kind_of. rewrite Hm, Hr. assert (mkv_open s1 = mkv_open s /\ is_rtmp s1 = is_rtmp s) as [-> ->] by (rewrite E; done).
    by rewrite Hm, Hr. }
  destruct Ek as [Ek1 Ek]. split.
  - rewrite E. apply backend_ok; [done|done|by rewrite Hr1|by rewrite Hmed|rewrite <-E, Ek1|by rewrite Hr1]. intros _. rewrite Hproto.
    split; [done|]. cbn. by left.
  - unfold owner_of. rewrite Ek, Ek1. rewrite E. cbn. done.
Qed.

Lemma rtmp_drain_keeps c s alive : has_pub s = true -> is_rtmp s = true -> keeps s (rtmp_drain_owner c s idx alive e).2.
Proof.
  intros Hp Hr Hok. pose proof (so_rtmp _ Hok Hr) as Hc.
  assert (Hm : mkv_open s = false) by (destruct (mkv_open s) eqn:E; [pose proof (so_mkv _ Hok E); congruence|done]).
  revert Hok. change (keeps s (rtmp_drain_owner c s idx alive e).2).
  unfold rtmp_drain_owner. destruct (rtmp s) as [r|] eqn:Er; [|done]. cbv zeta.
  pose proof (take_output_hold s r Hr) as Hh. pose proof (hold_fields _ _ Hh) as (F1 & F2 & F3 & F4 & F5).
  transitivity (take_output s r); [by apply keeps_hold|]. generalize dependent (take_output s r). intros s0 Hh F1 F2 F3 F4 F5.
  rewrite Hp in F1. rewrite Hm in F2. rewrite Hc in F3. rewrite Hr in F4.
  assert (Htail : forall s1, keeps s1 (if publish_pending_ r || negb alive then (false, (flush_client s1).2) else (true, s1)).2).
  { intros s1. destruct (_ || _); [|done]. apply keeps_hold, flush_client_hold. }
  destruct (publishing_ r && negb (running (rtsp s0)) && _) eqn:Et; [|apply Htail].
  apply andb_true_iff in Et as [[_ Hn%negb_true_iff]%andb_true_iff _].
  destruct (rtmp_start_backend c s0 idx e) as [ok s1] eqn:Es.
  transitivity s1; [by apply (rtmp_start_keeps c s0 ok)|]. destruct ok; [apply Htail|done].
Qed.

(** ** Promotion *)

Abbreviation promote_pending' := (promote_pending sha256 ring_env).

Lemma refuse_moves c s k p r why : pending_active p = true -> moves (c, s) (c, refuse_pending s k p r why).
Proof. intros Hp. apply set_pending_moves. by unfold shape; cbn. Qed.

Lemma promoted_ok c s k p r ip port t :
  slot_ok s -> mkv_open s = false -> running (rtsp s) = false -> pending_active p = true ->
  let s2 := (latch_publisher ring_env c (claim (promoted s k p r) ip port) idx t).2 in
  slot_ok s2 /\ owner_of s2 = Some (Build_Owner RtmpPub ip port t) /\ is_rtmp s2 = true /\ has_pub s2 = true.
Proof.
  intros Hok Hm Hrun Hp. cbv zeta. set (s2 := (latch_publisher _ _ _ _ _).2).
  assert (E2 : has_pub s2 = true /\ pub_ip_be s2 = ip /\ pub_port_be s2 = port /\ pub_last s2 = t /\ mkv_open s2 = mkv_open s
    /\ connected s2 = pending_active p /\ is_rtmp s2 = true /\ rtsp s2 = rtsp s /\ ledger s2 = ledger s /\ viewers s2 = viewers s
    /\ exists q, shape q = (false, false) /\ pending s2 = <[k := q]> (pending s)).
  { split_and!; try done. eexists. split; [|reflexivity]. done. }
  clearbody s2. destruct E2 as (F1 & F2 & F3 & F4 & F5 & F6 & F7 & F8 & F9 & F10 & q & Hq & F11). rewrite Hp in F6.
  assert (Ek : kind_of s2 = RtmpPub) by (unfold kind_of; by rewrite F5, F7, Hm).
  split_and!; [|unfold owner_of; by rewrite F1, F2, F3, F4, Ek|done|done].
  destruct Hok as [_ _ _ _ _ Hb Hi _ Hv Hs [Hl Hsh]].
  constructor; rewrite ?Ek, ?F1, ?F5, ?F6, ?F7, ?F8, ?F9, ?F10, ?F11, ?Hm, ?Hrun; try done; [by auto|].
  split; [by rewrite <-Hl; apply length_insert|]. apply Forall_insert; [done|by rewrite Hq].
Qed.

Definition rtmp_credential (r : RtmpSession) : option bytes := if password_present_ r then Some (password_ r) else None.

(** The owner a handshake has just made, on a slot that was free to take. *)
Definition promoted_now s (k : nat) (o : Owner) : Prop :=
  vacant (owner_of s) /\ o = Build_Owner RtmpPub (ip_be (pending_at s k)) (port_be (pending_at s k)) (now e).

Lemma promote_moves c s k :
  pending_active (pending_at s k) = true ->
  (forall r, sess (pending_at s k) = Some r -> offered (ip_be (pending_at s k)) (rtmp_credential r)) ->
  moves_to (promoted_now s k) (c, s) (let '(_, c, s) := promote_pending' c s k idx e in (c, s)).
Proof.
  intros Hp Hof. unfold promote_pending. set (p := pending_at s k) in *. destruct (sess p) as [r|] eqn:Esess; [|done]. cbv zeta.
  destruct (admission sha256 c idx (ip_be p) _ true e) as [a c1] eqn:Ea. specialize (Hof r eq_refl).
  pose proof (admission_moves c s _ _ _ _ _ Ea) as Hadm.
  assert (Hrefuse : forall s1 why, hold s1 = hold s -> moves_to (promoted_now s k) (c, s) (c1, refuse_pending s1 k p r why)).
  { intros s1 why Hh. apply moves_any. etransitivity; [exact Hadm|]. transitivity (c1, s1); [by apply moves_hold|by apply refuse_moves]. }
  case_bool_decide as Hr; cbn [negb]; [|apply Hrefuse, log_reject_hold].
  subst a. destruct (_ && _); [by apply Hrefuse|].
  destruct (held_by_other s (now e)) eqn:Eb; [apply Hrefuse, log_reject_hold|].
  apply held_by_other_free in Eb as (Hm & Hrun & Hc & Hf). apply moves_if. intros Hok.
  pose proof (vacant_if s Hok Hm Hrun Hc Hf) as Hv.
  set (s1 := claim (promoted s k p (accept_publish r)) (ip_be p) (port_be p)).
  pose proof (latch_calm c1 s1 (now e)) as Hcalm.
  pose proof (promoted_ok c1 s k p (accept_publish r) (ip_be p) (port_be p) (now e) Hok Hm Hrun Hp) as Hpo. fold s1 in Hpo.
  destruct (latch_publisher _ _ _ _ _) as [c2 s2]. cbn [fst snd] in *. destruct Hpo as (Hok2 & Ho2 & Hr2 & Hp2).
  apply (moves_then _ _ (c2, s2)).
  { by apply (taken_moves c s (ip_be p) _ true c1 c2 s2 RtmpPub (port_be p) Ea Hof Hcalm). }
  destruct (resume (accept_publish r)) as [alive r2]. set (s3 := s2 <| rtmp := Some r2 |>).
  pose proof (set_rtmp_hold s2 r2 Hr2) as H3. fold s3 in H3. pose proof (hold_fields _ _ H3) as (F1 & _ & _ & F4 & _).
  assert (Hk4 : keeps s2 (rtmp_drain_owner c2 s3 idx alive e).2)
    by (transitivity s3; [by apply keeps_hold|apply rtmp_drain_keeps; congruence]).
  destruct (rtmp_drain_owner c2 s3 idx alive e) as [ok s4]. cbn [snd] in Hk4.
  assert (Hcl : forall s', keeps s2 s' ->
    moves_to (promoted_now s k) (c2, s2) (let '(_, c, s) := (let '(c, s) := close_rtsp c2 s' (stop_env e) in (true, c, s)) in (c, s))).
  { intros s' Hk. destruct (Hk Hok2) as [_ Ho']. rewrite Ho2 in Ho'.
    pose proof (close_rtsp_moves (promoted_now s k) c2 s' (stop_env e)) as Hcl. rewrite Ho' in Hcl.
    apply (moves_then _ _ (c2, s')); [by apply moves_keeps|].
    destruct (close_rtsp c2 s' (stop_env e)). apply Hcl. intros o [= <-] _. by split. }
  destruct ok; cbn [negb]; [|by apply Hcl].
  assert (Hk5 : keeps s2 (flush_client s4).2) by (etransitivity; [exact Hk4|apply keeps_hold, flush_client_hold]).
  destruct (flush_client s4) as [ok s5]. cbn [snd] in Hk5. destruct ok; cbn [negb]; [|by apply Hcl].
  apply moves_any, moves_keeps; [done|]. etransitivity; [exact Hk5|]. by apply keeps_hold.
Qed.

(** ** Driving a handshake *)

Lemma pending_at_set s k p : pending_active (pending_at s k) = true -> pending_at (set_pending s k p) k = p.
Proof.
  intros Ha. unfold pending_at in *. change (pending (set_pending s k p)) with (<[k:=p]> (pending s)).
  destruct (pending s !! k) eqn:E; [|done]. rewrite list_lookup_insert_eq; [done|]. by apply lookup_lt_Some in E.
Qed.

Lemma pending_shape s k : slot_ok s -> pending_active (pending_at s k) = true -> exists r, sess (pending_at s k) = Some r.
Proof.
  intros Hok Ha. destruct (so_pending _ Hok) as [_ Hf]. unfold pending_at in *. destruct (pending s !! k) as [p|] eqn:E; [|done].
  rewrite list.Forall_lookup in Hf. specialize (Hf k p E). unfold shape in Hf. cbn in *. rewrite Ha in Hf.
  destruct (sess p); [by eexists|done].
Qed.

(** The peer of a handshake. *)
Definition from_whom s (k : nat) : Z * Z := (ip_be (pending_at s k), port_be (pending_at s k)).

(** Replacing a handshake by one of the same shape. *)
Lemma reshape_keeps s k p : shape p = shape (pending_at s k) -> pending_active (pending_at s k) = true -> keeps s (set_pending s k p).
Proof.
  intros Hs Ha Hok. destruct (pending_shape s k Hok Ha) as [r Hr]. split; [|done]. apply set_pending_ok; [|done].
  rewrite Hs. unfold shape. cbn. by rewrite Ha, Hr.
Qed.

Lemma flush_pending_keeps s k : pending_active (pending_at s k) = true ->
  keeps s (flush_pending s k).2 /\ pending_active (pending_at (flush_pending s k).2 k) = true
  /\ sess (pending_at (flush_pending s k).2 k) = sess (pending_at s k)
  /\ from_whom (flush_pending s k).2 k = from_whom s k.
Proof.
  intros Ha. unfold flush_pending. destruct (splice_flush _ _) as [[ok sk] q]. cbn [snd].
  set (p := pending_at s k) in *.
  match goal with |- context [set_pending s k ?x] => set (p' := x) end.
  assert (Hp : shape p' = shape p /\ pending_active p' = true) by (unfold shape, pending_active in *; cbn in *; by destruct (fd p)).
  destruct Hp as [Hp Ha']. split; [by apply reshape_keeps|]. unfold from_whom. by rewrite pending_at_set.
Qed.

Lemma arm_pending_keeps s k t : pending_active (pending_at s k) = true -> keeps s (arm_pending s k t).
Proof. intros Ha. by apply reshape_keeps. Qed.

Lemma answer_pending_keeps s k : pending_active (pending_at s k) = true ->
  keeps s (answer_pending s k) /\ pending_active (pending_at (answer_pending s k) k) = true.
Proof.
  intros Ha. unfold answer_pending. destruct (sess (pending_at s k)) as [r|] eqn:Er; [|done]. split.
  - apply reshape_keeps; [|done]. unfold shape. cbn. by rewrite Er.
  - by rewrite pending_at_set.
Qed.

Abbreviation pump_pending' := (pump_pending sha256 ring_env).

(** What a refused handshake's entry is left as. *)
Lemma refuse_active s k p r why : pending_active (pending_at s k) = true -> pending_active p = true ->
  pending_active (pending_at (refuse_pending s k p r why) k) = true.
Proof. intros Ha Hp. unfold refuse_pending. by rewrite pending_at_set. Qed.

Lemma promote_refused c s k :
  pending_active (pending_at s k) = true ->
  let '(ok, _, s') := promote_pending' c s k idx e in ok = false -> pending_active (pending_at s' k) = true.
Proof.
  intros Hp. unfold promote_pending. destruct (sess (pending_at s k)) as [r|]; [|done]. cbv zeta.
  destruct (admission sha256 c idx _ _ true e) as [a c1].
  assert (Hl : pending_active (pending_at (log_reject s (now e)) k) = true).
  { unfold pending_at. replace (pending (log_reject s (now e))) with (pending s); [done|]. unfold log_reject. by destruct (_ <? _). }
  destruct (negb (bool_decide _)); [by intros _; apply refuse_active|].
  destruct (_ && _); [by intros _; apply refuse_active|].
  destruct (held_by_other _ _); [by intros _; apply refuse_active|].
  destruct (latch_publisher _ _ _ _ _) as [c2 s2]. destruct (resume _) as [alive r2].
  destruct (rtmp_drain_owner _ _ _ _ _) as [ok s4]. destruct ok; cbn [negb].
  - destruct (flush_client s4) as [ok s5]. destruct ok; cbn [negb]; [done|]. by destruct (close_rtsp _ _ _).
  - by destruct (close_rtsp _ _ _).
Qed.

(** What a handshake presents when its next bytes make it publish. *)
Definition rtmp_presents s (k : nat) (rcv : rcv_res) (pw : option bytes) : Prop :=
  exists d r, rcv = RcvData d /\ sess (pending_at s k) = Some r
  /\ pw = rtmp_credential (Rtmp.feed r (take PENDING_READ d) (now e)).2.

(** What follows a handshake's answer. *)
Lemma pending_tail_keeps c s k alive : pending_active (pending_at s k) = true ->
  let '(_, c', s') := (let '(ok, s) := flush_pending (answer_pending s k) k in
    if negb ok || negb alive then (false, c, s) else (true, c, arm_pending s k (ctl e))) in c' = c /\ keeps s s'.
Proof.
  intros Ha. destruct (answer_pending_keeps s k Ha) as [H3 Ha4].
  destruct (flush_pending_keeps _ k Ha4) as (H4 & Ha5 & _). destruct (flush_pending _ k) as [ok s5]. cbn [snd] in *.
  assert (H5 : keeps s s5) by (etransitivity; [exact H3|exact H4]).
  destruct (_ || _); (split; [done|]); [done|]. etransitivity; [exact H5|]. by apply arm_pending_keeps.
Qed.

Lemma pump_pending_moves c s k rcv :
  pending_active (pending_at s k) = true -> (forall pw, rtmp_presents s k rcv pw -> offered (ip_be (pending_at s k)) pw) ->
  moves_to (promoted_now s k) (c, s) (let '(_, c, s) := pump_pending' c s k idx rcv e in (c, s)).
Proof.
  intros Ha Hof. apply moves_if. intros Hok. unfold pump_pending. destruct (flush_pending_keeps s k Ha) as (H1 & Ha1 & Hse & Hip).
  unfold rtmp_presents in Hof. assert (Hpn : forall s', from_whom s' k = from_whom s k -> owner_of s' = owner_of s ->
    forall o, promoted_now s' k o -> promoted_now s k o) by (unfold promoted_now, from_whom; intros s' [= -> ->] ->; done).
  assert (Hip1 : ip_be (pending_at (flush_pending s k).2 k) = ip_be (pending_at s k)) by exact (f_equal fst Hip).
  rewrite <-Hse, <-Hip1 in Hof. clear Hip1. pose proof (proj2 (H1 Hok)) as Ho1.
  destruct (flush_pending s k) as [ok s1]. cbn [snd] in *. apply (moves_then _ _ (c, s1)); [by apply moves_keeps|]. clear H1.
  destruct ok; [|done]. cbn [negb]. destruct rcv as [b| | |]; [|done|by apply moves_any, moves_keeps, arm_pending_keeps|done].
  destruct (sess (pending_at s1 k)) as [r|] eqn:Er; [|done]. specialize (Hof _ ltac:(by exists b, r)).
  destruct (Rtmp.feed r _ _) as [alive r1]. cbn [snd] in Hof.
  match goal with |- context [set_pending s1 k ?x] => set (s2 := set_pending s1 k x) end.
  assert (H2 : keeps s1 s2 /\ pending_active (pending_at s2 k) = true /\ sess (pending_at s2 k) = Some r1
    /\ from_whom s2 k = from_whom s1 k).
  { split; [apply reshape_keeps; [|done]; unfold shape; cbn; by rewrite Er|]. unfold s2, from_whom. by rewrite pending_at_set. }
  destruct H2 as (H2 & Ha2 & Hr2 & Hi2). apply (moves_then _ _ (c, s2)); [by apply moves_keeps|]. clear H2.
  destruct (publish_pending_ r1).
  - pose proof (promote_moves c s2 k Ha2) as Hpm. rewrite Hr2, (f_equal fst Hi2 : ip_be (pending_at s2 k) = _) in Hpm.
    specialize (Hpm ltac:(by intros r' [= <-])).
    apply (moves_weaken _ _ _ _ (Hpn s2 (eq_trans Hi2 Hip) Ho1)) in Hpm.
    pose proof (promote_refused c s2 k Ha2) as Hpr.
    destruct (promote_pending' c s2 k idx e) as [[was c3] s3]. destruct was; [done|].
    pose proof (pending_tail_keeps c3 s3 k false (Hpr eq_refl)) as Ht.
    destruct (let '(_, _) := flush_pending (answer_pending s3 k) k in _) as [[ok c4] s4]. destruct Ht as [-> Ht].
    by apply (moves_and_keeps _ _ c3 s3).
  - pose proof (pending_tail_keeps c s2 k alive Ha2) as Ht.
    destruct (let '(_, _) := flush_pending (answer_pending s2 k) k in _) as [[ok c4] s4]. destruct Ht as [-> Ht].
    by apply moves_any, moves_keeps.
Qed.

(** ** Driving a splice *)

Abbreviation pump_media' := (pump_media gmtime_r localtime_r grace_env video_quota_env seconds_env bytes_env).
Abbreviation pump_rtmp' := (pump_rtmp gmtime_r localtime_r grace_env video_quota_env seconds_env bytes_env).
Abbreviation pump_rtsp' := (pump_rtsp sha256 gmtime_r localtime_r grace_env video_quota_env seconds_env bytes_env).

Lemma pump_media_moves c s rcv : has_pub s = true -> moves (c, s) (let '(_, c, s) := pump_media' c s rcv e in (c, s)).
Proof.
  intros Hp. unfold pump_media. destruct rcv as [b| | |]; [|done..]. etransitivity; [by apply hear_moves|].
  pose proof (ingest_stream_moves c (hear s (now e)) (take SPLICE_READ b) (clock e)) as Hi.
  by destruct (ingest_stream _ _ _ _ _ _ _ _ _ _).
Qed.

Lemma settle_rtmp_hold s t : hold (settle_rtmp s t).2 = hold s.
Proof.
  unfold settle_rtmp. pose proof (flush_client_hold s) as H1. destruct (flush_client s) as [ok s1]. cbn [snd] in H1.
  destruct ok; [|done]. cbn [negb]. destruct (running (rtsp s1)); [|cbn; by rewrite arm_client_hold].
  pose proof (flush_backend_hold s1) as H2. destruct (flush_backend s1) as [ok s2]. cbn [snd] in H2.
  destruct ok; cbn [negb snd]; [|congruence]. rewrite arm_client_hold, arm_backend_hold. congruence.
Qed.

Lemma pump_rtmp_moves c s f rcv :
  is_rtmp s = true -> fd_open_in s f = true -> moves (c, s) (let '(_, c, s) := pump_rtmp' c s idx f rcv e in (c, s)).
Proof.
  intros Hr Hf. apply moves_if. intros Hok. pose proof (held_pub s Hok f Hf) as Hp. unfold pump_rtmp.
  destruct f; [|pose proof (flush_backend_hold s) as H1; destruct (flush_backend s) as [ok s1]; destruct ok; by apply moves_hold
              |by apply pump_media_moves].
  destruct (rtmp s) as [r|] eqn:Er; [|done]. pose proof (flush_client_hold s) as H1. destruct (flush_client s) as [ok s1]. cbn [snd] in H1.
  transitivity (c, s1); [by apply moves_hold|]. destruct ok; [|done]. cbn [negb].
  set (fb := if running (rtsp s1) then flush_backend s1 else (true, s1)).
  assert (H2 : hold fb.2 = hold s1) by (unfold fb; destruct (running _); [apply flush_backend_hold|done]).
  clearbody fb. destruct fb as [ok s2]. cbn [snd] in H2. transitivity (c, s2); [by apply moves_hold|]. destruct ok; [|done]. cbn [negb].
  assert (Hh : hold s2 = hold s) by congruence. pose proof (hold_fields _ _ Hh) as (F1 & _ & _ & F4 & _).
  rewrite Hp in F1. rewrite Hr in F4. pose proof (hold_ok s s2 Hh Hok) as Hok2.
  assert (Hread : forall x : bool * Slot, moves (c, s2) (c, x.2) ->
    moves (c, s2) (let '(_, c, s) := (let '(ok, s) := x in if negb ok then (false, c, s) else let '(ok, s) := settle_rtmp s (ctl e) in (ok, c, s)) in (c, s))).
  { intros [ok s3] Hm. etransitivity; [exact Hm|]. cbn [snd]. destruct ok; [|done]. cbn [negb].
    pose proof (settle_rtmp_hold s3 (ctl e)) as H4. destruct (settle_rtmp s3 (ctl e)). by apply moves_hold. }
  apply Hread. destruct (room _ && room _); [|done]. destruct rcv as [b| | |]; [|done..].
  destruct (rtmp s2) as [r2|] eqn:Er2; [|done]. destruct (Rtmp.feed r2 _ _) as [alive r3].
  set (s3 := hear s2 (now e) <| rtmp := Some r3 |>). transitivity (c, hear s2 (now e)); [by apply hear_moves|].
  assert (Hr3 : is_rtmp (hear s2 (now e)) = true) by exact F4.
  pose proof (set_rtmp_hold (hear s2 (now e)) r3 Hr3) as H3. fold s3 in H3.
  transitivity (c, s3); [by apply moves_hold|]. by apply moves_keeps, rtmp_drain_keeps.
Qed.

Lemma relay_client_hold c s (b : bytes) : hold (relay_client sha256 c s b e).2 = hold s.
Proof.
  unfold relay_client. destruct (guard_rtsp_requests _ _ _ _ _) as [[r g] q].
  set (s1 := s <| rtsp_guard := g |> <| to_backend := q |>). transitivity (hold s1); [|done].
  destruct r as [|[]]; [apply flush_backend_hold|apply log_reject_hold|done].
Qed.

Lemma relay_backend_hold s (b : bytes) : hold (relay_backend s b).2 = hold s.
Proof. unfold relay_backend. by rewrite flush_client_hold. Qed.

Abbreviation pump_splice' := (pump_splice sha256).

Lemma pump_splice_moves c s fc rcv :
  has_pub s = true -> moves (c, s) (let '(_, c, s) := pump_splice' c s fc rcv e in (c, s)).
Proof.
  intros Hp. unfold pump_splice.
  assert (Hflush : forall t s1, hold (if t : bool then flush_backend s1 else flush_client s1).2 = hold s1)
    by (intros [] s1; [apply flush_backend_hold|apply flush_client_hold]).
  pose proof (Hflush fc s) as H1. destruct (if fc then flush_backend s else flush_client s) as [ok s1]. cbn [snd] in H1.
  transitivity (c, s1); [by apply moves_hold|]. destruct ok; [|done]. cbn [negb].
  assert (H2 : hold (if fc then flush_client s1 else flush_backend s1).2 = hold s1) by (destruct fc; [apply (Hflush false)|apply (Hflush true)]).
  destruct (if fc then flush_client s1 else flush_backend s1) as [ok s2]. cbn [snd] in H2.
  transitivity (c, s2); [by apply moves_hold|]. destruct ok; [|done]. cbn [negb].
  assert (Hp2 : has_pub s2 = true).
  { rewrite <-Hp. assert (Hh : hold s2 = hold s) by congruence. by apply hold_fields in Hh as (? & _). }
  assert (Hread : forall x : bool * Slot, moves (c, s2) (c, x.2) ->
    moves (c, s2) (let '(_, c, s) := (let '(ok, s) := x in
      if negb ok then (false, c, s) else (true, c, arm_client (arm_backend s (ctl e)) (ctl e))) in (c, s))).
  { intros [ok s3] Hm. etransitivity; [exact Hm|]. by destruct ok; [apply moves_hold|]. }
  apply Hread. destruct (room _); [|done]. destruct rcv as [b| | |]; [|done..].
  assert (H3 : hold (if fc then relay_client sha256 c s2 (take SPLICE_READ b) e else relay_backend s2 (take SPLICE_READ b)).2 = hold s2)
    by (destruct fc; [apply relay_client_hold|apply relay_backend_hold]).
  destruct (if fc then relay_client _ _ _ _ _ else relay_backend _ _) as [ok s3]. cbn [snd] in *.
  transitivity (c, s3); [by apply moves_hold|]. destruct ok; [|done]. apply hear_moves.
  by apply hold_fields in H3 as (-> & _).
Qed.

Lemma pump_rtsp_moves c s f rcv :
  fd_open_in s f = true -> moves (c, s) (let '(_, c, s) := pump_rtsp' c s idx f rcv e in (c, s)).
Proof.
  intros Hf. apply moves_if. intros Hok. pose proof (held_pub s Hok f Hf) as Hp. unfold pump_rtsp.
  destruct (rtmp s) as [r|] eqn:Er; [apply pump_rtmp_moves; [unfold is_rtmp; by rewrite Er|done]|].
  destruct f; [|by destruct (rtsp_client_fd s); [apply pump_splice_moves|]|by apply pump_media_moves].
  destruct (backend_fd_ (rtsp s)); [by apply pump_splice_moves|done].
Qed.

(** ** Viewers *)

Variable hmac : bytes -> bytes -> bytes.
Variable b64_read sha1 base64_encode : bytes -> bytes.

Lemma seat_address v v' : address v' = address v -> seat v' = seat v.
Proof. unfold seat, VideoView.active. by intros [= -> ->]. Qed.

Lemma same_seat s n v v' :
  viewers s !! n = Some v -> address v' = address v -> forall w, viewers s !! n = Some w -> seat v' = seat w.
Proof. intros Hn Ha w. rewrite Hn. intros [= <-]. by apply seat_address. Qed.

Lemma hand_over_moves c s n v pe :
  seat v = None -> (forall pw, mkv_presents (pe_peek pe) pw \/ rtsp_presents (pe_peek pe) pw -> offered (peer_ip_be_ v) pw) ->
  moves (c, s) (hand_over sha256 ring_env c s idx n v pe e).
Proof.
  intros Hs Hof. unfold hand_over. set (s1 := set_events (set_viewer s n v) n 0).
  transitivity (c, s1).
  { transitivity (c, set_viewer s n v); [apply set_viewer_moves; by left|]. by apply moves_hold. }
  case_bool_decide; [apply handle_mkv_moves; auto|]. apply handle_rtsp_moves; [by case_bool_decide|auto].
Qed.

(** A hand-over leaves the viewers alone. *)
Lemma handle_mkv_viewers c s ip port peek hr ho : viewers (handle_mkv' c s idx ip port peek hr ho e).2 = viewers s.
Proof.
  unfold handle_mkv. destruct (take MKV_PEEK peek) as [|x b]; [done|]. destruct (HttpReq.feed _ _) as [v req].
  destruct v as [|[]|]; try done. destruct (admission _ _ _ _ _ _ _) as [r c1]. cbv zeta.
  destruct (negb _); [done|]. destruct (negb _); [done|]. by destruct (negb _).
Qed.

Lemma park_pending_viewers s k ip port t : viewers (park_pending s k ip port t) = viewers s.
Proof. unfold park_pending, close_pending. cbv zeta. by destruct (negb _). Qed.

Lemma log_reject_viewers s t : viewers (log_reject s t) = viewers s.
Proof. unfold log_reject. by destruct (_ <? _). Qed.

Lemma handle_rtsp_viewers c s ip port k peek proto : viewers (handle_rtsp' c s idx ip port k peek proto e).2 = viewers s.
Proof.
  unfold handle_rtsp. case_bool_decide; [apply park_pending_viewers|].
  destruct (VideoPublish.request_target _) as [target|]; [|done].
  destruct (admission _ _ _ _ _ _ _) as [r c1]. destruct (negb _); [apply log_reject_viewers|].
  destruct (held_by_other _ _); [apply log_reject_viewers|]. unfold start_backend.
  destruct (Backend.start _ _ _ _ _ _ _) as [[ok b] lg]. by destruct ok.
Qed.

Lemma drop_viewer_others c s n m : m <> n -> viewers (drop_viewer c s n).2 !! m = viewers s !! m.
Proof.
  intros Hn. unfold drop_viewer. destruct (viewers s !! n) as [v|]; [|done]. destruct (VideoView.active v); [|done].
  by apply list_lookup_insert_ne.
Qed.

Lemma push_viewer_others c s n pe c' s' m :
  push_viewer sha256 sha1 base64_encode ring_env c s idx n pe e = Some (c', s') -> m <> n -> viewers s' !! m = viewers s !! m.
Proof.
  intros Hp Hn. assert (Hset : forall v, viewers (set_viewer s n v) !! m = viewers s !! m) by (intros v; by apply list_lookup_insert_ne).
  revert Hp. unfold push_viewer. destruct (viewers s !! n) as [v|]; [|by intros [= _ <-]]. destruct (negb _); [by intros [= _ <-]|].
  destruct (pump_viewer _ _ _ _ _ _ _ _ _ _) as [v'|v'|v'|]; [| | |done].
  - intros [= _ <-]. rewrite <-(Hset v'). destruct (past_detect _ _); [|done]. unfold epoll_sync_viewer.
    destruct (viewers (set_viewer s n v') !! n); [|done]. cbv zeta. destruct (_ =? _); [done|]. by destruct (ctl e).
  - intros [= Hd]. pose proof (drop_viewer_others c (set_viewer s n v') n m Hn) as Hd'. unfold drop_turn in Hd. rewrite Hd in Hd'.
    by rewrite <-(Hset v').
  - intros [= Hh]. unfold hand_over in Hh. rewrite <-(Hset v').
    set (s1 := set_events (set_viewer s n v') n 0) in *. change (viewers (set_viewer s n v')) with (viewers s1).
    revert Hh. case_bool_decide.
    + pose proof (handle_mkv_viewers c s1 (peer_ip_be_ v') (peer_port_be_ v') (pe_peek pe) (pe_header pe) (pe_100 pe)) as Hv.
      destruct (handle_mkv' _ _ _ _ _ _ _ _ _) as [[? ?] s2]. intros [= _ <-]. cbn in Hv. by rewrite Hv.
    + intros Hh. pose proof (handle_rtsp_viewers c s1 (peer_ip_be_ v') (peer_port_be_ v') (sock v') (pe_peek pe)
        (if bool_decide (kind_ v' = VVK_RTMP) then SPLICE_RTMP else SPLICE_RTSP)) as Hv. rewrite Hh in Hv. cbn in Hv. by rewrite Hv.
Qed.

(** What a connection in the push loop presents. *)
Definition push_presents s (pe : nat -> PumpEnv) (ip : Z) (pw : option bytes) : Prop :=
  exists n v, viewers s !! n = Some v /\ peer_ip_be_ v = ip /\ (mkv_presents (pe_peek (pe n)) pw \/ rtsp_presents (pe_peek (pe n)) pw).

Lemma push_viewer_moves c s n pe y :
  (forall v pw, viewers s !! n = Some v -> mkv_presents (pe_peek pe) pw \/ rtsp_presents (pe_peek pe) pw -> offered (peer_ip_be_ v) pw) ->
  push_viewer sha256 sha1 base64_encode ring_env c s idx n pe e = Some y -> moves (c, s) y.
Proof.
  intros Hof. unfold push_viewer. destruct (viewers s !! n) as [v|] eqn:Ev; [|by intros [= <-]].
  destruct (negb _); [by intros [= <-]|].
  pose proof (turn_address sha1 base64_encode v (pe_ws pe) (pe_write pe) (ke_ c) idx (ring s) (scanner s) (now e)) as Ha.
  destruct (pump_viewer _ _ _ _ _ _ _ _ _ _) as [v'|v'|v'|]; [| | |done]; intros [= <-].
  - transitivity (c, set_viewer s n v'); [apply set_viewer_moves; right; by apply (same_seat s n v)|].
    apply moves_hold; [done|]. destruct (past_detect _ _); [apply sync_hold|done].
  - apply drop_turn_moves. by apply (same_seat s n v).
  - subst v'. apply hand_over_moves; [done|]. intros pw. by apply (Hof v).
Qed.

Lemma pump_viewers_moves m n c s s0 pe y :
  (forall n', (n <= n')%nat -> viewers s !! n' = viewers s0 !! n') -> (forall ip pw, push_presents s0 pe ip pw -> offered ip pw) ->
  pump_viewers sha256 sha1 base64_encode ring_env m n c s idx pe e = Some y -> moves (c, s) y.
Proof.
  intros Hv Hof. revert n c s Hv. induction m as [|m IH]; intros n c s Hv; cbn [pump_viewers]; [by intros [= <-]|].
  destruct (push_viewer _ _ _ _ c s idx n (pe n) e) as [[c1 s1]|] eqn:Ep; [|done].
  intros Hy. transitivity (c1, s1).
  - apply (push_viewer_moves c s n (pe n)); [|done]. intros v pw Hn Hp. apply Hof. exists n, v. rewrite <-Hv by done. done.
  - apply (IH (S n)); [|done]. intros n' Hn. rewrite (push_viewer_others c s n (pe n) c1 s1 n' Ep) by lia. apply Hv. lia.
Qed.

Lemma viewer_turn_moves c s n hup inp outp env we y :
  viewer_turn sha256 hmac b64_read sha1 base64_encode c s idx n hup inp outp env we e = Some y -> moves (c, s) y.
Proof.
  unfold viewer_turn. destruct (viewers s !! n) as [v|] eqn:Ev; [|by intros [= <-]]. destruct (negb _); [by intros [= <-]|].
  pose proof (event_address sha256 hmac b64_read sha1 base64_encode v hup inp outp env we (ke_ c) idx (ring s) (scanner s) (now e)) as Ha.
  assert (Hstay : forall v', address v' = address v -> moves (c, s) (c, epoll_sync_viewer (set_viewer s n v') n (ctl e))).
  { intros v' Hv. transitivity (c, set_viewer s n v'); [apply set_viewer_moves; right; by apply (same_seat s n v)|].
    apply moves_hold; [done|apply sync_hold]. }
  destruct (viewer_event _ _ _ _ _ _ _ _ _ _ _ _ _ _ _ _) as [v'|v'|v'|]; [| | |done]; intros [= <-]; [by apply Hstay| |by apply Hstay].
  apply drop_turn_moves. by apply (same_seat s n v).
Qed.

(** ** Every event *)

(** The peers that ask to publish in an event of a slot, and what they present. *)
Definition presented s (ev : event) (ip : Z) (pw : option bytes) : Prop :=
  match ev with
  | EvUdp _ ip' _ => ip = ip' /\ pw = None
  | EvPending k _ rcv => ip = ip_be (pending_at s k) /\ rtmp_presents s k rcv pw
  | EvPush pe => push_presents s pe ip pw
  | EvTcp _ _ _ | EvMkv _ _ | EvSplice _ _ _ | EvViewer _ _ _ _ _ _ => False
  end.

(** In which events the slot may be released, and by whom: the Matroska publisher's
    connection has failed, ended or sent what is malformed; the connection or the backend of
    a publisher that has one is closed; and the publisher a handshake has just become does
    not survive its own output. *)
Definition ends s (ev : event) (o : Owner) : Prop :=
  match ev with
  | EvMkv hup r => o_kind o = Mkv /\ (hup = true \/ r <> RdAgain)
  | EvSplice _ _ _ => spliced (o_kind o)
  | EvPending k _ _ => promoted_now s k o
  | EvUdp _ _ _ | EvTcp _ _ _ | EvViewer _ _ _ _ _ _ | EvPush _ => False
  end.

Lemma mkv_event_moves c s hup r :
  moves_to (ends s (EvMkv hup r)) (c, s) (mkv_event gmtime_r localtime_r grace_env video_quota_env seconds_env bytes_env c s hup r e).
Proof.
  unfold mkv_event. destruct (mkv_open s) eqn:Hm; [|done]. cbn [negb].
  destruct hup; [apply close_mkv_moves; [done|]; by split; [|left]|].
  pose proof (pump_mkv_moves c s r Hm) as Hp. pose proof (pump_mkv_open c s r) as Ho.
  assert (Hagain : r = RdAgain -> (pump_mkv' c s r e).1.1 = true) by by intros ->.
  destruct (pump_mkv' c s r e) as [[ok c1] s1]. cbn [fst snd] in *.
  apply (moves_then _ _ (c1, s1)); [exact Hp|]. destruct ok; [done|]. apply close_mkv_moves; [congruence|].
  intros o Hk. split; [done|right]. intros ->. by specialize (Hagain eq_refl).
Qed.

Lemma splice_event_moves c s f hup rcv :
  moves_to (ends s (EvSplice f hup rcv)) (c, s)
    (splice_event sha256 gmtime_r localtime_r grace_env video_quota_env seconds_env bytes_env c s idx f hup rcv e).
Proof.
  unfold splice_event. destruct (fd_open_in s f) eqn:Hf; [|done]. cbn [negb].
  destruct hup; [by apply close_rtsp_moves|]. pose proof (pump_rtsp_moves c s f rcv Hf) as Hp.
  destruct (pump_rtsp' c s idx f rcv e) as [[ok c1] s1]. apply (moves_then _ _ (c1, s1)); [exact Hp|].
  destruct ok; [done|by apply close_rtsp_moves].
Qed.

Lemma pending_event_moves c s k hup rcv :
  (forall pw, rtmp_presents s k rcv pw -> offered (ip_be (pending_at s k)) pw) ->
  moves_to (ends s (EvPending k hup rcv)) (c, s) (pending_event sha256 ring_env c s k idx hup rcv e).
Proof.
  intros Hof. unfold pending_event. destruct (pending_active (pending_at s k)) eqn:Ha; [|done]. cbn [negb].
  destruct hup; [apply moves_any, close_pending_moves|]. pose proof (pump_pending_moves c s k rcv Ha Hof) as Hm.
  destruct (pump_pending' c s k idx rcv e) as [[ok c1] s1]. destruct ok; [exact Hm|].
  by apply (moves_and_keeps _ _ c1 s1); [|apply calm_refl|apply close_pending_keeps].
Qed.

Lemma handle_event_moves c s ev y :
  (forall ip pw, presented s ev ip pw -> offered ip pw) ->
  handle_event sha256 hmac b64_read sha1 base64_encode gmtime_r localtime_r grace_env video_quota_env seconds_env bytes_env ring_env
    c s idx ev e = Some y -> moves_to (ends s ev) (c, s) y.
Proof.
  intros Hof. destruct ev as [d ip port|k ip port|k hup rcv|hup r|f hup rcv|v hup inp outp env we|pe];
    cbn [handle_event presented] in *.
  - intros [= <-]. apply moves_any. destruct (udp_fd s); [apply handle_udp_moves; auto|done].
  - intros [= <-]. apply moves_any. destruct (tcp_fd s); [apply handle_tcp_moves|done].
  - intros [= <-]. apply pending_event_moves. auto.
  - intros [= <-]. apply mkv_event_moves.
  - intros [= <-]. apply splice_event_moves.
  - intros Hv. apply moves_any. revert Hv. apply viewer_turn_moves.
  - destruct (_ || _); [|by intros [= <-]]. intros Hv. by apply moves_any, (pump_viewers_moves VIDEO_MAX_VIEWERS 0 c s s pe).
Qed.
End moves.
