(* ===== verification/VideoOwner.v ===== *)
(** * Who holds a video slot (video.cpp: run, tick)

    The tick only releases, and only for cause; and in every state the child's loop reaches each slot is
    consistent, and whoever holds it was admitted.  The moves of one event are in
    VideoLoopSpec. *)

From S2P Require Import Prelude Tdb KeyDb ConnDb CStr VideoTs VideoStream VideoAuth Session VideoMkv VideoRec.
From S2P Require Import HttpReq WebSocket HttpChunks Rtmp Socket Splice Backend VideoView VideoViewSpec VideoSlot.
From S2P Require Import MkvPublish VideoPublish VideoLoop VideoLoopSpec.

Implicit Types s : Slot.
Implicit Types c : VideoChild.

(** ** A stream ended *)

Lemma close_recorder_calm c s : calm c (close_recorder c s).1.
Proof. unfold close_recorder. destruct (close_segment _ _). apply calm_disk. Qed.

(** ** The tick only releases *)

(** A step that leaves the child but for its tick and its disk, and the slot's publisher or
    takes it away. *)
Record eases (x y : VideoChild * Slot) : Prop := {
  es_calm : calm x.1 y.1;
  es_ok : slot_ok x.2 -> slot_ok y.2 /\ (owner_of y.2 = owner_of x.2 \/ owner_of y.2 = None)
}.

#[export] Instance eases_refl : Reflexive eases.
Proof. intros x. split; [apply calm_refl|auto]. Qed.

#[export] Instance eases_trans : Transitive eases.
Proof.
  intros x y z [C1 O1] [C2 O2]. split; [by eapply calm_trans|]. intros Hok. destruct (O1 Hok) as [Hok1 H1].
  destruct (O2 Hok1) as [Hok2 H2]. split; [done|]. destruct H2 as [-> | ->]; auto.
Qed.

Lemma eases_if c s y : (slot_ok s -> eases (c, s) y) -> calm c y.1 -> eases (c, s) y.
Proof. intros H Hc. split; [done|]. intros Hok. by apply (es_ok _ _ (H Hok)). Qed.

Lemma eases_hold c s s' : hold s' = hold s -> eases (c, s) (c, s').
Proof.
  intros E. split; [apply calm_refl|]. intros Hok. split; [by apply (hold_ok s)|]. left.
  by apply (rest_owner s s' (f_equal fst E)).
Qed.

Section tick.
Context {db : Type} `{Tdb db}.

(** The environment in which the moves of a tick are read: nobody asks for anything. *)
Definition quiet : Env db :=
  {| now := 0; clock := 0; rd1 := None; rd2 := None; backend_env := demo_start_env; stop_env := fun _ => WaitGone;
     datagram_taken := false; ctl := false |}.

Lemma end_stream_eases c c0 s s0 why :
  calm c c0 -> (slot_ok s -> slot_ok s0 /\ owner_of s0 = None) -> eases (c, s) (end_stream c0 s0 why).
Proof.
  intros Hc Hs. destruct (end_stream_rest c0 s0 why) as [Hr Hc']. split; [by eapply calm_trans|].
  intros Hok. destruct (Hs Hok) as [Hok0 Ho].
  split; [apply (end_stream_moves (db := db) demo_hash quiet 0 (fun _ _ => False) c0 s0 why Hok0)|right].
  by rewrite (proj1 (rest_owner _ _ Hr)).
Qed.

Lemma close_mkv_eases c s why : mkv_open s = true -> eases (c, s) (close_mkv c s why).
Proof.
  intros Hm. unfold close_mkv, close_recorder. destruct (close_segment _ _) as [w k].
  apply end_stream_eases; [apply calm_disk|]. intros Hok. destruct (mkv_alone s Hok Hm) as (H1 & H2 & H3).
  apply (free_ok s); [done|done|done|done|done|apply Hok|by apply Hok|done|done].
Qed.

Lemma release_idle_eases c s :
  running (rtsp s) = false -> connected s = false -> mkv_open s = false -> eases (c, s) (release_idle c s).
Proof.
  intros Hr Hc Hm. unfold release_idle, close_recorder. destruct (close_segment _ _) as [w k].
  apply end_stream_eases; [apply calm_disk|]. intros Hok. pose proof (no_rtmp s Hok Hc).
  apply (free_ok s); [done|done|done|done|done|apply Hok|by apply Hok|done|done].
Qed.

(** Closing works from a state whose backend has just died, too. *)
Lemma close_rtsp_eases c s s0 stops :
  viewers s0 = viewers s -> pending s0 = pending s ->
  (slot_ok s -> balanced (rtsp s0) (ledger s0) /\ mkv_open s0 = false) ->
  negb (running (rtsp s0)) && match media_fd_ (rtsp s0) with None => true | Some _ => false end
    && negb (connected s0) && match rtmp s0 with None => true | Some _ => false end = false ->
  eases (c, s) (close_rtsp c s0 stops).
Proof.
  intros Hv Hp Hb Hn. unfold close_rtsp. rewrite Hn. unfold close_recorder. destruct (close_segment _ _) as [w k].
  apply end_stream_eases; [apply calm_disk|]. intros Hok. destruct (Hb Hok) as [Hbal Hm].
  destruct (stop_spec _ _ stops Hbal). apply (free_ok s); [done|done|exact Hm|done|done|done|done|exact Hv|exact Hp].
Qed.

Lemma close_gripped c s stops : mkv_open s = false -> eases (c, s) (close_rtsp c s stops).
Proof.
  intros Hm. destruct (gripped s) eqn:Hg.
  - apply close_rtsp_eases; [done..| |by apply negb_true_iff]. intros Hok. split; [apply Hok|done].
  - unfold close_rtsp. unfold gripped in Hg. apply negb_false_iff in Hg. by rewrite Hg.
Qed.

Lemma running_no_mkv s : slot_ok s -> running (rtsp s) = true -> mkv_open s = false.
Proof. intros Hok Hr. destruct (mkv_open s) eqn:Hm; [|done]. destruct (mkv_alone s Hok Hm) as (_ & _ & Hr'). congruence. Qed.

(** A backend that has died takes its publisher with it. *)
Lemma tick_reap_eases c s te : eases (c, s) (tick_reap c s te).
Proof.
  unfold tick_reap. destruct (running (rtsp s)) eqn:Hr; [|done].
  assert (Hpid : (pid_ (rtsp s) <=? 0) = false) by (unfold running in Hr; lia).
  pose proof (reap_spec (rtsp s) (ledger s) (te_reap te)) as Hb. unfold reap in *. rewrite Hpid in *.
  destruct (te_reap te); cbn [set_backend fst snd] in *; [| |apply eases_hold; done].
  all: apply eases_if; [|unfold close_rtsp; destruct (_ && _); [apply calm_refl|]; unfold close_recorder;
    destruct (close_segment _ _) as [w k]; eapply calm_trans; [apply calm_disk|apply end_stream_rest]].
  all: intros Hok; apply close_rtsp_eases; [done..| |];
    [intros _; split; [by apply Hb, Hok|by apply (running_no_mkv s)]|].
  all: pose proof (so_media _ Hok Hr) as Hmed; cbn; by destruct (media_fd_ (rtsp s)).
Qed.

Lemma tick_mkv_eases c s t : eases (c, s) (tick_mkv c s t).
Proof. unfold tick_mkv. destruct (mkv_open s) eqn:Hm; [|done]. destruct (_ <? _); [by apply close_mkv_eases|done]. Qed.

Lemma close_pending_eases c s k : eases (c, s) (c, close_pending s k).
Proof.
  split; [apply calm_refl|]. intros Hok.
  split; [apply (close_pending_moves (db := db) demo_hash quiet 0 (fun _ _ => False) c s k Hok)|left].
  unfold close_pending. by destruct (negb _).
Qed.

Lemma tick_pending_eases c s n t : eases (c, s) (c, tick_pending n s t).
Proof.
  induction n as [|n IH]; [done|]. cbn [tick_pending]. etransitivity; [exact IH|].
  destruct (_ && _); [apply close_pending_eases|done].
Qed.

(** A Matroska publisher the tick has kept is not idle. *)
Definition awake s (t : Z) : Prop := mkv_open s = true -> (VIDEO_PUB_IDLE_S <? t - pub_last s) = false.

Definition pulse s := (mkv_open s, pub_last s).

Lemma awake_pulse s s' t : pulse s' = pulse s -> awake s t -> awake s' t.
Proof. intros [= E1 E2]. unfold awake. by rewrite E1, E2. Qed.

Lemma end_stream_pulse c s why : pulse (end_stream c s why).2 = pulse s.
Proof. pose proof (proj1 (end_stream_rest c s why)) as E. unfold rest in E. unfold pulse. congruence. Qed.

Lemma close_rtsp_pulse c s stops : pulse (close_rtsp c s stops).2 = pulse s.
Proof.
  unfold close_rtsp. destruct (_ && _); [done|]. unfold close_recorder. destruct (close_segment _ _).
  etransitivity; [apply end_stream_pulse|done].
Qed.

Lemma tick_mkv_awake c s t : awake (tick_mkv c s t).2 t.
Proof.
  unfold tick_mkv. destruct (mkv_open s) eqn:Hm; cbn [andb]; [|unfold awake; cbn; by rewrite Hm].
  destruct (_ <? _) eqn:Ei; [|by intros _].
  unfold close_mkv, close_recorder. destruct (close_segment _ _) as [w k].
  match goal with |- context [end_stream ?c0 ?s0 ?why] => pose proof (end_stream_pulse c0 s0 why) as E end.
  apply (awake_pulse _ _ t E). done.
Qed.

Lemma tick_reap_pulse c s te : pulse (tick_reap c s te).2 = pulse s.
Proof.
  unfold tick_reap. destruct (running _); [|done]. destruct (reap _ _ _) as [[g b] l]. cbn [set_backend].
  destruct g; [|done]. by rewrite close_rtsp_pulse.
Qed.

Lemma tick_pending_pulse n s t : pulse (tick_pending n s t) = pulse s.
Proof.
  induction n as [|n IH]; [done|]. cbn [tick_pending]. rewrite <-IH. destruct (_ && _); [|done].
  unfold close_pending. by destruct (negb _).
Qed.

Lemma tick_slot_eases c s t te : eases (c, s) (tick_slot c s t te).
Proof.
  unfold tick_slot. pose proof (tick_mkv_eases c s t) as H1. pose proof (tick_mkv_awake c s t) as A1.
  destruct (tick_mkv c s t) as [c1 s1]. etransitivity; [exact H1|]. clear H1.
  pose proof (tick_reap_eases c1 s1 te) as H2. pose proof (tick_reap_pulse c1 s1 te) as A2.
  destruct (tick_reap c1 s1 te) as [c2 s2]. etransitivity; [exact H2|]. clear H2.
  set (s3 := tick_pending _ s2 t). transitivity (c2, s3); [apply tick_pending_eases|].
  assert (A3 : awake s3 t) by (apply (awake_pulse s2); [apply tick_pending_pulse|by apply (awake_pulse s1)]).
  clearbody s3. clear A1 A2. destruct (codec_late s3 t) eqn:El.
  - unfold codec_late in El. destruct (rtmp s3) as [r|] eqn:Er; [|done].
    assert (Ht : is_rtmp s3 = true) by (unfold is_rtmp; by rewrite Er).
    apply close_rtsp_eases; [done..| |rewrite Er; by rewrite andb_false_r]. intros Hok. split; [apply Hok|].
    destruct (mkv_open s3) eqn:Hm; [|done]. destruct (mkv_alone s3 Hok Hm) as (_ & Hf & _). congruence.
  - destruct (has_pub s3); [|done]. cbn [andb]. destruct (_ <? _) eqn:Ei; [|done].
    assert (Hm : mkv_open s3 = false) by (destruct (mkv_open s3) eqn:Hm; [specialize (A3 Hm); congruence|done]).
    destruct (running (rtsp s3)) eqn:Hr; [by apply close_gripped|].
    destruct (connected s3) eqn:Hc; [by apply close_gripped|by apply release_idle_eases].
Qed.

(** Why a tick may release the owner of a slot: it has not been heard of for too long, its
    backend is gone, or it has been publishing RTMP for too long without naming its codec. *)
Definition tick_ends s (t : Z) (te : TickEnv) (o : Owner) : Prop :=
  VIDEO_PUB_IDLE_S < t - o_heard o
  \/ spliced (o_kind o) /\ te_reap te <> WaitRunning
  \/ o_kind o = RtmpPub /\ codec_late s t = true.

Lemma tick_pending_fields n s t :
  has_pub (tick_pending n s t) = has_pub s /\ pub_last (tick_pending n s t) = pub_last s
  /\ codec_late (tick_pending n s t) t = codec_late s t /\ owner_of (tick_pending n s t) = owner_of s.
Proof.
  induction n as [|n (IH1 & IH2 & IH3 & IH4)]; [done|]. cbn [tick_pending]. rewrite <-IH1, <-IH2, <-IH3, <-IH4.
  destruct (_ && _); [|done]. unfold close_pending. by destruct (negb _).
Qed.

(** Without such a cause the owner keeps the slot. *)
Lemma tick_slot_kept c s t te o :
  slot_ok s -> owner_of s = Some o -> ~ tick_ends s t te o -> owner_of (tick_slot c s t te).2 = Some o.
Proof.
  intros Hok Ho Hn.
  assert (Hp : has_pub s = true /\ o_kind o = kind_of s /\ o_heard o = pub_last s)
    by (unfold owner_of in Ho; destruct (has_pub s); [by injection Ho as <-|done]).
  destruct Hp as (Hp & Hk & Hh).
  assert (Hi : (VIDEO_PUB_IDLE_S <? t - pub_last s) = false) by (apply Z.ltb_ge; unfold tick_ends in Hn; rewrite Hh in Hn; lia).
  assert (Hr : running (rtsp s) = true -> te_reap te = WaitRunning).
  { intros Hr. destruct (te_reap te) eqn:Et; [exfalso; apply Hn..|done].
    all: right; left; rewrite Hk, Et; split; [|done]. all: pose proof (so_backend _ Hok Hr) as Hb; by destruct (kind_of s). }
  assert (Hc : codec_late s t = false).
  { destruct (codec_late s t) eqn:Ec; [exfalso; apply Hn; right; right|done]. split; [|done]. rewrite Hk. unfold codec_late in Ec.
    destruct (rtmp s) as [r|] eqn:Er; [|done]. assert (Ht : is_rtmp s = true) by (unfold is_rtmp; by rewrite Er).
    unfold kind_of. destruct (mkv_open s) eqn:Em; [|by rewrite Ht]. destruct (mkv_alone s Hok Em) as (_ & ? & _). congruence. }
  unfold tick_slot, tick_mkv. rewrite Hi, andb_false_r. unfold tick_reap.
  assert (E : (if running (rtsp s) then let '(gone, s) := set_backend s (reap (rtsp s) (ledger s) (te_reap te)) in
      if gone then close_rtsp c s (te_stop te) else (c, s) else (c, s)) = (c, s)).
  { destruct (running (rtsp s)) eqn:Er; [|done]. unfold reap. rewrite (Hr eq_refl). unfold running in Er.
    destruct (pid_ (rtsp s) <=? 0) eqn:El; [lia|]. cbn. by destruct s. }
  rewrite E. destruct (tick_pending_fields VIDEO_MAX_PENDING_RTMP s t) as (F1 & F2 & F3 & F4).
  rewrite F1, F2, F3, Hc, Hi, andb_false_r. cbn [snd]. by rewrite F4.
Qed.

Lemma tick_slot_released c s t te o :
  slot_ok s -> owner_of s = Some o -> owner_of (tick_slot c s t te).2 = None -> tick_ends s t te o.
Proof.
  intros Hok Ho Hn. destruct (decide (VIDEO_PUB_IDLE_S < t - o_heard o)); [by left|right].
  assert (Hd : forall P : Prop, Decision P -> (~ P -> False) -> P) by (intros P [] HP; [done|by destruct HP]).
  apply Hd.
  - apply or_dec; apply and_dec; [destruct (o_kind o); cbn; apply _|apply not_dec; destruct (te_reap te); by (left + right)|apply _..].
  - intros Hnot. rewrite (tick_slot_kept c s t te o Hok Ho) in Hn; [done|]. intros [|]; done.
Qed.

Lemma tick_slots_eases c ss i t te :
  calm c (tick_slots c ss i t te).1 /\ length (tick_slots c ss i t te).2 = length ss
  /\ forall j s s', ss !! j = Some s -> (tick_slots c ss i t te).2 !! j = Some s' -> slot_ok s ->
       slot_ok s' /\ (owner_of s' = owner_of s
                      \/ exists o, owner_of s = Some o /\ tick_ends s t (te (i + j)%nat) o /\ owner_of s' = None).
Proof.
  revert c i. induction ss as [|s ss IH]; intros c i; cbn [tick_slots]; [by split; [apply calm_refl|]|].
  destruct (tick_slot_eases c s t (te i)) as [Hc Ho]. pose proof (tick_slot_released c s t (te i)) as Hrel.
  destruct (tick_slot c s t (te i)) as [c1 s1]. cbn [fst snd] in *.
  destruct (IH c1 (S i)) as (Hc' & Hl & Ho'). destruct (tick_slots c1 ss (S i) t te) as [c2 ss2]. cbn [fst snd] in *.
  split; [by eapply calm_trans|]. split; [cbn; by rewrite Hl|]. intros [|j] s2 s2' Hj Hj'; cbn in Hj, Hj'.
  - injection Hj as <-. injection Hj' as <-. rewrite Nat.add_0_r. intros Hok. destruct (Ho Hok) as [Hok1 H1]. split; [done|].
    destruct H1 as [->|H1]; [by left|]. destruct (owner_of s) as [o|] eqn:Eo; [right|by left]. exists o. auto.
  - rewrite Nat.add_succ_r. by apply (Ho' j).
Qed.
End tick.

(** ** Reachable states *)

Section reach.
Context {db : Type} `{Tdb db}.
Variable sha256 : bytes -> bytes.
Variable hmac : bytes -> bytes -> bytes.
Variable b64_read sha1 base64_encode : bytes -> bytes.
Variable gmtime_r localtime_r : Z -> option tm.
Variable grace_env video_quota_env seconds_env bytes_env ring_env : option bytes.

Abbreviation step' := (step (db := db) sha256 hmac b64_read sha1 base64_encode gmtime_r localtime_r grace_env video_quota_env
  seconds_env bytes_env ring_env).
Abbreviation run' := (run (db := db) sha256 hmac b64_read sha1 base64_encode gmtime_r localtime_r grace_env video_quota_env
  seconds_env bytes_env ring_env).
Abbreviation reads_step := (child_step (db := db)).

Lemma run_snoc c sts st : run' c (sts ++ [st]) = run' c sts ≫= fun c => step' c st.
Proof.
  revert c. induction sts as [|st1 sts IH]; intros c; cbn [run app mbind option_bind]; [by destruct (step' c st)|].
  destruct (step' c st1); [apply IH|done].
Qed.

(** *** One step *)

(** What a step may do to the owner of slot [i]. *)
Definition owner_step c (st : reads_step) (i : nat) s (o : option Owner) : Prop :=
  match st with
  | StEvent j ev e =>
    if decide (i = j) then own_run sha256 e (Z.of_nat i) (presented e s ev) (ends e s ev) c (owner_of s) o else o = owner_of s
  | StTick _ _ te _ now _ =>
    o = owner_of s \/ exists ow, owner_of s = Some ow /\ VIDEO_TICK_S <= now - last_tick_ c /\ tick_ends s now (te i) ow /\ o = None
  end.

(** The calls of the authorisation a step makes. *)
Definition calls c (st : reads_step) (evs : list (auth_event (db := db))) : Prop :=
  match st with
  | StEvent _ _ e => Forall (from_env e) evs
  | StTick k rd _ _ now _ =>
    evs = if VIDEO_TICK_S <=? now - last_tick_ c
          then match k with Some _ => [EvInvalidate] | None => [] end ++ [EvObserve rd now] else []
  end.

Record stepped c (st : reads_step) c' : Prop := {
  st_port : port2_ c' = port2_ c;
  st_auth : exists evs, calls c st evs /\ auth_ c' = replay sha256 (auth_ c) evs;
  st_slots : Forall slot_ok (slots_ c') /\ length (slots_ c') = length (slots_ c);
  st_own : forall i s s', slots_ c !! i = Some s -> slots_ c' !! i = Some s' -> owner_step c st i s (owner_of s')
}.

Lemma event_stepped c i ev e c' :
  Forall slot_ok (slots_ c) -> step' c (StEvent i ev e) = Some c' -> stepped c (StEvent i ev e) c'.
Proof.
  intros Hok. cbn [step]. destruct (slots_ c !! i) as [s|] eqn:Es.
  2: { intros [= <-]. constructor; [done|exists []; split; [constructor|done]|done|]. intros j s s' Hj Hj'. cbn [owner_step].
       rewrite decide_False by (intros ->; congruence). congruence. }
  destruct (handle_event _ _ _ _ _ _ _ _ _ _ _ _ _ _ _ _ _) as [[c1 s1]|] eqn:Eh; [|done]. intros [= <-].
  pose proof (handle_event_moves sha256 gmtime_r localtime_r grace_env video_quota_env seconds_env bytes_env ring_env
    e (Z.of_nat i) (presented e s ev) hmac b64_read sha1 base64_encode c s ev (c1, s1) ltac:(done) Eh) as Hm.
  assert (Hs : slot_ok s) by (by eapply list.Forall_lookup_1).
  destruct (Hm Hs) as [_ Hp Hsl Ha Hok1 Ho]. cbn [fst snd] in *.
  constructor; [exact Hp|exact Ha| |].
  - cbn. rewrite Hsl. split; [by apply Forall_insert|apply length_insert].
  - intros j s' s'' Hj. cbn. rewrite Hsl. intros Hj'. unfold owner_step. destruct (decide (j = i)) as [->|Hn].
    + rewrite list_lookup_insert_eq in Hj' by (by apply lookup_lt_Some in Es). congruence.
    + rewrite list_lookup_insert_ne in Hj' by done. congruence.
Qed.

Lemma tick_stepped c k rd te rows now pid c' :
  Forall slot_ok (slots_ c) -> step' c (StTick k rd te rows now pid) = Some c' -> stepped c (StTick k rd te rows now pid) c'.
Proof.
  intros Hok. cbn [step]. destruct (VIDEO_TICK_S <=? _) eqn:Ed; intros [= <-].
  2: { constructor; [done|exists []; cbn; by rewrite Ed|done|]. intros i s s' Hi Hi'. left. congruence. }
  unfold tick. set (c1 := (reload c k) <| auth_ := observe (auth_ (reload c k)) rd now |>).
  assert (H1 : port2_ c1 = port2_ c /\ slots_ c1 = slots_ c /\ exists evs, calls c (StTick k rd te rows now pid) evs
    /\ auth_ c1 = replay sha256 (auth_ c) evs).
  { split_and!; [by destruct k..|]. eexists. split; [cbn; by rewrite Ed|]. by destruct k. }
  destruct H1 as (Hp1 & Hs1 & Ha1). clearbody c1.
  destruct (tick_slots_eases c1 (slots_ c1) 0 now te) as ((_ & Hp & _ & Ha) & Hl & Hf). rewrite Hs1 in *.
  destruct (tick_slots c1 (slots_ c) 0 now te) as [c2 ss]. cbn [fst snd] in *.
  constructor; cbn; [congruence| | |].
  - by rewrite Ha.
  - split; [|done]. apply list.Forall_lookup. intros i s' Hi.
    destruct (lookup_lt_is_Some_2 (slots_ c) i) as [s Hs]; [rewrite <-Hl; by apply lookup_lt_Some in Hi|].
    apply (Hf i s s'); [done..|]. by eapply list.Forall_lookup_1.
  - intros i s s' Hi Hi'. destruct (Hf i s s' Hi Hi') as [_ [->|(ow & Ho & He & ->)]]; [by eapply list.Forall_lookup_1|by left|].
    right. exists ow. split_and!; try done. lia.
Qed.

Lemma step_stepped c st c' : Forall slot_ok (slots_ c) -> step' c st = Some c' -> stepped c st c'.
Proof. destruct st; [apply event_stepped|apply tick_stepped]. Qed.

(** *** The start *)

Lemma slot_new_ok : slot_ok slot_new.
Proof.
  constructor; try done.
  - by intros [|[|[|]]].
  - by constructor; try constructor.
  - intros ip. vm_compute. lia.
  - split; [done|]. by repeat constructor.
Qed.

Lemma bind_slots_all (P : Slot -> Prop) ke i binds err ss :
  (forall s s', hold s' = hold s -> P s -> P s') -> Forall P ss -> Forall P (bind_slots ke i binds err ss).2.
Proof.
  intros HP. revert i err ss. induction binds as [|[u t] binds IH]; intros i err ss Hok; [by destruct ss|].
  destruct ss as [|s ss]; [done|]. apply list.Forall_cons in Hok as [Hs Hok]. cbn [bind_slots].
  assert (Hb : P (bind_slot ke i u t err s).2).
  { apply (HP s); [|done]. unfold bind_slot. by destruct (_ =? 0). }
  destruct (bind_slot _ _ _ _ _ _) as [err1 s1]. cbn [snd] in Hb. specialize (IH (i + 1) err1 ss Hok).
  destruct (bind_slots _ _ _ _ _). by constructor.
Qed.

Lemma child_new_all (P : Slot -> Prop) port2 ke binds k :
  (forall s s', hold s' = hold s -> P s -> P s') -> P slot_new -> Forall P (slots_ (child_new port2 ke binds k)).
Proof. intros HP Hn. apply bind_slots_all; [done|by apply Forall_replicate]. Qed.

(** Whoever ends up with the slot held it before, or was let in. *)
Lemma own_trace e idx offered E c x y :
  own_run sha256 e idx offered E c x y -> forall o, y = Some o ->
  (exists o0, x = Some o0 /\ o_ip o0 = o_ip o /\ o_port o0 = o_port o) \/ let_in sha256 e idx offered c (o_ip o).
Proof.
  intros (y1 & Hrtc & [->|(ow & _ & _ & ->)]); [|done]. pattern y1. eapply rtc_ind_r; [| |exact Hrtc]; [intros o ->; left; by exists o|].
  intros y2 z _ Hstep IH o ->. inversion Hstep; subst; cbn; [| |by right]; by eapply (IH _ eq_refl).
Qed.

(** *** What a publisher's admission rests on *)

Section from.
Variable c0 : VideoChild.
Implicit Types sts : list reads_step.

(** The store a step reads the user's row from, if it could be opened, and when. *)
Definition may_open c (st : reads_step) (rd : option db) (t : Z) : Prop :=
  match st with
  | StEvent _ _ e => t = now e /\ (rd = rd1 e \/ rd = rd2 e)
  | StTick _ rd' _ _ now _ => VIDEO_TICK_S <= now - last_tick_ c /\ t = now /\ rd = rd'
  end.

(** A step of the run may have read [h] at [t]. *)
Definition stored sts (h : db) (t : Z) : Prop :=
  exists pre st post c, sts = pre ++ st :: post /\ run' c0 pre = Some c /\ may_open c st (Some h) t.

(** A user row the run read. *)
Definition seen sts (t : Z) (row : ConnEntry) : Prop :=
  exists h, stored sts h t /\ conn_get_user h (port2_ c0) conn_zero = (true, row).

(** Why a peer at [ip] that presents [pw] may publish on slot [i] at [t]. *)
Definition entitled sts c (i ip : Z) (pw : option bytes) (t : Z) : Prop :=
  let ke := ke_ c in
  (exists p, pw = Some p /\ key_set (video_publish_key ke) = true /\ video_password_matches sha256 (video_publish_key ke) p = true)
  \/ (open_publish c i = true /\ (pw = None \/ key_set (video_publish_key ke) = false))
  \/ ((pw = None /\ session_ok c i = true \/ key_set (video_publish_key ke) = false)
      /\ exists t0 row, seen sts t0 row /\ peer_ip_be row = ip /\ t <= t0 + grace_of ke
           /\ (Z.land (flags ke) KEY_FLAG_BIDI_SIGN <> 0 -> authenticated row <> 0)).

(** The slot's owner at the end of [sts] has an address and port. *)
Definition held_at sts (i : nat) (ip port : Z) : Prop :=
  exists c s o, run' c0 sts = Some c /\ slots_ c !! i = Some s /\ owner_of s = Some o /\ o_ip o = ip /\ o_port o = port.

(** Slot [i] was given to the peer at [ip] and [port] in an event of the run, for cause, and
    it has held it ever since. *)
Definition granted sts (i : nat) (ip port : Z) : Prop :=
  exists pre ev e post c s pw, sts = pre ++ StEvent i ev e :: post
  /\ run' c0 pre = Some c /\ slots_ c !! i = Some s /\ presented e s ev ip pw
  /\ entitled (pre ++ [StEvent i ev e]) c (Z.of_nat i) ip pw (now e)
  /\ forall mid rest, post = mid ++ rest -> held_at (pre ++ StEvent i ev e :: mid) i ip port.

(** The authorisation's history is one of calls the run made. *)
Definition accounted sts (a : VideoAuth) : Prop :=
  exists evs, a = auth_run sha256 (port2_ c0) evs
  /\ Forall (fun ev => forall h t, may_read ev (Some h) t -> stored sts h t) evs.

Lemma stored_mono sts st h t : stored sts h t -> stored (sts ++ [st]) h t.
Proof. intros (pre & st' & post & c & -> & H1 & H2). exists pre, st', (post ++ [st]), c. by rewrite <-app_assoc. Qed.

Lemma stored_last sts st c h t : run' c0 sts = Some c -> may_open c st (Some h) t -> stored (sts ++ [st]) h t.
Proof. intros H1 H2. by exists sts, st, [], c. Qed.

Lemma calls_backed sts c st evs :
  run' c0 sts = Some c -> calls c st evs ->
  Forall (fun ev => forall h t, may_read ev (Some h) t -> stored (sts ++ [st]) h t) evs.
Proof.
  intros Hr Hc. destruct st as [i ev e|k rd te rows now pid]; cbn [calls] in Hc.
  - eapply list.Forall_impl; [exact Hc|]. intros [| |ke ip pw cap so op t r1 r2] Hf h t' Hm; try done.
    destruct Hf as (-> & -> & ->), Hm as [Hm <-]. apply (stored_last sts _ c); [done|]. split; [done|].
    destruct Hm as [->| ->]; auto.
  - subst evs. destruct (Z.leb_spec VIDEO_TICK_S (now - last_tick_ c)); [|done].
    apply list.Forall_app. split; [by destruct k; constructor|]. constructor; [|done].
    intros h t [-> <-]. by apply (stored_last sts _ c).
Qed.

Lemma accounted_step sts c st c' :
  run' c0 sts = Some c -> accounted sts (auth_ c) -> stepped c st c' -> accounted (sts ++ [st]) (auth_ c').
Proof.
  intros Hr (evs & Ea & Hf) [_ (evs' & Hc & ->) _ _]. exists (evs ++ evs'). split.
  - rewrite Ea. unfold replay, auth_run. by rewrite fold_left_app.
  - apply list.Forall_app. split; [|by apply (calls_backed sts c)].
    eapply list.Forall_impl; [exact Hf|]. intros ev Hev h t Hm. by apply stored_mono, Hev.
Qed.

(** An admission made while an event is handled is one of those. *)
Lemma let_in_entitled sts c s i ev e ip :
  run' c0 sts = Some c -> accounted sts (auth_ c) ->
  let_in sha256 e (Z.of_nat i) (presented e s ev) c ip ->
  exists pw, presented e s ev ip pw /\ entitled (sts ++ [StEvent i ev e]) c (Z.of_nat i) ip pw (now e).
Proof.
  intros Hr (evs & Ea & Hf) (evs' & pw & cap & Hf' & Hp & Ha). exists pw. split; [done|].
  set (sts' := sts ++ [StEvent i ev e]).
  assert (Hrun : replay sha256 (auth_ c) evs' = auth_run sha256 (port2_ c0) (evs ++ evs'))
    by (rewrite Ea; unfold replay, auth_run; by rewrite fold_left_app).
  rewrite Hrun in Ha. apply (admit_reason sha256 (port2_ c0) (evs ++ evs')) in Ha; [|apply auth_run_inv].
  destruct Ha as [Ha|[Ha|[Hw (t & row & Ho & Hrow)]]]; [by left|by right; left|right; right]. split; [done|].
  exists t, row. split; [|done]. destruct Ho as (ev' & h & Hin & Hm & Hg). exists h. split; [|done].
  assert (Hb : forall ev0, from_env e ev0 -> forall h t, may_read ev0 (Some h) t -> stored sts' h t).
  { intros ev0 Hev. assert (Hc : calls c (StEvent i ev e) [ev0]) by (cbn; by repeat constructor).
    pose proof (calls_backed sts c _ _ Hr Hc) as H'. by inversion H'. }
  rewrite <-app_assoc in Hin. apply elem_of_app in Hin as [Hin|[Hin|Hin]%elem_of_app].
  - apply stored_mono. rewrite list.Forall_forall in Hf. by apply (Hf ev').
  - rewrite list.Forall_forall in Hf'. apply (Hb ev'); auto.
  - apply list_elem_of_singleton in Hin as ->. eapply Hb; [|exact Hm]. done.
Qed.

Lemma granted_step sts c st c' i s s' o :
  Forall slot_ok (slots_ c) -> run' c0 sts = Some c -> accounted sts (auth_ c) ->
  (forall o, owner_of s = Some o -> granted sts i (o_ip o) (o_port o)) ->
  step' c st = Some c' -> slots_ c !! i = Some s -> slots_ c' !! i = Some s' -> owner_of s' = Some o ->
  granted (sts ++ [st]) i (o_ip o) (o_port o).
Proof.
  intros Hok Hr Hacc Hold Hs Hi Hi' Ho.
  assert (Hend : held_at (sts ++ [st]) i (o_ip o) (o_port o)).
  { exists c', s', o. split_and!; try done. by rewrite run_snoc, Hr. }
  assert (Hkeep : forall o0, owner_of s = Some o0 -> o_ip o0 = o_ip o -> o_port o0 = o_port o -> granted (sts ++ [st]) i (o_ip o) (o_port o)).
  { intros o0 Ho0 E1 E2. specialize (Hold o0 Ho0). rewrite E1, E2 in Hold.
    destruct Hold as (pre & ev & e & post & c1 & s1 & pw & -> & Hr1 & Hi1 & Hp & He & Hh).
    exists pre, ev, e, (post ++ [st]), c1, s1, pw. split_and!; try done; [by rewrite <-app_assoc|].
    intros mid rest Em. destruct rest as [|x rest _] using rev_ind.
    - rewrite app_nil_r in Em. subst mid. by rewrite <-app_assoc in Hend.
    - rewrite app_assoc in Em. apply app_inj_tail in Em as [-> ->]. by apply (Hh mid rest). }
  pose proof (st_own _ _ _ (step_stepped _ _ _ Hok Hs) i s s' Hi Hi') as Hw.
  destruct st as [j ev e|k rd te rows t pid]; cbn [owner_step] in Hw.
  2: { destruct Hw as [Hw|(ow & _ & _ & _ & Hw)]; [by apply (Hkeep o); congruence|congruence]. }
  destruct (decide (i = j)) as [->|]; [|by apply (Hkeep o); congruence].
  destruct (own_trace e (Z.of_nat j) (presented e s ev) (ends e s ev) c _ _ Hw o Ho) as [(o0 & Ho0 & E1 & E2)|Hin]; [by apply (Hkeep o0)|].
  destruct (let_in_entitled sts c s j ev e (o_ip o) Hr Hacc Hin) as (pw & Hp & He).
  exists sts, ev, e, [], c, s, pw. split_and!; try done. intros mid rest Em. symmetry in Em. by apply app_nil in Em as [-> _].
Qed.
End from.

(** *** The whole run *)

Definition empty_child c0 : Prop :=
  auth_ c0 = auth_init (port2_ c0) /\ Forall slot_ok (slots_ c0) /\ Forall (fun s => owner_of s = None) (slots_ c0).

Lemma child_new_empty port2 ke binds k : empty_child (child_new port2 ke binds k).
Proof.
  split_and!; [done|apply child_new_all; [exact hold_ok|apply slot_new_ok]|]. apply child_new_all; [|done].
  intros s s' E. by destruct (rest_owner s s' (f_equal fst E)) as [-> _].
Qed.

Record reached c0 (sts : list reads_step) c : Prop := {
  re_ok : Forall slot_ok (slots_ c) /\ length (slots_ c) = length (slots_ c0);
  re_port : port2_ c = port2_ c0;
  re_auth : accounted c0 sts (auth_ c);
  re_granted : forall i s o, slots_ c !! i = Some s -> owner_of s = Some o -> granted c0 sts i (o_ip o) (o_port o)
}.

Lemma run_reached c0 sts c : empty_child c0 -> run' c0 sts = Some c -> reached c0 sts c.
Proof.
  intros (Ha & Hok & Hf). revert c. induction sts as [|st sts IH] using rev_ind; intros c.
  - intros [= <-]. constructor; [done|done|by exists []|]. intros i s o Hi Ho. rewrite list.Forall_lookup in Hf.
    specialize (Hf _ _ Hi). congruence.
  - rewrite run_snoc. destruct (run' c0 sts) as [c1|] eqn:Hr; [|done]. cbn. intros Hs.
    destruct (IH c1 eq_refl) as [[Hok1 Hl] Hp Hacc Hg]. pose proof (step_stepped _ _ _ Hok1 Hs) as Hst.
    constructor.
    + destruct (st_slots _ _ _ Hst). split; [done|congruence].
    + by rewrite (st_port _ _ _ Hst).
    + by apply (accounted_step _ _ c1).
    + intros i s' o Hi' Ho. destruct (lookup_lt_is_Some_2 (slots_ c1) i) as [s Hi].
      { destruct (st_slots _ _ _ Hst) as [_ <-]. by apply lookup_lt_Some in Hi'. }
      by apply (granted_step c0 sts c1 st c i s s' o Hok1 Hr Hacc (fun o => Hg i s o Hi) Hs).
Qed.

(** The child as it starts, after a history of steps. *)
Definition reachable port2 ke binds k (sts : list reads_step) c : Prop := run' (child_new port2 ke binds k) sts = Some c.

(** C9: Whatever the child's slots meet -- datagrams, connections, what their sockets
    report, in any order, and any ticks -- every slot stays consistent: what holds it
    excludes every other kind of publisher, a slot with a connection, a handshake in
    progress or a backend has a publisher, the backend is of the publisher's protocol and
    its descriptors and process are accounted for, no address holds more than eight of its
    viewers' places, and there are four handshake entries. *)
Theorem reachable_slots_ok port2 ke binds k sts c :
  reachable port2 ke binds k sts c ->
  Forall slot_ok (slots_ c) /\ length (slots_ c) = length (slots_ (child_new port2 ke binds k)) /\ port2_ c = port2.
Proof.
  intros Hr. destruct (run_reached _ _ _ (child_new_empty port2 ke binds k) Hr) as [[H1 H2] H3 _ _]. done.
Qed.


(** C7: Whoever publishes on a slot was let in for cause.  In any state the child reaches,
    a slot's publisher asked to publish in some event of that slot, has held the slot ever
    since, and when it asked it presented the publish password, or the slot was open to
    anyone, or the child had read from connections.tdb -- in that event, an earlier one or a
    tick -- a user row with the publisher's own address no longer ago than the grace window,
    authenticated on an entry that requires signing, and a set password was not demanded. *)
Theorem publisher_justified port2 ke binds k sts c i s o :
  reachable port2 ke binds k sts c -> slots_ c !! i = Some s -> owner_of s = Some o ->
  granted (child_new port2 ke binds k) sts i (o_ip o) (o_port o).
Proof. intros Hr. apply (run_reached _ _ _ (child_new_empty port2 ke binds k) Hr). Qed.
End reach.

(** ** A small run *)

(** Slot 0 bound to port 6000; no publish password is set and no slot is open. *)
Definition owner_entry : KeyEntry := (decode_key []) <| flags := KEY_FLAG_VIDEO |> <| video_ports := [6000; 0; 0; 0] |>.

Definition quiet_env (t : Z) : Env mapdb :=
  {| now := t; clock := t; rd1 := None; rd2 := None; backend_env := demo_start_env; stop_env := fun _ => WaitGone;
     datagram_taken := false; ctl := true |}.

Definition owner_child : VideoChild := child_new 14550 owner_entry [(None, None)] demo_disk.

(** The tick reads the user's row; the datagram comes from its address, and so do two more
    things: a second peer's datagram, and a connection. *)
Definition owner_steps : list (child_step (db := mapdb)) :=
  [StTick None (Some demo_conns) (fun _ => Build_TickEnv WaitRunning (fun _ => WaitGone)) None 1000 77;
   StEvent 0 (EvUdp (Some [1; 2; 3]) 0x0100007f 5004) (quiet_env 1001);
   StEvent 0 (EvUdp (Some [1; 2; 3]) 7 5004) (quiet_env 1002);
   StEvent 0 (EvTcp (Some (Build_Sock [] [])) 7 40000) (quiet_env 1002)].

Abbreviation demo_run := (run (db := mapdb) demo_hash (fun k m => k) (fun b => b) (fun b => b) (fun b => b) no_tm no_tm
  None None None None (Some (bs "4096"))).
Abbreviation demo_step := (step (db := mapdb) demo_hash (fun k m => k) (fun b => b) (fun b => b) (fun b => b) no_tm no_tm
  None None None None (Some (bs "4096"))).

Definition owner_seen : VideoChild := default owner_child (demo_run owner_child owner_steps).
Definition slot_seen (i : nat) : Slot := default slot_new (slots_ owner_seen !! i).

Lemma owner_run : demo_run owner_child owner_steps = Some owner_seen.
Proof.
  assert (E : match demo_run owner_child owner_steps with Some _ => true | None => false end = true) by by vm_compute.
  unfold owner_seen. by destruct (demo_run owner_child owner_steps).
Qed.

Lemma slot_seen_at : slots_ owner_seen !! 0%nat = Some (slot_seen 0).
Proof.
  assert (E : length (slots_ owner_seen) = 5%nat) by by vm_compute.
  unfold slot_seen. by destruct (slots_ owner_seen).
Qed.

Lemma reachable_slots_ok_witness :
  demo_run owner_child owner_steps = Some owner_seen /\ length (slots_ owner_seen) = 5%nat
  /\ Forall slot_ok (slots_ owner_seen).
Proof.
  destruct (reachable_slots_ok demo_hash (fun k m => k) (fun b => b) (fun b => b) (fun b => b) no_tm no_tm None None None None
    (Some (bs "4096")) 14550 owner_entry [(None, None)] demo_disk owner_steps owner_seen owner_run) as (H1 & H2 & _).
  split; [exact owner_run|]. split; [|exact H1]. rewrite H2. by vm_compute.
Defined.



Lemma publisher_justified_witness :
  exists o, owner_of (slot_seen 0) = Some o /\ o_ip o = 0x0100007f
  /\ granted demo_hash (fun k m => k) (fun b => b) (fun b => b) (fun b => b) no_tm no_tm None None None None
    (Some (bs "4096")) owner_child owner_steps 0 (o_ip o) (o_port o).
Proof.
  destruct (owner_of (slot_seen 0)) as [o|] eqn:Eo; [|by vm_compute in Eo]. exists o. split; [done|]. split.
  - assert (Hip : (o_ip <$> owner_of (slot_seen 0)) = Some 0x0100007f) by by vm_compute. rewrite Eo in Hip. by injection Hip.
  - apply (publisher_justified demo_hash (fun k m => k) (fun b => b) (fun b => b) (fun b => b) no_tm no_tm None None None None
      (Some (bs "4096")) 14550 owner_entry [(None, None)] demo_disk owner_steps owner_seen 0 (slot_seen 0) o owner_run);
      [exact slot_seen_at|done].
Defined.

(** ** A datagram that claims an RTMP publisher's address *)

(** An RTMP publisher has been admitted and has not sent its codec. *)
Definition rtmp_waiting : Slot :=
  slot_new <| has_pub := true |> <| pub_ip_be := 7 |> <| pub_port_be := 9 |> <| pub_last := 1000 |>
    <| rtsp_client_fd := Some (Build_Sock [] []) |> <| rtmp := Some rtmp_new |>.

(** An RTP packet with an SPS. *)
Definition sps_packet : bytes := [128; 96] ++ replicate 10 0 ++ [103; 1].

(** The backend's port is found bound at once. *)
Definition rtp_up : StartEnv :=
  {| e_probe := Some (true, true, 40000); e_media := true; e_feed := true; e_fork := 77; e_sdp := true; e_rtp := true;
     e_sock := Build_Sock [] [];
     e_polls := fun _ => {| p_udp := Some [bs "  1: 0100007F:9C40 00000000:0000"]; p_socket := true; p_connect := false;
                            p_wait := WaitRunning |};
     e_stops := fun _ => WaitRunning |}.

(** It starts an RTP backend on the RTMP publisher's slot, so that the publisher's own never
    starts: [handle_udp] looks only at the address, before it asks who holds the slot. *)
Lemma rtmp_slot_fed_by_udp :
  let e := {| now := 1001; clock := 1001; rd1 := (None : option mapdb); rd2 := None; backend_env := rtp_up;
              stop_env := fun _ => WaitGone; datagram_taken := true; ctl := true |} in
  let s := (handle_udp demo_hash no_tm no_tm None None None None None owner_child rtmp_waiting 0 (Some sps_packet) 7 9 e).2 in
  slot_ok rtmp_waiting /\ slot_ok s /\ kind_of s = RtmpPub /\ running (rtsp s) = true /\ proto_ (rtsp s) = SPLICE_RTP.
Proof.
  cbv zeta. assert (Hok : slot_ok rtmp_waiting).
  { constructor; try done; [by constructor; try constructor|intros ip; vm_compute; lia|split; [done|by repeat constructor]]. }
  split; [done|]. split; [|by vm_compute].
  set (e := Build_Env _ _ _ _ _ _ _ _ _).
  pose proof (handle_udp_moves demo_hash no_tm no_tm None None None None None e 0 (fun _ _ => True) owner_child rtmp_waiting
    (Some sps_packet) 7 9 I Hok) as Hm. apply Hm.
Qed.
