(* ===== verification/Ports.v ===== *)
(** * The parent process (supportproxy.cpp: the port list, its children, main)

    The table of entries the parent keeps in step with keys.tdb, the listeners it holds for
    the entries without a session, and the children it forks, signals and reaps: a session
    child per entry, a video child per entry, and the log cleaner.  System calls answer from
    the environment; what the parent does to other processes and to connections.tdb is
    recorded as effects.  A socket is named by its entry and its role, and its state is the
    port it is bound to. *)

From S2P Require Import Prelude Tdb KeyDb ConnDb Session VideoSlot.

(** ** Entries *)

Inductive sock := Sock1Udp | Sock2Udp | Sock1Tcp | Sock2Listen.
#[export] Instance sock_eq_dec : EqDecision sock.
Proof. solve_decision. Defined.

Definition socks : list sock := [Sock1Udp; Sock2Udp; Sock1Tcp; Sock2Listen].

Record listen_port := {
  port1 : Z;
  port2 : Z;
  sock1_udp : option Z;          (* the port it is bound to; [None]: -1 *)
  sock2_udp : option Z;
  sock1_tcp : option Z;
  sock2_listen : option Z;
  pid : Z;
  video_pid : Z;
  video_respawn_after : Z;
  video_ports : list Z;
  video_flags : Z;
  video_flags_hi : Z;
  flags : Z;
  fc_sysid : Z;
  tz_offset_hours : Z;
  seen : bool;
  removed : bool
}.

#[export] Instance eta_listen_port : Eta listen_port := fun p =>
  Build_listen_port (port1 p) (port2 p) (sock1_udp p) (sock2_udp p) (sock1_tcp p) (sock2_listen p) (pid p) (video_pid p)
    (video_respawn_after p) (video_ports p) (video_flags p) (video_flags_hi p) (flags p) (fc_sysid p) (tz_offset_hours p)
    (seen p) (removed p).

Implicit Types p : listen_port.

Definition bound p (w : sock) : option Z :=
  match w with Sock1Udp => sock1_udp p | Sock2Udp => sock2_udp p | Sock1Tcp => sock1_tcp p | Sock2Listen => sock2_listen p end.

(** A descriptor that is not -1. *)
Definition has_fd (s : option Z) : bool := match s with Some _ => true | None => false end.
Definition is_open p (w : sock) : bool := has_fd (bound p w).

Definition close_sockets p : listen_port :=
  p <| sock1_udp := (None : option Z) |> <| sock2_udp := (None : option Z) |> <| sock1_tcp := (None : option Z) |>
    <| sock2_listen := (None : option Z) |>.

(** A socket that is not open is bound to [port], when that succeeds. *)
Definition bind_sock (s : option Z) (port : Z) (ok : bool) : option Z :=
  match s with Some n => Some n | None => if ok then Some port else None end.

(** [ok]: which of the binds succeed. *)
Definition open_sockets p (ok : sock -> bool) : listen_port :=
  p <| sock1_udp := bind_sock (sock1_udp p) (port1 p) (ok Sock1Udp) |>
    <| sock2_udp := bind_sock (sock2_udp p) (port2 p) (ok Sock2Udp) |>
    <| sock1_tcp := bind_sock (sock1_tcp p) (port1 p) (ok Sock1Tcp) |>
    <| sock2_listen := bind_sock (sock2_listen p) (port2 p) (ok Sock2Listen) |>.

(** ** Effects *)

(** A child forked, signalled with SIGTERM and waited for; rows of connections.tdb dropped. *)
Inductive effect :=
| Forked (child : Z)
| Kill (child : Z)
| Reaped (child : Z)
| RemoveVideo (p2 : Z)
| ReapSession (p2 : Z)
| RemovePort2 (p2 : Z).
#[export] Instance effect_eq_dec : EqDecision effect.
Proof. solve_decision. Defined.

(** On connections.tdb, when it opens. *)
Definition apply_effect {db} `{Tdb db} (h : db) (e : effect) : db :=
  match e with
  | Forked _ | Kill _ | Reaped _ => h
  | RemoveVideo p2 => conn_remove_video h p2
  | ReapSession p2 => reap_session h p2
  | RemovePort2 p2 => conn_remove_port2 h p2
  end.

(** ** Configuration *)

(** What [handle_record] takes from a record. *)
Record port_cfg := {
  c_port1 : Z;
  c_flags : Z;
  c_fc_sysid : Z;
  c_tz : Z;
  c_video_ports : list Z;
  c_video_flags : Z;
  c_video_flags_hi : Z
}.

Definition video_cfg_differs p (c : port_cfg) : bool :=
  negb (Z.land (flags p) KEY_FLAG_VIDEO =? Z.land (c_flags c) KEY_FLAG_VIDEO)
  || negb (video_flags p =? c_video_flags c) || negb (video_flags_hi p =? c_video_flags_hi c)
  || negb (bool_decide (video_ports p = c_video_ports c)).

Definition video_stop_child p : list effect := if video_pid p =? 0 then [] else [Kill (video_pid p)].

Definition set_video p (c : port_cfg) : listen_port :=
  p <| video_ports := c_video_ports c |> <| video_flags := c_video_flags c |> <| video_flags_hi := c_video_flags_hi c |>.
Definition set_policy p (c : port_cfg) : listen_port :=
  p <| flags := c_flags c |> <| fc_sysid := c_fc_sysid c |> <| tz_offset_hours := c_tz c |>.
Definition open_if_idle p (ok : sock -> bool) : listen_port := if pid p =? 0 then open_sockets p ok else p.

(** The matching entry. *)
Definition update_port p (c : port_cfg) (ok : sock -> bool) : listen_port * list effect :=
  let p := p <| seen := true |> in
  let stop := if video_cfg_differs p c then video_stop_child p else [] in
  let p := set_video p c in
  if removed p then (open_if_idle (set_policy (p <| removed := false |> <| port1 := c_port1 c |>) c) ok, stop)
  else if negb (port1 p =? c_port1 c) then
    let p := close_sockets p in
    let kill := if pid p =? 0 then [] else [Kill (pid p)] in
    (open_if_idle (set_policy (p <| port1 := c_port1 c |>) c) ok, stop ++ kill)
  else (set_policy p c, stop).

Definition new_port (p2 : Z) (c : port_cfg) : listen_port := {|
  port1 := c_port1 c; port2 := p2; sock1_udp := None; sock2_udp := None; sock1_tcp := None; sock2_listen := None;
  pid := 0; video_pid := 0; video_respawn_after := 0; video_ports := c_video_ports c; video_flags := c_video_flags c;
  video_flags_hi := c_video_flags_hi c; flags := c_flags c; fc_sysid := c_fc_sysid c; tz_offset_hours := c_tz c;
  seen := true; removed := false
|}.

Implicit Types ps : list listen_port.

(** The loop of [upsert_port]: the first match, if any. *)
Fixpoint upsert_loop ps (p2 : Z) (c : port_cfg) (ok : sock -> bool) : option (list listen_port * list effect) :=
  match ps with
  | [] => None
  | p :: ps =>
    if port2 p =? p2 then let '(p, es) := update_port p c ok in Some (p :: ps, es)
    else match upsert_loop ps p2 c ok with
         | Some (ps, es) => Some (p :: ps, es)
         | None => None
         end
  end.

Definition upsert_port ps (p2 : Z) (c : port_cfg) (ok : sock -> bool) : list listen_port * list effect :=
  match upsert_loop ps p2 c ok with
  | Some r => r
  | None => (open_sockets (new_port p2 c) ok :: ps, [])
  end.

(** The entry a record is for, and its configuration; [None]: skipped. *)
Definition record_cfg (r : bytes * bytes) : option (Z * port_cfg) :=
  if negb (len r.1 =? 4) || (len r.2 <? KEYENTRY_MIN_SIZE) then None
  else
    let k := decode_key (zero_extend KEYENTRY_SIZE r.2) in
    Some (int_val r.1,
      {| c_port1 := KeyDb.port1 k; c_flags := KeyDb.flags k; c_fc_sysid := KeyDb.fc_sysid k; c_tz := KeyDb.tz_offset_hours k;
         c_video_ports := map (video_port_of k) (seqZ 0 KEY_MAX_VIDEO_PORTS); c_video_flags := KeyDb.video_flags k;
         c_video_flags_hi := KeyDb.video_flags_hi k |}).

Definition handle_record (ok : Z -> sock -> bool) (st : list listen_port * list effect) (r : bytes * bytes)
  : list listen_port * list effect :=
  match record_cfg r with
  | None => st
  | Some (p2, c) => let '(ps, es) := upsert_port st.1 p2 c (ok p2) in (ps, st.2 ++ es)
  end.

(** ** Children *)

(** [fork]: [None] when the pipe cannot be made, or what [fork] returns in the parent. *)
Definition fork_video_child p (fork : option Z) : listen_port * list effect :=
  match fork with
  | Some pid => if pid <? 0 then (p, []) else (p <| video_pid := pid |>, [Forked pid])
  | None => (p, [])
  end.

Definition wants_video p : bool := negb (removed p) && video_entry_wants_child (flags p) (video_ports p).

Definition reconcile_port p (now : Z) (fork : option Z) : listen_port * list effect :=
  if wants_video p && (video_pid p =? 0) && (video_respawn_after p <=? now) then fork_video_child p fork
  else if negb (wants_video p) && negb (video_pid p =? 0) then (p, video_stop_child p)
  else (p, []).

Definition map_ports (f : listen_port -> listen_port * list effect) ps : list listen_port * list effect :=
  (map (fun p => (f p).1) ps, flat_map (fun p => (f p).2) ps).

Definition reconcile_video_children ps (now : Z) (forks : Z -> option Z) : list listen_port * list effect :=
  map_ports (fun p => reconcile_port p now (forks (port2 p))) ps.

(** ** The parent *)

(** [g_epfd] is what the epoll instance watches. *)
Record Parent := {
  ports : list listen_port;
  g_epfd : list (Z * sock);
  cleanup_child_pid : Z;
  last_reload : Z                (* microseconds *)
}.

#[export] Instance eta_Parent : Eta Parent := fun s =>
  Build_Parent (ports s) (g_epfd s) (cleanup_child_pid s) (last_reload s).

Implicit Types s : Parent.

Definition fork_cleanup_child s (fork : Z) : Parent * list effect :=
  if fork <? 0 then (s, []) else (s <| cleanup_child_pid := fork |>, [Forked fork]).

(** One child reaped: what becomes of the entries, and whether a session ended. *)
Fixpoint reap_port ps (gone now : Z) (ok : sock -> bool) : list listen_port * list effect * bool :=
  match ps with
  | [] => ([], [], false)
  | p :: ps =>
    if video_pid p =? gone
    then (p <| video_pid := 0 |> <| video_respawn_after := now + 2 |> :: ps, [RemoveVideo (port2 p)], false)
    else if pid p =? gone then
      let p := p <| pid := 0 |> in
      ((if removed p then p else open_sockets p ok) :: ps, [ReapSession (port2 p)], true)
    else let '(ps, es, r) := reap_port ps gone now ok in (p :: ps, es, r)
  end.

(** What one turn of [check_children] meets. *)
Record Reap := { r_pid : Z; r_now : Z; r_open : sock -> bool; r_fork : Z }.

Definition check_child s (r : Reap) : Parent * list effect * bool :=
  if r_pid r =? cleanup_child_pid s
  then let '(s, es) := fork_cleanup_child (s <| cleanup_child_pid := 0 |>) (r_fork r) in (s, Reaped (r_pid r) :: es, false)
  else
    let '(ps, es, reaped) := reap_port (ports s) (r_pid r) (r_now r) (r_open r) in
    (s <| ports := ps |>, Reaped (r_pid r) :: es, reaped).

Fixpoint check_children s (rs : list Reap) : Parent * list effect * bool :=
  match rs with
  | [] => (s, [], false)
  | r :: rs =>
    let '(s, es, reaped) := check_child s r in
    let '(s, es', reaped') := check_children s rs in (s, es ++ es', reaped || reaped')
  end.

(** ** Handing a pair to a session child *)

Definition epoll_del_sockets (watched : list (Z * sock)) p : list (Z * sock) :=
  filter (fun x => negb ((x.1 =? port2 p) && is_open p x.2) = true) watched.

(** The parent's side: what it watches changes with the entry. *)
Definition handle_connection p (watched : list (Z * sock)) (fork : Z) : listen_port * list (Z * sock) * list effect :=
  if fork <? 0 then (p, watched, [])
  else
    let p := p <| pid := fork |> in
    (close_sockets p, epoll_del_sockets watched p, [Forked fork]).

(** An event: the first entry that has the descriptor and no session takes it. *)
Fixpoint dispatch ps (watched : list (Z * sock)) (ev : Z * sock) (fork : Z)
  : list listen_port * list (Z * sock) * list effect :=
  match ps with
  | [] => ([], watched, [])
  | p :: ps =>
    if (pid p =? 0) && negb (removed p) && (port2 p =? ev.1) && is_open p ev.2
    then let '(p, watched, es) := handle_connection p watched fork in (p :: ps, watched, es)
    else let '(ps, watched, es) := dispatch ps watched ev fork in (p :: ps, watched, es)
  end.

(** The events of one [epoll_wait], each with what [fork] would give. *)
Fixpoint dispatch_all s (evs : list (Z * sock * Z)) : Parent * list effect :=
  match evs with
  | [] => (s, [])
  | (ev, fork) :: evs =>
    let '(ps, watched, es) := dispatch (ports s) (g_epfd s) ev fork in
    let '(s, es') := dispatch_all (s <| ports := ps |> <| g_epfd := watched |>) evs in (s, es ++ es')
  end.

(** ** Reloading *)

Record ReloadEnv := {
  re_db : option (list (bytes * bytes));   (* the records, if keys.tdb opens *)
  re_add : Z -> sock -> bool;              (* binds while the records are read *)
  re_open : Z -> sock -> bool;             (* and after *)
  re_forks : Z -> option Z;
  re_time : Z                              (* time(nullptr), seconds *)
}.

Definition retire p : listen_port * list effect :=
  if negb (seen p) && negb (removed p) then
    (close_sockets (p <| removed := true |>),
     (if pid p =? 0 then [] else [Kill (pid p)]) ++ video_stop_child p ++ [RemovePort2 (port2 p)])
  else (p, []).

Definition reopen p (ok : sock -> bool) : listen_port := if (pid p =? 0) && negb (removed p) then open_sockets p ok else p.

Definition reload_ports ps (e : ReloadEnv) : list listen_port * list effect :=
  let ps := map (fun p => p <| seen := false |>) ps in
  match re_db e with
  | None => (ps, [])
  | Some rs =>
    let '(ps, es1) := fold_left (handle_record (re_add e)) rs (ps, []) in
    let '(ps, es2) := map_ports retire ps in
    let ps := map (fun p => reopen p (re_open e (port2 p))) ps in
    let '(ps, es3) := reconcile_video_children ps (re_time e) (re_forks e) in
    (ps, es1 ++ es2 ++ es3)
  end.

Definition watch_port p : list (Z * sock) :=
  if negb (pid p =? 0) || removed p then [] else map (pair (port2 p)) (filter (fun w => is_open p w = true) socks).
Definition rebuild_epoll_set ps : list (Z * sock) := flat_map watch_port ps.

(** ** The loop *)

Definition RELOAD_US : Z := 5 * 1000000.

(** [t_now] in microseconds. *)
Record Turn := { t_events : list (Z * sock * Z); t_reaps : list Reap; t_now : Z; t_reload : ReloadEnv }.

Definition reload s (t : Turn) : Parent * list effect :=
  let '(ps, es) := reload_ports (ports s) (t_reload t) in
  (s <| ports := ps |> <| g_epfd := rebuild_epoll_set ps |> <| last_reload := t_now t |>, es).

(** One turn of [wait_connection]. *)
Definition turn s (t : Turn) : Parent * list effect :=
  let '(s, es1) := dispatch_all s (t_events t) in
  let '(s, es2, reaped) := check_children s (t_reaps t) in
  let '(s, es3) := if reaped || (RELOAD_US <? t_now t - last_reload s) then reload s t else (s, []) in
  (s, es1 ++ es2 ++ es3).

Fixpoint turns s (ts : list Turn) : Parent * list effect :=
  match ts with
  | [] => (s, [])
  | t :: ts => let '(s, es) := turn s t in let '(s, es') := turns s ts in (s, es ++ es')
  end.

Record Start := { s_db : option (list (bytes * bytes)); s_add : Z -> sock -> bool; s_forks : Z -> option Z; s_time : Z;
                  s_cleaner : Z; s_now : Z }.

(** [main] as far as the loop; [None] when the database does not open. *)
Definition start (e : Start) : option (Parent * list effect) :=
  match s_db e with
  | None => None
  | Some rs =>
    let '(ps, es1) := fold_left (handle_record (s_add e)) rs ([], []) in
    let '(ps, es2) := reconcile_video_children ps (s_time e) (s_forks e) in
    let '(s, es3) := fork_cleanup_child {| ports := ps; g_epfd := []; cleanup_child_pid := 0; last_reload := s_now e |} (s_cleaner e) in
    Some (s <| g_epfd := rebuild_epoll_set (ports s) |>, es1 ++ es2 ++ es3)
  end.
