(* ===== verification/PortsSpec.v ===== *)
(** * What holds of the parent process

    A kernel's view of the children ([alive]), against which the parent's table is checked;
    the listeners it holds and watches; and what a reload makes of keys.tdb. *)

From S2P Require Import Prelude Tdb KeyDb ConnDb Session VideoSlot Ports.

Implicit Types p : listen_port.
Implicit Types ps : list listen_port.
Implicit Types s : Parent.
Implicit Types es : list effect.
Implicit Types alive : list Z.

(** ** The kernel's view *)

Definition alive_step alive (e : effect) : list Z :=
  match e with
  | Forked q => q :: alive
  | Reaped q => filter (fun a => a <> q) alive
  | _ => alive
  end.
Definition alive_after alive es : list Z := fold_left alive_step es alive.

(** What the kernel promises: a child forked has a pid of its own, and only a child is waited
    for. *)
Fixpoint kernel_ok alive es : Prop :=
  match es with
  | [] => True
  | e :: es =>
    match e with Forked q => 0 < q /\ q ∉ alive | Reaped q => q ∈ alive | _ => True end /\ kernel_ok (alive_step alive e) es
  end.

(** Only children that are alive are signalled. *)
Fixpoint kills_ok alive es : Prop :=
  match es with
  | [] => True
  | e :: es => match e with Kill q => q ∈ alive | _ => True end /\ kills_ok (alive_step alive e) es
  end.

Lemma kernel_app alive es es' : kernel_ok alive (es ++ es') <-> kernel_ok alive es /\ kernel_ok (alive_after alive es) es'.
Proof.
  revert alive. induction es as [|e es IH]; intros alive; [by split; [|intros []]|]. cbn [kernel_ok app]. rewrite IH.
  unfold alive_after. cbn [fold_left]. tauto.
Qed.

Lemma kills_app alive es es' : kills_ok alive (es ++ es') <-> kills_ok alive es /\ kills_ok (alive_after alive es) es'.
Proof.
  revert alive. induction es as [|e es IH]; intros alive; [by split; [|intros []]|]. cbn [kills_ok app]. rewrite IH.
  unfold alive_after. cbn [fold_left]. tauto.
Qed.

Lemma alive_app alive es es' : alive_after alive (es ++ es') = alive_after (alive_after alive es) es'.
Proof. apply fold_left_app. Qed.

(** ** What the table records *)

Definition nonzero (l : list Z) : list Z := filter (fun q => q <> 0) l.
Definition kids_of p : list Z := nonzero [pid p; video_pid p].
Definition kids ps : list Z := flat_map kids_of ps.
Definition owned s : list Z := kids (ports s) ++ nonzero [cleanup_child_pid s].

(** The effects [es] take what is recorded from [o] to [o'], whatever else is recorded. *)
Definition tracks (o : list Z) es (o' : list Z) : Prop :=
  forall rest alive, NoDup alive -> alive ≡ₚ rest ++ o -> kernel_ok alive es ->
    kills_ok alive es /\ NoDup (alive_after alive es) /\ alive_after alive es ≡ₚ rest ++ o'.

Lemma tracks_nil o : tracks o [] o.
Proof. by intros rest alive. Qed.

Lemma tracks_app o es o1 es' o2 : tracks o es o1 -> tracks o1 es' o2 -> tracks o (es ++ es') o2.
Proof.
  intros H1 H2 rest alive Hn Hp [K1 K2]%kernel_app. destruct (H1 rest alive Hn Hp K1) as (L1 & N1 & P1).
  destruct (H2 rest _ N1 P1 K2) as (L2 & N2 & P2). rewrite kills_app, alive_app. done.
Qed.

Lemma tracks_frame o es o' f : tracks o es o' -> tracks (f ++ o) es (f ++ o').
Proof. intros Ht rest alive Hn Hp Hk. rewrite app_assoc in *. by apply Ht. Qed.

Lemma tracks_frame_r o es o' f : tracks o es o' -> tracks (o ++ f) es (o' ++ f).
Proof.
  intros Ht rest alive Hn Hp Hk. rewrite (Permutation_app_comm o), app_assoc in Hp.
  rewrite (Permutation_app_comm o'), app_assoc. by apply Ht.
Qed.

Lemma tracks_kill q o : q ∈ o -> tracks o [Kill q] o.
Proof.
  intros Hq rest alive Hn Hp _. split_and!; [|done|done]. split; [|done]. rewrite Hp. apply elem_of_app. by right.
Qed.

Lemma tracks_fork q o o' : (0 < q -> o' ≡ₚ q :: o) -> tracks o [Forked q] o'.
Proof.
  intros Ho rest alive Hn Hp [[Hq Hf] _]. split_and!; [done|by constructor|]. cbn. rewrite (Ho Hq), Hp.
  apply Permutation_middle.
Qed.

(** Effects on no child. *)
Definition mute es : Prop := Forall (fun e => match e with Forked _ | Kill _ | Reaped _ => False | _ => True end) es.

Lemma mute_spec alive es : mute es -> kills_ok alive es /\ alive_after alive es = alive.
Proof. intros Hm. induction Hm as [|e es He Hm IH]; [done|]. unfold alive_after in *. destruct e; cbn in *; tauto. Qed.

Lemma tracks_mute o es : mute es -> tracks o es o.
Proof. intros Hm rest alive Hn Hp _. by destruct (mute_spec alive es Hm) as [? ->]. Qed.

(** A list of entries, each handled alone. *)
Lemma tracks_map (f : listen_port -> listen_port * list effect) ps :
  (forall p, p ∈ ps -> tracks (kids_of p) (f p).2 (kids_of (f p).1)) -> tracks (kids ps) (map_ports f ps).2 (kids (map_ports f ps).1).
Proof.
  intros Hf. induction ps as [|p ps IH]; [apply tracks_nil|]. unfold kids, map_ports in *. cbn [map flat_map fst snd].
  apply (tracks_app _ _ (kids_of (f p).1 ++ flat_map kids_of ps)).
  - apply tracks_frame_r, Hf. by left.
  - apply tracks_frame, IH. intros p' Hp'. apply Hf. by right.
Qed.

(** ** Each operation keeps track *)

Lemma kids_same p p' : pid p' = pid p -> video_pid p' = video_pid p -> kids_of p' = kids_of p.
Proof. unfold kids_of. by intros -> ->. Qed.

Lemma pid_kid p : pid p <> 0 -> pid p ∈ kids_of p.
Proof. intros. unfold kids_of, nonzero. rewrite list_elem_of_filter. split; [done|by left]. Qed.

Lemma video_kid p : video_pid p <> 0 -> video_pid p ∈ kids_of p.
Proof. intros. unfold kids_of, nonzero. rewrite list_elem_of_filter. split; [done|right; by left]. Qed.

Lemma stop_tracks p : tracks (kids_of p) (video_stop_child p) (kids_of p).
Proof. unfold video_stop_child. destruct (Z.eqb_spec (video_pid p) 0); [apply tracks_nil|by apply tracks_kill, video_kid]. Qed.

Lemma stop_tracks_if (b : bool) p : tracks (kids_of p) (if b then video_stop_child p else []) (kids_of p).
Proof. destruct b; [apply stop_tracks|apply tracks_nil]. Qed.

Lemma kill_tracks p : tracks (kids_of p) (if pid p =? 0 then [] else [Kill (pid p)]) (kids_of p).
Proof. destruct (Z.eqb_spec (pid p) 0); [apply tracks_nil|by apply tracks_kill, pid_kid]. Qed.

(** A reload changes no pid. *)
Lemma open_if_idle_pids p ok : pid (open_if_idle p ok) = pid p /\ video_pid (open_if_idle p ok) = video_pid p.
Proof. unfold open_if_idle. by destruct (_ =? 0). Qed.

Lemma update_port_tracks p c ok :
  tracks (kids_of p) (update_port p c ok).2 (kids_of (update_port p c ok).1)
  /\ pid (update_port p c ok).1 = pid p /\ video_pid (update_port p c ok).1 = video_pid p.
Proof.
  assert (Hp : pid (update_port p c ok).1 = pid p /\ video_pid (update_port p c ok).1 = video_pid p).
  { unfold update_port, open_if_idle. cbv zeta. by repeat case_match. }
  split; [|done]. rewrite (kids_same p (update_port p c ok).1) by apply Hp. unfold update_port. cbv zeta.
  change (video_stop_child (p <| seen := true |>)) with (video_stop_child p).
  assert (Hs := stop_tracks_if (video_cfg_differs (p <| seen := true |>) c) p).
  destruct (removed _); [exact Hs|]. destruct (negb _); [|exact Hs]. cbn [snd].
  by apply (tracks_app _ _ (kids_of p)); [|apply (kill_tracks p)].
Qed.

Lemma upsert_tracks ps (p2 : Z) c ok : tracks (kids ps) (upsert_port ps p2 c ok).2 (kids (upsert_port ps p2 c ok).1).
Proof.
  unfold upsert_port.
  assert (Hl : forall r, upsert_loop ps p2 c ok = Some r -> tracks (kids ps) r.2 (kids r.1)).
  { induction ps as [|p ps IH]; cbn [upsert_loop]; [done|]. intros r. destruct (port2 p =? p2).
    - pose proof (update_port_tracks p c ok) as [Hu _]. destruct (update_port p c ok) as [p' es]. intros [= <-].
      unfold kids. cbn [flat_map fst snd]. by apply tracks_frame_r.
    - destruct (upsert_loop ps p2 c ok) as [[ps' es]|]; [|done]. intros [= <-]. unfold kids. cbn [flat_map fst snd].
      by apply tracks_frame, (IH (ps', es)). }
  destruct (upsert_loop ps p2 c ok) as [r|]; [by apply Hl|]. cbn. apply tracks_nil.
Qed.

Lemma records_tracks ok rs ps es0 :
  exists es, (fold_left (handle_record ok) rs (ps, es0)).2 = es0 ++ es
  /\ tracks (kids ps) es (kids (fold_left (handle_record ok) rs (ps, es0)).1).
Proof.
  revert ps es0. induction rs as [|r rs IH]; intros ps es0; [exists []; rewrite app_nil_r; split; [done|apply tracks_nil]|].
  cbn [fold_left]. unfold handle_record at 2 4. destruct (record_cfg r) as [[p2 c]|]; [|apply IH]. cbn [fst snd].
  pose proof (upsert_tracks ps p2 c (ok p2)) as Hu. destruct (upsert_port ps p2 c (ok p2)) as [ps' es'].
  destruct (IH ps' (es0 ++ es')) as (es & E & Ht). exists (es' ++ es). split; [by rewrite E, <-app_assoc|].
  by apply (tracks_app _ _ (kids ps')).
Qed.

Lemma reconcile_tracks p now fork : tracks (kids_of p) (reconcile_port p now fork).2 (kids_of (reconcile_port p now fork).1).
Proof.
  unfold reconcile_port. destruct (_ && _ && _) eqn:E.
  - apply andb_true_iff in E as [[_ Ev%Z.eqb_eq]%andb_true_iff _]. destruct fork as [q|]; [|apply tracks_nil]. cbn [fork_video_child].
    destruct (q <? 0); [apply tracks_nil|]. apply tracks_fork. intros Hq. cbn [fst snd]. unfold kids_of, nonzero.
    change (pid (p <| video_pid := q |>)) with (pid p). change (video_pid (p <| video_pid := q |>)) with q. rewrite Ev.
    rewrite !filter_cons. repeat case_decide; try lia; [apply perm_swap|done].
  - destruct (negb (wants_video p) && _); [apply stop_tracks|apply tracks_nil].
Qed.

Lemma retire_tracks p : tracks (kids_of p) (retire p).2 (kids_of (retire p).1).
Proof.
  unfold retire. destruct (_ && _); [|apply tracks_nil]. cbn [fst snd].
  rewrite (kids_same p (close_sockets (p <| removed := true |>))) by done.
  apply (tracks_app _ _ (kids_of p)); [apply kill_tracks|]. apply (tracks_app _ _ (kids_of p)); [apply stop_tracks|].
  apply tracks_mute. by repeat constructor.
Qed.

Lemma kids_map f ps : (forall p, pid (f p) = pid p /\ video_pid (f p) = video_pid p) -> kids (map f ps) = kids ps.
Proof.
  intros Hf. unfold kids. induction ps as [|p ps IH]; [done|]. cbn. rewrite IH. f_equal. by apply kids_same; apply Hf.
Qed.

Lemma reload_ports_tracks ps e : tracks (kids ps) (reload_ports ps e).2 (kids (reload_ports ps e).1).
Proof.
  unfold reload_ports. set (ps0 := map (fun p => p <| seen := false |>) ps).
  assert (E0 : kids ps0 = kids ps) by by apply kids_map. rewrite <-E0. clearbody ps0. destruct (re_db e) as [rs|]; [|apply tracks_nil].
  destruct (records_tracks (re_add e) rs ps0 []) as (es & E & H1). destruct (fold_left _ rs _) as [ps1 es1]. cbn in E. subst es1.
  pose proof (tracks_map retire ps1 (fun p _ => retire_tracks p)) as H2. destruct (map_ports retire ps1) as [ps2 es2].
  set (ps3 := map _ ps2). assert (E3 : kids ps3 = kids ps2) by (apply kids_map; intros p; unfold reopen; by destruct (_ && _)).
  clearbody ps3. pose proof (tracks_map _ ps3 (fun p _ => reconcile_tracks p (re_time e) (re_forks e (port2 p)))) as H3.
  unfold reconcile_video_children. destruct (map_ports _ ps3) as [ps4 es4]. cbn [fst snd] in *.
  apply (tracks_app _ _ (kids ps1)); [done|]. apply (tracks_app _ _ (kids ps2)); [done|]. by rewrite <-E3.
Qed.

Lemma dispatch_tracks ps watched ev fork :
  tracks (kids ps) (dispatch ps watched ev fork).2 (kids (dispatch ps watched ev fork).1.1).
Proof.
  induction ps as [|p ps IH]; [apply tracks_nil|]. cbn [dispatch]. destruct (_ && _ && _ && _) eqn:E.
  - apply andb_true_iff in E as [[[Ep%Z.eqb_eq _]%andb_true_iff _]%andb_true_iff _].
    unfold handle_connection. destruct (fork <? 0); [apply tracks_nil|]. cbn [fst snd]. unfold kids. cbn [flat_map].
    apply tracks_frame_r, tracks_fork. intros Hf. unfold kids_of, nonzero.
    change (pid (close_sockets (p <| pid := fork |>))) with fork.
    change (video_pid (close_sockets (p <| pid := fork |>))) with (video_pid p). rewrite Ep.
    rewrite !filter_cons. repeat case_decide; try lia; done.
  - destruct (dispatch ps watched ev fork) as [[ps' w'] es]. cbn [fst snd] in *. unfold kids. cbn [flat_map]. by apply tracks_frame.
Qed.

Lemma dispatch_all_tracks s evs :
  tracks (kids (ports s)) (dispatch_all s evs).2 (kids (ports (dispatch_all s evs).1))
  /\ cleanup_child_pid (dispatch_all s evs).1 = cleanup_child_pid s.
Proof.
  revert s. induction evs as [|[ev fork] evs IH]; intros s; [split; [apply tracks_nil|done]|]. cbn [dispatch_all].
  pose proof (dispatch_tracks (ports s) (g_epfd s) ev fork) as H1. destruct (dispatch _ _ ev fork) as [[ps w] es].
  set (s1 := s <| ports := ps |> <| g_epfd := w |>). destruct (IH s1) as [H2 H3]. destruct (dispatch_all s1 evs) as [s2 es2].
  cbn [fst snd] in *. split; [|done]. by apply (tracks_app _ _ (kids (ports s1))).
Qed.

(** *** Reaping *)

Lemma reap_port_out ps gone now ok : gone ∉ kids ps -> gone <> 0 -> reap_port ps gone now ok = (ps, [], false).
Proof.
  intros Hn Hz. induction ps as [|p ps IH]; [done|]. cbn [reap_port]. unfold kids in Hn. cbn [flat_map] in Hn.
  apply not_elem_of_app in Hn as [Hp Hn]. rewrite (IH Hn).
  destruct (Z.eqb_spec (video_pid p) gone) as [<-|_]; [by destruct Hp; apply video_kid|].
  by destruct (Z.eqb_spec (pid p) gone) as [<-|_]; [destruct Hp; apply pid_kid|].
Qed.

Lemma filter_out (q : Z) (l : list Z) : q ∉ l -> filter (fun a => a <> q) l = l.
Proof. intros Hq. apply filter_all, list.Forall_forall. by intros a Ha ->. Qed.

Lemma nodup_app_l (l k : list Z) : NoDup (l ++ k) -> NoDup l /\ NoDup k /\ forall q, q ∈ l -> q ∉ k.
Proof. intros (H1 & H2 & H3)%list.NoDup_app. done. Qed.

Lemma reap_port_in ps gone now ok :
  NoDup (kids ps) -> gone <> 0 ->
  let r := reap_port ps gone now ok in kids r.1.1 = filter (fun a => a <> gone) (kids ps) /\ mute r.1.2.
Proof.
  intros Hn Hz. cbv zeta. induction ps as [|p ps IH]; [by repeat constructor|]. cbn [reap_port]. unfold kids in *. cbn [flat_map] in *.
  apply nodup_app_l in Hn as (Hnp & Hn & Hd). rewrite list.filter_app.
  assert (Hone : gone ∈ kids_of p -> filter (fun a => a <> gone) (flat_map kids_of ps) = flat_map kids_of ps)
    by (intros Hg; by apply filter_out, Hd).
  assert (Hkids : forall a b, kids_of p = nonzero [a; b] -> NoDup (nonzero [a; b]) ->
    (b = gone -> nonzero [a; 0] = filter (fun a => a <> gone) (nonzero [a; b])) /\ (a = gone -> nonzero [0; b] = filter (fun a => a <> gone) (nonzero [a; b]))).
  { intros a b _ Hab. unfold nonzero in *. rewrite !filter_cons in *. split; intros ->; repeat case_decide; try done; try lia;
      rewrite ?filter_cons; repeat case_decide; try done; try congruence.
    all: try (exfalso; subst; apply list.NoDup_cons in Hab as [Hab _]; apply Hab; by left). }
  specialize (Hkids (pid p) (video_pid p) eq_refl Hnp) as [Hv Hp].
  destruct (Z.eqb_spec (video_pid p) gone) as [Ev|Ev].
  - cbn [fst snd flat_map]. rewrite Hone by (rewrite <-Ev; apply video_kid; by rewrite Ev). split; [|by repeat constructor].
    f_equal. exact (Hv Ev).
  - destruct (Z.eqb_spec (pid p) gone) as [Ep|Ep].
    + cbn [fst snd flat_map]. rewrite Hone by (rewrite <-Ep; apply pid_kid; by rewrite Ep). split; [|by repeat constructor].
      f_equal. destruct (removed _); exact (Hp Ep).
    + destruct (IH Hn) as [E Hm]. destruct (reap_port ps gone now ok) as [[ps' es] r]. cbn [fst snd flat_map] in *.
      rewrite E. split; [|done]. f_equal. symmetry. apply filter_out. unfold kids_of, nonzero. rewrite list_elem_of_filter.
      intros [_ Hg]. apply elem_of_cons in Hg as [Hg|Hg]; [congruence|]. apply list_elem_of_singleton in Hg. congruence.
Qed.

(** What holds of the whole table. *)
Definition accounts s alive : Prop := NoDup alive /\ alive ≡ₚ owned s.

Definition moves_on s es s' : Prop :=
  forall alive, accounts s alive -> kernel_ok alive es -> kills_ok alive es /\ accounts s' (alive_after alive es).

Lemma moves_on_app s es s1 es' s2 : moves_on s es s1 -> moves_on s1 es' s2 -> moves_on s (es ++ es') s2.
Proof.
  intros H1 H2 alive Ha [K1 K2]%kernel_app. destruct (H1 alive Ha K1) as [L1 A1]. destruct (H2 _ A1 K2) as [L2 A2].
  by rewrite kills_app, alive_app.
Qed.

Lemma moves_on_nil s s' : owned s' = owned s -> moves_on s [] s'.
Proof. intros E alive [Hn Hp] _. split; [done|]. split; [done|]. by rewrite E. Qed.

Lemma tracks_moves s es s' :
  tracks (kids (ports s)) es (kids (ports s')) -> cleanup_child_pid s' = cleanup_child_pid s -> moves_on s es s'.
Proof.
  intros Ht E alive [Hn Hp] Hk. unfold accounts, owned in *. rewrite E. rewrite Permutation_app_comm in Hp.
  destruct (Ht (nonzero [cleanup_child_pid s]) alive Hn Hp Hk) as (H1 & H2 & H3). split; [done|]. split; [done|].
  by rewrite H3, Permutation_app_comm.
Qed.

Lemma nonzero_alive s alive q : accounts s alive -> q ∈ alive -> q <> 0.
Proof.
  intros [_ ->] Hq. unfold owned in Hq. apply elem_of_app in Hq as [Hq|Hq].
  - unfold kids in Hq. apply list_elem_of_In, in_flat_map in Hq as (p & _ & Hq). apply list_elem_of_In in Hq.
    by apply list_elem_of_filter in Hq as [? _].
  - by apply list_elem_of_filter in Hq as [? _].
Qed.

Lemma cleaner_owned s q : cleanup_child_pid s = 0 -> 0 < q -> owned (s <| cleanup_child_pid := q |>) ≡ₚ q :: owned s.
Proof.
  intros E Hq. unfold owned. cbn [ports cleanup_child_pid]. rewrite E. change (nonzero [0]) with (@nil Z). rewrite app_nil_r.
  replace (nonzero [q]) with [q] by (unfold nonzero; rewrite filter_cons_True; [done|lia]). by rewrite <-Permutation_cons_append.
Qed.

Lemma check_child_moves s r : moves_on s (check_child s r).1.2 (check_child s r).1.1.
Proof.
  intros alive Ha. pose proof Ha as [Hn Hp]. unfold check_child.
  assert (Hgone : r_pid r ∈ alive -> r_pid r <> 0) by by apply (nonzero_alive s).
  destruct (Z.eqb_spec (r_pid r) (cleanup_child_pid s)) as [E|E].
  - unfold fork_cleanup_child.
    assert (H0 : r_pid r ∈ alive -> accounts (s <| cleanup_child_pid := 0 |>) (filter (fun a => a <> r_pid r) alive)).
    { intros Hg. specialize (Hgone Hg). split; [by apply list.NoDup_filter|]. rewrite Hp. rewrite Hp in Hn. unfold owned in *.
      assert (E1 : nonzero [cleanup_child_pid s] = [r_pid r]) by (unfold nonzero; rewrite <-E; by rewrite filter_cons_True).
      rewrite E1 in *. cbn [ports cleanup_child_pid]. change (nonzero [0]) with (@nil Z). rewrite app_nil_r, list.filter_app.
      apply nodup_app_l in Hn as (_ & _ & Hd). rewrite filter_cons_False by (intros Hf; by apply Hf). rewrite app_nil_r.
      rewrite filter_out; [done|]. intros Hk. apply (Hd _ Hk). by left. }
    destruct (r_fork r <? 0); cbn [fst snd]; intros [Hk Hk']; split; [done|by apply H0| |].
    + by repeat split.
    + specialize (H0 Hk). cbn in Hk'. destruct Hk' as [[Hf Hfr] _]. destruct H0 as [N0 P0]. split; [by constructor|].
      cbn. by rewrite P0, <-(cleaner_owned _ (r_fork r)).
  - pose proof (reap_port_in (ports s) (r_pid r) (r_now r) (r_open r)) as Hr.
    destruct (reap_port _ _ _ _) as [[ps es] b]. cbn [fst snd] in *. intros [Hk Hk']. specialize (Hgone Hk).
    assert (Hn' : NoDup (owned s)) by by rewrite <-Hp. unfold owned in Hn'. apply nodup_app_l in Hn' as (Hn' & _ & _).
    destruct (Hr Hn' Hgone) as [Ek Hm]. clear Hr.
    assert (H0 : accounts (s <| ports := ps |>) (filter (fun a => a <> r_pid r) alive)).
    { split; [by apply list.NoDup_filter|]. rewrite Hp. unfold owned. cbn [ports cleanup_child_pid].
      rewrite list.filter_app, <-Ek. f_equiv. rewrite filter_out; [done|]. unfold nonzero. rewrite list_elem_of_filter.
      intros [_ Hc]. by apply list_elem_of_singleton in Hc. }
    destruct H0 as [N0 P0].
    destruct (mute_spec (filter (fun a => a <> r_pid r) alive) es Hm) as [L E']. split; [by split|].
    unfold alive_after in *. cbn [fold_left alive_step]. by rewrite E'.
Qed.

Lemma check_children_moves s rs : moves_on s (check_children s rs).1.2 (check_children s rs).1.1.
Proof.
  revert s. induction rs as [|r rs IH]; intros s; [by apply moves_on_nil|]. cbn [check_children].
  pose proof (check_child_moves s r) as H1. destruct (check_child s r) as [[s1 es1] b1]. specialize (IH s1).
  destruct (check_children s1 rs) as [[s2 es2] b2]. by apply (moves_on_app _ _ s1).
Qed.

Lemma turn_moves s t : moves_on s (turn s t).2 (turn s t).1.
Proof.
  unfold turn. destruct (dispatch_all_tracks s (t_events t)) as [H1 E1]. destruct (dispatch_all s (t_events t)) as [s1 es1].
  pose proof (check_children_moves s1 (t_reaps t)) as H2. destruct (check_children s1 (t_reaps t)) as [[s2 es2] reaped].
  cbn [fst snd] in *. assert (H3 : moves_on s2 (if reaped || (RELOAD_US <? t_now t - last_reload s2) then reload s2 t else (s2, [])).2
                             (if reaped || (RELOAD_US <? t_now t - last_reload s2) then reload s2 t else (s2, [])).1).
  { destruct (_ || _); [|by apply moves_on_nil]. unfold reload. pose proof (reload_ports_tracks (ports s2) (t_reload t)) as Hr.
    destruct (reload_ports _ _) as [ps es]. by apply tracks_moves. }
  destruct (if reaped || _ then reload s2 t else (s2, [])) as [s3 es3].
  apply (moves_on_app _ _ s1); [by apply tracks_moves|]. by apply (moves_on_app _ _ s2).
Qed.

Lemma turns_moves s ts : moves_on s (turns s ts).2 (turns s ts).1.
Proof.
  revert s. induction ts as [|t ts IH]; intros s; [by apply moves_on_nil|]. cbn [turns].
  pose proof (turn_moves s t) as H1. destruct (turn s t) as [s1 es1]. specialize (IH s1). destruct (turns s1 ts) as [s2 es2].
  by apply (moves_on_app _ _ s1).
Qed.

Lemma start_moves e s es :
  start e = Some (s, es) -> kernel_ok [] es -> kills_ok [] es /\ accounts s (alive_after [] es).
Proof.
  unfold start. destruct (s_db e) as [rs|]; [|done].
  destruct (records_tracks (s_add e) rs [] []) as (es1 & E1 & H1). destruct (fold_left _ rs _) as [ps1 es1']. cbn in E1. subst es1'.
  pose proof (tracks_map _ ps1 (fun p _ => reconcile_tracks p (s_time e) (s_forks e (port2 p)))) as H2.
  unfold reconcile_video_children. destruct (map_ports _ ps1) as [ps2 es2]. cbn [fst snd] in *.
  set (s0 := {| ports := []; g_epfd := []; cleanup_child_pid := 0; last_reload := s_now e |}).
  set (s2 := {| ports := ps2; g_epfd := []; cleanup_child_pid := 0; last_reload := s_now e |}).
  assert (Hm : moves_on s0 (es1 ++ es2) s2) by (apply tracks_moves; [by apply (tracks_app _ _ (kids ps1))|done]).
  assert (Ha : accounts s0 []) by (split; [constructor|done]).
  unfold fork_cleanup_child. destruct (s_cleaner e <? 0); intros [= <- <-] Hk.
  - rewrite app_nil_r in *. by apply (Hm []).
  - rewrite app_assoc in *. apply kernel_app in Hk as [Hk1 Hk2]. destruct (Hm [] Ha Hk1) as [L [N P]].
    rewrite alive_app, kills_app. split; [by repeat split|]. destruct Hk2 as [[Hq Hf] _]. split; [by constructor|]. change (s_cleaner e :: alive_after [] (es1 ++ es2) ≡ₚ owned (s2 <| cleanup_child_pid := s_cleaner e |>)).
    by rewrite P, <-(cleaner_owned s2 (s_cleaner e)).
Qed.

(** ** Listeners *)

(** The port a socket of the entry is for. *)
Definition port_for p (w : sock) : Z := match w with Sock1Udp | Sock1Tcp => port1 p | Sock2Udp | Sock2Listen => port2 p end.

(** An entry with a session, or removed, listens on nothing, and what an entry listens on is
    its own two ports. *)
Definition port_ok p : Prop :=
  (pid p <> 0 \/ removed p = true -> forall w, is_open p w = false)
  /\ forall w n, bound p w = Some n -> n = port_for p w.

Definition keys ps : list Z := map port2 ps.

Record table_ok ps : Prop := { table_keys : NoDup (keys ps); table_ports : Forall port_ok ps }.

(** At the turn boundaries the epoll instance watches exactly what the table holds open. *)
Record Inv s : Prop := { inv_table : table_ok (ports s); inv_watch : g_epfd s = rebuild_epoll_set (ports s) }.

Lemma closed p w : is_open (close_sockets p) w = false.
Proof. by destruct w. Qed.

Lemma closed_ok p : port_ok (close_sockets p).
Proof. split; [intros _ w; apply closed|]. by intros []. Qed.

Lemma open_same p p' w : bound p' w = bound p w -> is_open p' w = is_open p w.
Proof. unfold is_open. by intros ->. Qed.

(** Opening an idle entry's sockets: those that are open stay where they are. *)
Lemma open_bound p ok w :
  bound (open_sockets p ok) w = match bound p w with Some n => Some n | None => if ok w then Some (port_for p w) else None end.
Proof. by destruct w. Qed.

Lemma open_ok p ok : pid p = 0 -> removed p = false -> port_ok p -> port_ok (open_sockets p ok).
Proof.
  intros E1 E2 [_ Hb]. split; [by intros [?|?]; cbn in *; congruence|]. intros w n. rewrite open_bound.
  change (port_for (open_sockets p ok) w) with (port_for p w). destruct (bound p w) eqn:E; [intros [= <-]; by apply Hb|].
  destruct (ok w); [by intros [= <-]|done].
Qed.

Lemma open_if_idle_ok p ok : removed p = false -> port_ok p -> port_ok (open_if_idle p ok).
Proof. intros Hr Hp. unfold open_if_idle. destruct (Z.eqb_spec (pid p) 0); [by apply open_ok|done]. Qed.

Lemma port_ok_same p p' :
  pid p' = pid p -> removed p' = removed p -> port1 p' = port1 p -> port2 p' = port2 p -> (forall w, bound p' w = bound p w) ->
  port_ok p -> port_ok p'.
Proof.
  unfold port_ok. intros -> -> E1 E2 Hw [H1 H2]. split; [intros H w; rewrite (open_same p) by apply Hw; by apply H1|].
  intros w n. rewrite Hw. intros Hn%H2. by destruct w; cbn in *; rewrite ?E1, ?E2.
Qed.

(** A closed entry may be given another port. *)
Lemma shut_ok p p' : (forall w, bound p w = None) -> (forall w, bound p' w = bound p w) -> port_ok p'.
Proof. intros Hs Hb. split; [intros _ w|intros w n]; unfold is_open; by rewrite Hb, Hs. Qed.

Lemma is_open_none p w : is_open p w = false <-> bound p w = None.
Proof. unfold is_open. by destruct (bound p w). Qed.

Lemma update_port_ok p c ok : port_ok p -> port_ok (update_port p c ok).1 /\ port2 (update_port p c ok).1 = port2 p.
Proof.
  intros Hp. unfold update_port. cbv zeta. destruct (removed _) eqn:Er.
  - cbn [fst]. split; [|by unfold open_if_idle; case_match]. apply open_if_idle_ok; [done|].
    apply (shut_ok p); [|by intros []]. intros w. apply is_open_none, Hp. by right.
  - destruct (negb _); cbn [fst].
    + split; [|by unfold open_if_idle; case_match]. apply open_if_idle_ok; [done|].
      by apply (shut_ok (close_sockets p)); intros [].
    + split; [|done]. by apply (port_ok_same p).
Qed.

Lemma upsert_loop_ok ps (p2 : Z) c ok r :
  upsert_loop ps p2 c ok = Some r -> Forall port_ok ps -> Forall port_ok r.1 /\ keys r.1 = keys ps.
Proof.
  revert r. induction ps as [|p ps IH]; intros r; [done|]. cbn [upsert_loop]. intros Hr [Hp Hps]%list.Forall_cons.
  destruct (port2 p =? p2).
  - destruct (update_port_ok p c ok Hp) as [Hu Ek]. destruct (update_port p c ok) as [p' es]. injection Hr as <-. cbn [fst] in *.
    split; [by constructor|]. unfold keys. cbn [map]. by rewrite Ek.
  - destruct (upsert_loop ps p2 c ok) as [[ps' es]|]; [|done]. injection Hr as <-. cbn [fst] in *.
    destruct (IH (ps', es) eq_refl Hps) as [H1 H2]. split; [by constructor|]. unfold keys in *. cbn [map fst] in *. by rewrite H2.
Qed.

Lemma upsert_loop_none ps (p2 : Z) c ok : upsert_loop ps p2 c ok = None <-> p2 ∉ keys ps.
Proof.
  induction ps as [|p ps IH]; [split; [by intros _ ?%elem_of_nil|done]|]. cbn [upsert_loop]. unfold keys in *. cbn [map].
  rewrite not_elem_of_cons. destruct (Z.eqb_spec (port2 p) p2) as [<-|En].
  - destruct (update_port p c ok). split; [done|tauto].
  - destruct (upsert_loop ps p2 c ok) as [[??]|]; split; try done; [intros [_ H]; by apply IH in H|].
    intros _. split; [congruence|]. by apply IH.
Qed.

Lemma new_port_ok (p2 : Z) c : port_ok (new_port p2 c).
Proof. split; [by intros _ []|by intros []]. Qed.

Lemma upsert_ok ps (p2 : Z) c ok : table_ok ps -> table_ok (upsert_port ps p2 c ok).1.
Proof.
  intros [Hk Hp]. unfold upsert_port. destruct (upsert_loop ps p2 c ok) as [r|] eqn:E.
  - destruct (upsert_loop_ok _ _ _ _ _ E Hp) as [H1 H2]. split; [|done]. by rewrite H2.
  - apply upsert_loop_none in E. cbn [fst]. split; [by constructor|]. constructor; [by apply open_ok, new_port_ok|done].
Qed.

Lemma records_ok ok rs st : table_ok st.1 -> table_ok (fold_left (handle_record ok) rs st).1.
Proof.
  revert st. induction rs as [|r rs IH]; intros st Ht; [done|]. cbn [fold_left]. apply IH. unfold handle_record.
  destruct (record_cfg r) as [[p2 c]|]; [|done]. pose proof (upsert_ok st.1 p2 c (ok p2) Ht) as Hu.
  by destruct (upsert_port _ _ _ _).
Qed.

Lemma map_ok f ps :
  (forall p, port_ok p -> port_ok (f p) /\ port2 (f p) = port2 p) -> table_ok ps -> table_ok (map f ps).
Proof.
  intros Hf [Hk Hp]. split.
  - unfold keys in *. rewrite map_map. erewrite map_ext_Forall; [exact Hk|]. apply (list.Forall_impl _ _ _ Hp).
    intros p Hpp. by apply Hf.
  - apply list.Forall_fmap. apply (list.Forall_impl _ _ _ Hp). intros p Hpp. by apply Hf.
Qed.

Lemma retire_ok p : port_ok p -> port_ok (retire p).1 /\ port2 (retire p).1 = port2 p.
Proof. intros Hp. unfold retire. destruct (_ && _); cbn [fst]; split; try done. apply closed_ok. Qed.

Lemma reopen_ok p ok : port_ok p -> port_ok (reopen p ok) /\ port2 (reopen p ok) = port2 p.
Proof.
  intros Hp. unfold reopen. destruct (Z.eqb_spec (pid p) 0) as [E|E]; [|done]. destruct (removed p) eqn:Er; [done|].
  split; [by apply open_ok|done].
Qed.

(** What [reconcile_port] leaves alone. *)
Lemma reconcile_same p now fork : let p' := (reconcile_port p now fork).1 in
  pid p' = pid p /\ removed p' = removed p /\ port2 p' = port2 p /\ port1 p' = port1 p /\ forall w, bound p' w = bound p w.
Proof.
  cbv zeta. unfold reconcile_port, fork_video_child. by repeat case_match.
Qed.

Lemma reconcile_ok p now fork : port_ok p -> port_ok (reconcile_port p now fork).1 /\ port2 (reconcile_port p now fork).1 = port2 p.
Proof.
  intros Hp. destruct (reconcile_same p now fork) as (E1 & E2 & E3 & E4 & E5). split; [|done]. by apply (port_ok_same p).
Qed.

Lemma reload_ports_ok ps e : table_ok ps -> table_ok (reload_ports ps e).1.
Proof.
  intros Ht. unfold reload_ports. assert (H0 : table_ok (map (fun p => p <| seen := false |>) ps)) by by apply map_ok.
  destruct (re_db e) as [rs|]; [|done]. pose proof (records_ok (re_add e) rs (_, []) H0) as H1.
  destruct (fold_left _ rs _) as [ps1 es1]. cbn [map_ports reconcile_video_children] in *. unfold reconcile_video_children, map_ports.
  cbn [fst] in *. apply (map_ok (fun p => _)); [intros; by apply reconcile_ok|]. apply map_ok; [intros; by apply reopen_ok|].
  apply (map_ok (fun p => _)); [intros; by apply retire_ok|done].
Qed.

Lemma watch_key p x : x ∈ watch_port p -> x.1 = port2 p.
Proof.
  unfold watch_port. destruct (_ || _); [by intros ?%elem_of_nil|]. intros (w & -> & _)%list_elem_of_fmap. done.
Qed.

Lemma rebuild_keys ps x : x ∈ rebuild_epoll_set ps -> x.1 ∈ keys ps.
Proof.
  intros (p & Hp & Hx)%list_elem_of_In%in_flat_map. apply list_elem_of_In, watch_key in Hx as ->.
  apply list_elem_of_fmap. exists p. split; [done|by apply list_elem_of_In].
Qed.

(** Deregistering an entry's sockets takes its share, and no other's. *)
Lemma del_other watched p : (forall x, x ∈ watched -> x.1 <> port2 p) -> epoll_del_sockets watched p = watched.
Proof.
  intros Hw. unfold epoll_del_sockets. apply filter_all, list.Forall_forall. intros x Hx%Hw. by apply Z.eqb_neq in Hx as ->.
Qed.

Lemma del_own p : epoll_del_sockets (watch_port p) p = [].
Proof.
  unfold epoll_del_sockets. destruct (filter _ _) as [|x l] eqn:E; [done|]. exfalso.
  assert (Hx : x ∈ x :: l) by by left. rewrite <-E, list_elem_of_filter in Hx. destruct Hx as [Hx Hw].
  unfold watch_port in Hw. destruct (_ || _); [by apply elem_of_nil in Hw|]. apply list_elem_of_fmap in Hw as (w & -> & Hw).
  apply list_elem_of_filter in Hw as [Hw _]. cbn [fst snd] in Hx. by rewrite Hw, Z.eqb_refl in Hx.
Qed.

Lemma del_rebuild p ps1 ps2 : NoDup (keys (ps1 ++ p :: ps2)) ->
  epoll_del_sockets (rebuild_epoll_set (ps1 ++ p :: ps2)) p = rebuild_epoll_set (ps1 ++ ps2).
Proof.
  unfold keys, rebuild_epoll_set. rewrite map_app, !flat_map_app. cbn [map flat_map]. intros Hn.
  apply nodup_app_l in Hn as (_ & [Hp2 _]%list.NoDup_cons & Hp1). unfold epoll_del_sockets. rewrite !list.filter_app.
  change (epoll_del_sockets (flat_map watch_port ps1) p ++ epoll_del_sockets (watch_port p) p ++ epoll_del_sockets (flat_map watch_port ps2) p
    = flat_map watch_port ps1 ++ flat_map watch_port ps2). rewrite del_own, !del_other; [done| |].
  - intros x Hx%rebuild_keys Ex. apply Hp2. by rewrite <-Ex.
  - intros x Hx%rebuild_keys Ex. apply (Hp1 _ Hx). rewrite Ex. by left.
Qed.

(** An event either changes nothing or hands one idle entry over. *)
Lemma dispatch_spec ps watched ev fork :
  dispatch ps watched ev fork = (ps, watched, [])
  \/ exists ps1 p ps2, ps = ps1 ++ p :: ps2 /\ pid p = 0 /\ removed p = false /\ 0 <= fork
     /\ dispatch ps watched ev fork
        = (ps1 ++ close_sockets (p <| pid := fork |>) :: ps2, epoll_del_sockets watched p, [Forked fork]).
Proof.
  induction ps as [|p ps IH]; [by left|]. cbn [dispatch]. destruct (_ && _ && _ && _) eqn:E.
  - apply andb_true_iff in E as [[[Ep%Z.eqb_eq Er%negb_true_iff]%andb_true_iff _]%andb_true_iff _].
    unfold handle_connection. destruct (Z.ltb_spec fork 0) as [Hf|Hf]; [by left|]. right. exists [], p, ps. done.
  - destruct IH as [->|(ps1 & p' & ps2 & -> & H1 & H2 & H3 & ->)]; [by left|]. right. exists (p :: ps1), p', ps2. done.
Qed.

Lemma closed_watch p : watch_port (close_sockets p) = [].
Proof. unfold watch_port. by destruct (_ || _). Qed.

Lemma inv_dispatch_all s evs : Inv s -> Inv (dispatch_all s evs).1.
Proof.
  revert s. induction evs as [|[ev fork] evs IH]; intros s Hs; [done|]. cbn [dispatch_all].
  destruct (dispatch_spec (ports s) (g_epfd s) ev fork) as [->|(ps1 & p & ps2 & E & H1 & H2 & H3 & ->)].
  - specialize (IH s Hs). destruct s as [ps w c l]. cbn in *. by destruct (dispatch_all _ evs).
  - set (s1 := s <| ports := ps1 ++ close_sockets (p <| pid := fork |>) :: ps2 |> <| g_epfd := epoll_del_sockets (g_epfd s) p |>). assert (H : Inv s1); [|specialize (IH s1 H); by destruct (dispatch_all s1 evs)].
    destruct Hs as [[Hk Hp] Hw]. rewrite E in *. split; [split|]; cbn [ports g_epfd s1].
    + unfold keys in *. by rewrite map_app in *.
    + apply list.Forall_app in Hp as [Hp1 [_ Hp2]%list.Forall_cons]. apply list.Forall_app. split; [done|].
      constructor; [apply closed_ok|done].
    + rewrite Hw, del_rebuild by done. unfold rebuild_epoll_set. rewrite !flat_map_app. cbn [flat_map].
      by rewrite closed_watch.
Qed.

Lemma reap_port_ok ps gone now ok : table_ok ps -> let r := reap_port ps gone now ok in
  table_ok r.1.1 /\ keys r.1.1 = keys ps /\ (r.2 = false -> rebuild_epoll_set r.1.1 = rebuild_epoll_set ps).
Proof.
  intros [Hk Hp]. cbv zeta. assert (Forall port_ok (reap_port ps gone now ok).1.1 /\ keys (reap_port ps gone now ok).1.1 = keys ps
    /\ ((reap_port ps gone now ok).2 = false -> rebuild_epoll_set (reap_port ps gone now ok).1.1 = rebuild_epoll_set ps)) as (H1 & H2 & H3).
  { clear Hk. induction Hp as [|p ps Hp Hps IH]; [done|]. cbn [reap_port]. destruct (Z.eqb_spec (video_pid p) gone).
    { split_and!; [|done|done]. constructor; [by apply (port_ok_same p)|done]. }
    destruct (Z.eqb_spec (pid p) gone) as [E|E].
    { cbn [fst snd]. split_and!; [|by destruct (removed _)|done]. constructor; [|done].
      assert (H0 : port_ok (p <| pid := 0 |>)).
      { split; [|apply Hp]. intros [H0|Er] w; [by destruct H0|]. apply (proj1 Hp). by right. }
      destruct (removed p) eqn:Er; [done|by apply open_ok]. }
    destruct IH as (H1 & H2 & H3). destruct (reap_port ps gone now ok) as [[ps' es] r]. cbn [fst snd] in *. split_and!.
    - by constructor.
    - unfold keys in *. cbn. by rewrite H2.
    - intros ?%H3. unfold rebuild_epoll_set in *. cbn. by f_equal. }
  split_and!; [|done|done]. split; [by rewrite H2|done].
Qed.

Lemma check_children_ok s rs : table_ok (ports s) -> let r := check_children s rs in
  table_ok (ports r.1.1) /\ g_epfd r.1.1 = g_epfd s
  /\ (r.2 = false -> rebuild_epoll_set (ports r.1.1) = rebuild_epoll_set (ports s)).
Proof.
  cbv zeta. revert s. induction rs as [|r rs IH]; intros s Ht; [done|]. cbn [check_children].
  assert (Hc : table_ok (ports (check_child s r).1.1) /\ g_epfd (check_child s r).1.1 = g_epfd s
    /\ ((check_child s r).2 = false -> rebuild_epoll_set (ports (check_child s r).1.1) = rebuild_epoll_set (ports s))).
  { unfold check_child, fork_cleanup_child. destruct (_ =? _); [by destruct (_ <? 0)|].
    destruct (reap_port_ok (ports s) (r_pid r) (r_now r) (r_open r) Ht) as (H1 & _ & H3).
    by destruct (reap_port _ _ _ _) as [[ps es] b]. }
  destruct (check_child s r) as [[s1 es1] b1]. cbn [fst snd] in *. destruct Hc as (H1 & H2 & H3).
  destruct (IH s1 H1) as (H4 & H5 & H6). destruct (check_children s1 rs) as [[s2 es2] b2]. cbn [fst snd] in *.
  split_and!; [done|congruence|]. intros [E1 E2]%orb_false_iff. by rewrite H6, H3.
Qed.

Lemma inv_reload s t : table_ok (ports s) -> Inv (reload s t).1.
Proof.
  intros Ht. unfold reload. pose proof (reload_ports_ok (ports s) (t_reload t) Ht). by destruct (reload_ports _ _).
Qed.

Lemma inv_turn s t : Inv s -> Inv (turn s t).1.
Proof.
  intros Hs. unfold turn. pose proof (inv_dispatch_all s (t_events t) Hs) as H1. destruct (dispatch_all s _) as [s1 es1].
  destruct (check_children_ok s1 (t_reaps t) (inv_table _ H1)) as (H2 & H3 & H4).
  destruct (check_children s1 _) as [[s2 es2] reaped]. cbn [fst snd] in *.
  destruct (reaped || _) eqn:E; [pose proof (inv_reload s2 t H2); by destruct (reload s2 t)|].
  apply orb_false_iff in E as [-> _]. cbn. split; [done|]. rewrite H3, H4 by done. apply H1.
Qed.

Lemma inv_turns s ts : Inv s -> Inv (turns s ts).1.
Proof.
  revert s. induction ts as [|t ts IH]; intros s Hs; [done|]. cbn [turns]. pose proof (inv_turn s t Hs) as H1.
  destruct (turn s t) as [s1 es1]. specialize (IH s1 H1). by destruct (turns s1 ts).
Qed.

Lemma inv_start e s es : start e = Some (s, es) -> Inv s.
Proof.
  unfold start. destruct (s_db e) as [rs|]; [|done].
  pose proof (records_ok (s_add e) rs ([], [])) as H1. destruct (fold_left _ rs _) as [ps1 es1]. cbn [fst] in *.
  assert (H2 : table_ok (map_ports (fun p => reconcile_port p (s_time e) (s_forks e (port2 p))) ps1).1).
  { apply (map_ok (fun p => _)); [intros; by apply reconcile_ok|]. apply H1. by split; constructor. }
  unfold reconcile_video_children. destruct (map_ports _ ps1) as [ps2 es2]. cbn [fst] in *. unfold fork_cleanup_child.
  by destruct (_ <? 0); intros [= <- _].
Qed.

(** The process from its start. *)
Definition run (e : Start) (ts : list Turn) : option (Parent * list effect) :=
  match start e with
  | None => None
  | Some (s, es) => let '(s', es') := turns s ts in Some (s', es ++ es')
  end.

(** ** A reload, entry by entry *)

Implicit Types cs : list (Z * port_cfg).

(** The records that count, and the one for an entry. *)
Definition cfgs (rs : list (bytes * bytes)) : list (Z * port_cfg) := omap record_cfg rs.
Fixpoint recorded cs (p2 : Z) : option port_cfg :=
  match cs with
  | [] => None
  | (q, c) :: cs => if q =? p2 then Some c else recorded cs p2
  end.

Definition upsert_cfg (ok : Z -> sock -> bool) (st : list listen_port * list effect) (r : Z * port_cfg) :=
  let '(ps, es) := upsert_port st.1 r.1 r.2 (ok r.1) in (ps, st.2 ++ es).

Lemma fold_cfgs ok rs st : fold_left (handle_record ok) rs st = fold_left (upsert_cfg ok) (cfgs rs) st.
Proof.
  revert st. induction rs as [|r rs IH]; intros st; [done|]. cbn [fold_left cfgs omap list_omap]. unfold handle_record at 2.
  unfold cfgs in *. cbn. destruct (record_cfg r) as [[p2 c]|]; [|apply IH]. cbn [fold_left]. by rewrite IH.
Qed.

Lemma recorded_none cs (p2 : Z) : recorded cs p2 = None <-> p2 ∉ cs.*1.
Proof.
  induction cs as [|[q c] cs IH]; [split; [by intros _ ?%elem_of_nil|done]|]. cbn. rewrite not_elem_of_cons.
  destruct (Z.eqb_spec q p2) as [<-|]; [split; [done|tauto]|]. rewrite IH. split; [intros ?; split; congruence|tauto].
Qed.

(** An entry met by the records, at most once. *)
Definition updated cs (ok : Z -> sock -> bool) p : listen_port * list effect :=
  match recorded cs (port2 p) with Some c => update_port p c (ok (port2 p)) | None => (p, []) end.

Lemma update_key p c ok : port2 (update_port p c ok).1 = port2 p.
Proof. unfold update_port, open_if_idle. cbv zeta. by repeat case_match. Qed.

Lemma upsert_in ps (p2 : Z) c ok : NoDup (keys ps) -> p2 ∈ keys ps ->
  (upsert_port ps p2 c ok).1 = map (fun p => if port2 p =? p2 then (update_port p c ok).1 else p) ps
  /\ forall x, x ∈ (upsert_port ps p2 c ok).2 <-> exists p, p ∈ ps /\ port2 p = p2 /\ x ∈ (update_port p c ok).2.
Proof.
  unfold upsert_port. induction ps as [|p ps IH]; intros Hn Hin; [by apply elem_of_nil in Hin|].
  unfold keys in *. cbn [map] in *. apply list.NoDup_cons in Hn as [Hp Hn]. cbn [upsert_loop].
  destruct (Z.eqb_spec (port2 p) p2) as [<-|En].
  - assert (Eu : (update_port p c ok).1 :: map (fun p' => if port2 p' =? port2 p then (update_port p' c ok).1 else p') ps
      = (update_port p c ok).1 :: ps).
    { f_equal. erewrite map_ext_Forall; [apply map_id|]. apply list.Forall_forall. intros p' Hp'. cbn.
      destruct (Z.eqb_spec (port2 p') (port2 p)) as [E|]; [|done]. destruct Hp. apply list_elem_of_fmap. by exists p'. }
    rewrite Eu. clear Eu. destruct (update_port p c ok) as [p' es] eqn:E. cbn. split; [done|]. intros x. split.
    + intros Hx. exists p. rewrite E. split_and!; [by left|done|done].
    + intros (p2 & [->|Hin']%elem_of_cons & E2 & Hx); [by rewrite E in Hx|]. destruct Hp. rewrite <-E2. apply list_elem_of_fmap.
      by exists p2.
  - apply elem_of_cons in Hin as [?|Hin]; [congruence|]. specialize (IH Hn Hin).
    destruct (upsert_loop ps p2 c ok) as [[ps' es]|] eqn:El; [|by apply upsert_loop_none in El]. cbn [fst snd] in *.
    destruct IH as [IH1 IH2]. split; [by rewrite IH1|]. intros x. rewrite IH2. split; intros (p' & H1 & H2); exists p'.
    + split; [by right|done].
    + apply elem_of_cons in H1 as [->|H1]; [by destruct H2|by split].
Qed.

Lemma upsert_new ps (p2 : Z) c ok : p2 ∉ keys ps -> upsert_port ps p2 c ok = (open_sockets (new_port p2 c) ok :: ps, []).
Proof. intros Hn. unfold upsert_port. by rewrite (proj2 (upsert_loop_none ps p2 c ok) Hn). Qed.

(** What a reload adds. *)
Definition added cs ok ps p : Prop :=
  (port2 p ∉ keys ps) /\ exists c, recorded cs (port2 p) = Some c /\ p = open_sockets (new_port (port2 p) c) (ok (port2 p)).

(** Where the records take the table [ps]: the entries [r]. *)
Definition folded cs ok ps es0 (r : list listen_port * list effect) : Prop := exists news es,
  r = (news ++ map (fun p => (updated cs ok p).1) ps, es0 ++ es)
  /\ Forall (added cs ok ps) news
  /\ (forall (p2 : Z), p2 ∈ cs.*1 -> p2 ∈ keys ps \/ p2 ∈ keys news)
  /\ (forall e, e ∈ es <-> exists p, p ∈ ps /\ e ∈ (updated cs ok p).2).

Lemma updated_cons q c cs ok p :
  updated ((q, c) :: cs) ok p = if port2 p =? q then update_port p c (ok q) else updated cs ok p.
Proof. unfold updated. cbn [recorded]. rewrite (Z.eqb_sym q). by destruct (Z.eqb_spec (port2 p) q) as [<-|]. Qed.

Lemma added_cons q c cs ok ps p : port2 p <> q -> added cs ok ps p -> added ((q, c) :: cs) ok ps p.
Proof.
  intros Hq [Hp (c' & Hc & Ep)]. split; [done|]. exists c'. split; [|done]. cbn [recorded]. by destruct (Z.eqb_spec q (port2 p)).
Qed.

(** A record for an entry of the table. *)
Lemma folded_update ok q c cs ps es0 es1 r :
  q ∈ keys ps -> q ∉ cs.*1 ->
  (forall e, e ∈ es1 <-> exists p, p ∈ ps /\ port2 p = q /\ e ∈ (update_port p c (ok q)).2) ->
  folded cs ok (map (fun p => if port2 p =? q then (update_port p c (ok q)).1 else p) ps) (es0 ++ es1) r ->
  folded ((q, c) :: cs) ok ps es0 r.
Proof.
  intros Hin Hq He. set (ps1 := map _ ps). intros (news & es & -> & H1 & H2 & H3). apply recorded_none in Hq.
  assert (Ek : keys ps1 = keys ps).
  { unfold keys, ps1. rewrite map_map. apply map_ext. intros p. case_match; [apply update_key|done]. }
  assert (Eu : forall p, updated cs ok (if port2 p =? q then (update_port p c (ok q)).1 else p)
    = if port2 p =? q then ((update_port p c (ok q)).1, []) else updated cs ok p).
  { intros p. destruct (Z.eqb_spec (port2 p) q) as [<-|]; [|done]. unfold updated. by rewrite update_key, Hq. }
  exists news, (es1 ++ es). split_and!.
  - rewrite <-app_assoc. do 2 f_equal. unfold ps1. rewrite map_map. apply map_ext. intros p. rewrite Eu, updated_cons.
    by destruct (port2 p =? q).
  - apply (list.Forall_impl _ _ _ H1). intros p [Hp Hc]. rewrite Ek in Hp. apply added_cons; [congruence|by split].
  - intros p2 Hp. cbn in Hp. apply elem_of_cons in Hp as [->|Hp]; [by left|]. rewrite <-Ek. by apply H2.
  - intros e. rewrite elem_of_app, He, H3. split.
    + intros [(p & Hp & <- & Hu)|(p' & Hp' & Hu)]; [exists p; by rewrite updated_cons, Z.eqb_refl|].
      apply list_elem_of_fmap in Hp' as (p & -> & Hp). exists p. split; [done|].
      rewrite Eu in Hu. rewrite updated_cons. destruct (port2 p =? q); [by apply elem_of_nil in Hu|done].
    + intros (p & Hp & Hu). rewrite updated_cons in Hu. destruct (Z.eqb_spec (port2 p) q) as [Eq|Nq]; [left; by exists p|].
      right. exists p. split; [|done]. apply list_elem_of_fmap. exists p. split; [|done]. by apply Z.eqb_neq in Nq as ->.
Qed.

(** A record for a new one. *)
Lemma folded_add ok q c cs ps es0 r :
  q ∉ keys ps -> q ∉ cs.*1 -> folded cs ok (open_sockets (new_port q c) (ok q) :: ps) es0 r -> folded ((q, c) :: cs) ok ps es0 r.
Proof.
  intros Hout Hq. set (n := open_sockets (new_port q c) (ok q)). intros (news & es & -> & H1 & H2 & H3). apply recorded_none in Hq.
  assert (En : updated cs ok n = (n, [])) by (unfold updated; change (port2 n) with q; by rewrite Hq).
  assert (Eu : forall p, p ∈ ps -> updated ((q, c) :: cs) ok p = updated cs ok p).
  { intros p Hp. rewrite updated_cons. destruct (Z.eqb_spec (port2 p) q) as [<-|]; [|done]. destruct Hout.
    apply list_elem_of_fmap. by exists p. }
  exists (news ++ [n]), es. split_and!.
  - rewrite <-app_assoc. cbn [map]. rewrite En. cbn [app fst]. do 3 f_equal. apply map_ext_Forall, list.Forall_forall.
    intros p Hp. by rewrite (Eu p Hp).
  - apply list.Forall_app. split.
    + apply (list.Forall_impl _ _ _ H1). intros p [Hp Hc]. unfold keys in Hp. cbn [map] in Hp.
      apply not_elem_of_cons in Hp as [Hp1 Hp2]. by apply added_cons.
    + repeat constructor; [done|]. exists c. split; [|done]. cbn. by rewrite Z.eqb_refl.
  - intros p2 Hp. unfold keys in *. rewrite map_app. cbn in Hp. cbn [map] in *.
    apply elem_of_cons in Hp as [->|Hp]; [right; apply elem_of_app; right; by left|].
    destruct (H2 p2 Hp) as [Hk|Hk]; [|right; apply elem_of_app; by left].
    apply elem_of_cons in Hk as [->|Hk]; [right; apply elem_of_app; right; by left|by left].
  - intros e. rewrite H3. split; intros (p & Hp & Hu).
    + apply elem_of_cons in Hp as [->|Hp]; [rewrite En in Hu; by apply elem_of_nil in Hu|]. exists p. by rewrite (Eu p Hp).
    + exists p. rewrite <-(Eu p Hp). split; [by right|done].
Qed.

Lemma fold_spec ok cs ps es0 : NoDup cs.*1 -> NoDup (keys ps) -> folded cs ok ps es0 (fold_left (upsert_cfg ok) cs (ps, es0)).
Proof.
  revert ps es0. induction cs as [|[q c] cs IH]; intros ps es0 Hc Hn.
  { exists [], []. rewrite app_nil_r. cbn. rewrite map_id. split_and!; [done|constructor|by intros ? ?%elem_of_nil|].
    intros e'. split; [by intros ?%elem_of_nil|by intros (? & _ & ?%elem_of_nil)]. }
  cbn [fold_left]. unfold upsert_cfg at 2. cbn [fst snd]. cbn in Hc. apply list.NoDup_cons in Hc as [Hq Hc].
  destruct (decide (q ∈ keys ps)) as [Hin|Hout].
  - destruct (upsert_in ps q c (ok q) Hn Hin) as [E1 E2]. destruct (upsert_port ps q c (ok q)) as [ps1 es1]. cbn [fst snd] in *.
    apply (folded_update ok q c cs ps es0 es1); [done|done|done|]. rewrite <-E1. apply IH; [done|]. rewrite E1. unfold keys.
    rewrite map_map. erewrite map_ext; [exact Hn|]. intros p. cbn. case_match; [apply update_key|done].
  - rewrite (upsert_new ps q c (ok q) Hout), app_nil_r. apply folded_add; [done|done|]. apply IH; [done|by constructor].
Qed.

Definition unseen p : listen_port := p <| seen := false |>.
Definition cfg_of p : port_cfg := {|
  c_port1 := port1 p; c_flags := flags p; c_fc_sysid := fc_sysid p; c_tz := tz_offset_hours p;
  c_video_ports := video_ports p; c_video_flags := video_flags p; c_video_flags_hi := video_flags_hi p |}.

(** The rest of a reload, for one entry. *)
Definition back e p : listen_port := reopen (retire p).1 (re_open e (port2 p)).
Definition finish e p : listen_port := (reconcile_port (back e p) (re_time e) (re_forks e (port2 p))).1.

Lemma retire_key p : port2 (retire p).1 = port2 p.
Proof. unfold retire. by destruct (_ && _). Qed.
Lemma back_key e p : port2 (back e p) = port2 p.
Proof. unfold back, reopen. rewrite <-(retire_key p). by destruct (_ && _). Qed.

Lemma reload_entries ps e rs : re_db e = Some rs -> NoDup (cfgs rs).*1 -> NoDup (keys ps) ->
  let cs := cfgs rs in
  exists news, let ps1 := news ++ map (fun p => (updated cs (re_add e) (unseen p)).1) ps in
  Forall (added cs (re_add e) ps) news
  /\ (forall (p2 : Z), p2 ∈ cs.*1 -> p2 ∈ keys ps \/ p2 ∈ keys news)
  /\ (reload_ports ps e).1 = map (finish e) ps1
  /\ forall x, x ∈ (reload_ports ps e).2 <->
       (exists p, p ∈ ps /\ x ∈ (updated cs (re_add e) (unseen p)).2)
       \/ exists p, p ∈ ps1 /\ (x ∈ (retire p).2 \/ x ∈ (reconcile_port (back e p) (re_time e) (re_forks e (port2 p))).2).
Proof.
  intros Edb Hc Hn. cbv zeta. unfold reload_ports. rewrite Edb, fold_cfgs.
  assert (Ek : keys (map unseen ps) = keys ps) by (unfold keys; by rewrite map_map).
  destruct (fold_spec (re_add e) (cfgs rs) (map unseen ps) []) as (news & es & E & H1 & H2 & H3); [done|by rewrite Ek|].
  unfold unseen in E at 1. rewrite E. clear E. exists news.
  rewrite map_map. set (ps1 := news ++ _). cbn [app]. unfold map_ports, reconcile_video_children. cbn [fst snd].
  split_and!.
  - apply (list.Forall_impl _ _ _ H1). unfold added. by rewrite Ek.
  - intros p2. rewrite <-Ek. apply H2.
  - unfold map_ports. cbn [fst]. rewrite !map_map. apply map_ext. intros p. unfold finish, back. rewrite retire_key.
    assert (Eb := back_key e p). unfold back in Eb. by rewrite Eb.
  - intros x. unfold map_ports. cbn [snd]. rewrite !elem_of_app, H3, !map_map, !list_elem_of_In, !in_flat_map. split.
    + intros [(p' & Hp' & Hu)|[(p & Hp & Hx)|(p' & Hp' & Hx)]].
      * apply list_elem_of_fmap in Hp' as (p & -> & Hp). left. by exists p.
      * right. exists p. rewrite !list_elem_of_In. tauto.
      * apply in_map_iff in Hp' as (p & <- & Hp). right. exists p. rewrite !list_elem_of_In. rewrite retire_key in Hx.
        assert (Eb := back_key e p). unfold back in *. rewrite Eb in Hx. tauto.
    + intros [(p & Hp & Hu)|(p & Hp & [Hx|Hx])].
      * left. exists (unseen p). split; [|done]. apply list_elem_of_fmap. by exists p.
      * right. left. exists p. rewrite !list_elem_of_In in *. done.
      * right. right. exists (back e p). rewrite !list_elem_of_In in *. rewrite back_key. split; [|done].
        apply in_map_iff. exists p. split; [unfold back; by rewrite retire_key|done].
Qed.

Lemma update_recorded p c ok : let p' := (update_port p c ok).1 in seen p' = true /\ removed p' = false /\ cfg_of p' = c.
Proof.
  cbv zeta. unfold update_port. cbv zeta. set (p1 := set_video (p <| seen := true |>) c). assert (Hs : seen p1 = true) by done.
  assert (Hc : forall p', port1 p' = c_port1 c -> video_ports p' = video_ports p1 -> video_flags p' = video_flags p1 ->
    video_flags_hi p' = video_flags_hi p1 -> cfg_of (set_policy p' c) = c).
  { intros p' E1 E2 E3 E4. unfold cfg_of. cbn. rewrite E1, E2, E3, E4. by destruct c. }
  assert (Hi : forall p' ok', cfg_of (open_if_idle p' ok') = cfg_of p' /\ seen (open_if_idle p' ok') = seen p' /\
    removed (open_if_idle p' ok') = removed p') by (intros p' ok'; unfold open_if_idle; by destruct (pid p' =? 0)).
  destruct (removed p1) eqn:Er; [cbn [fst]; destruct (Hi (set_policy (p1 <| removed := false |> <| port1 := c_port1 c |>) c) ok) as (-> & -> & ->);
    split_and!; [done..|by apply Hc]|].
  destruct (Z.eqb_spec (port1 p1) (c_port1 c)) as [E|E]; cbn [negb fst]; [split_and!; [done..|by apply Hc]|].
  destruct (Hi (set_policy (close_sockets p1 <| port1 := c_port1 c |>) c) ok) as (-> & -> & ->). split_and!; [done..|by apply Hc].
Qed.

Lemma back_recorded e p : seen p = true -> removed p = false -> let p' := back e p in
  removed p' = false /\ cfg_of p' = cfg_of p /\ pid p' = pid p /\ video_pid p' = video_pid p
  /\ (port_ok p -> port_ok p' /\ (pid p = 0 -> forall w, re_open e (port2 p) w = true -> is_open p' w = true)).
Proof.
  intros Hs Hr. cbv zeta. unfold back, retire. rewrite Hs. cbn [negb andb fst]. unfold reopen. rewrite Hr.
  destruct (Z.eqb_spec (pid p) 0) as [E|E]; [|done]. cbn [negb andb]. split_and!; try done. intros Hp. split; [by apply open_ok|].
  intros _ w Hw. unfold is_open. rewrite open_bound, Hw. by destruct (bound p w).
Qed.

Lemma back_unrecorded e p : seen p = false -> port_ok p -> let p' := back e p in
  removed p' = true /\ pid p' = pid p /\ video_pid p' = video_pid p /\ forall w, is_open p' w = false.
Proof.
  intros Hs Hp. cbv zeta. unfold back, retire. rewrite Hs. cbn [negb andb]. destruct (removed p) eqn:Er; cbn [negb fst].
  - unfold reopen. rewrite Er, andb_false_r. split_and!; try done. apply Hp. by right.
  - unfold reopen. cbn. rewrite andb_false_r. split_and!; try done. apply closed.
Qed.

Lemma reconcile_cfg p now fork : cfg_of (reconcile_port p now fork).1 = cfg_of p.
Proof. unfold reconcile_port, fork_video_child. by repeat case_match. Qed.

(** ** What a reload makes of keys.tdb *)

(** What is open is bound to the entry's own ports, and whatever can be bound is open. *)
Definition listens p (ok : sock -> bool) : Prop :=
  forall w, (forall n, bound p w = Some n -> n = port_for p w) /\ (ok w = true -> bound p w = Some (port_for p w)).

(** The entry is live, configured as recorded and, without a session, listening on its recorded
    ports wherever it can bind. *)
Definition answers p (c : port_cfg) (ok : sock -> bool) : Prop :=
  removed p = false /\ cfg_of p = c /\ (pid p = 0 -> listens p ok).

Definition off p : Prop := removed p = true /\ forall w, is_open p w = false.

(** The table mirrors the database: one entry per port, answering when it is recorded and off
    when it is not. *)
Definition mirrors cs (ok : Z -> sock -> bool) ps : Prop :=
  NoDup (keys ps) /\ forall (p2 : Z),
    match recorded cs p2 with
    | Some c => exists p, p ∈ ps /\ port2 p = p2 /\ answers p c (ok p2)
    | None => forall p, p ∈ ps -> port2 p = p2 -> off p
    end.

Lemma open_listens p (ok : sock -> bool) : port_ok p -> (forall w, ok w = true -> is_open p w = true) -> listens p ok.
Proof.
  intros [_ Hb] Ho w. split; [apply Hb|]. intros Hw%Ho. unfold is_open in Hw. destruct (bound p w) as [n|] eqn:E; [|done].
  by rewrite (Hb w n E).
Qed.

Lemma finish_recorded e p : seen p = true -> removed p = false -> port_ok p ->
  port2 (finish e p) = port2 p /\ pid (finish e p) = pid p /\ answers (finish e p) (cfg_of p) (re_open e (port2 p)).
Proof.
  intros Hs Hr Hpo. destruct (back_recorded e p Hs Hr) as (H1 & H2 & H3 & _ & H5). destruct (H5 Hpo) as [Hpb H6]. unfold finish.
  destruct (reconcile_same (back e p) (re_time e) (re_forks e (port2 p))) as (E1 & E2 & E3 & _ & E5).
  unfold answers. rewrite reconcile_cfg, E1, E2, E3, back_key, H3. split_and!; try done. intros Hp.
  apply open_listens; [by apply reconcile_ok|]. intros w Hw. rewrite (open_same (back e p)) by done. by apply H6.
Qed.

Lemma finish_unrecorded e p : seen p = false -> port_ok p ->
  port2 (finish e p) = port2 p /\ pid (finish e p) = pid p /\ off (finish e p).
Proof.
  intros Hs Hp. destruct (back_unrecorded e p Hs Hp) as (H1 & H2 & _ & H4). unfold finish.
  destruct (reconcile_same (back e p) (re_time e) (re_forks e (port2 p))) as (E1 & E2 & E3 & _ & E5).
  unfold off. rewrite E1, E2, E3, back_key. split_and!; try done. intros w. by rewrite (open_same (back e p)).
Qed.

Lemma updated_finish e cs p : port_ok p ->
  let p' := finish e (updated cs (re_add e) (unseen p)).1 in
  port2 p' = port2 p /\ pid p' = pid p
  /\ match recorded cs (port2 p) with Some c => answers p' c (re_open e (port2 p)) | None => off p' end.
Proof.
  intros Hp. cbv zeta. unfold updated. change (port2 (unseen p)) with (port2 p). destruct (recorded cs (port2 p)) as [c|].
  - destruct (update_recorded (unseen p) c (re_add e (port2 p))) as (H1 & H2 & H3).
    destruct (update_port_tracks (unseen p) c (re_add e (port2 p))) as (_ & H4 & _).
    destruct (finish_recorded e _ H1 H2) as (H5 & H6 & H7); [by apply update_port_ok, (port_ok_same p)|]. rewrite H5, H6, H4. rewrite H3, update_key in H7. by rewrite update_key.
  - by apply (finish_unrecorded e (unseen p)).
Qed.

Lemma added_finish e cs ps p : added cs (re_add e) ps p ->
  exists c, recorded cs (port2 p) = Some c /\ port2 (finish e p) = port2 p /\ answers (finish e p) c (re_open e (port2 p)).
Proof.
  intros [_ (c & Hc & Ep)]. exists c. split; [done|].
  assert (H : seen p = true /\ removed p = false /\ cfg_of p = c) by (rewrite Ep; by destruct c). destruct H as (H1 & H2 & H3).
  destruct (finish_recorded e p H1 H2) as (H5 & _ & H7); [rewrite Ep; by apply open_ok, new_port_ok|]. split; [done|]. by rewrite <-H3.
Qed.

Lemma reload_mirrors_aux ps e rs :
  table_ok ps -> re_db e = Some rs -> NoDup (cfgs rs).*1 ->
  mirrors (cfgs rs) (re_open e) (reload_ports ps e).1
  /\ forall p, p ∈ ps -> exists p', p' ∈ (reload_ports ps e).1 /\ port2 p' = port2 p /\ pid p' = pid p
     /\ match recorded (cfgs rs) (port2 p) with Some c => answers p' c (re_open e (port2 p)) | None => off p' end.
Proof.
  intros Ht Edb Hc. destruct Ht as [Hk Hp]. destruct (reload_entries ps e rs Edb Hc Hk) as (news & H1 & H2 & E & _).
  assert (Hold : forall p, p ∈ ps -> exists p', p' ∈ (reload_ports ps e).1 /\ port2 p' = port2 p /\ pid p' = pid p
     /\ match recorded (cfgs rs) (port2 p) with Some c => answers p' c (re_open e (port2 p)) | None => off p' end).
  { intros p Hin. exists (finish e (updated (cfgs rs) (re_add e) (unseen p)).1). split; [|].
    - rewrite E. apply list_elem_of_fmap. eexists. split; [done|]. apply elem_of_app. right. apply list_elem_of_fmap. by exists p.
    - apply updated_finish. by apply (list.Forall_forall _ ps). }
  split; [|done]. split; [by apply reload_ports_ok|]. intros p2. destruct (recorded (cfgs rs) p2) as [c|] eqn:Er.
  - assert (Hin : p2 ∈ (cfgs rs).*1) by (destruct (decide (p2 ∈ (cfgs rs).*1)) as [|Hn]; [done|by apply recorded_none in Hn; rewrite Hn in Er]).
    destruct (H2 p2 Hin) as [(p & -> & Hps)%list_elem_of_fmap|(p & -> & Hps)%list_elem_of_fmap].
    + destruct (Hold p Hps) as (p' & G1 & G2 & _ & G3). rewrite Er in G3. by exists p'.
    + destruct (added_finish e (cfgs rs) ps p) as (c' & G1 & G2 & G3); [by apply (list.Forall_forall _ news)|].
      assert (c' = c) as -> by congruence. exists (finish e p). split; [|done]. rewrite E. apply list_elem_of_fmap. exists p.
      split; [done|]. apply elem_of_app. by left.
  - intros p' Hp' E2. rewrite E in Hp'. apply list_elem_of_fmap in Hp' as (p1 & -> & [Hn|Ho]%elem_of_app).
    + destruct (added_finish e (cfgs rs) ps p1) as (c' & G1 & G2 & G3); [by apply (list.Forall_forall _ news)|]. congruence.
    + apply list_elem_of_fmap in Ho as (p & -> & Hps).
      destruct (updated_finish e (cfgs rs) p) as (G1 & _ & G3); [by apply (list.Forall_forall _ ps)|]. rewrite <-E2, G1 in Er. by rewrite Er in G3.
Qed.

(** ** Whom a reload signals *)

(** A record of its own ends a session only by moving port 1, and a video child only by a change
    of its configuration or by no longer wanting one; no record ends both. *)
Definition kill_cause cs p (q : Z) : Prop :=
  match recorded cs (port2 p) with
  | None => (q = pid p /\ removed p = false) \/ q = video_pid p
  | Some c =>
    (q = pid p /\ removed p = false /\ port1 p <> c_port1 c)
    \/ (q = video_pid p /\ (video_cfg_differs p c = true \/ video_entry_wants_child (c_flags c) (c_video_ports c) = false))
  end.

Lemma kill_if (b : bool) q z : Kill q ∈ (if b then [] else [Kill z]) <-> b = false /\ q = z.
Proof.
  destruct b; [split; [by intros ?%elem_of_nil|by intros []]|]. rewrite list_elem_of_singleton. split; [intros [= ->]; done|].
  by intros [_ ->].
Qed.

Lemma kill_stop p q : Kill q ∈ video_stop_child p <-> video_pid p <> 0 /\ q = video_pid p.
Proof. unfold video_stop_child. rewrite kill_if, Z.eqb_neq. done. Qed.

Lemma update_kills p c ok q : Kill q ∈ (update_port (unseen p) c ok).2 <->
  q <> 0 /\ ((q = pid p /\ removed p = false /\ port1 p <> c_port1 c) \/ (q = video_pid p /\ video_cfg_differs p c = true)).
Proof.
  unfold update_port. cbv zeta. change (video_stop_child (unseen p <| seen := true |>)) with (video_stop_child p).
  change (video_cfg_differs (unseen p <| seen := true |>) c) with (video_cfg_differs p c).
  set (p1 := set_video _ c). change (removed p1) with (removed p). change (port1 p1) with (port1 p).
  change (pid (close_sockets p1)) with (pid p).
  assert (Hs : Kill q ∈ (if video_cfg_differs p c then video_stop_child p else []) <-> q <> 0 /\ q = video_pid p /\ video_cfg_differs p c = true).
  { destruct (video_cfg_differs p c); [rewrite kill_stop; intuition congruence|]. split; [by intros ?%elem_of_nil|by intros (_ & _ & ?)]. }
  destruct (removed p) eqn:Er; cbn [snd]; [rewrite Hs; intuition congruence|].
  destruct (Z.eqb_spec (port1 p) (c_port1 c)) as [E|E]; cbn [negb snd]; [rewrite Hs; intuition congruence|].
  rewrite elem_of_app, Hs, kill_if, Z.eqb_neq. intuition congruence.
Qed.

Lemma retire_kills p q : Kill q ∈ (retire p).2 <->
  q <> 0 /\ seen p = false /\ removed p = false /\ (q = pid p \/ q = video_pid p).
Proof.
  unfold retire. destruct (seen p), (removed p); cbn [negb andb snd];
    try (split; [by intros ?%elem_of_nil|intros (_ & ? & ? & _); done]).
  rewrite !elem_of_app, kill_if, Z.eqb_neq, kill_stop, list_elem_of_singleton. intuition congruence.
Qed.

Lemma reconcile_kills p now fork q : Kill q ∈ (reconcile_port p now fork).2 <->
  q <> 0 /\ wants_video p = false /\ q = video_pid p.
Proof.
  unfold reconcile_port. destruct (wants_video p && _ && _) eqn:E; [|clear E].
  - apply andb_true_iff in E as [[Ew _]%andb_true_iff _]. rewrite Ew. split; [|by intros (_ & ? & _)]. unfold fork_video_child.
    intros H. exfalso. repeat case_match; cbn in H; try by apply elem_of_nil in H. by apply list_elem_of_singleton in H.
  - destruct (wants_video p); cbn [negb andb]; [split; [by intros ?%elem_of_nil|by intros (_ & ? & _)]|].
    destruct (Z.eqb_spec (video_pid p) 0); cbn [negb snd]; [split; [by intros ?%elem_of_nil|intuition congruence]|].
    rewrite kill_stop. intuition congruence.
Qed.

(** The later steps of a reload, on an entry the records have been through. *)
Lemma later_kills e p q : port_ok p ->
  (Kill q ∈ (retire p).2 \/ Kill q ∈ (reconcile_port (back e p) (re_time e) (re_forks e (port2 p))).2) <->
  q <> 0 /\ if seen p
            then q = video_pid p /\ wants_video (back e p) = false
            else (q = pid p /\ removed p = false) \/ q = video_pid p.
Proof.
  intros Hp. rewrite retire_kills, reconcile_kills. destruct (seen p) eqn:Es.
  - assert (Hv : video_pid (back e p) = video_pid p).
    { unfold back, retire. rewrite Es. cbn [negb andb fst]. unfold reopen. by destruct (_ && _). }
    rewrite Hv. intuition congruence.
  - destruct (back_unrecorded e p Es Hp) as (H1 & _ & H3 & _). unfold wants_video at 1. rewrite H1, H3.
    destruct (removed p); intuition congruence.
Qed.

Lemma reload_kills_aux ps e rs q :
  table_ok ps -> re_db e = Some rs -> NoDup (cfgs rs).*1 ->
  Kill q ∈ (reload_ports ps e).2 <-> q <> 0 /\ exists p, p ∈ ps /\ kill_cause (cfgs rs) p q.
Proof.
  intros [Hk Hp] Edb Hc. destruct (reload_entries ps e rs Edb Hc Hk) as (news & H1 & _ & _ & H4). rewrite H4. clear H4.
  assert (Hq : forall p, p ∈ ps ->
    (Kill q ∈ (updated (cfgs rs) (re_add e) (unseen p)).2
     \/ let p1 := (updated (cfgs rs) (re_add e) (unseen p)).1 in
        Kill q ∈ (retire p1).2 \/ Kill q ∈ (reconcile_port (back e p1) (re_time e) (re_forks e (port2 p1))).2)
    <-> q <> 0 /\ kill_cause (cfgs rs) p q).
  { intros p Hin. assert (Hpp : port_ok p) by by apply (list.Forall_forall _ ps). cbv zeta. rewrite later_kills.
    2: { unfold updated. case_match; [by apply update_port_ok|by apply (port_ok_same p)]. }
    unfold updated, kill_cause. change (port2 (unseen p)) with (port2 p). destruct (recorded (cfgs rs) (port2 p)) as [c|].
    - rewrite update_kills. destruct (update_recorded (unseen p) c (re_add e (port2 p))) as (G1 & G2 & G3). rewrite G1.
      destruct (update_port_tracks (unseen p) c (re_add e (port2 p))) as (_ & _ & G5). rewrite G5. change (video_pid (unseen p)) with (video_pid p).
      destruct (back_recorded e _ G1 G2) as (K1 & K2 & _). unfold wants_video. rewrite K1. rewrite G3 in K2.
      rewrite (f_equal c_flags K2 : flags (back e _) = _), (f_equal c_video_ports K2 : video_ports (back e _) = _). cbn [negb andb]. tauto.
    - cbn [fst snd]. change (seen (unseen p)) with false. cbv iota. change (pid (unseen p)) with (pid p).
      change (video_pid (unseen p)) with (video_pid p). change (removed (unseen p)) with (removed p). rewrite elem_of_nil. tauto. }
  split.
  - intros [(p & Hin & Hu)|(p1 & [Hn|Ho]%elem_of_app & Hl)].
    + destruct (Hq p Hin) as [G _]. destruct (G (or_introl Hu)). split; [done|by exists p].
    + exfalso. destruct (proj1 (list.Forall_forall _ news) H1 p1 Hn) as [_ (c & _ & Ep)].
      assert (Hz : seen p1 = true /\ video_pid p1 = 0 /\ pid p1 = 0 /\ removed p1 = false) by by rewrite Ep. destruct Hz as (Z1 & Z2 & Z3 & Z4).
      rewrite later_kills in Hl by (rewrite Ep; by apply open_ok, new_port_ok). rewrite Z1, Z2 in Hl. tauto.
    + apply list_elem_of_fmap in Ho as (p & -> & Hin). destruct (Hq p Hin) as [G _]. destruct (G (or_intror Hl)). split; [done|by exists p].
  - intros (Hz & p & Hin & Hcause). destruct (proj2 (Hq p Hin) (conj Hz Hcause)) as [Hu|Hl]; [left; by exists p|right].
    eexists. split; [|exact Hl]. apply elem_of_app. right. apply list_elem_of_fmap. by exists p.
Qed.

(** What [tdb_traverse] gives: each key once. *)
Definition records_ok_db (rs : list (bytes * bytes)) : Prop := NoDup rs.*1 /\ Forall (fun r => bytes_ok r.1) rs.

Lemma record_cfg_key r q c : bytes_ok r.1 -> record_cfg r = Some (q, c) -> r.1 = int_bytes q.
Proof.
  unfold record_cfg. intros Hb. destruct (_ || _) eqn:E; [done|]. intros [= <- _]. apply orb_false_iff in E as [E%negb_false_iff%Z.eqb_eq _].
  symmetry. apply int_bytes_int_val; [done|]. apply Nat2Z.inj. exact E.
Qed.

Lemma cfgs_nodup rs : records_ok_db rs -> NoDup (cfgs rs).*1.
Proof.
  intros [Hn Hb]. induction Hb as [|r rs Hr Hb IH]; [constructor|]. cbn in Hn. apply list.NoDup_cons in Hn as [Hk Hn].
  specialize (IH Hn). unfold cfgs in *. cbn. destruct (record_cfg r) as [[q c]|] eqn:E; [|done]. cbn. constructor; [|done].
  intros (x & Ex & Hx)%list_elem_of_fmap. apply list_elem_of_omap in Hx as (r' & Hr' & Er'). destruct x as [q' c']. cbn in Ex. subst q'.
  apply Hk, list_elem_of_fmap. exists r'. split; [|done]. rewrite (record_cfg_key r q c Hr E).
  symmetry. apply (record_cfg_key r' q c'); [|done]. by apply (proj1 (list.Forall_forall _ rs) Hb).
Qed.

(** ** A session's end *)

Definition freed s (p2 : Z) : Prop := exists p, p ∈ ports s /\ port2 p = p2 /\ pid p = 0.

Lemma reap_port_frees ps gone now ok p :
  NoDup (kids ps) -> p ∈ ps -> pid p = gone -> gone <> 0 -> let r := reap_port ps gone now ok in
  r.2 = true /\ exists p', p' ∈ r.1.1 /\ port2 p' = port2 p /\ pid p' = 0.
Proof.
  intros Hn Hin E Hz. cbv zeta. induction ps as [|h ps IH]; [by apply elem_of_nil in Hin|]. unfold kids in Hn. cbn [flat_map] in Hn.
  apply nodup_app_l in Hn as (Hh & Hn & Hd). cbn [reap_port]. apply elem_of_cons in Hin as [<-|Hin].
  - destruct (Z.eqb_spec (video_pid p) gone) as [Ev|_].
    + exfalso. unfold kids_of in Hh. rewrite Ev, E in Hh. unfold nonzero in Hh. rewrite !filter_cons_True in Hh by done.
      apply list.NoDup_cons in Hh as [Hh _]. apply Hh. by left.
    + rewrite E, Z.eqb_refl. split; [done|]. eexists. split; [by left|]. by destruct (removed _).
  - assert (Hg : gone ∉ kids_of h).
    { intros Hg. apply (Hd _ Hg). unfold kids. apply list_elem_of_In, in_flat_map. exists p. rewrite <-!list_elem_of_In.
      split; [done|]. rewrite <-E. apply pid_kid. by rewrite E. }
    destruct (Z.eqb_spec (video_pid h) gone) as [Ev|_]; [destruct Hg; rewrite <-Ev; apply video_kid; by rewrite Ev|].
    destruct (Z.eqb_spec (pid h) gone) as [Ep|_]; [destruct Hg; rewrite <-Ep; apply pid_kid; by rewrite Ep|].
    destruct (IH Hn Hin) as (H1 & p' & H2 & H3). destruct (reap_port ps gone now ok) as [[ps' es] r]. split; [done|].
    exists p'. split; [by right|done].
Qed.

Lemma reap_port_keeps ps gone now ok p : p ∈ ps -> pid p <> gone ->
  exists p', p' ∈ (reap_port ps gone now ok).1.1 /\ port2 p' = port2 p /\ pid p' = pid p.
Proof.
  intros Hin Hne. induction ps as [|h ps IH]; [by apply elem_of_nil in Hin|]. cbn [reap_port]. apply elem_of_cons in Hin as [<-|Hin].
  - destruct (video_pid p =? gone); [eexists; split; [by left|done]|]. apply Z.eqb_neq in Hne as ->.
    destruct (reap_port ps gone now ok) as [[ps' es] r]. exists p. split; [by left|done].
  - destruct (video_pid h =? gone); [exists p; split; [by right|done]|].
    destruct (pid h =? gone); [exists p; split; [by right|done]|].
    destruct (IH Hin) as (p' & H2 & H3). destruct (reap_port ps gone now ok) as [[ps' es] r]. exists p'. split; [by right|done].
Qed.

Lemma check_child_ports s r : r_pid r <> cleanup_child_pid s ->
  ports (check_child s r).1.1 = (reap_port (ports s) (r_pid r) (r_now r) (r_open r)).1.1
  /\ (check_child s r).2 = (reap_port (ports s) (r_pid r) (r_now r) (r_open r)).2.
Proof.
  intros Hne. unfold check_child. apply Z.eqb_neq in Hne as ->. by destruct (reap_port _ _ _ _) as [[ps es] b].
Qed.

Lemma check_child_cleaner s r : r_pid r = cleanup_child_pid s -> ports (check_child s r).1.1 = ports s.
Proof. intros E. unfold check_child, fork_cleanup_child. rewrite E, Z.eqb_refl. by destruct (_ <? 0). Qed.

Lemma check_child_keeps s r p : p ∈ ports s -> pid p <> r_pid r ->
  exists p', p' ∈ ports (check_child s r).1.1 /\ port2 p' = port2 p /\ pid p' = pid p.
Proof.
  intros Hin Hne. destruct (decide (r_pid r = cleanup_child_pid s)) as [E|E].
  - rewrite check_child_cleaner by done. by exists p.
  - destruct (check_child_ports s r E) as [-> _]. by apply reap_port_keeps.
Qed.

Lemma check_children_freed s rs (p2 : Z) : (forall r, r ∈ rs -> r_pid r <> 0) -> freed s p2 -> freed (check_children s rs).1.1 p2.
Proof.
  revert s. induction rs as [|r rs IH]; intros s Hr Hf; [done|]. cbn [check_children].
  assert (H1 : freed (check_child s r).1.1 p2).
  { destruct Hf as (p & Hin & E & Ez). destruct (check_child_keeps s r p Hin) as (p' & G1 & G2 & G3).
    - rewrite Ez. apply not_eq_sym, Hr. by left.
    - exists p'. split_and!; [done|congruence|congruence]. }
  destruct (check_child s r) as [[s1 es1] b1]. specialize (IH s1 (fun r' Hr' => Hr r' (list_elem_of_further _ _ _ Hr')) H1).
  by destruct (check_children s1 rs) as [[s2 es2] b2].
Qed.

(** What a kernel reaps is a child, so not 0. *)
Lemma reaped_nonzero s rs alive : accounts s alive -> kernel_ok alive (check_children s rs).1.2 -> forall r, r ∈ rs -> r_pid r <> 0.
Proof.
  revert s alive. induction rs as [|r0 rs IH]; intros s alive Ha Hk r Hr; [by apply elem_of_nil in Hr|]. cbn [check_children] in Hk.
  pose proof (check_child_moves s r0) as Hm.
  assert (Hd : exists es, (check_child s r0).1.2 = Reaped (r_pid r0) :: es).
  { unfold check_child, fork_cleanup_child. destruct (_ =? _); [destruct (_ <? 0); by eexists|].
    destruct (reap_port _ _ _ _) as [[??]?]. by eexists. }
  destruct Hd as (es & Hd). destruct (check_child s r0) as [[s1 es1] b1]. cbn [fst snd] in *. specialize (IH s1).
  destruct (check_children s1 rs) as [[s2 es2] b2]. cbn [fst snd] in *. apply kernel_app in Hk as [Hk1 Hk2].
  destruct (Hm alive Ha Hk1) as [_ Ha1]. apply elem_of_cons in Hr as [->|Hr]; [|by apply (IH _ Ha1 Hk2)].
  rewrite Hd in Hk1. destruct Hk1 as [Hk1 _]. by apply (nonzero_alive s alive).
Qed.

Lemma check_children_frees s rs alive p :
  accounts s alive -> kernel_ok alive (check_children s rs).1.2 -> p ∈ ports s -> pid p <> 0 -> pid p ∈ map r_pid rs ->
  (check_children s rs).2 = true /\ freed (check_children s rs).1.1 (port2 p).
Proof.
  revert s alive p. induction rs as [|r rs IH]; intros s alive p Ha Hk Hin Hp Hr; [by apply elem_of_nil in Hr|].
  pose proof (reaped_nonzero s (r :: rs) alive Ha Hk) as Hnz. cbn [check_children map] in *.
  pose proof (check_child_moves s r) as Hm.
  assert (Hn : NoDup (owned s)) by (destruct Ha as [Hn Ho]; by rewrite <-Ho).
  destruct (decide (pid p = r_pid r)) as [E|E].
  - assert (Hc : r_pid r <> cleanup_child_pid s).
    { intros Ec. apply nodup_app_l in Hn as (_ & _ & Hd). apply (Hd (pid p)).
      - apply list_elem_of_In, in_flat_map. exists p. rewrite <-!list_elem_of_In. split; [done|by apply pid_kid].
      - unfold nonzero. rewrite list_elem_of_filter. split; [done|]. apply list_elem_of_singleton. congruence. }
    apply nodup_app_l in Hn as (Hn & _ & _). destruct (check_child_ports s r Hc) as [E1 E2].
    destruct (reap_port_frees (ports s) (r_pid r) (r_now r) (r_open r) p) as (G1 & p' & G2 & G3 & G4); [done|done|done|congruence|].
    assert (Hf : freed (check_child s r).1.1 (port2 p)) by (exists p'; by rewrite E1).
    rewrite G1 in E2. destruct (check_child s r) as [[s1 es1] b1]. cbn [fst snd] in *. subst b1.
    pose proof (check_children_freed s1 rs (port2 p) (fun r' Hr' => Hnz r' (list_elem_of_further _ _ _ Hr')) Hf).
    by destruct (check_children s1 rs) as [[s2 es2] b2].
  - apply elem_of_cons in Hr as [?|Hr]; [done|]. destruct (check_child_keeps s r p Hin E) as (p' & G1 & G2 & G3).
    destruct (check_child s r) as [[s1 es1] b1]. specialize (IH s1 (alive_after alive es1) p'). rewrite G2, G3 in IH.
    destruct (check_children s1 rs) as [[s2 es2] b2]. cbn [fst snd] in *. apply kernel_app in Hk as [Hk1 Hk2].
    destruct (Hm alive Ha Hk1) as [_ Ha1]. destruct IH as [-> G4]; [done..|]. by rewrite orb_true_r.
Qed.

(** No event moves an entry that has a session. *)
Lemma dispatch_all_keeps s evs p : p ∈ ports s -> pid p <> 0 -> p ∈ ports (dispatch_all s evs).1.
Proof.
  revert s. induction evs as [|[ev fork] evs IH]; intros s Hin Hp; [done|]. cbn [dispatch_all].
  assert (H : p ∈ (dispatch (ports s) (g_epfd s) ev fork).1.1).
  { destruct (dispatch_spec (ports s) (g_epfd s) ev fork) as [->|(ps1 & p0 & ps2 & E & H1 & _ & _ & ->)]; [done|]. cbn [fst].
    rewrite E, elem_of_app, elem_of_cons in Hin. rewrite elem_of_app, elem_of_cons.
    destruct Hin as [?|[->|?]]; [tauto|by destruct Hp|tauto]. }
  destruct (dispatch _ _ ev fork) as [[ps w] es]. specialize (IH (s <| ports := ps |> <| g_epfd := w |>) H Hp).
  by destruct (dispatch_all _ evs).
Qed.

Lemma watched_in p ps w : p ∈ ps -> pid p = 0 -> removed p = false -> is_open p w = true -> (port2 p, w) ∈ rebuild_epoll_set ps.
Proof.
  intros Hin Ep Er Hw. apply list_elem_of_In, in_flat_map. exists p. rewrite <-!list_elem_of_In. split; [done|].
  unfold watch_port. rewrite Ep, Er. cbn [negb Z.eqb orb]. apply list_elem_of_fmap. exists w. split; [done|].
  apply list_elem_of_filter. split; [done|]. destruct w; set_solver.
Qed.

(** ** The process from its start *)

Lemma run_parts e ts s es : run e ts = Some (s, es) ->
  exists s0 es0 es1, start e = Some (s0, es0) /\ turns s0 ts = (s, es1) /\ es = es0 ++ es1.
Proof.
  unfold run. destruct (start e) as [[s0 es0]|]; [|done]. destruct (turns s0 ts) as [s1 es1] eqn:E. intros [= <- <-].
  by exists s0, es0, es1.
Qed.

Lemma run_accounts e ts s es : run e ts = Some (s, es) -> kernel_ok [] es -> kills_ok [] es /\ accounts s (alive_after [] es).
Proof.
  intros (s0 & es0 & es1 & E0 & E1 & ->)%run_parts [K0 K1]%kernel_app. destruct (start_moves e s0 es0 E0 K0) as [L0 A0].
  pose proof (turns_moves s0 ts) as Hm. rewrite E1 in Hm. destruct (Hm _ A0 K1) as [L1 A1].
  by rewrite alive_app, kills_app.
Qed.

Lemma run_inv e ts s es : run e ts = Some (s, es) -> Inv s.
Proof.
  intros (s0 & es0 & es1 & E0 & E1 & ->)%run_parts. pose proof (inv_turns s0 ts (inv_start e s0 es0 E0)) as Hi. by rewrite E1 in Hi.
Qed.

(** C10: From its start and through any number of turns, whatever binds and forks succeed,
    whatever keys.tdb holds at each reload and in whatever order events and exits come, the
    parent's table and cleaner record exactly its living children, each once: none is lost, and
    SIGTERM only ever goes to a child of its own that has not been reaped. *)
Theorem children_accounted e ts s es :
  run e ts = Some (s, es) -> kernel_ok [] es ->
  kills_ok [] es /\ NoDup (owned s) /\ alive_after [] es ≡ₚ owned s.
Proof. intros Hr Hk. destruct (run_accounts e ts s es Hr Hk) as [H1 [H2 H3]]. split_and!; [done|by rewrite <-H3|done]. Qed.

(** C14: At every turn boundary the entries have distinct ports, an entry with a session or
    removed from keys.tdb holds no listener, every listener is bound to a port its entry
    records for its role (port 1 or port 2), and the epoll instance watches exactly the
    listeners the idle entries hold. *)
Theorem parent_watches e ts s es : run e ts = Some (s, es) -> Inv s.
Proof. apply run_inv. Qed.

(** C12: A reload makes the table mirror the database it read: a recorded port has one live
    entry, configured as recorded and, when it has no session, listening on the recorded ports
    and no others, wherever it can bind -- a listener left on a port 1 that has moved would
    not do; an entry without a record is off; and no entry loses its session's pid. *)
Theorem reload_mirrors e ts s es re rs :
  run e ts = Some (s, es) -> re_db re = Some rs -> records_ok_db rs ->
  let ps := (reload_ports (ports s) re).1 in
  mirrors (cfgs rs) (re_open re) ps
  /\ forall p, p ∈ ports s -> exists p', p' ∈ ps /\ port2 p' = port2 p /\ pid p' = pid p.
Proof.
  intros [Ht _]%run_inv Edb Hrs. cbv zeta. destruct (reload_mirrors_aux (ports s) re rs Ht Edb (cfgs_nodup rs Hrs)) as [H1 H2].
  split; [done|]. intros p (p' & G1 & G2 & G3 & _)%H2. by exists p'.
Qed.

(** C11: A reload signals exactly the children whose cause is gone: the session of an entry
    that lost its record or whose port 1 moved, and the video child of an entry that lost its
    record, whose video configuration changed or that no longer wants one.  Every other session
    and publisher is left alone. *)
Theorem reload_signals e ts s es re rs q :
  run e ts = Some (s, es) -> re_db re = Some rs -> records_ok_db rs ->
  Kill q ∈ (reload_ports (ports s) re).2 <-> q <> 0 /\ exists p, p ∈ ports s /\ kill_cause (cfgs rs) p q.
Proof. intros [Ht _]%run_inv Edb Hrs. apply reload_kills_aux; [done|done|by apply cfgs_nodup]. Qed.

(** C13: A pair comes back: in the turn that reaps an entry's session, the listeners of
    the entry, when keys.tdb opens and still has it, are opened again wherever they bind and are
    watched before the next wait. *)
Theorem pair_recovers e ts s es t p rs c w :
  run e ts = Some (s, es) -> kernel_ok [] (es ++ (turn s t).2) ->
  p ∈ ports s -> pid p <> 0 -> pid p ∈ map r_pid (t_reaps t) ->
  re_db (t_reload t) = Some rs -> records_ok_db rs -> recorded (cfgs rs) (port2 p) = Some c ->
  re_open (t_reload t) (port2 p) w = true ->
  (port2 p, w) ∈ g_epfd (turn s t).1.
Proof.
  intros Hr [K1 K2]%kernel_app Hin Hp Hreap Edb Hrs Hc Hw. pose proof (run_inv e ts s es Hr) as Hi.
  destruct (run_accounts e ts s es Hr K1) as [_ Ha]. pose proof (inv_turn s t Hi) as Hi'. rewrite (inv_watch _ Hi'). clear Hi'.
  unfold turn in *. pose proof (dispatch_all_keeps s (t_events t) p Hin Hp) as H1. pose proof (inv_dispatch_all s (t_events t) Hi) as Hi1.
  destruct (dispatch_all_tracks s (t_events t)) as [G1 G2]. pose proof (tracks_moves s _ (dispatch_all s (t_events t)).1 G1 G2) as Hm.
  destruct (dispatch_all s (t_events t)) as [s1 es1]. cbn [fst snd] in *.
  destruct (check_children_ok s1 (t_reaps t) (inv_table _ Hi1)) as (Ht & _ & _).
  pose proof (check_children_frees s1 (t_reaps t) (alive_after (alive_after [] es) es1) p) as Hf.
  destruct (check_children s1 (t_reaps t)) as [[s2 es2] reaped]. cbn [fst snd] in *.
  destruct (if reaped || _ then _ else _) as [s3 es3] eqn:E3. cbn [fst snd] in *.
  apply kernel_app in K2 as [K2 [K3 _]%kernel_app]. destruct (Hm _ Ha K2) as [_ Ha1].
  destruct (Hf Ha1 K3 H1 Hp Hreap) as [-> (p2 & F1 & F2 & F3)]. cbn [orb] in E3.
  unfold reload in E3. destruct (reload_mirrors_aux (ports s2) (t_reload t) rs Ht Edb (cfgs_nodup rs Hrs)) as [_ Hall].
  destruct (reload_ports (ports s2) (t_reload t)) as [ps es4]. injection E3 as <- _. cbn [fst ports] in *.
  destruct (Hall p2 F1) as (p3 & P1 & P2 & P3 & P4). rewrite F2, Hc in P4. destruct P4 as (Q1 & _ & Q3). rewrite F3 in P3.
  rewrite <-F2, <-P2. apply watched_in; [done|done|done|]. unfold is_open. by rewrite (proj2 (Q3 P3 w) Hw).
Qed.

(** ** Witnesses *)

(** Two pairs: 14551/14552, and 14561/14562 with video on port 5600. *)
Definition sample_a : bytes := replicate 48 0 ++ int_bytes 14551 ++ replicate 44 0.
Definition sample_b : bytes := replicate 48 0 ++ int_bytes 14561 ++ replicate 44 0 ++ le_bytes 4 KEY_FLAG_VIDEO ++ replicate 12 0 ++ le_bytes 4 5600.
Definition sample_rs : list (bytes * bytes) := [(int_bytes 14552, sample_a); (int_bytes 14562, sample_b)].

Definition sample_start : Start :=
  {| s_db := Some sample_rs; s_add := fun _ _ => true; s_forks := fun _ => Some 101; s_time := 7; s_cleaner := 100; s_now := 7000000 |}.
Definition sample_reload (rs : list (bytes * bytes)) : ReloadEnv :=
  {| re_db := Some rs; re_add := fun _ _ => true; re_open := fun _ _ => true; re_forks := fun _ => None; re_time := 9 |}.

(** Traffic for the first pair; then its session and the cleaner exit. *)
Definition sample_turn1 : Turn :=
  {| t_events := [((14552, Sock1Udp), 102)]; t_reaps := []; t_now := 8000000; t_reload := sample_reload sample_rs |}.
Definition sample_turn2 : Turn :=
  {| t_events := [];
     t_reaps := [{| r_pid := 100; r_now := 9; r_open := fun _ => true; r_fork := 103 |};
                 {| r_pid := 102; r_now := 9; r_open := fun _ => false; r_fork := -1 |}];
     t_now := 9000000; t_reload := sample_reload sample_rs |}.

Definition sample_ran (ts : list Turn) : Parent * list effect :=
  default ({| ports := []; g_epfd := []; cleanup_child_pid := 0; last_reload := 0 |}, []) (run sample_start ts).

Lemma sample_ran_ok ts : run sample_start ts = Some (sample_ran ts).
Proof. unfold sample_ran, run. destruct (start sample_start) as [[s es]|] eqn:E; [by destruct (turns s ts)|by vm_compute in E]. Qed.

Lemma sample_records : records_ok_db sample_rs /\ records_ok_db [(int_bytes 14552, sample_a)].
Proof. split; split; decide_vm. Qed.

Ltac kernel_vm :=
  match goal with |- kernel_ok _ ?l => let l' := eval vm_compute in l in replace l with l' by (vm_compute; reflexivity) end;
  cbn [kernel_ok alive_step]; repeat split; try done; decide_vm.

Lemma sample_kernel : kernel_ok [] (sample_ran [sample_turn1; sample_turn2]).2.
Proof. kernel_vm. Qed.

Lemma sample_kernel' : kernel_ok [] ((sample_ran [sample_turn1]).2 ++ (turn (sample_ran [sample_turn1]).1 sample_turn2).2).
Proof. kernel_vm. Qed.

Lemma children_accounted_witness :
  let r := sample_ran [sample_turn1; sample_turn2] in
  kills_ok [] r.2 /\ NoDup (owned r.1) /\ alive_after [] r.2 ≡ₚ owned r.1 /\ alive_after [] r.2 = [103; 101].
Proof.
  cbv zeta. pose proof (children_accounted sample_start [sample_turn1; sample_turn2] _ _
    (eq_trans (sample_ran_ok _) (f_equal Some (surjective_pairing _))) sample_kernel) as (H1 & H2 & H3).
  split_and!; [exact H1|exact H2|exact H3|by vm_compute].
Defined.

Lemma parent_watches_witness :
  Inv (sample_ran [sample_turn1]).1 /\ g_epfd (sample_ran [sample_turn1]).1 = map (pair 14562) socks.
Proof.
  split; [|by vm_compute].
  exact (parent_watches sample_start [sample_turn1] _ _ (eq_trans (sample_ran_ok _) (f_equal Some (surjective_pairing _)))).
Defined.

Lemma reload_mirrors_witness :
  mirrors (cfgs [(int_bytes 14552, sample_a)]) (fun _ _ => true)
    (reload_ports (ports (sample_ran [sample_turn1]).1) (sample_reload [(int_bytes 14552, sample_a)])).1
  /\ map fst (cfgs [(int_bytes 14552, sample_a)]) = [14552].
Proof.
  split; [|by vm_compute].
  apply (reload_mirrors sample_start [sample_turn1] _ _ (sample_reload [(int_bytes 14552, sample_a)]) _
    (eq_trans (sample_ran_ok _) (f_equal Some (surjective_pairing _))) eq_refl (proj2 sample_records)).
Defined.

Lemma reload_signals_witness :
  let es := (reload_ports (ports (sample_ran [sample_turn1]).1) (sample_reload [(int_bytes 14552, sample_a)])).2 in
  ~ (Kill 102 ∈ es) /\ es = [Kill 101; RemovePort2 14562; Kill 101].
Proof.
  cbv zeta. split; [|by vm_compute].
  pose proof (reload_signals sample_start [sample_turn1] _ _ (sample_reload [(int_bytes 14552, sample_a)]) _ 102
    (eq_trans (sample_ran_ok _) (f_equal Some (surjective_pairing _))) eq_refl (proj2 sample_records)) as [H _].
  intros Hk. destruct (H Hk) as (_ & p & Hp & Hc). revert Hc.
  assert (Hd : Forall (fun p => ~ kill_cause (cfgs [(int_bytes 14552, sample_a)]) p 102) (ports (sample_ran [sample_turn1]).1)).
  { vm_compute. repeat constructor; intuition congruence. }
  by apply (proj1 (list.Forall_forall _ _) Hd).
Defined.

Lemma pair_recovers_witness :
  (14552, Sock2Listen) ∈ g_epfd (turn (sample_ran [sample_turn1]).1 sample_turn2).1
  /\ ~ (14552, Sock2Listen) ∈ g_epfd (sample_ran [sample_turn1]).1.
Proof.
  split; [|apply (bool_decide_unpack _); by vm_compute].
  set (p := default (new_port 0 {| c_port1 := 0; c_flags := 0; c_fc_sysid := 0; c_tz := 0; c_video_ports := []; c_video_flags := 0;
    c_video_flags_hi := 0 |}) (nth_error (ports (sample_ran [sample_turn1]).1) 1)).
  destruct (recorded (cfgs sample_rs) 14552) as [c|] eqn:Ec; [|by vm_compute in Ec].
  assert (Hp : nth_error (ports (sample_ran [sample_turn1]).1) 1 = Some p) by by vm_compute.
  assert (E2 : port2 p = 14552) by by vm_compute. rewrite <-E2.
  apply (pair_recovers sample_start [sample_turn1] _ (sample_ran [sample_turn1]).2 sample_turn2 p sample_rs c).
  - exact (eq_trans (sample_ran_ok _) (f_equal Some (surjective_pairing _))).
  - exact sample_kernel'.
  - apply list_elem_of_In. by apply (nth_error_In _ 1).
  - by vm_compute.
  - vm_compute. right. left.
  - reflexivity.
  - exact (proj1 sample_records).
  - by rewrite E2.
  - reflexivity.
Defined.
