(* ===== verification/Relay.v ===== *)
(** * The session child (supportproxy.cpp: main_loop)

    One user link and up to a hundred engineer links over one table of MAVLink channels, the
    logs the user's messages go to, and one pass of the select loop after another.  The state is
    main_loop's locals and the child's copy of its [listen_port], in four groups: the user's
    side, the engineers' table, the logs, and what the links share ([links] is the MAVLink
    library's channel table).  A pass is a sequence of steps, each of which may [Continue] or
    [Break] the loop; what the calls of a pass answer is its [Pass].  [WebSocket] objects and
    sockets answer from it too: a WebSocket is kept as whether it is TLS.  [calls] records what the
    links accepted, sent and wrote, whether a send succeeded, and which link lost its signing
    block, in order. *)

From S2P Require Import Prelude Tdb KeyDb ConnDb Session BinLog WebSocket MavLink Ports.

Definition MAX_COMM2_LINKS : Z := 100.
Definition CHAN_COMM1 : Z := 0.
Definition CHAN_COMM2 (i : nat) : Z := 2 + Z.of_nat i.
Definition CONN2_PREAUTH_SECONDS : Z := 5.
Definition CONN1_BIDI_PREAUTH_SECONDS : Z := 5.
Definition MAVLINK_MSG_ID_SYSTEM_TIME : Z := 2.
Definition MAVLINK_MSG_ID_REMOTE_LOG_DATA_BLOCK : Z := 184.
Definition MAVLINK_MSG_ID_REMOTE_LOG_BLOCK_STATUS : Z := 185.
Definition MAV_COMP_ID_AUTOPILOT1 : Z := 1.

(** ** State *)

(** [from]: address and port, with the length [recvfrom] or [accept] gave. *)
Record Connection2 := {
  sock : bool;                   (* not -1 *)
  used : bool;
  tcp_active : bool;
  mav : MAVLink;
  ws : option bool;              (* is_SSL *)
  from : Z * Z;
  fromlen : Z;
  is_udp : bool;
  last_pkt : Z;
  connected_at : Z;
  rx_msgs : Z;
  tx_msgs : Z
}.

#[export] Instance eta_Connection2 : Eta Connection2 := fun c =>
  Build_Connection2 (sock c) (used c) (tcp_active c) (mav c) (ws c) (from c) (fromlen c) (is_udp c)
    (last_pkt c) (connected_at c) (rx_msgs c) (tx_msgs c).

Implicit Types c : Connection2.

(** The members no constructor sets are read by nothing before [init]. *)
Definition blank_key : KeyEntry := decode_key [].
Definition mav_blank : MAVLink := fresh_link 0 false false 0 blank_key.
Definition conn2_new : Connection2 := {|
  sock := false; used := false; tcp_active := false; mav := mav_blank; ws := None; from := (0, 0); fromlen := 0;
  is_udp := false; last_pkt := 0; connected_at := 0; rx_msgs := 0; tx_msgs := 0
|}.

(** [Connection2::close]. *)
Definition conn2_close c : Connection2 :=
  c <| sock := false |> <| tcp_active := false |> <| used := false |> <| ws := (None : option bool) |>
    <| connected_at := 0 |> <| rx_msgs := 0 |> <| tx_msgs := 0 |>.

Record Table := { max_conn2_count : Z; conn2_count : Z; conn2 : list Connection2 }.
#[export] Instance eta_Table : Eta Table := fun t => Build_Table (max_conn2_count t) (conn2_count t) (conn2 t).

Record UserSide := {
  ws1 : option bool;             (* p->ws *)
  have_conn1 : bool;
  last_pkt1 : Z;
  count1 : Z;
  mav1 : MAVLink;
  mav1_peer : Z * Z;
  mav1_connected_at : Z;
  mav1_rx_msgs : Z;
  mav1_tx_msgs : Z;
  mav1_is_tcp : bool
}.
#[export] Instance eta_UserSide : Eta UserSide := fun u =>
  Build_UserSide (ws1 u) (have_conn1 u) (last_pkt1 u) (count1 u) (mav1 u) (mav1_peer u) (mav1_connected_at u)
    (mav1_rx_msgs u) (mav1_tx_msgs u) (mav1_is_tcp u).

(** [writes]: what the coming records' writes take. *)
Record Logs := { tlog : TlogWriter; binlog : BinlogWriter; tree : log_tree; writes : list write_result }.
#[export] Instance eta_Logs : Eta Logs := fun l => Build_Logs (tlog l) (binlog l) (tree l) (writes l).

Inductive link := User | Engineer (i : nat).

(** A message accepted on a link, with the key the link was wired with; one the UDP user
    proves itself with; a message given to [send_message], what that said and what went out;
    a warning written to a link; a link left without its signing block; what the bin log's
    tick sent; the rows of a snapshot. *)
Inductive call :=
| Accepted (l : link) (secret : option bytes) (msg : message)
| Validated (secret : option bytes) (msg : message)
| SentTo (l : link) (msg : message) (ok : bool) (out : list out_event)
| Warned (l : link) (out : list out_event)
| Unwired (l : link)
| Status (ms : list status_msg)
| Snapshot (rows : list ConnEntry).

(** ** The engineers' table *)

Implicit Types tb : Table.

Definition at_ tb (i : nat) : Connection2 := nth i (conn2 tb) conn2_new.
Definition put tb (i : nat) c : Table := tb <| conn2 := <[i := c]> (conn2 tb) |>.

(** The watermark shrinks past the free slots at the top. *)
Fixpoint shrink (n : nat) tb : Table :=
  match n with
  | O => tb
  | S n =>
    if (0 <? max_conn2_count tb) && negb (used (at_ tb (Z.to_nat (max_conn2_count tb - 1))))
    then shrink n (tb <| max_conn2_count := max_conn2_count tb - 1 |>) else tb
  end.

Definition close_conn2 tb (i : nat) : Table :=
  let tb := put tb i (conn2_close (at_ tb i)) in
  let tb := if 0 <? conn2_count tb then tb <| conn2_count := conn2_count tb - 1 |> else tb in
  shrink (Z.to_nat (max_conn2_count tb)) tb.

(** A slot taken: the counts. *)
Definition count_conn2 tb : Table :=
  let n := u8 (conn2_count tb + 1) in tb <| conn2_count := n |> <| max_conn2_count := Z.max (max_conn2_count tb) n |>.

Definition slots : list nat := seq 0 (Z.to_nat MAX_COMM2_LINKS).
Definition in_scan tb (i : nat) : bool := Z.of_nat i <? max_conn2_count tb.

Definition free_conn2 tb : option nat := List.find (fun i => negb (used (at_ tb i))) slots.

(** A UDP engineer's slot. *)
Definition find_conn2 tb (a : Z * Z) (alen : Z) : option nat :=
  List.find (fun i => in_scan tb i && used (at_ tb i) && is_udp (at_ tb i)
                      && bool_decide (a = from (at_ tb i)) && (alen =? fromlen (at_ tb i))) slots.

(** The pre-auth deadline and a UDP engineer's silence. *)
Definition expired c (now wall : Z) : bool :=
  (negb (got_signed_packet (mav c)) && (CONN2_PREAUTH_SECONDS <? wall - connected_at c))
  || (is_udp c && (10 * usec <? now - last_pkt c)).

Definition evict (now wall : Z) tb (i : nat) : Table :=
  if in_scan tb i && used (at_ tb i) && expired (at_ tb i) now wall then close_conn2 tb i else tb.
Definition evict_all tb (now wall : Z) : Table := fold_left (evict now wall) slots tb.

(** The drop requests of connections.tdb. *)
Definition drop_conn2 tb (idx : Z) : Table :=
  if (1 <=? idx) && (idx <=? MAX_COMM2_LINKS) && used (at_ tb (Z.to_nat (idx - 1)))
  then close_conn2 tb (Z.to_nat (idx - 1)) else tb.

Definition process_drops {cdb} `{Tdb cdb} tb (h : option cdb) (p2 : Z) : Table * bool :=
  match h with
  | None => (tb, false)
  | Some h => let idx := (process_drops_db h p2).2 in (fold_left drop_conn2 idx tb, existsb (fun i => i =? 0) idx)
  end.

(** ** What a pass meets *)

Inductive fd := FdUser | FdEngineers | FdTcp1 | FdListen2 | FdSlot (i : nat).
Inductive select_out := Eintr | Nothing | Ready.

(** A TCP peer's bytes: what [WebSocket::detect] says, whether it is TLS, and what is read
    ([None]: end of file or an error). *)
Record TcpRead := { tr_detect : ws_detect_t; tr_ssl : bool; tr_data : option bytes }.

Inductive verdict := Go | Continue | Break | Null.

Section relay.
Context {db cdb P : Type} `{Tdb db} `{Tdb cdb}.
(** The generated MAVLink library, as in [MavLink], and more of it: [mavlink_msg_to_send_buffer], and
    the fields of the messages the bin log looks at. *)
Variable parse_char : P -> option signing -> Z -> P * option signing * bool * option message.
Variable msg_lengths : Z -> Z * Z.
Variable finalize : option signing -> message -> option bytes.
Variable decode_setup_signing : message -> Z * bytes.
Variable to_send_buffer : message -> option bytes.
Variable decode_system_time : message -> Z.
Variable decode_data_block : message -> Z * bytes.
(** The C library's calendar, the environment's limits, and the order of a hash table. *)
Variable gmtime_r localtime_r : Z -> option tm.
Variable quota_env grace_env : option bytes.
Variable nack_order : gmap Z NackState -> list (Z * NackState).

(** What the links share: the MAVLink library's channel table, keys.tdb, and the record. *)
Record Shared := {
  links : world (P := P);
  keys : db;
  outcomes : list (tcp_state * bool);   (* of the coming sends *)
  calls : list call
}.
Instance eta_Shared : Eta Shared := fun h => Build_Shared (links h) (keys h) (outcomes h) (calls h).

Record Relay := {
  lp : listen_port;
  user : UserSide;
  table : Table;
  logs : Logs;
  shared : Shared;
  count2 : Z;
  last_conn_save : Z
}.
Instance eta_Relay : Eta Relay := fun s =>
  Build_Relay (lp s) (user s) (table s) (logs s) (shared s) (count2 s) (last_conn_save s).

Record Pass := {
  p_sigusr1 : bool;              (* g_drops_pending *)
  p_rows : option cdb;           (* connections.tdb, if it opens *)
  p_start : Z;                   (* time_seconds() before and after select *)
  p_select : select_out;
  p_now : Z;
  p_wall : Z;                    (* time(nullptr) *)
  p_isset : fd -> bool;
  p_udp1 : option (Z * Z * bytes);
  p_connect : bool;
  p_udp2 : option (Z * Z * Z * bytes);
  p_accept1 : option (Z * Z);
  p_tcp1 : TcpRead;
  p_accept2 : option (Z * Z * Z);
  p_tcp2 : nat -> TcpRead;
  p_keys : db;                   (* keys.tdb, and whether it opens *)
  p_txn_ok : bool;
  p_open_ok : bool;
  p_outcomes : list (tcp_state * bool);
  p_tlog_opens : bool;
  p_tlog_holds : bytes;          (* what it held before the session *)
  p_gettimeofday : Z * Z;
  p_writes : list write_result;  (* to the tlog *)
  p_bin : call_env;
  p_tree : log_tree;
  p_tick : list bool;
  p_snap : Z;                    (* time_seconds() at the snapshot *)
  p_snap_rows : option cdb
}.

Implicit Types s : Relay.
Implicit Types t : Pass.
Implicit Types h : Shared.

Definition bidi p : bool := negb (Z.land (flags p) KEY_FLAG_BIDI_SIGN =? 0).
Definition tlog_enabled p : bool := negb (Z.land (flags p) KEY_FLAG_TLOG =? 0).
Definition binlog_enabled p : bool := negb (Z.land (flags p) KEY_FLAG_BINLOG =? 0).
Definition video_enabled p : bool := negb (Z.land (flags p) KEY_FLAG_VIDEO =? 0).
Definition conn1_key_id p : Z := if bidi p then port2 p else -1.

(** ** One link *)

Definition note h (e : call) : Shared := h <| calls := calls h ++ [e] |>.

(** [init], opening keys.tdb for the key. *)
Definition init_on h t (k0 : KeyEntry) (ch : Z) (signing_required allow_ws tcp : bool) (kid : Z) : option (MAVLink * Shared) :=
  match init k0 (links h) ch signing_required allow_ws tcp kid (if p_open_ok t then Some (keys h) else None) (p_now t) with
  | None => None
  | Some (m, w) => Some (m, h <| links := w |>)
  end.

Definition secret_of h m : option bytes := sg_secret_key <$> wired (links h) (chan m).

Definition loses_block (w w' : world (P := P)) (ch : Z) : bool :=
  match wired w ch, wired w' ch with Some _, None => true | _, _ => false end.

(** [receive_message], what it wrote, and whether it left the link without its block. *)
Definition recv_on l m h t (buf : bytes) : option (option message * bytes * MAVLink * Shared) :=
  match receive_message parse_char decode_setup_signing m (links h) (keys h) (p_txn_ok t) (p_open_ok t) (p_now t) buf with
  | None => None
  | Some r =>
    let lost := loses_block (links h) (rc_world r) (chan m) in
    let h := h <| links := rc_world r |> <| keys := rc_db r |> in
    let h := match rc_out r with [] => h | out => note h (Warned l out) end in
    Some (rc_msg r, rc_rest r, rc_link r, if lost then note h (Unwired l) else h)
  end.

Definition next_outcome h : tcp_state * bool * Shared :=
  match outcomes h with
  | [] => ((TcpWritable, true), h)
  | o :: os => (o, h <| outcomes := os |>)
  end.

Definition send_on l m h t (msg : message) : bool * MAVLink * Shared :=
  let '(o, h) := next_outcome h in
  let '(ok, m, w, out) := send_message msg_lengths finalize m (links h) o.1 o.2 (p_now t) msg in
  (ok, m, note (h <| links := w |>) (SentTo l msg ok out)).

(** ** The logs *)

Definition next_write (lg : Logs) : write_result * list write_result :=
  match writes lg with [] => (None, []) | took :: rest => (took, rest) end.

(** [ensure_tlog_open] and [tlog_write_message]. *)
Definition log_message p (lg : Logs) t (msg : message) : Logs :=
  if tlog_enabled p then
    let f := (tlog_open (tlog lg) (p_tlog_opens t) (p_tlog_holds t)).2 in
    let '(took, rest) := next_write lg in
    lg <| tlog := write_frame f (to_send_buffer msg) (p_gettimeofday t).1 (p_gettimeofday t).2 took |> <| writes := rest |>
  else lg.

Definition is_remote_log (msg : message) : bool :=
  (msgid msg =? MAVLINK_MSG_ID_REMOTE_LOG_DATA_BLOCK) || (msgid msg =? MAVLINK_MSG_ID_REMOTE_LOG_BLOCK_STATUS).

(** Whether the message is the bin log's. *)
Definition binlog_handle_user_msg p (lg : Logs) t (msg : message) : bool * Logs :=
  if negb (binlog_enabled p) then (false, lg)
  else
    let boot := if msgid msg =? MAVLINK_MSG_ID_SYSTEM_TIME then Some (decode_system_time msg) else None in
    let b := observe gmtime_r localtime_r (binlog lg) (p_bin t) (tree lg) boot (compid msg =? MAV_COMP_ID_AUTOPILOT1) (sysid msg) in
    let lg := lg <| binlog := b |> in
    if negb (is_remote_log msg) then (false, lg)
    else if msgid msg =? MAVLINK_MSG_ID_REMOTE_LOG_DATA_BLOCK then
      let '(seqno, data) := decode_data_block msg in
      let '(b, tr) := handle_block gmtime_r localtime_r quota_env grace_env (binlog lg) (p_bin t) (tree lg)
                        (u32 (port2 p)) (sysid msg) (compid msg) seqno data in
      (true, lg <| binlog := b |> <| tree := tr |>)
    else (true, lg).

(** ** From the user *)

Definition note_tx c : Connection2 := c <| tx_msgs := u32 (tx_msgs c + 1) |>.
Definition note_rx c : Connection2 := c <| rx_msgs := u32 (rx_msgs c + 1) |>.
Definition set_mav c m : Connection2 := c <| mav := m |>.

Definition send_conn2 tb h t (msg : message) (i : nat) : bool * Table * Shared :=
  let '(ok, m, h) := send_on (Engineer i) (mav (at_ tb i)) h t msg in (ok, put tb i (set_mav (at_ tb i) m), h).

(** To one engineer, as the UDP and the TCP user's loops do it. *)
Definition forward (udp : bool) t (msg : message) (st : Table * Shared) (i : nat) : Table * Shared :=
  let '(tb, h) := st in
  if negb (in_scan tb i && used (at_ tb i)) then (tb, h)
  else if udp && is_udp (at_ tb i) then
    let '(_, tb, h) := send_conn2 tb h t msg i in (put tb i (note_tx (at_ tb i)), h)
  else if udp && negb (sock (at_ tb i)) then (tb, h)
  else
    let '(ok, tb, h) := send_conn2 tb h t msg i in
    (if ok then put tb i (note_tx (at_ tb i)) else close_conn2 tb i, h).
Definition forward_all (udp : bool) t (msg : message) (st : Table * Shared) : Table * Shared :=
  fold_left (forward udp t msg) slots st.

Definition set_user s (u : UserSide) : Relay := s <| user := u |>.
Definition set_table s (tb : Table) : Relay := s <| table := tb |>.
Definition set_shared s h : Relay := s <| shared := h |>.
Definition set_logs s (lg : Logs) : Relay := s <| logs := lg |>.
Definition set_mav1 (u : UserSide) m : UserSide := u <| mav1 := m |>.
Definition note_rx1 (u : UserSide) : UserSide := u <| mav1_rx_msgs := u32 (mav1_rx_msgs u + 1) |>.
Definition note_tx1 (u : UserSide) : UserSide := u <| mav1_tx_msgs := u32 (mav1_tx_msgs u + 1) |>.

(** A message of the user's. *)
Definition user_msg (udp : bool) s t (msg : message) : Relay :=
  let s := set_user s (note_rx1 (user s)) in
  let s := set_logs s (log_message (lp s) (logs s) t msg) in
  let '(strip, lg) := binlog_handle_user_msg (lp s) (logs s) t msg in
  let s := set_logs s lg in
  if strip then s
  else let '(tb, h) := forward_all udp t msg (table s, shared s) in set_shared (set_table s tb) h.

(** The bytes of a read, message by message; a read's length is fuel enough. *)
Fixpoint user_loop (fuel : nat) (udp : bool) s t (buf : bytes) : verdict * Relay :=
  match fuel, buf with
  | O, _ | _, [] => (Go, s)
  | S fuel, _ =>
    let k := secret_of (shared s) (mav1 (user s)) in
    match recv_on User (mav1 (user s)) (shared s) t buf with
    | None => (Null, s)
    | Some (None, _, m, h) => (Go, set_shared (set_user s (set_mav1 (user s) m)) h)
    | Some (Some msg, rest, m, h) =>
      let s := set_shared (set_user s (set_mav1 (user s) m)) (note h (Accepted User k msg)) in
      user_loop fuel udp (user_msg udp s t msg) t rest
    end
  end.

(** Does anything want the user's messages? *)
Definition wanted s : bool :=
  (0 <? conn2_count (table s)) || binlog_enabled (lp s) || tlog_enabled (lp s) || video_enabled (lp s).
Definition user_bytes (udp : bool) s t (buf : bytes) : verdict * Relay :=
  if wanted s then user_loop (length buf) udp s t buf else (Go, s).

(** The latch of a UDP user that must sign. *)
Fixpoint validate (fuel : nat) s t (buf : bytes) (validated : bool) : option (bool * Relay) :=
  match fuel, buf with
  | O, _ | _, [] => Some (validated, s)
  | S fuel, _ =>
    let k := secret_of (shared s) (mav1 (user s)) in
    match recv_on User (mav1 (user s)) (shared s) t buf with
    | None => None
    | Some (None, _, m, h) => Some (validated, set_shared (set_user s (set_mav1 (user s) m)) h)
    | Some (Some msg, rest, m, h) =>
      validate fuel (set_shared (set_user s (set_mav1 (user s) m)) (note h (Validated k msg))) t rest true
    end
  end.

(** ** From an engineer *)

Definition rx_conn2 tb (i : nat) m : Table := put tb i (note_rx (set_mav (at_ tb i) m)).

(** [Break]: the user's link failed. *)
Fixpoint engineer_loop (fuel : nat) s t (i : nat) (buf : bytes) : verdict * Relay :=
  match fuel, buf with
  | O, _ | _, [] => (Go, s)
  | S fuel, _ =>
    let tb := table s in
    let k := secret_of (shared s) (mav (at_ tb i)) in
    match recv_on (Engineer i) (mav (at_ tb i)) (shared s) t buf with
    | None => (Null, s)
    | Some (None, _, m, h) => (Go, set_shared (set_table s (put tb i (set_mav (at_ tb i) m))) h)
    | Some (Some msg, rest, m, h) =>
      let s := set_shared (set_table s (rx_conn2 tb i m)) (note h (Accepted (Engineer i) k msg)) in
      let s := set_logs s (log_message (lp s) (logs s) t msg) in
      let '(ok, m1, h) := send_on User (mav1 (user s)) (shared s) t msg in
      let s := set_shared (set_user s (set_mav1 (user s) m1)) h in
      if ok then engineer_loop fuel (set_user s (note_tx1 (user s))) t i rest else (Break, s)
    end
  end.

(** Nothing is forwarded to a user whose transport is not known. *)
Definition engineer_bytes s t (i : nat) (buf : bytes) : verdict * Relay :=
  if have_conn1 (user s) && (0 <? count1 (user s)) then engineer_loop (length buf) s t i buf else (Go, s).

(** ** The steps of a pass *)

Definition bind (r : verdict * Relay) (k : Relay -> verdict * Relay) : verdict * Relay :=
  match r with (Go, s) => k s | _ => r end.

Definition set_lp s p : Relay := s <| lp := p |>.
Definition save_now s : Relay := s <| last_conn_save := 0 |>.
Definition hear1 s (now : Z) : Relay :=
  set_user s (let u := user s in u <| last_pkt1 := now |> <| count1 := u32 (count1 u + 1) |>).
Definition count_engineers s : Relay := s <| count2 := u32 (count2 s + 1) |>.

Definition drops_step s (pending : bool) (rows : option cdb) : verdict * Relay :=
  if pending then
    let '(tb, exit_loop) := process_drops (table s) rows (port2 (lp s)) in
    (if exit_loop then Break else Go, set_table s tb)
  else (Go, s).

Definition select_step s t : verdict * Relay :=
  if have_conn1 (user s) && (10 * usec <? p_start t - last_pkt1 (user s)) then (Break, s)
  else match p_select t with Eintr => (Continue, s) | Nothing => (Break, s) | Ready => (Go, s) end.

Definition evict_step s t : verdict * Relay :=
  let tb := table s in
  let tb := if MAX_COMM2_LINKS <? max_conn2_count tb then tb <| max_conn2_count := MAX_COMM2_LINKS |> else tb in
  (Go, set_table s (evict_all tb (p_now t) (p_wall t))).

Definition user_deadline s t : verdict * Relay :=
  if bidi (lp s) && have_conn1 (user s) && negb (got_signed_packet (mav1 (user s))) && mav1_is_tcp (user s)
     && (CONN1_BIDI_PREAUTH_SECONDS <? p_wall t - mav1_connected_at (user s))
  then (Break, s) else (Go, s).

(** The user's link made: [have_conn1]. *)
Definition latch s t (a : Z * Z) (tcp : bool) : Relay :=
  save_now (set_user s (user s <| have_conn1 := true |> <| mav1_peer := a |> <| mav1_connected_at := p_wall t |>
                               <| mav1_is_tcp := tcp |>)).

Definition init_user s t (tcp : bool) (k : Relay -> verdict * Relay) : verdict * Relay :=
  match init_on (shared s) t (key (mav1 (user s))) CHAN_COMM1 (bidi (lp s)) false tcp (conn1_key_id (lp s)) with
  | None => (Null, s)
  | Some (m, h) => k (set_shared (set_user s (set_mav1 (user s) m)) h)
  end.

Definition close_tcp1 s : Relay := set_lp s (let p := lp s in p <| sock1_tcp := (None : option Z) |>).
Definition close_udp1 s : Relay := set_lp s (let p := lp s in p <| sock1_udp := (None : option Z) |>).

(** A datagram from an address the socket is not connected to yet. *)
Definition latch_udp s t (a : Z * Z) (data : bytes) : verdict * Relay :=
  if bidi (lp s) then
    match validate (length data) s t data false with
    | None => (Null, s)
    | Some (false, s) => (Continue, s)
    | Some (true, s) => if p_connect t then (Go, latch s t a false) else (Break, s)
    end
  else if p_connect t then init_user s t false (fun s => user_bytes true (latch s t a false) t data)
  else (Break, s).

Definition user_udp s t : verdict * Relay :=
  if has_fd (sock1_udp (lp s)) && p_isset t FdUser then
    let s := close_tcp1 s in
    match p_udp1 t with
    | None => (Break, s)
    | Some (a, data) =>
      let s := hear1 s (p_now t) in
      if have_conn1 (user s) then user_bytes true s t data else latch_udp s t a data
    end
  else (Go, s).

(** A UDP engineer's slot: an old one heard again, or a new one. *)
Definition hear_conn2 tb (i : nat) (now : Z) : Table := put tb i (let c := at_ tb i in c <| last_pkt := now |>).

Definition udp_conn2 c m (a : Z * Z) (alen now wall : Z) : Connection2 :=
  c <| from := a |> <| fromlen := alen |> <| tcp_active := true |> <| sock := false |> <| is_udp := true |>
    <| mav := m |> <| used := true |> <| last_pkt := now |> <| connected_at := wall |> <| rx_msgs := 0 |> <| tx_msgs := 0 |>.

Definition new_udp_conn2 s t (i : nat) (a : Z * Z) (alen : Z) : option Relay :=
  match init_on (shared s) t (key (mav (at_ (table s) i))) (CHAN_COMM2 i) true false false (port2 (lp s)) with
  | None => None
  | Some (m, h) =>
    let tb := table s in
    let tb := count_conn2 (put tb i (udp_conn2 (at_ tb i) m a alen (p_now t) (p_wall t))) in
    Some (save_now (set_shared (set_table s tb) h))
  end.

Definition engineer_udp s t : verdict * Relay :=
  if has_fd (sock2_udp (lp s)) && p_isset t FdEngineers then
    match p_udp2 t with
    | None => (Break, s)
    | Some (a, alen, data) =>
      let s := count_engineers s in
      match find_conn2 (table s) a alen with
      | Some i => engineer_bytes (set_table s (hear_conn2 (table s) i (p_now t))) t i data
      | None =>
        match free_conn2 (table s) with
        | None => (Go, s)
        | Some i =>
          match new_udp_conn2 s t i a alen with
          | None => (Null, s)
          | Some s => engineer_bytes s t i data
          end
        end
      end
    end
  else (Go, s).

Definition accept_user s t : verdict * Relay :=
  if negb (have_conn1 (user s)) && has_fd (sock1_tcp (lp s)) && p_isset t FdTcp1 then
    let s := close_udp1 s in
    match p_accept1 t with
    | None => (Break, s)
    | Some a =>
      init_user (latch s t a true) t true (fun s =>
        (Continue, set_user s (let u := user s in u <| last_pkt1 := p_now t |>)))
    end
  else (Go, s).

(** The bytes a TCP peer's read yields: [None] ends the connection. *)
Definition tcp_data (w : option bool) (r : TcpRead) : option bytes :=
  match w, tr_data r with
  | None, Some [] => None
  | _, d => d
  end.
Definition detect_ws (w : option bool) (r : TcpRead) : option bool :=
  match tr_detect r with WS_YES => Some (tr_ssl r) | _ => w end.
Definition set_ws1 s (w : option bool) : Relay := set_user s (let u := user s in u <| ws1 := w |>).

Definition is_more (r : TcpRead) : bool := match tr_detect r with WS_MORE => true | _ => false end.
Definition undecided (w : option bool) : bool := match w with None => true | Some _ => false end.

Definition user_tcp s t : verdict * Relay :=
  if has_fd (sock1_tcp (lp s)) && p_isset t FdTcp1 then
    let s := close_udp1 s in
    let fresh := (count1 (user s) =? 0) && undecided (ws1 (user s)) in
    if fresh && is_more (p_tcp1 t) then (Continue, s)
    else
      let s := if fresh then set_ws1 s (detect_ws (ws1 (user s)) (p_tcp1 t)) else s in
      match tcp_data (ws1 (user s)) (p_tcp1 t) with
      | None => (Break, s)
      | Some data => user_bytes false (hear1 s (p_now t)) t data
      end
  else (Go, s).

Definition tcp_conn2 c m (a : Z * Z) (alen wall : Z) : Connection2 :=
  c <| sock := true |> <| tcp_active := false |> <| used := true |> <| is_udp := false |> <| from := a |> <| fromlen := alen |>
    <| connected_at := wall |> <| rx_msgs := 0 |> <| tx_msgs := 0 |> <| mav := m |>.

Definition accept_engineer s t : verdict * Relay :=
  if has_fd (sock2_listen (lp s)) && p_isset t FdListen2 then
    match p_accept2 t with
    | None => (Continue, s)
    | Some (a, alen) =>
      if MAX_COMM2_LINKS <=? conn2_count (table s) then (Continue, s)
      else
        match free_conn2 (table s) with
        | None => (Continue, s)
        | Some i =>
          match init_on (shared s) t (key (mav (at_ (table s) i))) (CHAN_COMM2 i) true true true (port2 (lp s)) with
          | None => (Null, s)
          | Some (m, h) =>
            let tb := table s in
            let tb := count_conn2 (put tb i (tcp_conn2 (at_ tb i) m a alen (p_wall t))) in
            (Continue, save_now (set_shared (set_table s tb) h))
          end
        end
    end
  else (Go, s).

Definition set_ws tb (i : nat) (w : option bool) : Table := put tb i (let c := at_ tb i in c <| ws := w |>).
Definition activate tb (i : nat) : Table := put tb i (let c := at_ tb i in c <| tcp_active := true |>).

(** One TCP engineer. *)
Definition engineer_tcp s t (i : nat) : verdict * Relay :=
  let c := at_ (table s) i in
  if is_udp c || negb (used c) || negb (sock c) || negb (p_isset t (FdSlot i)) then (Go, s)
  else
    let r := p_tcp2 t i in
    let fresh := negb (tcp_active c) && undecided (ws c) in
    if fresh && is_more r then (Go, s)
    else
      let s := if fresh then set_table s (set_ws (table s) i (detect_ws (ws c) r)) else s in
      let w := ws (at_ (table s) i) in
      match tcp_data w r with
      | None => (Go, set_table s (close_conn2 (table s) i))
      | Some [] => (Go, s)
      | Some data => engineer_bytes (set_table (count_engineers s) (activate (table s) i)) t i data
      end.

(** A user's link that fails ends the scan. *)
Fixpoint engineers_tcp (is_ : list nat) s t : verdict * Relay :=
  match is_ with
  | [] => (Go, s)
  | i :: is_ =>
    if negb (in_scan (table s) i) then (Go, s)
    else match engineer_tcp s t i with
         | (Break, s) => (Go, s)
         | (Go, s) | (Continue, s) => engineers_tcp is_ s t
         | (Null, s) => (Null, s)
         end
  end.

Definition tick_step s t : verdict * Relay :=
  if binlog_enabled (lp s) && have_conn1 (user s) then
    let '(b, o) := tick nack_order (binlog (logs s)) (p_now t) {| ob_sent := []; ob_results := p_tick t |} in
    (Go, set_shared (set_logs s (let lg := logs s in lg <| binlog := b |>)) (note (shared s) (Status (ob_sent o))))
  else (Go, s).

(** ** The rows of connections.tdb *)

Definition transport_of (w : option bool) (other : Z) : Z :=
  match w with Some true => CONN_TRANSPORT_WSS | Some false => CONN_TRANSPORT_WS | None => other end.

Definition row (p2 my_pid wall idx : Z) (since rx tx : Z) (a : Z * Z) (tr user auth : Z) : ConnEntry := {|
  ce_magic := CONN_MAGIC; ConnDb.connected_at := since; last_update := wall; ConnDb.port2 := p2; conn_index := idx; ConnDb.pid := my_pid;
  ConnDb.rx_msgs := rx; ConnDb.tx_msgs := tx; peer_ip_be := a.1; peer_port_be := a.2; transport := tr; is_user := user;
  ce_flags := 0; pad1 := 0; pad2 := 0; role := 0; stream_idx := 0; app_proto := 0; authenticated := auth; pad3 := 0
|}.

Definition user_row s (my_pid wall : Z) : list ConnEntry :=
  let u := user s in
  if have_conn1 u then
    [row (port2 (lp s)) my_pid wall 0 (mav1_connected_at u) (mav1_rx_msgs u) (mav1_tx_msgs u) (mav1_peer u)
       (transport_of (ws1 u) (if mav1_is_tcp u then CONN_TRANSPORT_TCP else CONN_TRANSPORT_UDP)) 1
       (if got_signed_packet (mav1 u) then 1 else 0)]
  else [].

Definition engineer_row s (my_pid wall : Z) (i : nat) : list ConnEntry :=
  let c := at_ (table s) i in
  if in_scan (table s) i && used c then
    [row (port2 (lp s)) my_pid wall (Z.of_nat i + 1) (connected_at c) (rx_msgs c) (tx_msgs c) (from c)
       (if is_udp c then CONN_TRANSPORT_UDP else transport_of (ws c) CONN_TRANSPORT_TCP) 0 0]
  else [].

Definition rows_of s (my_pid wall : Z) : list ConnEntry :=
  user_row s my_pid wall ++ flat_map (engineer_row s my_pid wall) slots.

Definition snapshot_step (my_pid : Z) s t : verdict * Relay :=
  if 5 * usec <? p_snap t - last_conn_save s then
    let s := s <| last_conn_save := p_snap t |> in
    bind (drops_step s true (p_snap_rows t)) (fun s =>
      (Go, set_shared s (note (shared s) (Snapshot (rows_of s my_pid (p_wall t))))))
  else (Go, s).

(** ** The loop *)

(** What the pass finds in keys.tdb and under logs/. *)
Definition begin_pass s t : Relay :=
  let s := set_shared s (let h := shared s in h <| keys := p_keys t |> <| outcomes := p_outcomes t |>) in
  set_logs s (let lg := logs s in lg <| tree := p_tree t |> <| writes := p_writes t |>).

Definition pass_steps (my_pid : Z) : list (Relay -> Pass -> verdict * Relay) :=
  [(fun s t => drops_step s (p_sigusr1 t) (p_rows t)); select_step; evict_step; user_deadline; user_udp; engineer_udp; accept_user;
   user_tcp; accept_engineer; (fun s t => engineers_tcp slots s t); tick_step; snapshot_step my_pid].

Fixpoint steps (fs : list (Relay -> Pass -> verdict * Relay)) s t : verdict * Relay :=
  match fs with
  | [] => (Go, s)
  | f :: fs => bind (f s t) (fun s => steps fs s t)
  end.

Definition relay_pass (my_pid : Z) s t : verdict * Relay := steps (pass_steps my_pid) (begin_pass s t) t.

Fixpoint main_loop (my_pid : Z) s (ts : list Pass) : verdict * Relay :=
  match ts with
  | [] => (Go, s)
  | t :: ts =>
    match relay_pass my_pid s t with
    | (Go, s) | (Continue, s) => main_loop my_pid s ts
    | r => r
    end
  end.

(** ** Starting and ending *)

Record Birth := {
  b_wall : Z;                    (* time(nullptr) *)
  b_pid : Z;
  b_nsecs : list Z;
  b_tree : log_tree;
  b_parser : Z -> P;
  b_keys : db;
  b_open_ok : bool;
  b_now : Z
}.

Definition use_tz p : bool := negb (Z.land (flags p) KEY_FLAG_USE_TZ =? 0).

(** The session's date directory and base name. *)
Definition session_paths p (b : Birth) : bytes * bytes :=
  let '(datedir, name) := session_time_strings gmtime_r localtime_r (b_wall b) (use_tz p) (tz_offset_hours p) 16 64 in
  (datedir, session_unique_basename (dir_entries (b_tree b) (u32 (port2 p)) datedir) name 64 (b_pid b) (b_nsecs b)).

Definition no_table : Table := {| max_conn2_count := 0; conn2_count := 0; conn2 := replicate (Z.to_nat MAX_COMM2_LINKS) conn2_new |}.
Definition no_user : UserSide := {| ws1 := None; have_conn1 := false; last_pkt1 := 0; count1 := 0; mav1 := mav_blank; mav1_peer := (0, 0);
  mav1_connected_at := 0; mav1_rx_msgs := 0; mav1_tx_msgs := 0; mav1_is_tcp := false |}.
Definition new_logs p (b : Birth) : Logs :=
  let '(datedir, name) := session_paths p b in
  {| tlog := {| tlog_fp := None |};
     binlog := if binlog_enabled p then binlog_new datedir name (use_tz p) (tz_offset_hours p) (fc_sysid p) else binlog_new [] [] false 0 0;
     tree := b_tree b; writes := [] |}.

Definition relay_new p (b : Birth) m (w : world (P := P)) : Relay :=
  Build_Relay p (set_mav1 no_user m) no_table (new_logs p b) (Build_Shared w (b_keys b) [] []) 0 0.

(** The child as it enters the loop; [None]: [init] met a null database. *)
Definition relay_start p (b : Birth) : option Relay :=
  let w := Build_world (b_parser b) (fun _ => None) (fun _ => false) in
  if bidi p && has_fd (sock1_udp p) then
    match init blank_key w CHAN_COMM1 true false false (conn1_key_id p) (if b_open_ok b then Some (b_keys b) else None) (b_now b) with
    | None => None
    | Some (m, w) => Some (relay_new p b m w)
    end
  else Some (relay_new p b mav_blank w).

(** The child from its fork. *)
Definition relay_run p (b : Birth) (my_pid : Z) (ts : list Pass) : option (verdict * Relay) :=
  match relay_start p b with
  | None => None
  | Some s => Some (main_loop my_pid s ts)
  end.

(** What the session adds to its entry when it ends; [None]: keys.tdb does not open. *)
Definition add_counts (k : KeyEntry) s : KeyEntry :=
  k <| KeyDb.count1 := u32 (KeyDb.count1 k + count1 (user s)) |> <| KeyDb.count2 := u32 (KeyDb.count2 k + count2 s) |>
    <| connections := u32 (connections k + 1) |>.

Definition relay_end s (d : option db) : option db :=
  if (count1 (user s) =? 0) && (count2 s =? 0) then d
  else
    match d with
    | None => None
    | Some d =>
      let '(ok, k) := db_load_key d (port2 (lp s)) blank_key in
      Some (if ok then default d (db_save_key d (port2 (lp s)) (add_counts k s)) else d)
    end.
End relay.
