(* ===== verification/RelaySpec.v ===== *)
(** * What holds of the session child

    The engineers' table and its counts; the links' invariant over one channel table, with what the
    record of calls must satisfy; every step of a pass keeps it, and so does the loop. *)

From S2P Require Import Prelude Tdb KeyDb ConnDb Session BinLog WebSocket MavLink Ports Relay.

Implicit Types c : Connection2.
Implicit Types tb : Table.

(** ** The table *)

Definition used_count tb : Z := len (filter (fun c => used c = true) (conn2 tb)).

(** The counts are exact: the watermark is one past the highest used slot. *)
Record table_ok tb : Prop := {
  tab_len : length (conn2 tb) = Z.to_nat MAX_COMM2_LINKS;
  tab_count : conn2_count tb = used_count tb;
  tab_below : forall i, used (at_ tb i) = true -> Z.of_nat i < max_conn2_count tb;
  tab_top : 0 < max_conn2_count tb -> used (at_ tb (Z.to_nat (max_conn2_count tb - 1))) = true;
  tab_range : 0 <= max_conn2_count tb <= MAX_COMM2_LINKS
}.

Lemma at_out tb i : (length (conn2 tb) <= i)%nat -> at_ tb i = conn2_new.
Proof. apply nth_overflow. Qed.

Lemma at_put tb i j c : (i < length (conn2 tb))%nat -> at_ (put tb i c) j = if decide (j = i) then c else at_ tb j.
Proof.
  intros Hi. unfold at_, put. cbn [conn2]. case_decide as E.
  - subst j. rewrite nth_lookup, list_lookup_insert by done. by rewrite decide_True.
  - by rewrite !nth_lookup, list_lookup_insert_ne by congruence.
Qed.

Lemma at_lookup tb i : (i < length (conn2 tb))%nat -> conn2 tb !! i = Some (at_ tb i).
Proof. intros Hi. unfold at_. rewrite nth_lookup. destruct (lookup_lt_is_Some_2 _ _ Hi) as [c ->]. done. Qed.

Lemma used_in tb i : table_ok tb -> used (at_ tb i) = true -> (i < length (conn2 tb))%nat.
Proof.
  intros Ht Hu. destruct (Nat.lt_ge_cases i (length (conn2 tb))) as [|Hi]; [done|]. by rewrite at_out in Hu.
Qed.

Lemma used_scan tb i : table_ok tb -> used (at_ tb i) = true -> in_scan tb i = true.
Proof. intros Ht Hu. apply Z.ltb_lt. by apply tab_below. Qed.

Lemma put_len tb i c : length (conn2 (put tb i c)) = length (conn2 tb).
Proof. unfold put. cbn [conn2]. apply length_insert. Qed.

(** Counting what is put in a slot. *)
Lemma count_insert (l : list Connection2) i c c' : l !! i = Some c ->
  len (filter (fun c => used c = true) (<[i := c']> l))
  = len (filter (fun c => used c = true) l) - (if used c then 1 else 0) + (if used c' then 1 else 0).
Proof.
  intros Hl. rewrite insert_take_drop by by apply lookup_lt_Some in Hl. rewrite <-(take_drop_middle l i c Hl) at 3.
  rewrite !list.filter_app, !filter_cons, !length_app. repeat case_decide; cbn [length]; destruct (used c), (used c'); try done; lia.
Qed.

Lemma put_count tb i c : (i < length (conn2 tb))%nat ->
  used_count (put tb i c) = used_count tb - (if used (at_ tb i) then 1 else 0) + (if used c then 1 else 0).
Proof. intros Hi. unfold used_count, put. cbn [conn2]. apply count_insert. by apply at_lookup. Qed.

(** A slot rewritten without being taken or freed. *)
Lemma put_same tb i c : table_ok tb -> (i < length (conn2 tb))%nat -> used c = used (at_ tb i) -> table_ok (put tb i c).
Proof.
  intros [H1 H2 H3 H4 H5] Hi Hu. assert (Ha : forall j, used (at_ (put tb i c) j) = used (at_ tb j)).
  { intros j. rewrite at_put by done. case_decide; [by subst|done]. }
  split; [by rewrite put_len| | | |done].
  - rewrite put_count, Hu by done. cbn [conn2_count put]. destruct (used _); lia.
  - intros j. rewrite Ha. apply H3.
  - intros Hm. rewrite Ha. by apply H4.
Qed.

(** [shrink] keeps the slots and finds the watermark. *)
Lemma shrink_spec n tb :
  (Z.to_nat (max_conn2_count tb) <= n)%nat -> 0 <= max_conn2_count tb ->
  let tb' := shrink n tb in
  conn2 tb' = conn2 tb /\ conn2_count tb' = conn2_count tb /\ 0 <= max_conn2_count tb' <= max_conn2_count tb
  /\ (0 < max_conn2_count tb' -> used (at_ tb (Z.to_nat (max_conn2_count tb' - 1))) = true)
  /\ (forall i, Z.of_nat i < max_conn2_count tb -> used (at_ tb i) = true -> Z.of_nat i < max_conn2_count tb').
Proof.
  cbv zeta. revert tb. induction n as [|n IH]; intros tb Hn Hm; cbn [shrink]; [split_and!; done || lia|].
  destruct (Z.ltb_spec 0 (max_conn2_count tb)) as [Hp|Hp]; cbn [andb]; [|split_and!; done || lia].
  destruct (used (at_ tb (Z.to_nat (max_conn2_count tb - 1)))) eqn:Hu; cbn [negb]; [split_and!; done || lia|].
  set (tb1 := tb <| max_conn2_count := max_conn2_count tb - 1 |>).
  destruct (IH tb1) as (H1 & H2 & H3 & H4 & H5); cbn [max_conn2_count tb1]; [lia|lia|].
  change (conn2 tb1) with (conn2 tb) in *. change (at_ tb1) with (at_ tb) in *. cbn [max_conn2_count conn2_count tb1] in *.
  split_and!; [done|done|lia|lia|done|]. intros i Hi Hui. apply H5; [|done].
  destruct (Z.eq_dec (Z.of_nat i) (max_conn2_count tb - 1)) as [E|]; [|lia]. rewrite <-E, Nat2Z.id in Hu. congruence.
Qed.

(** Freeing a used slot: that slot is closed, every other left, and the counts exact again. *)
Lemma close_conn2_spec tb i : table_ok tb -> used (at_ tb i) = true ->
  table_ok (close_conn2 tb i) /\ forall j, at_ (close_conn2 tb i) j = if decide (j = i) then conn2_close (at_ tb i) else at_ tb j.
Proof.
  intros Ht Hu. pose proof (used_in tb i Ht Hu) as Hi. destruct Ht as [H1 H2 H3 H4 H5]. unfold close_conn2.
  set (tb1 := put tb i (conn2_close (at_ tb i))).
  assert (Hc : used_count tb1 = used_count tb - 1) by (unfold tb1; rewrite put_count, Hu by done; cbn; lia).
  assert (Hpos : 0 < conn2_count tb1).
  { change (conn2_count tb1) with (conn2_count tb). unfold used_count in *. lia. }
  apply Z.ltb_lt in Hpos as ->. set (tb2 := tb1 <| conn2_count := conn2_count tb1 - 1 |>).
  destruct (shrink_spec (Z.to_nat (max_conn2_count tb2)) tb2) as (S1 & S2 & S3 & S4 & S5); [done|cbn; lia|].
  set (tb3 := shrink _ tb2) in *. assert (Ha : forall j, at_ tb3 j = if decide (j = i) then conn2_close (at_ tb i) else at_ tb j).
  { intros j. unfold at_ at 1. rewrite S1. change (at_ tb1 j = if decide (j = i) then conn2_close (at_ tb i) else at_ tb j).
    by apply at_put. }
  assert (Ha2 : forall j, at_ tb2 j = at_ tb3 j) by (intros j; unfold at_; by rewrite S1).
  change (max_conn2_count tb2) with (max_conn2_count tb) in *. split; [|done]. split.
  - rewrite S1. change (length (conn2 tb1) = Z.to_nat MAX_COMM2_LINKS). unfold tb1. by rewrite put_len.
  - rewrite S2. unfold used_count. rewrite S1. change (conn2_count tb - 1 = used_count tb1). lia.
  - intros j Hj. apply S5; [|by rewrite Ha2]. apply H3. rewrite Ha in Hj. case_decide; [by subst|done].
  - intros Hm. rewrite <-Ha2. by apply S4.
  - lia.
Qed.

Lemma free_spec tb i : free_conn2 tb = Some i -> used (at_ tb i) = false /\ (i < Z.to_nat MAX_COMM2_LINKS)%nat
  /\ forall j, (j < i)%nat -> used (at_ tb j) = true.
Proof.
  unfold free_conn2, slots. assert (Hg : forall k n, List.find (fun i => negb (used (at_ tb i))) (seq k n) = Some i ->
    used (at_ tb i) = false /\ (i < k + n)%nat /\ forall j, (k <= j < i)%nat -> used (at_ tb j) = true).
  { intros k n. revert k. induction n as [|n IH]; intros k; cbn [seq List.find]; [done|].
    destruct (used (at_ tb k)) eqn:E; cbn [negb].
    - intros (H1 & H2 & H3)%IH. split_and!; [done|lia|]. intros j Hj. destruct (decide (j = k)) as [->|]; [done|]. apply H3. lia.
    - intros [= <-]. split_and!; [done|lia|lia]. }
  intros (H1 & H2 & H3)%Hg. split_and!; [done|lia|]. intros j Hj. apply H3. lia.
Qed.

Lemma count_all (l : list Connection2) : (forall i, (i < length l)%nat -> used (nth i l conn2_new) = true) ->
  len (filter (fun c => used c = true) l) = len l.
Proof.
  induction l as [|c l IH]; intros Hu; [done|]. rewrite filter_cons. rewrite decide_True by apply (Hu O ltac:(cbn; lia)).
  cbn [length]. rewrite !Nat2Z.inj_succ, IH; [done|]. intros i Hi. apply (Hu (S i)). cbn. lia.
Qed.

Lemma count_take tb (m : nat) : (forall i, used (at_ tb i) = true -> (i < m)%nat) ->
  used_count tb = len (filter (fun c => used c = true) (take m (conn2 tb))).
Proof.
  intros Hm. unfold used_count. rewrite <-(take_drop m (conn2 tb)) at 1. rewrite list.filter_app, length_app.
  assert (Ez : filter (fun c => used c = true) (drop m (conn2 tb)) = []).
  { destruct (filter _ _) as [|c l] eqn:E; [done|exfalso]. assert (Hc : c ∈ c :: l) by by left. rewrite <-E in Hc.
    apply list_elem_of_filter in Hc as [Hu (k & Hk)%list_elem_of_lookup]. rewrite lookup_drop in Hk.
    assert (Hin : used (at_ tb (m + k)) = true) by (unfold at_; rewrite nth_lookup, Hk; done). apply Hm in Hin. lia. }
  rewrite Ez. cbn [length]. lia.
Qed.

Lemma count_bound tb (m : nat) : (forall i, used (at_ tb i) = true -> (i < m)%nat) -> used_count tb <= Z.of_nat m.
Proof.
  intros Hm. rewrite (count_take tb m Hm). pose proof (length_filter (fun c => used c = true) (take m (conn2 tb))).
  rewrite length_take in *. lia.
Qed.

(** Taking the first free slot. *)
Lemma take_slot tb i c : table_ok tb -> free_conn2 tb = Some i -> used c = true -> table_ok (count_conn2 (put tb i c)).
Proof.
  intros [H1 H2 H3 H4 H5] (F1 & F2 & F3)%free_spec Hc. assert (Hi : (i < length (conn2 tb))%nat) by lia.
  set (tb1 := put tb i c). assert (Hcount : used_count tb1 = used_count tb + 1) by (unfold tb1; rewrite put_count, F1, Hc by done; lia).
  assert (Hle : used_count tb1 <= MAX_COMM2_LINKS).
  { unfold used_count. pose proof (length_filter (fun c => used c = true) (conn2 tb1)). unfold tb1 in *. rewrite put_len in *.
    unfold MAX_COMM2_LINKS in *. lia. }
  assert (Hnn : 0 <= used_count tb) by (unfold used_count; lia).
  assert (Hu8 : u8 (conn2_count tb1 + 1) = used_count tb1).
  { change (conn2_count tb1) with (conn2_count tb). rewrite H2, <-Hcount. apply wrap_small. unfold MAX_COMM2_LINKS in *. lia. }
  unfold count_conn2. rewrite Hu8. assert (Ha : forall j, used (at_ tb1 j) = if decide (j = i) then true else used (at_ tb j)).
  { intros j. unfold tb1. rewrite at_put by done. by case_decide. }
  change (max_conn2_count tb1) with (max_conn2_count tb).
  (* when the slot is past the watermark every slot below it is used, and it is the next *)
  assert (Htop : Z.of_nat i < max_conn2_count tb \/ (max_conn2_count tb = Z.of_nat i /\ used_count tb1 = Z.of_nat i + 1)).
  { destruct (Z.lt_ge_cases (Z.of_nat i) (max_conn2_count tb)) as [|Hge]; [by left|right].
    assert (Em : max_conn2_count tb = Z.of_nat i).
    { destruct (Z.eq_dec (max_conn2_count tb) (Z.of_nat i)) as [|Hne]; [done|exfalso].
      pose proof (F3 (Z.to_nat (max_conn2_count tb)) ltac:(lia)) as Hu. apply H3 in Hu. lia. }
    split; [done|]. rewrite Hcount, (count_take tb i), count_all.
    - rewrite length_take. lia.
    - intros j Hj. rewrite length_take in Hj. rewrite nth_lookup, lookup_take_lt by lia. pose proof (F3 j ltac:(lia)) as Hu.
      unfold at_ in Hu. by rewrite nth_lookup in Hu.
    - intros j Hj. apply H3 in Hj. lia. }
  split; cbn [conn2 conn2_count max_conn2_count].
  - unfold tb1. by rewrite put_len.
  - done.
  - intros j Hj. change (used (at_ tb1 j) = true) in Hj. rewrite Ha in Hj. case_decide; [subst j; lia|]. apply H3 in Hj. lia.
  - intros _. change (used (at_ tb1 (Z.to_nat (Z.max (max_conn2_count tb) (used_count tb1) - 1))) = true). rewrite Ha.
    destruct Htop as [Hl|[E1 E2]].
    + case_decide; [done|]. assert (Hm : used_count tb1 <= max_conn2_count tb).
      { pose proof (count_bound tb1 (Z.to_nat (max_conn2_count tb))) as Hb. rewrite Z2Nat.id in Hb by lia. apply Hb.
        intros j Hj. rewrite Ha in Hj. case_decide; [subst j; lia|]. apply H3 in Hj. lia. }
      rewrite Z.max_l by lia. apply H4. lia.
    + rewrite decide_True by lia. done.
  - lia.
Qed.

(** ** The links *)

Section relay_spec.
Context {db cdb P : Type} {db_tdb : Tdb db} {db_laws : TdbLaws db} {cdb_tdb : Tdb cdb}.
Variable parse_char : P -> option signing -> Z -> P * option signing * bool * option message.
Variable msg_lengths : Z -> Z * Z.
Variable finalize : option signing -> message -> option bytes.
Variable decode_setup_signing : message -> Z * bytes.
Variable to_send_buffer : message -> option bytes.
Variable decode_system_time : message -> Z.
Variable decode_data_block : message -> Z * bytes.
Variable gmtime_r localtime_r : Z -> option tm.
Variable quota_env grace_env : option bytes.
Variable nack_order : gmap Z NackState -> list (Z * NackState).

(** The generated library's documented behaviour, as in [MavLink]. *)
Variable verifies : bytes -> message -> Prop.
Hypothesis parse_verified : forall p s b p' s' msg,
  parse_char p (Some s) b = (p', s', false, Some msg) ->
  Z.land (incompat_flags msg) MAVLINK_IFLAG_SIGNED <> 0 -> verifies (sg_secret_key s) msg.
Hypothesis parse_keeps_key : forall p s b p' s' called msg,
  parse_char p s b = (p', s', called, msg) -> sg_secret_key <$> s' = sg_secret_key <$> s.
Hypothesis setup_decodes : forall msg,
  is_u64 (decode_setup_signing msg).1 /\ length (decode_setup_signing msg).2 = 32%nat.
Hypothesis setup_bytes : forall msg, bytes_ok (decode_setup_signing msg).2.

Abbreviation Relay := (Relay.Relay (db := db) (P := P)).
Abbreviation Shared := (Relay.Shared (db := db) (P := P)).
Abbreviation Pass := (Relay.Pass (db := db) (cdb := cdb)).
Implicit Types s : Relay.
Implicit Types t : Pass.
Implicit Types h : Shared.
Implicit Types u : UserSide.

(** A message vouched for by the key its link was wired with; or by none, on a link that lost its
    signing block before. *)
Definition vouched (l : link) (before : list call) (k : option bytes) (msg : message) : Prop :=
  Z.land (incompat_flags msg) MAVLINK_IFLAG_SIGNED <> 0 /\ msgid msg <> MAVLINK_MSG_ID_SETUP_SIGNING
  /\ ((exists key, k = Some key /\ verifies key msg) \/ (k = None /\ Unwired l ∈ before)).

Lemma vouched_mono l cs cs' k msg : cs ⊆ cs' -> vouched l cs k msg -> vouched l cs' k msg.
Proof. intros Hs (V1 & V2 & [V3|[V3 V4]]); split_and!; [done|done|by left|done|done|right]. split; [done|by apply Hs]. Qed.

Definition link_ok (l : link) (ch kid : Z) (m : MAVLink) h : Prop := LinkInv (Unwired l ∈ calls h) ch kid (m, links h, keys h).

Definition grown h h' : Prop := exists es, calls h' = calls h ++ es.

Lemma grown_refl h : grown h h.
Proof. exists []. by rewrite app_nil_r. Qed.
Lemma grown_trans h1 h2 h3 : grown h1 h2 -> grown h2 h3 -> grown h1 h3.
Proof. intros [es1 E1] [es2 E2]. exists (es1 ++ es2). by rewrite E2, E1, app_assoc. Qed.
Lemma grown_in h h' e : grown h h' -> e ∈ calls h -> e ∈ calls h'.
Proof. intros [es ->] He. apply elem_of_app. by left. Qed.

(** Another link's operation on channel [ch0]. *)
Lemma link_frame ch0 l ch kid m h h' :
  link_ok l ch kid m h -> ch <> ch0 -> spares ch0 (links h) (links h') -> values_ok (keys h') -> grown h h' -> link_ok l ch kid m h'.
Proof.
  intros (E1 & E2 & Hw & _) Hc Hs Hv Hg. split_and!; [done|done| |done]. destruct Hw as [Hw|Hw]; [left|right; by eapply grown_in].
  intros Hl. apply Hs; [congruence|by apply Hw].
Qed.

Lemma values_note h e : keys (note h e) = keys h /\ links (note h e) = links h.
Proof. done. Qed.

(** What an operation on a link's channel leaves: the link is what it was, the store is well
    formed, the other channels keep their blocks, and the record grows. *)
Definition link_moves (l : link) (ch kid : Z) (m' : MAVLink) h h' : Prop :=
  link_ok l ch kid m' h' /\ spares ch (links h) (links h') /\ values_ok (keys h') /\ grown h h'
  /\ (keys h' = keys h \/ (kid <> -1 /\ ~ zero_stored (keys h') kid)).

(** What receiving may record besides: a signing warning, and that the link lost its block, which
    takes a store with an all-zero key that no save reaches. *)
Definition heard l (kid : Z) h (e : call) : Prop :=
  kid <> -1 /\ ((exists x, e = Warned l (mav_printf x)) \/ (e = Unwired l /\ zero_stored (keys h) kid /\ save_fails (keys h) kid)).

Lemma recv_on_spec l m h t buf o rest m' h' ch kid :
  link_ok l ch kid m h ->
  recv_on parse_char decode_setup_signing l m h t buf = Some (o, rest, m', h') ->
  link_moves l ch kid m' h h'
  /\ (exists es, calls h' = calls h ++ es /\ Forall (heard l kid h) es)
  /\ (kid <> -1 -> forall msg, o = Some msg -> vouched l (calls h) (secret_of h m) msg).
Proof.
  intros Hl. unfold recv_on. destruct (receive_message _ _ _ _ _ _ _ _ _) as [r|] eqn:Er; [|done].
  pose proof (receive_inv parse_char decode_setup_signing parse_keeps_key setup_decodes setup_bytes
    _ ch kid m (links h) (keys h) _ _ _ buf r Hl Er) as Hi.
  destruct (receive_keys parse_char decode_setup_signing parse_keeps_key setup_decodes setup_bytes
    m (links h) (keys h) _ _ _ buf r ltac:(apply Hl) Er) as [Hk Hu].
  pose proof (receive_warns parse_char decode_setup_signing _ _ _ _ _ _ _ _ Er) as Hw.
  assert (Hs : spares ch (links h) (rc_world r)) by (destruct Hl as (<- & _); by eapply spares_receive).
  assert (Ha : kid <> -1 -> forall msg, rc_msg r = Some msg -> vouched l (calls h) (secret_of h m) msg).
  { intros Hkid msg Em. destruct (receive_accepts parse_char decode_setup_signing verifies parse_verified parse_keeps_key
      _ ch kid m (links h) (keys h) (p_txn_ok t) (p_open_ok t) (p_now t) buf r msg Hkid Hl Er Em) as (E1 & E2 & _ & E3).
    split_and!; [done|done|]. unfold secret_of. destruct Hl as (-> & _).
    destruct E3 as [(sg & -> & E3)|[-> E3]]; [left; by eexists|by right]. }
  intros [= <- <- <- <-]. assert (Hv : values_ok (rc_db r)) by by destruct Hi as (_ & _ & _ & ?).
  set (h1 := Build_Shared (rc_world r) (rc_db r) _ _). set (h2 := match rc_out r with [] => h1 | _ => _ end).
  set (lost := loses_block _ _ _). set (h3 := if lost then _ else _).
  assert (H2 : links h2 = rc_world r /\ keys h2 = rc_db r /\ exists es, calls h2 = calls h ++ es /\ Forall (heard l kid h) es).
  { unfold h2. destruct Hl as (_ & Hid & _). destruct Hw as [->|(Hid' & x & Ex)].
    - split_and!; [done|done|]. exists []. by rewrite app_nil_r.
    - rewrite Ex. unfold mav_printf. split_and!; [done|done|]. exists [Warned l (mav_printf x)]. split; [done|]. apply list.Forall_singleton.
      split; [congruence|left; by exists x]. }
  destruct H2 as (L2 & K2 & es & C2 & F2). clearbody h2.
  assert (Hlost : lost = true <-> is_Some (wired (links h) ch) /\ wired (rc_world r) ch = None).
  { unfold lost, loses_block. destruct Hl as (-> & _). destruct (wired (links h) ch), (wired (rc_world r) ch); split; naive_solver. }
  assert (H3 : links h3 = rc_world r /\ keys h3 = rc_db r /\ (exists es, calls h3 = calls h ++ es /\ Forall (heard l kid h) es)
    /\ LinkInv (Unwired l ∈ calls h3) ch kid (rc_link r, rc_world r, rc_db r)).
  { unfold h3. destruct lost.
    - destruct Hl as (<- & <- & _). destruct (proj1 Hlost eq_refl) as [U1 U2]. destruct (Hu U1 U2) as (U3 & _ & _ & _ & U4).
      split_and!; [done|done| |].
      + exists (es ++ [Unwired l]). cbn [calls note]. rewrite C2, app_assoc. split; [done|]. apply list.Forall_app. split; [done|].
        apply list.Forall_singleton. split; [done|right]. by split.
      + eapply LinkInv_mono; [|exact Hi]. intros _. apply elem_of_app. right. by left.
    - split_and!; [done|done|by exists es|]. eapply LinkInv_mono; [|exact Hi]. rewrite C2. intros [U|U]; [apply elem_of_app; by left|].
      destruct U as (_ & U1 & U2 & _). pose proof (proj2 Hlost (conj U1 U2)). done. }
  destruct H3 as (L3 & K3 & (es3 & C3 & F3) & I3). clearbody h3. split_and!; [|by exists es3|done].
  destruct Hl as (<- & <- & _). unfold link_moves, link_ok. rewrite L3, K3.
  split; [exact I3|]. split; [done|]. split; [done|]. split; [by exists es3|done].
Qed.

Lemma send_on_spec l m h t msg l' ch kid :
  link_ok l' ch kid m h ->
  let r := send_on msg_lengths finalize l m h t msg in
  link_moves l' ch kid r.1.2 h r.2 /\ keys r.2 = keys h /\ exists ok out, calls r.2 = calls h ++ [SentTo l msg ok out].
Proof.
  intros Hl. unfold send_on. assert (Hn : exists os, (next_outcome h).2 = Build_Shared (links h) (keys h) os (calls h)).
  { unfold next_outcome. destruct h as [w k os cs]. destruct os as [|o os]; cbn; by eexists. }
  destruct Hn as (os & Hn). destruct (next_outcome h) as [o h1]. cbn [snd] in Hn. subst h1. cbv zeta.
  cbn [links keys calls]. pose proof (send_keeps msg_lengths finalize m (links h) o.1 o.2 (p_now t) msg) as Hk.
  destruct (send_message _ _ _ _ _ _ _ _) as [[[ok m'] w'] out]. destruct Hk as (K1 & K2 & K3 & _ & K5). cbn [fst snd].
  split; [|split; [done|by exists ok, out]]. split_and!; [|by intros ch' _; apply K5|by apply Hl|by eexists|by left].
  eapply LinkInv_mono; [|eapply LinkInv_same; [exact K1|exact K2|exact K3| |exact Hl]; apply K5].
  intros U. apply elem_of_app. by left.
Qed.

Lemma init_on_spec l h t k0 ch sr aw tcp kid m h' :
  values_ok (keys h) ->
  init_on h t k0 ch sr aw tcp kid = Some (m, h') ->
  link_moves l ch kid m h h' /\ keys h' = keys h /\ calls h' = calls h.
Proof.
  intros Hv. unfold init_on. destruct (init _ _ _ _ _ _ _ _ _) as [[m1 w1]|] eqn:Ei; [|done]. intros [= <- <-].
  split; [|done]. split; [|split; [exact (spares_init _ _ _ _ _ _ _ _ _ _ _ Ei)|split; [done|split; [exists []; by rewrite app_nil_r|by left]]]].
  destruct sr; [apply (LinkInv_mono False); [done|]; exact (init_inv _ _ _ _ _ _ _ _ _ _ _ Hv Ei)|].
  unfold init in Ei. injection Ei as <- <-. split_and!; [done|done|by left|done].
Qed.

(** ** What the record shows *)

Definition call_ok p (before : list call) (e : call) : Prop :=
  match e with
  | Accepted (Engineer i) k msg => vouched (Engineer i) before k msg
  | Accepted User k msg | Validated k msg => bidi p = true -> vouched User before k msg
  | SentTo User msg _ _ => exists i k, Accepted (Engineer i) k msg ∈ before
  | SentTo (Engineer _) msg _ _ => exists k, Accepted User k msg ∈ before
  | Warned l out => (exists x, out = mav_printf x) /\ (l = User -> bidi p = true)
  | Status _ => binlog_enabled p = true
  | _ => True
  end.

Definition calls_ok p (cs : list call) : Prop := forall cs1 e cs2, cs = cs1 ++ e :: cs2 -> call_ok p cs1 e.

Lemma calls_ok_snoc p cs e : calls_ok p cs -> call_ok p cs e -> calls_ok p (cs ++ [e]).
Proof.
  intros Hc He cs1 e' cs2 E. destruct cs2 as [|e2 cs2 _] using rev_ind.
  - apply app_inj_tail in E as [<- <-]. done.
  - rewrite app_comm_cons, app_assoc in E. apply app_inj_tail in E as [-> _]. by apply (Hc _ _ cs2).
Qed.

(** Allowed whatever came before. *)
Definition quiet p (e : call) : Prop := forall cs, call_ok p cs e.

Lemma calls_ok_quiet p cs es : calls_ok p cs -> Forall (quiet p) es -> calls_ok p (cs ++ es).
Proof.
  intros Hc Hq. revert cs Hc. induction Hq as [|e es He Hq IH]; intros cs Hc; [by rewrite app_nil_r|].
  rewrite (app_assoc cs [e] es : cs ++ e :: es = _). by apply IH, calls_ok_snoc.
Qed.

Lemma heard_quiet p l kid h es : (l = User -> kid <> -1 -> bidi p = true) -> Forall (heard l kid h) es -> Forall (quiet p) es.
Proof.
  intros Hb Hes. eapply list.Forall_impl; [exact Hes|]. intros e [Hid [[x ->]|[-> _]]] cs; [|done]. split; [by exists x|auto].
Qed.

(** Where no key is lost, [R], none is and none will be. *)
Variable R : Prop.
Definition kept_keys p h : Prop := R -> rekeys (keys h) (port2 p) /\ forall l, Unwired l ∉ calls h.

Lemma kept_keys_quiet p h h' es : kept_keys p h -> keys h' = keys h -> calls h' = calls h ++ es ->
  Forall (fun e => forall l, e <> Unwired l) es -> kept_keys p h'.
Proof.
  intros Hk Ek Ec Hes HR. destruct (Hk HR) as [K1 K2]. rewrite Ek, Ec. split; [done|]. intros l [Hin|Hin]%elem_of_app; [by apply (K2 l)|].
  rewrite list.Forall_forall in Hes. by apply (Hes _ Hin l).
Qed.

Lemma same_kept p h h' : kept_keys p h -> keys h' = keys h -> calls h' = calls h -> kept_keys p h'.
Proof. intros Hk Ek Ec. unfold kept_keys. by rewrite Ek, Ec. Qed.

Lemma kept_keys_heard p l kid h h' es :
  kept_keys p h -> (kid <> -1 -> kid = port2 p) -> (keys h' = keys h \/ (kid <> -1 /\ ~ zero_stored (keys h') kid)) ->
  calls h' = calls h ++ es -> Forall (heard l kid h) es -> kept_keys p h'.
Proof.
  intros Hk Hid Ek Ec Hes HR. destruct (Hk HR) as [K1 K2]. split.
  - destruct Ek as [->|[Hne Hz]]; [done|]. intros Hz'. rewrite <-Hid in Hz' by done. by destruct Hz.
  - intros l'. rewrite Ec. intros [Hin|Hin]%elem_of_app; [by apply (K2 l')|]. rewrite list.Forall_forall in Hes.
    destruct (Hes _ Hin) as [Hne [[x Ex]|(_ & Z1 & Z2)]]; [done|]. rewrite Hid in * by done. by apply K1.
Qed.

(** A slot: its link on its own channel when used, nothing of it left when not. *)
Definition slot_ok p (i : nat) c h : Prop :=
  if used c then link_ok (Engineer i) (CHAN_COMM2 i) (port2 p) (mav c) h /\ sock c = negb (is_udp c)
  else sock c = false /\ ws c = None.

(** The user's link exists when there is one, or when a datagram must prove itself. *)
Definition user_wired p u : Prop := have_conn1 u = true \/ (bidi p = true /\ has_fd (sock1_udp p) = true).

(** A UDP user of an entry that signs both ways has proved itself. *)
Definition latch_ok p u (cs : list call) : Prop :=
  bidi p = true -> have_conn1 u = true -> mav1_is_tcp u = false -> exists k msg, Validated k msg ∈ cs.

Record Core p u tb h : Prop := {
  core_table : table_ok tb;
  core_slots : forall i, slot_ok p i (at_ tb i) h;
  core_user : user_wired p u -> link_ok User CHAN_COMM1 (conn1_key_id p) (mav1 u) h;
  core_keys : values_ok (keys h);
  core_calls : calls_ok p (calls h);
  core_latch : latch_ok p u (calls h);
  core_port : port2 p <> -1;
  core_kept : kept_keys p h
}.
Hint Resolve core_table core_slots core_user core_keys core_calls core_latch core_port core_kept : core.

Definition Inv s : Prop := Core (lp s) (user s) (table s) (shared s).

Lemma chan_apart i j : i <> j -> CHAN_COMM2 i <> CHAN_COMM2 j.
Proof. unfold CHAN_COMM2. lia. Qed.
Lemma chan_user i : CHAN_COMM2 i <> CHAN_COMM1.
Proof. unfold CHAN_COMM2, CHAN_COMM1. lia. Qed.

Lemma slot_frame p (c0 : Z) i c h h' :
  slot_ok p i c h -> CHAN_COMM2 i <> c0 -> spares c0 (links h) (links h') -> values_ok (keys h') -> grown h h' -> slot_ok p i c h'.
Proof.
  unfold slot_ok. destruct (used c); [|done]. intros [Hl Hs] Hc Hw Hv Hg. split; [|done]. by eapply link_frame.
Qed.

Lemma latch_grows p u cs es : latch_ok p u cs -> latch_ok p u (cs ++ es).
Proof. intros Hl H1 H2 H3. destruct (Hl H1 H2 H3) as (k & msg & Hin). exists k, msg. apply elem_of_app. by left. Qed.

(** An operation of the user's link. *)
Lemma core_user_moves p u tb h u' h' :
  Core p u tb h -> link_moves User CHAN_COMM1 (conn1_key_id p) (mav1 u') h h' -> calls_ok p (calls h') -> latch_ok p u' (calls h') ->
  kept_keys p h' -> Core p u' tb h'.
Proof.
  intros [C1 C2 C3 C4 C5 C6 C7 C8] (L1 & L2 & L3 & L4 & _) Hc Hl Hk. split; [done| |done..].
  intros i. eapply slot_frame; [by apply C2|apply chan_user|done..].
Qed.

(** An operation of a slot's. *)
Lemma core_slot_moves p u tb h i c' h' :
  Core p u tb h -> (i < length (conn2 tb))%nat -> used (at_ tb i) = true -> used c' = true -> sock c' = negb (is_udp c') ->
  link_moves (Engineer i) (CHAN_COMM2 i) (port2 p) (mav c') h h' -> calls_ok p (calls h') -> latch_ok p u (calls h') ->
  kept_keys p h' -> Core p u (put tb i c') h'.
Proof.
  intros [C1 C2 C3 C4 C5 C6 C7 C8] Hi Hu Hu' Hs (L1 & L2 & L3 & L4 & _) Hc Hl Hk. split; [|intros j| |done..].
  - apply put_same; [done|done|congruence].
  - rewrite at_put by done. case_decide as E.
    + subst j. unfold slot_ok. by rewrite Hu'.
    + eapply slot_frame; [by apply C2|by apply chan_apart|done..].
  - intros Hw. eapply link_frame; [by apply C3|by apply not_eq_sym, chan_user|done..].
Qed.

(** The table alone. *)
Lemma core_close p u tb h i : Core p u tb h -> used (at_ tb i) = true -> Core p u (close_conn2 tb i) h.
Proof.
  intros [C1 C2 C3 C4 C5 C6 C7 C8] Hu. destruct (close_conn2_spec tb i C1 Hu) as [T1 T2]. split; try done.
  intros j. rewrite T2. case_decide; [done|apply C2].
Qed.

(** ** What a step may do besides *)

(** A slot in use was in use before, since the same time, or was taken in this pass. *)
Definition kept (wall : Z) tb tb' : Prop := forall i, used (at_ tb' i) = true ->
  connected_at (at_ tb' i) = wall \/ (used (at_ tb i) = true /\ connected_at (at_ tb' i) = connected_at (at_ tb i)).

Lemma kept_refl wall tb : kept wall tb tb.
Proof. intros i Hi. by right. Qed.
Lemma kept_trans wall tb1 tb2 tb3 : kept wall tb1 tb2 -> kept wall tb2 tb3 -> kept wall tb1 tb3.
Proof. intros H1 H2 i [|[Hu E]]%H2; [by left|]. destruct (H1 i Hu) as [|[Hu' E']]; [left; congruence|right; split; congruence]. Qed.
Hint Resolve kept_refl kept_trans grown_refl grown_trans grown_in : core.

Lemma kept_put wall tb i c : (i < length (conn2 tb))%nat ->
  (used c = true -> connected_at c = wall \/ (used (at_ tb i) = true /\ connected_at c = connected_at (at_ tb i))) ->
  kept wall tb (put tb i c).
Proof. intros Hi Hc j. rewrite at_put by done. case_decide; [subst j; apply Hc|by right]. Qed.

Lemma kept_close wall tb i : table_ok tb -> used (at_ tb i) = true -> kept wall tb (close_conn2 tb i).
Proof. intros Ht Hu j. destruct (close_conn2_spec tb i Ht Hu) as [_ ->]. case_decide; [done|by right]. Qed.

(** The user's side, the table and what is shared, moved together. *)
Definition moves p t u tb h u' tb' h' : Prop :=
  Core p u tb h -> Core p u' tb' h' /\ kept (p_wall t) tb tb' /\ grown h h'.

Lemma moves_refl p t u tb h : moves p t u tb h u tb h.
Proof. intros C. split_and!; auto. Qed.

Lemma moves_trans p t u tb h u1 tb1 h1 u2 tb2 h2 :
  moves p t u tb h u1 tb1 h1 -> moves p t u1 tb1 h1 u2 tb2 h2 -> moves p t u tb h u2 tb2 h2.
Proof. intros M1 M2 C. destruct (M1 C) as (C1 & K1 & G1). destruct (M2 C1) as (C2 & K2 & G2). split_and!; eauto. Qed.

(** Only [have_conn1], [mav1] and [mav1_is_tcp] of the user's side matter, and of the port its
    number, its policy and whether the UDP socket is open. *)
Lemma core_user_same p u u' tb h :
  have_conn1 u' = have_conn1 u -> mav1 u' = mav1 u -> mav1_is_tcp u' = mav1_is_tcp u -> Core p u tb h -> Core p u' tb h.
Proof.
  intros E1 E2 E3 [C1 C2 C3 C4 C5 C6 C7 C8]. split; try done; unfold user_wired, latch_ok in *; by rewrite ?E1, ?E2, ?E3.
Qed.

Lemma core_port_same p p' u tb h :
  port2 p' = port2 p -> flags p' = flags p -> (has_fd (sock1_udp p') = true -> has_fd (sock1_udp p) = true) -> Core p u tb h -> Core p' u tb h.
Proof.
  intros E1 E2 E3 [C1 C2 C3 C4 C5 C6 C7 C8].
  assert (Eb : bidi p' = bidi p) by (unfold bidi; by rewrite E2).
  split; [done| | |done| | |congruence|].
  - intros i. specialize (C2 i). unfold slot_ok in *. by rewrite E1.
  - unfold user_wired, conn1_key_id in *. rewrite Eb, E1. intros Hw. apply C3. tauto.
  - intros cs1 e cs2 E. specialize (C5 cs1 e cs2 E). unfold call_ok, binlog_enabled in *. by rewrite Eb, E2.
  - unfold latch_ok in *. by rewrite Eb.
  - unfold kept_keys in *. by rewrite E1.
Qed.

(** *** Sending to an engineer *)

Lemma sent_calls p h h' l msg ok out :
  calls_ok p (calls h) -> call_ok p (calls h) (SentTo l msg ok out) -> calls h' = calls h ++ [SentTo l msg ok out] -> calls_ok p (calls h').
Proof. intros Hc He ->. by apply calls_ok_snoc. Qed.

Lemma sent_kept p h h' l msg ok out :
  kept_keys p h -> keys h' = keys h -> calls h' = calls h ++ [SentTo l msg ok out] -> kept_keys p h'.
Proof. intros Hk Ek Ec. eapply kept_keys_quiet; [exact Hk|exact Ek|exact Ec|]. by apply list.Forall_singleton. Qed.

Lemma send_conn2_moves p t u tb h msg i k :
  Accepted User k msg ∈ calls h -> used (at_ tb i) = true ->
  let r := send_conn2 msg_lengths finalize tb h t msg i in
  moves p t u tb h u r.1.2 r.2 /\ used (at_ r.1.2 i) = true /\ Accepted User k msg ∈ calls r.2.
Proof.
  intros Ha Hu. cbv zeta. unfold send_conn2. pose proof (send_on_spec (Engineer i) (mav (at_ tb i)) h t msg) as Hs.
  destruct (send_on _ _ _ _ _ _ _) as [[ok m] h'] eqn:Es. cbn [fst snd] in *.
  assert (Hi : (i < length (conn2 tb))%nat).
  { destruct (Nat.lt_ge_cases i (length (conn2 tb))) as [|Ho]; [done|]. by rewrite at_out in Hu. }
  assert (Hg : grown h h').
  { revert Es. unfold send_on, next_outcome. destruct (outcomes h); repeat case_match; intros [= _ _ <-]; by eexists. }
  split_and!; [|rewrite at_put by done; by rewrite decide_True|by eapply grown_in].
  intros C. pose proof (core_slots p u tb h C i) as Hsl. unfold slot_ok in Hsl. rewrite Hu in Hsl. destruct Hsl as [Hl Hk].
  destruct (Hs _ _ _ Hl) as (Hm & Ek & ok' & out & Ec). split_and!; [|apply kept_put; [done|by right]|done].
  apply (core_slot_moves p u tb h i _ h' C); try done.
  - apply (sent_calls p h h' (Engineer i) msg ok' out); [apply C| |done]. by exists k.
  - rewrite Ec. apply latch_grows, C.
  - eapply sent_kept; [apply C|done..].
Qed.

Lemma put_note_moves p t u tb h i c' :
  used (at_ tb i) = true -> used c' = true -> mav c' = mav (at_ tb i) -> sock c' = sock (at_ tb i) -> is_udp c' = is_udp (at_ tb i) ->
  connected_at c' = connected_at (at_ tb i) -> moves p t u tb h u (put tb i c') h.
Proof.
  intros Hu Hu' Em Es Eu Ec C. pose proof (used_in tb i (core_table p u tb h C) Hu) as Hi. split_and!; [|apply kept_put; [done|by right]|auto].
  destruct C as [C1 C2 C3 C4 C5 C6 C7 C8]. split; try done; [apply put_same; [done|done|congruence]|]. intros j. rewrite at_put by done.
  case_decide; [|apply C2]. subst j. specialize (C2 i). unfold slot_ok in *. rewrite Hu in C2. by rewrite Hu', Em, Es, Eu.
Qed.

Lemma close_moves p t u tb h i : used (at_ tb i) = true -> moves p t u tb h u (close_conn2 tb i) h.
Proof. intros Hu C. split_and!; [by apply core_close|apply kept_close; [apply C|done]|auto]. Qed.

Lemma forward_moves p t u udp msg tb h i k :
  Accepted User k msg ∈ calls h ->
  let r := forward msg_lengths finalize udp t msg (tb, h) i in moves p t u tb h u r.1 r.2 /\ Accepted User k msg ∈ calls r.2.
Proof.
  intros Ha. cbv zeta. unfold forward. destruct (in_scan tb i && used (at_ tb i)) eqn:E; cbn [negb]; [|split; [apply moves_refl|done]].
  apply andb_true_iff in E as [_ Hu]. destruct (send_conn2_moves p t u tb h msg i k Ha Hu) as (M & U & A).
  assert (Hnote : forall tb' h', used (at_ tb' i) = true -> moves p t u tb' h' u (put tb' i (note_tx (at_ tb' i))) h')
    by (intros; by apply put_note_moves).
  destruct (udp && is_udp _).
  - destruct (send_conn2 _ _ tb h t msg i) as [[ok tb1] h1]. cbn [fst snd] in *. split; [|done].
    eapply moves_trans; [exact M|by apply Hnote].
  - destruct (udp && negb _); [split; [apply moves_refl|done]|].
    destruct (send_conn2 _ _ tb h t msg i) as [[ok tb1] h1]. cbn [fst snd] in *. split; [|done].
    eapply moves_trans; [exact M|]. destruct ok; [by apply Hnote|by apply close_moves].
Qed.

Lemma forward_all_moves p t u udp msg tb h k :
  Accepted User k msg ∈ calls h ->
  let r := forward_all msg_lengths finalize udp t msg (tb, h) in moves p t u tb h u r.1 r.2.
Proof.
  cbv zeta. unfold forward_all. revert tb h. induction slots as [|i is_ IH]; intros tb h Ha; [apply moves_refl|]. cbn [fold_left].
  destruct (forward_moves p t u udp msg tb h i k Ha) as [M A]. destruct (forward _ _ udp t msg (tb, h) i) as [tb1 h1].
  eapply moves_trans; [exact M|by apply IH].
Qed.

(** *** On the whole state *)

Definition keeps t s s' : Prop := Inv s -> Inv s'
  /\ (port2 (lp s') = port2 (lp s) /\ flags (lp s') = flags (lp s) /\ (has_fd (sock1_udp (lp s')) = true -> has_fd (sock1_udp (lp s)) = true))
  /\ kept (p_wall t) (table s) (table s') /\ grown (shared s) (shared s').

Lemma keeps_refl t s : keeps t s s.
Proof. intros I. split_and!; auto. Qed.

Lemma keeps_trans t s1 s2 s3 : keeps t s1 s2 -> keeps t s2 s3 -> keeps t s1 s3.
Proof.
  intros K1 K2 I. destruct (K1 I) as (I2 & (E1 & E2 & E3) & T2 & G2). destruct (K2 I2) as (I3 & (E4 & E5 & E6) & T3 & G3).
  split_and!; [done|congruence|congruence|auto|eauto|eauto].
Qed.

Lemma keeps_moves t s s' : lp s' = lp s ->
  moves (lp s) t (user s) (table s) (shared s) (user s') (table s') (shared s') -> keeps t s s'.
Proof. intros E M I. destruct (M I) as (C & K & G). unfold Inv. rewrite E. split_and!; done. Qed.

(** Parts of the state no claim is about. *)
Lemma keeps_user t s s' :
  lp s' = lp s -> table s' = table s -> shared s' = shared s ->
  have_conn1 (user s') = have_conn1 (user s) -> mav1 (user s') = mav1 (user s) -> mav1_is_tcp (user s') = mav1_is_tcp (user s) ->
  keeps t s s'.
Proof.
  intros E1 E2 E3 E4 E5 E6. apply keeps_moves; [done|]. rewrite E2, E3. intros C. split_and!; auto.
  by apply (core_user_same _ (user s)).
Qed.

Lemma keeps_calls t s s' es :
  lp s' = lp s -> user s' = user s -> table s' = table s -> links (shared s') = links (shared s) -> keys (shared s') = keys (shared s) ->
  calls (shared s') = calls (shared s) ++ es -> Forall (quiet (lp s)) es -> Forall (fun e => forall l, e <> Unwired l) es -> keeps t s s'.
Proof.
  intros E1 E2 E3 E4 E5 E6 Hq Hu. apply keeps_moves; [done|]. rewrite E2, E3. intros [C1 C2 C3 C4 C5 C6 C7 C8]. split_and!; auto; [|by exists es].
  assert (Hl : forall l ch kid m, link_ok l ch kid m (shared s) -> link_ok l ch kid m (shared s')).
  { unfold link_ok. intros l ch kid m. rewrite E4, E5, E6. apply LinkInv_mono. intros Hin. apply elem_of_app. by left. }
  split; [done| | |by rewrite E5| | |done|by eapply kept_keys_quiet].
  - intros i. specialize (C2 i). unfold slot_ok in *. destruct (used _); [|done]. split; [apply Hl|]; apply C2.
  - intros Hw. by apply Hl, C3.
  - rewrite E6. by apply calls_ok_quiet.
  - rewrite E6. by apply latch_grows.
Qed.

Lemma user_msg_keeps udp s t msg k :
  Accepted User k msg ∈ calls (shared s) ->
  keeps t s (user_msg msg_lengths finalize to_send_buffer decode_system_time decode_data_block gmtime_r localtime_r quota_env grace_env
               udp s t msg).
Proof.
  intros Ha. unfold user_msg. set (s1 := set_logs (set_user s (note_rx1 (user s))) _). cbv zeta.
  assert (K1 : keeps t s s1) by by apply keeps_user. change (shared s) with (shared s1) in Ha. clearbody s1.
  eapply keeps_trans; [exact K1|]. destruct (binlog_handle_user_msg _ _ _ _ _ _ _ _ _ _) as [strip lg].
  assert (K2 : keeps t s1 (set_logs s1 lg)) by by apply keeps_user.
  destruct strip; [done|]. eapply keeps_trans; [exact K2|]. change (shared s1) with (shared (set_logs s1 lg)) in Ha. clear K1 K2.
  generalize dependent (set_logs s1 lg). intros s2 Ha.
  pose proof (forward_all_moves (lp s2) t (user s2) udp msg (table s2) (shared s2) k Ha) as M.
  destruct (forward_all _ _ _ _ _ _) as [tb h]. by apply keeps_moves.
Qed.

Abbreviation user_loop := (user_loop parse_char msg_lengths finalize decode_setup_signing to_send_buffer decode_system_time
  decode_data_block gmtime_r localtime_r quota_env grace_env).
Abbreviation validate := (validate parse_char decode_setup_signing).
Abbreviation engineer_loop := (engineer_loop parse_char msg_lengths finalize decode_setup_signing to_send_buffer).
Abbreviation recv_on := (recv_on parse_char decode_setup_signing).

Lemma link_noted l ch kid m h h' e : link_moves l ch kid m h h' -> link_moves l ch kid m h (note h' e).
Proof.
  intros (L1 & L2 & L3 & L4 & L5). split; [|split; [done|split; [done|split; [|done]]]].
  - eapply LinkInv_mono; [|exact L1]. intros Hin. apply elem_of_app. by left.
  - eapply grown_trans; [exact L4|]. by exists [e].
Qed.

(** A message, or none, off the user's link; [e]: how the message is recorded. *)
Lemma recv_user_keeps s t buf o rest m h e :
  user_wired (lp s) (user s) -> recv_on User (mav1 (user s)) (shared s) t buf = Some (o, rest, m, h) -> (forall msg l, e msg <> Unwired l) ->
  (forall msg, o = Some msg -> (bidi (lp s) = true -> vouched User (calls h) (secret_of (shared s) (mav1 (user s))) msg) -> call_ok (lp s) (calls h) (e msg)) ->
  keeps t s (set_shared (set_user s (set_mav1 (user s) m)) (match o with Some msg => note h (e msg) | None => h end)).
Proof.
  intros Hw Er Hne He. apply keeps_moves; [done|]. intros C.
  destruct (recv_on_spec _ _ _ _ _ _ _ _ _ _ _ (core_user _ _ _ _ C Hw) Er) as (L & (es & Ec & Hq) & Ha).
  assert (Hb : conn1_key_id (lp s) <> -1 -> bidi (lp s) = true) by (unfold conn1_key_id; by destruct (bidi (lp s))).
  assert (Hc : calls_ok (lp s) (calls h)).
  { rewrite Ec. apply calls_ok_quiet; [apply C|]. eapply heard_quiet; [|exact Hq]. auto. }
  assert (Hl : latch_ok (lp s) (user s) (calls h)) by (rewrite Ec; apply latch_grows, C).
  assert (G : grown (shared s) h) by by exists es.
  assert (Hk : bidi (lp s) = true -> conn1_key_id (lp s) <> -1) by (unfold conn1_key_id; intros ->; apply C).
  assert (Hkk : kept_keys (lp s) h).
  { eapply kept_keys_heard; [apply C| |apply L|exact Ec|exact Hq]. unfold conn1_key_id. by destruct (bidi _). }
  split_and!; [| apply kept_refl|].
  - apply (core_user_moves _ (user s) _ (shared s) _ _ C).
    + destruct o as [msg|]; [|done]. by apply link_noted.
    + destruct o as [msg|]; [|done]. apply calls_ok_snoc; [done|]. apply He; [done|]. intros Hbi.
      eapply vouched_mono; [|apply Ha; [by apply Hk|done]]. intros e' He'. by eapply grown_in.
    + destruct o; [|done]. by apply latch_grows.
    + destruct o as [msg|]; [|done]. eapply kept_keys_quiet; [exact Hkk|done|done|]. by apply list.Forall_singleton.
  - destruct o as [msg|]; [|done]. eapply grown_trans; [exact G|]. by exists [e msg].
Qed.

Abbreviation user_msg := (user_msg msg_lengths finalize to_send_buffer decode_system_time decode_data_block gmtime_r localtime_r
  quota_env grace_env).

Lemma user_msg_same udp s t msg :
  lp (user_msg udp s t msg) = lp s /\ have_conn1 (user (user_msg udp s t msg)) = have_conn1 (user s).
Proof.
  unfold Relay.user_msg. cbv zeta. destruct (binlog_handle_user_msg _ _ _ _ _ _ _ _ _ _) as [[] lg]; [done|].
  by destruct (forward_all _ _ _ _ _ _) as [tb h].
Qed.

Lemma accept_in h k l msg : Accepted l k msg ∈ calls (note h (Accepted l k msg)).
Proof. apply elem_of_app. right. by left. Qed.

Lemma user_loop_keeps fuel udp s t buf :
  user_wired (lp s) (user s) -> keeps t s (user_loop fuel udp s t buf).2.
Proof.
  revert s buf. induction fuel as [|fuel IH]; intros s buf Hw; [apply keeps_refl|]. cbn [Relay.user_loop].
  destruct buf as [|b buf]; [apply keeps_refl|]. set (k := secret_of (shared s) (mav1 (user s))).
  destruct (recv_on User (mav1 (user s)) (shared s) t (b :: buf)) as [[[[o rest] m] h]|] eqn:Er; [|apply keeps_refl].
  pose proof (recv_user_keeps s t (b :: buf) o rest m h (fun msg => Accepted User k msg) Hw Er ltac:(done)) as Hr.
  destruct o as [msg|]; [|by apply Hr]. set (s1 := set_shared (set_user s (set_mav1 (user s) m)) (note h (Accepted User k msg))) in *.
  assert (K1 : keeps t s s1) by (apply Hr; intros msg' _ Ha Hb; by apply Ha).
  destruct (user_msg_same udp s1 t msg) as [E1 E2]. eapply keeps_trans; [exact K1|].
  eapply keeps_trans; [apply (user_msg_keeps udp s1 t msg k), accept_in|]. apply IH. unfold user_wired in *. rewrite E1, E2.
  destruct Hw as [Hw|Hw]; [by left|by right].
Qed.

Lemma user_bytes_keeps udp s t buf : user_wired (lp s) (user s) ->
  keeps t s (user_bytes parse_char msg_lengths finalize decode_setup_signing to_send_buffer decode_system_time
    decode_data_block gmtime_r localtime_r quota_env grace_env udp s t buf).2.
Proof. intros Hw. unfold user_bytes. destruct (wanted s); [by apply user_loop_keeps|apply keeps_refl]. Qed.

(** What proving itself leaves of a UDP user: its state, and the proof when there is one. *)
Definition proved s (v : bool) : Prop := v = true -> exists k msg, Validated k msg ∈ calls (shared s).

Lemma validate_keeps fuel s t buf v v' s' :
  bidi (lp s) = true -> has_fd (sock1_udp (lp s)) = true -> proved s v ->
  validate fuel s t buf v = Some (v', s') ->
  keeps t s s' /\ proved s' v' /\ lp s' = lp s.
Proof.
  intros Hb Hsock. revert s buf v Hb Hsock. induction fuel as [|fuel IH]; intros s buf v Hb Hsock Hp; cbn [Relay.validate].
  { intros [= <- <-]. split_and!; [apply keeps_refl|done|done]. }
  destruct buf as [|b buf]; [intros [= <- <-]; split_and!; [apply keeps_refl|done|done]|].
  set (k := secret_of (shared s) (mav1 (user s))). assert (Hw : user_wired (lp s) (user s)) by by right.
  destruct (recv_on User (mav1 (user s)) (shared s) t (b :: buf)) as [[[[o rest] m] h]|] eqn:Er; [|done].
  pose proof (recv_user_keeps s t (b :: buf) o rest m h (fun msg => Validated k msg) Hw Er ltac:(done)) as Hr.
  assert (K1 : keeps t s (set_shared (set_user s (set_mav1 (user s) m)) (match o with Some msg => note h (Validated k msg) | None => h end)))
    by (apply Hr; intros msg' _ Ha Hb'; by apply Ha).
  destruct o as [msg|].
  - intros E. apply IH in E as (K2 & P2 & E2); [|done|done|]; cycle 1.
    { intros _. exists k, msg. apply elem_of_app. right. by left. }
    split_and!; [|done|by rewrite E2]. by eapply keeps_trans.
  - intros [= <- <-]. split_and!; [done| |done]. intros Hv. destruct (Hp Hv) as (k' & msg & Hin). exists k', msg.
    unfold Relay.recv_on in Er. destruct (receive_message _ _ _ _ _ _ _ _ _) as [r|]; [|done]. injection Er as _ _ _ <-.
    cbn [shared set_shared]. destruct (rc_out r), (loses_block _ _ _); cbn [calls note]; rewrite ?elem_of_app; by repeat left.
Qed.

(** *** From an engineer *)

Lemma recv_engineer_keeps s t i buf o rest m h k c' :
  used (at_ (table s) i) = true -> k = secret_of (shared s) (mav (at_ (table s) i)) ->
  recv_on (Engineer i) (mav (at_ (table s) i)) (shared s) t buf = Some (o, rest, m, h) ->
  mav c' = m -> used c' = true -> sock c' = sock (at_ (table s) i) -> is_udp c' = is_udp (at_ (table s) i) ->
  connected_at c' = connected_at (at_ (table s) i) ->
  keeps t s (set_shared (set_table s (put (table s) i c')) (match o with Some msg => note h (Accepted (Engineer i) k msg) | None => h end)).
Proof.
  intros Hu -> Er Em Hu' Es Eu Ec. apply keeps_moves; [done|]. intros C. set (tb := table s) in *. pose proof (core_slots _ _ _ _ C i) as Hsl.
  unfold slot_ok in Hsl. rewrite Hu in Hsl. destruct Hsl as [Hl Hk]. pose proof (used_in tb i (core_table _ _ _ _ C) Hu) as Hi.
  destruct (recv_on_spec _ _ _ _ _ _ _ _ _ _ _ Hl Er) as (L & (es & Eh & Hq) & Ha). subst m.
  assert (Hc : calls_ok (lp s) (calls h)).
  { rewrite Eh. apply calls_ok_quiet; [apply C|]. eapply heard_quiet; [|exact Hq]. done. }
  assert (G : grown (shared s) h) by by exists es.
  assert (Hkk : kept_keys (lp s) h).
  { eapply kept_keys_heard; [apply C|done|apply L|exact Eh|exact Hq]. }
  split_and!; [|apply kept_put; [done|by right]|].
  - apply (core_slot_moves _ _ tb (shared s)); [done|done|done|done|congruence|destruct o; [by apply link_noted|done]| | |].
    + destruct o as [msg|]; [|done]. apply calls_ok_snoc; [done|]. eapply vouched_mono; [|apply Ha; [apply C|done]].
      intros e' He'. by eapply grown_in.
    + assert (Hlat : latch_ok (lp s) (user s) (calls h)) by (rewrite Eh; apply latch_grows, C). destruct o; [|done]. by apply latch_grows.
    + destruct o as [msg|]; [|done]. eapply kept_keys_quiet; [exact Hkk|done|done|]. by apply list.Forall_singleton.
  - destruct o as [msg|]; [|done]. eapply grown_trans; [exact G|]. by eexists [_].
Qed.

Lemma send_user_keeps s t msg i k :
  user_wired (lp s) (user s) -> Accepted (Engineer i) k msg ∈ calls (shared s) ->
  let r := send_on msg_lengths finalize User (mav1 (user s)) (shared s) t msg in
  keeps t s (set_shared (set_user s (set_mav1 (user s) r.1.2)) r.2).
Proof.
  intros Hw Ha. cbv zeta. apply keeps_moves; [done|]. intros C.
  destruct (send_on_spec User (mav1 (user s)) (shared s) t msg _ _ _ (core_user _ _ _ _ C Hw)) as (L & Ek & ok & out & Ec).
  split_and!; [|apply kept_refl|by eexists]. apply (core_user_moves _ (user s) _ (shared s)); [done|done| | |].
  - apply (sent_calls _ (shared s) _ User msg ok out); [apply C| |done]. by exists i, k.
  - cbn [calls shared set_shared]. rewrite Ec. by apply latch_grows, C.
  - eapply sent_kept; [apply C|done..].
Qed.

Lemma engineer_loop_keeps fuel s t i buf :
  have_conn1 (user s) = true -> used (at_ (table s) i) = true -> Inv s -> keeps t s (engineer_loop fuel s t i buf).2.
Proof.
  revert s buf. induction fuel as [|fuel IH]; intros s buf Hw Hu I; [apply keeps_refl|]. cbn [Relay.engineer_loop].
  destruct buf as [|b buf]; [apply keeps_refl|]. set (k := secret_of (shared s) (mav (at_ (table s) i))).
  destruct (recv_on (Engineer i) _ (shared s) t (b :: buf)) as [[[[o rest] m] h]|] eqn:Er; [|apply keeps_refl].
  pose proof (recv_engineer_keeps s t i (b :: buf) o rest m h k) as Hr. cbv zeta.
  destruct o as [msg|]; [|by apply (Hr (set_mav (at_ (table s) i) m))].
  set (s1 := set_shared (set_table s (rx_conn2 (table s) i m)) (note h (Accepted (Engineer i) k msg))) in *.
  assert (K1 : keeps t s s1) by by apply (Hr (note_rx (set_mav (at_ (table s) i) m))).
  set (s2 := set_logs s1 _). assert (K2 : keeps t s1 s2) by by apply keeps_user.
  pose proof (send_user_keeps s2 t msg i k (or_introl Hw) (accept_in h k (Engineer i) msg)) as K3.
  destruct (send_on _ _ User (mav1 (user s2)) (shared s2) t msg) as [[ok m1] h1]. cbn [fst snd] in K3.
  set (s3 := set_shared (set_user s2 (set_mav1 (user s2) m1)) h1) in *.
  assert (K : keeps t s s3) by (eapply keeps_trans; [exact K1|]; by eapply keeps_trans).
  destruct ok; [|done]. set (s4 := set_user s3 (note_tx1 (user s3))).
  assert (K4 : keeps t s s4) by (eapply keeps_trans; [exact K|]; by apply keeps_user).
  eapply keeps_trans; [exact K4|]. apply IH; [done| |by apply K4].
  change (used (at_ (rx_conn2 (table s) i m) i) = true). unfold rx_conn2.
  rewrite at_put by (apply (used_in _ _ (core_table _ _ _ _ I) Hu)). by rewrite decide_True.
Qed.

Abbreviation engineer_bytes := (engineer_bytes parse_char msg_lengths finalize decode_setup_signing to_send_buffer).

Lemma engineer_bytes_keeps s t i buf : used (at_ (table s) i) = true -> keeps t s (engineer_bytes s t i buf).2.
Proof.
  intros Hu I. unfold Relay.engineer_bytes. destruct (have_conn1 (user s)) eqn:Hw; cbn [andb]; [|by apply keeps_refl].
  destruct (0 <? _); [|by apply keeps_refl]. by apply engineer_loop_keeps.
Qed.

(** *** The steps *)

(** [Null]: the child has died of a null database. *)
Definition fine t s (r : verdict * Relay) : Prop := r.1 <> Null -> keeps t s r.2.

Lemma fine_keeps t s r : keeps t s r.2 -> fine t s r.
Proof. by intros K _. Qed.

Lemma fine_bind t s r k : fine t s r -> (forall s', keeps t s s' -> fine t s' (k s')) -> fine t s (bind r k).
Proof.
  intros Hr Hk. destruct r as [[] s']; cbn [bind]; [|exact Hr..]. assert (K : keeps t s s') by by apply Hr.
  intros Hn. eapply keeps_trans; [exact K|]. by apply Hk.
Qed.

Lemma fine_trans t s s' r : keeps t s s' -> fine t s' r -> fine t s r.
Proof. intros K F Hn. eapply keeps_trans; [exact K|by apply F]. Qed.

(** Under the invariant, where a step needs it. *)
Lemma fine_inv t s r : (Inv s -> fine t s r) -> fine t s r.
Proof. intros F Hn I. by apply F. Qed.

Lemma table_keeps t s tb : moves (lp s) t (user s) (table s) (shared s) (user s) tb (shared s) -> keeps t s (set_table s tb).
Proof. intros M. by apply keeps_moves. Qed.

Lemma drop_moves p t u tb h idx : moves p t u tb h u (drop_conn2 tb idx) h.
Proof.
  unfold drop_conn2. destruct (_ && _ && _) eqn:E; [|apply moves_refl]. apply andb_true_iff in E as [_ Hu]. by apply close_moves.
Qed.

Lemma process_drops_moves p t u tb h (rows : option cdb) p2 : moves p t u tb h u (process_drops tb rows p2).1 h.
Proof.
  unfold process_drops. destruct rows as [d|]; [|apply moves_refl]. cbn [fst]. revert tb.
  induction (process_drops_db d p2).2 as [|i is_ IH]; intros tb; [apply moves_refl|]. cbn [fold_left].
  eapply moves_trans; [apply drop_moves|apply IH].
Qed.

Lemma drops_fine t s pending rows : fine t s (drops_step s pending rows).
Proof.
  apply fine_keeps. unfold drops_step. destruct pending; [|apply keeps_refl].
  pose proof (process_drops_moves (lp s) t (user s) (table s) (shared s) rows (port2 (lp s))) as M.
  destruct (process_drops _ _ _) as [tb b]. by apply table_keeps.
Qed.

Lemma select_fine t s : fine t s (select_step s t).
Proof. apply fine_keeps. unfold select_step. destruct (_ && _); [apply keeps_refl|]. destruct (p_select t); apply keeps_refl. Qed.

Lemma evict_moves p t u tb h now wall i : moves p t u tb h u (evict now wall tb i) h.
Proof.
  unfold evict. destruct (_ && _ && _) eqn:E; [|apply moves_refl].
  apply andb_true_iff in E as [[_ Hu]%andb_true_iff _]. by apply close_moves.
Qed.

Lemma evict_all_moves p t u tb h now wall : moves p t u tb h u (evict_all tb now wall) h.
Proof.
  unfold evict_all. revert tb. induction slots as [|i is_ IH]; intros tb; [apply moves_refl|]. cbn [fold_left].
  eapply moves_trans; [apply evict_moves|apply IH].
Qed.

(** The clamp is never needed. *)
Lemma clamp_idle tb : table_ok tb ->
  (if MAX_COMM2_LINKS <? max_conn2_count tb then tb <| max_conn2_count := MAX_COMM2_LINKS |> else tb) = tb.
Proof. intros [_ _ _ _ [_ Hm]]. by apply Z.ltb_ge in Hm as ->. Qed.

Lemma evict_fine t s : fine t s (evict_step s t).
Proof.
  apply fine_keeps. intros I. unfold evict_step. cbv zeta. rewrite clamp_idle by apply I. cbn [snd].
  by apply table_keeps; [apply evict_all_moves|].
Qed.

Lemma deadline_fine t s : fine t s (user_deadline s t).
Proof. apply fine_keeps. unfold user_deadline. destruct (_ && _); apply keeps_refl. Qed.

Abbreviation user_bytes := (user_bytes parse_char msg_lengths finalize decode_setup_signing to_send_buffer decode_system_time
  decode_data_block gmtime_r localtime_r quota_env grace_env).

(** The user's link is made. *)
Lemma init_user_fine t s tcp k :
  (forall m h, init_on (shared s) t (key (mav1 (user s))) CHAN_COMM1 (bidi (lp s)) false tcp (conn1_key_id (lp s)) = Some (m, h) ->
     fine t s (k (set_shared (set_user s (set_mav1 (user s) m)) h))) ->
  fine t s (init_user s t tcp k).
Proof.
  intros Hk. unfold init_user. destruct (init_on _ _ _ _ _ _ _ _) as [[m h]|]; [by apply Hk|by intros []].
Qed.

Lemma made_keeps t s s0 s' m h tcp :
  init_on (shared s) t (key (mav1 (user s))) CHAN_COMM1 (bidi (lp s)) false tcp (conn1_key_id (lp s)) = Some (m, h) ->
  lp s = lp s0 -> table s = table s0 -> shared s = shared s0 -> lp s' = lp s0 -> table s' = table s0 -> shared s' = h -> mav1 (user s') = m ->
  (bidi (lp s) = true -> mav1_is_tcp (user s') = true) -> keeps t s0 s'.
Proof.
  intros Ei E1 E2 E3 E4 E5 E6 E7 Ht. apply keeps_moves; [done|]. rewrite E5, E6, E1, E3 in *. intros C.
  destruct (init_on_spec User _ _ _ _ _ _ _ _ _ _ (core_keys _ _ _ _ C) Ei) as (L & Ek & Ec). rewrite <-E7 in L.
  split_and!; [|auto|exists []; by rewrite app_nil_r]. apply (core_user_moves _ (user s0) _ (shared s0)); [done|done| | |].
  - rewrite Ec. apply C.
  - intros Hb _ Hf. rewrite Ht in Hf by done. done.
  - eapply same_kept; [apply C|done..].
Qed.

Lemma latch_udp_fine t s a data :
  have_conn1 (user s) = false -> has_fd (sock1_udp (lp s)) = true ->
  fine t s (latch_udp parse_char msg_lengths finalize decode_setup_signing to_send_buffer decode_system_time
    decode_data_block gmtime_r localtime_r quota_env grace_env s t a data).
Proof.
  intros Hc Hsock. unfold latch_udp. destruct (bidi (lp s)) eqn:Hb.
  - destruct (validate (length data) s t data false) as [[v s1]|] eqn:Ev; [|by intros []].
    destruct (validate_keeps _ _ _ _ _ _ _ Hb Hsock (fun H => match diff_false_true H with end) Ev) as (K & Hp & E).
    destruct v; [|by apply fine_keeps]. destruct (p_connect t); [|by apply fine_keeps]. apply fine_keeps.
    eapply keeps_trans; [exact K|]. apply keeps_moves; [done|]. intros C. split_and!; auto.
    destruct C as [C1 C2 C3 C4 C5 C6 C7 C8]. split; try done.
    + intros _. apply C3. right. by rewrite E.
    + intros _ _ _. by apply Hp.
  - destruct (p_connect t); [|apply fine_keeps, keeps_refl]. apply init_user_fine. intros m h Ei. apply fine_keeps.
    set (s1 := latch _ _ _ _). assert (K : keeps t s s1).
    { eapply (made_keeps t s s s1 m h false Ei); try done. congruence. }
    eapply keeps_trans; [exact K|]. apply user_bytes_keeps. by left.
Qed.

Lemma hear1_keeps t s now : keeps t s (hear1 s now).
Proof. by apply keeps_user. Qed.

Lemma close_tcp1_keeps t s : keeps t s (close_tcp1 s).
Proof. intros I. split_and!; try done; auto. by apply (core_port_same (lp s)). Qed.

Lemma close_udp1_keeps t s : keeps t s (close_udp1 s).
Proof. intros I. split_and!; try done; auto. by apply (core_port_same (lp s)). Qed.

Lemma user_udp_fine t s :
  fine t s (user_udp parse_char msg_lengths finalize decode_setup_signing to_send_buffer decode_system_time
    decode_data_block gmtime_r localtime_r quota_env grace_env s t).
Proof.
  unfold user_udp. destruct (has_fd (sock1_udp (lp s))) eqn:Hs; cbn [andb]; [|apply fine_keeps, keeps_refl].
  destruct (p_isset t FdUser); [|apply fine_keeps, keeps_refl]. cbv zeta.
  eapply fine_trans; [apply close_tcp1_keeps|]. destruct (p_udp1 t) as [[a data]|]; [|apply fine_keeps, keeps_refl].
  eapply fine_trans; [apply (hear1_keeps t _ (p_now t))|]. set (s1 := hear1 (close_tcp1 s) (p_now t)).
  destruct (have_conn1 (user s1)) eqn:Hc; [apply fine_keeps, user_bytes_keeps; by left|]. by apply latch_udp_fine.
Qed.

Lemma find_used tb a alen i : find_conn2 tb a alen = Some i -> used (at_ tb i) = true.
Proof.
  unfold find_conn2. intros [_ E]%List.find_some. apply andb_true_iff in E as [[[[_ E]%andb_true_iff _]%andb_true_iff _]%andb_true_iff _].
  done.
Qed.

(** A new engineer in the first free slot. *)
Lemma taken_keeps t s s' i m h c :
  free_conn2 (table s) = Some i ->
  init_on (shared s) t (key (mav (at_ (table s) i))) (CHAN_COMM2 i) true (is_udp c && false || negb (is_udp c)) (negb (is_udp c)) (port2 (lp s)) = Some (m, h) ->
  used c = true -> mav c = m -> sock c = negb (is_udp c) -> connected_at c = p_wall t ->
  lp s' = lp s -> user s' = user s -> table s' = count_conn2 (put (table s) i c) -> shared s' = h ->
  keeps t s s' /\ (Inv s -> used (at_ (table s') i) = true).
Proof.
  intros Hf Ei Hu Em Hs Ec E1 E2 E3 E4. destruct (free_spec _ _ Hf) as (F1 & F2 & _).
  assert (Hat : length (conn2 (table s)) = Z.to_nat MAX_COMM2_LINKS -> forall j,
    at_ (table s') j = if decide (j = i) then c else at_ (table s) j).
  { intros Hl j. rewrite E3. change (at_ (put (table s) i c) j = if decide (j = i) then c else at_ (table s) j). apply at_put. lia. }
  split.
  - apply keeps_moves; [done|]. rewrite E2, E4. intros C. pose proof (core_table _ _ _ _ C) as Ht. specialize (Hat (tab_len _ Ht)).
    destruct (init_on_spec (Engineer i) _ _ _ _ _ _ _ _ _ _ (core_keys _ _ _ _ C) Ei) as (L & Ek & Eh). destruct C as [C1 C2 C3 C4 C5 C6 C7 C8].
    destruct L as (L1 & L2 & L3 & L4 & _). split_and!; [split|..]; try done.
    + rewrite E3. by apply take_slot.
    + intros j. rewrite Hat. case_decide as D.
      * subst j. unfold slot_ok. rewrite Hu, Em. done.
      * eapply slot_frame; [by apply C2|by apply chan_apart|done..].
    + intros Hw. eapply link_frame; [by apply C3|by apply not_eq_sym, chan_user|done..].
    + by rewrite Eh.
    + by rewrite Eh.
    + by eapply same_kept.
    + intros j. rewrite Hat. case_decide; [by left|by right].
  - intros I. by rewrite (Hat (tab_len _ (core_table _ _ _ _ I))), decide_True.
Qed.

Lemma engineer_udp_fine t s :
  fine t s (engineer_udp parse_char msg_lengths finalize decode_setup_signing to_send_buffer s t).
Proof.
  apply fine_inv. intros I. unfold engineer_udp. destruct (_ && _); [|apply fine_keeps, keeps_refl].
  destruct (p_udp2 t) as [[[a alen] data]|]; [|apply fine_keeps, keeps_refl]. cbv zeta.
  assert (K1 : keeps t s (count_engineers s)) by by apply keeps_user. eapply fine_trans; [exact K1|]. destruct (K1 I) as (I1 & _).
  set (s1 := count_engineers s) in *. clearbody s1. clear K1 I. destruct (find_conn2 (table s1) a alen) as [i|] eqn:Ef.
  - apply find_used in Ef. set (s2 := set_table s1 _).
    pose proof (used_in _ _ (core_table _ _ _ _ I1) Ef) as Hi.
    assert (K2 : keeps t s1 s2) by by apply table_keeps, put_note_moves. eapply fine_trans; [exact K2|].
    apply fine_keeps, engineer_bytes_keeps. unfold s2. cbn [table set_table]. unfold hear_conn2. rewrite at_put by done. by rewrite decide_True.
  - destruct (free_conn2 (table s1)) as [i|] eqn:Hf; [|apply fine_keeps, keeps_refl].
    destruct (new_udp_conn2 s1 t i a alen) as [s2|] eqn:En; [|by intros []]. unfold new_udp_conn2 in En.
    destruct (init_on _ _ _ _ _ _ _ _) as [[m h]|] eqn:Ei; [|done]. injection En as <-. set (s2 := save_now _).
    destruct (taken_keeps t s1 s2 i m h (udp_conn2 (at_ (table s1) i) m a alen (p_now t) (p_wall t)) Hf Ei) as [K2 U2]; [done..|].
    eapply fine_trans; [exact K2|]. by apply fine_keeps, engineer_bytes_keeps, U2.
Qed.

Lemma accept_user_fine t s : fine t s (accept_user s t).
Proof.
  unfold accept_user. destruct (_ && _ && _); [|apply fine_keeps, keeps_refl]. cbv zeta. eapply fine_trans; [apply close_udp1_keeps|].
  destruct (p_accept1 t) as [a|]; [|apply fine_keeps, keeps_refl]. set (s1 := close_udp1 s). intros Hn.
  unfold init_user in *. destruct (init_on _ _ _ _ _ _ _ _) as [[m h]|] eqn:Ei; [|by destruct Hn]. cbn [snd].
  by eapply (made_keeps t (latch s1 t a true) s1 _ m h true Ei).
Qed.

Lemma user_tcp_fine t s :
  (has_fd (sock1_tcp (lp s)) = true -> p_isset t FdTcp1 = true -> have_conn1 (user s) = true) ->
  fine t s (user_tcp parse_char msg_lengths finalize decode_setup_signing to_send_buffer decode_system_time
    decode_data_block gmtime_r localtime_r quota_env grace_env s t).
Proof.
  intros Hc. unfold user_tcp. destruct (_ && _) eqn:E; [|apply fine_keeps, keeps_refl]. apply andb_true_iff in E as [E1 E2].
  specialize (Hc E1 E2). cbv zeta. eapply fine_trans; [apply close_udp1_keeps|].
  set (s1 := close_udp1 s). destruct (_ && is_more _); [apply fine_keeps, keeps_refl|].
  set (s2 := if _ && _ then set_ws1 s1 _ else s1). assert (K2 : keeps t s1 s2) by (unfold s2; destruct (_ && _); by apply keeps_user).
  eapply fine_trans; [exact K2|]. destruct (tcp_data _ _) as [data|]; [|apply fine_keeps, keeps_refl].
  eapply fine_trans; [apply (hear1_keeps t s2 (p_now t))|]. apply fine_keeps, user_bytes_keeps. left. unfold s2. by destruct (_ && _).
Qed.

(** A descriptor that is ready is accepted from before it is read. *)
Lemma accept_then_tcp_fine t s k :
  (forall s', fine t s' (k s')) ->
  fine t s (bind (accept_user s t) (fun s => bind (user_tcp parse_char msg_lengths finalize decode_setup_signing to_send_buffer
    decode_system_time decode_data_block gmtime_r localtime_r quota_env grace_env s t) k)).
Proof.
  intros Hk. pose proof (accept_user_fine t s) as Ha. destruct (accept_user s t) as [v s1] eqn:E.
  destruct v; cbn [bind]; try exact Ha. assert (K : keeps t s s1) by by apply Ha. eapply fine_trans; [exact K|].
  apply fine_bind; [|intros s2 _; apply Hk]. apply user_tcp_fine. intros H1 H2. unfold accept_user in E. cbv zeta in E.
  destruct (have_conn1 (user s)) eqn:Hc; cbn [negb andb] in E; [by injection E as <-|].
  destruct (has_fd (sock1_tcp (lp s))) eqn:Hs; cbn [andb] in E; [|injection E as <-; congruence].
  rewrite H2 in E. cbn [andb] in E. destruct (p_accept1 t); [|done]. unfold init_user in E.
  by destruct (init_on _ _ _ _ _ _ _ _) as [[m h]|].
Qed.

Lemma accept_engineer_fine t s : fine t s (accept_engineer s t).
Proof.
  unfold accept_engineer. destruct (_ && _); [|apply fine_keeps, keeps_refl].
  destruct (p_accept2 t) as [[a alen]|]; [|apply fine_keeps, keeps_refl]. destruct (_ <=? _); [apply fine_keeps, keeps_refl|].
  destruct (free_conn2 (table s)) as [i|] eqn:Hf; [|apply fine_keeps, keeps_refl].
  destruct (init_on _ _ _ _ _ _ _ _) as [[m h]|] eqn:Ei; [|by intros []]. cbv zeta. apply fine_keeps.
  by destruct (taken_keeps t s (save_now (set_shared (set_table s (count_conn2 (put (table s) i (tcp_conn2 (at_ (table s) i) m a alen (p_wall t))))) h))
    i m h (tcp_conn2 (at_ (table s) i) m a alen (p_wall t)) Hf Ei).
Qed.

Lemma engineer_tcp_fine t s i :
  fine t s (engineer_tcp parse_char msg_lengths finalize decode_setup_signing to_send_buffer s t i).
Proof.
  apply fine_inv. intros I. unfold engineer_tcp. cbv zeta. destruct (_ || _) eqn:E; [apply fine_keeps, keeps_refl|].
  apply orb_false_iff in E as [[[_ Hu%negb_false_iff]%orb_false_iff _]%orb_false_iff _].
  pose proof (used_in _ _ (core_table _ _ _ _ I) Hu) as Hi. destruct (_ && is_more _); [apply fine_keeps, keeps_refl|].
  set (s1 := if _ && _ then set_table s _ else s).
  assert (K1 : keeps t s s1 /\ used (at_ (table s1) i) = true).
  { unfold s1. destruct (_ && _); [|split; [apply keeps_refl|done]]. split; [by apply table_keeps, put_note_moves|].
    cbn [table set_table]. unfold set_ws. rewrite at_put by done. by rewrite decide_True. }
  destruct K1 as [K1 U1]. destruct (K1 I) as (I1 & _). clearbody s1. eapply fine_trans; [exact K1|].
  destruct (tcp_data _ _) as [[|b data]|]; [apply fine_keeps, keeps_refl| |].
  - assert (K2 : keeps t s1 (count_engineers s1)) by by apply keeps_user. set (s3 := set_table _ _).
    assert (K3 : keeps t (count_engineers s1) s3) by by apply table_keeps, put_note_moves.
    eapply fine_trans; [exact K2|]. eapply fine_trans; [exact K3|]. apply fine_keeps, engineer_bytes_keeps.
    unfold s3. cbn [table set_table]. unfold activate. rewrite at_put by apply (used_in _ _ (core_table _ _ _ _ I1) U1).
    by rewrite decide_True.
  - apply fine_keeps. by apply table_keeps, close_moves.
Qed.

Lemma engineers_tcp_fine t is_ s :
  fine t s (engineers_tcp parse_char msg_lengths finalize decode_setup_signing to_send_buffer is_ s t).
Proof.
  revert s. induction is_ as [|i is_ IH]; intros s; cbn [engineers_tcp]; [apply fine_keeps, keeps_refl|].
  destruct (negb _); [apply fine_keeps, keeps_refl|]. pose proof (engineer_tcp_fine t s i) as F.
  destruct (engineer_tcp _ _ _ _ _ s t i) as [[] s1].
  - eapply fine_trans; [by apply F|apply IH].
  - eapply fine_trans; [by apply F|apply IH].
  - apply fine_keeps. by apply F.
  - by intros [].
Qed.

Lemma tick_fine t s : fine t s (tick_step nack_order s t).
Proof.
  apply fine_keeps. unfold tick_step. destruct (binlog_enabled (lp s)) eqn:Eb; cbn [andb]; [|apply keeps_refl]. destruct (have_conn1 _); [|apply keeps_refl]. destruct (tick _ _ _ _) as [b o]. cbn [snd].
  eapply (keeps_calls t s _ [Status (ob_sent o)]); [done..| |]; apply list.Forall_singleton; [by intros cs|done].
Qed.

Lemma snapshot_fine pid t s : fine t s (snapshot_step pid s t).
Proof.
  unfold snapshot_step. destruct (_ <? _); [|apply fine_keeps, keeps_refl]. cbv zeta.
  match goal with |- context [drops_step ?x] => set (s1 := x) end.
  assert (K1 : keeps t s s1) by by apply keeps_user. eapply fine_trans; [exact K1|]. apply fine_bind; [apply drops_fine|].
  intros s2 _. apply fine_keeps. eapply (keeps_calls t s2 _ [Snapshot (rows_of s2 pid (p_wall t))]); [done..| |]; by apply list.Forall_singleton.
Qed.

(** ** A pass, and the loop *)

Abbreviation pass_steps := (pass_steps parse_char msg_lengths finalize decode_setup_signing to_send_buffer decode_system_time
  decode_data_block gmtime_r localtime_r quota_env grace_env nack_order).
Abbreviation relay_pass := (relay_pass parse_char msg_lengths finalize decode_setup_signing to_send_buffer decode_system_time
  decode_data_block gmtime_r localtime_r quota_env grace_env nack_order).
Abbreviation main_loop := (main_loop parse_char msg_lengths finalize decode_setup_signing to_send_buffer decode_system_time
  decode_data_block gmtime_r localtime_r quota_env grace_env nack_order).
Abbreviation relay_start := (relay_start gmtime_r localtime_r).

Lemma begin_keeps t s : values_ok (p_keys t) -> (R -> rekeys (p_keys t) (port2 (lp s))) -> keeps t s (begin_pass s t).
Proof.
  intros Hv HR. apply keeps_moves; [done|]. intros [C1 C2 C3 C4 C5 C6 C7 C8]. split_and!; [|auto|exists []; by rewrite app_nil_r].
  assert (Hl : forall l ch kid m, link_ok l ch kid m (shared s) -> link_ok l ch kid m (shared (begin_pass s t))).
  { intros l ch kid m (E1 & E2 & Hw & _). by split_and!. }
  split; [done| | |done..|].
  - intros i. specialize (C2 i). unfold slot_ok in *. destruct (used _); [|done]. split; [apply Hl|]; apply C2.
  - intros Hw. by apply Hl, C3.
  - intros Hr. split; [by apply HR|]. by apply C8.
Qed.

(** From the eviction on. *)
Definition late_steps (pid : Z) : list (Relay -> Pass -> verdict * Relay) := drop 3 (pass_steps pid).

Lemma late_fine pid t s : fine t s (steps (late_steps pid) s t).
Proof.
  unfold late_steps, Relay.pass_steps. cbn [drop steps].
  apply fine_bind; [apply deadline_fine|intros s1 _]. apply fine_bind; [apply user_udp_fine|intros s2 _].
  apply fine_bind; [apply engineer_udp_fine|intros s3 _]. apply accept_then_tcp_fine. intros s4.
  apply fine_bind; [apply accept_engineer_fine|intros s5 _]. apply fine_bind; [apply engineers_tcp_fine|intros s6 _].
  apply fine_bind; [apply tick_fine|intros s7 _]. apply fine_bind; [apply snapshot_fine|intros s8 _]. apply fine_keeps, keeps_refl.
Qed.

Lemma pass_fine pid t s : values_ok (p_keys t) -> (R -> rekeys (p_keys t) (port2 (lp s))) -> fine t s (relay_pass pid s t).
Proof.
  intros Hv HR. unfold Relay.relay_pass. eapply fine_trans; [by apply begin_keeps|]. set (s0 := begin_pass s t).
  change (steps (pass_steps pid) s0 t) with
    (bind (drops_step s0 (p_sigusr1 t) (p_rows t)) (fun s => bind (select_step s t) (fun s => bind (evict_step s t) (fun s =>
      steps (late_steps pid) s t)))).
  apply fine_bind; [apply drops_fine|intros s1 _]. apply fine_bind; [apply select_fine|intros s2 _].
  apply fine_bind; [apply evict_fine|intros s3 _]. apply late_fine.
Qed.

Definition passes_ok (ts : list Pass) : Prop := Forall (fun t => values_ok (p_keys t)) ts.
Definition passes_rekey (p2 : Z) (ts : list Pass) : Prop := Forall (fun t => rekeys (p_keys t) p2) ts.

Lemma loop_inv pid ts s v s' :
  passes_ok ts -> (R -> passes_rekey (port2 (lp s)) ts) -> Inv s -> main_loop pid s ts = (v, s') -> v <> Null ->
  Inv s' /\ port2 (lp s') = port2 (lp s) /\ flags (lp s') = flags (lp s) /\ grown (shared s) (shared s').
Proof.
  intros Hts. revert s. induction Hts as [|t ts Ht Hts IH]; intros s HR I E Hv; cbn [Relay.main_loop] in E.
  { injection E as <- <-. split_and!; auto. }
  pose proof (pass_fine pid t s Ht ltac:(intros Hr; by apply HR, list.Forall_cons in Hr as [Hr _])) as F. destruct (relay_pass pid s t) as [v1 s1].
  assert (Hstep : v1 <> Null -> Inv s1 /\ port2 (lp s1) = port2 (lp s) /\ flags (lp s1) = flags (lp s) /\ grown (shared s) (shared s1)).
  { intros Hn. destruct (F Hn I) as (I1 & (P1 & P2 & _) & _ & G). done. }
  destruct v1; try (injection E as <- <-; by apply Hstep);
    (destruct Hstep as (I1 & P1 & P2 & G1); [done|];
     assert (HR1 : R -> passes_rekey (port2 (lp s1)) ts) by (rewrite P1; intros Hr; by apply HR, list.Forall_cons in Hr as [_ Hr]);
     destruct (IH s1 HR1 I1 E Hv) as (I2 & P3 & P4 & G2);
     split_and!; [done|congruence|congruence|eauto]).
Qed.

Lemma start_inv p b s : port2 p <> -1 -> values_ok (b_keys b) -> (R -> rekeys (b_keys b) (port2 p)) ->
  relay_start p b = Some s -> Inv s /\ lp s = p.
Proof.
  intros Hp Hv HR. unfold Relay.relay_start.
  set (w := Build_world _ _ _).
  assert (Hmk : forall m w', (user_wired p (set_mav1 no_user m) -> LinkInv False CHAN_COMM1 (conn1_key_id p) (m, w', b_keys b)) ->
    Inv (relay_new gmtime_r localtime_r p b m w')).
  { intros m w' Hl. assert (Hat : forall i, at_ no_table i = conn2_new).
    { intros i. unfold at_, no_table. cbn [conn2]. destruct (Nat.lt_ge_cases i (Z.to_nat MAX_COMM2_LINKS)).
      - rewrite nth_lookup, lookup_replicate_2 by done. done.
      - apply nth_overflow. by rewrite length_replicate. }
    split; cbn [lp user table shared relay_new]; try done; [..|intros Hr; split; [by apply HR|intros l; apply list.not_elem_of_nil]].
    - split; cbn [max_conn2_count conn2_count conn2 no_table]; try done.
      + intros i. by rewrite Hat.
    - intros i. by rewrite Hat.
    - intros Hw. by eapply LinkInv_mono; [|apply Hl].
    - intros cs1 e cs2 E. by destruct cs1. }
  destruct (bidi p && has_fd (sock1_udp p)) eqn:Eb.
  - apply andb_true_iff in Eb as [Eb1 Eb2]. destruct (init _ _ _ _ _ _ _ _ _) as [[m w']|] eqn:Ei; [|done]. intros [= <-]. split; [|done].
    apply (Hmk m w'). intros _. exact (init_inv _ _ _ _ _ _ _ _ _ _ _ Hv Ei).
  - intros [= <-]. split; [|done]. apply (Hmk mav_blank w). intros [|[E1 E2]]; [done|]. by rewrite E1, E2 in Eb.
Qed.

Abbreviation relay_run := (relay_run parse_char msg_lengths finalize decode_setup_signing to_send_buffer decode_system_time
  decode_data_block gmtime_r localtime_r quota_env grace_env nack_order).

Lemma relay_run_inv p b pid ts v s :
  port2 p <> -1 -> values_ok (b_keys b) -> passes_ok ts -> (R -> rekeys (b_keys b) (port2 p) /\ passes_rekey (port2 p) ts) ->
  relay_run p b pid ts = Some (v, s) -> v <> Null ->
  Inv s /\ port2 (lp s) = port2 p /\ flags (lp s) = flags p.
Proof.
  intros Hp Hb Hts HR. unfold Relay.relay_run. destruct (relay_start p b) as [s0|] eqn:E0; [|done].
  destruct (start_inv p b s0 Hp Hb ltac:(intros Hr; by apply HR) E0) as [I0 <-]. intros [= E] Hv.
  destruct (loop_inv pid ts s0 v s Hts ltac:(intros Hr; by apply HR) I0 E Hv) as (I & E1 & E2 & _). done.
Qed.
End relay_spec.
