(* ===== verification/RelayLog.v ===== *)
(** * The session child's tlog (supportproxy.cpp: ensure_tlog_open, tlog_write_message)

    Every message a link accepts and main_loop looks at is a record of the session's tlog, in
    the order of acceptance, whichever side it came from: the invariant, step by step. *)

From S2P Require Import Prelude Tdb KeyDb ConnDb Session BinLog WebSocket MavLink Ports Relay.

(** What was accepted, in order. *)
Definition accepted_msg (e : call) : option message := match e with Accepted _ _ msg => Some msg | _ => None end.
Definition accepted (cs : list call) : list message := omap accepted_msg cs.

Lemma accepted_app cs1 cs2 : accepted (cs1 ++ cs2) = accepted cs1 ++ accepted cs2.
Proof. apply omap_app. Qed.

Section relay_log.
Context {db cdb P : Type} {db_tdb : Tdb db} {cdb_tdb : Tdb cdb}.
Variable parse_char : P -> option signing -> Z -> P * option signing * bool * option message.
Variable msg_lengths : Z -> Z * Z.
Variable finalize : option signing -> message -> option bytes.
Variable decode_setup_signing : message -> Z * bytes.
Variable to_send_buffer : message -> option bytes.
Variable decode_system_time : message -> Z.
Variable decode_data_block : message -> Z * bytes.
Variable gmtime_r localtime_r : Z -> option tm.
Variable quota_env grace_env : option bytes.
Variable nack_order : gmap Z NackState -> list (Z * NackState).

(** [mavlink_msg_to_send_buffer] packs every message, into a frame a log reader can tell. *)
Variable frame_len : bytes -> option nat.
Variable frame_of : message -> bytes.
Hypothesis packs : forall msg, to_send_buffer msg = Some (frame_of msg).
Hypothesis frames : forall msg, frame_ok frame_len (frame_of msg).

Abbreviation Relay := (Relay.Relay (db := db) (P := P)).
Abbreviation Shared := (Relay.Shared (db := db) (P := P)).
Abbreviation Pass := (Relay.Pass (db := db) (cdb := cdb)).
Implicit Types s : Relay.
Implicit Types t : Pass.
Implicit Types h : Shared.

(** The file opens, is new, takes every write whole, and the clock is sane. *)
Definition whole (ws : list write_result) : Prop := Forall (fun took => took = None) ws.
Definition log_opens t : Prop := p_tlog_opens t = true /\ p_tlog_holds t = [] /\ whole (p_writes t).
Definition clock_ok t : Prop := 0 <= (p_gettimeofday t).1 /\ 0 <= (p_gettimeofday t).2
  /\ is_u64 ((p_gettimeofday t).1 * 1000000 + (p_gettimeofday t).2).

(** The tlog holds a record for each of [ms]. *)
Definition holds (f : TlogWriter) (ms : list message) : Prop :=
  exists recs, map snd recs = map frame_of ms /\ Forall (fun r : Z * bytes => is_u64 r.1) recs
  /\ tlog_fp f = match ms with [] => None | _ => Some (concat (map tlog_record recs)) end.

(** What is logged of what was accepted. *)
Definition to_log p (cs : list call) : list message := if tlog_enabled p then accepted cs else [].

(** [fl]: the entry's flags. *)
Variable fl : Z.
Definition Log s : Prop :=
  flags (lp s) = fl /\ whole (writes (logs s)) /\ holds (tlog (logs s)) (to_log (lp s) (calls (shared s))).

Lemma holds_log f ms t msg : log_opens t -> clock_ok t -> holds f ms ->
  holds (write_frame (tlog_open f (p_tlog_opens t) (p_tlog_holds t)).2 (to_send_buffer msg) (p_gettimeofday t).1 (p_gettimeofday t).2 None)
    (ms ++ [msg]).
Proof.
  intros (-> & -> & _) (Hs & Hu & Hc) (recs & E1 & E2 & E3). rewrite packs.
  set (r := ((p_gettimeofday t).1 * 1000000 + (p_gettimeofday t).2, frame_of msg)). exists (recs ++ [r]).
  assert (Hf : tlog_fp (tlog_open f true []).2 = Some (concat (map tlog_record recs))).
  { unfold tlog_open. rewrite E3. destruct ms; cbn; [|by rewrite E3]. by destruct recs. }
  split_and!; [by rewrite !map_app, E1|by apply list.Forall_app; split; [|apply list.Forall_singleton]|].
  unfold write_frame. rewrite Hf. destruct (frames msg) as [Hne _]. destruct (frame_of msg) as [|b fr] eqn:Efr; [done|].
  cbn [tlog_fp taken]. rewrite map_app, concat_app. cbn [map concat]. rewrite app_nil_r.
  unfold is_u64 in Hc. rewrite (wrap_small 64 ((p_gettimeofday t).1 * 1000000)), (wrap_small 64 (_ + _)) by lia.
  destruct ms; cbn [app]; unfold tlog_record at 2; cbn [fst snd r]; by rewrite ?Efr.
Qed.

(** *** Steps that log nothing *)

Definition silent s s' : Prop :=
  flags (lp s') = flags (lp s) /\ (tlog (logs s') = tlog (logs s) /\ writes (logs s') = writes (logs s))
  /\ accepted (calls (shared s')) = accepted (calls (shared s)).

Lemma silent_log s s' : silent s s' -> Log s -> Log s'.
Proof. intros (E1 & [E2 E4] & E3) L. unfold Log, to_log, tlog_enabled in *. by rewrite E1, E2, E3, E4. Qed.

Lemma silent_refl s : silent s s.
Proof. done. Qed.

Lemma silent_trans s1 s2 s3 : silent s1 s2 -> silent s2 s3 -> silent s1 s3.
Proof. intros (E1 & [E2 E2'] & E3) (E4 & [E5 E5'] & E6). split_and!; congruence. Qed.

Lemma recv_accepts l m h t buf o rest m' h' :
  recv_on parse_char decode_setup_signing l m h t buf = Some (o, rest, m', h') -> accepted (calls h') = accepted (calls h).
Proof.
  unfold recv_on. destruct (receive_message _ _ _ _ _ _ _ _ _) as [r|]; [|done]. intros [= _ _ _ <-].
  destruct (rc_out r), (loses_block _ _ _); cbn [calls note]; by rewrite ?accepted_app, ?app_nil_r.
Qed.

Lemma send_accepts l m h t msg : accepted (calls (send_on msg_lengths finalize l m h t msg).2) = accepted (calls h).
Proof.
  unfold send_on, next_outcome. destruct (outcomes h) as [|o os]; destruct (send_message _ _ _ _ _ _ _ _) as [[[ok m'] w'] out]; cbn;
    by rewrite accepted_app, app_nil_r.
Qed.

Lemma forward_accepts udp t msg tb h : accepted (calls (forward_all msg_lengths finalize udp t msg (tb, h)).2) = accepted (calls h).
Proof.
  unfold forward_all. revert tb h. induction slots as [|i is_ IH]; intros tb h; [done|]. cbn [fold_left].
  assert (Hf : accepted (calls (forward msg_lengths finalize udp t msg (tb, h) i).2) = accepted (calls h)).
  { assert (Hs : accepted (calls (send_conn2 msg_lengths finalize tb h t msg i).2) = accepted (calls h)).
    { unfold send_conn2. pose proof (send_accepts (Engineer i) (mav (at_ tb i)) h t msg) as Ha. by destruct (send_on _ _ _ _ _ _ _) as [[??]?]. }
    unfold forward. destruct (negb _); [done|]. destruct (udp && is_udp _); [by destruct (send_conn2 _ _ _ _ _ _ _) as [[??]?]|].
    destruct (udp && negb _); [done|]. by destruct (send_conn2 _ _ _ _ _ _ _) as [[??]?]. }
  destruct (forward _ _ udp t msg (tb, h) i) as [tb1 h1]. cbn [snd] in *. by rewrite IH.
Qed.

Lemma binlog_tlog p lg t msg :
  let lg' := (binlog_handle_user_msg decode_system_time decode_data_block gmtime_r localtime_r quota_env grace_env p lg t msg).2 in
  tlog lg' = tlog lg /\ writes lg' = writes lg.
Proof.
  cbv zeta. unfold binlog_handle_user_msg. destruct (negb _); [done|]. cbv zeta. destruct (negb _); [done|]. destruct (_ =? _); [|done].
  destruct (decode_data_block msg) as [q d]. by destruct (handle_block _ _ _ _ _ _ _ _ _ _ _ _).
Qed.

(** *** The loops that log *)

Definition with_accept s h l k msg : Relay := set_shared s (note h (Accepted l k msg)).

(** A message accepted and then logged. *)
Lemma accept_logs s h t l k msg lg :
  log_opens t -> clock_ok t -> Log s -> accepted (calls h) = accepted (calls (shared s)) -> lg = logs s ->
  Log (set_logs (with_accept s h l k msg) (log_message to_send_buffer (lp s) lg t msg)).
Proof.
  intros Ho Hc (Lf & Lw & L) Ea ->. split; [done|]. unfold to_log in *. cbn [lp logs shared set_logs with_accept set_shared] in *.
  unfold log_message, next_write. destruct (tlog_enabled (lp s)); [|done]. unfold whole in *.
  destruct (writes (logs s)) as [|took ws]; [|apply list.Forall_cons in Lw as [-> Lw]]; cbn [tlog writes calls note]; (split; [done|]);
    rewrite accepted_app, Ea; by apply holds_log.
Qed.

Abbreviation user_msg := (user_msg msg_lengths finalize to_send_buffer decode_system_time decode_data_block gmtime_r localtime_r
  quota_env grace_env).

Lemma user_msg_log udp s h t k msg :
  log_opens t -> clock_ok t -> Log s -> accepted (calls h) = accepted (calls (shared s)) ->
  Log (user_msg udp (with_accept s h User k msg) t msg).
Proof.
  intros Ho Hc L Ea. unfold Relay.user_msg. cbv zeta.
  set (s1 := set_logs (set_user _ _) _).
  assert (L1 : Log s1) by exact (accept_logs (set_user s (note_rx1 (user s))) h t User k msg (logs s) Ho Hc L Ea eq_refl).
  clearbody s1. pose proof (binlog_tlog (lp s1) (logs s1) t msg) as Eb. cbv zeta in Eb.
  destruct (binlog_handle_user_msg _ _ _ _ _ _ _ _ _ _) as [strip lg]. cbn [snd] in Eb. destruct Eb as [Eb Ew].
  assert (S1 : silent s1 (set_logs s1 lg)) by by split_and!. destruct strip; [by apply (silent_log s1)|].
  pose proof (forward_accepts udp t msg (table (set_logs s1 lg)) (shared (set_logs s1 lg))) as Ef.
  destruct (forward_all _ _ _ _ _ _) as [tb h1]. by apply (silent_log s1).
Qed.

Lemma user_loop_log fuel udp s t buf :
  log_opens t -> clock_ok t -> Log s ->
  Log (user_loop parse_char msg_lengths finalize decode_setup_signing to_send_buffer decode_system_time
    decode_data_block gmtime_r localtime_r quota_env grace_env fuel udp s t buf).2.
Proof.
  intros Ho Hc. revert s buf. induction fuel as [|fuel IH]; intros s buf L; [done|]. cbn [Relay.user_loop]. destruct buf as [|b buf]; [done|].
  destruct (recv_on _ _ _ _ _ _ _) as [[[[o rest] m] h]|] eqn:Er; [|done]. pose proof (recv_accepts _ _ _ _ _ _ _ _ _ Er) as Ea.
  destruct o as [msg|]; [|by apply (silent_log s)]. apply IH. by apply (user_msg_log udp (set_user s (set_mav1 (user s) m)) h).
Qed.

Lemma engineer_loop_log fuel s t i buf :
  log_opens t -> clock_ok t -> Log s ->
  Log (engineer_loop parse_char msg_lengths finalize decode_setup_signing to_send_buffer fuel s t i buf).2.
Proof.
  intros Ho Hc. revert s buf. induction fuel as [|fuel IH]; intros s buf L; [done|]. cbn [Relay.engineer_loop]. destruct buf as [|b buf]; [done|].
  destruct (recv_on _ _ _ _ _ _ _) as [[[[o rest] m] h]|] eqn:Er; [|done]. pose proof (recv_accepts _ _ _ _ _ _ _ _ _ Er) as Ea.
  destruct o as [msg|]; [|by apply (silent_log s)]. cbv zeta. set (k := secret_of _ _).
  pose proof (accept_logs (set_table s (rx_conn2 (table s) i m)) h t (Engineer i) k msg (logs s) Ho Hc L Ea eq_refl) as L1.
  change (set_logs (set_shared (set_table s (rx_conn2 (table s) i m)) (note h (Accepted (Engineer i) k msg))) _)
    with (set_logs (with_accept (set_table s (rx_conn2 (table s) i m)) h (Engineer i) k msg) (log_message to_send_buffer (lp s) (logs s) t msg)).
  set (s1 := set_logs _ _) in *. clearbody s1. pose proof (send_accepts User (mav1 (user s1)) (shared s1) t msg) as Es.
  destruct (send_on _ _ User (mav1 (user s1)) (shared s1) t msg) as [[ok m1] h1]. cbn [snd] in Es.
  assert (L2 : Log (set_shared (set_user s1 (set_mav1 (user s1) m1)) h1)) by by apply (silent_log s1).
  destruct ok; [|done]. apply IH. exact L2.
Qed.

(** *** Every step *)

Definition logged t s s' : Prop := log_opens t -> clock_ok t -> Log s -> Log s'.

Lemma logged_refl t s : logged t s s.
Proof. by intros _ _ L. Qed.

Lemma logged_trans t s1 s2 s3 : logged t s1 s2 -> logged t s2 s3 -> logged t s1 s3.
Proof. intros L1 L2 Ho Hc L. apply L2; [done..|by apply L1]. Qed.

Lemma logged_silent t s s' : silent s s' -> logged t s s'.
Proof. intros S _ _. by apply silent_log. Qed.

Lemma logged_bind t s r k : logged t s r.2 -> (forall s', logged t s' (k s').2) -> logged t s (bind r k).2.
Proof. intros Hr Hk. destruct r as [[] s']; [|exact Hr..]. eapply logged_trans; [exact Hr|apply Hk]. Qed.

Abbreviation user_bytes := (user_bytes parse_char msg_lengths finalize decode_setup_signing to_send_buffer decode_system_time
  decode_data_block gmtime_r localtime_r quota_env grace_env).
Abbreviation engineer_bytes := (engineer_bytes parse_char msg_lengths finalize decode_setup_signing to_send_buffer).

Lemma user_bytes_logged udp s t buf : logged t s (user_bytes udp s t buf).2.
Proof. intros Ho Hc L. unfold Relay.user_bytes. destruct (wanted s); [by apply user_loop_log|done]. Qed.

Lemma engineer_bytes_logged s t i buf : logged t s (engineer_bytes s t i buf).2.
Proof. intros Ho Hc L. unfold Relay.engineer_bytes. destruct (_ && _); [by apply engineer_loop_log|done]. Qed.

Lemma drops_logged t s pending rows : logged t s (drops_step s pending rows).2.
Proof. apply logged_silent. unfold drops_step. destruct pending; [|done]. by destruct (process_drops _ _ _). Qed.

Lemma select_logged t s : logged t s (select_step s t).2.
Proof. apply logged_silent. unfold select_step. destruct (_ && _); [done|]. by destruct (p_select t). Qed.

Lemma deadline_logged t s : logged t s (user_deadline s t).2.
Proof. apply logged_silent. unfold user_deadline. by destruct (_ && _). Qed.

Lemma init_on_logged h t k0 ch sr aw tcp kid m h' :
  init_on h t k0 ch sr aw tcp kid = Some (m, h') -> calls h' = calls h.
Proof. unfold init_on. destruct (init _ _ _ _ _ _ _ _ _) as [[m1 w]|]; [|done]. by intros [= _ <-]. Qed.

Lemma init_user_logged t s tcp k : (forall s', logged t s' (k s').2) -> logged t s (init_user s t tcp k).2.
Proof.
  intros Hk. unfold init_user. destruct (init_on _ _ _ _ _ _ _ _) as [[m h]|] eqn:Ei; [|apply logged_refl].
  apply init_on_logged in Ei. eapply logged_trans; [|apply Hk]. apply logged_silent. split_and!; [done..|]. cbn. by rewrite Ei.
Qed.

Lemma validate_silent fuel s t buf v v' s' :
  validate parse_char decode_setup_signing fuel s t buf v = Some (v', s') -> silent s s'.
Proof.
  revert s buf v. induction fuel as [|fuel IH]; intros s buf v; cbn [validate]; [by intros [= _ <-]|].
  destruct buf as [|b buf]; [by intros [= _ <-]|].
  destruct (recv_on _ _ _ _ _ _ _) as [[[[o rest] m] h]|] eqn:Er; [|done]. apply recv_accepts in Er. destruct o as [msg|].
  - intros E%IH. eapply silent_trans; [|exact E]. split_and!; [done..|]. cbn [shared set_shared calls note].
    by rewrite accepted_app, app_nil_r.
  - intros [= _ <-]. by split_and!.
Qed.

Lemma latch_udp_logged t s a data :
  logged t s (latch_udp parse_char msg_lengths finalize decode_setup_signing to_send_buffer decode_system_time
    decode_data_block gmtime_r localtime_r quota_env grace_env s t a data).2.
Proof.
  unfold latch_udp. destruct (bidi (lp s)).
  - destruct (validate _ _ _ _ _ _ _) as [[v s1]|] eqn:Ev; [|apply logged_refl]. apply validate_silent in Ev.
    destruct v; [|by apply logged_silent]. destruct (p_connect t); by apply logged_silent.
  - destruct (p_connect t); [|apply logged_refl]. apply init_user_logged. intros s1.
    eapply logged_trans; [|apply user_bytes_logged]. by apply logged_silent.
Qed.

Lemma user_udp_logged t s :
  logged t s (user_udp parse_char msg_lengths finalize decode_setup_signing to_send_buffer decode_system_time
    decode_data_block gmtime_r localtime_r quota_env grace_env s t).2.
Proof.
  unfold user_udp. destruct (_ && _); [|apply logged_refl]. cbv zeta. destruct (p_udp1 t) as [[a data]|]; [|by apply logged_silent].
  eapply (logged_trans _ _ (hear1 (close_tcp1 s) (p_now t))); [by apply logged_silent|].
  destruct (have_conn1 _); [apply user_bytes_logged|apply latch_udp_logged].
Qed.

Lemma engineer_udp_logged t s :
  logged t s (engineer_udp parse_char msg_lengths finalize decode_setup_signing to_send_buffer s t).2.
Proof.
  unfold engineer_udp. destruct (_ && _); [|apply logged_refl]. destruct (p_udp2 t) as [[[a alen] data]|]; [|apply logged_refl].
  cbv zeta. eapply (logged_trans _ _ (count_engineers s)); [by apply logged_silent|]. destruct (find_conn2 _ _ _) as [i|].
  - eapply logged_trans; [|apply engineer_bytes_logged]. by apply logged_silent.
  - destruct (free_conn2 _) as [i|]; [|apply logged_refl]. destruct (new_udp_conn2 _ _ _ _ _) as [s2|] eqn:En; [|apply logged_refl].
    eapply logged_trans; [|apply engineer_bytes_logged]. unfold new_udp_conn2 in En.
    destruct (init_on _ _ _ _ _ _ _ _) as [[m h]|] eqn:Ei; [|done]. injection En as <-. apply init_on_logged in Ei.
    apply logged_silent. split_and!; [done..|]. cbn. by rewrite Ei.
Qed.

Lemma accept_user_logged t s : logged t s (accept_user s t).2.
Proof.
  unfold accept_user. destruct (_ && _ && _); [|apply logged_refl]. cbv zeta. destruct (p_accept1 t) as [a|]; [|by apply logged_silent].
  eapply (logged_trans _ _ (latch (close_udp1 s) t a true)); [by apply logged_silent|]. apply init_user_logged. intros s1.
  by apply logged_silent.
Qed.

Lemma user_tcp_logged t s :
  logged t s (user_tcp parse_char msg_lengths finalize decode_setup_signing to_send_buffer decode_system_time
    decode_data_block gmtime_r localtime_r quota_env grace_env s t).2.
Proof.
  unfold user_tcp. destruct (_ && _); [|apply logged_refl]. cbv zeta. destruct (_ && is_more _); [by apply logged_silent|].
  set (s2 := if _ && _ then set_ws1 (close_udp1 s) _ else close_udp1 s).
  eapply (logged_trans _ _ s2); [apply logged_silent; unfold s2; by destruct (_ && _)|].
  destruct (tcp_data _ _) as [data|]; [|apply logged_refl]. eapply logged_trans; [|apply user_bytes_logged]. by apply logged_silent.
Qed.

Lemma accept_engineer_logged t s : logged t s (accept_engineer s t).2.
Proof.
  unfold accept_engineer. destruct (_ && _); [|apply logged_refl]. destruct (p_accept2 t) as [[a alen]|]; [|apply logged_refl].
  destruct (_ <=? _); [apply logged_refl|]. destruct (free_conn2 _) as [i|]; [|apply logged_refl].
  destruct (init_on _ _ _ _ _ _ _ _) as [[m h]|] eqn:Ei; [|apply logged_refl]. apply init_on_logged in Ei.
  apply logged_silent. split_and!; [done..|]. cbn. by rewrite Ei.
Qed.

Lemma engineer_tcp_logged t s i :
  logged t s (engineer_tcp parse_char msg_lengths finalize decode_setup_signing to_send_buffer s t i).2.
Proof.
  unfold engineer_tcp. cbv zeta. destruct (_ || _); [apply logged_refl|]. destruct (_ && is_more _); [apply logged_refl|].
  set (s1 := if _ && _ then set_table s _ else s). eapply (logged_trans _ _ s1); [apply logged_silent; unfold s1; by destruct (_ && _)|].
  destruct (tcp_data _ _) as [[|b data]|]; [apply logged_refl| |by apply logged_silent].
  eapply logged_trans; [|apply engineer_bytes_logged]. by apply logged_silent.
Qed.

Lemma engineers_tcp_logged t is_ s :
  logged t s (engineers_tcp parse_char msg_lengths finalize decode_setup_signing to_send_buffer is_ s t).2.
Proof.
  revert s. induction is_ as [|i is_ IH]; intros s; cbn [engineers_tcp]; [apply logged_refl|].
  destruct (negb _); [apply logged_refl|]. pose proof (engineer_tcp_logged t s i) as L.
  destruct (engineer_tcp _ _ _ _ _ s t i) as [[] s1]; cbn [snd] in *; try exact L; (eapply logged_trans; [exact L|apply IH]).
Qed.

Lemma tick_logged t s : logged t s (tick_step nack_order s t).2.
Proof.
  apply logged_silent. unfold tick_step. destruct (_ && _); [|done]. destruct (tick _ _ _ _) as [b o]. split_and!; [done..|].
  cbn [snd shared set_shared calls note]. by rewrite accepted_app, app_nil_r.
Qed.

Lemma snapshot_logged pid t s : logged t s (snapshot_step pid s t).2.
Proof.
  unfold snapshot_step. destruct (_ <? _); [|apply logged_refl]. cbv zeta. match goal with |- context [drops_step ?x] => set (s1 := x) end.
  eapply (logged_trans _ _ s1); [by apply logged_silent|]. apply logged_bind; [apply drops_logged|]. intros s2. apply logged_silent.
  split_and!; [done..|]. cbn [snd shared set_shared calls note]. by rewrite accepted_app, app_nil_r.
Qed.

Lemma evict_logged t s : logged t s (evict_step s t).2.
Proof. by apply logged_silent. Qed.

(** ** A pass, and the session *)

Abbreviation relay_pass := (relay_pass parse_char msg_lengths finalize decode_setup_signing to_send_buffer decode_system_time
  decode_data_block gmtime_r localtime_r quota_env grace_env nack_order).
Abbreviation main_loop := (main_loop parse_char msg_lengths finalize decode_setup_signing to_send_buffer decode_system_time
  decode_data_block gmtime_r localtime_r quota_env grace_env nack_order).
Abbreviation relay_start := (relay_start gmtime_r localtime_r).

Lemma pass_logged pid t s : logged t s (relay_pass pid s t).2.
Proof.
  unfold Relay.relay_pass. eapply (logged_trans _ _ (begin_pass s t)); [by intros (_ & _ & Hw) _ (L1 & _ & L2)|].
  unfold Relay.pass_steps. cbn [steps]. apply logged_bind; [apply drops_logged|intros s1].
  apply logged_bind; [apply select_logged|intros s2]. apply logged_bind; [apply evict_logged|intros s3].
  apply logged_bind; [apply deadline_logged|intros s4]. apply logged_bind; [apply user_udp_logged|intros s5].
  apply logged_bind; [apply engineer_udp_logged|intros s6]. apply logged_bind; [apply accept_user_logged|intros s7].
  apply logged_bind; [apply user_tcp_logged|intros s8]. apply logged_bind; [apply accept_engineer_logged|intros s9].
  apply logged_bind; [apply engineers_tcp_logged|intros s10]. apply logged_bind; [apply tick_logged|intros s11].
  apply logged_bind; [apply snapshot_logged|intros s12]. apply logged_refl.
Qed.

Definition logging (ts : list Pass) : Prop := Forall (fun t => log_opens t /\ clock_ok t) ts.

Lemma loop_log pid ts s : logging ts -> Log s -> Log (main_loop pid s ts).2.
Proof.
  intros Hts. revert s. induction Hts as [|t ts [Ho Hc] _ IH]; intros s L; [done|]. cbn [Relay.main_loop].
  pose proof (pass_logged pid t s Ho Hc L) as L1. destruct (relay_pass pid s t) as [[] s1]; [by apply IH..|exact L1|exact L1].
Qed.

Lemma start_log p b s : flags p = fl -> relay_start p b = Some s -> Log s.
Proof.
  intros Hf E. assert (Hs : lp s = p /\ calls (shared s) = [] /\ (tlog_fp (tlog (logs s)) = None /\ writes (logs s) = [])).
  { revert E. unfold Relay.relay_start. assert (Hn : forall m w, let s := relay_new gmtime_r localtime_r p b m w in
      lp s = p /\ calls (shared s) = [] /\ (tlog_fp (tlog (logs s)) = None /\ writes (logs s) = [])).
    { intros m w. unfold relay_new, new_logs. destruct (session_paths _ _ _ _). by split_and!. }
    destruct (_ && _); [destruct (init _ _ _ _ _ _ _ _ _) as [[m w]|]; [|done]|]; intros [= <-]; apply Hn. }
  destruct Hs as (E1 & E3 & E2 & E4). split; [by rewrite E1|]. split; [by rewrite E4; constructor|]. exists []. unfold to_log. rewrite E1, E3. by destruct (tlog_enabled p).
Qed.
End relay_log.
