(* ===== verification/RelayProps.v ===== *)
(** * What the session child promises

    The theorems about main_loop, over [RelaySpec]'s invariant and [RelayLog]'s: what the record
    shows of signatures, the engineers' slots and the rows made of them, the pre-auth eviction,
    where a user's message goes, the tlog; each run at a small session. *)

From S2P Require Import Prelude Tdb KeyDb ConnDb Session BinLog WebSocket MavLink Ports Relay RelaySpec RelayLog.

Implicit Types c : Connection2.
Implicit Types tb : Table.

(** ** Slots freed and slots left *)

(** Every slot is as it was, or free. *)
Definition pruned tb tb' : Prop := forall i, at_ tb' i = at_ tb i \/ used (at_ tb' i) = false.

Lemma pruned_trans tb1 tb2 tb3 : pruned tb1 tb2 -> pruned tb2 tb3 -> pruned tb1 tb3.
Proof. intros H1 H2 i. destruct (H2 i) as [E2|]; [|by right]. destruct (H1 i) as [E1|E1]; rewrite E2; [by left|by right]. Qed.

Lemma close_pruned tb i : table_ok tb -> used (at_ tb i) = true -> pruned tb (close_conn2 tb i).
Proof. intros Ht Hu j. destruct (close_conn2_spec tb i Ht Hu) as [_ ->]. case_decide; [by right|by left]. Qed.

Lemma drop_pruned tb idx : table_ok tb -> table_ok (drop_conn2 tb idx) /\ pruned tb (drop_conn2 tb idx).
Proof.
  intros Ht. unfold drop_conn2. destruct (_ && _ && _) eqn:E; [|split; [done|by left]]. apply andb_true_iff in E as [_ Hu].
  split; [by apply close_conn2_spec|by apply close_pruned].
Qed.

Lemma drops_pruned idx tb :
  table_ok tb -> table_ok (fold_left drop_conn2 idx tb) /\ pruned tb (fold_left drop_conn2 idx tb).
Proof.
  revert tb. induction idx as [|i idx IH]; intros tb Ht; [split; [done|by left]|]. cbn [fold_left].
  destruct (drop_pruned tb i Ht) as [T1 P1]. destruct (IH _ T1) as [T2 P2]. split; [done|by eapply pruned_trans].
Qed.

Lemma evict_pruned now wall tb i : table_ok tb ->
  let tb' := evict now wall tb i in
  table_ok tb' /\ pruned tb tb' /\ (used (at_ tb' i) = true -> expired (at_ tb' i) now wall = false).
Proof.
  intros Ht. cbv zeta. unfold evict. destruct (used (at_ tb i)) eqn:Hu; rewrite ?andb_false_r; cbn [andb];
    [|split_and!; [done|by left|by rewrite Hu]].
  rewrite (used_scan tb i Ht Hu). destruct (expired (at_ tb i) now wall) eqn:He; cbn [andb]; [|split_and!; [done|by left|done]].
  destruct (close_conn2_spec tb i Ht Hu) as [T1 A1]. split_and!; [done|by apply close_pruned|]. by rewrite A1, decide_True.
Qed.

(** Whoever is left has not run out of time. *)
Lemma evict_all_spec now wall tb : table_ok tb ->
  let tb' := evict_all tb now wall in
  pruned tb tb' /\ forall i, used (at_ tb' i) = true -> expired (at_ tb i) now wall = false.
Proof.
  intros Ht. cbv zeta. unfold evict_all.
  assert (Hg : forall is_ tb0, table_ok tb0 -> let tb' := fold_left (evict now wall) is_ tb0 in
    pruned tb0 tb' /\ forall i, i ∈ is_ -> used (at_ tb' i) = true -> expired (at_ tb0 i) now wall = false).
  { induction is_ as [|j is_ IH]; intros tb0 Ht0; [split; [by left|intros i Hi; by apply list.not_elem_of_nil in Hi]|]. cbn [fold_left].
    destruct (evict_pruned now wall tb0 j Ht0) as (T1 & P1 & E1). destruct (IH _ T1) as [P2 E2]. split; [by eapply pruned_trans|].
    intros i Hi Hu. destruct (P2 i) as [A2|A2]; [|congruence]. rewrite A2 in Hu. destruct (P1 i) as [A1|A1]; [|congruence].
    rewrite <-A1. apply list.elem_of_cons in Hi as [->|Hi]; [by apply E1|]. apply E2; [done|]. by rewrite A2. }
  destruct (Hg slots tb Ht) as [P E]. split; [done|]. intros i Hu. apply E; [|done]. unfold slots. apply elem_of_seq.
  destruct (P i) as [A|A]; [|congruence]. rewrite A in Hu. pose proof (used_in tb i Ht Hu) as Hi. rewrite (tab_len _ Ht) in Hi. lia.
Qed.

Lemma Forall2_impl_in {A B} (Q1 Q2 : A -> B -> Prop) l k :
  (forall x y, x ∈ l -> Q1 x y -> Q2 x y) -> Forall2 Q1 l k -> Forall2 Q2 l k.
Proof.
  intros Hi HQ. induction HQ as [|x y l k Hx _ IH]; [done|]. constructor; [apply Hi; [by left|done]|].
  apply IH. intros x' y' Hin. apply Hi. by right.
Qed.

(** [msg] was written to [l] after [before]. *)
Definition sent_after (cs before : list call) (l : link) (msg : message) : Prop :=
  exists ok out after, cs = before ++ SentTo l msg ok out :: after.

(** A slot that may be kept: someone has proved itself on it, or there is time left to. *)
Definition in_time c (now wall : Z) : Prop :=
  (got_signed_packet (mav c) = true \/ wall - connected_at c <= CONN2_PREAUTH_SECONDS)
  /\ (is_udp c = true -> now - last_pkt c <= 10 * usec).

Lemma expired_in_time c now wall : expired c now wall = false -> in_time c now wall.
Proof.
  unfold expired. intros [X1 X2]%orb_false_iff. split.
  - apply andb_false_iff in X1 as [X1%negb_false_iff|X1%Z.ltb_ge]; [by left|by right].
  - intros Hud. rewrite Hud in X2. by apply Z.ltb_ge in X2.
Qed.

(** The frames a reader finds in the tlog. *)
Definition logged_frames (frame_len : bytes -> option nat) (fuel : nat) (f : TlogWriter) : list bytes :=
  map snd (read_tlog frame_len fuel (default [] (tlog_fp f))).

Section relay_props.
Context {db cdb P : Type} {db_tdb : Tdb db} {db_laws : TdbLaws db} {cdb_tdb : Tdb cdb}.
Variable parse_char : P -> option signing -> Z -> P * option signing * bool * option message.
Variable msg_lengths : Z -> Z * Z.
Variable finalize : option signing -> message -> option bytes.
Variable decode_setup_signing : message -> Z * bytes.
Variable to_send_buffer : message -> option bytes.
Variable decode_system_time : message -> Z.
Variable decode_data_block : message -> Z * bytes.
Variable gmtime_r localtime_r : Z -> option tm.
Variable quota_env grace_env : option bytes.
Variable nack_order : gmap Z NackState -> list (Z * NackState).

(** The generated library's documented behaviour, as in [MavLink]. *)
Variable verifies : bytes -> message -> Prop.
Hypothesis parse_verified : forall p s b p' s' msg,
  parse_char p (Some s) b = (p', s', false, Some msg) ->
  Z.land (incompat_flags msg) MAVLINK_IFLAG_SIGNED <> 0 -> verifies (sg_secret_key s) msg.
Hypothesis parse_keeps_key : forall p s b p' s' called msg,
  parse_char p s b = (p', s', called, msg) -> sg_secret_key <$> s' = sg_secret_key <$> s.
Hypothesis setup_decodes : forall msg,
  is_u64 (decode_setup_signing msg).1 /\ length (decode_setup_signing msg).2 = 32%nat.
Hypothesis setup_bytes : forall msg, bytes_ok (decode_setup_signing msg).2.

Abbreviation Relay := (Relay.Relay (db := db) (P := P)).
Abbreviation Shared := (Relay.Shared (db := db) (P := P)).
Abbreviation Pass := (Relay.Pass (db := db) (cdb := cdb)).
Implicit Types s : Relay.
Implicit Types t : Pass.
Implicit Types h : Shared.

Abbreviation relay_pass := (relay_pass parse_char msg_lengths finalize decode_setup_signing to_send_buffer decode_system_time
  decode_data_block gmtime_r localtime_r quota_env grace_env nack_order).
Abbreviation relay_run := (relay_run parse_char msg_lengths finalize decode_setup_signing to_send_buffer decode_system_time
  decode_data_block gmtime_r localtime_r quota_env grace_env nack_order).
Abbreviation user_msg := (user_msg msg_lengths finalize to_send_buffer decode_system_time decode_data_block gmtime_r localtime_r
  quota_env grace_env).
Abbreviation Inv := (Inv verifies False).
Abbreviation vouched := (vouched verifies).

(** ** Signatures *)

(** No save of the entry's key fails while the stored one is all zero. *)
Definition keys_kept p (b : Birth (db := db) (P := P)) (ts : list Pass) : Prop :=
  rekeys (b_keys b) (port2 p) /\ passes_rekey (port2 p) ts.

(** C2: Whatever the peers send, in any number of passes and whatever keys.tdb does: every message
    written to the user was accepted before from an engineer, on whose link the wired key vouches
    for it; every message written to an engineer was accepted before from the user, and where the
    entry signs both ways the user's key vouches for it; there a UDP user's address is latched only
    once a message it signed was accepted.  All else that is written is the signing warnings, to a
    user only where the entry signs both ways, and the bin log's own packets, where it is on.  A
    link's key vouches for nothing once a key change has left the link without one, and no link is
    left so unless a save fails while the entry's stored key is all zero. *)
Theorem relay_signed p b my_pid ts v s :
  port2 p <> -1 -> values_ok (b_keys b) -> passes_ok ts -> relay_run p b my_pid ts = Some (v, s) -> v <> Null ->
  (forall before msg, sent_after (calls (shared s)) before User msg ->
     exists i k, Accepted (Engineer i) k msg ∈ before /\ vouched (Engineer i) before k msg)
  /\ (forall before i msg, sent_after (calls (shared s)) before (Engineer i) msg ->
     exists k, Accepted User k msg ∈ before /\ (bidi p = true -> vouched User before k msg))
  /\ (bidi p = true -> have_conn1 (user s) = true -> mav1_is_tcp (user s) = false ->
     exists k msg, Validated k msg ∈ calls (shared s) /\ vouched User (calls (shared s)) k msg)
  /\ (forall l out, Warned l out ∈ calls (shared s) -> (exists x, out = mav_printf x) /\ (l = User -> bidi p = true))
  /\ (forall ms, Status ms ∈ calls (shared s) -> binlog_enabled p = true)
  /\ (keys_kept p b ts -> forall l, Unwired l ∉ calls (shared s)).
Proof.
  intros Hp Hb Hts Er Hv.
  destruct (relay_run_inv parse_char msg_lengths finalize decode_setup_signing to_send_buffer decode_system_time decode_data_block
    gmtime_r localtime_r quota_env grace_env nack_order verifies parse_verified parse_keeps_key setup_decodes setup_bytes
    (keys_kept p b ts) p b my_pid ts v s Hp Hb Hts (fun K => K) Er Hv) as (I & _ & Ef).
  pose proof (core_calls _ _ _ _ _ _ I) as C. assert (Eb : bidi (lp s) = bidi p) by (unfold bidi; by rewrite Ef).
  assert (Hin : forall e, e ∈ calls (shared s) -> exists cs, cs ⊆ calls (shared s) /\ call_ok verifies (lp s) cs e).
  { intros e (l1 & l2 & E)%list_elem_of_split. exists l1. split; [rewrite E; apply list.list_subseteq_app_l; done|exact (C _ _ _ E)]. }
  assert (Hbefore : forall before e e' after, calls (shared s) = before ++ e' :: after -> e ∈ before ->
    exists cs, cs ⊆ before /\ call_ok verifies (lp s) cs e).
  { intros before e e' after E (l1 & l2 & ->)%list_elem_of_split. exists l1. rewrite <-app_assoc in E.
    split; [apply list.list_subseteq_app_l; done|exact (C _ _ _ E)]. }
  split_and!.
  - intros before msg (ok & out & after & E). destruct (C _ _ _ E) as (i & k & Hi). exists i, k. split; [done|].
    destruct (Hbefore _ _ _ _ E Hi) as (cs & Hs & Hc). by eapply vouched_mono.
  - intros before i msg (ok & out & after & E). destruct (C _ _ _ E) as (k & Hi). exists k. split; [done|]. intros Hbi. rewrite <-Eb in Hbi.
    destruct (Hbefore _ _ _ _ E Hi) as (cs & Hs & Hc). eapply vouched_mono; [exact Hs|by apply Hc].
  - intros Hbi Hc Ht. rewrite <-Eb in Hbi. destruct (core_latch _ _ _ _ _ _ I Hbi Hc Ht) as (k & msg & Hi). exists k, msg. split; [done|].
    destruct (Hin _ Hi) as (cs & Hs & Hk). eapply vouched_mono; [exact Hs|by apply Hk].
  - intros l out (cs & _ & Hx & Hu)%Hin. by rewrite <-Eb.
  - intros ms (cs & _ & Hx)%Hin. unfold binlog_enabled in *. by rewrite <-Ef.
  - intros Hk. apply (core_kept _ _ _ _ _ _ I Hk).
Qed.

(** ** The engineers' slots *)

(** The slots in use. *)
Definition targets tb : list nat := filter (fun i => used (at_ tb i) = true) slots.

Lemma slots_at tb : table_ok tb -> conn2 tb = at_ tb <$> slots.
Proof.
  intros Ht. apply list_eq. intros i. rewrite list_lookup_fmap. unfold slots. rewrite <-(tab_len _ Ht).
  destruct (Nat.lt_ge_cases i (length (conn2 tb))) as [Hi|Hi].
  - rewrite lookup_seq_lt by done. by apply at_lookup.
  - rewrite lookup_seq_ge by done. by apply lookup_ge_None.
Qed.

Lemma targets_count tb : table_ok tb -> len (targets tb) = conn2_count tb.
Proof.
  intros Ht. rewrite (tab_count _ Ht). unfold used_count. rewrite (slots_at tb Ht) at 1. unfold targets. f_equal.
  induction slots as [|i is_ IH]; [done|]. rewrite fmap_cons, !filter_cons. by case_decide; cbn [length]; rewrite IH.
Qed.

Lemma rows_index s pid wall : table_ok (table s) ->
  map conn_index (rows_of s pid wall)
  = (if have_conn1 (user s) then [0] else []) ++ map (fun i => Z.of_nat i + 1) (targets (table s)).
Proof.
  intros Ht. unfold rows_of. rewrite map_app. f_equal; [unfold user_row; by destruct (have_conn1 _)|]. unfold targets.
  induction slots as [|i is_ IH]; [done|]. cbn [flat_map]. rewrite map_app, IH, filter_cons. unfold engineer_row.
  case_decide as Hu; [by rewrite (used_scan _ _ Ht Hu), Hu|]. apply not_true_is_false in Hu. by rewrite Hu, andb_false_r.
Qed.

(** The child's own rows are those of the live links. *)
Definition live_rows s : list Z :=
  (if have_conn1 (user s) then [0] else []) ++ map (fun i => Z.of_nat i + 1) (targets (table s)).

Lemma live_rows_distinct s : NoDup (live_rows s).
Proof.
  assert (Ht : NoDup (map (fun i => Z.of_nat i + 1) (targets (table s)))).
  { assert (Inj eq eq (fun i => Z.of_nat i + 1)) by (intros x y; lia). apply (NoDup_fmap_2 (fun i => Z.of_nat i + 1)). apply list.NoDup_filter, list.NoDup_seq. }
  unfold live_rows. destruct (have_conn1 (user s)); [|exact Ht]. cbn [app]. apply list.NoDup_cons. split; [|exact Ht].
  intros (i & E & _)%list_elem_of_fmap. lia.
Qed.

(** C4: At every turn's end the engineers' table is exact: the count is the slots in use, the
    scan watermark is one past the highest of them, a slot in use has its own MAVLink channel, the
    entry's key and a descriptor exactly when it is TCP, a free one has nothing left; and the rows a
    snapshot writes are one for the user's link and one for each slot in use, at distinct indices. *)
Theorem relay_slots_ok p b my_pid ts v s :
  port2 p <> -1 -> values_ok (b_keys b) -> passes_ok ts -> relay_run p b my_pid ts = Some (v, s) -> v <> Null ->
  conn2_count (table s) = len (targets (table s))
  /\ (forall i, used (at_ (table s) i) = true -> Z.of_nat i < max_conn2_count (table s))
  /\ (0 < max_conn2_count (table s) -> used (at_ (table s) (Z.to_nat (max_conn2_count (table s) - 1))) = true)
  /\ 0 <= max_conn2_count (table s) <= MAX_COMM2_LINKS
  /\ (forall i, let c := at_ (table s) i in
       if used c then chan (mav c) = CHAN_COMM2 i /\ key_id (mav c) = port2 p /\ sock c = negb (is_udp c)
       else sock c = false /\ ws c = None)
  /\ forall pid wall, map conn_index (rows_of s pid wall) = live_rows s /\ NoDup (live_rows s).
Proof.
  intros Hp Hb Hts Er Hv.
  destruct (relay_run_inv parse_char msg_lengths finalize decode_setup_signing to_send_buffer decode_system_time decode_data_block
    gmtime_r localtime_r quota_env grace_env nack_order verifies parse_verified parse_keeps_key setup_decodes setup_bytes
    False p b my_pid ts v s Hp Hb Hts ltac:(done) Er Hv) as (I & Ep & _).
  pose proof (core_table _ _ _ _ _ _ I) as Ht. split_and!; [by rewrite targets_count|apply Ht|apply Ht|apply Ht..| |].
  - intros i c. pose proof (core_slots _ _ _ _ _ _ I i) as Hs. unfold slot_ok in Hs. fold c in Hs. rewrite Ep in Hs.
    destruct (used c); [|done]. by destruct Hs as [(E1 & E2 & _) E3].
  - intros pid wall. split; [by apply rows_index|apply live_rows_distinct].
Qed.

(** ** The pre-auth deadline *)

(** The pass up to the eviction, and the rest. *)
Lemma pass_split my_pid s t :
  relay_pass my_pid s t = bind (drops_step (begin_pass s t) (p_sigusr1 t) (p_rows t)) (fun s => bind (select_step s t) (fun s =>
    bind (evict_step s t) (fun s => steps (late_steps parse_char msg_lengths finalize decode_setup_signing to_send_buffer
      decode_system_time decode_data_block gmtime_r localtime_r quota_env grace_env nack_order my_pid) s t))).
Proof. done. Qed.

Lemma drops_step_pruned s pending rows : table_ok (table s) ->
  table_ok (table (drops_step s pending rows).2) /\ pruned (table s) (table (drops_step s pending rows).2).
Proof.
  intros Ht. unfold drops_step. destruct pending; [|split; [done|by left]]. unfold process_drops.
  destruct rows as [d|]; [|split; [done|by left]]. by apply drops_pruned.
Qed.

Lemma drops_go_on s pending rows : (drops_step s pending rows).1 = Go \/ (drops_step s pending rows).1 = Break.
Proof. unfold drops_step. destruct pending; [|by left]. destruct (process_drops _ _ _) as [tb []]; [by right|by left]. Qed.

Lemma select_go_on s t : p_select t = Ready -> (select_step s t).1 = Go \/ (select_step s t).1 = Break.
Proof. intros E. unfold select_step. rewrite E. destruct (_ && _); [by right|by left]. Qed.

Lemma select_table s t : table (select_step s t).2 = table s.
Proof. unfold select_step. destruct (_ && _); [done|]. by destruct (p_select t). Qed.

Lemma pass_evicts my_pid s t v s' i :
  Inv s -> values_ok (p_keys t) -> relay_pass my_pid s t = (v, s') -> v = Go \/ v = Continue -> p_select t = Ready ->
  used (at_ (table s') i) = true ->
  connected_at (at_ (table s') i) = p_wall t
  \/ (used (at_ (table s) i) = true /\ connected_at (at_ (table s') i) = connected_at (at_ (table s) i)
      /\ expired (at_ (table s) i) (p_now t) (p_wall t) = false).
Proof.
  intros I Hk E Hv Hsel Hu. rewrite pass_split in E.
  pose proof (begin_keeps verifies False t s Hk ltac:(done)) as K0. set (s0 := begin_pass s t) in *. destruct (K0 I) as (I0 & _).
  pose proof (drops_step_pruned s0 (p_sigusr1 t) (p_rows t) (core_table _ _ _ _ _ _ I0)) as [T1 P1].
  pose proof (drops_fine verifies False t s0 (p_sigusr1 t) (p_rows t)) as F1.
  pose proof (drops_go_on s0 (p_sigusr1 t) (p_rows t)) as G1.
  destruct (drops_step s0 (p_sigusr1 t) (p_rows t)) as [v1 s1]. cbn [fst snd] in *.
  destruct G1 as [->| ->]; cbn [bind] in E; [|injection E as <- _; by destruct Hv].
  destruct (F1 ltac:(done) I0) as (I1 & _). pose proof (select_table s1 t) as E2. pose proof (select_go_on s1 t Hsel) as G2.
  pose proof (select_fine verifies False t s1) as F2. destruct (select_step s1 t) as [v2 s2]. cbn [fst snd] in *.
  destruct G2 as [->| ->]; cbn [bind] in E; [|injection E as <- _; by destruct Hv].
  destruct (F2 ltac:(done) I1) as (I2 & _). set (s3 := (evict_step s2 t).2).
  destruct (evict_fine verifies False t s2 ltac:(done) I2) as (I3 & _). change (Inv s3) in I3.
  change (bind (evict_step s2 t) ?k) with (k s3) in E. cbv beta in E.
  pose proof (late_fine parse_char msg_lengths finalize decode_setup_signing to_send_buffer decode_system_time decode_data_block
    gmtime_r localtime_r quota_env grace_env nack_order verifies parse_verified parse_keeps_key setup_decodes setup_bytes
    False my_pid t s3) as F3. rewrite E in F3. destruct (F3 ltac:(by destruct Hv as [->| ->]) I3) as (_ & _ & K3 & _). cbn [snd] in K3.
  assert (Et : table s3 = evict_all (table s1) (p_now t) (p_wall t)).
  { unfold s3, evict_step. cbv zeta. rewrite E2, clamp_idle by done. done. }
  destruct (evict_all_spec (p_now t) (p_wall t) (table s1) T1) as [P3 X3]. rewrite <-Et in P3, X3.
  destruct (K3 i Hu) as [|[Hu3 Ec]]; [by left|]. right. specialize (X3 i Hu3). destruct (P3 i) as [A3|]; [|congruence].
  rewrite A3 in Hu3. destruct (P1 i) as [A1|]; [|congruence]. change (table s0) with (table s) in A1.
  rewrite A1 in *. split_and!; [done| |done]. by rewrite Ec, A3.
Qed.

(** C5: An engineer that never signs cannot hold a slot: after a pass that went on to the next, a
    slot in use was taken in that pass, or was in use before it with a signed packet accepted or no more
    than five seconds since it was taken, and, if it is UDP, no more than ten since it was heard. *)
Theorem relay_evicts p b my_pid ts s t v s' i :
  port2 p <> -1 -> values_ok (b_keys b) -> passes_ok ts -> relay_run p b my_pid ts = Some (Go, s) ->
  values_ok (p_keys t) -> relay_pass my_pid s t = (v, s') -> v = Go \/ v = Continue -> p_select t = Ready ->
  used (at_ (table s') i) = true ->
  connected_at (at_ (table s') i) = p_wall t
  \/ (let c := at_ (table s) i in
      used c = true /\ connected_at (at_ (table s') i) = connected_at c /\ in_time c (p_now t) (p_wall t)).
Proof.
  intros Hp Hb Hts Er Hk E Hv Hs Hu.
  destruct (relay_run_inv parse_char msg_lengths finalize decode_setup_signing to_send_buffer decode_system_time decode_data_block
    gmtime_r localtime_r quota_env grace_env nack_order verifies parse_verified parse_keeps_key setup_decodes setup_bytes
    False p b my_pid ts Go s Hp Hb Hts ltac:(done) Er ltac:(done)) as (I & _).
  destruct (pass_evicts my_pid s t v s' i I Hk E Hv Hs Hu) as [|(U & C & X)]; [by left|right]. by split_and!; [..|apply expired_in_time].
Qed.

(** ** Where a message of the user's goes *)

Definition sockets_ok tb : Prop := forall i, used (at_ tb i) = true -> sock (at_ tb i) = negb (is_udp (at_ tb i)).

Lemma send_on_calls l m h t msg : let r := send_on msg_lengths finalize l m h t msg in
  exists out, calls r.2 = calls h ++ [SentTo l msg r.1.1 out].
Proof.
  cbv zeta. unfold send_on, next_outcome. destruct (outcomes h) as [|o os];
    destruct (send_message _ _ _ _ _ _ _ _) as [[[ok m'] w'] out]; by exists out.
Qed.

(** What becomes of slot [i] when it is sent to and the send says [ok]: counted, if it was sent or
    a UDP user's message went to a UDP engineer, whose sends may fail; freed otherwise. *)
Definition served (udp ok : bool) tb tb' (i : nat) : Prop :=
  let c := at_ tb i in let c' := at_ tb' i in
  if ok || (udp && is_udp c)
  then used c' = true /\ is_udp c' = is_udp c /\ sock c' = sock c /\ tx_msgs c' = u32 (tx_msgs c + 1)
  else used c' = false.

(** The record's word on slot [i], and what became of the slot. *)
Definition delivered (udp : bool) (msg : message) tb tb' (i : nat) (e : call) : Prop :=
  exists ok out, e = SentTo (Engineer i) msg ok out /\ served udp ok tb tb' i.

Lemma forward_step udp t msg tb h i :
  table_ok tb -> sockets_ok tb ->
  let r := forward msg_lengths finalize udp t msg (tb, h) i in
  table_ok r.1 /\ (forall j, j <> i -> at_ r.1 j = at_ tb j)
  /\ if used (at_ tb i)
     then exists e, calls r.2 = calls h ++ [e] /\ delivered udp msg tb r.1 i e
     else r = (tb, h).
Proof.
  intros Ht Hs. cbv zeta. unfold forward. destruct (used (at_ tb i)) eqn:Hu; rewrite ?andb_false_r; [|done].
  rewrite (used_scan tb i Ht Hu). cbn [andb negb]. pose proof (used_in tb i Ht Hu) as Hi. pose proof (Hs i Hu) as Hk.
  unfold send_conn2. pose proof (send_on_calls (Engineer i) (mav (at_ tb i)) h t msg) as Hc.
  destruct (send_on _ _ _ _ _ _ _) as [[ok m] h1]. cbn [fst snd] in Hc. destruct Hc as (out & Hc). set (tb1 := put tb i (set_mav (at_ tb i) m)).
  assert (A1 : forall j, at_ tb1 j = if decide (j = i) then set_mav (at_ tb i) m else at_ tb j) by (intros j; by apply at_put).
  assert (T1 : table_ok tb1) by by apply put_same.
  assert (Ai : at_ tb1 i = set_mav (at_ tb i) m) by (by rewrite A1, decide_True).
  set (tb2 := put tb1 i (note_tx (at_ tb1 i))). assert (Hi1 : (i < length (conn2 tb1))%nat) by (unfold tb1; by rewrite put_len).
  assert (T2 : table_ok tb2) by (apply put_same; [done|done|by rewrite Ai]).
  assert (A2 : forall j, j <> i -> at_ tb2 j = at_ tb j).
  { intros j Hj. unfold tb2. rewrite at_put, decide_False, A1, decide_False by done. done. }
  assert (S2 : ok || (udp && is_udp (at_ tb i)) = true -> exists e, calls h1 = calls h ++ [e] /\ delivered udp msg tb tb2 i e).
  { intros Eo. eexists. split; [exact Hc|]. exists ok, out. split; [done|]. unfold served. rewrite Eo. unfold tb2.
    rewrite at_put, decide_True, Ai by done. done. }
  destruct (udp && is_udp (at_ tb i)) eqn:Eu; [rewrite orb_true_r in S2; by auto|].
  assert (Esk : udp && negb (sock (at_ tb i)) = false) by (rewrite Hk, negb_involutive; exact Eu). rewrite Esk.
  destruct ok; [by auto|]. cbn [fst snd]. destruct (close_conn2_spec tb1 i T1 ltac:(by rewrite Ai)) as [T3 A3]. split_and!; [done| |].
  - intros j Hj. by rewrite A3, decide_False, A1, decide_False.
  - eexists. split; [exact Hc|]. exists false, out. split; [done|]. unfold served. rewrite Eu. cbn [orb]. by rewrite A3, decide_True.
Qed.

Lemma sockets_step udp msg tb tb' i :
  sockets_ok tb -> (forall j, j <> i -> at_ tb' j = at_ tb j) -> (used (at_ tb i) = true /\ (exists e, delivered udp msg tb tb' i e) \/ tb' = tb) ->
  sockets_ok tb'.
Proof.
  intros Hs Ho Hi j Hj. destruct Hi as [(Hu & e & ok & out & _ & Hi)| ->]; [|by apply Hs]. destruct (decide (j = i)) as [->|Hne].
  - unfold served in Hi. destruct (_ || _); [|congruence]. destruct Hi as (_ & -> & -> & _). by apply Hs.
  - rewrite Ho in * by done. by apply Hs.
Qed.

(** What a slot's fate says of it alone. *)
Lemma delivered_same udp msg tb tb1 tb' tb1' i e :
  at_ tb i = at_ tb1 i -> at_ tb' i = at_ tb1' i -> delivered udp msg tb tb' i e -> delivered udp msg tb1 tb1' i e.
Proof. intros E1 E2 (ok & out & He & Hs). exists ok, out. split; [done|]. unfold served in *. by rewrite <-E1, <-E2. Qed.

Lemma forward_list udp t msg is_ tb h :
  NoDup is_ -> table_ok tb -> sockets_ok tb ->
  let r := fold_left (forward msg_lengths finalize udp t msg) is_ (tb, h) in
  let to := filter (fun i => used (at_ tb i) = true) is_ in
  (forall j, j ∉ to -> at_ r.1 j = at_ tb j)
  /\ exists es, calls r.2 = calls h ++ es /\ Forall2 (delivered udp msg tb r.1) to es.
Proof.
  cbv zeta. intros Hn. revert tb h. induction Hn as [|i is_ Hi Hn IH]; intros tb h Ht Hs.
  { split; [done|]. exists []. rewrite app_nil_r. by split. }
  cbn [fold_left]. destruct (forward_step udp t msg tb h i Ht Hs) as (T1 & A1 & R1).
  destruct (forward _ _ udp t msg (tb, h) i) as [tb1 h1]. cbn [fst snd] in *.
  assert (S1 : sockets_ok tb1).
  { apply (sockets_step udp msg tb tb1 i Hs A1). destruct (used (at_ tb i)); [left|right; by injection R1].
    destruct R1 as (e & _ & R1). split; [done|by exists e]. }
  destruct (IH tb1 h1 T1 S1) as (IA & es & Ec & Em). set (r := fold_left _ is_ (tb1, h1)) in *.
  assert (Ef : filter (fun i => used (at_ tb1 i) = true) is_ = filter (fun i => used (at_ tb i) = true) is_).
  { clear - A1 Hi. induction is_ as [|k is_ IH]; [done|]. apply list.not_elem_of_cons in Hi as [Hk Hi]. rewrite !filter_cons, A1, (IH Hi) by congruence. done. }
  rewrite Ef in *. rewrite filter_cons. set (to := filter _ is_) in *.
  assert (Hto : i ∉ to) by (intros [_ Hin]%list_elem_of_filter; done).
  assert (Es : Forall2 (delivered udp msg tb r.1) to es).
  { eapply Forall2_impl_in; [|exact Em]. intros j e Hj. apply delivered_same; [apply A1; by intros ->|done]. }
  destruct (used (at_ tb i)) eqn:Hu.
  - destruct R1 as (e & R1 & D1). rewrite decide_True by done. split.
    + intros j [Hji Hj]%list.not_elem_of_cons. rewrite IA by done. by apply A1.
    + exists (e :: es). rewrite Ec, R1, <-app_assoc. split; [done|]. constructor; [|done].
      eapply delivered_same; [done| |exact D1]. symmetry. by apply IA.
  - injection R1 as -> ->. rewrite decide_False by done. split; [done|]. by exists es.
Qed.

Definition sent_to (e : call) : option (link * message) := match e with SentTo l msg _ _ => Some (l, msg) | _ => None end.

(** C3: A message of the user's is given once to every engineer, in slot order, and to nobody else --
    or to nobody when the bin log is on and the message is one of its own; where the send says it
    went, or was a UDP user's message to a UDP engineer, the slot counts it, and where the send says
    it failed the slot is freed; no other slot changes. *)
Theorem message_routed udp s t msg :
  table_ok (table s) -> sockets_ok (table s) ->
  let s' := user_msg udp s t msg in
  let to := if binlog_enabled (lp s) && is_remote_log msg then [] else targets (table s) in
  (exists es, calls (shared s') = calls (shared s) ++ es /\ Forall2 (delivered udp msg (table s) (table s')) to es)
  /\ (forall i, i ∉ to -> at_ (table s') i = at_ (table s) i)
  /\ mav1_rx_msgs (user s') = u32 (mav1_rx_msgs (user s) + 1).
Proof.
  intros Ht Hs. cbv zeta. unfold Relay.user_msg. cbv zeta. set (s1 := set_logs _ _).
  assert (Es : (binlog_handle_user_msg decode_system_time decode_data_block gmtime_r localtime_r quota_env grace_env
    (lp s1) (logs s1) t msg).1 = binlog_enabled (lp s) && is_remote_log msg).
  { unfold binlog_handle_user_msg. change (lp s1) with (lp s). destruct (binlog_enabled (lp s)); cbn [negb andb]; [|done].
    destruct (is_remote_log msg); cbn [negb]; [|done]. destruct (_ =? _); [|done]. destruct (decode_data_block msg) as [q d].
    by destruct (handle_block _ _ _ _ _ _ _ _ _ _ _ _). }
  destruct (binlog_handle_user_msg _ _ _ _ _ _ _ _ _ _) as [strip lg]. cbn [fst] in Es. subst strip. destruct (_ && is_remote_log msg).
  - split_and!; [exists []; rewrite app_nil_r; by split|done|done].
  - change (table (set_logs s1 lg)) with (table s). change (shared (set_logs s1 lg)) with (shared s).
    destruct (forward_list udp t msg slots (table s) (shared s) (list.NoDup_seq _ _) Ht Hs) as [A C]. unfold forward_all.
    destruct (fold_left _ slots (table s, shared s)) as [tb h]. by split_and!.
Qed.

(** ** The tlog *)

(** [mavlink_msg_to_send_buffer] packs every message, into a frame a log reader can tell. *)
Variable frame_len : bytes -> option nat.
Variable frame_of : message -> bytes.
Hypothesis packs : forall msg, to_send_buffer msg = Some (frame_of msg).
Hypothesis frames : forall msg, frame_ok frame_len (frame_of msg).

(** C6: Where the entry keeps a tlog, the file of a session, if it opens new and takes every write
    whole, reads back as exactly the messages handed on from its links, the user's and the
    engineers', each once and in the order of acceptance -- the ones a UDP user only proves itself
    with, before its address is latched, are not among them; where it keeps none there is no file. *)
Theorem session_log_complete p b my_pid ts v s fuel :
  logging ts -> relay_run p b my_pid ts = Some (v, s) ->
  (length (accepted (calls (shared s))) <= fuel)%nat ->
  if tlog_enabled p
  then logged_frames frame_len fuel (tlog (logs s)) = map frame_of (accepted (calls (shared s)))
  else tlog_fp (tlog (logs s)) = None.
Proof.
  intros Hts. unfold Relay.relay_run. destruct (relay_start gmtime_r localtime_r p b) as [s0|] eqn:E0; [|done].
  intros [= E] Hf. pose proof (start_log gmtime_r localtime_r frame_of (flags p) p b s0 eq_refl E0) as L0.
  pose proof (loop_log parse_char msg_lengths finalize decode_setup_signing to_send_buffer decode_system_time decode_data_block
    gmtime_r localtime_r quota_env grace_env nack_order frame_len frame_of packs frames (flags p) my_pid ts s0 Hts L0) as (Lf & _ & L).
  rewrite E in *. cbn [snd] in *. unfold to_log in L. assert (Et : tlog_enabled (lp s) = tlog_enabled p) by (unfold tlog_enabled; by rewrite Lf).
  rewrite Et in L. destruct L as (recs & E1 & E2 & E3). destruct (tlog_enabled p); [|done]. unfold logged_frames. rewrite E3, <-E1.
  assert (El : length recs = length (accepted (calls (shared s)))) by (by rewrite <-(length_map snd), E1, length_map).
  destruct (accepted (calls (shared s))) as [|m ms] eqn:Ea; [destruct recs; [by destruct fuel|done]|]. cbn [default]. f_equal.
  apply read_records; [|lia]. apply list.Forall_forall. intros r Hr. split; [by eapply list.Forall_forall in E2|].
  assert (Hin : r.2 ∈ map snd recs) by by apply list_elem_of_fmap_2. rewrite E1 in Hin.
  apply list_elem_of_fmap in Hin as (msg & -> & _). apply frames.
Qed.
End relay_props.

(** ** Witnesses: a user of an entry that signs both ways proves itself, an engineer speaks to it and
    it answers, over [MavLink]'s demonstration parser *)

Definition demo_port : listen_port := {|
  port1 := 4; Ports.port2 := 5; sock1_udp := Some 4; sock2_udp := Some 5; sock1_tcp := Some 4; sock2_listen := Some 5; Ports.pid := 0;
  video_pid := 0; video_respawn_after := 0; video_ports := []; video_flags := 0; video_flags_hi := 0;
  flags := Z.lor KEY_FLAG_BIDI_SIGN KEY_FLAG_TLOG; fc_sysid := 0; tz_offset_hours := 0; seen := true; removed := false
|}.
Definition demo_birth : Birth (db := mapdb) (P := unit) := {|
  b_wall := 1700000000; b_pid := 7; b_nsecs := []; b_tree := ∅; b_parser := fun _ => tt; b_keys := demo_db; b_open_ok := true; b_now := demo_now
|}.
Definition demo_pass (dt : Z) (u e : option bytes) : Relay.Pass (db := mapdb) (cdb := mapdb) := {|
  p_sigusr1 := false; p_rows := None; p_start := demo_now + dt * usec; p_select := Ready; p_now := demo_now + dt * usec;
  p_wall := 1700000000 + dt; p_isset := fun f => match f, u, e with FdUser, Some _, _ => true | FdEngineers, _, Some _ => true | _, _, _ => false end;
  p_udp1 := (fun d => (1, 1000, d)) <$> u; p_connect := true; p_udp2 := (fun d => (2, 2000, 16, d)) <$> e; p_accept1 := None;
  p_tcp1 := {| tr_detect := WS_NO; tr_ssl := false; tr_data := None |}; p_accept2 := None;
  p_tcp2 := fun _ => {| tr_detect := WS_NO; tr_ssl := false; tr_data := None |}; p_keys := demo_db; p_txn_ok := true; p_open_ok := true;
  p_outcomes := []; p_tlog_opens := true; p_tlog_holds := []; p_gettimeofday := (1700000000 + dt, 5); p_writes := []; p_bin := demo_env; p_tree := ∅;
  p_tick := []; p_snap := demo_now + dt * usec; p_snap_rows := None
|}.
Definition demo_lengths (_ : Z) : Z * Z := (1, 9).
Definition demo_finalize (_ : option signing) (msg : message) : option bytes := Some [253; msgid msg].
Definition demo_frame (msg : message) : bytes := [2; msgid msg].
Definition demo_send (msg : message) : option bytes := Some (demo_frame msg).
Definition demo_boot (_ : message) : Z := 0.
Definition demo_data (_ : message) : Z * bytes := (0, []).
Definition demo_order (_ : gmap Z NackState) : list (Z * NackState) := [].

Definition demo_runs (ts : list Relay.Pass) : option (verdict * Relay.Relay) :=
  Relay.relay_run demo_parse demo_lengths demo_finalize demo_setup demo_send demo_boot demo_data demo_tm demo_tm None None demo_order
    demo_port demo_birth 7 ts.
Definition demo_idle : Relay.Relay := relay_new demo_tm demo_tm demo_port demo_birth mav_blank demo_world.
Definition demo_ran (ts : list Relay.Pass) : Relay.Relay := match demo_runs ts with Some (_, s) => s | None => demo_idle end.
Definition demo_ts : list Relay.Pass := [demo_pass 1 (Some [0]) None; demo_pass 2 None (Some [0; 30]); demo_pass 3 (Some [0; 33]) None].

Lemma demo_passes_ok : passes_ok demo_ts.
Proof. repeat constructor; exact demo_db_ok. Qed.

Lemma demo_ran_on ts : match demo_runs ts with Some (Go, _) => true | _ => false end = true -> demo_runs ts = Some (Go, demo_ran ts).
Proof. unfold demo_ran. by destruct (demo_runs ts) as [[[] s]|]. Qed.

Lemma demo_ran_go : demo_runs demo_ts = Some (Go, demo_ran demo_ts).
Proof. apply demo_ran_on. vm_compute. reflexivity. Qed.

Lemma demo_ran_two : demo_runs (take 2 demo_ts) = Some (Go, demo_ran (take 2 demo_ts)).
Proof. apply demo_ran_on. vm_compute. reflexivity. Qed.

(** The session's sends: the engineer's two messages to the user, and the user's two to the engineer. *)
Example demo_sends :
  omap sent_to (calls (shared (demo_ran demo_ts)))
  = [(User, demo_msg 0); (User, demo_msg 30); (Engineer 0, demo_msg 0); (Engineer 0, demo_msg 33)].
Proof. vm_compute. reflexivity. Qed.

Definition demo_before : list call := take 3 (calls (shared (demo_ran demo_ts))).
Definition demo_after : list call := drop 4 (calls (shared (demo_ran demo_ts))).

Lemma relay_signed_witness :
  (exists i k, Accepted (Engineer i) k (demo_msg 0) ∈ demo_before /\ vouched demo_verifies (Engineer i) demo_before k (demo_msg 0))
  /\ exists k msg, Validated k msg ∈ calls (shared (demo_ran demo_ts))
     /\ vouched demo_verifies User (calls (shared (demo_ran demo_ts))) k msg.
Proof.
  destruct (relay_signed (cdb := mapdb) demo_parse demo_lengths demo_finalize demo_setup demo_send demo_boot demo_data demo_tm demo_tm
    None None demo_order demo_verifies demo_verified demo_keeps demo_decodes demo_setup_bytes demo_port demo_birth 7 demo_ts Go
    (demo_ran demo_ts) ltac:(done) demo_db_ok demo_passes_ok demo_ran_go ltac:(done)) as (W1 & _ & W3 & _).
  split; [|by apply W3; vm_compute].
  apply (W1 demo_before (demo_msg 0)). exists true, [Sent [253; 0]], demo_after. vm_compute. reflexivity.
Defined.

Lemma relay_slots_ok_witness :
  conn2_count (table (demo_ran demo_ts)) = 1
  /\ map conn_index (rows_of (demo_ran demo_ts) 7 1700000003) = [0; 1].
Proof.
  destruct (relay_slots_ok (cdb := mapdb) demo_parse demo_lengths demo_finalize demo_setup demo_send demo_boot demo_data demo_tm demo_tm
    None None demo_order demo_verifies demo_verified demo_keeps demo_decodes demo_setup_bytes demo_port demo_birth 7 demo_ts Go
    (demo_ran demo_ts) ltac:(done) demo_db_ok demo_passes_ok demo_ran_go ltac:(done)) as (W1 & _ & _ & _ & _ & W2).
  split; [rewrite W1; vm_compute; reflexivity|]. destruct (W2 7 1700000003) as [-> _]. vm_compute. reflexivity.
Defined.

Definition demo_next : verdict * Relay.Relay :=
  Relay.relay_pass demo_parse demo_lengths demo_finalize demo_setup demo_send demo_boot demo_data demo_tm demo_tm None None demo_order
    7 (demo_ran (take 2 demo_ts)) (demo_pass 3 (Some [0; 33]) None).

Lemma relay_evicts_witness :
  let c := at_ (table (demo_ran (take 2 demo_ts))) 0 in
  used c = true /\ in_time c (demo_now + 3 * usec) 1700000003.
Proof.
  destruct (relay_evicts (cdb := mapdb) demo_parse demo_lengths demo_finalize demo_setup demo_send demo_boot demo_data demo_tm demo_tm
    None None demo_order demo_verifies demo_verified demo_keeps demo_decodes demo_setup_bytes demo_port demo_birth 7 (take 2 demo_ts)
    (demo_ran (take 2 demo_ts)) (demo_pass 3 (Some [0; 33]) None) demo_next.1 demo_next.2 0) as [W|(W1 & _ & W2)].
  - done.
  - exact demo_db_ok.
  - repeat constructor; exact demo_db_ok.
  - exact demo_ran_two.
  - exact demo_db_ok.
  - apply surjective_pairing.
  - left. vm_compute. reflexivity.
  - reflexivity.
  - vm_compute. reflexivity.
  - exfalso. vm_compute in W. discriminate W.
  - split; [exact W1|exact W2].
Defined.

Lemma demo_table_ok : table_ok (table (demo_ran (take 2 demo_ts))) /\ sockets_ok (table (demo_ran (take 2 demo_ts))).
Proof.
  destruct (relay_run_inv (cdb := mapdb) demo_parse demo_lengths demo_finalize demo_setup demo_send demo_boot demo_data demo_tm demo_tm
    None None demo_order demo_verifies demo_verified demo_keeps demo_decodes demo_setup_bytes False demo_port demo_birth 7 (take 2 demo_ts) Go
    (demo_ran (take 2 demo_ts)) ltac:(done) demo_db_ok) as (I & _); [repeat constructor; exact demo_db_ok|done|exact demo_ran_two|done|].
  split; [apply I|]. intros i Hu. pose proof (core_slots _ _ _ _ _ _ I i) as Hs. unfold slot_ok in Hs. rewrite Hu in Hs. apply Hs.
Qed.

Lemma message_routed_witness :
  let s := demo_ran (take 2 demo_ts) in
  let s' := Relay.user_msg demo_lengths demo_finalize demo_send demo_boot demo_data demo_tm demo_tm None None
    true s (demo_pass 3 None None) (demo_msg 33) in
  exists e, calls (shared s') = calls (shared s) ++ [e] /\ delivered true (demo_msg 33) (table s) (table s') 0 e.
Proof.
  cbv zeta. destruct (message_routed (cdb := mapdb) demo_lengths demo_finalize demo_send demo_boot demo_data demo_tm demo_tm None None
    true (demo_ran (take 2 demo_ts)) (demo_pass 3 None None) (demo_msg 33)) as ((es & W1 & W2) & _).
  - apply demo_table_ok.
  - apply demo_table_ok.
  - assert (Et : (if binlog_enabled (lp (demo_ran (take 2 demo_ts))) && is_remote_log (demo_msg 33) then []
      else targets (table (demo_ran (take 2 demo_ts)))) = [0%nat]) by (vm_compute; reflexivity).
    rewrite Et in W2. apply Forall2_cons_inv_l in W2 as (e & k & W2 & W3 & ->). apply Forall2_nil_inv_l in W3 as ->.
    exists e. split; [exact W1|exact W2].
Defined.

Lemma demo_frames msg : frame_ok sample_frame_len (demo_frame msg).
Proof. by split. Qed.

Lemma session_log_complete_witness :
  logged_frames sample_frame_len 9 (tlog (logs (demo_ran demo_ts)))
  = [[2; 0]; [2; 30]; [2; 0]; [2; 33]].
Proof.
  pose proof (session_log_complete (cdb := mapdb) demo_parse demo_lengths demo_finalize demo_setup demo_send demo_boot demo_data
    demo_tm demo_tm None None demo_order sample_frame_len demo_frame (fun _ => eq_refl) demo_frames demo_port demo_birth 7 demo_ts Go
    (demo_ran demo_ts) 9) as W.
  assert (Et : tlog_enabled demo_port = true) by (vm_compute; reflexivity). rewrite Et in W. rewrite W.
  - vm_compute. reflexivity.
  - repeat constructor; decide_vm.
  - exact demo_ran_go.
  - vm_compute. lia.
Defined.

(** ** The loops over a read end by themselves *)

Section fuel.
Context {db cdb P : Type} {db_tdb : Tdb db}.
Variable parse_char : P -> option signing -> Z -> P * option signing * bool * option message.
Variable msg_lengths : Z -> Z * Z.
Variable finalize : option signing -> message -> option bytes.
Variable decode_setup_signing : message -> Z * bytes.
Variable to_send_buffer : message -> option bytes.
Variable decode_system_time : message -> Z.
Variable decode_data_block : message -> Z * bytes.
Variable gmtime_r localtime_r : Z -> option tm.
Variable quota_env grace_env : option bytes.
Implicit Types s : Relay.Relay (db := db) (P := P).
Implicit Types t : Relay.Pass (db := db) (cdb := cdb).
Implicit Types h : Relay.Shared (db := db) (P := P).

Abbreviation recv_on := (recv_on parse_char decode_setup_signing).
Abbreviation user_loop := (user_loop parse_char msg_lengths finalize decode_setup_signing to_send_buffer decode_system_time
  decode_data_block gmtime_r localtime_r quota_env grace_env).
Abbreviation validate := (validate parse_char decode_setup_signing).
Abbreviation engineer_loop := (engineer_loop parse_char msg_lengths finalize decode_setup_signing to_send_buffer).

Lemma on_message_rest m w (d : db) txn_ok open_ok now msg rest r :
  on_message (P := P) decode_setup_signing m w d txn_ok open_ok now msg rest = Some r -> rc_rest r = rest.
Proof.
  unfold on_message. destruct (_ =? _); [by intros [= <-]|]. destruct (negb _); [destruct (warn _ _ _); by intros [= <-]|].
  destruct (_ =? 0); [destruct (warn _ _ _); by intros [= <-]|].
  destruct (got_bad_signature w (chan m)); [destruct (on_bad_signature _ _ _); by intros [= <-]|]. destruct (_ =? _); [|by intros [= <-]].
  destruct (handle_setup_signing _ _ _ _ _ _ _ _) as [[[??]?]|]; [|done]. by intros [= <-].
Qed.

Lemma receive_shorter m w (d : db) txn_ok open_ok now buf r :
  receive_loop parse_char decode_setup_signing m w d txn_ok open_ok now buf = Some r -> (length (rc_rest r) <= pred (length buf))%nat.
Proof.
  revert w. induction buf as [|b buf IH]; intros w; cbn [receive_loop]; [by intros [= <-]|].
  destruct (feed_char parse_char w (chan m) b) as [w1 [msg|]]; [by intros ->%on_message_rest|]. intros E%IH. cbn [length pred]. lia.
Qed.

Lemma recv_shorter l m h t b buf o rest m' h' n :
  recv_on l m h t (b :: buf) = Some (o, rest, m', h') -> (length (b :: buf) <= S n)%nat -> (length rest <= n)%nat.
Proof.
  unfold Relay.recv_on, receive_message. destruct (receive_loop _ _ _ _ _ _ _ _ _) as [r|] eqn:Er; [|done]. intros [= _ <- _ _].
  apply receive_shorter in Er. cbn [length pred] in *. lia.
Qed.

(** More turns than bytes change nothing: the count given, the read's length, is enough. *)
Lemma user_loop_fuel n1 n2 udp s t buf :
  (length buf <= n1)%nat -> (length buf <= n2)%nat -> user_loop n1 udp s t buf = user_loop n2 udp s t buf.
Proof.
  revert n2 s buf. induction n1 as [|n1 IH]; intros n2 s [|b buf] H1 H2; [by destruct n2|cbn in H1; lia|by destruct n2|].
  destruct n2 as [|n2]; [cbn in H2; lia|]. cbn [Relay.user_loop].
  destruct (recv_on User _ _ t (b :: buf)) as [[[[[msg|] rest] m] h]|] eqn:Er; [|done..].
  apply IH; by eapply recv_shorter.
Qed.

Lemma engineer_loop_fuel n1 n2 s t i buf :
  (length buf <= n1)%nat -> (length buf <= n2)%nat -> engineer_loop n1 s t i buf = engineer_loop n2 s t i buf.
Proof.
  revert n2 s buf. induction n1 as [|n1 IH]; intros n2 s [|b buf] H1 H2; [by destruct n2|cbn in H1; lia|by destruct n2|].
  destruct n2 as [|n2]; [cbn in H2; lia|]. cbn [Relay.engineer_loop]. cbv zeta.
  destruct (recv_on (Engineer i) _ _ t (b :: buf)) as [[[[[msg|] rest] m] h]|] eqn:Er; [|done..].
  destruct (send_on _ _ _ _ _ _ _) as [[[] m1] h1]; [|done]. apply IH; by eapply recv_shorter.
Qed.

Lemma validate_fuel n1 n2 s t buf v :
  (length buf <= n1)%nat -> (length buf <= n2)%nat -> validate n1 s t buf v = validate n2 s t buf v.
Proof.
  revert n2 s buf v. induction n1 as [|n1 IH]; intros n2 s [|b buf] v H1 H2; [by destruct n2|cbn in H1; lia|by destruct n2|].
  destruct n2 as [|n2]; [cbn in H2; lia|]. cbn [Relay.validate].
  destruct (recv_on User _ _ t (b :: buf)) as [[[[[msg|] rest] m] h]|] eqn:Er; [|done..].
  apply IH; by eapply recv_shorter.
Qed.
End fuel.

(** ** Where the code falls short *)

Section gaps.
Context {db cdb P : Type} {db_tdb : Tdb db} {cdb_tdb : Tdb cdb}.
Variable parse_char : P -> option signing -> Z -> P * option signing * bool * option message.
Variable msg_lengths : Z -> Z * Z.
Variable finalize : option signing -> message -> option bytes.
Variable decode_setup_signing : message -> Z * bytes.
Variable to_send_buffer : message -> option bytes.
Variable decode_system_time : message -> Z.
Variable decode_data_block : message -> Z * bytes.
Variable gmtime_r localtime_r : Z -> option tm.
Variable quota_env grace_env : option bytes.
Implicit Types s : Relay.Relay (db := db) (P := P).
Implicit Types t : Relay.Pass (db := db) (cdb := cdb).

(** A datagram that proves nothing -- an empty one will do -- leaves the UDP port open for the next, but
    the TCP listener of the entry is already closed, for as long as the child lives. *)
Lemma unsigned_datagram_closes_listener s t a :
  bidi (lp s) = true -> have_conn1 (user s) = false -> has_fd (sock1_udp (lp s)) = true -> p_isset t FdUser = true -> p_udp1 t = Some (a, []) ->
  let r := user_udp parse_char msg_lengths finalize decode_setup_signing to_send_buffer decode_system_time
    decode_data_block gmtime_r localtime_r quota_env grace_env s t in
  r.1 = Continue /\ have_conn1 (user r.2) = false /\ has_fd (sock1_udp (lp r.2)) = true /\ sock1_tcp (lp r.2) = None.
Proof.
  intros Hb Hc Hu Hs Hd. cbv zeta. unfold user_udp. rewrite Hu, Hs, Hd. cbn [andb]. cbv zeta.
  change (have_conn1 (user (hear1 (close_tcp1 s) (p_now t)))) with (have_conn1 (user s)). rewrite Hc. unfold latch_udp.
  change (bidi (lp (hear1 (close_tcp1 s) (p_now t)))) with (bidi (lp s)). rewrite Hb. by split_and!.
Qed.

(** What an engineer sends before there is a user is read and thrown away unlooked at, so whoever
    signs it stays unauthenticated and meets the deadline. *)
Lemma early_engineer_unheard s t i buf :
  have_conn1 (user s) = false ->
  engineer_bytes parse_char msg_lengths finalize decode_setup_signing to_send_buffer s t i buf = (Go, s).
Proof. intros Hc. unfold engineer_bytes. by rewrite Hc. Qed.

(** A user whose link has failed ends the session when a UDP engineer spoke, but a TCP
    engineer's message to it only ends the scan. *)
Lemma tcp_scan_never_breaks is_ s t :
  (engineers_tcp parse_char msg_lengths finalize decode_setup_signing to_send_buffer is_ s t).1 <> Break.
Proof.
  revert s. induction is_ as [|i is_ IH]; intros s; cbn [engineers_tcp]; [done|]. destruct (negb _); [done|].
  by destruct (engineer_tcp _ _ _ _ _ s t i) as [[] s1].
Qed.
End gaps.
