(* ===== verification/Util.v ===== *)
(** * Sockets and clocks (util.cpp)

    Opening a listener as the sequence of system calls it makes, whose answers are arguments; the
    probes send_message makes of a TCP peer; addresses and times as text.  A descriptor is an
    integer, -1 for none. *)

From S2P Require Import Prelude.
From S2P Require Import CStr.
From S2P Require Import Tdb.
From S2P Require Import Session.
From S2P Require Import MavLink.

(** [time_seconds], in microseconds. *)
Definition time_seconds (tv : Z * Z) : Z := tv.1 * usec + tv.2.

(** [time_string]: "%F %T", in a hundred bytes less one. *)
Definition time_string (t : tm) : bytes :=
  snprintf 99 (date_text t ++ bs " " ++ print_pad 2 (tm_hour t) ++ bs ":" ++ print_pad 2 (tm_min t) ++ bs ":" ++ print_pad 2 (tm_sec t)).

(** [addr_to_str], by [inet_ntop]: the address is in network byte order. *)
Definition addr_to_str (a : bytes) : bytes :=
  print_dec (byte_at a 0) ++ bs "." ++ print_dec (byte_at a 1) ++ bs "." ++ print_dec (byte_at a 2) ++ bs "." ++ print_dec (byte_at a 3).

(** ** Listeners *)

Inductive sys :=
| Socket (stream : bool) (fd : Z)
| SetReuse (fd : Z)
| SetNoDelay (fd : Z)
| Bind (fd : Z) (port_be : bytes)
| Listen (fd backlog : Z)
| CloseFd (fd : Z).

(** What [socket], [bind] and [listen] answer. *)
Record OpenEnv := { oe_socket : Z; oe_bind : Z; oe_listen : Z }.

(** The two bytes [sin_port] holds. *)
Definition htons (port : Z) : bytes := be_bytes 2 (u16 port).

Definition set_tcp_options (fd : Z) : list sys := [SetReuse fd; SetNoDelay fd].

Definition open_socket_in_udp (port : Z) (e : OpenEnv) : Z * list sys :=
  let res := oe_socket e in
  if res =? -1 then (-1, [Socket false res])
  else if oe_bind e <? 0 then (-1, [Socket false res; SetReuse res; Bind res (htons port); CloseFd res])
  else (res, [Socket false res; SetReuse res; Bind res (htons port)]).

Definition open_socket_in_tcp (port : Z) (e : OpenEnv) : Z * list sys :=
  let res := oe_socket e in
  if res =? -1 then (-1, [Socket true res])
  else
    let done := Socket true res :: set_tcp_options res ++ [Bind res (htons port)] in
    if oe_bind e <? 0 then (-1, done ++ [CloseFd res])
    else
      let done := done ++ [Listen res 100] in
      if negb (oe_listen e =? 0) then (-1, done ++ [CloseFd res]) else (res, done ++ set_tcp_options res).

(** [fcntl]'s flags with O_NONBLOCK. *)
Definition O_NONBLOCK : Z := 2048.
Definition set_nonblocking (fl : Z) : Z := Z.lor (u32 fl) O_NONBLOCK.

(** ** Probing a TCP peer *)

(** [ioctl(SIOCOUTQ)] and [getsockopt(SO_SNDBUF)]; [None]: the call failed. *)
Definition tcp_writable_bytes (outq sndbuf : option Z) : Z :=
  match outq, sndbuf with
  | Some q, Some n => let avail := n - q in if avail <? 0 then 0 else avail
  | _, _ => -1
  end.

Definition SOCK_STREAM : Z := 1.
Definition POLLERR : Z := 8.
Definition POLLHUP : Z := 16.
Definition POLLNVAL : Z := 32.
Definition TCP_ESTABLISHED : Z := 1.
Definition TCP_CLOSE_WAIT : Z := 8.

Record Probe := {
  pr_type : option Z;            (* SO_TYPE *)
  pr_poll : Z * Z;               (* poll()'s result and revents *)
  pr_error : option Z;           (* SO_ERROR *)
  pr_state : option Z            (* TCP_INFO *)
}.

Definition socket_is_dead (p : Probe) : bool :=
  match pr_type p with
  | None => true
  | Some ty =>
    if negb (ty =? SOCK_STREAM) then true
    else if (pr_poll p).1 <? 0 then true
    else if ((pr_poll p).1 =? 1) && negb (Z.land (pr_poll p).2 (Z.lor (Z.lor POLLERR POLLHUP) POLLNVAL) =? 0) then true
    else if match pr_error p with Some e => negb (e =? 0) | None => false end then true
    else match pr_state p with
         | Some st => negb (st =? TCP_ESTABLISHED) && negb (st =? TCP_CLOSE_WAIT)
         | None => false
         end
  end.

(** What [send_message] makes of the probes. *)
Definition tcp_state_of (p : Probe) (outq sndbuf : option Z) : tcp_state :=
  if socket_is_dead p then TcpDead
  else if tcp_writable_bytes outq sndbuf <? 400 then TcpCongested else TcpWritable.

(** ** A listener is opened or nothing is left *)

(** The descriptors a sequence of calls leaves open. *)
Definition fd_step (l : list Z) (c : sys) : list Z :=
  match c with
  | Socket _ fd => if fd =? -1 then l else fd :: l
  | CloseFd fd => filter (fun x => x <> fd) l
  | _ => l
  end.
Definition left_open (cs : list sys) : list Z := fold_left fd_step cs [].

(** Whatever the calls answer: the descriptor returned is open and bound to the port, and nothing
    else is open; when -1 is returned nothing is. *)
Theorem udp_listener_opened port e :
  let r := open_socket_in_udp port e in
  left_open r.2 = (if r.1 =? -1 then [] else [r.1])
  /\ (r.1 <> -1 -> r.1 = oe_socket e /\ 0 <= oe_bind e /\ Bind r.1 (htons port) ∈ r.2).
Proof.
  cbv zeta. unfold open_socket_in_udp, left_open. destruct (oe_socket e =? -1) eqn:Es; cbn [fst snd fold_left fd_step]; rewrite ?Es; [done|].
  destruct (Z.ltb_spec (oe_bind e) 0); cbn [fst snd fold_left fd_step]; rewrite ?Es.
  - rewrite filter_cons, decide_False by naive_solver. done.
  - split; [done|]. intros _. split_and!; [done|lia|]. set_solver.
Qed.

Theorem tcp_listener_opened port e :
  let r := open_socket_in_tcp port e in
  left_open r.2 = (if r.1 =? -1 then [] else [r.1])
  /\ (r.1 <> -1 -> r.1 = oe_socket e /\ 0 <= oe_bind e /\ oe_listen e = 0
      /\ Bind r.1 (htons port) ∈ r.2 /\ Listen r.1 100 ∈ r.2).
Proof.
  cbv zeta. unfold open_socket_in_tcp, left_open. destruct (oe_socket e =? -1) eqn:Es; cbn [fst snd fold_left fd_step]; rewrite ?Es; [done|].
  destruct (Z.ltb_spec (oe_bind e) 0); [|destruct (Z.eqb_spec (oe_listen e) 0); cbn [negb]];
    cbn [fst snd fold_left fd_step app set_tcp_options]; rewrite ?Es.
  - rewrite filter_cons, decide_False by naive_solver. done.
  - split; [done|]. intros _. split_and!; [done|lia|done|set_solver|set_solver].
  - rewrite filter_cons, decide_False by naive_solver. done.
Qed.

(** The port that is bound is the entry's in 16 bits. *)
Lemma htons_port port : 0 <= port < 2 ^ 16 -> be_val (htons port) = port.
Proof. intros Hp. unfold htons. rewrite be_val_be_bytes_small; [by apply wrap_small|]. by apply wrap_range. Qed.

(** ** What a probe decides *)

(** A peer is written to only when every probe that answered says it is well and at least 400
    bytes fit; when the queue's length cannot be told the message is dropped and the link kept. *)
Theorem tcp_state_spec p outq sndbuf :
  match tcp_state_of p outq sndbuf with
  | TcpDead => socket_is_dead p = true
  | TcpCongested => socket_is_dead p = false /\ (outq = None \/ sndbuf = None \/ exists q n, outq = Some q /\ sndbuf = Some n /\ n - q < 400)
  | TcpWritable => pr_type p = Some SOCK_STREAM /\ 0 <= (pr_poll p).1 /\ (forall e, pr_error p = Some e -> e = 0)
      /\ (forall st, pr_state p = Some st -> st = TCP_ESTABLISHED \/ st = TCP_CLOSE_WAIT)
      /\ exists q n, outq = Some q /\ sndbuf = Some n /\ 400 <= n - q
  end.
Proof.
  unfold tcp_state_of. destruct (socket_is_dead p) eqn:Ed; [done|]. unfold tcp_writable_bytes.
  destruct outq as [q|]; [|split; [done|by left]]. destruct sndbuf as [n|]; [|split; [done|right; by left]].
  set (avail := if n - q <? 0 then 0 else n - q).
  assert (Ha : avail = Z.max 0 (n - q)) by (unfold avail; destruct (Z.ltb_spec (n - q) 0); lia).
  destruct (Z.ltb_spec avail 400); [split; [done|]; right; right; exists q, n; split_and!; [done|done|lia]|].
  unfold socket_is_dead in Ed. destruct (pr_type p) as [ty|]; [|done]. destruct (Z.eqb_spec ty SOCK_STREAM) as [Ety|]; [|done].
  rewrite Ety. cbn [negb] in Ed. destruct (Z.ltb_spec (pr_poll p).1 0); [done|]. destruct (_ && _) in Ed; [done|].
  split_and!; [done|done| | |exists q, n; split_and!; [done|done|lia]].
  - intros e Ee. rewrite Ee in Ed. destruct (Z.eqb_spec e 0); [done|]. done.
  - intros st Es. rewrite Es in Ed. destruct (match pr_error p with Some e => _ | None => _ end); [done|].
    apply andb_false_iff in Ed as [Ed%negb_false_iff%Z.eqb_eq|Ed%negb_false_iff%Z.eqb_eq]; [by left|by right].
Qed.

(** ** An address reads back *)

Fixpoint read_fields (n : nat) (s : bytes) : list Z :=
  match n with
  | O => []
  | S n => let '(v, k) := scan_digits 10 0 s in v :: read_fields n (drop (S k) s)
  end.

Lemma print_dec_byte b : is_byte b -> print_dec b = print_nat b.
Proof. intros [Hb _]. unfold print_dec. by rewrite (proj2 (Z.ltb_ge b 0)). Qed.

Lemma read_field n b s : is_byte b -> read_fields (S n) (print_dec b ++ 46 :: s) = b :: read_fields n s.
Proof.
  intros Hb. rewrite print_dec_byte by done. cbn [read_fields]. rewrite scan_print_nat by apply Hb. change (scan_digits 10 b (46 :: s)) with (b, 0%nat).
  cbv beta iota. rewrite Nat.add_0_r, drop_app_ge by lia. by replace (S (length (print_nat b)) - length (print_nat b))%nat with 1%nat by lia.
Qed.

Lemma read_last b : is_byte b -> read_fields 1 (print_dec b) = [b].
Proof. intros Hb. rewrite print_dec_byte, <-(app_nil_r (print_nat b)) by done. cbn [read_fields]. rewrite scan_print_nat by apply Hb. done. Qed.

Lemma byte_digits b : is_byte b -> (length (print_dec b) <= 3)%nat.
Proof.
  intros Hb. assert (Hall : Forall (fun n => (length (print_dec (Z.of_nat n)) <= 3)%nat) (seq 0 256)) by decide_vm.
  rewrite list.Forall_forall in Hall. specialize (Hall (Z.to_nat b)). rewrite Z2Nat.id in Hall by apply Hb.
  apply Hall, elem_of_seq. unfold is_byte in Hb. lia.
Qed.

(** An address's text is its four bytes, and fits [inet_ntop]'s buffer. *)
Theorem addr_to_str_reads a :
  length a = 4%nat -> bytes_ok a -> read_fields 4 (addr_to_str a) = a /\ (length (addr_to_str a) < 16)%nat.
Proof.
  intros Hl Ha. destruct a as [|b0 [|b1 [|b2 [|b3 [|]]]]]; try done. repeat (apply bytes_ok_cons in Ha as [? Ha]).
  unfold addr_to_str. change (byte_at [b0; b1; b2; b3] 0) with b0. change (byte_at [b0; b1; b2; b3] 1) with b1.
  change (byte_at [b0; b1; b2; b3] 2) with b2. change (byte_at [b0; b1; b2; b3] 3) with b3. change (bs ".") with [46]. cbn [app]. split.
  - by rewrite !read_field, read_last.
  - rewrite !length_app. cbn [length]. rewrite !length_app. cbn [length]. rewrite !length_app. cbn [length].
    pose proof (byte_digits b0 ltac:(done)). pose proof (byte_digits b1 ltac:(done)). pose proof (byte_digits b2 ltac:(done)).
    pose proof (byte_digits b3 ltac:(done)). lia.
Qed.

Example time_text :
  time_string (Build_tm 124 0 9 7 5 3) = bs "2024-01-09 07:05:03" /\ addr_to_str [127; 0; 0; 1] = bs "127.0.0.1"
  /\ htons 14550 = [56; 214] /\ time_seconds (5, 7) = 5000007.
Proof. by vm_compute. Qed.
