(* ===== verification/VideoTsTest.v ===== *)
(** * The transport stream scanner's own tests (videots.cpp: TSBuilder, videots_selftest, videots_fuzz)

    The self-test's streams and checks, and the fuzzer: its generator, the stream it builds, what
    it does to it, how it feeds it and what it checks.  The self-test passes; the fuzzer passes
    whatever its seed and number of turns, so nothing it samples can break the scanner. *)

From S2P Require Import Prelude CStr VideoTs VideoStream.

Definition TS_STREAM_PRIVATE : Z := 0x06.

(** ** A PMT in several packets *)

(** [e]: the next elementary stream; [k]: the bytes there are. *)
Fixpoint split_es (fuel : nat) (e n_es k : Z) : bytes :=
  match fuel with
  | O => []
  | S fuel =>
    if (e <? n_es) && (k + 5 + 4 <? Z.of_nat TS_MAX_SECTION) then
      let pid := u16 (0x200 + e) in
      [TS_STREAM_PRIVATE; u8 (Z.lor 0xE0 (Z.land (Z.shiftr pid 8) 0x1F)); u8 (Z.land pid 0xFF); 0xF0; 0x00]
      ++ split_es fuel (e + 1) n_es (k + 5)
    else []
  end.

Definition split_section (vpid stype version n_es : Z) : bytes :=
  let vid := [u8 (Z.lor 0xE0 (Z.land (Z.shiftr vpid 8) 0x1F)); u8 (Z.land vpid 0xFF)] in
  let rest := [0x00; 0x01; u8 (Z.lor 0xC1 (Z.shiftl version 1)); 0x00; 0x00] ++ vid ++ [0xF0; 0x00; stype] ++ vid ++ [0xF0; 0x00]
              ++ split_es TS_MAX_SECTION 1 n_es 17 in
  let section_length := (len rest + 3) + 4 - 3 in
  finish_section ([0x02; u8 (Z.lor 0xB0 (Z.land (Z.shiftr section_length 8) 0x0F)); u8 (Z.land section_length 0xFF)] ++ rest).

(** The packets, [max_packets] at most. *)
Fixpoint split_packets (max_packets : nat) (cc : gmap Z Z) (pid : Z) (first : bool) (sec : bytes) : gmap Z Z * list bytes :=
  match max_packets, sec with
  | O, _ | _, [] => (cc, [])
  | S n, _ =>
    let room := TS_PACKET_SIZE - 4 - (if first then 1 else 0) in
    let '(cc, p) := tsb_pkt cc pid first ((if first then [0x00] else []) ++ ztake room sec) false in
    let '(cc, ps) := split_packets n cc pid false (zdrop room sec) in
    (cc, p :: ps)
  end.

Definition tsb_pmt_split (cc : gmap Z Z) (pmt_pid vpid stype version n_es : Z) (max_packets : nat) : gmap Z Z * list bytes :=
  split_packets max_packets cc pmt_pid true (split_section vpid stype version n_es).

(** ** The self-test *)

Definition fed (s : bytes) : TSScanner := ts_feed ts_init s 0.

Definition check_crc : bool := ts_crc32 (finish_section ([0x00; 0xB0; 0x0D] ++ replicate 9 0)) =? 0.

Definition check_main : bool :=
  let sc := fed selftest_stream in
  have_program sc && (video_pid_ sc =? 0x101) && (video_stream_type_ sc =? TS_STREAM_H264) && (pat_seen (stats_ sc) =? 1)
  && (pmt_seen (stats_ sc) =? 1) && (rai_seen (stats_ sc) =? 1) && (cc_errors (stats_ sc) =? 0) && (crc_errors (stats_ sc) =? 0)
  && bool_decide (join_offset sc = Some 0).

Definition no_psi_stream : bytes :=
  let '(cc, a) := tsb_video ∅ 0x101 true TS_STREAM_H264 true in
  let '(_, b) := tsb_video cc 0x101 true TS_STREAM_H264 true in a ++ b.
Definition check_no_psi : bool := bool_decide (join_offset (fed no_psi_stream) = None).

Definition check_bytewise : bool :=
  let sc := ts_feed_all ts_init (map (fun b => [b]) selftest_stream) 0 in
  have_program sc && (rai_seen (stats_ sc) =? 1) && bool_decide (join_offset sc = Some 0).

(** One byte of the PMT flipped. *)
Definition corrupt_stream : bytes :=
  let '(cc, a) := tsb_pat ∅ 0x100 0 in
  let '(_, b) := tsb_pmt cc 0x100 0x101 TS_STREAM_H264 0 in
  let s := a ++ b in
  alter (fun x => u8 (Z.lxor x 0xFF)) (Z.to_nat (TS_PACKET_SIZE + 20)) s.
Definition check_corrupt : bool :=
  let sc := fed corrupt_stream in negb (have_program sc) && (crc_errors (stats_ sc) =? 1).

Definition check_resync : bool :=
  let sc := fed (replicate 64 0x47 ++ selftest_stream) in have_program sc && bool_decide (join_offset sc = Some 64).

Definition moved_stream : bytes :=
  let '(cc, a) := tsb_pat ∅ 0x100 0 in
  let '(cc, b) := tsb_pmt cc 0x100 0x101 TS_STREAM_H264 0 in
  let '(cc, c) := tsb_pmt cc 0x100 0x102 TS_STREAM_HEVC 1 in
  let '(_, d) := tsb_video cc 0x102 true TS_STREAM_HEVC true in a ++ b ++ c ++ d.
Definition check_moved : bool :=
  let sc := fed moved_stream in
  (video_pid_ sc =? 0x102) && (video_stream_type_ sc =? TS_STREAM_HEVC) && (rai_seen (stats_ sc) =? 1).

Definition false_rai_stream : bytes :=
  let '(cc, a) := tsb_pat ∅ 0x100 0 in
  let '(cc, b) := tsb_pmt cc 0x100 0x101 TS_STREAM_H264 0 in
  let '(_, c) := tsb_video cc 0x101 false TS_STREAM_H264 true in a ++ b ++ c.
Definition check_false_rai : bool :=
  let sc := fed false_rai_stream in have_program sc && bool_decide (join_offset sc = None).

Definition videots_selftest : Z :=
  if forallb id [check_crc; check_main; check_no_psi; check_bytewise; check_corrupt; check_resync; check_moved; check_false_rai]
  then 0 else 1.

Theorem selftest_passes : videots_selftest = 0.
Proof. vm_compute. reflexivity. Qed.

(** ** The fuzzer *)

Definition Rng := Z.
Definition rng_new (seed : Z) : Rng := if seed =? 0 then 1 else seed.

(** [next]: the generator and the number are the same word. *)
Definition next (r : Rng) : Rng :=
  let r := Z.lxor r (u32 (Z.shiftl r 13)) in
  let r := Z.lxor r (Z.shiftr r 17) in
  Z.lxor r (u32 (Z.shiftl r 5)).
Definition below (r : Rng) (n : Z) : Z * Rng := if n =? 0 then (0, r) else (next r mod n, next r).

Section fuzz.
(** C++ leaves open which of two arguments of a call is evaluated first: the version or the number
    of streams of [pmt_split]. *)
Variable version_first : bool.

Definition two_below (r : Rng) : Z * Z * Rng :=
  if version_first then let '(v, r) := below r 32 in let '(n, r) := below r 240 in (v, n, r)
  else let '(n, r) := below r 240 in let '(v, r) := below r 32 in (v, n, r).

(** The [i]-th of [npkt] packets, and those it takes with it: a PAT, a PMT whole or split, or video. *)
Definition fuzz_packet (r : Rng) (cc : gmap Z Z) (i npkt : Z) : Rng * gmap Z Z * list bytes :=
  if i mod 4 =? 0 then let '(v, r) := below r 32 in let '(cc, p) := tsb_pat cc 0x100 (u8 v) in (r, cc, [p])
  else if i mod 4 =? 1 then
    let '(which, r) := below r 2 in
    if which =? 0 then
      let '(v, n, r) := two_below r in
      let '(cc, ps) := tsb_pmt_split cc 0x100 0x101 TS_STREAM_H264 (u8 v) (4 + n) (Z.to_nat (npkt - i)) in (r, cc, ps)
    else let '(v, r) := below r 32 in let '(cc, p) := tsb_pmt cc 0x100 0x101 TS_STREAM_H264 (u8 v) in (r, cc, [p])
  else
    let key := i mod 8 =? 3 in
    let '(cc, p) := tsb_video cc 0x101 key TS_STREAM_H264 key in (r, cc, [p]).

Fixpoint fuzz_packets (fuel : nat) (r : Rng) (cc : gmap Z Z) (i npkt : Z) : Rng * list bytes :=
  match fuel with
  | O => (r, [])
  | S fuel =>
    if negb (i <? npkt) then (r, [])
    else
      let '(r, cc, ps) := fuzz_packet r cc i npkt in
      let '(r, rest) := fuzz_packets fuel r cc (i + Z.max 1 (len ps)) npkt in (r, ps ++ rest)
  end.

(** [m] corruptions. *)
Fixpoint mutate (m : nat) (r : Rng) (s : bytes) : Rng * bytes :=
  match m with
  | O => (r, s)
  | S m =>
    let '(off, r) := below r (len s) in
    let '(what, r) := below r 4 in
    let '(r, s) :=
      if what =? 0 then let '(b, r) := below r 8 in (r, alter (fun x => Z.lxor x (u8 (Z.shiftl 1 b))) (Z.to_nat off) s)
      else if what =? 1 then (next r, <[Z.to_nat off := u8 (next r)]> s)
      else if what =? 2 then (r, <[Z.to_nat off := TS_SYNC_BYTE]> s)
      else (r, <[Z.to_nat off := 0xFF]> s) in
    mutate m r s
  end.

Definition truncated (r : Rng) (s : bytes) : Rng * bytes :=
  let '(b, r) := below r 4 in
  if b =? 0 then let '(n, r) := below r (len s) in (r, ztake (1 + n) s) else (r, s).

(** The reads it comes in: up to four hundred bytes each. *)
Fixpoint irregular (fuel : nat) (r : Rng) (s : bytes) : list bytes :=
  match fuel, s with
  | O, _ | _, [] => []
  | S fuel, _ =>
    let '(n, r) := below r 400 in
    ztake (1 + n) s :: irregular fuel r (zdrop (1 + n) s)
  end.

(** What must hold whatever the input was. *)
Definition fuzz_ok (sc : TSScanner) (size : Z) : bool :=
  match join_offset sc with Some off => have_program sc && negb (size <=? off) | None => true end
  && negb (have_program sc && (video_pid_ sc =? 0))
  && negb (bytes_fed (stats_ sc) + TS_PACKET_SIZE <? packets (stats_ sc) * TS_PACKET_SIZE).

Definition fuzz_stream (r : Rng) : Rng * bytes :=
  let '(n, r) := below r 24 in
  let npkt := 8 + n in
  let '(r, ps) := fuzz_packets (Z.to_nat npkt) r ∅ 0 npkt in
  let '(m, r) := below r 24 in
  let '(r, s) := mutate (Z.to_nat m) r (concat ps) in
  truncated r s.

Definition fuzz_one (seed it : Z) : bool :=
  let '(r, s) := fuzz_stream (rng_new (u32 (seed + it))) in
  fuzz_ok (ts_feed_all ts_init (irregular (length s) r s) 0) (len s).

(** The turns from [it] on, [n] of them. *)
Fixpoint fuzz_turns (n : nat) (seed it : Z) : Z :=
  match n with
  | O => 0
  | S n => if fuzz_one seed it then fuzz_turns n seed (it + 1) else 1
  end.
Definition videots_fuzz (iterations seed : Z) : Z := fuzz_turns (Z.to_nat iterations) seed 0.

(** *** It cannot fail *)

Lemma fuzz_ok_always chunks : fuzz_ok (ts_feed_all ts_init chunks 0) (len (concat chunks)) = true.
Proof.
  destruct (ts_feed_all_scanning chunks [] ts_init ts_init_scanning) as [[C1 C2 C3 C4] H2 H3 H4 H5]. cbn [app length] in *.
  change (Z.of_nat 0) with 0 in *. set (s := ts_feed_all ts_init chunks 0) in *. unfold fuzz_ok, join_offset, have_program.
  apply andb_true_iff. split; [apply andb_true_iff; split|].
  - destruct (have_anchor_ s) eqn:Ea; cbn [negb orb]; [|done]. destruct (have_pmt_ s); cbn [negb andb]; [|done].
    destruct (C3 eq_refl) as (_ & _ & A1 & A2 & _). unfold TS_PACKET_SIZE in A2. by rewrite (proj2 (Z.leb_gt _ _)) by lia.
  - destruct (have_pmt_ s) eqn:Ep; [|done]. cbn [andb]. by rewrite (proj2 (Z.eqb_neq _ _)) by by apply C4.
  - rewrite (proj2 (Z.ltb_ge _ _)); [done|]. unfold TS_PACKET_SIZE in *. lia.
Qed.

(** The reads are the whole stream: the loop that makes them always gets to its end. *)
Lemma irregular_concat fuel r s : (length s <= fuel)%nat -> concat (irregular fuel r s) = s.
Proof.
  revert r s. induction fuel as [|fuel IH]; intros r [|b s] Hf; cbn [irregular]; [done|cbn in Hf; lia|done|].
  destruct (below r 400) as [n r1] eqn:Eb. assert (Hn : 0 <= n).
  { unfold below in Eb. cbn in Eb. injection Eb as <- _. apply Z.mod_pos_bound. lia. }
  cbn [concat]. rewrite IH; [apply ztake_zdrop|]. rewrite length_zdrop. cbn [length] in *. lia.
Qed.

(** Whatever the seed, the number of turns and the order of evaluation, no turn of the fuzzer finds the
    scanner at fault. *)
Theorem fuzz_never_fails iterations seed : videots_fuzz iterations seed = 0.
Proof.
  unfold videots_fuzz. generalize 0 at 1. induction (Z.to_nat iterations) as [|n IH]; intros it; [done|]. cbn [fuzz_turns].
  assert (E : fuzz_one seed it = true).
  { unfold fuzz_one. destruct (fuzz_stream _) as [r s]. pose proof (fuzz_ok_always (irregular (length s) r s)) as F.
    by rewrite irregular_concat in F. }
  by rewrite E.
Qed.

(** *** What it builds fits the vector it sized *)

Lemma tsb_pkt_length cc pid pusi payload : (length payload <= 184)%nat -> length (tsb_pkt cc pid pusi payload false).2 = 188%nat.
Proof. intros Hl. unfold tsb_pkt. cbn [snd]. rewrite !length_app, length_replicate. unfold TS_PACKET_SIZE. cbn [length]. lia. Qed.

Lemma tsb_rai_length cc pid pusi payload : (length payload <= 182)%nat -> length (tsb_pkt cc pid pusi payload true).2 = 188%nat.
Proof. intros Hl. unfold tsb_pkt. cbn [snd]. rewrite !length_app, length_replicate. unfold TS_PACKET_SIZE. cbn [length]. lia. Qed.

Definition whole (ps : list bytes) : Prop := Forall (fun p : bytes => length p = 188%nat) ps.

Lemma split_packets_fit n cc pid first sec :
  let ps := (split_packets n cc pid first sec).2 in (length ps <= n)%nat /\ whole ps /\ (sec <> [] -> n <> O -> ps <> []).
Proof.
  cbv zeta. revert cc first sec. induction n as [|n IH]; intros cc first sec; cbn [split_packets]; [split_and!; [done|by constructor|by intros _ []]|].
  destruct sec as [|b sec]; [split_and!; [cbn; lia|by constructor|by intros []]|]. set (room := TS_PACKET_SIZE - 4 - _). set (pl := (if first then [0x00] else []) ++ _).
  assert (Hp : (length pl <= 184)%nat).
  { unfold pl, room. rewrite length_app, length_ztake. unfold TS_PACKET_SIZE. destruct first; cbn [length]; lia. }
  pose proof (tsb_pkt_length cc pid first pl Hp) as L. destruct (tsb_pkt cc pid first pl false) as [cc1 p].
  destruct (IH cc1 false (zdrop room (b :: sec))) as (I1 & I2 & _). destruct (split_packets n cc1 pid false _) as [cc2 ps]. cbn [snd] in *.
  split_and!; [cbn; lia|by constructor|by intros _ _].
Qed.

Lemma section_lengths v s w u : length (tsb_pat_section v s) = 16%nat /\ length (tsb_pmt_section u w s) = 21%nat.
Proof. done. Qed.

Lemma fuzz_packet_fits r cc i npkt : i < npkt -> let ps := (fuzz_packet r cc i npkt).2 in 1 <= len ps <= npkt - i /\ whole ps.
Proof.
  intros Hlt. cbv zeta.
  assert (Hone : forall (x : Rng) (y : gmap Z Z * bytes), length y.2 = 188%nat ->
    1 <= len (let '(cc, p) := y in (x, cc, [p])).2 <= npkt - i /\ whole (let '(cc, p) := y in (x, cc, [p])).2).
  { intros x [c0 p0] Hl. split; [cbn; lia|by apply list.Forall_singleton]. }
  unfold fuzz_packet. destruct (i mod 4 =? 0).
  { destruct (below r 32) as [v r1]. apply Hone. apply tsb_pkt_length. cbn [length]. rewrite (proj1 (section_lengths _ _ 0 0)). lia. }
  destruct (i mod 4 =? 1).
  - destruct (below r 2) as [which r1]. destruct (which =? 0).
    + destruct (two_below r1) as [[v n] r2]. unfold tsb_pmt_split.
      destruct (split_packets_fit (Z.to_nat (npkt - i)) cc 0x100 true (split_section 0x101 TS_STREAM_H264 (u8 v) (4 + n))) as (F1 & F2 & F3).
      destruct (split_packets _ _ _ _ _) as [cc1 ps]. cbn [snd] in *. split; [|done].
      assert (ps <> []) by (apply F3; [done|lia]). destruct ps; [done|]. cbn [length] in *. lia.
    + destruct (below r1 32) as [v r2]. apply Hone. apply tsb_pkt_length. cbn [length]. rewrite (proj2 (section_lengths 0 _ _ _)). lia.
  - apply Hone. unfold tsb_video. change (TS_STREAM_H264 =? TS_STREAM_HEVC) with false. cbv beta iota.
    destruct (i mod 8 =? 3); [apply tsb_rai_length|apply tsb_pkt_length]; cbn; lia.
Qed.

(** Every one of the vector's packets is written, whole, and nothing past its end. *)
Theorem fuzz_packets_fill fuel r cc i npkt :
  0 <= i <= npkt -> npkt - i <= Z.of_nat fuel ->
  let ps := (fuzz_packets fuel r cc i npkt).2 in len ps = npkt - i /\ whole ps.
Proof.
  cbv zeta. revert r cc i. induction fuel as [|fuel IH]; intros r cc i Hi Hf; cbn [fuzz_packets]; [split; [cbn; lia|by constructor]|].
  destruct (Z.ltb_spec i npkt) as [Hlt|]; cbn [negb]; [|split; [cbn; lia|by constructor]].
  pose proof (fuzz_packet_fits r cc i npkt Hlt) as [S1 S2]. destruct (fuzz_packet r cc i npkt) as [[r1 cc1] ps]. cbn [snd] in *.
  destruct (IH r1 cc1 (i + Z.max 1 (len ps)) ltac:(lia) ltac:(lia)) as [I1 I2].
  destruct (fuzz_packets fuel r1 cc1 _ npkt) as [r2 rest]. cbn [snd] in *. split; [rewrite length_app; lia|]. by apply list.Forall_app.
Qed.
End fuzz.

(** ** supportproxy --selftest-video [iterations] [seed] *)

Definition atoi_u32 (s : bytes) : Z := u32 (strtoll 10 s).1.1.

Definition selftest_video (version_first : bool) (args : list bytes) : Z :=
  let rc := videots_selftest in
  let rc := if rc =? 0 then videostream_selftest else rc in
  if rc =? 0 then
    let iters := match args with a :: _ => atoi_u32 a | [] => 2000 end in
    let seed := match args with _ :: a :: _ => atoi_u32 a | _ => 1 end in
    videots_fuzz version_first iters seed
  else rc.

(** The command exits with 0, however it is called. *)
Theorem selftest_video_passes version_first args : selftest_video version_first args = 0.
Proof. unfold selftest_video. rewrite selftest_passes. cbn [Z.eqb]. rewrite ring_selftest_passes. apply fuzz_never_fails. Qed.
