(* ===== verification/BackendChild.v ===== *)
(** * The backend's process before it becomes ffmpeg (videortsp.cpp: the child branch of RtspBackend::start)

    Between fork and exec: the process's descriptor table, its limits, and how it dies when a step
    fails.  What the calls answer is a [ChildEnv].  The theorem: the program that parses what a peer
    sends has nothing of the proxy's but its three standard descriptors. *)

From S2P Require Import Prelude Backend.

Definition RTSP_BACKEND_MEM_BYTES : Z := 512 * 1024 * 1024.
Definition RTSP_BACKEND_CPU_SECONDS : Z := 3600.

(** What a descriptor stands for. *)
Inductive file := Inherited (n : Z) | MediaRead | MediaWrite | FeedChild | FeedParent | DevNull.

Record Child := {
  table : gmap Z file;
  death_signal : bool;           (* SIGTERM when the parent dies *)
  no_new_privs : bool;           (* asked for, like the limits; the answers are not looked at *)
  mem_limit : option Z;
  cpu_limit : option Z
}.
#[export] Instance eta_Child : Eta Child := fun c =>
  Build_Child (table c) (death_signal c) (no_new_privs c) (mem_limit c) (cpu_limit c).
Implicit Types c : Child.

(** The pipes' ends as the parent made them. *)
Record Ends := { media0 : Z; media1 : Z; feed0 : Z; feed1 : Z }.

Record ChildEnv := {
  ce_orphan : bool;              (* getppid() == 1 *)
  ce_dup_out : bool;             (* the dup2 calls *)
  ce_dup_in : bool;
  ce_devnull : option Z;         (* open("/dev/null") *)
  ce_close_range : bool;
  ce_nofile : option Z;          (* RLIMIT_NOFILE; None: unknown or infinite *)
  ce_open_max : Z;               (* sysconf(_SC_OPEN_MAX) *)
  ce_exec : bool                 (* there is an ffmpeg *)
}.

(** It dies, or is ffmpeg with a command line. *)
Inductive outcome := Exit (code : Z) | Exec (c : Child) (argv : list bytes).

Definition close_at (fd : Z) c : Child := c <| table := delete fd (table c) |>.

(** [dup2], closing what [to] was. *)
Definition dup2 (ok : bool) (from to : Z) c : option Child :=
  match ok, table c !! from with
  | true, Some f => Some (c <| table := <[to := f]> (table c) |>)
  | _, _ => None
  end.

Definition confined c : Child :=
  c <| no_new_privs := true |> <| mem_limit := Some RTSP_BACKEND_MEM_BYTES |> <| cpu_limit := Some RTSP_BACKEND_CPU_SECONDS |>.

Definition piped (proto : splice_proto_t) : bool := match proto with SPLICE_RTSP => false | _ => true end.

Definition take_stdin (proto : splice_proto_t) (p : Ends) (e : ChildEnv) c : option Child :=
  if piped proto then
    let c := close_at (feed1 p) c in
    match dup2 (ce_dup_in e) (feed0 p) 0 c with
    | None => None
    | Some c => Some (close_at (feed0 p) c)
    end
  else
    match ce_devnull e with
    | None => Some c
    | Some fd =>
      let c := c <| table := <[fd := DevNull]> (table c) |> in
      match dup2 (ce_dup_in e) fd 0 c with
      | None => None
      | Some c => Some (close_at fd c)
      end
    end.

Definition max_fd (e : ChildEnv) : Z :=
  match ce_nofile e with
  | Some n => n
  | None => if 0 <? ce_open_max e then ce_open_max e else 65536
  end.

Definition drop_inherited (e : ChildEnv) c : Child :=
  c <| table := filter (fun '(fd, _) => fd < 3 \/ (ce_close_range e = false /\ max_fd e <= fd)) (table c) |>.

Definition backend_child (proto : splice_proto_t) (p : Ends) (e : ChildEnv) (inherited : gmap Z file)
    (want_audio : bool) (vbsf : option bytes) (lport : Z) : outcome :=
  let c := Build_Child inherited true false None None in
  if ce_orphan e then Exit 0
  else
    let c := close_at (media0 p) (confined c) in
    match dup2 (ce_dup_out e) (media1 p) 1 c with
    | None => Exit 126
    | Some c =>
      match take_stdin proto p e (close_at (media1 p) c) with
      | None => Exit 126
      | Some c => if ce_exec e then Exec (drop_inherited e c) (backend_argv proto want_audio vbsf lport) else Exit 127
      end
    end.

(** ** What it is left with *)

(** The table as fork leaves it: the pipes' ends, and the proxy's own standard descriptors. *)
Record forked_ok (proto : splice_proto_t) (p : Ends) (t : gmap Z file) : Prop := {
  fk_media : t !! media0 p = Some MediaRead /\ t !! media1 p = Some MediaWrite;
  fk_feed : piped proto = true -> t !! feed0 p = Some FeedChild /\ t !! feed1 p = Some FeedParent;
  fk_std : forall fd, 0 <= fd < 3 -> exists n, t !! fd = Some (Inherited n)
}.

(** Everything can be closed: by [close_range], or because the limit is above every descriptor. *)
Definition closable (e : ChildEnv) (t : gmap Z file) : Prop :=
  ce_close_range e = true \/ forall fd, is_Some (t !! fd) -> fd < max_fd e.

Lemma end_not_std proto p t fd f : forked_ok proto p t -> t !! fd = Some f -> (forall n, f <> Inherited n) -> ~ 0 <= fd < 3.
Proof. intros [_ _ H] E Hf Hr. destruct (H fd Hr) as [n En]. rewrite E in En. injection En as ->. by apply (Hf n). Qed.

Lemma drop_lookup e c fd :
  table (drop_inherited e c) !! fd
  = if decide (fd < 3 \/ (ce_close_range e = false /\ max_fd e <= fd)) then table c !! fd else None.
Proof.
  unfold drop_inherited. cbn [table]. rewrite map_lookup_filter. destruct (table c !! fd) as [f|]; cbn [mbind option_bind]; [|by case_decide].
  case_decide as D; [by rewrite option_guard_True|by rewrite option_guard_False].
Qed.

(** Nothing above [fd] is there that was not before. *)
Definition only (t t' : gmap Z file) : Prop := forall fd, 3 <= fd -> is_Some (t' !! fd) -> is_Some (t !! fd).

Ltac through_table := repeat first [rewrite lookup_delete_ne by lia | rewrite lookup_insert_ne by lia | rewrite lookup_insert_eq].

Lemma stdin_taken proto p e t c c' :
  forked_ok proto p t -> (forall fd, ce_devnull e = Some fd -> 3 <= fd) ->
  table c = delete (media1 p) (<[1 := MediaWrite]> (delete (media0 p) t)) ->
  take_stdin proto p e c = Some c' ->
  table c' !! 0 = (if piped proto then Some FeedChild else match ce_devnull e with Some _ => Some DevNull | None => t !! 0 end)
  /\ table c' !! 1 = Some MediaWrite /\ table c' !! 2 = t !! 2 /\ only t (table c')
  /\ (death_signal c', no_new_privs c', mem_limit c', cpu_limit c') = (death_signal c, no_new_privs c, mem_limit c, cpu_limit c).
Proof.
  intros F Hd Et. pose proof (fk_media _ _ _ F) as [M0 M1].
  pose proof (end_not_std _ _ _ _ _ F M0 ltac:(done)) as N0. pose proof (end_not_std _ _ _ _ _ F M1 ltac:(done)) as N1.
  unfold take_stdin. destruct (piped proto) eqn:Ep.
  - destruct (fk_feed _ _ _ F Ep) as [F0 F1].
    pose proof (end_not_std _ _ _ _ _ F F0 ltac:(done)) as N2. pose proof (end_not_std _ _ _ _ _ F F1 ltac:(done)) as N3.
    assert (D : feed0 p <> feed1 p /\ feed0 p <> media0 p /\ feed0 p <> media1 p) by (split_and!; intros E; congruence).
    unfold dup2, close_at. destruct (ce_dup_in e); [|done]. cbn [table]. rewrite Et. through_table. rewrite F0.
    intros [= <-]. cbn [table death_signal no_new_privs mem_limit cpu_limit]. split_and!; [by through_table..| |done].
    intros fd Hfd [f Hf]. apply lookup_delete_Some in Hf as [_ Hf]. rewrite lookup_insert_ne in Hf by lia.
    apply lookup_delete_Some in Hf as [_ Hf]. apply lookup_delete_Some in Hf as [_ Hf]. rewrite lookup_insert_ne in Hf by lia.
    apply lookup_delete_Some in Hf as [_ Hf]. by eexists.
  - destruct (ce_devnull e) as [dn|] eqn:En.
    + specialize (Hd dn eq_refl). unfold dup2, close_at. destruct (ce_dup_in e); [|done]. cbn [table]. rewrite lookup_insert_eq.
      intros [= <-]. cbn [table death_signal no_new_privs mem_limit cpu_limit]. rewrite Et. split_and!; [by through_table..| |done].
      intros fd Hfd [f Hf]. apply lookup_delete_Some in Hf as [Hne Hf]. rewrite !lookup_insert_ne in Hf by lia.
      apply lookup_delete_Some in Hf as [_ Hf]. rewrite lookup_insert_ne in Hf by lia.
      apply lookup_delete_Some in Hf as [_ Hf]. by eexists.
    + intros [= <-]. rewrite Et. split_and!; [by through_table..| |done].
      intros fd Hfd [f Hf]. apply lookup_delete_Some in Hf as [_ Hf]. rewrite lookup_insert_ne in Hf by lia.
      apply lookup_delete_Some in Hf as [_ Hf]. by eexists.
Qed.

(** What becomes ffmpeg has three descriptors: the media pipe for output, its feed (or /dev/null, or, when
    that cannot be opened, the proxy's own) for input, the proxy's standard error; it is confined, and dies with the proxy. *)
Theorem backend_inherits_nothing proto p e t want_audio vbsf lport c argv :
  forked_ok proto p t -> (forall fd, ce_devnull e = Some fd -> 3 <= fd) -> closable e t ->
  backend_child proto p e t want_audio vbsf lport = Exec c argv ->
  table c !! 0 = (if piped proto then Some FeedChild else match ce_devnull e with Some _ => Some DevNull | None => t !! 0 end)
  /\ table c !! 1 = Some MediaWrite /\ table c !! 2 = t !! 2 /\ (forall fd, 3 <= fd -> table c !! fd = None)
  /\ death_signal c = true /\ no_new_privs c = true
  /\ mem_limit c = Some RTSP_BACKEND_MEM_BYTES /\ cpu_limit c = Some RTSP_BACKEND_CPU_SECONDS
  /\ argv = backend_argv proto want_audio vbsf lport.
Proof.
  intros F Hd Hc. pose proof (fk_media _ _ _ F) as [M0 M1]. unfold backend_child. destruct (ce_orphan e); [done|].
  unfold dup2 at 1. destruct (ce_dup_out e); [|done]. cbn [table close_at confined].
  rewrite lookup_delete_ne by (intros E; rewrite E in M0; congruence). rewrite M1.
  match goal with |- context [take_stdin proto p e ?x] => set (c0 := x) end.
  destruct (take_stdin proto p e c0) as [c1|] eqn:Et; [|done]. destruct (ce_exec e); [|done]. intros [= <- <-].
  destruct (stdin_taken proto p e t c0 c1 F Hd eq_refl Et) as (T0 & T1 & T2 & To & Ek). injection Ek as K1 K2 K3 K4. cbn in K1, K2, K3, K4.
  rewrite !drop_lookup, !decide_True by lia. split_and!; try done. intros fd Hfd. rewrite drop_lookup. case_decide as D; [|done].
  destruct D as [|[D1 D2]]; [lia|]. destruct Hc as [Hc|Hc]; [congruence|]. apply eq_None_not_Some. intros Hs.
  specialize (Hc fd (To fd Hfd Hs)). lia.
Qed.

(** The command line fits its array with its terminator. *)
Theorem backend_argv_fits proto want_audio vbsf lport : (length (backend_argv proto want_audio vbsf lport) < 40)%nat.
Proof.
  assert (Hb : (length (match vbsf with Some (c :: f) => [bs "-bsf:v"; c :: f] | _ => [] end : list bytes) <= 2)%nat) by by destruct vbsf as [[|]|]; cbn; lia.
  unfold backend_argv. rewrite !length_app. destruct proto, want_audio; cbn [length]; lia.
Qed.

(** ** A witness *)

Definition demo_ends : Ends := {| media0 := 7; media1 := 8; feed0 := 9; feed1 := 10 |}.
Definition demo_table : gmap Z file :=
  {[ 0 := Inherited 0; 1 := Inherited 1; 2 := Inherited 2; 5 := Inherited 5; 7 := MediaRead; 8 := MediaWrite; 9 := FeedChild; 10 := FeedParent ]}.
Definition demo_child : ChildEnv := {| ce_orphan := false; ce_dup_out := true; ce_dup_in := true; ce_devnull := Some 7; ce_close_range := false;
  ce_nofile := Some 1024; ce_open_max := 0; ce_exec := true |}.

Lemma backend_inherits_nothing_witness :
  match backend_child SPLICE_RTMP demo_ends demo_child demo_table false None 0 with
  | Exec c _ => table c !! 0 = Some FeedChild /\ table c !! 5 = None
  | Exit _ => False
  end.
Proof.
  assert (F : forked_ok SPLICE_RTMP demo_ends demo_table).
  { split; [by split|by split|]. intros fd Hfd. assert (fd = 0 \/ fd = 1 \/ fd = 2) as [->|[->| ->]] by lia; by eexists. }
  assert (C : closable demo_child demo_table).
  { right. intros fd Hs. assert (Hall : map_Forall (fun fd _ => fd < 1024) demo_table) by decide_vm. destruct Hs as [f Hf]. exact (Hall fd f Hf). }
  destruct (backend_child SPLICE_RTMP demo_ends demo_child demo_table false None 0) as [code|c argv] eqn:E; [vm_compute in E; discriminate E|].
  destruct (backend_inherits_nothing SPLICE_RTMP demo_ends demo_child demo_table false None 0 c argv F ltac:(intros fd [= <-]; lia) C E)
    as (W0 & _ & _ & W3 & _).
  split; [exact W0|apply W3; lia].
Defined.
